(* ===== verification/_CoqProject ===== *)
-Q . S2P
Prelude.v
SeqNum.v
Bitmap.v
BitmapFacts.v
Containers.v
Guid.v
CacheChange.v
CacheChangeFacts.v
Pools.v
PoolsFacts.v
GapBuilder.v
History.v
HistoryFacts.v
Locator.v
LocatorSelector.v
LocatorSelectorFacts.v
TimedEvent.v
TimedEventFacts.v
ReaderProxy.v
ReaderProxyFacts.v
StatefulWriter.v
StatefulWriterFacts.v
StatefulWriterOps.v
StatefulWriterMatching.v
StatefulWriterRuns.v
WriterProxy.v
WriterProxyFacts.v
RTPSReader.v
StatefulReader.v
StatefulReaderFacts.v
L2.v
L2Facts.v
XskRing.v
XDP.v
XDPFacts.v
DPDK.v
CDRMessage.v
CDRFacts.v
Messages.v
MessageReceiver.v
MessageFacts.v
ReceiverFacts.v
ReceiverSafety.v
ReaderKnowledge.v
Exchange.v
