(* ===== verification/Prelude.v ===== *)
(** * Verification of Fast DDS with user-space networking

    Fast DDS implements the DDS publish/subscribe middleware over the RTPS wire
    protocol; this repository adds transports that bypass the sockets of the
    kernel, over AF_XDP and over DPDK.  The development models the parts below as
    functions and step relations, and proves what makes them correct.  Paths are
    relative to src/.

    ** Parts of the program and how they interact

    A writer keeps its samples as _cache changes_ in a _writer history_; the changes
    and their payloads come from _pools_.  For each matched reader it keeps a
    _reader proxy_: what has been sent, acknowledged and requested, fragment by
    fragment, and a _gap builder_ for the numbers that will never be sent.  The
    _stateful writer_ composes them: it publishes, delivers, announces and takes
    acknowledgements.  The
    _message creator_ turns all of it into submessages of a _CDR message_.  On the
    other side the _message receiver_ decodes whatever octets arrive and dispatches
    them to the endpoints.  A reliable reader keeps a _writer proxy_ per matched
    writer: it records which sequence numbers are known, and from heartbeats decides
    what to request and what to report as lost.  Large samples are _assembled_ from
    fragments inside the payload of a change, and complete changes are kept in a
    _reader history_.  The _stateful reader_ composes the proxies and the history and
    tells its listener of each change once everything before it is known.  Requests are _sequence number sets_, bitmaps over a window of
    256 numbers.  Answers are delayed by _timed events_, which one _event service_
    thread runs for the whole participant.  A message goes to the locators a
    transport picks in the _locator selector_, whose entries are shared with the
    proxies and keep their locators in _resource-limited vectors_.  The _layer-2
    transports_ turn a locator into a hardware address and an ethertype, and move
    packets through rings shared with the kernel (XDP) or a driver (DPDK).

    ** Files

    - [Prelude]: machine integers with their wrap-around ([u8] ... [u64], [s32]),
      bits, little-endian octets, [memcmp], sorting, counting, the tactics [mlia],
      [range_unfold] and [bool_case], the hint databases, [outcome], the results
      of code that asserts, exits, is undefined or runs out of fuel, for builds with
      and without assertions, and the state monad [stateful] over it with [ends], the
      total correctness of a stateful operation.
    - [SeqNum], module [SN]: SequenceNumber_t, include/fastdds/rtps/common/
      SequenceNumber.h, one definition per operator.
    - [Bitmap], module [BitmapRange], and [BitmapFacts]: the BitmapRange template of
      include/fastrtps/utils/fixed_size_bitmap.hpp, over a class of items with its
      arithmetic, instantiated by sequence and fragment numbers.
    - [Containers], module [RLV]: ResourceLimitedVector.
    - [Guid], modules [EntityId], [GuidPrefix], [Guid]: identifiers, and the prefixes
      RTPSDomain.cpp and GuidUtils.hpp create.
    - [CacheChange], modules [Payload] and [CacheChange], and [CacheChangeFacts]:
      SerializedPayload.h and CacheChange.h of include/fastdds/rtps/common, with the
      list of missing fragments kept in the octets of the payload.
    - [Pools], modules [ChangePool] and [PayloadPool], and [PoolsFacts]:
      CacheChangePool.cpp and the topic payload pools of src/cpp/rtps/history.
    - [GapBuilder]: RTPSGapBuilder.cpp, over the class [GapSink] of message groups.
    - [History], modules [History], [WriterHistory] and [ReaderHistory], and
      [HistoryFacts]: src/cpp/rtps/history.  Virtual methods are the class
      [HistoryImpl]; what a history calls in its writer or reader are the classes
      [HistoryWriter] and [HistoryReader].
    - [Locator]: Locator_t, the predicates of IPLocator.cpp, and the filtering of
      remote locators in src/cpp/rtps/network/utils/external_locators.cpp.
    - [LocatorSelector] and [LocatorSelectorFacts]: the selector over a store of
      shared entries, its iterator, and UDPTransportInterface::select_locators.
    - [TimedEvent], modules [TimedEventImpl] and [ResourceEvent], and
      [TimedEventFacts]: src/cpp/rtps/resources.  The timers are a heap; the service
      thread and the other threads are the step relation [ResourceEvent.step].
    - [ReaderProxy], modules [ChangeForReader], [ReaderLocator] and [ReaderProxy],
      and [ReaderProxyFacts]: the same-named classes of src/cpp/rtps/writer.
    - [StatefulWriter]: src/cpp/rtps/writer/StatefulWriter.cpp in the same monad, over
      the class [WriterEnv] of the message group, the transports, the flow controller,
      the listener and the pools.  [StatefulWriterFacts]: the law class
      [WriterEnvLaws], the invariant [winv] of the writer, its history and its proxies,
      and the operations that only speak or remove; [StatefulWriterOps]:
      acknowledgements, requests, publication and delivery; [StatefulWriterMatching]:
      readers that come and go, construction; [StatefulWriterRuns]: any sequence of
      operations, the theorems and a concrete writer.
    - [WriterProxy] and [WriterProxyFacts]: src/cpp/rtps/reader/WriterProxy.cpp, the
      whole class; calls into the reader and the timers are a list of effects.
    - [RTPSReader]: the base class of readers, src/cpp/rtps/reader/RTPSReader.cpp, with
      the classes [ReaderPools] and [ReaderListener] of what a reader calls;
      [StatefulReader]: src/cpp/rtps/reader/StatefulReader.cpp as a state monad over
      the reader and its history, which refer to each other; [StatefulReaderFacts]:
      the invariant they keep together and what the listener is told;
      [ReaderKnowledge]: what a reader knows of one writer, and why.
    - [Exchange]: a stateful writer and a stateful reader over a network that loses,
      repeats and reorders, as steps of a system of both ([run], [admissible]): any
      submessage or acknowledgement that was ever sent may arrive at any time.
    - [L2], modules [PortParameters] and [L2], and [L2Facts]: ddsi_UserspaceL2Utils.h,
      ddsi_l2_transport.cpp, the kernel filter ddsi_xdp_l2_kern.c, PortParameters.h.
    - [XskRing]: the interface of libxdp's rings as the classes [ProdRing] and
      [ConsRing], their documented behaviour as [ProdLaws] and [ConsLaws], and an
      instance over lists.
    - [XDP] and [XDPFacts]: ddsi_XDPTransport.cpp and ddsi_XDPSenderResource.cpp,
      over any rings that obey the laws.
    - [DPDK]: ddsi_DPDKTransport.cpp and ddsi_DPDKSenderResource.cpp, over the class
      [DPDK.Dpdk] of DPDK's operations with the ownership rules [DPDK.DpdkLaws].
    - [CDRMessage], module [CDR], and [CDRFacts]: include/fastdds/rtps/messages/
      CDRMessage.hpp as a state monad over the message; the byte order of the target
      is the class [Target].  [CDRFacts] says what is written and read as octets.
    - [Messages], modules [RTPS] and [MessageCreator]: RTPSMessageCreator.cpp and
      src/cpp/rtps/messages/submessages, with the parameters of the inline QoS.
    - [MessageReceiver], modules [ParameterList] and [MessageReceiver]:
      MessageReceiver.cpp over the class [Endpoints] of readers and writers.
    - [MessageFacts]: submessages as data, and that the creator writes their octets;
      [ReceiverFacts]: that the receiver reads these octets back; [ReceiverSafety]:
      what the receiver does with any octets.

    ** What the theorems show

    - Writer and reader together, over a network that loses, repeats and reorders: what the
      writer counts as acknowledged was told to the reader's application, octet for octet
      ([acknowledged_was_delivered]); only what was sent is told, once and in order
      ([exchange_safe]); and a lost sample is asked for by its number, sent anew and
      received ([lost_sample_recovered]).  The runs: samples are not split into fragments,
      fit the reader's history, are dropped by no filter and have rising source times; a
      reader that joins wants nothing from before; the first acknowledgement of a reader
      that is not volatile, whose base is zero, arrives only while nothing of the history
      counts as acknowledged by it; the listener wants each change and removes none by
      itself, and the application takes only what it was told of.
    - Messages: what a creator writes, a receiver of either byte order understands,
      submessage by submessage ([message_roundtrip]); on arbitrary octets the receiver
      ends and stays inside the buffer if sixteen octets behind the message are
      allocated ([receiver_total]), which [bare_key_overread] shows to matter.
    - Fragments: the list kept inside the payload refines a set of missing fragments,
      and fragments in any order assemble the sample; when the list leaves the payload.
    - Histories refine finite maps and stay ordered; pools hand out free payloads and
      count their references; removing all changes ends, if the writer agrees.
    - Reader proxies: acknowledgements and requests are exact, gaps never cover a
      change the reader still gets.  The gap builder declares exactly its input.
    - Stateful writers: in the runs below a writer meets no undefined behaviour, and
      everything it has ever sent is true of its history: data, gaps and heartbeats
      ([writer_run_safe]); what counts as acknowledged by all was acknowledged by each
      reliable reader ([acked_by_all_sound]); publication, acknowledgements and delivery
      do what they promise ([publication_exact], [acknack_processed],
      [sample_delivered]).  The message group may refuse what it is given or time out.  The
      runs leave out samples that are split, readers that join for a history that is not
      empty and want it, requests for numbers that are not published, and the first
      acknowledgement of a reader that is not volatile once part of the history counts as
      acknowledged by it: [delivery_never_ends], and the runs [late_joiner_overlooked] and
      [unpublished_number_announced], show what happens there.
    - Writer proxies refine a set of known numbers: receiving, losing and skipping
      changes are set operations, requests are exactly the unknown numbers of the
      window, lost samples are counted exactly, changes are notified in order, and
      a stopped proxy stays silent whatever runs concurrently.
    - Stateful readers: whatever unfragmented data, heartbeats and gaps arrive and whatever
      the listener removes while it is called, the reader meets no undefined behaviour and
      its listener is told of changes once each, in order, and only when nothing before
      them is missing ([delivery_in_order]); what a data message does
      ([data_stored_and_announced]); the count of unread changes.  Writers are matched and
      their source times rise with their numbers.  Fragments are left out; the runs
      [gap_announces_incomplete_change] and [fragments_used_after_release] show why.
    - The event service never touches a freed timer, keeps its vectors consistent
      and sorted, runs only due timers and, if no callback interferes, all of them.
      A timer that has a day or more to wait is lost, for good, in the first round that
      runs another one ([long_timer_lost]).
    - XDP: frames are conserved by sending and receiving, and what is sent is what
      is delivered; a message that is too big breaks this
      ([oversized_message_shifts_ring]), and announcements get through in the domains 0 to
      3 only ([discovery_domains]).  DPDK: the sender frees a transmitted buffer that
      belongs to the driver.
    - Layer-2 addressing: which ports are reachable; what the kernel filter takes; local
      locators; the selection of destinations.
    - Bitmaps: the optimised routines equal their item-by-item reference, the window
      moves as specified, iteration enumerates the items, the words round-trip;
      and the two operations that misbehave on an empty range.
    - Locators: the UDP selection reaches every reachable destination, the iterator
      visits what for_each does, filtering keeps the right locators.
    - Sequence numbers, identifiers, vectors: arithmetic within its asserts,
      orders, conversions and capacity limits.

    ** Bounds

    Loops are structural where they run over a container.  The others have fuel:
    [add_range_loop] has 9, one more than the 8 words of a bitmap; [word_items] has
    32, the bits of a word, as every round clears one; [go_to_next_entry] has one
    more than the selections, as every round moves to the next selection; the walks
    over missing fragments have the number of fragments; [read_parameters] and
    [process_submessages] have one more than the length of the message, and its length, as every round
    reads at least four octets, and [receiver_total] shows that this is enough;
    the loops of [NotifyChanges] have one more than the numbers from the one notified last to
    the low mark, or the length of the history, and [delivery_in_order] shows that
    they end; [iterate] and [drain] are loops of the client, and their theorems say how much
    fuel is enough.  [deliver_rounds] needs a round for a sample that is not split
    ([sample_delivered]) and may need any number for one that is.  The polling loops of the receive threads are modelled round by
    round.  Sequence numbers of proxies are below 2^63 - 1024, so that the window
    above them is representable; those of a stateful writer are below 2^62.

    ** What is not modelled

    Sockets, shared memory, persistence, security, the DDS layer, discovery, XML
    and statistics, stateless and persistent writers and readers.  Of the modelled files: data
    sharing and ownership strengths of readers; logging, stream operators, text parsers
    and name resolution; loading of BPF programs and set-up calls of libxdp and
    DPDK, whose results are arguments; the bounded locking of strict real-time
    builds; of stateful writers the readers of the same process, data sharing, disabled
    positive acknowledgements and waiting on condition variables; a round of the event
    service between the two halves of starting or cancelling a timer; memory that runs out,
    except for payloads that have to grow; the assertions of the operators of sequence
    numbers where other components use them; the branches of builds with security or statistics.  Floating-point
    intervals are represented by the integers they are converted to.  Octets of
    integers inside payloads are laid out for a little-endian host. *)

From Stdlib Require Export ZArith Lia Bool.
From stdpp Require Export base tactics numbers option sets sorting list.

#[export] Set Default Goal Selector "!".
#[global] Open Scope Z_scope.

(** ** Machine integers

    Unsigned [w]-bit values are the integers of [[0, 2^w)], signed ones those of
    [[-2^(w-1), 2^(w-1))].  The conversions below are the C++ conversions
    (modular for unsigned, two's complement for signed). *)

Definition u8 (x : Z) : Z := x mod 2 ^ 8.
Definition u16 (x : Z) : Z := x mod 2 ^ 16.
Definition u32 (x : Z) : Z := x mod 2 ^ 32.
Definition u64 (x : Z) : Z := x mod 2 ^ 64.
Definition s32 (x : Z) : Z := (x + 2 ^ 31) mod 2 ^ 32 - 2 ^ 31.

Definition is_u8 (x : Z) : Prop := 0 <= x < 2 ^ 8.
Definition is_u16 (x : Z) : Prop := 0 <= x < 2 ^ 16.
Definition is_u32 (x : Z) : Prop := 0 <= x < 2 ^ 32.
Definition is_u64 (x : Z) : Prop := 0 <= x < 2 ^ 64.
Definition is_s32 (x : Z) : Prop := - 2 ^ 31 <= x < 2 ^ 31.

Definition UINT16_MAX : Z := 2 ^ 16 - 1.
Definition UINT32_MAX : Z := 2 ^ 32 - 1.
Definition UINT64_MAX : Z := 2 ^ 64 - 1.
Definition INT32_MAX : Z := 2 ^ 31 - 1.

(** [__builtin_clz] on a non-zero 32-bit word. *)
Definition clz32 (x : Z) : Z := 31 - Z.log2 x.

(** ** Automation *)

Create HintDb mint.
Create Rewrite HintDb mint.

(** Unfolds the range predicates and the powers of two so that [lia] decides
    the goal. *)
Ltac range_unfold :=
  unfold is_u8, is_u16, is_u32, is_u64, is_s32,
    UINT16_MAX, UINT32_MAX, UINT64_MAX, INT32_MAX in *;
  change (2 ^ 8) with 256 in *;
  change (2 ^ 16) with 65536 in *;
  change (2 ^ 31) with 2147483648 in *;
  change (2 ^ 32) with 4294967296 in *;
  change (2 ^ 63) with 9223372036854775808 in *;
  change (2 ^ 64) with 18446744073709551616 in *.

Ltac wrap_unfold := unfold u8, u16, u32, u64, s32 in *; range_unfold.

(** Linear arithmetic over the wrapping operations. *)
Ltac mlia := wrap_unfold; Z.to_euclidean_division_equations; lia.

(** Splits every boolean comparison of the goal or of a hypothesis and turns
    it into an inequality. *)
Ltac bool_case :=
  repeat match goal with
  | |- context [?a =? ?b] => destruct (Z.eqb_spec a b)
  | |- context [?a <? ?b] => destruct (Z.ltb_spec a b)
  | |- context [?a <=? ?b] => destruct (Z.leb_spec a b)
  | H : context [?a =? ?b] |- _ => destruct (Z.eqb_spec a b)
  | H : context [?a <? ?b] |- _ => destruct (Z.ltb_spec a b)
  | H : context [?a <=? ?b] |- _ => destruct (Z.leb_spec a b)
  end; simpl in *; try discriminate.

Lemma u8_range x : is_u8 (u8 x).
Proof. mlia. Qed.
Lemma u16_range x : is_u16 (u16 x).
Proof. mlia. Qed.
Lemma u32_range x : is_u32 (u32 x).
Proof. mlia. Qed.
Lemma u64_range x : is_u64 (u64 x).
Proof. mlia. Qed.
Lemma s32_range x : is_s32 (s32 x).
Proof. mlia. Qed.

Lemma u8_small x : is_u8 x → u8 x = x.
Proof. apply Z.mod_small. Qed.
Lemma u16_small x : is_u16 x → u16 x = x.
Proof. apply Z.mod_small. Qed.
Lemma u32_small x : is_u32 x → u32 x = x.
Proof. apply Z.mod_small. Qed.
Lemma u64_small x : is_u64 x → u64 x = x.
Proof. apply Z.mod_small. Qed.
Lemma s32_small x : is_s32 x → s32 x = x.
Proof. intros; mlia. Qed.

#[export] Hint Resolve u8_range u16_range u32_range u64_range s32_range : mint.
#[export] Hint Rewrite u8_small u16_small u32_small u64_small s32_small
  using (wrap_unfold; lia) : mint.

(** ** Bits *)

Lemma testbit_u32 x i : 0 <= i → Z.testbit (u32 x) i = (i <? 32) && Z.testbit x i.
Proof.
  intros Hi. unfold u32. destruct (Z.ltb_spec i 32).
  - rewrite Z.mod_pow2_bits_low by lia. done.
  - rewrite Z.mod_pow2_bits_high by lia. done.
Qed.

Lemma testbit_u32_high x i : is_u32 x → 32 <= i → Z.testbit x i = false.
Proof.
  intros Hx Hi. rewrite <- (u32_small x) by done.
  rewrite testbit_u32 by lia. destruct (Z.ltb_spec i 32); [lia|done].
Qed.

Lemma testbit_one i : Z.testbit 1 i = (i =? 0).
Proof.
  destruct (Z.eqb_spec i 0) as [->|]; [done|].
  destruct (Z.ltb_spec i 0); [by rewrite Z.testbit_neg_r|].
  rewrite Z.bits_above_log2; [done|lia|simpl; lia].
Qed.

(** A 32-bit word is determined to be zero by its bits. *)
Lemma word_zero_iff x :
  is_u32 x → x = 0 ↔ ∀ i, 0 <= i < 32 → Z.testbit x i = false.
Proof.
  intros Hx. split; [intros -> i _; apply Z.bits_0|].
  intros Hbits. apply Z.bits_inj_0. intros i.
  destruct (Z.ltb_spec i 0); [by apply Z.testbit_neg_r|].
  destruct (Z.ltb_spec i 32); [apply Hbits; lia|by apply testbit_u32_high].
Qed.

Lemma land_u32 x y : is_u32 x → is_u32 (Z.land x y).
Proof.
  intros Hx. rewrite <- (u32_small x) by done.
  replace (Z.land (u32 x) y) with (u32 (Z.land x y)); [auto with mint|].
  apply Z.bits_inj'. intros i Hi.
  rewrite Z.land_spec, !testbit_u32, Z.land_spec by lia.
  destruct (i <? 32), (Z.testbit x i); done.
Qed.

Lemma lor_u32 x y : is_u32 x → is_u32 y → is_u32 (Z.lor x y).
Proof.
  intros Hx Hy. rewrite <- (u32_small x), <- (u32_small y) by done.
  replace (Z.lor (u32 x) (u32 y)) with (u32 (Z.lor x y)); [auto with mint|].
  apply Z.bits_inj'. intros i Hi.
  rewrite Z.lor_spec, !testbit_u32, Z.lor_spec by lia.
  destruct (i <? 32), (Z.testbit x i); done.
Qed.

Lemma shiftr_u32 x n : is_u32 x → 0 <= n → is_u32 (Z.shiftr x n).
Proof.
  intros Hx Hn. rewrite Z.shiftr_div_pow2 by lia. range_unfold.
  split; [apply Z.div_pos; lia|].
  apply Z.le_lt_trans with x; [|lia].
  apply Z.div_le_upper_bound; [lia|].
  assert (0 < 2 ^ n) by (apply Z.pow_pos_nonneg; lia). nia.
Qed.

#[export] Hint Resolve land_u32 lor_u32 shiftr_u32 : mint.

Lemma land_31 x : Z.land x 31 = x mod 32.
Proof. change 31 with (Z.ones 5). by rewrite Z.land_ones by lia. Qed.

Lemma shiftr_5 x : Z.shiftr x 5 = x / 32.
Proof. by rewrite Z.shiftr_div_pow2 by lia. Qed.

(** The lowest set bit, isolated as the code does with [b & ~(b - 1)]. *)
Lemma lowest_bit_isolate b :
  0 < b → ∃ k, 0 <= k ∧ Z.testbit b k = true ∧
    (∀ j, j < k → Z.testbit b j = false) ∧ Z.land b (Z.lnot (b - 1)) = 2 ^ k.
Proof.
  destruct b as [|p|p]; [lia| |lia]. intros _.
  induction p as [p _|p IH|].
  - exists 0. repeat split; [lia| |].
    + intros j Hj. by apply Z.testbit_neg_r.
    + rewrite Pos2Z.inj_xI. replace (2 * Z.pos p + 1 - 1) with (2 * Z.pos p) by lia.
      apply Z.bits_inj'. intros i Hi. rewrite Z.land_spec, Z.lnot_spec by done.
      rewrite testbit_one. destruct (Z.eqb_spec i 0) as [->|].
      * by rewrite Z.testbit_odd_0, Z.testbit_even_0.
      * replace i with (Z.succ (i - 1)) by lia.
        rewrite Z.testbit_odd_succ, Z.testbit_even_succ by lia.
        by destruct (Z.testbit _ _).
  - destruct IH as (k & Hk & Hbit & Hlow & Hland). exists (k + 1).
    rewrite Pos2Z.inj_xO.
    repeat split; [lia| | |].
    + rewrite Z.add_1_r, Z.testbit_even_succ by done. done.
    + intros j Hj. destruct (Z.ltb_spec j 0); [by apply Z.testbit_neg_r|].
      destruct (Z.eqb_spec j 0) as [->|]; [apply Z.testbit_even_0|].
      replace j with (Z.succ (j - 1)) by lia. rewrite Z.testbit_even_succ by lia.
      apply Hlow. lia.
    + rewrite Z.pow_add_r, <- Hland by lia.
      replace (2 * Z.pos p - 1) with (2 * (Z.pos p - 1) + 1) by lia.
      apply Z.bits_inj'. intros i Hi.
      rewrite (Z.mul_comm _ (2 ^ 1)). change (2 ^ 1) with 2.
      rewrite Z.land_spec, Z.lnot_spec by done.
      destruct (Z.eqb_spec i 0) as [->|].
      * by rewrite !Z.testbit_even_0.
      * replace i with (Z.succ (i - 1)) by lia.
        rewrite !Z.testbit_even_succ, Z.testbit_odd_succ by lia.
        rewrite Z.land_spec, Z.lnot_spec by lia. done.
  - exists 0. repeat split; [lia|]. intros j Hj. by apply Z.testbit_neg_r.
Qed.

(** ** Total list access *)

Lemma nth_set {A} (l : list A) i j x d :
  (i < length l)%nat →
  nth j (<[i:=x]> l) d = if decide (i = j) then x else nth j l d.
Proof.
  intros Hi. rewrite !nth_lookup. destruct (decide (i = j)) as [->|].
  - by rewrite list_lookup_insert_eq.
  - by rewrite list_lookup_insert_ne.
Qed.

(** ** Filtering intervals *)

Lemma filter_none {A} (P : A → Prop) `{!∀ x, Decision (P x)} (l : list A) :
  (∀ x, x ∈ l → ¬ P x) → filter P l = [].
Proof.
  induction l as [|x l IH]; intros Hno; [done|]. rewrite filter_cons_False.
  - apply IH. intros y Hy. apply Hno. by right.
  - apply Hno. by left.
Qed.

Lemma filter_same {A} (P Q : A → Prop) `{!∀ x, Decision (P x), !∀ x, Decision (Q x)}
    (l : list A) :
  (∀ x, x ∈ l → P x ↔ Q x) → filter P l = filter Q l.
Proof.
  induction l as [|x l IH]; intros Heq; [done|].
  assert (Hx : P x ↔ Q x) by (apply Heq; by left).
  rewrite !filter_cons, IH by (intros y Hy; apply Heq; by right).
  destruct (decide (P x)), (decide (Q x)); tauto || done.
Qed.

Lemma seqZ_split m n1 n2 :
  0 <= n1 → 0 <= n2 → seqZ m (n1 + n2) = seqZ m n1 ++ seqZ (m + n1) n2.
Proof. intros. by apply seqZ_app. Qed.

Lemma lxor_31 o : 0 <= o < 32 → Z.lxor 31 o = 31 - o.
Proof.
  intros Ho. assert (Hall : Forall (λ o, Z.lxor 31 o = 31 - o) (seqZ 0 32))
    by (vm_compute; repeat constructor).
  rewrite Forall_forall in Hall. apply Hall. apply elem_of_seqZ. lia.
Qed.

(** ** Octets *)

(** The [n] octets of [x], least significant first, and the value of octets in
    that order. *)
Fixpoint le_bytes (n : nat) (x : Z) : list Z :=
  match n with
  | O => []
  | S n => x mod 256 :: le_bytes n (x / 256)
  end.

Fixpoint le_val (l : list Z) : Z :=
  match l with
  | [] => 0
  | b :: l => b + 256 * le_val l
  end.

Lemma length_le_bytes n x : length (le_bytes n x) = n.
Proof. revert x. induction n; intros; simpl; auto. Qed.

Lemma le_bytes_u8 n x : Forall is_u8 (le_bytes n x).
Proof.
  revert x. induction n; intros; simpl; constructor; [|done]. range_unfold.
  by apply Z.mod_pos_bound.
Qed.

Lemma pow256_S n : 256 ^ Z.of_nat (S n) = 256 * 256 ^ Z.of_nat n.
Proof. rewrite Nat2Z.inj_succ, Z.pow_succ_r by lia. done. Qed.

Lemma le_val_bytes n x : 0 <= x < 256 ^ Z.of_nat n → le_val (le_bytes n x) = x.
Proof.
  revert x. induction n as [|n IH]; intros x Hx; simpl; [change (256 ^ Z.of_nat 0) with 1 in Hx; lia|].
  rewrite pow256_S in Hx. rewrite IH; [|split; [apply Z.div_pos; lia|apply Z.div_lt_upper_bound; lia]].
  rewrite (Z.div_mod x 256) at 3 by lia. lia.
Qed.

Lemma le_val_range l : Forall is_u8 l → 0 <= le_val l < 256 ^ Z.of_nat (length l).
Proof.
  induction 1 as [|b l Hb _ IH]; [simpl; lia|]. simpl length. rewrite pow256_S. simpl.
  range_unfold. lia.
Qed.

Lemma le_bytes_val l : Forall is_u8 l → le_bytes (length l) (le_val l) = l.
Proof.
  induction 1 as [|b l Hb _ IH]; [done|]. simpl. range_unfold. f_equal.
  - rewrite (Z.mul_comm 256), Z.mod_add by lia. by apply Z.mod_small.
  - rewrite (Z.mul_comm 256), Z.div_add by lia. by rewrite Z.div_small, Z.add_0_l.
Qed.

#[export] Hint Resolve le_bytes_u8 : mint.

(** Joining disjoint bits is adding. *)
Lemma lor_shiftl_add a b k : 0 <= k → 0 <= a < 2 ^ k → Z.lor a (Z.shiftl b k) = a + b * 2 ^ k.
Proof.
  intros Hk Ha. rewrite <- Z.shiftl_mul_pow2 by done.
  rewrite <- (Z.add_lor_land a (Z.shiftl b k)).
  replace (Z.land a (Z.shiftl b k)) with 0; [lia|]. symmetry. apply Z.bits_inj'.
  intros i Hi. rewrite Z.land_spec, Z.bits_0, Z.shiftl_spec by done.
  destruct (Z.ltb_spec i k).
  - rewrite (Z.testbit_neg_r b) by lia. apply andb_false_r.
  - rewrite <- (Z.mod_small a (2 ^ k)), Z.mod_pow2_bits_high by lia. done.
Qed.

(** Masking one octet in place. *)
Lemma land_octet x k :
  0 <= k → Z.land (Z.shiftl 255 k) x = Z.shiftl (Z.shiftr x k mod 256) k.
Proof.
  intros Hk. change 256 with (2 ^ 8). rewrite <- Z.land_ones by lia. change (Z.ones 8) with 255.
  apply Z.bits_inj'. intros i Hi. rewrite Z.land_spec, !Z.shiftl_spec by done.
  destruct (Z.ltb_spec i k); [by rewrite !(Z.testbit_neg_r _ (i - k)) by lia|].
  rewrite Z.land_spec, Z.shiftr_spec by lia. replace (i - k + k) with i by lia.
  apply andb_comm.
Qed.

(** ** Comparing octet strings *)

(** The sign of [memcmp] on the first [n] octets. *)
Fixpoint memcmp (n : nat) (a b : list Z) : Z :=
  match n, a, b with
  | S n, x :: a, y :: b =>
      if x <? y then -1 else if y <? x then 1 else memcmp n a b
  | _, _, _ => 0
  end.

Lemma memcmp_eq n a b :
  length a = length b → (memcmp n a b = 0 ↔ take n a = take n b).
Proof.
  revert a b. induction n as [|n IH]; intros [|x a] [|y b] Hlen; simpl in *; try done.
  destruct (Z.ltb_spec x y); [split; [lia|intros Heq; injection Heq; lia]|].
  destruct (Z.ltb_spec y x); [split; [lia|intros Heq; injection Heq; lia]|].
  assert (x = y) as -> by lia. rewrite IH by lia. split; [by intros ->|by intros [= ->]].
Qed.

Lemma memcmp_antisym n a b : memcmp n b a = - memcmp n a b.
Proof.
  revert a b. induction n as [|n IH]; intros [|x a] [|y b]; simpl; try done.
  destruct (Z.ltb_spec x y), (Z.ltb_spec y x); try lia. apply IH.
Qed.

Lemma memcmp_trans n a b c :
  length a = length b → length b = length c →
  memcmp n a b < 0 → memcmp n b c < 0 → memcmp n a c < 0.
Proof.
  revert a b c. induction n as [|n IH]; intros [|x a] [|y b] [|z c] ? ?; simpl in *; try done.
  destruct (Z.ltb_spec x y), (Z.ltb_spec y x), (Z.ltb_spec y z), (Z.ltb_spec z y),
    (Z.ltb_spec x z), (Z.ltb_spec z x); try lia. apply IH; lia.
Qed.

Lemma memcmp_app n m a1 a2 b1 b2 :
  length a1 = n → length a2 = n →
  memcmp (n + m) (a1 ++ b1) (a2 ++ b2) =
    if memcmp n a1 a2 =? 0 then memcmp m b1 b2 else memcmp n a1 a2.
Proof.
  revert a1 a2. induction n as [|n IH]; intros [|x a1] [|y a2] ? ?; simpl in *; try done.
  destruct (Z.ltb_spec x y); [done|]. destruct (Z.ltb_spec y x); [done|]. apply IH; lia.
Qed.

(** ** Sorting *)

(** [std::sort] by a key; equal keys keep their order. *)
Definition by_key {A} (key : A → Z) (x y : A) : Prop := key x <= key y.

#[export] Instance by_key_dec {A} (key : A → Z) x y : Decision (by_key key x y).
Proof. unfold by_key. apply _. Defined.

Definition sort_by {A} (key : A → Z) (l : list A) : list A := merge_sort (by_key key) l.

#[export] Instance key_total {A} (key : A → Z) : Total (by_key key).
Proof. intros x y. unfold by_key. lia. Qed.

#[export] Instance key_transitive {A} (key : A → Z) : Transitive (by_key key).
Proof. intros x y z. unfold by_key. lia. Qed.

Lemma sort_by_perm {A} (key : A → Z) l : sort_by key l ≡ₚ l.
Proof. apply merge_sort_Permutation. Qed.

Lemma sort_by_sorted {A} (key : A → Z) l : StronglySorted (by_key key) (sort_by key l).
Proof. apply StronglySorted_merge_sort; apply _. Qed.

(** ** Counting gaps *)

Lemma length_filter_complement {A} (P : A → Prop) `{!∀ x, Decision (P x)} (l : list A) :
  (length (filter P l) + length (filter (λ x, ¬ P x) l) = length l)%nat.
Proof.
  induction l as [|x l IH]; [done|]. rewrite !filter_cons.
  destruct (decide (P x)); destruct (decide (¬ P x)); try tauto; simpl; lia.
Qed.

(** Of the [n] integers from [a] on, those outside a duplicate-free list that
    lies inside the interval. *)
Lemma count_outside (l : list Z) a n :
  0 <= n → NoDup l → (∀ x, x ∈ l → a <= x < a + n) →
  Z.of_nat (length (filter (λ x, x ∉ l) (seqZ a n))) = n - Z.of_nat (length l).
Proof.
  intros Hn Hnd Hin.
  assert (Hl : length (filter (λ x, x ∈ l) (seqZ a n)) = length l).
  { apply Permutation_length, NoDup_Permutation; [apply NoDup_filter, NoDup_seqZ|done|].
    intros x. rewrite list_elem_of_filter, elem_of_seqZ. split; [by intros [? _]|].
    intros Hx. split; [done|]. specialize (Hin x Hx). lia. }
  pose proof (length_filter_complement (λ x, x ∈ l) (seqZ a n)) as Hc.
  rewrite length_seqZ in Hc. lia.
Qed.

Lemma StronglySorted_lt_NoDup (l : list Z) : StronglySorted Z.lt l → NoDup l.
Proof.
  induction 1 as [|x l _ IH Hall]; constructor; [|done]. intros Hx.
  rewrite Forall_forall in Hall. specialize (Hall x Hx). lia.
Qed.

(** The part of an increasing list below a bound is a prefix of it. *)
Lemma count_gaps (l : list Z) a b :
  a <= b → StronglySorted Z.lt l → (∀ x, x ∈ l → a <= x) →
  Z.of_nat (length (filter (λ x, x ∉ l) (seqZ a (b - a)))) =
    b - a - Z.of_nat (length (filter (λ x, x < b) l)).
Proof.
  intros Hab Hs Hge.
  rewrite <- (count_outside (filter (λ x, x < b) l) a (b - a)); [|lia| |].
  - do 2 f_equal. apply filter_same. intros x Hx. apply elem_of_seqZ in Hx.
    rewrite list_elem_of_filter. split; [by intros ? [_ ?]|]. intros Hn Hl. apply Hn. split; [lia|done].
  - apply NoDup_filter. by apply StronglySorted_lt_NoDup.
  - intros x [Hx Hl]%list_elem_of_filter. specialize (Hge x Hl). lia.
Qed.

(** ** Outcomes

    Code that asserts or leaves the process: an assertion that fails stops a
    build with assertions and is not evaluated in a build without them
    ([ndebug]).  [Undefined] is an access outside an object, [Unfinished] a loop
    that has used up its bound. *)

Inductive outcome (A : Type) :=
  | Done (a : A)
  | AssertFailed
  | Exited
  | Undefined
  | Unfinished.
Arguments Done {A} a.
Arguments AssertFailed {A}.
Arguments Exited {A}.
Arguments Undefined {A}.
Arguments Unfinished {A}.

#[export] Instance outcome_ret : MRet outcome := @Done.
#[export] Instance outcome_bind : MBind outcome := λ A B f m,
  match m with
  | Done a => f a
  | AssertFailed => AssertFailed
  | Exited => Exited
  | Undefined => Undefined
  | Unfinished => Unfinished
  end.

Definition assert_ (ndebug condition : bool) : outcome unit :=
  if ndebug || condition then Done tt else AssertFailed.

Lemma assert_true ndebug condition : condition = true → assert_ ndebug condition = Done tt.
Proof. intros ->. unfold assert_. by rewrite orb_true_r. Qed.

Lemma bind_Done {A B} (f : A → outcome B) (m : outcome A) y :
  m ≫= f = Done y ↔ ∃ x, m = Done x ∧ f x = Done y.
Proof.
  destruct m as [a| | | |]; split; try done; try by intros (x & ? & _).
  - intros E. by exists a.
  - by intros (x & [= ->] & E).
Qed.

(** ** Stateful code

    Code that reads and changes a state [S]. *)

Definition stateful (S A : Type) : Type := S → outcome (A * S).

#[export] Instance stateful_ret S : MRet (stateful S) := λ A a s, Done (a, s).
#[export] Instance stateful_bind S : MBind (stateful S) := λ A B f p s, '(a, s) ← p s; f a s.

Definition get_state {S} : stateful S S := λ s, Done (s, s).
Definition put_state {S} (s : S) : stateful S unit := λ _, Done (tt, s).
Definition lift_outcome {S A} (o : outcome A) : stateful S A := λ s, a ← o; Done (a, s).
Definition undefined {S A} : stateful S A := λ _, Undefined.
Definition unfinished {S A} : stateful S A := λ _, Unfinished.

Lemma bind_step {S A B} (p : stateful S A) (k : A → stateful S B) s a s' :
  p s = Done (a, s') → (p ≫= k) s = k a s'.
Proof. intros E. unfold mbind, stateful_bind. by rewrite E. Qed.

(** The code ends without a failing assertion or undefined behaviour, in a result
    and a state with [Q]. *)
Definition ends {S A} (o : outcome (A * S)) (Q : A → S → Prop) : Prop := ∃ a s, o = Done (a, s) ∧ Q a s.

Lemma ends_ret {S A} (a : A) (s : S) (Q : A → S → Prop) : Q a s → ends (mret (M:=stateful S) a s) Q.
Proof. intros HQ. by exists a, s. Qed.

Lemma ends_bind {S A B} (p : stateful S A) (k : A → stateful S B) s (Q : A → S → Prop) (R : B → S → Prop) :
  ends (p s) Q → (∀ a s', Q a s' → ends (k a s') R) → ends ((p ≫= k) s) R.
Proof. intros (a & s' & E & HQ) Hk. rewrite (bind_step _ _ _ _ _ E). by apply Hk. Qed.

Lemma ends_impl {S A} (o : outcome (A * S)) (Q R : A → S → Prop) :
  ends o Q → (∀ a s, Q a s → R a s) → ends o R.
Proof. intros (a & s & E & HQ) HR. exists a, s. split; [done|]. by apply HR. Qed.

Lemma ends_and {S A} (o : outcome (A * S)) (Q R : A → S → Prop) : ends o Q → ends o R → ends o (λ a s, Q a s ∧ R a s).
Proof. intros (a & s & E & HQ) (a' & s' & E' & HR). exists a, s. rewrite E in E'. injection E' as <- <-. done. Qed.

Lemma ends_lift {S A} (o : outcome A) a (s : S) (Q : A → S → Prop) : o = Done a → Q a s → ends (lift_outcome o s) Q.
Proof. intros -> HQ. by exists a, s. Qed.

(** Splits the sequences in the hypotheses that are done. *)
Ltac done_inv :=
  repeat match goal with
  | H : ?m ≫= ?f = Done ?y |- _ =>
      let x := fresh "x" in let E := fresh "E" in apply bind_Done in H as (x & E & H)
  | H : Done _ = Done _ |- _ => injection H as H
  | H : mret _ = Done _ |- _ => injection H as H
  end.
