(* ===== verification/SeqNum.v ===== *)
(** * Sequence numbers

    The 64-bit sequence numbers of RTPS, kept by the code as a signed high word
    and an unsigned low word (include/fastdds/rtps/common/SequenceNumber.h).
    Every operator of the header is a definition on the two words, with its
    wrap-around; [val] is the integer a pair of words denotes and the theorems
    relate the operators to integer arithmetic and order.  The [assert]s of the
    operators are boolean definitions of their own ([..._assert]), shown to hold for the
    numbers that stay in range; the components that use an operator do not carry its
    assertion along, so that the failing assertions of their outcomes are those of the
    components' own code. *)

From S2P Require Import Prelude.

Module SN.

Record SequenceNumber_t := mkSN { high : Z; low : Z }.

#[export] Instance SequenceNumber_eq_dec : EqDecision SequenceNumber_t.
Proof. solve_decision. Defined.

(** ** Constructors and conversions *)

Definition default : SequenceNumber_t := mkSN 0 0.

Definition of_u64 (u : Z) : SequenceNumber_t :=
  mkSN (s32 (Z.shiftr u 32)) (u32 u).

Definition to64long (s : SequenceNumber_t) : Z :=
  u64 (u64 (Z.shiftl (u64 (high s)) 32) + low s).

Definition unknown : SequenceNumber_t := mkSN (-1) 0.

Definition c_SequenceNumber_Unknown : SequenceNumber_t := mkSN (-1) 0.

(** ** Increments *)

Definition incr (s : SequenceNumber_t) : SequenceNumber_t :=
  let low' := u32 (low s + 1) in
  if low' =? 0 then mkSN (s32 (high s + 1)) low' else mkSN (high s) low'.

Definition incr_assert (s : SequenceNumber_t) : bool :=
  if u32 (low s + 1) =? 0 then high s <? INT32_MAX else true.

(** [s++]: the value before the increment, and the incremented object. *)
Definition post_incr (s : SequenceNumber_t) : SequenceNumber_t * SequenceNumber_t :=
  (s, incr s).

Definition add_assign (s : SequenceNumber_t) (inc : Z) : SequenceNumber_t :=
  let aux_low := low s in
  let low' := u32 (low s + u32 inc) in
  if low' <? aux_low then mkSN (s32 (high s + 1)) low' else mkSN (high s) low'.

Definition add_assign_assert (s : SequenceNumber_t) (inc : Z) : bool :=
  (0 <=? inc) &&
  (if u32 (low s + u32 inc) <? low s then high s <? INT32_MAX else true).

(** ** Comparisons *)

Definition eqb (s1 s2 : SequenceNumber_t) : bool :=
  (low s1 =? low s2) && (high s1 =? high s2).

Definition neqb (s1 s2 : SequenceNumber_t) : bool :=
  negb (low s1 =? low s2) || negb (high s1 =? high s2).

Definition gtb (s1 s2 : SequenceNumber_t) : bool :=
  if high s1 =? high s2 then low s2 <? low s1 else high s2 <? high s1.

Definition ltb (s1 s2 : SequenceNumber_t) : bool :=
  if high s1 =? high s2 then low s1 <? low s2 else high s1 <? high s2.

Definition geb (s1 s2 : SequenceNumber_t) : bool :=
  if high s1 =? high s2 then low s2 <=? low s1 else high s2 <? high s1.

Definition leb (s1 s2 : SequenceNumber_t) : bool :=
  if high s1 =? high s2 then low s1 <=? low s2 else high s1 <? high s2.

(** The ordering predicate handed to the standard sort. *)
Definition sort_seqNum (s1 s2 : SequenceNumber_t) : bool := ltb s1 s2.

(** [std::min]: the second argument only when it is smaller. *)
Definition min (a b : SequenceNumber_t) : SequenceNumber_t := if ltb b a then b else a.

(** ** Arithmetic *)

Definition sub_u32 (s : SequenceNumber_t) (inc : Z) : SequenceNumber_t :=
  let res := mkSN (high s) (u32 (low s - inc)) in
  if low s <? inc then mkSN (s32 (high res - 1)) (low res) else res.

Definition sub_u32_assert (s : SequenceNumber_t) (inc : Z) : bool :=
  if low s <? inc then 0 <? high s else true.

Definition add_u32 (s : SequenceNumber_t) (inc : Z) : SequenceNumber_t :=
  let res := mkSN (high s) (u32 (low s + inc)) in
  if low res <? low s then mkSN (s32 (high res + 1)) (low res) else res.

Definition add_u32_assert (s : SequenceNumber_t) (inc : Z) : bool :=
  if u32 (low s + inc) <? low s then high s <? INT32_MAX else true.

Definition sub (minuend subtrahend : SequenceNumber_t) : SequenceNumber_t :=
  let res := mkSN (s32 (high minuend - high subtrahend))
                  (u32 (low minuend - low subtrahend)) in
  if low minuend <? low subtrahend then mkSN (s32 (high res - 1)) (low res) else res.

Definition sub_assert (minuend subtrahend : SequenceNumber_t) : bool :=
  geb minuend subtrahend &&
  (if low minuend <? low subtrahend
   then 0 <? s32 (high minuend - high subtrahend) else true).

(** [SequenceNumberDiff]: the low word of the difference. *)
Definition SequenceNumberDiff (a b : SequenceNumber_t) : Z := low (sub a b).

(** [SequenceNumberHash]: the 64-bit value, as a [size_t] of 64 bits. *)
Definition SequenceNumberHash (s : SequenceNumber_t) : Z := to64long s.

(** ** Denotation *)

(** A pair of words of the right widths. *)
Definition wf (s : SequenceNumber_t) : Prop := is_s32 (high s) ∧ is_u32 (low s).

(** The integer a sequence number denotes. *)
Definition val (s : SequenceNumber_t) : Z := high s * 2 ^ 32 + low s.

(** The non-negative sequence numbers, which a writer assigns. *)
Definition nonneg (s : SequenceNumber_t) : Prop := wf s ∧ 0 <= high s.

Ltac sn_unfold :=
  unfold nonneg, wf, val, default, unknown, add_u32, add_u32_assert, sub_u32,
    sub_u32_assert, add_assign, add_assign_assert, incr, incr_assert, sub,
    sub_assert, gtb, ltb, geb, leb, eqb, neqb, SequenceNumberDiff in *;
  simpl high in *; simpl low in *; wrap_unfold.

(** Unfolds the operators, splits their tests and decides with [lia]. *)
Ltac sn_solve :=
  sn_unfold; bool_case; sn_unfold; Z.to_euclidean_division_equations; lia.

Lemma val_inj s1 s2 : wf s1 → wf s2 → val s1 = val s2 → s1 = s2.
Proof.
  destruct s1, s2. unfold wf, val; simpl. intros [? ?] [? ?] Hval. range_unfold.
  f_equal; lia.
Qed.

Lemma val_range s : wf s → - 2 ^ 63 <= val s < 2 ^ 63.
Proof. intros. sn_unfold. lia. Qed.

Lemma nonneg_val s : wf s → nonneg s ↔ 0 <= val s.
Proof. intros. sn_unfold. split; intros; lia. Qed.

(** ** Comparisons are the integer order *)

Lemma eqb_val s1 s2 : wf s1 → wf s2 → eqb s1 s2 = (val s1 =? val s2).
Proof. intros. sn_unfold. bool_case; try reflexivity; lia. Qed.
Lemma gtb_val s1 s2 : wf s1 → wf s2 → gtb s1 s2 = (val s2 <? val s1).
Proof. intros. sn_unfold. bool_case; try reflexivity; lia. Qed.
Lemma ltb_val s1 s2 : wf s1 → wf s2 → ltb s1 s2 = (val s1 <? val s2).
Proof. intros. sn_unfold. bool_case; try reflexivity; lia. Qed.
Lemma geb_val s1 s2 : wf s1 → wf s2 → geb s1 s2 = (val s2 <=? val s1).
Proof. intros. sn_unfold. bool_case; try reflexivity; lia. Qed.
Lemma leb_val s1 s2 : wf s1 → wf s2 → leb s1 s2 = (val s1 <=? val s2).
Proof. intros. sn_unfold. bool_case; try reflexivity; lia. Qed.

Lemma eqb_eq s1 s2 : eqb s1 s2 = true ↔ s1 = s2.
Proof.
  unfold eqb. rewrite andb_true_iff, !Z.eqb_eq. destruct s1, s2; simpl.
  split; [intros [-> ->]|inversion 1]; done.
Qed.

Lemma neqb_negb s1 s2 : neqb s1 s2 = negb (eqb s1 s2).
Proof. unfold neqb, eqb. by rewrite negb_andb. Qed.

Lemma min_val a b : wf a → wf b → val (min a b) = Z.min (val a) (val b).
Proof. intros. unfold min. rewrite ltb_val by done. bool_case; lia. Qed.
Lemma min_wf a b : wf a → wf b → wf (min a b).
Proof. unfold min. by destruct (ltb b a). Qed.

(** ** Arithmetic is integer arithmetic while it fits *)

Lemma add_u32_wf s n : wf s → is_u32 n → wf (add_u32 s n).
Proof. intros. sn_solve. Qed.

Lemma add_u32_val s n :
  wf s → is_u32 n → val s + n < 2 ^ 63 →
  val (add_u32 s n) = val s + n ∧ add_u32_assert s n = true.
Proof. intros. sn_unfold. bool_case; split; try reflexivity;
  Z.to_euclidean_division_equations; lia. Qed.

Lemma incr_wf s : wf s → wf (incr s).
Proof. intros. sn_solve. Qed.

Lemma incr_add s : wf s → incr s = add_u32 s 1.
Proof.
  intros Hwf. destruct s as [h l]. unfold incr, add_u32; simpl.
  replace (u32 (l + 1) <? l) with (u32 (l + 1) =? 0); [done|].
  sn_unfold. bool_case; try reflexivity;
    Z.to_euclidean_division_equations; lia.
Qed.

Lemma incr_val s :
  wf s → val s < 2 ^ 63 - 1 → val (incr s) = val s + 1 ∧ incr_assert s = true.
Proof. intros. sn_unfold. bool_case; split; try reflexivity;
  Z.to_euclidean_division_equations; lia. Qed.

Lemma add_assign_val s n :
  wf s → 0 <= n < 2 ^ 31 → val s + n < 2 ^ 63 →
  val (add_assign s n) = val s + n ∧ add_assign_assert s n = true.
Proof. intros. sn_unfold. bool_case; split; try reflexivity;
  Z.to_euclidean_division_equations; lia. Qed.

Lemma add_assign_wf s n : wf s → is_s32 n → wf (add_assign s n).
Proof. intros. sn_solve. Qed.

Lemma sub_u32_wf s n : wf s → is_u32 n → wf (sub_u32 s n).
Proof. intros. sn_solve. Qed.

Lemma sub_u32_val s n :
  nonneg s → is_u32 n → n <= val s →
  val (sub_u32 s n) = val s - n ∧ sub_u32_assert s n = true.
Proof. intros. sn_unfold. bool_case; split; try reflexivity;
  Z.to_euclidean_division_equations; lia. Qed.

Lemma sub_wf a b : wf a → wf b → wf (sub a b).
Proof. intros. sn_solve. Qed.

Lemma sub_val a b :
  nonneg a → nonneg b → val b <= val a →
  val (sub a b) = val a - val b ∧ sub_assert a b = true.
Proof. intros. sn_unfold. bool_case; split; try reflexivity;
  Z.to_euclidean_division_equations; lia. Qed.

(** The difference functor only keeps the low word, which is the distance
    modulo 2^32 whatever the two operands are. *)
Lemma SequenceNumberDiff_val a b :
  wf a → wf b → SequenceNumberDiff a b = u32 (val a - val b).
Proof.
  intros. unfold SequenceNumberDiff, sub. simpl.
  destruct (low a <? low b); simpl; sn_unfold;
    Z.to_euclidean_division_equations; lia.
Qed.

(** ** 64-bit conversions *)

Lemma to64long_val s : wf s → to64long s = u64 (val s).
Proof.
  intros. unfold to64long. rewrite Z.shiftl_mul_pow2 by lia. sn_unfold.
  Z.to_euclidean_division_equations; lia.
Qed.

Lemma of_u64_wf u : wf (of_u64 u).
Proof. unfold wf, of_u64; simpl. split; auto with mint. Qed.

Lemma of_u64_to64long s : wf s → of_u64 (to64long s) = s.
Proof.
  intros H. apply val_inj; [apply of_u64_wf|done|].
  rewrite to64long_val by done. unfold of_u64, val at 1. simpl.
  rewrite Z.shiftr_div_pow2 by lia. sn_unfold.
  Z.to_euclidean_division_equations; lia.
Qed.

Lemma to64long_of_u64 u : is_u64 u → to64long (of_u64 u) = u.
Proof.
  intros H. rewrite to64long_val by apply of_u64_wf.
  unfold of_u64, val. simpl. rewrite Z.shiftr_div_pow2 by lia. sn_unfold.
  Z.to_euclidean_division_equations; lia.
Qed.

(** ** Properties *)

(** C31: sequence-number arithmetic on two words is 64-bit arithmetic, and the
    assertions of [operator+] and [operator-] hold exactly when the result is
    representable. *)
Theorem sequence_arithmetic s n :
  nonneg s → is_u32 n →
  (add_u32_assert s n = true ↔ val s + n < 2 ^ 63) ∧
  (val s + n < 2 ^ 63 → val (add_u32 s n) = val s + n ∧ sub_u32 (add_u32 s n) n = s) ∧
  (sub_u32_assert s n = true ↔ n <= val s) ∧
  (n <= val s → val (sub_u32 s n) = val s - n).
Proof.
  intros Hs Hn. pose proof Hs as [Hwf _]. split_and!.
  - sn_unfold. bool_case; split; intros; try done; Z.to_euclidean_division_equations; lia.
  - intros Hlt. destruct (add_u32_val s n Hwf Hn Hlt) as [Hv _]. split; [done|].
    assert (Hw := add_u32_wf s n Hwf Hn). apply nonneg_val in Hs as Hs'; [|done].
    assert (nonneg (add_u32 s n)) by (apply nonneg_val; [done|range_unfold; lia]).
    apply val_inj; [by apply sub_u32_wf|done|].
    rewrite (proj1 (sub_u32_val (add_u32 s n) n ltac:(done) Hn ltac:(lia))). lia.
  - sn_unfold. bool_case; split; intros; try done; Z.to_euclidean_division_equations; lia.
  - intros Hle. by apply sub_u32_val.
Qed.

Lemma sequence_arithmetic_witness :
  val (add_u32 (mkSN 3 (2 ^ 32 - 1)) 1) = 4 * 2 ^ 32 ∧
  add_u32_assert (mkSN INT32_MAX (2 ^ 32 - 1)) 1 = false.
Proof.
  split; [|reflexivity].
  destruct (sequence_arithmetic (mkSN 3 (2 ^ 32 - 1)) 1) as (_ & Hv & _);
    [sn_unfold; lia|range_unfold; lia|].
  apply Hv. reflexivity.
Defined.

(** The constructor from a 64-bit integer and [to64long] are inverse to each
    other, so no sequence number is lost or merged by the conversions, and the
    word comparisons are the order of the integers denoted. *)
Theorem sequence_conversions s1 s2 u :
  wf s1 → wf s2 → is_u64 u →
  of_u64 (to64long s1) = s1 ∧ to64long (of_u64 u) = u ∧
  ltb s1 s2 = (val s1 <? val s2) ∧ leb s1 s2 = (val s1 <=? val s2) ∧
  gtb s1 s2 = ltb s2 s1 ∧ geb s1 s2 = leb s2 s1 ∧
  (eqb s1 s2 = true ↔ to64long s1 = to64long s2) ∧ neqb s1 s2 = negb (eqb s1 s2).
Proof.
  intros H1 H2 Hu. rewrite !ltb_val, !leb_val, gtb_val, geb_val by done.
  split_and!; auto using of_u64_to64long, to64long_of_u64, neqb_negb.
  rewrite eqb_eq. split; [by intros ->|]. intros Heq.
  by rewrite <- (of_u64_to64long s1), <- (of_u64_to64long s2), Heq.
Qed.

Lemma sequence_conversions_witness :
  of_u64 (to64long unknown) = unknown ∧ to64long unknown = 2 ^ 64 - 2 ^ 32 ∧
  ltb unknown (mkSN 0 1) = true.
Proof.
  destruct (sequence_conversions unknown (mkSN 0 1) 0) as (H1 & _ & H3 & _);
    [sn_unfold; lia|sn_unfold; lia|range_unfold; lia|].
  split; [exact H1|]. split; [reflexivity|]. rewrite H3. reflexivity.
Defined.

End SN.

#[export] Hint Resolve SN.add_u32_wf SN.incr_wf SN.sub_u32_wf SN.min_wf
  SN.of_u64_wf : mint.
