(* ===== verification/Bitmap.v ===== *)
(** * Bitmap ranges

    [BitmapRange<T, Diff, NBITS>] (include/fastrtps/utils/fixed_size_bitmap.hpp),
    the set representation of acknack, gap and nack-frag submessages: a base, the
    highest allowed item, 256 bits in eight 32-bit words (most significant bit
    first) and the number of significant bits.  The two instantiations of the
    code, [SequenceNumberSet_t] and [FragmentNumberSet_t], both have 256 bits.

    The template parameters [T] and [Diff] are the operations of the class
    [RangeItem]; what the template needs of them is the class [RangeItemLaws],
    proved for both instantiations. *)

From S2P Require Import Prelude SeqNum.

(** ** The template parameters *)

(** The operations [BitmapRange] uses on its items. *)
Class RangeItem (T : Type) := {
  item_default : T;
  item_add : T → Z → T;
  item_geb : T → T → bool;
  item_gtb : T → T → bool;
  item_eqb : T → T → bool;
  item_diff : T → T → Z;
}.

(** The integer denotation of the items, under which the operations are
    arithmetic below [item_limit]. *)
Class RangeItemLaws (T : Type) `{RangeItem T} := {
  item_wf : T → Prop;
  item_val : T → Z;
  item_limit : Z;
  item_val_limit x : item_wf x → item_val x < item_limit;
  item_val_inj x y : item_wf x → item_wf y → item_val x = item_val y → x = y;
  item_default_wf : item_wf item_default;
  item_add_wf x n : item_wf x → is_u32 n → item_wf (item_add x n);
  item_add_val x n :
    item_wf x → is_u32 n → item_val x + n < item_limit →
    item_val (item_add x n) = item_val x + n;
  item_geb_val x y : item_wf x → item_wf y → item_geb x y = (item_val y <=? item_val x);
  item_gtb_val x y : item_wf x → item_wf y → item_gtb x y = (item_val y <? item_val x);
  item_eqb_val x y : item_wf x → item_wf y → item_eqb x y = (item_val x =? item_val y);
  item_diff_val x y : item_wf x → item_wf y → item_diff x y = u32 (item_val x - item_val y);
}.

#[export] Instance SN_RangeItem : RangeItem SN.SequenceNumber_t := {
  item_default := SN.default;
  item_add := SN.add_u32;
  item_geb := SN.geb;
  item_gtb := SN.gtb;
  item_eqb := SN.eqb;
  item_diff := SN.SequenceNumberDiff;
}.

#[export, refine] Instance SN_RangeItemLaws : RangeItemLaws SN.SequenceNumber_t := {
  item_wf := SN.wf;
  item_val := SN.val;
  item_limit := 2 ^ 63;
}.
Proof.
  all: simpl.
  - intros x Hx. by apply SN.val_range.
  - apply SN.val_inj.
  - SN.sn_unfold. lia.
  - apply SN.add_u32_wf.
  - intros. by apply SN.add_u32_val.
  - apply SN.geb_val.
  - apply SN.gtb_val.
  - apply SN.eqb_val.
  - apply SN.SequenceNumberDiff_val.
Defined.

(** [FragmentNumber_t] is [uint32_t] and its [Diff] the built-in subtraction. *)
Definition FragmentNumber_t : Type := Z.

#[export] Instance FN_RangeItem : RangeItem FragmentNumber_t := {
  item_default := 0;
  item_add x n := u32 (x + n);
  item_geb x y := y <=? x;
  item_gtb x y := y <? x;
  item_eqb x y := x =? y;
  item_diff x y := u32 (x - y);
}.

#[export, refine] Instance FN_RangeItemLaws : RangeItemLaws FragmentNumber_t := {
  item_wf := is_u32;
  item_val x := x;
  item_limit := 2 ^ 32;
}.
Proof.
  all: simpl; try done.
  - intros x Hx. range_unfold. lia.
  - intros x n _ _. apply u32_range.
  - intros x n Hx Hn ?. apply u32_small. range_unfold. lia.
Defined.

Module BitmapRange.

Definition NBITS : Z := 256.
Definition NITEMS : nat := Z.to_nat ((NBITS + 31) / 32).

Definition full_mask : Z := UINT32_MAX.

(** 32-bit shifts and complement. *)
Definition shl32 (x n : Z) : Z := u32 (Z.shiftl x n).
Definition not32 (x : Z) : Z := u32 (Z.lnot x).

(** [bitmap_[i]] *)
Definition word (bm : list Z) (i : nat) : Z := nth i bm 0.
(** [bitmap_[i] = w] *)
Definition set_word (bm : list Z) (i : nat) (w : Z) : list Z := <[i := w]> bm.
(** [bitmap_.fill(0u)] *)
Definition zero_map : list Z := replicate NITEMS 0.

(** [std::copy(begin() + n, end(), begin())] *)
Definition copy_down (bm : list Z) (n : nat) : list Z :=
  drop n bm ++ drop (length bm - n) bm.
(** [std::copy(rbegin() + n, rend(), rbegin())] *)
Definition copy_up (bm : list Z) (n : nat) : list Z :=
  take n bm ++ take (length bm - n) bm.
(** [std::fill_n(rbegin(), n, 0)] *)
Definition zero_last (bm : list Z) (n : nat) : list Z :=
  take (length bm - n) bm ++ replicate n 0.
(** [std::fill_n(begin(), n, 0)] *)
Definition zero_first (bm : list Z) (n : nat) : list Z :=
  replicate n 0 ++ drop n bm.

(** *** calc_maximum_bit_set *)

Definition highest_item_bit (bits : Z) : Z :=
  clz32 (Z.land bits (not32 (bits - 1))) + 1.

(** Scans words [min_index + k - 1] down to [min_index]. *)
Fixpoint calc_maximum_loop (bm : list Z) (min_index k : nat) : Z :=
  match k with
  | O => 0
  | S k' =>
      let i := (min_index + k')%nat in
      if word bm i =? 0 then calc_maximum_loop bm min_index k'
      else Z.shiftl (Z.of_nat i) 5 + highest_item_bit (word bm i)
  end.

Definition calc_maximum_bit_set (bm : list Z) (starting_index min_index : nat) : Z :=
  calc_maximum_loop bm min_index (starting_index - min_index).

(** *** Shifts of the whole bitmap *)

Fixpoint shift_left_loop (cnt i n : nat) (n_bits overflow_bits : Z) (bm : list Z) : list Z :=
  match cnt with
  | O => bm
  | S c =>
      shift_left_loop c (S i) (S n) n_bits overflow_bits
        (set_word bm i (Z.lor (shl32 (word bm n) n_bits)
                              (Z.shiftr (word bm (S n)) overflow_bits)))
  end.

(** The bitmap part of [shift_map_left] once [n_bits < num_bits_]. *)
Definition shift_words_left (bm : list Z) (n_bits : Z) : list Z :=
  let n_items := Z.to_nat (Z.shiftr n_bits 5) in
  let n_bits := Z.land n_bits 31 in
  if n_bits =? 0 then zero_last (copy_down bm n_items) n_items
  else
    let overflow_bits := 32 - n_bits in
    let last_index := (NITEMS - 1)%nat in
    let bm := shift_left_loop (last_index - n_items) 0 n_items n_bits overflow_bits bm in
    let bm := set_word bm (last_index - n_items) (shl32 (word bm last_index) n_bits) in
    zero_last bm n_items.

Fixpoint shift_right_loop (n i : nat) (n_bits overflow_bits : Z) (bm : list Z) : list Z :=
  match n with
  | O => bm
  | S n' =>
      shift_right_loop n' (i - 1) n_bits overflow_bits
        (set_word bm i (Z.lor (Z.shiftr (word bm n) n_bits)
                              (shl32 (word bm n') overflow_bits)))
  end.

(** The bitmap part of [shift_map_right] once [n_bits < NBITS]. *)
Definition shift_words_right (bm : list Z) (n_bits : Z) : list Z :=
  let n_items := Z.to_nat (Z.shiftr n_bits 5) in
  let n_bits := Z.land n_bits 31 in
  if n_bits =? 0 then zero_first (copy_up bm n_items) n_items
  else
    let overflow_bits := 32 - n_bits in
    let last_index := (NITEMS - 1)%nat in
    let bm := shift_right_loop (last_index - n_items) last_index n_bits overflow_bits bm in
    let bm := set_word bm n_items (Z.shiftr (word bm 0) n_bits) in
    zero_first bm n_items.

(** *** The class *)

Section ops.
Context {T : Type} `{RangeItem T}.

Record BitmapRange_t := mkBR {
  base_ : T;
  range_max_ : T;
  bitmap_ : list Z;
  num_bits_ : Z;
}.

Definition default_range : BitmapRange_t :=
  mkBR item_default (item_add item_default (NBITS - 1)) zero_map 0.

Definition make_max (base : T) (max_bits : Z) : BitmapRange_t :=
  mkBR base (item_add base (Z.min max_bits (NBITS - 1))) zero_map 0.

Definition make (base : T) : BitmapRange_t := make_max base (NBITS - 1).

Definition base (r : BitmapRange_t) : T := base_ r.

Definition set_base (r : BitmapRange_t) (base : T) : BitmapRange_t :=
  mkBR base (item_add base (NBITS - 1)) zero_map 0.

Definition set_base_max (r : BitmapRange_t) (base : T) (max_bits : Z) : BitmapRange_t :=
  mkBR base (item_add base (Z.min max_bits (NBITS - 1))) zero_map 0.

Definition shift_map_left (r : BitmapRange_t) (n_bits : Z) : BitmapRange_t :=
  if num_bits_ r <=? n_bits then mkBR (base_ r) (range_max_ r) zero_map 0
  else mkBR (base_ r) (range_max_ r)
            (shift_words_left (bitmap_ r) n_bits) (num_bits_ r - n_bits).

Definition shift_map_right (r : BitmapRange_t) (n_bits : Z) : BitmapRange_t :=
  if NBITS <=? n_bits then mkBR (base_ r) (range_max_ r) zero_map 0
  else
    let new_num_bits := u32 (num_bits_ r + n_bits) in
    let find_new_max := NBITS <? new_num_bits in
    let bm := shift_words_right (bitmap_ r) n_bits in
    mkBR (base_ r) (range_max_ r) bm
      (if find_new_max
       then calc_maximum_bit_set bm NITEMS (Z.to_nat (Z.shiftr n_bits 5))
       else new_num_bits).

Definition base_update (r : BitmapRange_t) (base : T) : BitmapRange_t :=
  if item_eqb base (base_ r) then r
  else
    let r' :=
      if item_gtb base (base_ r)
      then shift_map_left r (item_diff base (base_ r))
      else shift_map_right r (item_diff (base_ r) base) in
    mkBR base (item_add base (NBITS - 1)) (bitmap_ r') (num_bits_ r').

Definition empty (r : BitmapRange_t) : bool := num_bits_ r =? 0.

Definition max (r : BitmapRange_t) : T := item_add (base_ r) (u32 (num_bits_ r - 1)).

Definition n_longs (num_bits : Z) : nat := Z.to_nat (u32 (num_bits + 31) / 32).

(** Scans [k] words from index [i], [item] being the item of the first bit. *)
Fixpoint min_loop (bm : list Z) (dflt item : T) (i k : nat) : T :=
  match k with
  | O => dflt
  | S k' =>
      if word bm i =? 0 then min_loop bm dflt (item_add item 32) (S i) k'
      else item_add item (clz32 (word bm i))
  end.

Definition min (r : BitmapRange_t) : T :=
  min_loop (bitmap_ r) (base_ r) (base_ r) 0 (n_longs (num_bits_ r)).

Definition is_set (r : BitmapRange_t) (item : T) : bool :=
  if item_geb item (base_ r) && item_geb (range_max_ r) item then
    let diff := item_diff item (base_ r) in
    if diff <? num_bits_ r then
      let pos := Z.to_nat (Z.shiftr diff 5) in
      let diff := Z.land diff 31 in
      negb (Z.land (word (bitmap_ r) pos) (shl32 1 (31 - diff)) =? 0)
    else false
  else false.

Definition add (r : BitmapRange_t) (item : T) : bool * BitmapRange_t :=
  if item_geb item (base_ r) && item_geb (range_max_ r) item then
    let diff := item_diff item (base_ r) in
    let num_bits := Z.max (u32 (diff + 1)) (num_bits_ r) in
    let pos := Z.to_nat (Z.shiftr diff 5) in
    let diff := Z.land diff 31 in
    (true, mkBR (base_ r) (range_max_ r)
             (set_word (bitmap_ r) pos
                (Z.lor (word (bitmap_ r) pos) (shl32 1 (31 - diff)))) num_bits)
  else (false, r).

(** The [while] loop of [add_range] and the final partial word. *)
Fixpoint add_range_loop (fuel : nat) (bm : list Z) (pos : nat)
    (n_bits mask bits_in_mask : Z) : list Z :=
  match fuel with
  | O => bm
  | S fuel' =>
      if bits_in_mask <=? n_bits then
        add_range_loop fuel' (set_word bm pos (Z.lor (word bm pos) mask)) (S pos)
          (n_bits - bits_in_mask) full_mask 32
      else if 0 <? n_bits then
        set_word bm pos
          (Z.lor (word bm pos) (Z.land mask (shl32 full_mask (bits_in_mask - n_bits))))
      else bm
  end.

Definition add_range (r : BitmapRange_t) (from to : T) : BitmapRange_t :=
  let min := if item_geb (base_ r) from then base_ r else from in
  let max := if item_geb to (item_add (base_ r) NBITS)
             then item_add (base_ r) NBITS else to in
  if item_geb min max then r
  else
    let offset := item_diff min (base_ r) in
    let n_bits := item_diff max min in
    let num_bits := Z.max (num_bits_ r) (u32 (offset + n_bits)) in
    let pos := Z.to_nat (Z.shiftr offset 5) in
    let offset := Z.land offset 31 in
    mkBR (base_ r) (range_max_ r)
      (add_range_loop (S NITEMS) (bitmap_ r) pos n_bits
         (Z.shiftr full_mask offset) (32 - offset))
      num_bits.

(** [None] stands for a write outside [bitmap_]. *)
Definition remove (r : BitmapRange_t) (item : T) : option BitmapRange_t :=
  let max_value := max r in
  if item_geb item (base_ r) && item_geb max_value item then
    let diff := item_diff item (base_ r) in
    let pos := Z.to_nat (Z.shiftr diff 5) in
    let diff := Z.land diff 31 in
    if (pos <? NITEMS)%nat then
      let bm := set_word (bitmap_ r) pos
                  (Z.land (word (bitmap_ r) pos) (not32 (shl32 1 (31 - diff)))) in
      Some (mkBR (base_ r) (range_max_ r) bm
              (if item_eqb item max_value
               then calc_maximum_bit_set bm (S pos) 0 else num_bits_ r))
    else None
  else Some r.

(** [num_bits], the bitmap and [num_longs_used]. *)
Definition bitmap_get (r : BitmapRange_t) : Z * list Z * nat :=
  (num_bits_ r, bitmap_ r, n_longs (num_bits_ r)).

(** [words] is the caller's array; [memcpy] reads its first [num_items] words. *)
Definition bitmap_set (r : BitmapRange_t) (num_bits : Z) (words : list Z) : BitmapRange_t :=
  let nb := Z.min num_bits NBITS in
  let num_items := n_longs nb in
  let bm := take num_items words ++ drop num_items zero_map in
  let shift := Z.land num_bits 31 in
  let bm := if (0 <? num_bits) && negb (shift =? 0)
            then set_word bm (num_items - 1)
                   (Z.land (word bm (num_items - 1)) (not32 (Z.shiftr full_mask shift)))
            else bm in
  mkBR (base_ r) (range_max_ r) bm (calc_maximum_bit_set bm num_items 0).

(** Items of one word, most significant bit first.  The [while (bits)] loop
    clears one bit per turn, so 32 turns exhaust it. *)
Fixpoint word_items (fuel : nat) (item : T) (bits : Z) : list T :=
  match fuel with
  | O => []
  | S fuel' =>
      if bits =? 0 then []
      else
        let offset := clz32 bits in
        let bit := Z.lxor 31 offset in
        item_add item offset
          :: word_items fuel' item (Z.land bits (not32 (shl32 1 bit)))
  end.

Fixpoint for_each_loop (bm : list Z) (item : T) (i k : nat) : list T :=
  match k with
  | O => []
  | S k' => word_items 32 item (word bm i) ++ for_each_loop bm (item_add item 32) (S i) k'
  end.

(** The items [for_each] applies its function to, in order. *)
Definition for_each (r : BitmapRange_t) : list T :=
  for_each_loop (bitmap_ r) (base_ r) 0 (n_longs (num_bits_ r)).

End ops.

Arguments BitmapRange_t : clear implicits.

End BitmapRange.

Abbreviation SequenceNumberSet_t := (BitmapRange.BitmapRange_t SN.SequenceNumber_t).
Abbreviation FragmentNumberSet_t := (BitmapRange.BitmapRange_t FragmentNumber_t).
