(* ===== verification/BitmapFacts.v ===== *)
(** * Correctness of bitmap ranges

    The denotation of a [BitmapRange] is the set of items whose bit is set
    ([mem]); every operation of the class is characterised by its effect on that
    set.  The word-level routines (the two shifts, the masked fill of
    [add_range], the searches for the first and the last set bit) are proved
    against their bit-by-bit definitions. *)

From S2P Require Import Prelude SeqNum Bitmap.
Import BitmapRange.

(** ** Words *)

(** Bit [i] of the bitmap, counted from the most significant bit of word 0. *)
Definition getb (bm : list Z) (i : Z) : bool :=
  Z.testbit (word bm (Z.to_nat (i / 32))) (31 - i mod 32).

Definition bm_wf (bm : list Z) : Prop := length bm = NITEMS ∧ Forall is_u32 bm.

Lemma word_u32 bm i : bm_wf bm → is_u32 (word bm i).
Proof.
  intros [_ Hall]. unfold word. rewrite nth_lookup.
  destruct (bm !! i) eqn:E; simpl; [|range_unfold; lia].
  by eapply Forall_lookup_1 in Hall.
Qed.

Lemma word_out bm i : bm_wf bm → (NITEMS <= i)%nat → word bm i = 0.
Proof. intros [Hlen _] ?. unfold word. apply nth_overflow. lia. Qed.

Lemma set_word_wf bm i w : bm_wf bm → is_u32 w → bm_wf (set_word bm i w).
Proof.
  intros [Hlen Hall] Hw. unfold set_word. split; [by rewrite length_insert|].
  by apply Forall_insert.
Qed.

Lemma shl32_u32 x n : is_u32 (shl32 x n).
Proof. apply u32_range. Qed.
Lemma not32_u32 x : is_u32 (not32 x).
Proof. apply u32_range. Qed.
Lemma full_mask_u32 : is_u32 full_mask.
Proof. unfold full_mask. range_unfold. lia. Qed.
Lemma zero_map_wf : bm_wf zero_map.
Proof.
  split; [done|]. unfold zero_map. apply Forall_replicate. range_unfold. lia.
Qed.

#[export] Hint Resolve word_u32 set_word_wf shl32_u32 not32_u32 full_mask_u32
  zero_map_wf : mint.

Lemma testbit_shl32 x n i :
  0 <= n → 0 <= i →
  Z.testbit (shl32 x n) i = (i <? 32) && Z.testbit x (i - n).
Proof. intros. unfold shl32. rewrite testbit_u32, Z.shiftl_spec by lia. done. Qed.

Lemma testbit_not32 x i :
  0 <= i → Z.testbit (not32 x) i = (i <? 32) && negb (Z.testbit x i).
Proof. intros. unfold not32. by rewrite testbit_u32, Z.lnot_spec by lia. Qed.

Lemma testbit_full_mask i : 0 <= i → Z.testbit full_mask i = (i <? 32).
Proof.
  intros Hi. change full_mask with (Z.ones 32).
  destruct (Z.ltb_spec i 32).
  - by rewrite Z.ones_spec_low by lia.
  - by rewrite Z.ones_spec_high by lia.
Qed.

Lemma word_set bm i j w :
  (i < length bm)%nat →
  word (set_word bm i w) j = if decide (i = j) then w else word bm j.
Proof. apply nth_set. Qed.

Lemma getb_set bm i w j :
  bm_wf bm → (i < NITEMS)%nat → 0 <= j →
  getb (set_word bm i w) j =
    if j / 32 =? Z.of_nat i then Z.testbit w (31 - j mod 32) else getb bm j.
Proof.
  intros [Hlen _] Hi Hj. unfold getb. rewrite word_set by lia.
  assert (0 <= j / 32) by (apply Z.div_pos; lia).
  destruct (Z.eqb_spec (j / 32) (Z.of_nat i)) as [->|];
    destruct (decide _); try done; lia.
Qed.

Lemma getb_high bm i : bm_wf bm → NBITS <= i → getb bm i = false.
Proof.
  intros Hbm Hi. unfold getb, NBITS in *. rewrite word_out; [apply Z.bits_0|done|].
  change NITEMS with 8%nat. assert (8 <= i / 32) by (apply Z.div_le_lower_bound; lia).
  lia.
Qed.

Lemma getb_zero_map i : getb zero_map i = false.
Proof.
  unfold getb, word, zero_map. rewrite nth_lookup. destruct (replicate NITEMS 0 !! Z.to_nat (i / 32)) eqn:E.
  - apply lookup_replicate in E as [-> _]. apply Z.bits_0.
  - apply Z.bits_0.
Qed.

(** Positions written as word and bit number. *)
Lemma getb_pos bm k r :
  0 <= r < 32 → getb bm (32 * Z.of_nat k + r) = Z.testbit (word bm k) (31 - r).
Proof.
  intros Hr. unfold getb.
  replace ((32 * Z.of_nat k + r) / 32) with (Z.of_nat k) by mlia.
  replace ((32 * Z.of_nat k + r) mod 32) with r by mlia.
  by rewrite Nat2Z.id.
Qed.

Lemma pos_split i : 0 <= i → ∃ k r, i = 32 * Z.of_nat k + r ∧ 0 <= r < 32.
Proof.
  intros Hi. exists (Z.to_nat (i / 32)), (i mod 32).
  pose proof (Z.div_mod i 32). pose proof (Z.mod_pos_bound i 32).
  assert (0 <= i / 32) by (apply Z.div_pos; lia). lia.
Qed.

(** Two bitmaps with the same bits are equal. *)
Lemma bm_ext bm1 bm2 :
  bm_wf bm1 → bm_wf bm2 →
  (∀ i, 0 <= i < NBITS → getb bm1 i = getb bm2 i) → bm1 = bm2.
Proof.
  intros H1 H2 Hbits. apply list_eq_same_length with NITEMS.
  1,2: try apply H1; try apply H2.
  intros i x y Hi Hx Hy.
  assert (x = word bm1 i) as ->.
  { unfold word. by rewrite nth_lookup, Hx. }
  assert (y = word bm2 i) as ->.
  { unfold word. by rewrite nth_lookup, Hy. }
  apply Z.bits_inj'. intros n Hn. destruct (Z.ltb_spec n 32).
  - specialize (Hbits (32 * Z.of_nat i + (31 - n))).
    rewrite !getb_pos in Hbits by lia.
    replace (31 - (31 - n)) with n in Hbits by lia. apply Hbits.
    unfold NBITS. change NITEMS with 8%nat in Hi. lia.
  - rewrite !testbit_u32_high by eauto with mint. done.
Qed.

(** ** Shifts of the whole bitmap *)

Lemma shift_left_loop_word cnt i n nb ob bm j :
  (i <= n)%nat → (i + cnt <= length bm)%nat →
  word (shift_left_loop cnt i n nb ob bm) j =
    if decide (i <= j < i + cnt)%nat
    then Z.lor (shl32 (word bm (j + (n - i))) nb) (Z.shiftr (word bm (S (j + (n - i)))) ob)
    else word bm j.
Proof.
  revert i n bm. induction cnt as [|cnt IH]; intros i n bm Hin Hlen; simpl.
  { destruct (decide _); [lia|done]. }
  rewrite IH; [|lia|unfold set_word; rewrite length_insert; lia].
  rewrite !word_set by lia.
  replace (S n - S i)%nat with (n - i)%nat by lia.
  destruct (decide (S i <= j < S i + cnt)%nat).
  - rewrite !decide_False by lia. rewrite decide_True by lia. done.
  - destruct (decide (i = j)) as [<-|].
    + rewrite decide_True by lia. by replace (i + (n - i))%nat with n by lia.
    + rewrite decide_False by lia. done.
Qed.

Lemma shift_left_loop_wf cnt i n nb ob bm :
  0 <= ob → bm_wf bm → bm_wf (shift_left_loop cnt i n nb ob bm).
Proof.
  intros Hob. revert i n bm. induction cnt as [|cnt IH]; intros i n bm Hbm; simpl;
    [done|]. apply IH. auto with mint.
Qed.

Lemma zero_last_wf bm n : (n <= NITEMS)%nat → bm_wf bm → bm_wf (zero_last bm n).
Proof.
  intros Hn [Hlen Hall]. split.
  - unfold zero_last. rewrite length_app, length_take, length_replicate. lia.
  - unfold zero_last. apply Forall_app. split; [by apply Forall_take|].
    apply Forall_replicate. range_unfold. lia.
Qed.

Lemma zero_first_wf bm n : (n <= NITEMS)%nat → bm_wf bm → bm_wf (zero_first bm n).
Proof.
  intros Hn [Hlen Hall]. split.
  - unfold zero_first. rewrite length_app, length_drop, length_replicate. lia.
  - unfold zero_first. apply Forall_app. split; [|by apply Forall_drop].
    apply Forall_replicate. range_unfold. lia.
Qed.

Lemma word_zero_last bm n j :
  (n <= length bm)%nat →
  word (zero_last bm n) j = if decide (j < length bm - n)%nat then word bm j else 0.
Proof.
  intros Hn. unfold word, zero_last. rewrite !nth_lookup.
  destruct (decide _).
  - rewrite lookup_app_l by (rewrite length_take; lia). by rewrite lookup_take_lt.
  - rewrite lookup_app_r by (rewrite length_take; lia).
    destruct (replicate n 0 !! _) eqn:E; [|done].
    apply lookup_replicate in E as [-> _]. done.
Qed.

Lemma word_zero_first bm n j :
  (n <= length bm)%nat →
  word (zero_first bm n) j = if decide (j < n)%nat then 0 else word bm j.
Proof.
  intros Hn. unfold word, zero_first. rewrite !nth_lookup.
  destruct (decide _).
  - rewrite lookup_app_l by (rewrite length_replicate; lia).
    by rewrite lookup_replicate_2.
  - rewrite lookup_app_r by (rewrite length_replicate; lia).
    rewrite length_replicate, lookup_drop. by replace (n + (j - n))%nat with j by lia.
Qed.

Lemma getb_words_left bm bm' q b :
  bm_wf bm → 0 <= b < 32 →
  (∀ j, word bm' j = Z.lor (shl32 (word bm (j + q)) b)
                           (Z.shiftr (word bm (S (j + q))) (32 - b))) →
  ∀ i, 0 <= i → getb bm' i = getb bm (i + (32 * Z.of_nat q + b)).
Proof.
  intros Hbm Hb Hw i Hi. destruct (pos_split i Hi) as (k & r & -> & Hr).
  rewrite getb_pos by done. rewrite Hw, Z.lor_spec, Z.shiftr_spec by lia.
  rewrite testbit_shl32 by lia. destruct (Z.ltb_spec (31 - r) 32); [|lia]. simpl.
  destruct (Z.ltb_spec (r + b) 32).
  - replace (32 * Z.of_nat k + r + (32 * Z.of_nat q + b))
      with (32 * Z.of_nat (k + q) + (r + b)) by lia.
    rewrite getb_pos by lia.
    rewrite (testbit_u32_high (word bm (S (k + q)))) by (auto with mint; lia).
    rewrite orb_false_r. f_equal. lia.
  - replace (32 * Z.of_nat k + r + (32 * Z.of_nat q + b))
      with (32 * Z.of_nat (S (k + q)) + (r + b - 32)) by lia.
    rewrite getb_pos by lia.
    rewrite (Z.testbit_neg_r (word bm (k + q))) by lia. simpl. f_equal. lia.
Qed.

Lemma shl32_0 w : is_u32 w → shl32 w 0 = w.
Proof. intros. unfold shl32. rewrite Z.shiftl_0_r. by apply u32_small. Qed.

Lemma shl32_zero n : shl32 0 n = 0.
Proof. unfold shl32. by rewrite Z.shiftl_0_l. Qed.

Lemma shiftr_32 w : is_u32 w → Z.shiftr w 32 = 0.
Proof. intros. rewrite Z.shiftr_div_pow2 by lia. by apply Z.div_small. Qed.

(** The decomposition of a shift count into words and bits. *)
Lemma shift_count n :
  0 <= n < NBITS →
  ∃ q b, Z.to_nat (Z.shiftr n 5) = q ∧ Z.land n 31 = b ∧
    (q < 8)%nat ∧ 0 <= b < 32 ∧ n = 32 * Z.of_nat q + b.
Proof.
  intros Hn. unfold NBITS in Hn. rewrite shiftr_5, land_31.
  exists (Z.to_nat (n / 32)), (n mod 32). split; [done|]. split; [done|]. mlia.
Qed.

Lemma copy_down_wf bm n : (n <= NITEMS)%nat → bm_wf bm → bm_wf (copy_down bm n).
Proof.
  intros Hn [Hlen Hall]. unfold copy_down. split.
  - rewrite length_app, !length_drop. lia.
  - apply Forall_app. split; by apply Forall_drop.
Qed.

Lemma copy_up_wf bm n : (n <= NITEMS)%nat → bm_wf bm → bm_wf (copy_up bm n).
Proof.
  intros Hn [Hlen Hall]. unfold copy_up. split.
  - rewrite length_app, !length_take. lia.
  - apply Forall_app. split; by apply Forall_take.
Qed.

#[local] Hint Resolve copy_down_wf copy_up_wf zero_last_wf zero_first_wf : mint.

Lemma shift_words_left_wf bm n : bm_wf bm → 0 <= n < NBITS → bm_wf (shift_words_left bm n).
Proof.
  intros Hbm Hn. destruct (shift_count n Hn) as (q & b & Eq & Eb & Hq & Hb & _).
  unfold shift_words_left. rewrite Eq, Eb.
  assert (q <= NITEMS)%nat by (change NITEMS with 8%nat; lia).
  destruct (b =? 0); [auto with mint|].
  apply zero_last_wf; [done|]. apply set_word_wf; [|auto with mint].
  apply shift_left_loop_wf; [lia|done].
Qed.

(** Word [j] of the shifted map, whichever branch computed it. *)
Lemma shift_words_left_word bm n q b j :
  bm_wf bm → Z.to_nat (Z.shiftr n 5) = q → Z.land n 31 = b →
  (q < 8)%nat → 0 <= b < 32 →
  word (shift_words_left bm n) j =
    Z.lor (shl32 (word bm (j + q)) b) (Z.shiftr (word bm (S (j + q))) (32 - b)).
Proof.
  intros Hbm Eq Eb Hq Hb. unfold shift_words_left. rewrite Eq, Eb.
  assert (Hlen : length bm = 8%nat) by apply Hbm.
  assert (Hz : ∀ k, (8 <= k)%nat → word bm k = 0) by (intros; by apply word_out).
  change NITEMS with 8%nat. destruct (Z.eqb_spec b 0) as [->|Hb0].
  - rewrite shl32_0, shiftr_32, Z.lor_0_r by auto with mint.
    assert (length (copy_down bm q) = 8%nat) by
      (apply copy_down_wf; [change NITEMS with 8%nat; lia|done]).
    rewrite word_zero_last by lia. destruct (decide _); [|rewrite Hz by lia; done].
    unfold word, copy_down. rewrite !nth_lookup, lookup_app_l, lookup_drop
      by (rewrite length_drop; lia). by rewrite Nat.add_comm.
  - set (bm1 := shift_left_loop _ _ _ _ _ _).
    assert (Hlen1 : length bm1 = 8%nat) by (apply shift_left_loop_wf; [lia|done]).
    rewrite word_zero_last by (unfold set_word; rewrite length_insert; lia).
    rewrite !word_set by lia. unfold set_word. rewrite length_insert, Hlen1.
    subst bm1. rewrite !shift_left_loop_word, Nat.sub_0_r by lia.
    rewrite (decide_False (P := (0 <= 8 - 1 < _)%nat)) by lia.
    destruct (decide (j < 8 - q)%nat).
    + destruct (decide (8 - 1 - q = j)%nat) as [Hj|];
        [|by rewrite decide_True by lia].
      rewrite (Hz (S (j + q))) by lia. replace (j + q)%nat with (8 - 1)%nat by lia.
      by rewrite Z.shiftr_0_l, Z.lor_0_r.
    + rewrite !Hz by lia. by rewrite shl32_zero, Z.shiftr_0_l.
Qed.

Lemma shift_words_left_spec bm n i :
  bm_wf bm → 0 <= n < NBITS → 0 <= i →
  getb (shift_words_left bm n) i = getb bm (i + n).
Proof.
  intros Hbm Hn Hi. destruct (shift_count n Hn) as (q & b & Eq & Eb & Hq & Hb & ->).
  apply getb_words_left; [done|done| |done].
  intros j. by apply shift_words_left_word.
Qed.

Lemma shift_right_loop_word n i nb ob bm j :
  (n <= i < length bm)%nat →
  word (shift_right_loop n i nb ob bm) j =
    if decide (i - n < j <= i)%nat
    then Z.lor (Z.shiftr (word bm (j - (i - n))) nb) (shl32 (word bm (j - (i - n) - 1)) ob)
    else word bm j.
Proof.
  revert i bm. induction n as [|n IH]; intros i bm Hlen.
  { simpl. destruct (decide _); [lia|done]. }
  cbn [shift_right_loop].
  rewrite IH by (unfold set_word; rewrite length_insert; lia).
  rewrite !word_set by lia.
  replace (i - 1 - n)%nat with (i - S n)%nat by lia.
  destruct (decide (i - S n < j <= i - 1)%nat).
  - rewrite !decide_False by lia. rewrite decide_True by lia. done.
  - destruct (decide (i = j)) as [<-|].
    + rewrite decide_True by lia. replace (i - (i - S n))%nat with (S n) by lia.
      by replace (S n - 1)%nat with n by lia.
    + rewrite decide_False by lia. done.
Qed.

Lemma shift_right_loop_wf n i nb ob bm :
  0 <= nb → bm_wf bm → bm_wf (shift_right_loop n i nb ob bm).
Proof.
  intros Hnb. revert i bm. induction n as [|n IH]; intros i bm Hbm; [done|].
  cbn [shift_right_loop]. apply IH. auto with mint.
Qed.

Lemma shift_words_right_wf bm n : bm_wf bm → 0 <= n < NBITS → bm_wf (shift_words_right bm n).
Proof.
  intros Hbm Hn. destruct (shift_count n Hn) as (q & b & Eq & Eb & Hq & Hb & _).
  unfold shift_words_right. rewrite Eq, Eb.
  assert (q <= NITEMS)%nat by (change NITEMS with 8%nat; lia).
  destruct (b =? 0); [auto with mint|].
  apply zero_first_wf; [done|].
  assert (bm_wf (shift_right_loop (NITEMS - 1 - q) (NITEMS - 1) b (32 - b) bm)) by
    (apply shift_right_loop_wf; [lia|done]).
  apply set_word_wf; [done|]. apply shiftr_u32; [by apply word_u32|lia].
Qed.

(** Word [j] of the map shifted right: the previous word only exists from word
    [q + 1] on. *)
Lemma shift_words_right_word bm n q b j :
  bm_wf bm → Z.to_nat (Z.shiftr n 5) = q → Z.land n 31 = b →
  (q < 8)%nat → 0 <= b < 32 → (j < 8)%nat →
  word (shift_words_right bm n) j =
    if decide (j < q)%nat then 0
    else Z.lor (Z.shiftr (word bm (j - q)) b)
               (if decide (j = q) then 0 else shl32 (word bm (j - q - 1)) (32 - b)).
Proof.
  intros Hbm Eq Eb Hq Hb Hj. unfold shift_words_right. rewrite Eq, Eb.
  assert (Hlen : length bm = 8%nat) by apply Hbm.
  change NITEMS with 8%nat. destruct (Z.eqb_spec b 0) as [->|Hb0].
  - assert (length (copy_up bm q) = 8%nat) by
      (apply copy_up_wf; [change NITEMS with 8%nat; lia|done]).
    rewrite word_zero_first by lia. destruct (decide (j < q)%nat); [done|].
    assert (Hs : shl32 (word bm (j - q - 1)) (32 - 0) = 0).
    { apply word_zero_iff; [auto with mint|]. intros i Hi.
      rewrite testbit_shl32, Z.testbit_neg_r by lia. apply andb_false_r. }
    rewrite Hs, Z.shiftr_0_r.
    replace (if decide (j = q) then 0 else 0) with 0 by (by destruct (decide _)).
    rewrite Z.lor_0_r. unfold word, copy_up.
    rewrite !nth_lookup, lookup_app_r by (rewrite length_take; lia).
    rewrite length_take, lookup_take_lt by lia. do 2 f_equal. lia.
  - set (bm1 := shift_right_loop _ _ _ _ _).
    assert (Hlen1 : length bm1 = 8%nat) by (apply shift_right_loop_wf; [lia|done]).
    rewrite word_zero_first by (unfold set_word; rewrite length_insert; lia).
    rewrite !word_set by lia. subst bm1. rewrite !shift_right_loop_word by lia.
    replace (8 - 1 - (8 - 1 - q))%nat with q by lia.
    rewrite (decide_False (P := (_ < 0 <= _)%nat)) by lia.
    destruct (decide (j < q)%nat); [done|].
    destruct (decide (q = j)) as [<-|].
    + rewrite decide_True by done. by rewrite Nat.sub_diag, Z.lor_0_r.
    + rewrite decide_True by lia. by rewrite decide_False by lia.
Qed.

Lemma shift_words_right_spec bm n i :
  bm_wf bm → 0 <= n < NBITS → 0 <= i < NBITS →
  getb (shift_words_right bm n) i = (n <=? i) && getb bm (i - n).
Proof.
  intros Hbm Hn Hi. destruct (shift_count n Hn) as (q & b & Eq & Eb & Hq & Hb & ->).
  unfold NBITS in Hi. destruct (pos_split i) as (k & r & -> & Hr); [lia|].
  rewrite getb_pos by done. rewrite (shift_words_right_word bm _ q b) by (done || lia).
  destruct (Z.leb_spec (32 * Z.of_nat q + b) (32 * Z.of_nat k + r)); simpl.
  - rewrite decide_False, Z.lor_spec, Z.shiftr_spec by lia.
    destruct (Z.leb_spec b r).
    + replace (32 * Z.of_nat k + r - (32 * Z.of_nat q + b))
        with (32 * Z.of_nat (k - q) + (r - b)) by lia.
      rewrite getb_pos by lia. replace (31 - r + b) with (31 - (r - b)) by lia.
      destruct (decide (k = q)); [by rewrite Z.bits_0, orb_false_r|].
      rewrite testbit_shl32, (Z.testbit_neg_r _ (31 - r - _)) by lia.
      by rewrite andb_false_r, orb_false_r.
    + replace (32 * Z.of_nat k + r - (32 * Z.of_nat q + b))
        with (32 * Z.of_nat (k - q - 1) + (r - b + 32)) by lia.
      rewrite getb_pos, decide_False by lia.
      rewrite (testbit_u32_high (word bm (k - q))) by (auto with mint; lia). simpl.
      rewrite testbit_shl32 by lia. destruct (Z.ltb_spec (31 - r) 32); [|lia].
      simpl. f_equal. lia.
  - destruct (decide (k < q)%nat); [apply Z.bits_0|].
    rewrite decide_True, Z.lor_0_r, Z.shiftr_spec by lia.
    apply testbit_u32_high; [auto with mint|lia].
Qed.

(** ** Searching for the last and the first set bit *)

Lemma highest_item_bit_spec w :
  is_u32 w → w ≠ 0 →
  1 <= highest_item_bit w <= 32 ∧ Z.testbit w (32 - highest_item_bit w) = true ∧
  ∀ r, highest_item_bit w <= r < 32 → Z.testbit w (31 - r) = false.
Proof.
  intros Hw H0. destruct (lowest_bit_isolate w) as (k & Hk & Hbit & Hlow & Hland).
  { range_unfold. lia. }
  assert (Hk32 : k < 32).
  { destruct (Z.ltb_spec k 32); [done|]. by rewrite testbit_u32_high in Hbit. }
  assert (Heq : Z.land w (not32 (w - 1)) = 2 ^ k).
  { rewrite <- Hland. apply Z.bits_inj'. intros i Hi.
    rewrite !Z.land_spec, testbit_not32, Z.lnot_spec by done.
    destruct (Z.ltb_spec i 32); [done|].
    by rewrite (testbit_u32_high w) by done. }
  unfold highest_item_bit, clz32. rewrite Heq, Z.log2_pow2 by done.
  split; [lia|]. split.
  - replace (32 - (31 - k + 1)) with k by lia. done.
  - intros r Hr. apply Hlow. lia.
Qed.

Lemma clz32_spec w :
  is_u32 w → w ≠ 0 →
  0 <= clz32 w < 32 ∧ Z.testbit w (31 - clz32 w) = true ∧
  ∀ r, 0 <= r < clz32 w → Z.testbit w (31 - r) = false.
Proof.
  intros Hw H0. unfold clz32. assert (0 < w) by (range_unfold; lia).
  pose proof (Z.log2_nonneg w).
  assert (Z.log2 w < 32) by (apply Z.log2_lt_pow2; [done|apply Hw]).
  split; [lia|]. split.
  - replace (31 - (31 - Z.log2 w)) with (Z.log2 w) by lia. by apply Z.bit_log2.
  - intros r Hr. apply Z.bits_above_log2; lia.
Qed.

(** What [calc_maximum_bit_set] leaves in [num_bits_]: the number of bits up to
    the last set bit of the scanned words, 0 when there is none. *)
Definition last_bit (bm : list Z) (lo hi n : Z) : Prop :=
  (n = 0 ∧ ∀ i, lo <= i < hi → getb bm i = false) ∨
  (lo < n <= hi ∧ getb bm (n - 1) = true ∧ ∀ i, n <= i < hi → getb bm i = false).

Lemma calc_maximum_loop_spec bm m k :
  bm_wf bm →
  last_bit bm (32 * Z.of_nat m) (32 * Z.of_nat (m + k)) (calc_maximum_loop bm m k).
Proof.
  intros Hbm. induction k as [|k IH]; cbn [calc_maximum_loop].
  { left. split; [done|]. lia. }
  destruct (Z.eqb_spec (word bm (m + k)) 0) as [H0|H0].
  - assert (Hz : ∀ i, 32 * Z.of_nat (m + k) <= i < 32 * Z.of_nat (m + S k) →
                      getb bm i = false).
    { intros i Hi. replace i with (32 * Z.of_nat (m + k) + (i - 32 * Z.of_nat (m + k)))
        by lia. rewrite getb_pos, H0 by lia. apply Z.bits_0. }
    destruct IH as [[Hn IH]|(Hn & Hlast & IH)]; [left|right].
    + split; [done|]. intros i Hi.
      destruct (Z.ltb_spec i (32 * Z.of_nat (m + k))); [apply IH|apply Hz]; lia.
    + split; [lia|]. split; [done|]. intros i Hi.
      destruct (Z.ltb_spec i (32 * Z.of_nat (m + k))); [apply IH|apply Hz]; lia.
  - destruct (highest_item_bit_spec (word bm (m + k))) as (Hr & Hbit & Hrest);
      [auto with mint|done|]. rewrite Z.shiftl_mul_pow2 by lia. change (2 ^ 5) with 32.
    right. split; [lia|]. split.
    + match goal with |- getb _ ?i = _ => replace i with
        (32 * Z.of_nat (m + k) + (highest_item_bit (word bm (m + k)) - 1)) by lia end.
      rewrite getb_pos by lia. rewrite <- Hbit. f_equal. lia.
    + intros i Hi. replace i with (32 * Z.of_nat (m + k) + (i - 32 * Z.of_nat (m + k)))
        by lia. rewrite getb_pos by lia. apply Hrest. lia.
Qed.

(** ** The masked fill of [add_range] *)

Lemma getb_or_mask bm pos mask i a b :
  bm_wf bm → (pos < NITEMS)%nat → 0 <= i → 0 <= a → b <= 32 →
  (∀ r, 0 <= r < 32 → Z.testbit mask (31 - r) = (a <=? r) && (r <? b)) →
  getb (set_word bm pos (Z.lor (word bm pos) mask)) i =
    getb bm i || ((32 * Z.of_nat pos + a <=? i) && (i <? 32 * Z.of_nat pos + b)).
Proof.
  intros Hbm Hpos Hi Ha Hb Hmask. rewrite getb_set by done.
  pose proof (Z.div_mod i 32). pose proof (Z.mod_pos_bound i 32).
  destruct (Z.eqb_spec (i / 32) (Z.of_nat pos)) as [E|E].
  - rewrite Z.lor_spec, Hmask by lia. unfold getb. rewrite E, Nat2Z.id. f_equal.
    destruct (Z.leb_spec a (i mod 32)), (Z.leb_spec (32 * Z.of_nat pos + a) i),
      (Z.ltb_spec (i mod 32) b), (Z.ltb_spec i (32 * Z.of_nat pos + b)); try done; lia.
  - destruct (Z.leb_spec (32 * Z.of_nat pos + a) i),
      (Z.ltb_spec i (32 * Z.of_nat pos + b)); rewrite ?orb_false_r; try done.
    exfalso. lia.
Qed.

Lemma testbit_shifted_mask o r :
  0 <= o < 32 → 0 <= r < 32 →
  Z.testbit (Z.shiftr full_mask o) (31 - r) = (o <=? r).
Proof.
  intros Ho Hr. rewrite Z.shiftr_spec, testbit_full_mask by lia.
  destruct (Z.ltb_spec (31 - r + o) 32), (Z.leb_spec o r); done || lia.
Qed.

Lemma add_range_loop_spec fuel bm pos n_bits bim :
  bm_wf bm → 0 <= n_bits → 1 <= bim <= 32 →
  32 * Z.of_nat pos + (32 - bim) + n_bits <= NBITS →
  n_bits < bim + 32 * (Z.of_nat fuel - 1) →
  let bm' := add_range_loop fuel bm pos n_bits (Z.shiftr full_mask (32 - bim)) bim in
  let start := 32 * Z.of_nat pos + (32 - bim) in
  bm_wf bm' ∧
  ∀ i, 0 <= i → getb bm' i = getb bm i || ((start <=? i) && (i <? start + n_bits)).
Proof.
  revert bm pos n_bits bim.
  induction fuel as [|fuel IH]; intros bm pos n_bits bim Hbm Hn Hbim Hend Hfuel.
  { lia. }
  assert (Hpos : 0 < n_bits → (pos < NITEMS)%nat).
  { intros. unfold NBITS in Hend. change NITEMS with 8%nat. lia. }
  assert (Hsr : 0 <= 32 - bim) by lia.
  cbn [add_range_loop]. cbv zeta. destruct (Z.leb_spec bim n_bits).
  - set (bm1 := set_word _ _ _).
    assert (Hbm1 : bm_wf bm1) by (subst bm1; auto with mint).
    destruct (IH bm1 (S pos) (n_bits - bim) 32) as [Hwf Hbits]; [done|lia|lia|lia|lia|].
    change (Z.shiftr full_mask (32 - 32)) with full_mask in *.
    split; [done|]. intros i Hi. rewrite Hbits by done. subst bm1.
    rewrite (getb_or_mask _ _ _ _ (32 - bim) 32) by
      (done || lia || (intros; rewrite testbit_shifted_mask by lia;
       destruct (Z.ltb_spec r 32); [by rewrite andb_true_r|lia]) || (apply Hpos; lia)).
    rewrite <- orb_assoc. f_equal.
    repeat match goal with |- context [?a <=? ?b] => destruct (Z.leb_spec a b)
      | |- context [?a <? ?b] => destruct (Z.ltb_spec a b) end; done || lia.
  - destruct (Z.ltb_spec 0 n_bits).
    + split.
      { apply set_word_wf; [done|]. apply lor_u32; auto with mint. }
      intros i Hi.
      rewrite (getb_or_mask _ _ _ _ (32 - bim) (32 - bim + n_bits)).
      2-6: done || lia || (apply Hpos; lia).
      2: { intros r Hr.
           rewrite Z.land_spec, testbit_shifted_mask, testbit_shl32 by lia.
           destruct (Z.ltb_spec (31 - r) 32); [|lia]. simpl.
           destruct (Z.ltb_spec r (32 - bim + n_bits)).
           - rewrite testbit_full_mask by lia.
             destruct (Z.ltb_spec (31 - r - (bim - n_bits)) 32); [done|lia].
           - rewrite Z.testbit_neg_r by lia. by rewrite !andb_false_r. }
      do 2 f_equal. f_equal; lia.
    + split; [done|]. intros i Hi.
      repeat match goal with |- context [?a <=? ?b] => destruct (Z.leb_spec a b)
      | |- context [?a <? ?b] => destruct (Z.ltb_spec a b) end;
        rewrite ?orb_false_r; done || lia.
Qed.

(** ** The denotation of a range *)

Section laws.
Context {T : Type} `{RangeItemLaws T}.
Implicit Types r : BitmapRange_t T.

(** Whether the bit of the item of value [x] is set. *)
Definition memb r (x : Z) : bool :=
  (item_val (base_ r) <=? x) && (x <? item_val (base_ r) + NBITS)
  && getb (bitmap_ r) (x - item_val (base_ r)).

Definition mem r (x : Z) : Prop := memb r x = true.

#[export] Instance mem_dec r x : Decision (mem r x).
Proof. unfold mem. apply _. Defined.

(** A base from which the 256 items and their end are representable. *)
Definition room (b : T) : Prop := item_wf b ∧ item_val b + NBITS < item_limit.

(** The representation invariant: [num_bits_] bounds the set bits. *)
Record inv r : Prop := {
  inv_room : room (base_ r);
  inv_max_wf : item_wf (range_max_ r);
  inv_max : item_val (base_ r) <= item_val (range_max_ r) < item_val (base_ r) + NBITS;
  inv_bm : bm_wf (bitmap_ r);
  inv_num : 0 <= num_bits_ r <= NBITS;
  inv_bits i : num_bits_ r <= i → getb (bitmap_ r) i = false;
}.

(** [num_bits_] is exact when its last bit is set. *)
Definition exact r : Prop :=
  inv r ∧ (0 < num_bits_ r → getb (bitmap_ r) (num_bits_ r - 1) = true).

(** The range allows all of its 256 items. *)
Definition full r : Prop := item_val (range_max_ r) = item_val (base_ r) + NBITS - 1.

Lemma mem_iff r x :
  mem r x ↔ item_val (base_ r) <= x < item_val (base_ r) + NBITS ∧
            getb (bitmap_ r) (x - item_val (base_ r)) = true.
Proof. unfold mem, memb. rewrite !andb_true_iff, Z.leb_le, Z.ltb_lt. tauto. Qed.

Lemma NBITS_u32 n : 0 <= n <= NBITS → is_u32 n.
Proof. unfold NBITS. intros. range_unfold. lia. Qed.

Lemma room_add b n :
  room b → 0 <= n <= NBITS →
  item_wf (item_add b n) ∧ item_val (item_add b n) = item_val b + n.
Proof.
  intros [Hwf Hlim] Hn. split.
  - apply item_add_wf; [done|by apply NBITS_u32].
  - apply item_add_val; [done|by apply NBITS_u32|lia].
Qed.

(** *** Construction *)

Lemma make_max_spec b m :
  room b → 0 <= m →
  let r := make_max b m in
  exact r ∧ base_ r = b ∧ item_val (range_max_ r) = item_val b + Z.min m (NBITS - 1) ∧
  ∀ x, ¬ mem r x.
Proof.
  intros Hb Hm. cbv zeta. unfold make_max. simpl.
  destruct (room_add b (Z.min m (NBITS - 1))) as [Hwf Hval]; [done|unfold NBITS; lia|].
  split; [|split; [done|split; [done|]]].
  - split; [|simpl; lia].
    split; simpl; [done|done|unfold NBITS in *; lia|apply zero_map_wf|unfold NBITS; lia|].
    intros. apply getb_zero_map.
  - intros x. rewrite mem_iff. simpl. rewrite getb_zero_map. intros [_ ?]. done.
Qed.

Lemma make_spec b :
  room b →
  exact (make b) ∧ base_ (make b) = b ∧ full (make b) ∧ ∀ x, ¬ mem (make b) x.
Proof.
  intros Hb. destruct (make_max_spec b (NBITS - 1)) as (? & ? & Hmax & ?);
    [done|unfold NBITS; lia|].
  unfold make, full. rewrite Hmax. unfold NBITS. split; [done|]. split; [done|].
  split; [simpl; lia|done].
Qed.

(** [base(b)] makes the range the one the constructor makes. *)
Lemma set_base_make r b : set_base r b = make b.
Proof. done. Qed.

(** *** Membership test *)

Lemma land_bit w k :
  0 <= k < 32 → (Z.land w (shl32 1 k) =? 0) = negb (Z.testbit w k).
Proof.
  intros Hk. destruct (Z.testbit w k) eqn:E.
  - apply Z.eqb_neq. intros Hz. apply (f_equal (λ z, Z.testbit z k)) in Hz.
    rewrite Z.land_spec, E, testbit_shl32, testbit_one, Z.bits_0 in Hz by lia.
    destruct (Z.ltb_spec k 32), (Z.eqb_spec (k - k) 0); done || lia.
  - apply Z.eqb_eq. apply Z.bits_inj_0. intros i.
    destruct (Z.ltb_spec i 0); [by apply Z.testbit_neg_r|].
    rewrite Z.land_spec, testbit_shl32, testbit_one by lia.
    destruct (Z.eqb_spec (i - k) 0); [|by rewrite !andb_false_r].
    replace i with k by lia. by rewrite E.
Qed.

(** The distance the code computes for an item of the window. *)
Lemma window_diff b x :
  item_wf b → item_wf x → item_val b <= item_val x <= item_val b + NBITS →
  item_diff x b = item_val x - item_val b.
Proof.
  intros Hb Hx Hin. rewrite item_diff_val by done. apply u32_small.
  apply NBITS_u32. lia.
Qed.

Lemma is_set_spec r x :
  inv r → item_wf x →
  is_set r x = true ↔ mem r (item_val x) ∧ item_val x <= item_val (range_max_ r).
Proof.
  intros Hinv Hx. destruct Hinv as [[Hb _] Hmw Hmax Hbm Hnum Hbits].
  unfold is_set. rewrite mem_iff, !item_geb_val by done.
  destruct (Z.leb_spec (item_val (base_ r)) (item_val x)); simpl; [|split; [done|lia]].
  destruct (Z.leb_spec (item_val x) (item_val (range_max_ r))); [|split; [done|lia]].
  rewrite window_diff by (done || lia). set (d := item_val x - item_val (base_ r)).
  assert (Hd : 0 <= d < NBITS) by (unfold NBITS in *; lia).
  destruct (Z.ltb_spec d (num_bits_ r)).
  - rewrite shiftr_5, land_31, land_bit, negb_involutive by
      (pose proof (Z.mod_pos_bound d 32); lia).
    fold (getb (bitmap_ r) d). unfold NBITS in *. split; [|tauto].
    intros. repeat split; try done; lia.
  - rewrite Hbits by done. split; [done|]. intros [[_ ?] _]. done.
Qed.

(** *** Adding an item *)

(** [bitmap_[d >> 5] |= 1u << (31 - (d & 31))] sets bit [d]. *)
Lemma getb_set_bit bm d i :
  bm_wf bm → 0 <= d < NBITS → 0 <= i →
  getb (set_word bm (Z.to_nat (d / 32))
          (Z.lor (word bm (Z.to_nat (d / 32))) (shl32 1 (31 - d mod 32)))) i =
    getb bm i || (i =? d).
Proof.
  intros Hbm Hd Hi. pose proof (Z.mod_pos_bound d 32).
  rewrite (getb_or_mask _ _ _ _ (d mod 32) (d mod 32 + 1)); [|done|unfold NBITS in *;
    change NITEMS with 8%nat; mlia|done|lia|lia|].
  - f_equal. assert (32 * Z.of_nat (Z.to_nat (d / 32)) + d mod 32 = d) by mlia.
    destruct (Z.leb_spec (32 * Z.of_nat (Z.to_nat (d / 32)) + d mod 32) i),
      (Z.ltb_spec i (32 * Z.of_nat (Z.to_nat (d / 32)) + (d mod 32 + 1))),
      (Z.eqb_spec i d); done || lia.
  - intros q Hq. rewrite testbit_shl32, testbit_one by lia.
    destruct (Z.ltb_spec (31 - q) 32), (Z.eqb_spec (31 - q - (31 - d mod 32)) 0),
      (Z.leb_spec (d mod 32) q), (Z.ltb_spec q (d mod 32 + 1)); done || lia.
Qed.

(** Setting the bits [[a, a + n)]. *)
Lemma fill_spec r bm' a n :
  inv r → bm_wf bm' → 0 <= a → 0 < n → a + n <= NBITS →
  (∀ i, 0 <= i → getb bm' i = getb (bitmap_ r) i || ((a <=? i) && (i <? a + n))) →
  let r' := mkBR (base_ r) (range_max_ r) bm' (Z.max (num_bits_ r) (a + n)) in
  inv r' ∧ (exact r → exact r') ∧
  ∀ y, mem r' y ↔ mem r y ∨
    item_val (base_ r) + a <= y < item_val (base_ r) + a + n.
Proof.
  intros [Hroom Hmw Hmax Hbm Hnum Hbits] Hbm' Ha Hn Hend Hget r'.
  assert (Hin : ∀ i, 0 <= i → getb bm' i = true ↔
            getb (bitmap_ r) i = true ∨ a <= i < a + n).
  { intros i Hi. rewrite Hget by done.
    by rewrite orb_true_iff, andb_true_iff, Z.leb_le, Z.ltb_lt. }
  assert (Hinv' : inv r').
  { split; simpl; try done; [unfold NBITS in *; lia|].
    intros i Hi. apply not_true_iff_false. rewrite Hin, Hbits by lia.
    intros [?|?]; [done|lia]. }
  split; [done|]. split.
  - intros [_ Hex]. split; [done|]. simpl. intros _. apply Hin; [lia|].
    destruct (Z.leb_spec (num_bits_ r) (a + n)); [right; lia|].
    left. replace (Z.max (num_bits_ r) (a + n)) with (num_bits_ r) by lia.
    apply Hex. lia.
  - intros y. rewrite !mem_iff. simpl. split.
    + intros [Hy Hg]. apply Hin in Hg as [Hg|Hg]; [by left| |lia]. right. lia.
    + intros [[Hy Hg]|Hy]; (split; [lia|]); apply Hin; [lia|by left|lia|right; lia].
Qed.

Lemma add_spec r x :
  inv r → item_wf x →
  let ok := (item_val (base_ r) <=? item_val x) && (item_val x <=? item_val (range_max_ r)) in
  let r' := (add r x).2 in
  (add r x).1 = ok ∧ inv r' ∧ base_ r' = base_ r ∧ range_max_ r' = range_max_ r ∧
  (exact r → exact r') ∧
  (∀ y, mem r' y ↔ mem r y ∨ (ok = true ∧ y = item_val x)).
Proof.
  intros Hinv Hx ok r'. pose proof Hinv as [[Hb Hlim] Hmw Hmax Hbm Hnum Hbits].
  subst ok r'. unfold add. rewrite !item_geb_val by done.
  destruct (_ && _) eqn:Eok; simpl.
  2: { split_and!; try done. intros y. split; [by left|]. intros [?|[??]]; done. }
  apply andb_true_iff in Eok as [E1%Z.leb_le E2%Z.leb_le].
  rewrite window_diff by (done || lia). set (d := item_val x - item_val (base_ r)).
  assert (Hd : 0 <= d < NBITS) by lia.
  rewrite shiftr_5, land_31, (u32_small (d + 1)), Z.max_comm by (apply NBITS_u32; lia).
  set (bm' := set_word _ _ _).
  destruct (fill_spec r bm' d 1) as (Hinv' & Hex' & Hmem); try done; try lia.
  { subst bm'; auto with mint. }
  { intros i Hi. subst bm'. rewrite getb_set_bit by done. f_equal.
    destruct (Z.eqb_spec i d), (Z.leb_spec d i), (Z.ltb_spec i (d + 1)); done || lia. }
  split_and!; try done. intros y. rewrite Hmem.
  split; (intros [?|?]; [by left|right]); lia.
Qed.

(** *** Adding a range *)

(** The limits the code clips [[from, to)] to. *)
Lemma add_range_clip r from to :
  room (base_ r) → item_wf from → item_wf to →
  ∃ mn mx,
    (if item_geb (base_ r) from then base_ r else from) = mn ∧
    (if item_geb to (item_add (base_ r) NBITS)
     then item_add (base_ r) NBITS else to) = mx ∧
    item_wf mn ∧ item_val mn = Z.max (item_val (base_ r)) (item_val from) ∧
    item_wf mx ∧ item_val mx = Z.min (item_val (base_ r) + NBITS) (item_val to).
Proof.
  intros Hroom Hf Ht. pose proof Hroom as [Hb _].
  pose proof (room_add (base_ r) NBITS Hroom) as [Hew Hev]; [unfold NBITS; lia|].
  do 2 eexists. do 2 (split; [reflexivity|]). rewrite !item_geb_val, Hev by done.
  destruct (Z.leb_spec (item_val from) (item_val (base_ r))),
    (Z.leb_spec (item_val (base_ r) + NBITS) (item_val to)); split_and!; done || lia.
Qed.

Lemma add_range_spec r from to :
  inv r → item_wf from → item_wf to →
  let r' := add_range r from to in
  inv r' ∧ base_ r' = base_ r ∧ range_max_ r' = range_max_ r ∧ (exact r → exact r') ∧
  (∀ y, mem r' y ↔ mem r y ∨
     (item_val (base_ r) <= y < item_val (base_ r) + NBITS ∧ item_val from <= y < item_val to)).
Proof.
  intros Hinv Hf Ht. cbv zeta. pose proof Hinv as [Hroom Hmw Hmax Hbm Hnum Hbits].
  destruct (add_range_clip r from to) as (mn & mx & Emn & Emx & Hmnw & Hmnv & Hmxw & Hmxv);
    [done..|]. unfold add_range. rewrite Emn, Emx. clear Emn Emx.
  rewrite item_geb_val by done. destruct (Z.leb_spec (item_val mx) (item_val mn)).
  { split_and!; try done. intros y. split; [by left|]. intros [?|?]; [done|lia]. }
  rewrite !window_diff by (apply Hroom || done || lia).
  set (o := item_val mn - item_val (base_ r)). set (n := item_val mx - item_val mn).
  assert (Ho : 0 <= o ∧ 0 < n ∧ o + n <= NBITS) by lia.
  rewrite shiftr_5, land_31, (u32_small (o + n)) by (apply NBITS_u32; lia).
  pose proof (Z.mod_pos_bound o 32).
  destruct (add_range_loop_spec (S NITEMS) (bitmap_ r) (Z.to_nat (o / 32)) n (32 - o mod 32))
    as [Hwf' Hget]; [done|lia|lia|mlia|unfold NBITS in *; change NITEMS with 8%nat; lia|].
  replace (32 - (32 - o mod 32)) with (o mod 32) in * by lia.
  replace (32 * Z.of_nat (Z.to_nat (o / 32)) + o mod 32) with o in Hget by mlia.
  destruct (fill_spec r _ o n Hinv Hwf') as (Hinv' & Hex' & Hmem); try done; try lia.
  split_and!; try done. intros y. rewrite Hmem.
  split; (intros [?|?]; [by left|right]); lia.
Qed.

(** The loop the documentation of [add_range] gives: [add] on every item of
    [[from, to)], here [n] items from [from] on. *)
Fixpoint add_each (n : nat) (r : BitmapRange_t T) (from : T) : BitmapRange_t T :=
  match n with
  | O => r
  | S n' => add_each n' (add r from).2 (item_add from 1)
  end.

Lemma add_each_spec n r from :
  inv r → item_wf from → item_val from + Z.of_nat n < item_limit →
  let r' := add_each n r from in
  inv r' ∧ base_ r' = base_ r ∧ range_max_ r' = range_max_ r ∧ (exact r → exact r') ∧
  ∀ y, mem r' y ↔ mem r y ∨
    (item_val (base_ r) <= y <= item_val (range_max_ r) ∧
     item_val from <= y < item_val from + Z.of_nat n).
Proof.
  revert r from. induction n as [|n IH]; intros r from Hinv Hf Hlim; simpl.
  { split_and!; try done. intros y. split; [by left|]. intros [?|?]; [done|lia]. }
  destruct (add_spec r from Hinv Hf) as (_ & Hinv1 & Hb1 & Hm1 & Hex1 & Hmem1).
  assert (Hone : is_u32 1) by (range_unfold; lia).
  destruct (IH (add r from).2 (item_add from 1)) as (Hinv2 & Hb2 & Hm2 & Hex2 & Hmem2);
    [done|by apply item_add_wf|rewrite item_add_val by (done || lia); lia|].
  rewrite item_add_val in Hmem2 by (done || lia). rewrite Hb1, Hm1 in *.
  split_and!; try done; [by intros; apply Hex2, Hex1|]. intros y.
  rewrite Hmem2, Hmem1, andb_true_iff, !Z.leb_le. split.
  - intros [[?|[? ->]]|?]; [by left|right; lia|right; lia].
  - intros [?|?]; [by left; left|].
    destruct (decide (y = item_val from)); [left; right; lia|right; lia].
Qed.

(** Two ranges with the same base and members hold the same bits. *)
Lemma mem_ext r1 r2 :
  inv r1 → inv r2 → base_ r1 = base_ r2 → (∀ y, mem r1 y ↔ mem r2 y) →
  bitmap_ r1 = bitmap_ r2.
Proof.
  intros H1 H2 Hb Hmem. apply bm_ext; [apply H1|apply H2|]. intros i Hi.
  specialize (Hmem (item_val (base_ r1) + i)). rewrite !mem_iff, <- Hb in Hmem.
  replace (item_val (base_ r1) + i - item_val (base_ r1)) with i in Hmem by lia.
  destruct (getb (bitmap_ r1) i), (getb (bitmap_ r2) i); try done;
    intuition (discriminate || lia).
Qed.

(** An exact range is determined by its limits and its members. *)
Lemma exact_ext r1 r2 :
  exact r1 → exact r2 → base_ r1 = base_ r2 → range_max_ r1 = range_max_ r2 →
  (∀ y, mem r1 y ↔ mem r2 y) → r1 = r2.
Proof.
  intros [H1 E1] [H2 E2] Hb Hm Hmem. pose proof (mem_ext r1 r2 H1 H2 Hb Hmem) as Hbm.
  pose proof (inv_num r1 H1). pose proof (inv_num r2 H2).
  assert (num_bits_ r1 = num_bits_ r2).
  { destruct (Z.lt_trichotomy (num_bits_ r1) (num_bits_ r2)) as [?|[?|?]]; [|done|].
    - rewrite <- Hbm in E2. rewrite (inv_bits r1 H1) in E2 by lia.
      discriminate E2. lia.
    - rewrite Hbm in E1. rewrite (inv_bits r2 H2) in E1 by lia.
      discriminate E1. lia. }
  destruct r1, r2; simpl in *; congruence.
Qed.

(** An exact range is empty exactly when [empty()] says so, and [max()] is its
    greatest member. *)
Lemma max_val r :
  inv r → 0 < num_bits_ r →
  item_wf (max r) ∧ item_val (max r) = item_val (base_ r) + (num_bits_ r - 1).
Proof.
  intros Hinv Hn. pose proof (inv_num r Hinv). unfold max.
  rewrite u32_small by (apply NBITS_u32; lia). apply room_add; [apply Hinv|lia].
Qed.

Lemma mem_bound r y :
  inv r → mem r y → item_val (base_ r) <= y < item_val (base_ r) + num_bits_ r.
Proof.
  intros Hinv [Hy Hg]%mem_iff. split; [lia|].
  destruct (Z.ltb_spec y (item_val (base_ r) + num_bits_ r)); [done|].
  rewrite (inv_bits r Hinv) in Hg by lia. done.
Qed.

Lemma empty_spec r : exact r → empty r = true ↔ ∀ y, ¬ mem r y.
Proof.
  intros [Hinv Hex]. unfold empty. rewrite Z.eqb_eq. pose proof (inv_num r Hinv). split.
  - intros E y Hy. apply mem_bound in Hy; [lia|done].
  - intros Hno. destruct (Z.eqb_spec (num_bits_ r) 0); [done|].
    exfalso. apply (Hno (item_val (base_ r) + (num_bits_ r - 1))). apply mem_iff.
    split; [lia|]. replace (_ + _ - _) with (num_bits_ r - 1) by lia. apply Hex. lia.
Qed.

Lemma max_spec r :
  exact r → empty r = false →
  mem r (item_val (max r)) ∧ ∀ y, mem r y → y <= item_val (max r).
Proof.
  intros [Hinv Hex] Hne%Z.eqb_neq. pose proof (inv_num r Hinv).
  destruct (max_val r Hinv) as [_ Hv]; [lia|]. rewrite Hv. split.
  - apply mem_iff. split; [lia|].
    replace (_ + _ - _) with (num_bits_ r - 1) by lia. apply Hex. lia.
  - intros y Hy. apply mem_bound in Hy; [lia|done].
Qed.

(** *** Removing an item *)

(** [bitmap_[d >> 5] &= ~(1u << (31 - (d & 31)))] clears bit [d]. *)
Lemma getb_clear_bit bm d i :
  bm_wf bm → 0 <= d < NBITS → 0 <= i →
  getb (set_word bm (Z.to_nat (d / 32))
          (Z.land (word bm (Z.to_nat (d / 32))) (not32 (shl32 1 (31 - d mod 32))))) i =
    getb bm i && negb (i =? d).
Proof.
  intros Hbm Hd Hi. pose proof (Z.mod_pos_bound d 32). pose proof (Z.mod_pos_bound i 32).
  unfold NBITS in Hd. rewrite getb_set; [|done|change NITEMS with 8%nat; mlia|done].
  destruct (Z.eqb_spec (i / 32) (Z.of_nat (Z.to_nat (d / 32)))) as [E|E].
  - unfold getb. rewrite E, Nat2Z.id, Z.land_spec, testbit_not32, testbit_shl32,
      testbit_one by lia. f_equal.
    destruct (Z.ltb_spec (31 - i mod 32) 32); [|lia]. simpl. f_equal.
    destruct (Z.eqb_spec (31 - i mod 32 - (31 - d mod 32)) 0), (Z.eqb_spec i d);
      try done; mlia.
  - destruct (Z.eqb_spec i d) as [->|]; [mlia|]. by rewrite andb_true_r.
Qed.

(** The bits outside the scanned words being clear, the scan is exact. *)
Lemma last_bit_widen bm lo hi n :
  last_bit bm lo hi n → 0 <= lo → hi <= NBITS →
  (∀ i, 0 <= i < lo → getb bm i = false) → (∀ i, hi <= i → getb bm i = false) →
  last_bit bm 0 NBITS n.
Proof.
  intros Hlast Hlo Hhi Hbelow Habove.
  destruct Hlast as [[Hn Hf]|(Hn & Ht & Hf)]; [left|right].
  - split; [done|]. intros i Hi. destruct (Z.ltb_spec i lo); [apply Hbelow; lia|].
    destruct (Z.ltb_spec i hi); [apply Hf|apply Habove]; lia.
  - split; [lia|]. split; [done|]. intros i Hi.
    destruct (Z.ltb_spec i hi); [apply Hf|apply Habove]; lia.
Qed.

Lemma last_bit_exact b m bm n :
  room b → item_wf m → item_val b <= item_val m < item_val b + NBITS →
  bm_wf bm → last_bit bm 0 NBITS n → exact (mkBR b m bm n).
Proof.
  intros Hroom Hmw Hm Hbm Hlast.
  assert (Hhigh : ∀ i, n <= i → 0 <= i → getb bm i = false).
  { intros i Hi Hi0. destruct (Z.ltb_spec i NBITS); [|by apply getb_high].
    destruct Hlast as [[_ Hf]|(_ & _ & Hf)]; apply Hf; lia. }
  split; [split; simpl; try done|simpl].
  - destruct Hlast as [[-> _]|[? _]]; unfold NBITS in *; lia.
  - intros i Hi. destruct Hlast as [[-> _]|[? _]]; apply Hhigh; lia.
  - intros Hn. destruct Hlast as [[-> _]|(_ & ? & _)]; [lia|done].
Qed.

Lemma calc_maximum_exact b m bm lo hi :
  room b → item_wf m → item_val b <= item_val m < item_val b + NBITS → bm_wf bm →
  (lo <= hi <= NITEMS)%nat →
  (∀ i, 0 <= i < 32 * Z.of_nat lo → getb bm i = false) →
  (∀ i, 32 * Z.of_nat hi <= i → getb bm i = false) →
  exact (mkBR b m bm (calc_maximum_bit_set bm hi lo)).
Proof.
  intros Hroom Hmw Hm Hbm Hlh Hbelow Habove. apply last_bit_exact; try done.
  change NITEMS with 8%nat in Hlh. pose proof (calc_maximum_loop_spec bm lo (hi - lo) Hbm)
    as Hlast. replace (lo + (hi - lo))%nat with hi in Hlast by lia.
  eapply last_bit_widen; [exact Hlast|lia|unfold NBITS; lia|done|done].
Qed.

(** Clearing a bit of the window. *)
Lemma clear_spec r bm' d :
  inv r → 0 <= d < NBITS →
  (∀ i, 0 <= i → getb bm' i = getb (bitmap_ r) i && negb (i =? d)) →
  ∀ n' y, mem (mkBR (base_ r) (range_max_ r) bm' n') y ↔
          mem r y ∧ y ≠ item_val (base_ r) + d.
Proof.
  intros Hinv Hd Hget n' y. rewrite !mem_iff. simpl. split.
  - intros [Hy Hg]. rewrite Hget in Hg by lia.
    apply andb_true_iff in Hg as [Hg Hne%negb_true_iff%Z.eqb_neq].
    split; [done|]. lia.
  - intros [[Hy Hg] Hne]. split; [done|]. rewrite Hget, Hg by lia.
    destruct (Z.eqb_spec (y - item_val (base_ r)) d); [lia|done].
Qed.

Lemma remove_spec r x :
  exact r → empty r = false → item_wf x →
  ∃ r', remove r x = Some r' ∧ exact r' ∧ base_ r' = base_ r ∧
    range_max_ r' = range_max_ r ∧ ∀ y, mem r' y ↔ mem r y ∧ y ≠ item_val x.
Proof.
  intros Hex Hne%Z.eqb_neq Hx. pose proof Hex as [Hinv Htop].
  pose proof Hinv as [Hroom Hmw Hmax Hbm Hnum Hbits].
  destruct (max_val r Hinv) as [Hmaxw Hmaxv]; [lia|]. pose proof Hroom as [Hb _].
  unfold remove. rewrite !item_geb_val, Hmaxv by done. destruct (_ && _) eqn:Eok.
  2: { exists r. split_and!; try done. intros y.
       split; [|tauto]. intros Hy. split; [done|]. intros ->.
       apply mem_bound in Hy; [|done]. apply andb_false_iff in Eok.
       rewrite !Z.leb_gt in Eok. lia. }
  apply andb_true_iff in Eok as [E1%Z.leb_le E2%Z.leb_le].
  rewrite window_diff by (done || lia).
  destruct (pos_split (item_val x - item_val (base_ r))) as (k & q & Ed & Hq); [lia|].
  set (d := item_val x - item_val (base_ r)) in *.
  assert (Hd : 0 <= d < NBITS ∧ d < num_bits_ r) by lia. rewrite shiftr_5, land_31.
  assert (Hk : Z.to_nat (d / 32) = k) by mlia.
  assert (Hpos : (k < NITEMS)%nat) by (unfold NBITS in Hd; change NITEMS with 8%nat; lia).
  pose proof (getb_clear_bit (bitmap_ r) d) as Hget. rewrite Hk in *.
  destruct (Nat.ltb_spec k NITEMS); [|lia]. set (bm' := set_word _ _ _) in *.
  assert (Hbm' : bm_wf bm') by (subst bm'; auto with mint).
  specialize (λ i, Hget i Hbm (proj1 Hd)). clearbody bm'.
  eexists. split; [reflexivity|]. split_and!; [|done|done|].
  - rewrite item_eqb_val, Hmaxv by done.
    destruct (Z.eqb_spec (item_val x) (item_val (base_ r) + (num_bits_ r - 1))).
    + apply calc_maximum_exact; try done; [lia|lia|].
      intros i Hi. rewrite Hget, Hbits by lia. done.
    + apply last_bit_exact; try done. right. split; [lia|]. rewrite Hget, Htop by lia.
      split; [destruct (Z.eqb_spec (num_bits_ r - 1) d); [lia|done]|].
      intros i Hi. by rewrite Hget, Hbits by lia.
  - intros y. rewrite (clear_spec r bm' d) by (done || lia). subst d.
    replace (item_val (base_ r) + _) with (item_val x) by lia. done.
Qed.

(** *** Moving the base *)

(** [shift_map_left] drops the items below the new base. *)
Lemma shift_map_left_spec r n :
  inv r → 0 <= n →
  let r' := shift_map_left r n in
  bm_wf (bitmap_ r') ∧ 0 <= num_bits_ r' <= NBITS ∧
  (∀ i, 0 <= i → getb (bitmap_ r') i = getb (bitmap_ r) (i + n)) ∧
  (∀ i, num_bits_ r' <= i → getb (bitmap_ r') i = false) ∧
  (exact r → 0 < num_bits_ r' → getb (bitmap_ r') (num_bits_ r' - 1) = true).
Proof.
  intros [Hroom Hmw Hmax Hbm Hnum Hbits] Hn. unfold shift_map_left. cbv zeta.
  destruct (Z.leb_spec (num_bits_ r) n); simpl.
  - split_and!; try (done || lia || apply zero_map_wf).
    + intros i Hi. rewrite getb_zero_map, Hbits by lia. done.
    + intros. apply getb_zero_map.
  - split_and!; [apply shift_words_left_wf; [done|lia]|lia|lia| | |].
    + intros i Hi. apply shift_words_left_spec; [done|lia|done].
    + intros i Hi. rewrite shift_words_left_spec, Hbits by (done || lia). done.
    + intros [_ Htop] _. rewrite shift_words_left_spec by (done || lia).
      replace (_ - _ - _ + _) with (num_bits_ r - 1) by lia. apply Htop. lia.
Qed.

(** [shift_map_right] drops the items past the end of the window.  An empty map
    does not stay exact. *)
Lemma shift_map_right_spec r n :
  inv r → 0 <= n < 2 ^ 32 →
  let r' := shift_map_right r n in
  bm_wf (bitmap_ r') ∧ 0 <= num_bits_ r' <= NBITS ∧
  (∀ i, 0 <= i < NBITS → getb (bitmap_ r') i = (n <=? i) && getb (bitmap_ r) (i - n)) ∧
  (∀ i, num_bits_ r' <= i → getb (bitmap_ r') i = false) ∧
  (exact r → empty r = false →
   0 < num_bits_ r' → getb (bitmap_ r') (num_bits_ r' - 1) = true).
Proof.
  intros Hinv Hn. pose proof Hinv as [Hroom Hmw Hmax Hbm Hnum Hbits].
  unfold shift_map_right. cbv zeta. destruct (Z.leb_spec NBITS n); simpl.
  { split_and!; try (done || lia || apply zero_map_wf).
    - intros i Hi. rewrite getb_zero_map. destruct (Z.leb_spec n i); [lia|done].
    - intros. apply getb_zero_map. }
  rewrite u32_small by (unfold NBITS in *; range_unfold; lia).
  pose proof (shift_words_right_wf (bitmap_ r) n Hbm ltac:(lia)) as Hbm'.
  assert (Hget : ∀ i, 0 <= i < NBITS → getb (shift_words_right (bitmap_ r) n) i =
                      (n <=? i) && getb (bitmap_ r) (i - n)).
  { intros i Hi. apply shift_words_right_spec; [done|lia|done]. }
  set (bm' := shift_words_right _ _) in *. clearbody bm'.
  destruct (Z.ltb_spec NBITS (num_bits_ r + n)).
  - pose proof (calc_maximum_exact (base_ r) (range_max_ r) bm'
      (Z.to_nat (Z.shiftr n 5)) NITEMS) as Hex'.
    destruct Hex' as [Hinv' Htop']; try done.
    + rewrite shiftr_5. change NITEMS with 8%nat. unfold NBITS in *. mlia.
    + intros i Hi. rewrite shiftr_5 in Hi. rewrite Hget by (unfold NBITS in *; mlia).
      destruct (Z.leb_spec n i); [mlia|done].
    + intros i Hi. by apply getb_high.
    + split_and!; try done; [apply Hinv'..|].
      intros i Hi. by apply (inv_bits _ Hinv').
  - split_and!; try done; [lia| |].
    + intros i Hi. destruct (Z.ltb_spec i NBITS); [|by apply getb_high].
      rewrite Hget, Hbits by lia. by rewrite andb_false_r.
    + intros [_ Htop] Hne%Z.eqb_neq _. rewrite Hget by lia.
      destruct (Z.leb_spec n (num_bits_ r + n - 1)); [|lia]. simpl.
      replace (_ - _ - _) with (num_bits_ r - 1) by lia. apply Htop. lia.
Qed.

(** The sliding window: the members that fit in the new window survive. *)
Lemma base_update_spec r b :
  inv r → room b → Z.abs (item_val b - item_val (base_ r)) < 2 ^ 32 →
  let r' := base_update r b in
  inv r' ∧ base_ r' = b ∧
  (∀ y, mem r' y ↔ mem r y ∧ item_val b <= y < item_val b + NBITS) ∧
  (exact r → empty r = false ∨ item_val (base_ r) <= item_val b → exact r').
Proof.
  intros Hinv Hb Hdist. pose proof Hinv as [Hroom Hmw Hmax Hbm Hnum Hbits].
  pose proof Hroom as [Hbw _]. pose proof Hb as [Hb' _]. unfold base_update.
  rewrite item_eqb_val, item_gtb_val by done.
  destruct (Z.eqb_spec (item_val b) (item_val (base_ r))) as [E|E].
  { apply item_val_inj in E as ->; [|done..]. cbv zeta. split_and!; try done.
    intros y. rewrite mem_iff. tauto. }
  destruct (room_add b (NBITS - 1) Hb) as [Hrw Hrv]; [unfold NBITS; lia|].
  assert (Hlim : item_val b <= item_val (item_add b (NBITS - 1)) < item_val b + NBITS)
    by (rewrite Hrv; unfold NBITS; lia).
  destruct (Z.ltb_spec (item_val (base_ r)) (item_val b)).
  - rewrite item_diff_val, u32_small by (done || (range_unfold; lia)).
    destruct (shift_map_left_spec r (item_val b - item_val (base_ r)) Hinv)
      as (? & ? & Hget & ? & Htop); [lia|].
    split_and!; [split; done|done| |intros Hex _; split; [split; done|by apply Htop]].
    intros y. rewrite !mem_iff. simpl. split.
    + intros [Hy Hg]. rewrite Hget in Hg by lia.
      replace (_ - _ + _) with (y - item_val (base_ r)) in Hg by lia.
      destruct (Z.ltb_spec (y - item_val (base_ r)) NBITS); [split; [split|]; done || lia|].
      by rewrite getb_high in Hg.
    + intros [[Hy Hg] Hin]. split; [done|]. rewrite Hget by lia.
      by replace (_ - _ + _) with (y - item_val (base_ r)) by lia.
  - rewrite item_diff_val, u32_small by (done || (range_unfold; lia)).
    destruct (shift_map_right_spec r (item_val (base_ r) - item_val b) Hinv)
      as (? & ? & Hget & ? & Htop); [lia|].
    split_and!; [split; done|done| |].
    + intros y. rewrite !mem_iff. simpl. split.
      * intros [Hy Hg]. rewrite Hget in Hg by lia. apply andb_true_iff in Hg as
          [Hle%Z.leb_le Hg]. replace (_ - _ - (_ - _)) with (y - item_val (base_ r))
          in Hg by lia. split; [split|]; done || lia.
      * intros [[Hy Hg] Hin]. split; [done|]. rewrite Hget by lia.
        replace (_ - _ - (_ - _)) with (y - item_val (base_ r)) by lia. rewrite Hg.
        destruct (Z.leb_spec (item_val (base_ r) - item_val b) (y - item_val b)); done || lia.
    + intros Hex [Hne|?]; [|lia]. split; [split; done|by apply Htop].
Qed.

(** *** The least member *)

Lemma n_longs_bound n : 0 <= n <= NBITS →
  (n_longs n <= NITEMS)%nat ∧ n <= 32 * Z.of_nat (n_longs n) < n + 32.
Proof.
  intros Hn. unfold n_longs. rewrite u32_small by (unfold NBITS in *; range_unfold; lia).
  unfold NBITS in Hn. change NITEMS with 8%nat. mlia.
Qed.

Lemma min_loop_spec bm (dflt item : T) i k b :
  bm_wf bm → item_wf item → item_val item = b + 32 * Z.of_nat i →
  b + 32 * Z.of_nat (i + k) < item_limit →
  (∃ p, 32 * Z.of_nat i <= p < 32 * Z.of_nat (i + k) ∧ getb bm p = true) →
  ∃ p, item_val (min_loop bm dflt item i k) = b + p ∧ getb bm p = true ∧
       32 * Z.of_nat i <= p < 32 * Z.of_nat (i + k) ∧
       ∀ p', 32 * Z.of_nat i <= p' < p → getb bm p' = false.
Proof.
  intros Hbm. revert item i. induction k as [|k IH]; intros item i Hw Hv Hlim Hsome.
  { destruct Hsome as (p & Hp & _). lia. }
  cbn [min_loop]. assert (Hu : is_u32 32) by (range_unfold; lia).
  destruct (Z.eqb_spec (word bm i) 0) as [Hz0|Hz0].
  - assert (Hz : ∀ p, 32 * Z.of_nat i <= p < 32 * Z.of_nat (S i) → getb bm p = false).
    { intros p Hp. replace p with (32 * Z.of_nat i + (p - 32 * Z.of_nat i)) by lia.
      rewrite getb_pos, Hz0 by lia. apply Z.bits_0. }
    destruct (IH (item_add item 32) (S i)) as (p & Hp & Hg & Hin & Hfirst).
    + by apply item_add_wf.
    + rewrite item_add_val by (done || lia). lia.
    + lia.
    + destruct Hsome as (p & Hp & Hg). exists p. split; [|done].
      destruct (Z.ltb_spec p (32 * Z.of_nat (S i))); [by rewrite Hz in Hg by lia|lia].
    + exists p. split_and!; try done; try lia. intros p' Hp'.
      destruct (Z.ltb_spec p' (32 * Z.of_nat (S i))); [apply Hz; lia|apply Hfirst; lia].
  - destruct (clz32_spec (word bm i)) as (Hr & Hbit & Hfirst); [auto with mint|done|].
    exists (32 * Z.of_nat i + clz32 (word bm i)). split_and!; try lia.
    + rewrite item_add_val; [lia|done|range_unfold; lia|lia].
    + rewrite getb_pos by lia. done.
    + intros p' Hp'. replace p' with (32 * Z.of_nat i + (p' - 32 * Z.of_nat i)) by lia.
      rewrite getb_pos by lia. apply Hfirst. lia.
Qed.

Lemma min_spec r :
  inv r → (∃ y, mem r y) →
  mem r (item_val (min r)) ∧ ∀ y, mem r y → item_val (min r) <= y.
Proof.
  intros Hinv [y Hy]. pose proof Hinv as [[Hb Hlim] Hmw Hmax Hbm Hnum Hbits].
  destruct (n_longs_bound (num_bits_ r) Hnum) as [Hle Hnl].
  change NITEMS with 8%nat in Hle.
  destruct (min_loop_spec (bitmap_ r) (base_ r) (base_ r) 0 (n_longs (num_bits_ r))
    (item_val (base_ r))) as (p & Hp & Hg & Hin & Hfirst); try done;
    [lia|unfold NBITS in *; lia| |].
  { exists (y - item_val (base_ r)). pose proof (mem_bound r y Hinv Hy).
    apply mem_iff in Hy as [? ?]. split; [lia|done]. }
  unfold min. rewrite Hp. split.
  - apply mem_iff. split; [unfold NBITS in *; lia|].
    by replace (_ + _ - _) with p by lia.
  - intros z Hz. pose proof (mem_bound r z Hinv Hz). apply mem_iff in Hz as [_ Hgz].
    destruct (Z.ltb_spec (z - item_val (base_ r)) p); [|lia].
    by rewrite Hfirst in Hgz by lia.
Qed.

(** *** Iteration *)

(** Clearing the most significant set bit, as [for_each] does. *)
Lemma clear_msb w q :
  is_u32 w → w ≠ 0 → 0 <= q < 32 →
  Z.testbit (Z.land w (not32 (shl32 1 (Z.lxor 31 (clz32 w))))) (31 - q) =
    Z.testbit w (31 - q) && negb (q =? clz32 w).
Proof.
  intros Hw Hw0 Hq. destruct (clz32_spec w Hw Hw0) as (Ho & _ & _).
  rewrite lxor_31 by done.
  rewrite Z.land_spec, testbit_not32, testbit_shl32, testbit_one by lia. f_equal.
  destruct (Z.ltb_spec (31 - q) 32); [|lia]. simpl. f_equal.
  destruct (Z.eqb_spec (31 - q - (31 - clz32 w)) 0), (Z.eqb_spec q (clz32 w)); done || lia.
Qed.

Lemma word_items_spec fuel (item : T) w lo :
  is_u32 w → item_wf item → item_val item + 32 < item_limit → 0 <= lo <= 32 →
  (∀ q, 0 <= q < lo → Z.testbit w (31 - q) = false) → 32 - lo <= Z.of_nat fuel →
  item_val <$> word_items fuel item w =
    filter (λ x, Z.testbit w (31 - (x - item_val item)) = true)
      (seqZ (item_val item + lo) (32 - lo)).
Proof.
  intros Hw Hi Hlim. revert w lo Hw.
  induction fuel as [|fuel IH]; intros w lo Hw Hlo Hpre Hfuel.
  { by replace (32 - lo) with 0 by lia. }
  cbn [word_items]. destruct (Z.eqb_spec w 0) as [->|Hw0].
  { simpl. rewrite filter_none; [done|]. intros x _. by rewrite Z.bits_0. }
  destruct (clz32_spec w Hw Hw0) as (Ho & Hbit & Hfirst).
  assert (Hlo' : lo <= clz32 w).
  { destruct (Z.leb_spec lo (clz32 w)); [done|]. by rewrite Hpre in Hbit by lia. }
  replace (32 - lo) with ((clz32 w - lo) + (1 + (32 - (clz32 w + 1)))) by lia.
  rewrite seqZ_split, filter_app, filter_none by lia || (intros x Hx%elem_of_seqZ;
    rewrite Hfirst by lia; done). simpl ([] ++ _).
  rewrite seqZ_cons, filter_cons_True by (lia || (replace (31 - _) with (31 - clz32 w)
    by lia; done)). cbn [fmap list_fmap].
  rewrite item_add_val by (done || (range_unfold; lia) || lia). f_equal; [lia|].
  set (w' := Z.land _ _). rewrite (IH w' (clz32 w + 1)); [| | lia| |lia].
  - replace (Z.pred _) with (32 - (clz32 w + 1)) by lia.
    replace (Z.succ _) with (item_val item + (clz32 w + 1)) by lia.
    apply filter_same. intros x Hx%elem_of_seqZ. subst w'.
    rewrite clear_msb by (done || lia).
    destruct (Z.eqb_spec (x - item_val item) (clz32 w)); [lia|]. by rewrite andb_true_r.
  - subst w'. auto with mint.
  - intros q Hq. subst w'. rewrite clear_msb by (done || lia).
    destruct (Z.eqb_spec q (clz32 w)); [by rewrite andb_false_r|].
    by rewrite Hfirst by lia.
Qed.

Lemma for_each_loop_spec bm (item : T) i k b :
  bm_wf bm → item_wf item → item_val item = b + 32 * Z.of_nat i →
  b + 32 * Z.of_nat (i + k) < item_limit →
  item_val <$> for_each_loop bm item i k =
    filter (λ x, getb bm (x - b) = true) (seqZ (b + 32 * Z.of_nat i) (32 * Z.of_nat k)).
Proof.
  intros Hbm. revert item i. induction k as [|k IH]; intros item i Hw Hv Hlim; [done|].
  cbn [for_each_loop]. assert (Hu : is_u32 32) by (range_unfold; lia).
  rewrite fmap_app, (word_items_spec 32 item (word bm i) 0) by
    (auto with mint || lia || (intros; lia)).
  rewrite (IH (item_add item 32) (S i)) by (try apply item_add_wf; try done;
    rewrite ?item_add_val by (done || lia); lia).
  replace (32 * Z.of_nat (S k)) with (32 + 32 * Z.of_nat k) by lia.
  rewrite seqZ_split, filter_app by lia. f_equal.
  - rewrite Hv. replace (b + 32 * Z.of_nat i + 0) with (b + 32 * Z.of_nat i) by lia.
    apply filter_same. intros x Hx%elem_of_seqZ.
    replace (x - b) with (32 * Z.of_nat i + (x - (b + 32 * Z.of_nat i))) by lia.
    rewrite getb_pos by lia. done.
  - by replace (b + 32 * Z.of_nat (S i)) with (b + 32 * Z.of_nat i + 32) by lia.
Qed.

(** [for_each] visits the members in increasing order, each one once. *)
Lemma for_each_spec r :
  inv r →
  item_val <$> for_each r = filter (mem r) (seqZ (item_val (base_ r)) NBITS).
Proof.
  intros Hinv. pose proof Hinv as [[Hb Hlim] Hmw Hmax Hbm Hnum Hbits].
  destruct (n_longs_bound (num_bits_ r) Hnum) as [Hle Hnl].
  change NITEMS with 8%nat in Hle. unfold for_each.
  rewrite (for_each_loop_spec _ _ 0 _ (item_val (base_ r)));
    [|done|done|lia|unfold NBITS in *; lia].
  assert (Hsplit : NBITS = 32 * Z.of_nat (n_longs (num_bits_ r)) +
    (NBITS - 32 * Z.of_nat (n_longs (num_bits_ r)))) by lia.
  rewrite Hsplit. clear Hsplit.
  rewrite seqZ_split, filter_app; [|lia|unfold NBITS; lia].
  rewrite (filter_none _ (seqZ _ (NBITS - _))), app_nil_r.
  - replace (_ + 32 * Z.of_nat 0) with (item_val (base_ r)) by lia.
    apply filter_same. intros x Hx%elem_of_seqZ. rewrite mem_iff. unfold NBITS.
    split; [intros; split; [lia|done]|tauto].
  - intros x Hx%elem_of_seqZ Hm%mem_bound; [lia|done].
Qed.

Lemma for_each_wf r : inv r → Forall item_wf (for_each r).
Proof.
  intros Hinv. pose proof Hinv as [[Hb Hlim] Hmw Hmax Hbm Hnum Hbits].
  unfold for_each. generalize (n_longs (num_bits_ r)) as k, 0%nat as i. intros k.
  assert (Hwi : ∀ fuel (item : T) w, is_u32 w → item_wf item →
            Forall item_wf (word_items fuel item w)).
  { induction fuel as [|fuel IH]; intros item w Hw Hi; simpl; [done|].
    destruct (Z.eqb_spec w 0) as [|Hw0]; [done|].
    destruct (clz32_spec w Hw Hw0) as (Ho & _ & _).
    constructor; [apply item_add_wf; [done|range_unfold; lia]|].
    apply IH; auto with mint. }
  generalize dependent (base_ r). intros item Hi _ _. clear Hinv.
  revert item Hi. induction k as [|k IH]; intros item Hi i; [done|].
  cbn [for_each_loop].
  apply Forall_app. split; [auto with mint|].
  apply IH. apply item_add_wf; [done|range_unfold; lia].
Qed.

(** *** Serialized form *)

(** The words copied by [memcpy] over a cleared map. *)
Lemma copied_words words k :
  Forall is_u32 words → (k <= length words)%nat → (k <= NITEMS)%nat →
  let bm := take k words ++ drop k zero_map in
  bm_wf bm ∧ ∀ j, word bm j = if decide (j < k)%nat then word words j else 0.
Proof.
  intros Hall Hk Hk8. cbv zeta. split; [split|].
  - rewrite length_app, length_take, length_drop. unfold zero_map.
    rewrite length_replicate. lia.
  - apply Forall_app. split; [by apply Forall_take|].
    apply Forall_drop, zero_map_wf.
  - intros j. unfold word. rewrite !nth_lookup. destruct (decide _).
    + rewrite lookup_app_l, lookup_take_lt by (rewrite ?length_take; lia). done.
    + rewrite lookup_app_r by (rewrite length_take; lia).
      rewrite lookup_drop. destruct (zero_map !! _) eqn:E; [|done].
      apply lookup_replicate in E as [-> _]. done.
Qed.

(** The bits [bitmap_set] keeps: the first [num_bits] of the input. *)
Definition trimmed (num_bits : Z) (words : list Z) : list Z :=
  let bm := take (n_longs num_bits) words ++ drop (n_longs num_bits) zero_map in
  if (0 <? num_bits) && negb (Z.land num_bits 31 =? 0)
  then set_word bm (n_longs num_bits - 1)
         (Z.land (word bm (n_longs num_bits - 1))
            (not32 (Z.shiftr full_mask (Z.land num_bits 31))))
  else bm.

Lemma trimmed_spec num_bits words :
  Forall is_u32 words → 0 <= num_bits <= NBITS → (n_longs num_bits <= length words)%nat →
  bm_wf (trimmed num_bits words) ∧
  ∀ i, 0 <= i → getb (trimmed num_bits words) i = (i <? num_bits) && getb words i.
Proof.
  intros Hall Hn Hlen. destruct (n_longs_bound num_bits Hn) as [Hle Hnl].
  destruct (copied_words words (n_longs num_bits) Hall Hlen Hle) as [Hwf Hw].
  unfold trimmed. set (bm := take _ _ ++ _) in *. clearbody bm.
  assert (Hget : ∀ i, 0 <= i →
    getb bm i = (i <? 32 * Z.of_nat (n_longs num_bits)) && getb words i).
  { intros i Hi. destruct (pos_split i Hi) as (k & q & -> & Hq).
    rewrite !getb_pos, Hw by done. destruct (decide _).
    - destruct (Z.ltb_spec (32 * Z.of_nat k + q) (32 * Z.of_nat (n_longs num_bits)));
        [done|lia].
    - destruct (Z.ltb_spec (32 * Z.of_nat k + q) (32 * Z.of_nat (n_longs num_bits)));
        [lia|]. apply Z.bits_0. }
  rewrite land_31. destruct (_ && _) eqn:Ec.
  - apply andb_true_iff in Ec as [Hpos%Z.ltb_lt Hs%negb_true_iff%Z.eqb_neq].
    split; [auto with mint|]. intros i Hi. destruct (pos_split i Hi) as (k & q & -> & Hq).
    rewrite getb_set by (done || lia). pose proof (Z.mod_pos_bound num_bits 32).
    assert (Hnb : num_bits = 32 * Z.of_nat (n_longs num_bits - 1) + num_bits mod 32) by mlia.
    replace ((32 * Z.of_nat k + q) / 32) with (Z.of_nat k) by mlia.
    replace ((32 * Z.of_nat k + q) mod 32) with q by mlia.
    destruct (Z.eqb_spec (Z.of_nat k) (Z.of_nat (n_longs num_bits - 1))) as [E|E].
    + rewrite Z.land_spec, testbit_not32, testbit_shifted_mask by lia.
      replace (n_longs num_bits - 1)%nat with k in * by lia. rewrite <- getb_pos, Hget by lia.
      destruct (Z.ltb_spec (31 - q) 32); [|lia].
      destruct (Z.leb_spec (num_bits mod 32) q), (Z.ltb_spec (32 * Z.of_nat k + q) num_bits),
        (Z.ltb_spec (32 * Z.of_nat k + q) (32 * Z.of_nat (n_longs num_bits))); simpl;
        rewrite ?andb_true_r, ?andb_false_r; done || lia.
    + rewrite Hget by lia.
      destruct (Z.ltb_spec (32 * Z.of_nat k + q) num_bits),
        (Z.ltb_spec (32 * Z.of_nat k + q) (32 * Z.of_nat (n_longs num_bits))); done || lia.
  - split; [done|]. intros i Hi. rewrite Hget by done.
    assert (num_bits = 32 * Z.of_nat (n_longs num_bits)) as <-; [|done].
    apply andb_false_iff in Ec as [Hpos%Z.ltb_ge|Hs%negb_false_iff%Z.eqb_eq]; mlia.
Qed.

Lemma bitmap_set_spec r num_bits words :
  inv r → Forall is_u32 words → 0 <= num_bits <= NBITS →
  (n_longs num_bits <= length words)%nat →
  let r' := bitmap_set r num_bits words in
  exact r' ∧ base_ r' = base_ r ∧ range_max_ r' = range_max_ r ∧
  ∀ y, mem r' y ↔ item_val (base_ r) <= y < item_val (base_ r) + num_bits ∧
                  getb words (y - item_val (base_ r)) = true.
Proof.
  intros Hinv Hall Hn Hlen. pose proof Hinv as [Hroom Hmw Hmax Hbm Hnum Hbits].
  destruct (n_longs_bound num_bits Hn) as [Hle Hnl].
  destruct (trimmed_spec num_bits words) as [Hwf Hget]; [done..|].
  unfold bitmap_set. cbv zeta. rewrite (Z.min_l num_bits NBITS) by lia.
  fold (trimmed num_bits words). split_and!; [|done|done|].
  - apply calc_maximum_exact; try done; [lia|simpl; lia|].
    intros i Hi. rewrite Hget by lia. destruct (Z.ltb_spec i num_bits); done || lia.
  - intros y. rewrite mem_iff. simpl. split.
    + intros [Hy Hg]. rewrite Hget in Hg by lia.
      apply andb_true_iff in Hg as [Hlt%Z.ltb_lt Hg]. split; [lia|done].
    + intros [Hy Hg]. split; [lia|]. rewrite Hget, Hg by lia.
      destruct (Z.ltb_spec (y - item_val (base_ r)) num_bits); done || lia.
Qed.

(** What [bitmap_get] writes, [bitmap_set] reads back. *)
Lemma bitmap_get_set r :
  exact r → full r →
  let '(num_bits, words, num_longs) := bitmap_get r in
  bitmap_set (make (base_ r)) num_bits (take num_longs words) = r.
Proof.
  intros Hex Hfull. pose proof Hex as [Hinv Htop]. simpl.
  pose proof Hinv as [Hroom Hmw Hmax Hbm Hnum Hbits].
  destruct (make_spec (base_ r) Hroom) as ([Hminv _] & Hmb & Hmf & _).
  destruct (n_longs_bound (num_bits_ r) Hnum) as [Hle Hnl].
  destruct (bitmap_set_spec (make (base_ r)) (num_bits_ r)
    (take (n_longs (num_bits_ r)) (bitmap_ r))) as (Hex' & Hb' & Hm' & Hmem').
  - done.
  - apply Forall_take, Hbm.
  - done.
  - rewrite length_take. destruct Hbm. lia.
  - apply exact_ext; try done.
    + rewrite Hm'. apply item_val_inj; [apply Hminv|done|].
      unfold full in *. rewrite Hmf, Hfull, Hmb. done.
    + intros y. rewrite Hmem', Hmb, mem_iff.
      assert (Hw : ∀ i, 0 <= i < num_bits_ r →
        getb (take (n_longs (num_bits_ r)) (bitmap_ r)) i = getb (bitmap_ r) i).
      { intros i Hi. unfold getb, word. rewrite !nth_lookup, lookup_take_lt; [done|mlia]. }
      split.
      * intros [Hy Hg]. rewrite Hw in Hg by lia. split; [lia|done].
      * intros Hy. pose proof (mem_bound r y Hinv (proj2 (mem_iff r y) Hy)).
        split; [done|]. rewrite Hw by lia. apply Hy.
Qed.

(** C30: [add_range] is the loop its documentation gives: on a range that allows
    all its 256 items it leaves exactly the range that [add] leaves when called
    on every item of [[from, to)] in turn, whatever words and masks the interval
    spans and however much of it lies outside the window. *)
Theorem add_range_is_repeated_add r from to :
  exact r → full r → item_wf from → item_wf to →
  add_range r from to =
    add_each (Z.to_nat (item_val to - item_val from)) r from.
Proof.
  intros Hex Hfull Hf Ht. pose proof Hex as [Hinv _].
  destruct (add_range_spec r from to Hinv Hf Ht) as (_ & Hb1 & Hm1 & Hex1 & Hmem1).
  destruct (decide (item_val from <= item_val to)).
  - pose proof (item_val_limit to Ht).
    destruct (add_each_spec (Z.to_nat (item_val to - item_val from)) r from Hinv Hf)
      as (_ & Hb2 & Hm2 & Hex2 & Hmem2); [lia|].
    apply exact_ext; [auto..|congruence|congruence|]. intros y. rewrite Hmem1, Hmem2.
    unfold full in Hfull. rewrite Hfull. split; (intros [?|?]; [by left|right; lia]).
  - replace (Z.to_nat _) with 0%nat by lia. simpl.
    apply exact_ext; [auto..|congruence|congruence|]. intros y. rewrite Hmem1.
    split; [intros [?|?]; [done|lia]|by left].
Qed.

(** C32: the sliding window.  Moving the base by less than 2^32 items keeps
    exactly the members that fit in the new window, and re-establishes the
    invariant.  The highest-bit count stays exact unless an empty range is moved
    down. *)
Theorem base_update_window r b :
  exact r → room b → Z.abs (item_val b - item_val (base_ r)) < 2 ^ 32 →
  inv (base_update r b) ∧ base_ (base_update r b) = b ∧
  (∀ y, mem (base_update r b) y ↔ mem r y ∧ item_val b <= y < item_val b + NBITS) ∧
  (empty r = false ∨ item_val (base_ r) <= item_val b → exact (base_update r b)).
Proof.
  intros Hex Hb Hd. destruct (base_update_spec r b) as (? & ? & ? & Hex'); [apply Hex|done..|].
  split_and!; auto.
Qed.

(** [for_each] calls its function on the members of the range, in increasing
    order and once each. *)
Theorem for_each_enumerates r :
  inv r → item_val <$> for_each r = filter (mem r) (seqZ (item_val (base_ r)) NBITS).
Proof. apply for_each_spec. Qed.

(** The serialized form of a range, its bit count and the words in use,
    restores the range when read into a fresh range of the same base. *)
Theorem bitmap_get_set_roundtrip r :
  exact r → full r →
  let '(num_bits, words, num_longs) := bitmap_get r in
  bitmap_set (make (base_ r)) num_bits (take num_longs words) = r.
Proof. apply bitmap_get_set. Qed.

(** On a non-empty range, [min] and [max] are its extreme members, and
    [remove] deletes one item without touching a word outside the map, leaving
    [empty], [min] and [max] right for the remaining members. *)
Theorem remove_keeps_extremes r x :
  exact r → empty r = false → item_wf x →
  (mem r (item_val (min r)) ∧ mem r (item_val (max r)) ∧
   ∀ y, mem r y → item_val (min r) <= y <= item_val (max r)) ∧
  ∃ r', remove r x = Some r' ∧ exact r' ∧
    (∀ y, mem r' y ↔ mem r y ∧ y ≠ item_val x) ∧
    (empty r' = true ↔ ∀ y, mem r y → y = item_val x).
Proof.
  intros Hex Hne Hx. destruct (max_spec r Hex Hne) as [Hmax Hmax'].
  destruct (min_spec r (proj1 Hex)) as [Hmin Hmin']; [eauto|].
  split; [split_and!; auto|].
  destruct (remove_spec r x Hex Hne Hx) as (r' & Hr & Hex' & _ & _ & Hmem).
  exists r'. split_and!; try done. rewrite (empty_spec r' Hex').
  setoid_rewrite Hmem. split.
  - intros Hno y Hy. destruct (decide (y = item_val x)); [done|]. by destruct (Hno y).
  - intros Hall y [Hy Hne']. by apply Hne', Hall.
Qed.

End laws.

(** ** Behaviours at the edge of the contract *)

(** On an empty [FragmentNumberSet_t] based at 1 or above, the unsigned
    wrap-around of [max()] makes [remove] a no-op. *)
Lemma fragment_remove_empty (r : FragmentNumberSet_t) x :
  inv r → empty r = true → 1 <= base_ r → is_u32 x → remove r x = Some r.
Proof.
  intros Hinv He%Z.eqb_eq Hb Hx. destruct (inv_room r Hinv) as [Hbw Hlim].
  unfold remove, max. rewrite He. simpl. replace (u32 (base_ r + _)) with (base_ r - 1).
  - destruct (Z.leb_spec (base_ r) x), (Z.leb_spec x (base_ r - 1)); simpl; done || lia.
  - simpl in *. mlia.
Qed.

(** On an empty [SequenceNumberSet_t], whose items are 64 bits wide, [max()]
    is 2^32 - 1 above the base, so the guard of [remove] accepts an item 256 or
    more above the base and the write lands outside the eight words. *)
Theorem sequence_remove_empty_out_of_bounds (r : SequenceNumberSet_t) x :
  inv r → empty r = true → SN.wf x → SN.val (base_ r) + 2 ^ 32 < 2 ^ 63 →
  SN.val (base_ r) + NBITS <= SN.val x < SN.val (base_ r) + 2 ^ 32 →
  remove r x = None.
Proof.
  intros Hinv He%Z.eqb_eq Hx Hroom Hin. destruct (inv_room r Hinv) as [Hbw _].
  unfold remove, max. rewrite He. replace (u32 (0 - 1)) with (2 ^ 32 - 1) by done.
  assert (Hu : is_u32 (2 ^ 32 - 1)) by (range_unfold; lia).
  rewrite !item_geb_val; [|apply item_add_wf; done|done|done|done].
  rewrite item_add_val; [|done|done|simpl; range_unfold; lia].
  simpl item_val in *. unfold NBITS in *.
  destruct (Z.leb_spec (SN.val (base_ r)) (SN.val x)),
    (Z.leb_spec (SN.val x) (SN.val (base_ r) + (2 ^ 32 - 1))); simpl; try lia.
  rewrite SN.SequenceNumberDiff_val, shiftr_5, u32_small by
    (done || (range_unfold; lia)).
  destruct (Nat.ltb_spec (Z.to_nat ((SN.val x - SN.val (base_ r)) / 32)) NITEMS); [|done].
  change NITEMS with 8%nat in *. mlia.
Qed.

(** Moving an empty range down by [k] items, [0 < k < 256], makes [empty]
    answer false although no bit is set. *)
Theorem base_update_down_of_empty (r : FragmentNumberSet_t) k :
  inv r → empty r = true → 0 < k < NBITS → k <= base_ r →
  empty (base_update r (base_ r - k)) = false ∧
  ∀ y, ¬ mem (base_update r (base_ r - k)) y.
Proof.
  intros Hinv He Hk Hb. destruct (inv_room r Hinv) as [Hbw Hlim]. simpl in Hbw, Hlim.
  assert (Hroom : room (base_ r - k)).
  { split; simpl; [range_unfold; lia|lia]. }
  split.
  - unfold base_update, empty. simpl. destruct (Z.eqb_spec (base_ r - k) (base_ r)); [lia|].
    destruct (Z.ltb_spec (base_ r) (base_ r - k)); [lia|].
    unfold shift_map_right. replace (base_ r - (base_ r - k)) with k by lia.
    apply Z.eqb_eq in He. rewrite He, Z.add_0_l, !(u32_small k) by (apply NBITS_u32; lia).
    destruct (Z.leb_spec NBITS k); [lia|]. cbn [num_bits_].
    destruct (Z.ltb_spec NBITS k); [lia|]. apply Z.eqb_neq. lia.
  - intros y. destruct (base_update_spec r (base_ r - k) Hinv Hroom) as (_ & _ & Hmem & _).
    { simpl. unfold NBITS in Hk. range_unfold. lia. }
    rewrite Hmem. intros [Hy _]. apply mem_bound in Hy; [|done].
    apply Z.eqb_eq in He. lia.
Qed.

(** ** Witnesses

    The theorems at a set based at 5 with the 73 members 7 to 79, which spans
    three words. *)

Definition sample : SequenceNumberSet_t :=
  add_range (make (SN.mkSN 0 5)) (SN.mkSN 0 7) (SN.mkSN 0 80).

Lemma small_wf n : 0 <= n < 2 ^ 32 → SN.wf (SN.mkSN 0 n).
Proof. intros. split; simpl; range_unfold; lia. Qed.

Lemma small_room n : 0 <= n < 2 ^ 32 → room (SN.mkSN 0 n).
Proof. intros. split; [by apply small_wf|]. unfold NBITS; simpl. unfold SN.val; simpl. lia. Qed.

Lemma sample_exact : exact sample.
Proof.
  destruct (make_spec (SN.mkSN 0 5)) as (Hex & _); [apply small_room; lia|].
  apply (add_range_spec (make (SN.mkSN 0 5)) (SN.mkSN 0 7) (SN.mkSN 0 80));
    [apply Hex|apply small_wf; lia..|done].
Qed.

Lemma sample_full : full sample.
Proof. vm_compute. reflexivity. Qed.

Lemma sample_fragments_inv : inv (make 40 : FragmentNumberSet_t).
Proof.
  destruct (make_spec (40 : FragmentNumber_t)) as ([? ?] & _); [|done].
  split; [simpl; range_unfold; lia|reflexivity].
Qed.

Lemma add_range_is_repeated_add_witness :
  add_range sample (SN.mkSN 0 90) (SN.mkSN 0 300) =
    add_each 210 sample (SN.mkSN 0 90).
Proof.
  rewrite (add_range_is_repeated_add sample (SN.mkSN 0 90) (SN.mkSN 0 300));
    [reflexivity|apply sample_exact|apply sample_full|apply small_wf; lia..].
Defined.

Lemma base_update_window_witness :
  base_ (base_update sample (SN.mkSN 0 50)) = SN.mkSN 0 50 ∧
  exact (base_update sample (SN.mkSN 0 50)).
Proof.
  destruct (base_update_window sample (SN.mkSN 0 50)) as (_ & Hb & _ & Hex);
    [apply sample_exact|apply small_room; lia|reflexivity|].
  split; [exact Hb|]. apply Hex. left. vm_compute. reflexivity.
Defined.

Lemma for_each_enumerates_witness :
  item_val <$> for_each sample =
    filter (mem sample) (seqZ (item_val (base_ sample)) NBITS) ∧
  item_val <$> for_each sample = seqZ 7 73.
Proof.
  split; [|vm_compute; reflexivity].
  apply (for_each_enumerates sample). apply sample_exact.
Defined.

Lemma bitmap_get_set_roundtrip_witness :
  bitmap_get sample = (75, bitmap_ sample, 3%nat) ∧
  bitmap_set (make (SN.mkSN 0 5)) 75 (take 3 (bitmap_ sample)) = sample.
Proof.
  pose proof (bitmap_get_set_roundtrip sample sample_exact sample_full) as Hrt.
  assert (Hget : bitmap_get sample = (75, bitmap_ sample, 3%nat)) by (vm_compute; reflexivity).
  rewrite Hget in Hrt. split; [exact Hget|exact Hrt].
Defined.

Lemma remove_keeps_extremes_witness :
  ∃ r', remove sample (SN.mkSN 0 79) = Some r' ∧ exact r' ∧ max r' = SN.mkSN 0 78.
Proof.
  destruct (remove_keeps_extremes sample (SN.mkSN 0 79)) as (_ & r' & Hr & Hex & _);
    [apply sample_exact|vm_compute; reflexivity|apply small_wf; lia|].
  exists r'. split; [exact Hr|]. split; [exact Hex|].
  vm_compute in Hr. injection Hr as <-. reflexivity.
Defined.

Lemma sequence_remove_empty_out_of_bounds_witness :
  remove (make (SN.mkSN 0 1) : SequenceNumberSet_t) (SN.mkSN 0 1000) = None.
Proof.
  apply (sequence_remove_empty_out_of_bounds (make (SN.mkSN 0 1)) (SN.mkSN 0 1000)).
  - destruct (make_spec (SN.mkSN 0 1)) as ([? _] & _); [apply small_room; lia|done].
  - reflexivity.
  - apply small_wf; lia.
  - reflexivity.
  - vm_compute. split; [discriminate|reflexivity].
Defined.

Lemma base_update_down_of_empty_witness :
  empty (base_update (make 40 : FragmentNumberSet_t) 30) = false.
Proof.
  apply (base_update_down_of_empty (make 40) 10);
    [apply sample_fragments_inv|reflexivity|unfold NBITS; lia|simpl; lia].
Defined.
