(* ===== verification/Containers.v ===== *)
(** * Resource-limited vectors

    [ResourceLimitedVector] of
    include/fastrtps/utils/collections/ResourceLimitedVector.hpp, the vector the
    proxies and selectors keep locators, identifiers and entries in, with its
    configuration (ResourceLimitedContainerConfig.hpp).  A vector is its
    configuration, the capacity of the underlying [std::vector] and its items. *)

From S2P Require Import Prelude.

Module RLV.

(** [ResourceLimitedContainerConfig]. *)
Record config := mkConfig { initial : Z; maximum : Z; increment : Z }.

Definition SIZE_MAX : Z := 2 ^ 64 - 1.

Definition default_configuration : config := mkConfig 0 SIZE_MAX 1.

Definition fixed_size_configuration (size : Z) : config := mkConfig size size 0.

Definition dynamic_allocation_configuration (inc : Z) : config :=
  mkConfig 0 SIZE_MAX (if inc =? 0 then 1 else inc).

Record t (A : Type) := mk {
  configuration_ : config;
  capacity_ : Z;
  collection_ : list A
}.
Arguments mk {A}.
Arguments configuration_ {A}.
Arguments capacity_ {A}.
Arguments collection_ {A}.

Section operations.
Context {A : Type}.
Implicit Types v : t A.

(** The constructor reserves the initial capacity. *)
Definition make (cfg : config) : t A := mk cfg (initial cfg) [].

Definition size v : Z := Z.of_nat (length (collection_ v)).
Definition empty v : bool := match collection_ v with [] => true | _ => false end.

Definition with_items v (l : list A) : t A := mk (configuration_ v) (capacity_ v) l.

(** [std::vector::reserve] never shrinks. *)
Definition reserve v (n : Z) : t A :=
  mk (configuration_ v) (Z.max (capacity_ v) n) (collection_ v).

Definition ensure_capacity v : bool * t A :=
  let cap := capacity_ v in
  if size v =? cap then
    if cap <? maximum (configuration_ v) then
      let cap := cap + increment (configuration_ v) in
      let cap := Z.min cap (maximum (configuration_ v)) in
      (true, reserve v cap)
    else (false, v)
  else (true, v).

(** The assertion of [ensure_capacity]. *)
Definition ensure_capacity_assert v : bool :=
  if (size v =? capacity_ v) && (capacity_ v <? maximum (configuration_ v))
  then 0 <? increment (configuration_ v) else true.

(** [std::vector::emplace_back], which grows a vector that is full. *)
Definition vector_push v (x : A) : t A :=
  mk (configuration_ v) (Z.max (capacity_ v) (size v + 1)) (collection_ v ++ [x]).

(** [emplace_back], and [push_back] on top of it: whether a pointer to the new
    element was returned, and the vector. *)
Definition emplace_back v (x : A) : bool * t A :=
  let '(ok, v') := ensure_capacity v in
  if ok then (true, vector_push v' x) else (false, v').

Definition push_back v (x : A) : bool * t A := emplace_back v x.

(** [insert] before position [dist]. *)
Definition insert v (dist : nat) (x : A) : bool * t A :=
  let '(ok, v') := ensure_capacity v in
  if ok then
    (true, mk (configuration_ v') (Z.max (capacity_ v') (size v' + 1))
              (take dist (collection_ v') ++ x :: drop dist (collection_ v')))
  else (false, v').

Definition clear v : t A := with_items v [].

(** [operator =]: the configuration of the target is kept and its items are
    pushed one by one. *)
Fixpoint push_all v (l : list A) : t A :=
  match l with
  | [] => v
  | x :: l => push_all (snd (push_back v x)) l
  end.

Definition assign_vector v (other : list A) : t A := push_all (clear v) other.

(** The assertion of [operator =]: nothing was dropped. *)
Definition assign_vector_assert v (other : list A) : bool :=
  size (assign_vector v other) =? Z.of_nat (length other).

(** [assign(first, last)]. *)
Definition assign v (l : list A) : t A :=
  let n := Z.min (Z.of_nat (length l)) (maximum (configuration_ v)) in
  mk (configuration_ v) (Z.max (capacity_ v) n) (take (Z.to_nat n) l).

(** [std::find_if]: the position of the first item satisfying [p]. *)
Fixpoint find_if (p : A → bool) (l : list A) : option nat :=
  match l with
  | [] => None
  | x :: l => if p x then Some 0%nat else S <$> find_if p l
  end.

(** [do_remove]: without order, the last item replaces the removed one. *)
Definition do_remove (keep_order : bool) v (i : nat) : t A :=
  let l := collection_ v in
  if keep_order then with_items v (take i l ++ drop (S i) l)
  else
    let l' :=
      if Nat.eqb i (length l - 1) then l
      else match last l with Some x => <[i := x]> l | None => l end in
    with_items v (take (length l' - 1) l').

Definition remove_if (keep_order : bool) v (p : A → bool) : bool * t A :=
  match find_if p (collection_ v) with
  | Some i => (true, do_remove keep_order v i)
  | None => (false, v)
  end.

Definition remove `{EqDecision A} (keep_order : bool) v (x : A) : bool * t A :=
  remove_if keep_order v (λ y, bool_decide (y = x)).

Definition contains `{EqDecision A} v (x : A) : bool :=
  match find_if (λ y, bool_decide (y = x)) (collection_ v) with
  | Some _ => true
  | None => false
  end.

(** [at], which throws past the end. *)
Definition at_ v (pos : nat) : option A := collection_ v !! pos.

Definition pop_back v : t A :=
  with_items v (take (length (collection_ v) - 1) (collection_ v)).

(** ** Properties *)

(** A configuration the container can grow under, and a vector within it. *)
Definition config_wf (c : config) : Prop :=
  0 <= initial c <= maximum c ∧ 0 <= increment c ∧ (0 < increment c ∨ initial c = maximum c).

Definition wf v : Prop :=
  config_wf (configuration_ v) ∧ size v <= capacity_ v ∧
  initial (configuration_ v) <= capacity_ v <= maximum (configuration_ v).

Lemma make_wf cfg : config_wf cfg → wf (make cfg).
Proof. unfold wf, config_wf, make, size; simpl. lia. Qed.

Lemma push_back_room v x :
  wf v → size v < maximum (configuration_ v) →
  ensure_capacity_assert v = true ∧
  ∃ cap, push_back v x = (true, mk (configuration_ v) cap (collection_ v ++ [x])) ∧
         size v + 1 <= cap <= maximum (configuration_ v) ∧ capacity_ v <= cap.
Proof.
  unfold wf, config_wf. intros ((? & ? & Hinc) & ? & ?) Hlt.
  unfold push_back, emplace_back, ensure_capacity, ensure_capacity_assert.
  destruct (Z.eqb_spec (size v) (capacity_ v)) as [Heq|Hne]; simpl.
  - destruct (Z.ltb_spec (capacity_ v) (maximum (configuration_ v))); [|lia].
    split; [apply Z.ltb_lt; lia|]. eexists. split; [reflexivity|].
    unfold size in *; simpl. lia.
  - split; [done|]. eexists. split; [reflexivity|]. unfold size in *; simpl. lia.
Qed.

Lemma push_back_full v x :
  wf v → maximum (configuration_ v) <= size v → push_back v x = (false, v).
Proof.
  unfold wf. intros (_ & ? & ?) Hge. unfold push_back, emplace_back, ensure_capacity.
  destruct (Z.eqb_spec (size v) (capacity_ v)); [|lia].
  by destruct (Z.ltb_spec (capacity_ v) (maximum (configuration_ v))); [lia|].
Qed.

Lemma push_back_wf v x : wf v → wf (snd (push_back v x)).
Proof.
  intros Hwf. destruct (decide (size v < maximum (configuration_ v))) as [Hlt|Hge].
  - destruct (push_back_room v x Hwf Hlt) as (_ & cap & -> & Hcap).
    destruct Hwf as (? & ? & ?). unfold wf, size in *; simpl.
    rewrite length_app; simpl. split_and!; [done|lia..].
  - by rewrite push_back_full by (done || lia).
Qed.

Lemma clear_wf v : wf v → wf (clear v).
Proof. intros (? & ? & ?). unfold wf, clear, with_items, size in *; simpl. split_and!; [done|lia..]. Qed.

(** Pushing a list keeps its prefix that fits. *)
Lemma push_all_spec l v :
  wf v →
  wf (push_all v l) ∧ configuration_ (push_all v l) = configuration_ v ∧
  collection_ (push_all v l) =
    collection_ v ++ take (Z.to_nat (maximum (configuration_ v) - size v)) l.
Proof.
  revert v. induction l as [|x l IH]; intros v Hwf; simpl.
  { by rewrite take_nil, app_nil_r. }
  destruct (IH _ (push_back_wf v x Hwf)) as (Hw & Hc & Hi). split; [done|].
  destruct (decide (size v < maximum (configuration_ v))) as [Hlt|Hge].
  - destruct (push_back_room v x Hwf Hlt) as (_ & cap & Heq & Hcap).
    rewrite Heq in *. simpl in *. split; [done|]. rewrite Hi. unfold size in *; simpl.
    rewrite length_app; simpl.
    replace (Z.to_nat (maximum (configuration_ v) - Z.of_nat (length (collection_ v))))
      with (S (Z.to_nat (maximum (configuration_ v) -
                         Z.of_nat (length (collection_ v) + 1)))) by lia.
    simpl. by rewrite <- app_assoc.
  - rewrite (push_back_full v x Hwf) in * by lia. simpl in *. split; [done|]. rewrite Hi.
    by replace (Z.to_nat (maximum (configuration_ v) - size v)) with 0%nat by lia.
Qed.

Lemma assign_vector_spec v l :
  wf v →
  wf (assign_vector v l) ∧ configuration_ (assign_vector v l) = configuration_ v ∧
  collection_ (assign_vector v l) = take (Z.to_nat (maximum (configuration_ v))) l.
Proof.
  intros Hwf. destruct (push_all_spec l (clear v) (clear_wf v Hwf)) as (? & ? & Hi).
  split_and!; [done..|]. unfold assign_vector. rewrite Hi. unfold size; simpl.
  by rewrite Z.sub_0_r.
Qed.

Lemma find_if_Some p l i :
  find_if p l = Some i →
  ∃ x, l !! i = Some x ∧ p x = true ∧ ∀ j y, (j < i)%nat → l !! j = Some y → p y = false.
Proof.
  revert i. induction l as [|x l IH]; intros i; simpl; [done|].
  destruct (p x) eqn:Hx; intros Hi; simplify_eq.
  - exists x. split_and!; [done..|]. intros; lia.
  - destruct (find_if p l) as [k|]; simplify_eq/=. destruct (IH k) as (y & ? & ? & Hlt); [done|].
    exists y. split_and!; [done..|]. intros [|j] z ? Hz; simplify_eq/=; [done|].
    apply (Hlt j z); [lia|done].
Qed.

Lemma find_if_None p l : find_if p l = None ↔ Forall (λ x, p x = false) l.
Proof.
  induction l as [|x l IH]; simpl; [done|]. rewrite Forall_cons.
  destruct (p x); [split; [done|by intros [? _]]|].
  rewrite <- IH. destruct (find_if p l); simpl; [|done]. split; [done|by intros [_ ?]].
Qed.

Lemma do_remove_perm b v i x :
  collection_ v !! i = Some x → collection_ v ≡ₚ x :: collection_ (do_remove b v i).
Proof.
  intros Hi. set (l := collection_ v) in *.
  assert (Hl : l = take i l ++ x :: drop (S i) l) by (symmetry; by apply take_drop_middle).
  destruct b; simpl; fold l.
  - rewrite Hl at 1. by rewrite Permutation_middle.
  - pose proof (lookup_lt_Some _ _ _ Hi).
    destruct (Nat.eqb_spec i (length l - 1)) as [->|Hne].
    + rewrite Hl at 1. rewrite drop_ge by lia. symmetry. apply Permutation_cons_append.
    + destruct l as [|y l' _] eqn:El using rev_ind; [simpl in *; lia|].
      rewrite last_snoc. rewrite length_app in *. simpl in *.
      rewrite length_insert, length_app; simpl.
      rewrite lookup_app_l in Hi by lia.
      rewrite insert_app_l by lia. rewrite take_app_le by (rewrite length_insert; lia).
      rewrite take_ge by (rewrite length_insert; lia).
      rewrite insert_take_drop by lia.
      rewrite <- (take_drop_middle l' i x) at 1 by done.
      rewrite <- app_assoc. simpl. rewrite <- Permutation_middle. constructor.
      apply Permutation_app_head. by rewrite Permutation_app_comm.
Qed.

Lemma remove_if_wf b v p : wf v → wf (snd (remove_if b v p)).
Proof.
  intros Hwf. unfold remove_if. destruct (find_if p (collection_ v)) as [i|] eqn:Hi; [|done].
  apply find_if_Some in Hi as (x & Hx & _).
  apply (do_remove_perm b) in Hx. apply Permutation_length in Hx. simpl in Hx.
  destruct Hwf as (? & ? & ?). unfold wf, size in *. simpl.
  replace (configuration_ (do_remove b v i)) with (configuration_ v) by (by destruct b).
  replace (capacity_ (do_remove b v i)) with (capacity_ v) by (by destruct b).
  split_and!; [done|lia..].
Qed.

(** A resource-limited vector never grows past its maximum: [push_back]
    appends and succeeds exactly when there is room, without violating the
    assertion on the increment, and is the identity that reports failure
    otherwise; [remove_if] deletes exactly one item, the first that satisfies
    the predicate, and reports failure when there is none. *)
Theorem limited_vector_contract v x (b : bool) (p : A → bool) :
  wf v →
  wf (snd (push_back v x)) ∧ size v <= maximum (configuration_ v) ∧
  ensure_capacity_assert v = true ∧
  (if decide (size v < maximum (configuration_ v))
   then fst (push_back v x) = true ∧ collection_ (snd (push_back v x)) = collection_ v ++ [x]
   else push_back v x = (false, v)) ∧
  (if decide (Forall (λ y, p y = false) (collection_ v))
   then remove_if b v p = (false, v)
   else wf (snd (remove_if b v p)) ∧ fst (remove_if b v p) = true ∧
        ∃ pre y post, collection_ v = pre ++ y :: post ∧ p y = true ∧
          Forall (λ z, p z = false) pre ∧
          collection_ v ≡ₚ y :: collection_ (snd (remove_if b v p))).
Proof.
  intros Hwf. split_and!.
  - by apply push_back_wf.
  - destruct Hwf as (? & ? & ?). lia.
  - destruct (decide (size v < maximum (configuration_ v))) as [Hlt|Hge];
      [by apply (push_back_room v x)|].
    unfold ensure_capacity_assert. destruct Hwf as (? & ? & ?). bool_case; try done; lia.
  - case_decide as Hlt; [|by apply push_back_full; [|lia]].
    by destruct (push_back_room v x Hwf Hlt) as (_ & cap & -> & _).
  - pose proof (remove_if_wf b v p Hwf) as Hw. unfold remove_if in *.
    case_decide as Hnone; [by rewrite (proj2 (find_if_None p _) Hnone)|].
    destruct (find_if p (collection_ v)) as [i|] eqn:Hi;
      [|by apply find_if_None in Hi].
    split_and!; [done..|]. apply find_if_Some in Hi as (y & Hy & Hp & Hpre).
    exists (take i (collection_ v)), y, (drop (S i) (collection_ v)).
    split_and!; [by rewrite take_drop_middle|done| |by apply do_remove_perm].
    apply Forall_lookup. intros j z [Hz ?]%lookup_take_Some. by apply (Hpre j).
Qed.

End operations.

Lemma limited_vector_contract_witness :
  snd (remove_if false (mk (fixed_size_configuration 3) 3 [1; 2; 3]) (λ y, y =? 1)) =
    mk (fixed_size_configuration 3) 3 [3; 2] ∧
  push_back (mk (fixed_size_configuration 3) 3 [1; 2; 3]) 4 =
    (false, mk (fixed_size_configuration 3) 3 [1; 2; 3]).
Proof.
  destruct (limited_vector_contract (mk (fixed_size_configuration 3) 3 [1; 2; 3]) 4 false
              (λ y, y =? 1)) as (_ & _ & _ & Hpush & _).
  - unfold wf, config_wf, size; simpl. lia.
  - split; [reflexivity|exact Hpush].
Defined.

End RLV.
