(* ===== verification/Guid.v ===== *)
(** * Identifiers

    [GuidPrefix_t], [EntityId_t] and [GUID_t]
    (include/fastdds/rtps/common/GuidPrefix_t.hpp, EntityId_t.hpp, Guid.h), the
    generation of prefixes (src/cpp/rtps/common/GuidUtils.hpp) and the rule that
    decides intra-process delivery (RTPSDomainImpl::should_intraprocess_between
    in src/cpp/rtps/RTPSDomain.cpp).  Identifiers are lists of octets, the target
    is little endian. *)

From S2P Require Import Prelude.

(** ** Entity identifiers *)

Module EntityId.

Definition size : nat := 4.

Definition EntityId_t := list Z.

Definition unknown : EntityId_t := [0; 0; 0; 0].

(** [reverse]: swaps octets 0 and 3, and 1 and 2. *)
Definition reverse (value : EntityId_t) : EntityId_t :=
  match value with
  | [a; b; c; d] => [d; c; b; a]
  | _ => value
  end.

(** The constructor from a 32-bit identifier: [memcpy] of a little-endian word,
    reversed. *)
Definition of_uint32 (id : Z) : EntityId_t := reverse (le_bytes size id).

Definition to_uint32 (value : EntityId_t) : Z :=
  let res := le_val value in
  Z.lor (Z.lor (Z.lor (Z.shiftr res 24)
                      (Z.land (Z.shiftl 255 8) (Z.shiftr res 8)))
               (Z.land (Z.shiftl 255 16) (u32 (Z.shiftl res 8))))
        (u32 (Z.shiftl res 24)).

Definition is_reader (value : EntityId_t) : bool := negb (Z.land 4 (to_uint32 value) =? 0).

Definition is_writer (value : EntityId_t) : bool :=
  negb (Z.land 2 (to_uint32 value) =? 0) && negb (is_reader value).

Definition cmp (e1 e2 : EntityId_t) : Z := memcmp size e1 e2.
Definition ltb (e1 e2 : EntityId_t) : bool := memcmp size e1 e2 <? 0.
Definition eqb (e1 e2 : EntityId_t) : bool := cmp e1 e2 =? 0.

Definition c_EntityId_SPDPReader : EntityId_t := of_uint32 0x000100c7.
Definition c_EntityId_SPDPWriter : EntityId_t := of_uint32 0x000100c2.

(** Four octets. *)
Definition wf (value : EntityId_t) : Prop := length value = size ∧ Forall is_u8 value.

Lemma wf_cases value :
  wf value → ∃ a b c d, value = [a; b; c; d] ∧ is_u8 a ∧ is_u8 b ∧ is_u8 c ∧ is_u8 d.
Proof.
  intros [Hlen Hall]. destruct value as [|a [|b [|c [|d [|]]]]]; try done.
  rewrite !Forall_cons in Hall. destruct Hall as (? & ? & ? & ? & _). by exists a, b, c, d.
Qed.

Lemma to_uint32_value a b c d :
  is_u8 a → is_u8 b → is_u8 c → is_u8 d →
  to_uint32 [a; b; c; d] = d + 256 * (c + 256 * (b + 256 * a)).
Proof.
  intros. unfold to_uint32. simpl le_val. rewrite !land_octet by lia.
  set (res := a + 256 * (b + 256 * (c + 256 * (d + 256 * 0)))).
  assert (Hd : Z.shiftr res 24 = d)
    by (rewrite Z.shiftr_div_pow2 by lia; subst res; range_unfold; Z.to_euclidean_division_equations; lia).
  assert (Hc : Z.shiftr (Z.shiftr res 8) 8 mod 256 = c)
    by (rewrite !Z.shiftr_div_pow2 by lia; subst res; range_unfold; Z.to_euclidean_division_equations; lia).
  assert (Hb : Z.shiftr (u32 (Z.shiftl res 8)) 16 mod 256 = b)
    by (rewrite Z.shiftr_div_pow2, Z.shiftl_mul_pow2 by lia; subst res; wrap_unfold;
        Z.to_euclidean_division_equations; lia).
  assert (Ha : u32 (Z.shiftl res 24) = Z.shiftl a 24)
    by (rewrite !Z.shiftl_mul_pow2 by lia; subst res; wrap_unfold;
        Z.to_euclidean_division_equations; lia).
  rewrite Hd, Hc, Hb, Ha. range_unfold.
  rewrite (lor_shiftl_add d c 8), (lor_shiftl_add _ b 16), (lor_shiftl_add _ a 24) by lia. lia.
Qed.

Lemma of_uint32_wf id : wf (of_uint32 id).
Proof.
  split; [done|]. unfold of_uint32; simpl. repeat constructor; range_unfold; by apply Z.mod_pos_bound.
Qed.

Lemma to_of_uint32 id : is_u32 id → to_uint32 (of_uint32 id) = id.
Proof.
  intros Hid. unfold of_uint32; simpl.
  rewrite to_uint32_value by (range_unfold; by apply Z.mod_pos_bound).
  range_unfold. Z.to_euclidean_division_equations; lia.
Qed.

Lemma of_to_uint32 value : wf value → of_uint32 (to_uint32 value) = value.
Proof.
  intros (a & b & c & d & -> & ? & ? & ? & ?)%wf_cases. rewrite to_uint32_value by done.
  unfold of_uint32; simpl. range_unfold.
  f_equal; [|f_equal; [|f_equal; [|f_equal]]]; Z.to_euclidean_division_equations; lia.
Qed.

Lemma entity_cmp_eq e1 e2 : wf e1 → wf e2 → cmp e1 e2 = 0 ↔ e1 = e2.
Proof.
  intros [H1 _] [H2 _]. unfold cmp. rewrite memcmp_eq by congruence.
  by rewrite !take_ge by (unfold size in *; lia).
Qed.

End EntityId.

(** ** Prefixes *)

Module GuidPrefix.

Definition size : nat := 12.

Definition GuidPrefix_t := list Z.

Definition unknown : GuidPrefix_t := replicate size 0.

Definition eqb (p1 p2 : GuidPrefix_t) : bool := memcmp size p1 p2 =? 0.
Definition ltb (p1 p2 : GuidPrefix_t) : bool := memcmp size p1 p2 <? 0.
Definition cmp (p1 p2 : GuidPrefix_t) : Z := memcmp size p1 p2.

Definition is_on_same_host_as (p other : GuidPrefix_t) : bool := memcmp 4 p other =? 0.
Definition is_on_same_process_as (p other : GuidPrefix_t) : bool := memcmp 8 p other =? 0.

Definition c_VendorId_eProsima : list Z := [0x01; 0x0F].

(** The constructor of [GuidUtils]: vendor, host, process and a random value. *)
Definition guid_utils_prefix (host_id pid rand_value : Z) : GuidPrefix_t :=
  c_VendorId_eProsima ++
  [Z.land host_id 255; Z.land (Z.shiftr host_id 8) 255;
   Z.land pid 255; Z.land (Z.shiftr pid 8) 255;
   Z.land rand_value 255; Z.land (Z.shiftr rand_value 8) 255] ++ [0; 0; 0; 0].

(** [guid_prefix_create] from the prefix of the process. *)
Definition guid_prefix_create (prefix_ : GuidPrefix_t) (participant_id : Z) : GuidPrefix_t :=
  take 8 prefix_ ++
  [Z.land participant_id 255; Z.land (Z.shiftr participant_id 8) 255;
   Z.land (Z.shiftr participant_id 16) 255; Z.land (Z.shiftr participant_id 24) 255].

Definition wf (p : GuidPrefix_t) : Prop := length p = size ∧ Forall is_u8 p.

Lemma prefix_cmp_eq p1 p2 : wf p1 → wf p2 → cmp p1 p2 = 0 ↔ p1 = p2.
Proof.
  intros [H1 _] [H2 _]. unfold cmp. rewrite memcmp_eq by congruence.
  by rewrite !take_ge by (unfold size in *; lia).
Qed.

Lemma create_octets prefix_ id :
  guid_prefix_create prefix_ id = take 8 prefix_ ++ le_bytes 4 id.
Proof.
  unfold guid_prefix_create. change 255 with (Z.ones 8).
  rewrite !Z.land_ones, !Z.shiftr_div_pow2 by lia. simpl.
  change (2 ^ 8) with 256. rewrite !Z.div_div by lia. done.
Qed.

Lemma is_on_same_process_as_iff p q :
  wf p → wf q → is_on_same_process_as p q = true ↔ take 8 p = take 8 q.
Proof.
  intros [Hp _] [Hq _]. unfold is_on_same_process_as. rewrite Z.eqb_eq.
  apply memcmp_eq. congruence.
Qed.

Lemma create_wf prefix_ id : wf prefix_ → wf (guid_prefix_create prefix_ id).
Proof.
  intros [Hlen Hall]. rewrite create_octets. unfold size in *. split.
  - rewrite length_app, length_take, length_le_bytes. unfold size. lia.
  - apply Forall_app. split; [by apply Forall_take|auto with mint].
Qed.

End GuidPrefix.

(** ** Global identifiers *)

Module Guid.
Import GuidPrefix EntityId.

Record GUID_t := mkGUID { guidPrefix : GuidPrefix_t; entityId : EntityId_t }.

#[export] Instance GUID_eq_dec : EqDecision GUID_t.
Proof. solve_decision. Defined.

Definition c_Guid_Unknown : GUID_t := mkGUID GuidPrefix.unknown EntityId.unknown.

Definition is_on_same_host_as (g other : GUID_t) : bool :=
  GuidPrefix.is_on_same_host_as (guidPrefix g) (guidPrefix other).

Definition is_on_same_process_as (g other : GUID_t) : bool :=
  GuidPrefix.is_on_same_process_as (guidPrefix g) (guidPrefix other).

(** [entityId.value[3] >= 0xC0]. *)
Definition is_builtin (g : GUID_t) : bool := 0xC0 <=? nth 3 (entityId g) 0.

Definition eqb (g1 g2 : GUID_t) : bool :=
  GuidPrefix.eqb (guidPrefix g1) (guidPrefix g2) && EntityId.eqb (entityId g1) (entityId g2).

Definition neqb (g1 g2 : GUID_t) : bool :=
  negb (GuidPrefix.eqb (guidPrefix g1) (guidPrefix g2)) ||
  negb (EntityId.eqb (entityId g1) (entityId g2)).

Definition ltb (g1 g2 : GUID_t) : bool :=
  let prefix_cmp := GuidPrefix.cmp (guidPrefix g1) (guidPrefix g2) in
  if prefix_cmp <? 0 then true
  else if 0 <? prefix_cmp then false
  else EntityId.ltb (entityId g1) (entityId g2).

(** The library setting consulted by [should_intraprocess_between]. *)
Inductive IntraprocessDeliveryType :=
  INTRAPROCESS_OFF | INTRAPROCESS_USER_DATA_ONLY | INTRAPROCESS_FULL.

Definition should_intraprocess_between (setting : IntraprocessDeliveryType)
    (local_guid matched_guid : GUID_t) : bool :=
  if negb (is_on_same_process_as local_guid matched_guid) then false
  else if EntityId.eqb (entityId local_guid) c_EntityId_SPDPWriter ||
          EntityId.eqb (entityId local_guid) c_EntityId_SPDPReader then false
  else match setting with
       | INTRAPROCESS_FULL => true
       | INTRAPROCESS_USER_DATA_ONLY => negb (is_builtin matched_guid)
       | INTRAPROCESS_OFF => false
       end.

Definition wf (g : GUID_t) : Prop := GuidPrefix.wf (guidPrefix g) ∧ EntityId.wf (entityId g).

Lemma guid_eqb_eq g1 g2 : wf g1 → wf g2 → eqb g1 g2 = true ↔ g1 = g2.
Proof.
  destruct g1 as [p1 e1], g2 as [p2 e2]. intros [? ?] [? ?].
  unfold eqb, EntityId.eqb. change (GuidPrefix.eqb) with (λ p q, GuidPrefix.cmp p q =? 0).
  cbn [guidPrefix entityId] in *. rewrite andb_true_iff, !Z.eqb_eq.
  rewrite EntityId.entity_cmp_eq, GuidPrefix.prefix_cmp_eq by done.
  split; [by intros [-> ->]|by intros [= -> ->]].
Qed.

Lemma guid_neqb_negb g1 g2 : neqb g1 g2 = negb (eqb g1 g2).
Proof. unfold neqb, eqb. by rewrite negb_andb. Qed.

(** The sixteen octets of an identifier. *)
Definition octets (g : GUID_t) : list Z := guidPrefix g ++ entityId g.

Lemma octets_inj g1 g2 : wf g1 → wf g2 → octets g1 = octets g2 → g1 = g2.
Proof.
  destruct g1, g2. intros [[? _] _] [[? _] _]; unfold octets; simpl in *.
  intros [-> ->]%app_inj_1; [done|congruence].
Qed.

Lemma length_octets g : wf g → length (octets g) = 16%nat.
Proof. intros [[Hp _] [He _]]. unfold octets. rewrite length_app, Hp, He. done. Qed.

(** The two-level comparison is one comparison of the sixteen octets. *)
Lemma ltb_octets g1 g2 :
  wf g1 → wf g2 → ltb g1 g2 = (memcmp 16 (octets g1) (octets g2) <? 0).
Proof.
  intros [[Hp1 _] _] [[Hp2 _] _]. unfold ltb, octets, GuidPrefix.cmp, EntityId.ltb.
  rewrite (memcmp_app GuidPrefix.size EntityId.size) by done.
  destruct (Z.eqb_spec (memcmp GuidPrefix.size (guidPrefix g1) (guidPrefix g2)) 0) as [->|Hne];
    [done|]. bool_case; try done; lia.
Qed.

Lemma memcmp_octets g1 g2 :
  wf g1 → wf g2 → memcmp 16 (octets g1) (octets g2) = 0 ↔ g1 = g2.
Proof.
  intros H1 H2. rewrite memcmp_eq by (by rewrite !length_octets).
  rewrite !take_ge by (by rewrite length_octets). split; [by apply octets_inj|by intros ->].
Qed.

(** [operator <] on identifiers is a strict total order whose equality is
    [operator ==], so identifiers can key ordered containers, and [operator !=]
    is its negation. *)
Theorem guid_order g1 g2 g3 :
  wf g1 → wf g2 → wf g3 →
  ltb g1 g1 = false ∧
  (ltb g1 g2 = true → ltb g2 g3 = true → ltb g1 g3 = true) ∧
  (ltb g1 g2 = false ∧ ltb g2 g1 = false ↔ g1 = g2) ∧
  (eqb g1 g2 = true ↔ g1 = g2) ∧ neqb g1 g2 = negb (eqb g1 g2).
Proof.
  intros H1 H2 H3. rewrite !ltb_octets by done.
  split_and!; [| | |by apply guid_eqb_eq|apply guid_neqb_negb].
  - by rewrite (proj2 (memcmp_octets g1 g1 H1 H1) eq_refl).
  - rewrite !Z.ltb_lt. apply memcmp_trans; by rewrite !length_octets.
  - rewrite <- (memcmp_octets g1 g2) by done. rewrite !Z.ltb_ge.
    rewrite (memcmp_antisym 16 (octets g1)). lia.
Qed.

Lemma guid_order_witness :
  let p := guid_prefix_create (guid_utils_prefix 0x1234 4321 77) in
  ltb (mkGUID (p 1) (of_uint32 0x103)) (mkGUID (p 2) (of_uint32 0x104)) = true ∧
  eqb (mkGUID (p 1) (of_uint32 0x103)) (mkGUID (p 2) (of_uint32 0x104)) = false.
Proof.
  split; [reflexivity|].
  destruct (guid_order
    (mkGUID (guid_prefix_create (guid_utils_prefix 0x1234 4321 77) 1) (of_uint32 0x103))
    (mkGUID (guid_prefix_create (guid_utils_prefix 0x1234 4321 77) 2) (of_uint32 0x104))
    c_Guid_Unknown) as (_ & _ & _ & Heq & _).
  1-3: split; split; [reflexivity|repeat constructor; vm_compute; intros; discriminate
    |reflexivity|repeat constructor; vm_compute; intros; discriminate].
  apply not_true_iff_false. rewrite Heq. discriminate.
Defined.

(** Identifiers of one process: the prefixes made for different participants
    of a process are different, are recognised as being on the same process and
    host, and entity identifiers survive the conversion to an integer and back. *)
Theorem participant_prefixes prefix_ id1 id2 e :
  GuidPrefix.wf prefix_ → is_u32 id1 → is_u32 id2 → EntityId.wf e →
  let p1 := guid_prefix_create prefix_ id1 in
  let p2 := guid_prefix_create prefix_ id2 in
  (p1 = p2 ↔ id1 = id2) ∧ GuidPrefix.is_on_same_process_as p1 p2 = true ∧
  GuidPrefix.is_on_same_host_as p1 p2 = true ∧
  of_uint32 (to_uint32 e) = e ∧ to_uint32 (of_uint32 id1) = id1.
Proof.
  intros [Hlen Hall] Hi1 Hi2 He p1 p2.
  assert (H8 : length (take 8 prefix_) = 8%nat)
    by (rewrite length_take; unfold GuidPrefix.size in *; lia).
  assert (Hp : ∀ id n, (n <= 8)%nat → take n (guid_prefix_create prefix_ id) = take n prefix_).
  { intros id n Hn. rewrite create_octets, take_app_le, take_take by lia. f_equal. lia. }
  subst p1 p2. split_and!; [|..|by apply of_to_uint32|by apply to_of_uint32].
  - rewrite !create_octets. split; [|by intros ->].
    intros [_ Heq]%app_inj_1; [|done].
    rewrite <- (le_val_bytes 4 id1), <- (le_val_bytes 4 id2), Heq by (range_unfold; simpl; lia).
    done.
  - apply GuidPrefix.is_on_same_process_as_iff; [by apply create_wf..|]. by rewrite !Hp by lia.
  - apply Z.eqb_eq, memcmp_eq; [|by rewrite !Hp by lia].
    by rewrite !create_octets, !length_app, !length_le_bytes.
Qed.

Lemma participant_prefixes_witness :
  guid_prefix_create (guid_utils_prefix 0x1234 4321 77) 1 ≠
  guid_prefix_create (guid_utils_prefix 0x1234 4321 77) 257.
Proof.
  destruct (participant_prefixes (guid_utils_prefix 0x1234 4321 77) 1 257 (of_uint32 0x103))
    as (Hne & _).
  - split; [reflexivity|repeat constructor; vm_compute; intros; discriminate].
  - range_unfold; lia.
  - range_unfold; lia.
  - apply of_uint32_wf.
  - intros Heq. apply Hne in Heq. discriminate.
Defined.

End Guid.
