(* ===== verification/CacheChange.v ===== *)
(** * Cache changes and the assembly of fragments

    [CacheChange_t] (include/fastdds/rtps/common/CacheChange.h) with its payload
    (include/fastdds/rtps/common/SerializedPayload.h).  A sample that arrives in
    fragments is assembled in place: until a fragment arrives, the first octets
    of its place in the payload hold the index of the next missing fragment, so
    the payload itself is the linked list of what is missing.  The octets a
    payload owns are a list; reading or writing outside of it is [Undefined].
    Words are stored as on a little-endian host. *)

From S2P Require Import Prelude.
From S2P Require Import SeqNum.
From S2P Require Import Bitmap.
From S2P Require Import Guid.

Module Payload.

Definition CDR_BE : Z := 0.

(** [data] are the octets allocated at the payload's pointer, [None] the null
    pointer. *)
Record SerializedPayload_t := mkPayload {
  encapsulation : Z;
  length : Z;
  data : option (list Z);
  max_size : Z;
  pos : Z
}.

Definition default_payload : SerializedPayload_t := mkPayload CDR_BE 0 None 0 0.

(** [memcpy] of octets to a place of an object. *)
Definition memcpy (dst : list Z) (offset : Z) (src : list Z) : outcome (list Z) :=
  if (0 <=? offset) && (offset + Z.of_nat (List.length src) <=? Z.of_nat (List.length dst))
  then Done (list_inserts (Z.to_nat offset) src dst) else Undefined.

(** The first [n] octets of an object. *)
Definition octets (src : list Z) (n : Z) : outcome (list Z) :=
  if (0 <=? n) && (n <=? Z.of_nat (List.length src)) then Done (take (Z.to_nat n) src)
  else Undefined.

Definition resize_to (d : list Z) (n : Z) : list Z :=
  take (Z.to_nat n) d ++ replicate (Z.to_nat n - List.length d) 0.

(** [reserve]: [calloc] or [realloc] with the new octets cleared; exhausted
    memory is not modelled. *)
Definition reserve (p : SerializedPayload_t) (new_size : Z) : SerializedPayload_t :=
  if new_size <=? max_size p then p
  else match data p with
  | None => mkPayload (encapsulation p) (length p) (Some (replicate (Z.to_nat new_size) 0)) new_size (pos p)
  | Some d =>
      mkPayload (encapsulation p) (length p) (Some (resize_to (take (Z.to_nat (max_size p)) d) new_size))
        new_size (pos p)
  end.

Definition make_payload (len : Z) : SerializedPayload_t := reserve default_payload len.

Definition reserve_fragmented (p serData : SerializedPayload_t) : SerializedPayload_t :=
  mkPayload (encapsulation serData) (length serData)
    (Some (replicate (Z.to_nat (length serData)) 0)) (length serData) (pos p).

Definition empty (p : SerializedPayload_t) : SerializedPayload_t :=
  mkPayload CDR_BE 0 None 0 (pos p).

Definition with_length (p : SerializedPayload_t) (n : Z) : SerializedPayload_t :=
  mkPayload (encapsulation p) n (data p) (max_size p) (pos p).
Definition with_data (p : SerializedPayload_t) (d : list Z) : SerializedPayload_t :=
  mkPayload (encapsulation p) (length p) (Some d) (max_size p) (pos p).
Definition with_encapsulation (p : SerializedPayload_t) (e : Z) : SerializedPayload_t :=
  mkPayload e (length p) (data p) (max_size p) (pos p).

(** [copy]: the length is taken over even when the copy is refused. *)
Definition copy (p serData : SerializedPayload_t) (with_limit : bool)
    : outcome (bool * SerializedPayload_t) :=
  let p := with_length p (length serData) in
  if (max_size p <? length serData) && with_limit then mret (false, p)
  else
    let p := if max_size p <? length serData then reserve p (length serData) else p in
    let p := with_encapsulation p (encapsulation serData) in
    if length p =? 0 then mret (true, p)
    else match data p, data serData with
    | Some d, Some s =>
        bytes ← octets s (length p);
        d' ← memcpy d 0 bytes;
        mret (true, with_data p d')
    | _, _ => Undefined
    end.

End Payload.

Module CacheChange.

Inductive ChangeKind_t :=
  | ALIVE
  | NOT_ALIVE_DISPOSED
  | NOT_ALIVE_UNREGISTERED
  | NOT_ALIVE_DISPOSED_UNREGISTERED.

#[export] Instance ChangeKind_eq_dec : EqDecision ChangeKind_t.
Proof. solve_decision. Defined.

(** [rtps::Time_t], without the cached nanoseconds. *)
Record Time_t := mkTime { seconds : Z; fraction : Z }.

Record SampleIdentity := mkIdentity {
  writer_guid : Guid.GUID_t;
  sequence_number : SN.SequenceNumber_t
}.

Definition unknown_identity : SampleIdentity := mkIdentity Guid.c_Guid_Unknown SN.unknown.

Definition identity_eqb (a b : SampleIdentity) : bool :=
  Guid.eqb (writer_guid a) (writer_guid b) && SN.eqb (sequence_number a) (sequence_number b).

Record WriteParams := mkParams {
  sample_identity : SampleIdentity;
  related_sample_identity : SampleIdentity;
  source_timestamp : Time_t
}.

(** The fields of a change; of the information for readers the reception time,
    and neither the links of the flow controllers nor the payload's owner.  An
    instance handle that has not been set is [None]. *)
Record CacheChange_t := mkChange {
  kind : ChangeKind_t;
  writerGUID : Guid.GUID_t;
  instanceHandle : option (list Z);
  sequenceNumber : SN.SequenceNumber_t;
  serializedPayload : Payload.SerializedPayload_t;
  inline_qos : Payload.SerializedPayload_t;
  isRead : bool;
  sourceTimestamp : Time_t;
  receptionTimestamp : Time_t;
  vendor_id : list Z;
  write_params : WriteParams;
  is_untyped_ : bool;
  fragment_size_ : Z;
  fragment_count_ : Z;
  first_missing_fragment_ : Z
}.

Definition with_payload (c : CacheChange_t) (p : Payload.SerializedPayload_t) : CacheChange_t :=
  mkChange (kind c) (writerGUID c) (instanceHandle c) (sequenceNumber c) p (inline_qos c)
    (isRead c) (sourceTimestamp c) (receptionTimestamp c) (vendor_id c) (write_params c)
    (is_untyped_ c) (fragment_size_ c) (fragment_count_ c) (first_missing_fragment_ c).

Definition with_fragments (c : CacheChange_t) (size count first : Z) : CacheChange_t :=
  mkChange (kind c) (writerGUID c) (instanceHandle c) (sequenceNumber c) (serializedPayload c)
    (inline_qos c) (isRead c) (sourceTimestamp c) (receptionTimestamp c) (vendor_id c)
    (write_params c) (is_untyped_ c) size count first.

Definition with_first (c : CacheChange_t) (first : Z) : CacheChange_t :=
  with_fragments c (fragment_size_ c) (fragment_count_ c) first.

Definition with_octets (c : CacheChange_t) (d : list Z) : CacheChange_t :=
  with_payload c (Payload.with_data (serializedPayload c) d).

Definition getFragmentCount (c : CacheChange_t) : Z := fragment_count_ c.
Definition getFragmentSize (c : CacheChange_t) : Z := fragment_size_ c.

Definition is_fully_assembled (c : CacheChange_t) : bool :=
  fragment_count_ c <=? first_missing_fragment_ c.

Definition contains_first_fragment (c : CacheChange_t) : bool := 0 <? first_missing_fragment_ c.

(** ** The list of missing fragments inside the payload *)

Definition octets_of (c : CacheChange_t) : list Z :=
  from_option id [] (Payload.data (serializedPayload c)).

(** The place of the link of a fragment: the start of the fragment, rounded up
    to a multiple of four.  The mask [~3u] has 32 bits. *)
Definition next_fragment_pointer (fragment_size fragment_index : Z) : Z :=
  Z.land (fragment_size * fragment_index + 3) (UINT32_MAX - 3).

Definition get_next_missing_fragment (c : CacheChange_t) (fragment_index : Z) : outcome Z :=
  let ptr := next_fragment_pointer (fragment_size_ c) fragment_index in
  match sublist_lookup (Z.to_nat ptr) 4 (octets_of c) with
  | Some word => Done (le_val word)
  | None => Undefined
  end.

Definition set_next_missing_fragment (c : CacheChange_t) (fragment_index next_fragment_index : Z)
    : outcome CacheChange_t :=
  let ptr := next_fragment_pointer (fragment_size_ c) fragment_index in
  d ← Payload.memcpy (octets_of c) ptr (le_bytes 4 next_fragment_index);
  mret (with_octets c d).

(** The links [i - 1 -> i] for [i] from [i] on, [n] of them. *)
Fixpoint create_fragment_list (n : nat) (i : Z) (c : CacheChange_t) : outcome CacheChange_t :=
  match n with
  | O => mret c
  | S n => c ← set_next_missing_fragment c (i - 1) i; create_fragment_list n (i + 1) c
  end.

Definition setFragmentSize (c : CacheChange_t) (fragment_size : Z) (create_list : bool)
    : outcome CacheChange_t :=
  if 0 <? fragment_size then
    let count := u32 (Payload.length (serializedPayload c) + fragment_size - 1) / fragment_size in
    if create_list
    then create_fragment_list (Z.to_nat count) 1 (with_fragments c fragment_size count 0)
    else mret (with_fragments c fragment_size count count)
  else mret (with_fragments c fragment_size 0 0).

(** [index = *index] until the index reaches [last]; says whether it moved. *)
Fixpoint skip_received (fuel : nat) (c : CacheChange_t) (last index : Z) : outcome (Z * bool) :=
  if index <? last then
    match fuel with
    | O => Unfinished
    | S fuel =>
        next ← get_next_missing_fragment c index;
        r ← skip_received fuel c last next;
        mret (r.1, true)
    end
  else mret (index, false).

(** The walk to the missing fragment before [initial], whose link is changed. *)
Fixpoint unlink_received (fuel : nat) (c : CacheChange_t) (initial last current : Z)
    : outcome (bool * CacheChange_t) :=
  if current <? initial then
    match fuel with
    | O => Unfinished
    | S fuel' =>
        next ← get_next_missing_fragment c current;
        if initial <=? next then
          r ← skip_received fuel' c last next;
          if r.2 : bool then
            c' ← set_next_missing_fragment c current r.1;
            mret (true, c')
          else mret (false, c)
        else unlink_received fuel' c initial last next
    end
  else mret (false, c).

(** A walk visits each fragment at most once, so the number of fragments bounds
    it. *)
Definition walk (c : CacheChange_t) : nat := S (Z.to_nat (fragment_count_ c)).

Definition received_fragments (c : CacheChange_t) (initial_fragment num_of_fragments : Z)
    : outcome (bool * CacheChange_t) :=
  if (0 <? fragment_size_ c) && (initial_fragment <? fragment_count_ c) then
    let last := u32 (initial_fragment + num_of_fragments) in
    let last := if fragment_count_ c <? last then fragment_count_ c else last in
    if initial_fragment <=? first_missing_fragment_ c then
      r ← skip_received (walk c) c last (first_missing_fragment_ c);
      mret (r.2, with_first c r.1)
    else unlink_received (walk c) c initial_fragment last (first_missing_fragment_ c)
  else mret (false, c).

Definition add_fragments (c : CacheChange_t) (incoming : Payload.SerializedPayload_t)
    (fragment_starting_num fragments_in_submessage : Z) : outcome (bool * CacheChange_t) :=
  let payload_length := Payload.length (serializedPayload c) in
  let original_offset := u32 (u32 (fragment_starting_num - 1) * fragment_size_ c) in
  let incoming_length := u32 (fragment_size_ c * fragments_in_submessage) in
  let last_fragment_index := u32 (u32 (fragment_starting_num + fragments_in_submessage) - 1) in
  if fragment_count_ c <? last_fragment_index then mret (false, c)
  else if (last_fragment_index <? fragment_count_ c) && (Payload.length incoming <? incoming_length)
  then mret (false, c)
  else
    let incoming_length :=
      if last_fragment_index <? fragment_count_ c then incoming_length
      else u32 (payload_length - original_offset) in
    if payload_length <? u32 (original_offset + incoming_length) then mret (false, c)
    else
      r ← received_fragments c (u32 (fragment_starting_num - 1)) fragments_in_submessage;
      let '(changed, c) := r in
      if changed : bool then
        bytes ← Payload.octets (from_option id [] (Payload.data incoming)) incoming_length;
        d ← Payload.memcpy (octets_of c) original_offset bytes;
        mret (is_fully_assembled (with_octets c d), with_octets c d)
      else mret (is_fully_assembled c, c).

(** The fragments of the list that fit in the window of the set. *)
Fixpoint collect_missing (fuel : nat) (c : CacheChange_t) (frag_sns : FragmentNumberSet_t)
    (current : Z) : outcome FragmentNumberSet_t :=
  if current <? fragment_count_ c then
    match fuel with
    | O => Unfinished
    | S fuel =>
        let frag_sns := (BitmapRange.add frag_sns (u32 (current + 1))).2 in
        next ← get_next_missing_fragment c current;
        collect_missing fuel c frag_sns next
    end
  else mret frag_sns.

Definition get_missing_fragments (c : CacheChange_t) (frag_sns : FragmentNumberSet_t)
    : outcome FragmentNumberSet_t :=
  let frag_sns := BitmapRange.set_base frag_sns (u32 (first_missing_fragment_ c + 1)) in
  collect_missing (walk c) c frag_sns (first_missing_fragment_ c).

(** ** Copies *)

Definition copy (c ch : CacheChange_t) : outcome (bool * CacheChange_t) :=
  r ← Payload.copy (serializedPayload c) (serializedPayload ch) (negb (is_untyped_ ch));
  mret (r.1,
    mkChange (kind ch) (writerGUID ch) (instanceHandle ch) (sequenceNumber ch) r.2 (inline_qos c)
      (isRead ch) (sourceTimestamp ch) (receptionTimestamp ch) (vendor_id ch) (write_params ch)
      (is_untyped_ c) (fragment_size_ ch) (fragment_count_ ch) (first_missing_fragment_ ch)).

Definition copy_not_memcpy (c ch : CacheChange_t) : outcome CacheChange_t :=
  let p := Payload.with_encapsulation (serializedPayload c) (Payload.encapsulation (serializedPayload ch)) in
  setFragmentSize
    (mkChange (kind ch) (writerGUID ch) (instanceHandle ch) (sequenceNumber ch) p (inline_qos c)
      (isRead ch) (sourceTimestamp ch) (receptionTimestamp ch) (vendor_id ch) (write_params ch)
      (is_untyped_ c) (fragment_size_ c) (fragment_count_ c) (first_missing_fragment_ c))
    (fragment_size_ ch) false.

End CacheChange.
