(* ===== verification/CacheChangeFacts.v ===== *)
(** * Facts about the assembly of fragments

    The list of missing fragments inside the payload ([CacheChange]) refines a
    set of missing fragment indices: [represents] relates a change under
    assembly to the sample it assembles and to that set, and every operation of
    the code is matched by the operation on the set. *)

From S2P Require Import Prelude.
From S2P Require Import SeqNum.
From S2P Require Import Bitmap.
From S2P Require Import BitmapFacts.
From S2P Require Import Guid.
From S2P Require Import CacheChange.

Module Assembly.
Import CacheChange.

(** ** Octets *)

Lemma sublist_lookup_ext {A} (l1 l2 : list A) i n :
  length l1 = length l2 →
  (∀ k, (i <= k < i + n)%nat → l1 !! k = l2 !! k) →
  sublist_lookup i n l1 = sublist_lookup i n l2.
Proof.
  intros Hlen Hext. unfold sublist_lookup. rewrite Hlen. case_guard; [simpl|done].
  f_equal. apply list_eq. intros k. destruct (decide (k < n)%nat).
  - rewrite !lookup_take_lt, !lookup_drop by done. apply Hext. lia.
  - by rewrite !lookup_take_ge by lia.
Qed.

Lemma memcpy_done dst offset src :
  0 <= offset → offset + Z.of_nat (length src) <= Z.of_nat (length dst) →
  Payload.memcpy dst offset src = Done (list_inserts (Z.to_nat offset) src dst).
Proof. intros. unfold Payload.memcpy. bool_case; done || lia. Qed.

Lemma sublist_lookup_inserts {A} (l k : list A) i :
  (i + length k <= length l)%nat → sublist_lookup i (length k) (list_inserts i k l) = Some k.
Proof.
  intros Hle. unfold sublist_lookup. rewrite length_inserts, option_guard_True by done. simpl.
  f_equal. apply list_eq. intros j. destruct (decide (j < length k)%nat).
  - rewrite lookup_take_lt, lookup_drop, list_lookup_inserts by lia. f_equal. lia.
  - rewrite lookup_take_ge, lookup_ge_None_2 by lia. done.
Qed.

Lemma inserts_outside {A} (l k : list A) i j :
  ¬ (i <= j < i + length k)%nat → list_inserts i k l !! j = l !! j.
Proof.
  intros Hout. destruct (decide (j < i)%nat).
  - by apply list_lookup_inserts_lt.
  - apply list_lookup_inserts_ge. lia.
Qed.

(** ** The places of the links *)

Lemma land_round x : 0 <= x < 2 ^ 32 → Z.land x (UINT32_MAX - 3) = 4 * (x / 4).
Proof.
  intros Hx. change (UINT32_MAX - 3) with (Z.shiftl (Z.ones 30) 2).
  replace (4 * (x / 4)) with (Z.shiftl (Z.shiftr x 2) 2)
    by (rewrite Z.shiftl_mul_pow2, Z.shiftr_div_pow2 by lia; change (2 ^ 2) with 4; lia).
  apply Z.bits_inj'. intros i Hi. rewrite Z.land_spec, !Z.shiftl_spec by done.
  destruct (Z.ltb_spec i 2).
  - rewrite !(Z.testbit_neg_r _ (i - 2)) by lia. apply andb_false_r.
  - rewrite Z.shiftr_spec by lia. replace (i - 2 + 2) with i by lia.
    destruct (Z.ltb_spec i 32).
    + rewrite Z.ones_spec_low by lia. apply andb_true_r.
    + rewrite Z.ones_spec_high by lia. rewrite andb_false_r.
      symmetry. by apply testbit_u32_high.
Qed.

(** The number of fragments of a sample. *)
Definition fragments (len size : Z) : Z := (len + size - 1) / size.

(** Sizes for which the link of a fragment fits in the fragment, or after the
    end of the sample for the last one. *)
Record geometry (size len capacity : Z) : Prop := {
  geo_size : 4 <= size < 2 ^ 16;
  geo_link : size mod 4 = 0 ∨ 7 <= size;
  geo_length : 0 < len;
  geo_fits : len + size < 2 ^ 32;
  geo_capacity : len <= capacity;
  geo_last : next_fragment_pointer size (fragments len size - 1) + 4 <= capacity
}.

Section geometry.
Context (size len capacity : Z) (Hgeo : geometry size len capacity).

Lemma fragments_pos : 0 < fragments len size.
Proof using Hgeo.
  destruct Hgeo. unfold fragments. assert (1 <= (len + size - 1) / size); [|lia].
  apply Z.div_le_lower_bound; lia.
Qed.

Lemma fragment_start i : i < fragments len size → size * i < len.
Proof using Hgeo.
  destruct Hgeo. unfold fragments. intros Hi.
  assert (size * ((len + size - 1) / size) <= len + size - 1) by (apply Z.mul_div_le; lia). nia.
Qed.

Lemma fragments_end : len <= size * fragments len size.
Proof using Hgeo.
  destruct Hgeo. unfold fragments.
  pose proof (Z.mul_succ_div_gt (len + size - 1) size ltac:(lia)). lia.
Qed.

Lemma index_lt k : 0 <= k < len → 0 <= k / size < fragments len size.
Proof using Hgeo.
  pose proof fragments_end. destruct Hgeo. intros Hk. split; [apply Z.div_pos; lia|].
  apply Z.div_lt_upper_bound; lia.
Qed.

Lemma link_bounds i :
  0 <= i < fragments len size →
  size * i <= next_fragment_pointer size i ∧
  (next_fragment_pointer size i + 4 <= size * (i + 1)) ∧
  next_fragment_pointer size i + 4 <= capacity.
Proof using Hgeo.
  intros Hi. pose proof (fragment_start i ltac:(lia)) as Hs.
  pose proof (geo_fits _ _ _ Hgeo). pose proof (geo_size _ _ _ Hgeo).
  assert (Hp : ∀ j, 0 <= j → size * j < len →
    next_fragment_pointer size j = 4 * ((size * j + 3) / 4)).
  { intros j Hj Hjl. unfold next_fragment_pointer. apply land_round. nia. }
  assert (Hb : size * i <= next_fragment_pointer size i ∧
    next_fragment_pointer size i + 4 <= size * (i + 1)).
  { rewrite Hp by lia. split; [Z.to_euclidean_division_equations; lia|].
    destruct (geo_link _ _ _ Hgeo) as [Hm|Hm].
    - apply Z.mod_divide in Hm as [q Hq]; [|lia].
      replace ((size * i + 3) / 4) with (q * i); [nia|].
      apply Z.div_unique with 3; lia || nia.
    - Z.to_euclidean_division_equations. nia. }
  split; [tauto|]. split; [tauto|].
  destruct (decide (i = fragments len size - 1)) as [->|Hne]; [apply Hgeo|].
  pose proof (fragment_start (i + 1) ltac:(lia)). pose proof (geo_capacity _ _ _ Hgeo). lia.
Qed.

(** Links of different fragments do not overlap. *)
Lemma links_disjoint i j :
  0 <= i < fragments len size → 0 <= j < fragments len size → i ≠ j →
  next_fragment_pointer size i + 4 <= next_fragment_pointer size j ∨
  next_fragment_pointer size j + 4 <= next_fragment_pointer size i.
Proof using Hgeo.
  intros Hi Hj Hne. pose proof (link_bounds i Hi). pose proof (link_bounds j Hj).
  pose proof (geo_size _ _ _ Hgeo). destruct (decide (i < j)); [left|right]; nia.
Qed.
End geometry.

(** ** The list of missing fragments *)

(** [chain c i l]: the links of [c] from [i] on visit the fragments [l], in
    increasing order, and end at the number of fragments. *)
Inductive chain (c : CacheChange_t) : Z → list Z → Prop :=
  | chain_nil : chain c (fragment_count_ c) []
  | chain_cons i next l :
      0 <= i < fragment_count_ c → i < next →
      get_next_missing_fragment c i = Done next →
      chain c next l → chain c i (i :: l).

Lemma chain_le c i l : chain c i l → i <= fragment_count_ c.
Proof. induction 1; lia. Qed.

Lemma chain_range c i l : chain c i l → 0 <= fragment_count_ c → 0 <= i →
  Forall (λ x, i <= x < fragment_count_ c) l.
Proof.
  induction 1 as [|i next l Hi Hlt Hn Hch IH]; intros; [done|]. constructor; [lia|].
  eapply Forall_impl; [apply IH; lia|]. simpl. lia.
Qed.

Lemma chain_sorted c i l : chain c i l → 0 <= fragment_count_ c → 0 <= i → StronglySorted Z.lt l.
Proof.
  induction 1 as [|i next l Hi Hlt Hn Hch IH]; intros; constructor; [apply IH; lia|].
  eapply Forall_impl; [apply (chain_range _ _ _ Hch); lia|]. simpl. lia.
Qed.

Lemma chain_nil_iff c i l : chain c i l → l = [] ↔ fragment_count_ c <= i.
Proof. destruct 1; split; try done; lia. Qed.

Lemma chain_ext c c' i l :
  fragment_count_ c' = fragment_count_ c →
  (∀ x, x ∈ l → get_next_missing_fragment c' x = get_next_missing_fragment c x) →
  chain c i l → chain c' i l.
Proof.
  intros Hcount Hext. induction 1 as [|i next l Hi Hlt Hn Hch IH].
  - rewrite <- Hcount. constructor.
  - apply chain_cons with next; [by rewrite Hcount|done| |].
    + rewrite Hext; [done|by left].
    + apply IH. intros x Hx. apply Hext. by right.
Qed.

Lemma chain_length c i l :
  chain c i l → 0 <= i → (length l <= Z.to_nat (fragment_count_ c - i))%nat.
Proof. induction 1; simpl; lia. Qed.

(** Members of a list outside of an interval. *)
Definition outside (a b : Z) (l : list Z) : list Z := filter (λ x, ¬ (a <= x < b)) l.

Lemma outside_cons a b x l :
  outside a b (x :: l) = if decide (a <= x < b) then outside a b l else x :: outside a b l.
Proof. unfold outside. rewrite filter_cons. repeat case_decide; done || tauto. Qed.

Lemma outside_none a b l : Forall (λ x, x < a ∨ b <= x) l → outside a b l = l.
Proof.
  induction 1 as [|x l Hx _ IH]; [done|]. rewrite outside_cons, IH.
  case_decide; [lia|done].
Qed.

Lemma elem_of_outside a b x l : x ∈ outside a b l ↔ x ∈ l ∧ ¬ (a <= x < b).
Proof. unfold outside. rewrite list_elem_of_filter. tauto. Qed.

(** ** The two walks *)

Lemma skip_received_spec c l : ∀ fuel last index a,
  chain c index l → (length l <= fuel)%nat → 0 <= a <= index → last <= fragment_count_ c →
  ∃ index', skip_received fuel c last index = Done (index', bool_decide (outside a last l ≠ l)) ∧
    chain c index' (outside a last l) ∧ index <= index'.
Proof.
  induction l as [|x l IH]; intros fuel last index a Hch Hf Ha Hlast.
  - inversion Hch; subst. exists (fragment_count_ c).
    rewrite bool_decide_false by (intros Hn; by apply Hn).
    split; [|split; [done|lia]]. destruct fuel; simpl; bool_case; done || lia.
  - pose proof (chain_range _ _ _ Hch ltac:(inversion Hch; lia) ltac:(lia)) as Hall.
    inversion Hch as [|? next ? Hi Hlt Hn Hch']; subst. destruct fuel as [|fuel]; [simpl in Hf; lia|].
    rewrite outside_cons. simpl skip_received. destruct (Z.ltb_spec x last) as [Hil|Hil].
    + rewrite Hn. rewrite decide_True by lia. cbn [mbind outcome_bind].
      destruct (IH fuel last next a Hch' ltac:(simpl in Hf; lia) ltac:(lia) Hlast)
        as (index' & Heq & Hc & Hle).
      rewrite Heq. exists index'. split; [|split; [done|lia]]. cbn. do 2 f_equal.
      symmetry. apply bool_decide_true. intros Hcontra.
      assert (Hlen : length (outside a last l) = length (x :: l)) by (by rewrite Hcontra).
      unfold outside in Hlen. pose proof (length_filter (λ x, ¬ (a <= x < last)) l).
      simpl in Hlen. lia.
    + rewrite decide_False by lia. rewrite outside_none.
      * rewrite bool_decide_false by (intros Hne; by apply Hne). by exists x.
      * inversion Hall; subst. eapply Forall_impl; [done|]. simpl. lia.
Qed.
(** ** Writing to the payload *)

(** The size and the length of the sample a change assembles. *)
Definition sample_length (c : CacheChange_t) : Z := Payload.length (serializedPayload c).

Record shaped (c : CacheChange_t) : Prop := {
  shape_geometry : geometry (fragment_size_ c) (sample_length c) (Z.of_nat (length (octets_of c)));
  shape_count : fragment_count_ c = fragments (sample_length c) (fragment_size_ c)
}.

Definition place (c : CacheChange_t) (i : Z) : Z := next_fragment_pointer (fragment_size_ c) i.

Lemma shaped_with_octets c d :
  length d = length (octets_of c) → shaped c → shaped (with_octets c d).
Proof. intros Hlen [Hg Hc]. split; [|done]. unfold octets_of at 1. simpl. by rewrite Hlen. Qed.

Lemma shaped_place c i :
  shaped c → 0 <= i < fragment_count_ c →
  0 <= fragment_size_ c * i <= place c i ∧ place c i + 4 <= fragment_size_ c * (i + 1) ∧
  place c i + 4 <= Z.of_nat (length (octets_of c)).
Proof.
  intros [Hg Hc] Hi. rewrite Hc in Hi. pose proof (link_bounds _ _ _ Hg i Hi).
  pose proof (geo_size _ _ _ Hg). unfold place. nia.
Qed.

Lemma shaped_count c : shaped c → 0 < fragment_count_ c < 2 ^ 32.
Proof.
  intros [Hg ->]. split; [by eapply fragments_pos|].
  pose proof (fragment_start _ _ _ Hg (fragments (sample_length c) (fragment_size_ c) - 1) ltac:(lia)).
  destruct Hg. nia.
Qed.

Lemma get_next_frame c d i :
  shaped c → 0 <= i < fragment_count_ c → length d = length (octets_of c) →
  (∀ k : nat, place c i <= Z.of_nat k < place c i + 4 → d !! k = octets_of c !! k) →
  get_next_missing_fragment (with_octets c d) i = get_next_missing_fragment c i.
Proof.
  intros Hsh Hi Hlen Hext. pose proof (shaped_place c i Hsh Hi).
  unfold get_next_missing_fragment. simpl. fold (place c i). change (octets_of (with_octets c d)) with d.
  rewrite (sublist_lookup_ext d (octets_of c)); [done|done|]. intros k Hk. apply Hext. lia.
Qed.

(** Storing a link changes that link and no other octet than its own. *)
Lemma set_next_spec c i v :
  shaped c → 0 <= i < fragment_count_ c → 0 <= v < 2 ^ 32 →
  ∃ d, set_next_missing_fragment c i v = Done (with_octets c d) ∧
    length d = length (octets_of c) ∧
    get_next_missing_fragment (with_octets c d) i = Done v ∧
    (∀ j, 0 <= j < fragment_count_ c → j ≠ i →
      get_next_missing_fragment (with_octets c d) j = get_next_missing_fragment c j) ∧
    (∀ k : nat, ¬ (place c i <= Z.of_nat k < place c i + 4) → d !! k = octets_of c !! k).
Proof.
  intros Hsh Hi Hv. pose proof (shaped_place c i Hsh Hi) as Hp.
  unfold set_next_missing_fragment. fold (place c i).
  rewrite memcpy_done by (rewrite ?length_le_bytes; lia). cbn [mbind outcome_bind].
  set (d := list_inserts _ _ _).
  assert (Hd : length d = length (octets_of c)) by apply length_inserts.
  assert (Hout : ∀ k : nat, ¬ (place c i <= Z.of_nat k < place c i + 4) → d !! k = octets_of c !! k).
  { intros k Hk. apply inserts_outside. rewrite length_le_bytes. lia. }
  exists d. split; [done|]. split; [done|]. split; [|split; [|done]].
  - unfold get_next_missing_fragment. simpl fragment_size_. fold (place c i).
    change (octets_of (with_octets c d)) with d. unfold d.
    change 4%nat with (length (le_bytes 4 v)) at 1.
    rewrite sublist_lookup_inserts by (rewrite length_le_bytes; lia).
    rewrite le_val_bytes; [done|]. exact Hv.
  - intros j Hj Hne. apply get_next_frame; [done..|]. intros k Hk. apply Hout.
    destruct Hsh as [Hg Hc]. rewrite Hc in Hi, Hj.
    pose proof (links_disjoint _ _ _ Hg i j Hi Hj ltac:(done)). unfold place in *. lia.
Qed.

(** ** Refinement of a set of missing fragments *)

(** The change [c] assembles the octets [sample], and of it the fragments
    [missing] have not arrived. *)
Record represents (sample : list Z) (c : CacheChange_t) (missing : list Z) : Prop := {
  rep_shaped : shaped c;
  rep_sample : Z.of_nat (length sample) = sample_length c;
  rep_chain : chain c (first_missing_fragment_ c) missing;
  rep_first : 0 <= first_missing_fragment_ c;
  rep_received : ∀ k : nat, Z.of_nat k < sample_length c →
    (Z.of_nat k / fragment_size_ c ∉ missing) → octets_of c !! k = sample !! k
}.

(** The arrival of [n] fragments from the 1-based number [start] on. *)
Definition arrive (start n : Z) (missing : list Z) : list Z :=
  outside (start - 1) (start - 1 + n) missing.

Lemma index_of_place c i (k : nat) :
  shaped c → 0 <= i < fragment_count_ c → place c i <= Z.of_nat k < place c i + 4 →
  Z.of_nat k / fragment_size_ c = i.
Proof.
  intros Hsh Hi Hk. pose proof (shaped_place c i Hsh Hi).
  pose proof (geo_size _ _ _ (shape_geometry c Hsh)).
  symmetry. apply Z.div_unique with (Z.of_nat k - fragment_size_ c * i); [left|]; lia.
Qed.
(** Only the link of the missing fragment [p] differs. *)
Definition relinked (c c' : CacheChange_t) (p : Z) : Prop :=
  ∃ d, c' = with_octets c d ∧ length d = length (octets_of c) ∧
    (∀ j, 0 <= j < fragment_count_ c → j ≠ p →
      get_next_missing_fragment c' j = get_next_missing_fragment c j) ∧
    (∀ k : nat, ¬ (place c p <= Z.of_nat k < place c p + 4) → octets_of c' !! k = octets_of c !! k).

Lemma relink_chain c cur idx l :
  shaped c → 0 <= cur < fragment_count_ c → cur < idx → chain c idx l →
  ∃ c', set_next_missing_fragment c cur idx = Done c' ∧
    relinked c c' cur ∧ chain c' cur (cur :: l).
Proof.
  intros Hsh Hcur Hlt Hch. pose proof (shaped_count c Hsh) as Hcount.
  pose proof (chain_le _ _ _ Hch).
  destruct (set_next_spec c cur idx Hsh Hcur) as (d & Heq & Hlen & Hget & Hoth & Hout); [lia|].
  exists (with_octets c d). split; [done|]. split; [by exists d|].
  apply chain_cons with idx; [done..|]. apply chain_ext with c; [done| |done].
  intros x Hx. pose proof (chain_range _ _ _ Hch ltac:(lia) ltac:(lia)) as Hall.
  rewrite Forall_forall in Hall. specialize (Hall x Hx). apply Hoth; lia.
Qed.

Lemma unlink_received_spec c : shaped c → ∀ l fuel initial last cur,
  chain c cur l → 0 <= cur < initial → initial <= last <= fragment_count_ c →
  (length l <= fuel)%nat →
  ∃ c', unlink_received fuel c initial last cur =
      Done (bool_decide (outside initial last l ≠ l), c') ∧
    chain c' cur (outside initial last l) ∧
    ((c' = c ∧ outside initial last l = l) ∨ ∃ p, p ∈ outside initial last l ∧ relinked c c' p).
Proof.
  intros Hsh. pose proof (shaped_count c Hsh) as Hcount.
  induction l as [|x l IH]; intros fuel initial last cur Hch Hcur Hlast Hf;
    [inversion Hch; subst; lia|].
  pose proof (chain_range _ _ _ Hch ltac:(lia) ltac:(lia)) as Hall.
  inversion Hch as [|? next ? Hi Hlt Hn Hch']; subst. destruct fuel as [|fuel]; [simpl in Hf; lia|].
  rewrite outside_cons, decide_False by lia. simpl in Hf.
  assert (Hflag : bool_decide (x :: outside initial last l ≠ x :: l) =
    bool_decide (outside initial last l ≠ l)).
  { apply bool_decide_ext. split; intros Hne Heq; apply Hne; congruence. }
  simpl unlink_received. destruct (Z.ltb_spec x initial); [|lia]. rewrite Hn, Hflag.
  cbn [mbind outcome_bind]. destruct (Z.leb_spec initial next) as [Hle|Hle].
  - destruct (skip_received_spec c l fuel last next initial Hch') as (idx & Heq & Hc & Hidx); [lia..|].
    rewrite Heq. cbn [mbind outcome_bind fst snd]. case_bool_decide as Hne.
    + destruct (relink_chain c x idx _ Hsh Hi ltac:(lia) Hc) as (c' & -> & Hr & Hch2).
      exists c'. split; [done|]. split; [done|]. right. exists x. split; [by left|done].
    + exists c. rewrite Hne. split; [done|]. split; [done|]. by left.
  - destruct (IH fuel initial last next Hch') as (c' & Heq & Hc & Hrel); [lia..|].
    exists c'. split; [done|]. destruct Hrel as [[-> Hsame]|(p & Hp & Hr)].
    + rewrite Hsame. split; [done|]. by left.
    + split; [|right; exists p; split; [by right|done]].
      assert (p ≠ x).
      { intros ->. apply elem_of_outside in Hp as [Hp _].
        pose proof (chain_range _ _ _ Hch' ltac:(lia) ltac:(lia)) as Hall'.
        rewrite Forall_forall in Hall'. specialize (Hall' x Hp). lia. }
      destruct Hr as (d & -> & _ & Hoth & _).
      apply chain_cons with next; [done|done| |done]. by rewrite Hoth.
Qed.

(** A change that differs from [c] in its list of missing fragments. *)
Record same_sample (c c' : CacheChange_t) : Prop := {
  same_size : fragment_size_ c' = fragment_size_ c;
  same_count : fragment_count_ c' = fragment_count_ c;
  same_length : sample_length c' = sample_length c;
  same_capacity : length (octets_of c') = length (octets_of c)
}.

Lemma same_shaped c c' : same_sample c c' → shaped c → shaped c'.
Proof.
  intros [Hs Hc Hl Hd] [Hg Hcount]. split; [by rewrite Hs, Hl, Hd|]. by rewrite Hc, Hs, Hl.
Qed.

Lemma relinked_same c c' p : relinked c c' p → same_sample c c'.
Proof. intros (d & -> & Hd & _). by split. Qed.

(** [received_fragments] removes the fragments from the list, and leaves the
    octets of every fragment that is not missing alone. *)
Lemma received_fragments_spec sample c missing start n :
  represents sample c missing → 1 <= start → 1 <= n → start + n - 1 <= fragment_count_ c →
  ∃ c', received_fragments c (u32 (start - 1)) n =
      Done (bool_decide (arrive start n missing ≠ missing), c') ∧
    same_sample c c' ∧ chain c' (first_missing_fragment_ c') (arrive start n missing) ∧
    0 <= first_missing_fragment_ c' ∧
    (∀ k : nat, (Z.of_nat k / fragment_size_ c ∉ arrive start n missing) →
      octets_of c' !! k = octets_of c !! k).
Proof.
  intros [Hsh _ Hch Hfirst _] Hs Hn Hlast. pose proof (shaped_count c Hsh) as Hcount.
  pose proof (geo_size _ _ _ (shape_geometry c Hsh)).
  rewrite u32_small by (range_unfold; lia). unfold received_fragments.
  destruct (Z.ltb_spec 0 (fragment_size_ c)); [|lia].
  destruct (Z.ltb_spec (start - 1) (fragment_count_ c)); [|lia]. simpl andb. cbn iota.
  rewrite u32_small by (range_unfold; lia).
  destruct (Z.ltb_spec (fragment_count_ c) (start - 1 + n)); [lia|].
  pose proof (chain_length _ _ _ Hch Hfirst) as Hlen.
  unfold arrive. destruct (Z.leb_spec (start - 1) (first_missing_fragment_ c)) as [Hle|Hgt].
  - destruct (skip_received_spec c missing (walk c) (start - 1 + n) _ (start - 1) Hch)
      as (idx & -> & Hc & Hidx); [unfold walk; lia|lia|lia|].
    exists (with_first c idx). split; [done|]. split; [done|]. split.
    + eapply chain_ext; [| |exact Hc]; done.
    + split; [simpl; lia|done].
  - destruct (unlink_received_spec c Hsh missing (walk c) (start - 1) (start - 1 + n) _ Hch)
      as (c' & -> & Hc & Hrel); [lia|lia|unfold walk; lia|].
    exists c'. split; [done|]. destruct Hrel as [[-> Hsame]|(p & Hp & Hr)]; [done|].
    pose proof (relinked_same _ _ _ Hr) as Hss. destruct Hr as (d & -> & Hd & Hoth & Hout).
    split; [done|]. split; [done|]. split; [done|]. intros k Hk. apply Hout. intros Hin.
    apply Hk. apply elem_of_outside in Hp as Hp'. destruct Hp' as [Hp' _].
    pose proof (chain_range _ _ _ Hch ltac:(lia) Hfirst) as Hall. rewrite Forall_forall in Hall.
    specialize (Hall p Hp'). by rewrite (index_of_place c p k) by (done || lia).
Qed.

(** The submessage carries the fragments [start .. start + n - 1] of the
    sample. *)
Record carries (sample : list Z) (size : Z) (incoming : Payload.SerializedPayload_t) (start n : Z)
    : Prop := {
  car_start : 1 <= start;
  car_number : 1 <= n;
  car_last : start + n - 1 <= fragments (Z.of_nat (length sample)) size;
  car_data : ∃ bytes,
    let len := Z.min (size * n) (Z.of_nat (length sample) - size * (start - 1)) in
    Payload.data incoming = Some bytes ∧
    len <= Payload.length incoming ∧ len <= Z.of_nat (length bytes) ∧
    take (Z.to_nat len) bytes = take (Z.to_nat len) (drop (Z.to_nat (size * (start - 1))) sample)
}.

Lemma arrived_index c start n k :
  shaped c → 1 <= start → 1 <= n → 0 <= k < sample_length c →
  let off := fragment_size_ c * (start - 1) in
  let len := Z.min (fragment_size_ c * n) (sample_length c - off) in
  (off <= k < off + len ↔ start - 1 <= k / fragment_size_ c < start - 1 + n).
Proof.
  intros Hsh Hs Hn Hk off len. pose proof (geo_size _ _ _ (shape_geometry c Hsh)).
  unfold off, len. pose proof (Z.div_mod k (fragment_size_ c) ltac:(lia)).
  pose proof (Z.mod_pos_bound k (fragment_size_ c) ltac:(lia)).
  set (q := k / fragment_size_ c) in *. nia.
Qed.
(** What [received_fragments] leaves when nothing is copied. *)
Lemma represents_again sample c c' missing missing' :
  represents sample c missing → same_sample c c' →
  chain c' (first_missing_fragment_ c') missing' → 0 <= first_missing_fragment_ c' →
  (∀ k : nat, Z.of_nat k < sample_length c → (Z.of_nat k / fragment_size_ c ∉ missing') →
    octets_of c' !! k = sample !! k) →
  represents sample c' missing'.
Proof.
  intros Hrep Hsame Hch Hfirst Hrec. pose proof (same_shaped _ _ Hsame (rep_shaped _ _ _ Hrep)).
  destruct Hsame as [Hsz Hct Hln Hcap]. split; [done| |done|done|].
  - rewrite Hln. apply Hrep.
  - intros k. rewrite Hln, Hsz. apply Hrec.
Qed.

(** Storing the octets of fragments that are no longer in the list. *)
Lemma store_fragments sample c c' missing start n :
  let off := fragment_size_ c * (start - 1) in
  let len := Z.min (fragment_size_ c * n) (sample_length c - off) in
  let bytes := take (Z.to_nat len) (drop (Z.to_nat off) sample) in
  let d := list_inserts (Z.to_nat off) bytes (octets_of c') in
  represents sample c missing → 1 <= start → 1 <= n → off < sample_length c →
  same_sample c c' → chain c' (first_missing_fragment_ c') (arrive start n missing) →
  0 <= first_missing_fragment_ c' →
  (∀ k : nat, (Z.of_nat k / fragment_size_ c ∉ arrive start n missing) →
    octets_of c' !! k = octets_of c !! k) →
  represents sample (with_octets c' d) (arrive start n missing).
Proof.
  intros off len bytes d Hrep Hs Hn Hoff Hsame Hch Hfirst Hkeep.
  pose proof (rep_shaped _ _ _ Hrep) as Hsh. pose proof (rep_sample _ _ _ Hrep) as Hlen.
  pose proof (geo_size _ _ _ (shape_geometry c Hsh)) as Hsize.
  pose proof (same_shaped _ _ Hsame Hsh) as Hsh'.
  assert (Hoff0 : 0 <= off) by (unfold off; nia).
  assert (Hlen0 : 0 < len <= sample_length c - off) by (unfold len; nia).
  assert (Hbytes : Z.of_nat (length bytes) = len).
  { unfold bytes. rewrite length_take, length_drop. unfold len. lia. }
  assert (Hd : length d = length (octets_of c')) by apply length_inserts.
  pose proof (geo_capacity _ _ _ (shape_geometry c Hsh)) as Hcap.
  rewrite <- (same_capacity _ _ Hsame) in Hcap.
  assert (Hsame' : same_sample c (with_octets c' d)).
  { destruct Hsame. split; [done|done|done|]. unfold octets_of at 1. simpl. lia. }
  apply represents_again with c missing; [done|done| |done|].
  - apply chain_ext with c'; [done| |exact Hch]. intros x Hx.
    pose proof (chain_range _ _ _ Hch ltac:(pose proof (shaped_count c' Hsh'); lia) Hfirst) as Hall.
    rewrite Forall_forall in Hall. specialize (Hall x Hx).
    apply elem_of_outside in Hx as [_ Hx].
    pose proof (shaped_place c' x Hsh' ltac:(lia)) as Hp. rewrite (same_size _ _ Hsame) in Hp.
    apply get_next_frame; [done|lia|done|]. intros k Hk. apply inserts_outside. nia.
  - intros k Hk Hout. change (octets_of (with_octets c' d)) with d. unfold d.
    pose proof (arrived_index c start n (Z.of_nat k) Hsh Hs Hn ltac:(lia)) as Hidx. simpl in Hidx.
    fold off in Hidx. fold len in Hidx.
    destruct (decide (off <= Z.of_nat k < off + len)) as [Hin|Hnin].
    + rewrite list_lookup_inserts by lia. unfold bytes.
      rewrite lookup_take_lt, lookup_drop by lia. f_equal. lia.
    + rewrite inserts_outside by lia. rewrite Hkeep by done. apply Hrep; [done|].
      intros Hm. apply Hout. apply elem_of_outside. tauto.
Qed.

(** The arithmetic of [add_fragments] does not wrap on fragments of the
    sample. *)
Lemma fragment_offsets c start n :
  shaped c → 1 <= start → 1 <= n → start + n - 1 <= fragment_count_ c →
  let off := fragment_size_ c * (start - 1) in
  u32 (u32 (start - 1) * fragment_size_ c) = off ∧
  u32 (u32 (start + n) - 1) = start + n - 1 ∧
  0 <= off < sample_length c ∧
  (start + n - 1 < fragment_count_ c →
    u32 (fragment_size_ c * n) = fragment_size_ c * n ∧ off + fragment_size_ c * n < sample_length c) ∧
  (start + n - 1 = fragment_count_ c → sample_length c - off <= fragment_size_ c * n).
Proof.
  intros Hsh Hs Hn Hl off. pose proof (shaped_count c Hsh) as Hcount.
  destruct (shape_geometry c Hsh) as [Hsz _ Hlen Hfit _ _].
  pose proof (fragment_start _ _ _ (shape_geometry c Hsh) (start - 1)) as H1.
  pose proof (fragments_end _ _ _ (shape_geometry c Hsh)) as H2.
  pose proof (fragment_start _ _ _ (shape_geometry c Hsh) (start + n - 1)) as H3.
  rewrite <- (shape_count c Hsh) in *. specialize (H1 ltac:(lia)). fold off in H1.
  assert (0 <= off) by (unfold off; nia).
  split; [|split; [|split; [lia|split]]].
  - rewrite (u32_small (start - 1)) by (range_unfold; lia). rewrite Z.mul_comm. fold off.
    apply u32_small. range_unfold. lia.
  - destruct (decide (start + n < 2 ^ 32)).
    + rewrite (u32_small (start + n)) by (range_unfold; lia). apply u32_small. range_unfold. lia.
    + assert (start + n = 2 ^ 32) as -> by lia. mlia.
  - intros Hlt. specialize (H3 Hlt). unfold off in *. split; [apply u32_small; range_unfold; nia|nia].
  - intros Heq. unfold off. nia.
Qed.
Lemma assembled_iff sample c missing :
  represents sample c missing → is_fully_assembled c = bool_decide (missing = []).
Proof.
  intros Hrep. unfold is_fully_assembled. apply eq_bool_prop_intro.
  rewrite Is_true_true, Z.leb_le, bool_decide_spec. symmetry.
  by apply chain_nil_iff, Hrep.
Qed.

Lemma octets_done src n :
  0 <= n <= Z.of_nat (length src) → Payload.octets src n = Done (take (Z.to_nat n) src).
Proof. intros. unfold Payload.octets. bool_case; done || lia. Qed.

(** [add_fragments] on fragments of the sample. *)
Lemma add_fragments_spec sample c missing incoming start n :
  represents sample c missing → carries sample (fragment_size_ c) incoming start n →
  ∃ c', add_fragments c incoming start n = Done (bool_decide (arrive start n missing = []), c') ∧
    represents sample c' (arrive start n missing) ∧ same_sample c c'.
Proof.
  intros Hrep [Hs Hn Hlast (bytes & Hdata & Hinc & Hbl & Hbytes)].
  pose proof (rep_shaped _ _ _ Hrep) as Hsh. rewrite (rep_sample _ _ _ Hrep) in *.
  rewrite <- (shape_count c Hsh) in Hlast.
  destruct (fragment_offsets c start n Hsh Hs Hn Hlast) as (Ho & Hi & Hoff & Hmid & Hend).
  set (off := fragment_size_ c * (start - 1)) in *.
  set (len := Z.min (fragment_size_ c * n) (sample_length c - off)) in *.
  destruct (received_fragments_spec _ _ _ start n Hrep Hs Hn Hlast)
    as (c' & Hrec & Hsame & Hch & Hfirst & Hkeep).
  pose proof (geo_size _ _ _ (shape_geometry c Hsh)).
  assert (0 < fragment_size_ c * n) by nia.
  assert (Hlen : (if start + n - 1 <? fragment_count_ c then u32 (fragment_size_ c * n)
    else u32 (sample_length c - off)) = len ∧ u32 (off + len) = off + len).
  { pose proof (geo_fits _ _ _ (shape_geometry c Hsh)).
    destruct (Z.ltb_spec (start + n - 1) (fragment_count_ c)) as [Hlt|Hge].
    - destruct (Hmid Hlt) as [-> ?]. unfold len. split; [lia|]. apply u32_small. range_unfold. lia.
    - specialize (Hend ltac:(lia)). unfold len.
      split; [rewrite u32_small by (range_unfold; lia); lia|]. apply u32_small. range_unfold. lia. }
  destruct Hlen as [Hlen Hsum]. unfold add_fragments. rewrite Ho, Hi. fold (sample_length c).
  rewrite Hlen, Hsum. destruct (Z.ltb_spec (fragment_count_ c) (start + n - 1)); [lia|].
  destruct ((start + n - 1 <? fragment_count_ c) && _) eqn:Hshort.
  { apply andb_true_iff in Hshort as [Hlt Hsh2]. rewrite Hlt in Hlen.
    apply Z.ltb_lt in Hsh2. lia. }
  destruct (Z.ltb_spec (sample_length c) (off + len)); [unfold len in *; lia|].
  rewrite Hrec. cbn [mbind outcome_bind]. case_bool_decide as Hne.
  - rewrite Hdata. simpl from_option. unfold id. rewrite octets_done by (unfold len in *; lia).
    cbn [mbind outcome_bind]. rewrite Hbytes.
    pose proof (geo_capacity _ _ _ (shape_geometry c Hsh)).
    rewrite memcpy_done by (try lia; rewrite length_take, length_drop, (same_capacity _ _ Hsame);
      unfold len in *; lia).
    pose proof (store_fragments sample c c' missing start n Hrep Hs Hn ltac:(apply Hoff) Hsame Hch
      Hfirst Hkeep) as Hnew. cbv zeta in Hnew. fold off in Hnew. fold len in Hnew.
    cbn [mbind outcome_bind]. set (c2 := with_octets c' _) in *. exists c2. rewrite (assembled_iff _ _ _ Hnew).
    split; [done|]. split; [done|]. destruct Hsame. unfold c2. split; [done..|].
    unfold octets_of at 1. simpl. by rewrite length_inserts.
  - assert (Hnew : represents sample c' (arrive start n missing)).
    { apply represents_again with c missing; [done..|]. intros k Hk Hout. rewrite Hkeep by done.
      apply Hrep; [done|]. by rewrite <- Hne. }
    exists c'. rewrite (assembled_iff _ _ _ Hnew). done.
Qed.
(** ** The start of an assembly *)

Lemma same_sample_trans c1 c2 c3 : same_sample c1 c2 → same_sample c2 c3 → same_sample c1 c3.
Proof. intros [] []. split; congruence. Qed.

Lemma create_fragment_list_spec n : ∀ i c,
  shaped c → 1 <= i → i - 1 + Z.of_nat n = fragment_count_ c →
  ∃ c', create_fragment_list n i c = Done c' ∧ same_sample c c' ∧
    first_missing_fragment_ c' = first_missing_fragment_ c ∧
    ∀ j, 0 <= j < fragment_count_ c →
      get_next_missing_fragment c' j =
        if j <? i - 1 then get_next_missing_fragment c j else Done (j + 1).
Proof.
  induction n as [|n IH]; intros i c Hsh Hi Hn; simpl.
  - exists c. split; [done|]. split; [done|]. split; [done|]. intros j Hj. bool_case; done || lia.
  - pose proof (shaped_count c Hsh).
    destruct (set_next_spec c (i - 1) i Hsh) as (d & -> & Hd & Hget & Hoth & _); [lia..|].
    cbn [mbind outcome_bind].
    destruct (IH (i + 1) (with_octets c d)) as (c' & Heq & Hsame & Hfirst & Hlinks);
      [by apply shaped_with_octets|lia|simpl; lia|].
    exists c'. split; [done|]. split; [|split; [done|]].
    + by apply same_sample_trans with (with_octets c d).
    + intros j Hj. rewrite Hlinks by done. replace (i + 1 - 1) with i by lia.
      destruct (Z.ltb_spec j i), (Z.ltb_spec j (i - 1)); try lia; try done.
      * apply Hoth; lia.
      * replace j with (i - 1) by lia. rewrite Hget. f_equal. lia.
Qed.

Lemma chain_all c n :
  (∀ j, 0 <= j < fragment_count_ c → get_next_missing_fragment c j = Done (j + 1)) →
  Z.of_nat n <= fragment_count_ c →
  chain c (fragment_count_ c - Z.of_nat n) (seqZ (fragment_count_ c - Z.of_nat n) (Z.of_nat n)).
Proof.
  intros Hlinks. induction n as [|n IH]; intros Hn.
  - rewrite Z.sub_0_r. constructor.
  - rewrite seqZ_cons by lia. apply chain_cons with (fragment_count_ c - Z.of_nat n); [lia|lia| |].
    + rewrite Hlinks by lia. f_equal. lia.
    + replace (Z.succ _) with (fragment_count_ c - Z.of_nat n) by lia.
      replace (Z.pred _) with (Z.of_nat n) by lia. apply IH. lia.
Qed.

Lemma start_assembly sample c size :
  geometry size (sample_length c) (Z.of_nat (length (octets_of c))) →
  Z.of_nat (length sample) = sample_length c →
  ∃ c', setFragmentSize c size true = Done c' ∧ fragment_size_ c' = size ∧
    sample_length c' = sample_length c ∧
    represents sample c' (seqZ 0 (fragments (sample_length c) size)).
Proof.
  intros Hgeo Hlen. pose proof (fragments_pos _ _ _ Hgeo). pose proof (geo_size _ _ _ Hgeo).
  pose proof (geo_fits _ _ _ Hgeo). pose proof (geo_length _ _ _ Hgeo).
  unfold setFragmentSize. destruct (Z.ltb_spec 0 size); [|lia].
  fold (sample_length c). rewrite u32_small by (range_unfold; lia).
  fold (fragments (sample_length c) size). set (count := fragments _ _) in *.
  set (c0 := with_fragments c size count 0).
  destruct (create_fragment_list_spec (Z.to_nat count) 1 c0) as (c' & Heq & Hsame & Hfirst & Hlinks);
    [done|lia|simpl; lia|].
  exists c'. split; [done|]. destruct Hsame as [Hs Hc Hl Hd].
  split; [done|]. split; [done|].
  assert (Hsh : shaped c') by (by apply same_shaped with c0).
  split; [done|by rewrite Hl| |rewrite Hfirst; simpl; lia|].
  - pose proof (chain_all c' (Z.to_nat count)) as Hch.
    assert (Hcc : fragment_count_ c' = count) by done.
    rewrite Hcc, Z2Nat.id, Z.sub_diag in Hch by lia. rewrite Hfirst. apply Hch; [|lia].
    intros j Hj. rewrite Hlinks by (simpl; lia). bool_case; done || lia.
  - intros k Hk Hout. exfalso. apply Hout. apply elem_of_seqZ.
    change (sample_length c' = sample_length c) in Hl. change (fragment_size_ c' = size) in Hs.
    rewrite Hl in Hk. rewrite Hs.
    pose proof (index_lt _ _ _ Hgeo (Z.of_nat k) ltac:(lia)). unfold count. lia.
Qed.

(** ** Whole samples *)

(** A fragment submessage: its payload, first fragment and number of fragments. *)
Definition submessage : Type := Payload.SerializedPayload_t * Z * Z.

Fixpoint add_all (c : CacheChange_t) (subs : list submessage) : outcome CacheChange_t :=
  match subs with
  | [] => mret c
  | (incoming, start, n) :: subs => r ← add_fragments c incoming start n; add_all r.2 subs
  end.

Definition covers (subs : list submessage) (i : Z) : Prop :=
  Exists (λ '(_, start, n), start - 1 <= i < start - 1 + n) subs.

Lemma add_all_spec sample subs : ∀ c missing,
  represents sample c missing →
  Forall (λ '(incoming, start, n), carries sample (fragment_size_ c) incoming start n) subs →
  ∃ c' missing', add_all c subs = Done c' ∧ represents sample c' missing' ∧ same_sample c c' ∧
    ∀ i, i ∈ missing' ↔ i ∈ missing ∧ ¬ covers subs i.
Proof.
  induction subs as [|[[incoming start] n] subs IH]; intros c missing Hrep Hall; simpl.
  - exists c, missing. split; [done|]. split; [done|]. split; [done|]. intros i. split; [|tauto].
    intros Hi. split; [done|]. unfold covers. inversion 1.
  - inversion Hall as [|? ? Hcar Hall']; subst.
    destruct (add_fragments_spec _ _ _ _ _ _ Hrep Hcar) as (c1 & -> & Hrep1 & Hsame1).
    cbn [mbind outcome_bind snd].
    destruct (IH c1 _ Hrep1) as (c' & missing' & Heq & Hrep' & Hsame' & Hm);
      [by rewrite (same_size _ _ Hsame1)|].
    exists c', missing'. split; [done|]. split; [done|].
    split; [by apply same_sample_trans with c1|]. intros i. rewrite Hm. unfold arrive.
    rewrite elem_of_outside. unfold covers. rewrite Exists_cons. tauto.
Qed.
(** The payload of a change with nothing missing is the sample. *)
Lemma assembled_octets sample c :
  represents sample c [] → take (length sample) (octets_of c) = sample.
Proof.
  intros Hrep. pose proof (rep_sample _ _ _ Hrep) as Hlen.
  apply list_eq. intros k. destruct (decide (k < length sample)%nat).
  - rewrite lookup_take_lt by done. apply Hrep; [lia|]. apply not_elem_of_nil.
  - rewrite lookup_take_ge by lia. symmetry. apply lookup_ge_None_2. lia.
Qed.

(** ** The fragments asked for again *)

Lemma collect_missing_spec c l : ∀ fuel (s : FragmentNumberSet_t) cur,
  shaped c → chain c cur l → 0 <= cur → (length l <= fuel)%nat → inv s →
  ∃ s', collect_missing fuel c s cur = Done s' ∧ inv s' ∧
    ∀ y, mem s' y ↔ mem s y ∨
      (y - 1 ∈ l ∧ BitmapRange.base_ s <= y <= BitmapRange.range_max_ s).
Proof.
  induction l as [|x l IH]; intros fuel s cur Hsh Hch Hcur Hf Hinv.
  - inversion Hch; subst. exists s. split; [destruct fuel; simpl; bool_case; done || lia|].
    split; [done|]. intros y. rewrite elem_of_nil. tauto.
  - pose proof (shaped_count c Hsh).
    inversion Hch as [|? next ? Hi Hlt Hn Hch']; subst. destruct fuel as [|fuel]; [simpl in Hf; lia|].
    simpl collect_missing. destruct (Z.ltb_spec x (fragment_count_ c)); [|lia].
    rewrite Hn, u32_small by (range_unfold; lia). cbn [mbind outcome_bind].
    destruct (add_spec s (x + 1) Hinv) as (_ & Hinv1 & Hbase & Hmax & _ & Hmem);
      [simpl; range_unfold; lia|]. simpl in Hmem.
    destruct (IH fuel (BitmapRange.add s (x + 1)).2 next Hsh Hch') as (s' & Heq & Hinv' & Hs');
      [lia|simpl in Hf; lia|done|].
    exists s'. split; [done|]. split; [done|]. intros y. rewrite Hs', Hmem, Hbase, Hmax.
    rewrite elem_of_cons, andb_true_iff, !Z.leb_le. split.
    + intros [[?|[? ->]]|[??]]; [by left| |right; tauto]. right. split; [left; lia|done].
    + intros [?|[[?|?] ?]]; [by left; left| |right; tauto]. left. right. split; lia.
Qed.

(** C8: the list of missing fragments that the code threads through the payload
    refines a set of missing fragments: for every submessage with fragments of
    the sample, [add_fragments] returns, takes exactly these fragments from the
    set, whatever arrived before, and reports whether the set is empty. *)
Theorem assembly_refines_missing_set sample c missing incoming start n :
  represents sample c missing → carries sample (fragment_size_ c) incoming start n →
  ∃ c', add_fragments c incoming start n = Done (bool_decide (arrive start n missing = []), c') ∧
    represents sample c' (arrive start n missing).
Proof.
  intros Hrep Hcar. destruct (add_fragments_spec _ _ _ _ _ _ Hrep Hcar) as (c' & ? & ? & _).
  by exists c'.
Qed.

(** C21: a change that is set up for a sample and receives fragments of it, in any
    order and any number of times, is fully assembled exactly when every
    fragment has arrived, and then its payload is the sample. *)
Theorem fragments_assemble sample c size subs :
  geometry size (sample_length c) (Z.of_nat (length (octets_of c))) →
  Z.of_nat (length sample) = sample_length c →
  Forall (λ '(incoming, start, n), carries sample size incoming start n) subs →
  ∃ c', (c0 ← setFragmentSize c size true; add_all c0 subs) = Done c' ∧
    (is_fully_assembled c' = true ↔
      ∀ i, 0 <= i < fragments (sample_length c) size → covers subs i) ∧
    (is_fully_assembled c' = true → take (length sample) (octets_of c') = sample).
Proof.
  intros Hgeo Hlen Hall.
  destruct (start_assembly sample c size Hgeo Hlen) as (c0 & -> & Hsize & Hl & Hrep).
  cbn [mbind outcome_bind]. destruct (add_all_spec sample subs c0 _ Hrep)
    as (c' & missing' & -> & Hrep' & _ & Hm); [by rewrite Hsize|].
  exists c'. split; [done|]. rewrite (assembled_iff _ _ _ Hrep'), bool_decide_eq_true. split; [split|].
  - intros -> i Hi. unfold covers. apply dec_stable. intros Hno.
    apply (not_elem_of_nil i), Hm. split; [by apply elem_of_seqZ|done].
  - intros Hcov. destruct missing' as [|i missing']; [done|]. exfalso.
    destruct (Hm i) as [Hi _]. destruct Hi as [Hi Hno]; [by left|].
    apply Hno, Hcov. by apply elem_of_seqZ in Hi.
  - intros ->. by apply assembled_octets.
Qed.

(** The set of fragments a reader asks for holds the missing fragments of the
    sample, numbered from 1, among the 256 numbers from the first missing one
    on, and nothing else. *)
Theorem missing_fragments_exact sample c missing s :
  represents sample c missing → first_missing_fragment_ c + 1 + 256 < 2 ^ 32 →
  ∃ s', get_missing_fragments c s = Done s' ∧
    ∀ y, mem s' y ↔ y - 1 ∈ missing ∧ y <= first_missing_fragment_ c + 256.
Proof.
  intros Hrep Hroom. pose proof (rep_first _ _ _ Hrep). pose proof (rep_chain _ _ _ Hrep) as Hch.
  pose proof (rep_shaped _ _ _ Hrep) as Hsh. pose proof (shaped_count _ Hsh).
  unfold get_missing_fragments. rewrite u32_small by (range_unfold; lia).
  rewrite set_base_make.
  destruct (make_spec (first_missing_fragment_ c + 1 : FragmentNumber_t)) as (Hex & Hb & Hfull & Hno).
  { split; simpl; [range_unfold; lia|unfold BitmapRange.NBITS; lia]. }
  set (r := BitmapRange.make _) in *.
  change (BitmapRange.range_max_ r = BitmapRange.base_ r + BitmapRange.NBITS - 1) in Hfull.
  clearbody r. destruct (collect_missing_spec c missing (walk c) r (first_missing_fragment_ c) Hsh Hch) as (s' & Heq & _ & Hmem); [done| |apply Hex|].
  { pose proof (chain_length _ _ _ Hch ltac:(lia)). unfold walk. lia. }
  exists s'. split; [done|]. intros y. rewrite Hmem. rewrite Hfull, Hb. unfold BitmapRange.NBITS.
  pose proof (chain_range _ _ _ Hch ltac:(lia) ltac:(lia)) as Hall. rewrite Forall_forall in Hall.
  split; [intros [?|[? ?]]; [by destruct (Hno y)|]; split; [done|lia]|].
  intros [Hy ?]. right. specialize (Hall _ Hy). split; [done|lia].
Qed.
(** ** Outside of the payload *)

Lemma memcpy_undefined dst offset src :
  0 <= offset → Payload.memcpy dst offset src = Undefined ↔
  Z.of_nat (length dst) < offset + Z.of_nat (length src).
Proof. intros. unfold Payload.memcpy. bool_case; split; try done; lia. Qed.

Lemma create_fragment_list_undefined n : ∀ i c,
  (∀ j, 0 <= place c j) →
  create_fragment_list n i c = Undefined ↔
  ∃ j, i - 1 <= j < i - 1 + Z.of_nat n ∧ Z.of_nat (length (octets_of c)) < place c j + 4.
Proof.
  induction n as [|n IH]; intros i c Hpl; simpl; [split; [done|intros (j & ? & ?); lia]|].
  unfold set_next_missing_fragment. fold (place c (i - 1)).
  destruct (decide (Z.of_nat (length (octets_of c)) < place c (i - 1) + 4)) as [Hout|Hin].
  - destruct (memcpy_undefined (octets_of c) (place c (i - 1)) (le_bytes 4 i) (Hpl _)) as [_ ->];
      [|rewrite length_le_bytes; lia].
    split; [|done]. intros _. exists (i - 1). split; [lia|done].
  - rewrite memcpy_done by (rewrite ?length_le_bytes; auto; lia). cbn [mbind outcome_bind mret outcome_ret].
    rewrite IH by done. set (c' := with_octets c _).
    assert (Hc : length (octets_of c') = length (octets_of c)) by apply length_inserts.
    rewrite Hc. change (place c') with (place c). split; intros (j & Hj & Hl); exists j.
    + split; [lia|done].
    + split; [|done]. destruct (decide (j = i - 1)) as [->|]; [done|lia].
Qed.

(** C37: setting up the list of missing fragments stays inside the payload exactly
    when the link of the last fragment fits, four octets from the start of that
    fragment rounded up to a multiple of four: a payload of just the size of the
    sample is too small when the last fragment is shorter than that. *)
Theorem fragment_list_bounds c size :
  0 < size < 2 ^ 16 → 0 < sample_length c → sample_length c + size + 3 < 2 ^ 32 →
  let last := fragments (sample_length c) size - 1 in
  (setFragmentSize c size true = Undefined ↔
    Z.of_nat (length (octets_of c)) < next_fragment_pointer size last + 4) ∧
  next_fragment_pointer size last = 4 * ((size * last + 3) / 4).
Proof.
  intros Hsize Hlen Hfit last.
  assert (Hlast : 0 <= last ∧ size * last < sample_length c).
  { unfold last, fragments. assert (1 <= (sample_length c + size - 1) / size)
      by (apply Z.div_le_lower_bound; lia).
    pose proof (Z.mul_div_le (sample_length c + size - 1) size). nia. }
  assert (Hround : ∀ j, 0 <= j <= last → next_fragment_pointer size j = 4 * ((size * j + 3) / 4)).
  { intros j Hj. apply land_round. nia. }
  split; [|apply Hround; lia].
  unfold setFragmentSize. destruct (Z.ltb_spec 0 size); [|lia]. fold (sample_length c).
  rewrite u32_small by (range_unfold; lia). fold (fragments (sample_length c) size).
  rewrite create_fragment_list_undefined; [|intros j; apply Z.land_nonneg; right; done].
  change (place (with_fragments c size _ 0)) with (next_fragment_pointer size).
  change (octets_of (with_fragments c size _ 0)) with (octets_of c).
  split; [|intros Hl; exists last; split; [unfold last in *; lia|done]].
  intros (j & Hj & Hl). rewrite Hround in Hl by (unfold last in *; lia). rewrite Hround by lia.
  assert ((size * j + 3) / 4 <= (size * last + 3) / 4)
    by (apply Z.div_le_mono; [lia|]; unfold last in *; nia). lia.
Qed.

(** The length of the data of a submessage is not compared with what the last
    fragments of the sample need: when it holds fewer octets and brings a missing
    fragment, the copy reads past its end. *)
Theorem short_last_fragment_overread sample c missing incoming start n bytes :
  represents sample c missing → 1 <= start → 1 <= n → start + n - 1 = fragment_count_ c →
  arrive start n missing ≠ missing → Payload.data incoming = Some bytes →
  Z.of_nat (length bytes) < sample_length c - fragment_size_ c * (start - 1) →
  add_fragments c incoming start n = Undefined.
Proof.
  intros Hrep Hs Hn Hlast Harr Hdata Hshort. pose proof (rep_shaped _ _ _ Hrep) as Hsh.
  destruct (fragment_offsets c start n Hsh Hs Hn ltac:(lia)) as (Ho & Hi & Hoff & _ & Hend).
  destruct (received_fragments_spec _ _ _ start n Hrep Hs Hn ltac:(lia)) as (c' & Hrec & _).
  pose proof (geo_fits _ _ _ (shape_geometry c Hsh)). pose proof (geo_size _ _ _ (shape_geometry c Hsh)).
  unfold add_fragments. rewrite Ho, Hi, Hlast, Z.ltb_irrefl. simpl andb. cbn iota.
  fold (sample_length c). rewrite !(u32_small (sample_length c - _)) by (range_unfold; lia).
  rewrite u32_small by (range_unfold; lia).
  destruct (Z.ltb_spec (sample_length c)
    (fragment_size_ c * (start - 1) + (sample_length c - fragment_size_ c * (start - 1)))); [lia|].
  rewrite Hrec, bool_decide_true by done. cbn [mbind outcome_bind]. rewrite Hdata. simpl from_option.
  unfold Payload.octets, id. bool_case; done || lia.
Qed.
(** ** Examples *)

Definition blank (len capacity : Z) : CacheChange_t :=
  mkChange ALIVE Guid.c_Guid_Unknown None (SN.mkSN 0 1)
    (Payload.mkPayload Payload.CDR_BE len (Some (replicate (Z.to_nat capacity) 0)) len 0)
    Payload.default_payload false (mkTime 0 0) (mkTime 0 0) []
    (mkParams unknown_identity unknown_identity (mkTime 0 0)) false 0 0 0.

Definition ten : list Z := seqZ 1 10.

(** The payload with the fragments [start .. start + n - 1] of the ten octets. *)
Definition piece (size start n : Z) : Payload.SerializedPayload_t :=
  let bytes := take (Z.to_nat (size * n)) (drop (Z.to_nat (size * (start - 1))) ten) in
  Payload.mkPayload Payload.CDR_BE (Z.of_nat (length bytes)) (Some bytes) (Z.of_nat (length bytes)) 0.

(** With fragments of two octets the links of neighbouring fragments share
    their place: a sample of ten octets counts as assembled when three of its
    five fragments have arrived. *)
Theorem tiny_fragments_lost :
  ∃ c, (c0 ← setFragmentSize (blank 10 13) 2 true;
        add_all c0 [(piece 2 1 1, 1, 1); (piece 2 2 1, 2, 1); (piece 2 4 1, 4, 1)]) = Done c ∧
    is_fully_assembled c = true ∧ take 10 (octets_of c) ≠ ten.
Proof. eexists. split; [vm_compute; reflexivity|]. split; [done|]. vm_compute. discriminate. Qed.

Definition started : CacheChange_t :=
  Eval vm_compute in
    match setFragmentSize (blank 10 12) 4 true with Done c => c | _ => blank 0 0 end.

Lemma ten_geometry : geometry 4 10 12.
Proof. split; [range_unfold; lia|by left|lia|range_unfold; lia|lia|vm_compute; congruence]. Qed.

Lemma started_represents : represents ten started [0; 1; 2].
Proof.
  destruct (start_assembly ten (blank 10 12) 4) as (c & Heq & _ & _ & Hrep);
    [apply ten_geometry|done|].
  replace started with c; [exact Hrep|]. vm_compute in Heq. by injection Heq as <-.
Qed.

Lemma piece_carries start n :
  start ∈ [1; 2; 3] → n ∈ [1; 2; 3] → start + n - 1 <= 3 → carries ten 4 (piece 4 start n) start n.
Proof.
  intros Hs Hn Hl. split.
  - set_unfold. lia.
  - set_unfold. lia.
  - exact Hl.
  - eexists. split; [reflexivity|].
    set_unfold in Hs. set_unfold in Hn.
    destruct Hs as [->|[->|[->|[]]]], Hn as [->|[->|[->|[]]]]; vm_compute in Hl; try (by destruct Hl);
      split_and!; vm_compute; congruence.
Qed.

Lemma assembly_refines_missing_set_witness :
  ∃ c', add_fragments started (piece 4 2 2) 2 2 =
      Done (bool_decide (arrive 2 2 [0; 1; 2] = []), c') ∧
    represents ten c' (arrive 2 2 [0; 1; 2]).
Proof.
  apply (assembly_refines_missing_set ten started [0; 1; 2] (piece 4 2 2) 2 2).
  - apply started_represents.
  - apply piece_carries; [by repeat constructor|by repeat constructor|done].
Defined.

Lemma fragments_assemble_witness :
  ∃ c', (c0 ← setFragmentSize (blank 10 12) 4 true;
      add_all c0 [(piece 4 3 1, 3, 1); (piece 4 1 2, 1, 2)]) = Done c' ∧
    (is_fully_assembled c' = true ↔
      ∀ i, 0 <= i < fragments 10 4 → covers [(piece 4 3 1, 3, 1); (piece 4 1 2, 1, 2)] i) ∧
    (is_fully_assembled c' = true → take (length ten) (octets_of c') = ten).
Proof.
  apply (fragments_assemble ten (blank 10 12) 4 [(piece 4 3 1, 3, 1); (piece 4 1 2, 1, 2)]).
  - apply ten_geometry.
  - reflexivity.
  - apply Forall_cons_2; [|apply Forall_cons_2; [|apply Forall_nil_2]];
      apply piece_carries; done || (by repeat constructor).
Defined.

Lemma missing_fragments_exact_witness :
  ∃ s', get_missing_fragments started BitmapRange.default_range = Done s' ∧
    ∀ y, mem s' y ↔ y - 1 ∈ [0; 1; 2] ∧ y <= first_missing_fragment_ started + 256.
Proof.
  apply (missing_fragments_exact ten started [0; 1; 2] BitmapRange.default_range).
  - apply started_represents.
  - reflexivity.
Defined.

Lemma fragment_list_bounds_witness :
  let last := fragments (sample_length (blank 1025 1025)) 1024 - 1 in
  (setFragmentSize (blank 1025 1025) 1024 true = Undefined ↔
    Z.of_nat (length (octets_of (blank 1025 1025))) < next_fragment_pointer 1024 last + 4) ∧
  next_fragment_pointer 1024 last = 4 * ((1024 * last + 3) / 4).
Proof. apply (fragment_list_bounds (blank 1025 1025) 1024); vm_compute; (by split) || done. Defined.

Lemma short_last_fragment_overread_witness :
  add_fragments started (piece 4 3 0) 1 3 = Undefined.
Proof.
  apply (short_last_fragment_overread ten started [0; 1; 2] (piece 4 3 0) 1 3 []).
  - apply started_represents.
  - done.
  - done.
  - reflexivity.
  - vm_compute. discriminate.
  - reflexivity.
  - reflexivity.
Defined.

End Assembly.
