(* ===== verification/Pools.v ===== *)
(** * Pools of changes and payloads

    [CacheChangePool] (src/cpp/rtps/history/CacheChangePool.cpp) hands out
    changes, [TopicPayloadPool] (src/cpp/rtps/history/TopicPayloadPool.cpp and
    TopicPayloadPool_impl/) the payloads that changes share by counting
    references.  Objects on the heap are the entries of a store, named by
    numbers that are never used again.  Whether [realloc] finds memory for a payload
    that has to grow is an argument, [memory]; that [new] and [calloc] run out of memory,
    which they tell by exceptions, is not modelled. *)

From S2P Require Import Prelude.
From S2P Require Import SeqNum.
From S2P Require Import Guid.
From S2P Require Import CacheChange.
From stdpp Require Import gmap.
#[local] Open Scope Z_scope.

Inductive MemoryManagementPolicy_t :=
  | PREALLOCATED_MEMORY_MODE
  | PREALLOCATED_WITH_REALLOC_MEMORY_MODE
  | DYNAMIC_RESERVE_MEMORY_MODE
  | DYNAMIC_REUSABLE_MEMORY_MODE.

#[export] Instance policy_eq_dec : EqDecision MemoryManagementPolicy_t.
Proof. solve_decision. Defined.

Record PoolConfig := mkConfig {
  memory_policy : MemoryManagementPolicy_t;
  payload_initial_size : Z;
  initial_size : Z;
  maximum_size : Z
}.

Module ChangePool.
Import CacheChange.

Record CacheChangePool := mkPool {
  memory_mode_ : MemoryManagementPolicy_t;
  current_pool_size_ : Z;
  max_pool_size_ : Z;
  free_caches_ : list nat;
  all_caches_ : list nat;
  caches : gmap nat CacheChange_t;
  fresh : nat
}.

(** [CacheChange_t()]: only the encapsulation of the inline QoS depends on the
    host; [PL_CDR_LE] is 3. *)
Definition new_change : CacheChange_t :=
  mkChange ALIVE Guid.c_Guid_Unknown None SN.default Payload.default_payload
    (Payload.with_encapsulation Payload.default_payload 3) false (mkTime 0 0) (mkTime 0 0) [0; 0]
    (mkParams unknown_identity unknown_identity (mkTime (-1) 4294967295)) true 0 0 0.

(** The change with the fields that [return_cache_to_pool] resets. *)
Definition reset_change (ch : CacheChange_t) : CacheChange_t :=
  let qos := inline_qos ch in
  mkChange ALIVE Guid.c_Guid_Unknown None (SN.mkSN 0 0) (serializedPayload ch)
    (Payload.mkPayload (Payload.encapsulation qos) 0 (Payload.data qos) (Payload.max_size qos) 0)
    false (mkTime 0 0) (receptionTimestamp ch) [0; 0]
    (mkParams unknown_identity unknown_identity (source_timestamp (write_params ch)))
    (is_untyped_ ch) 0 0 0.

(** One [create_change], put in [all_caches_]. *)
Definition create_one (p : CacheChangePool) : nat * CacheChangePool :=
  (fresh p, mkPool (memory_mode_ p) (u32 (current_pool_size_ p + 1)) (max_pool_size_ p) (free_caches_ p)
    (all_caches_ p ++ [fresh p]) (<[fresh p := new_change]> (caches p)) (S (fresh p))).

Definition push_free (p : CacheChangePool) (ch : nat) : CacheChangePool :=
  mkPool (memory_mode_ p) (current_pool_size_ p) (max_pool_size_ p) (free_caches_ p ++ [ch])
    (all_caches_ p) (caches p) (fresh p).

Fixpoint create_group (n : nat) (p : CacheChangePool) : CacheChangePool :=
  match n with
  | O => p
  | S n => let '(ch, p) := create_one p in create_group n (push_free p ch)
  end.

Definition allocateGroup (p : CacheChangePool) (group_size : Z) : bool * CacheChangePool :=
  let desired_size := u32 (current_pool_size_ p + group_size) in
  let '(desired_size, group_size) :=
    if max_pool_size_ p <? desired_size
    then (max_pool_size_ p, u32 (max_pool_size_ p - current_pool_size_ p))
    else (desired_size, group_size) in
  if group_size <=? 0 then (false, p)
  else (true, create_group (Z.to_nat (desired_size - current_pool_size_ p)) p).

Definition allocateSingle (p : CacheChangePool) : option nat * CacheChangePool :=
  if current_pool_size_ p <? max_pool_size_ p
  then let '(ch, p) := create_one p in (Some ch, p)
  else (None, p).

Definition init (config : PoolConfig) : CacheChangePool :=
  let pool_size := initial_size config in
  let max_size := maximum_size config in
  let limit :=
    if 0 <? max_size then (if max_size <? pool_size then pool_size else max_size) else UINT32_MAX in
  let p := mkPool (memory_policy config) 0 limit [] [] ∅ 0 in
  match memory_policy config with
  | PREALLOCATED_MEMORY_MODE | PREALLOCATED_WITH_REALLOC_MEMORY_MODE =>
      (allocateGroup p (if pool_size =? 0 then 1 else pool_size)).2
  | _ => p
  end.

(** [(uint16_t)(ceil((float)current_pool_size_ / 10) + 10)]: exact in single
    precision as long as it is in the range of the conversion. *)
Definition growth (current : Z) : outcome Z :=
  let n := (current + 9) / 10 + 10 in if n <=? UINT16_MAX then Done n else Undefined.

Definition pop_free (p : CacheChangePool) : option nat * CacheChangePool :=
  (last (free_caches_ p),
   mkPool (memory_mode_ p) (current_pool_size_ p) (max_pool_size_ p)
     (take (length (free_caches_ p) - 1) (free_caches_ p)) (all_caches_ p) (caches p) (fresh p)).

Definition reserve_cache (p : CacheChangePool) : outcome (option nat * CacheChangePool) :=
  if decide (free_caches_ p = []) then
    match memory_mode_ p with
    | PREALLOCATED_MEMORY_MODE | PREALLOCATED_WITH_REALLOC_MEMORY_MODE =>
        n ← growth (current_pool_size_ p);
        let '(ok, p) := allocateGroup p n in
        mret (if ok : bool then pop_free p else (None, p))
    | _ => mret (allocateSingle p)
    end
  else mret (pop_free p).

Definition return_cache_to_pool (ndebug : bool) (p : CacheChangePool) (ch : nat)
    : outcome CacheChangePool :=
  match caches p !! ch with
  | None => Undefined
  | Some c =>
      _ ← assert_ ndebug (bool_decide (ch ∉ free_caches_ p));
      mret (push_free
        (mkPool (memory_mode_ p) (current_pool_size_ p) (max_pool_size_ p) (free_caches_ p)
          (all_caches_ p) (<[ch := reset_change c]> (caches p)) (fresh p)) ch)
  end.

(** The element at [i] is overwritten by the last one, which is dropped. *)
Definition swap_remove (l : list nat) (i : nat) : list nat :=
  take (length l - 1) (match last l with Some x => <[i := x]> l | None => l end).

Definition release_cache (ndebug : bool) (p : CacheChangePool) (ch : nat)
    : outcome (bool * CacheChangePool) :=
  match memory_mode_ p with
  | DYNAMIC_RESERVE_MEMORY_MODE =>
      match list_find (λ x, x = ch) (all_caches_ p) with
      | Some (i, _) =>
          mret (true, mkPool (memory_mode_ p) (u32 (current_pool_size_ p - 1)) (max_pool_size_ p)
            (free_caches_ p) (swap_remove (all_caches_ p) i) (delete ch (caches p)) (fresh p))
      | None => mret (false, p)
      end
  | _ => p ← return_cache_to_pool ndebug p ch; mret (true, p)
  end.

End ChangePool.

Module PayloadPool.

(** A node: its counter and size, its index in [all_payloads_], and the number
    of octets allocated from its data on. *)
Record PayloadNode := mkNode {
  ref_counter : Z;
  data_size : Z;
  data_index : Z;
  room : Z
}.

(** [payload_size_] is the size that the preallocated pools are made with. *)
Record TopicPayloadPool := mkPool {
  policy : MemoryManagementPolicy_t;
  payload_size_ : Z;
  minimum_pool_size_ : Z;
  max_pool_size_ : Z;
  infinite_histories_count_ : Z;
  finite_max_pool_size_ : Z;
  free_payloads_ : list nat;
  all_payloads_ : list nat;
  nodes : gmap nat PayloadNode;
  fresh : nat
}.

Definition get (config : PoolConfig) : option TopicPayloadPool :=
  if payload_initial_size config =? 0 then None
  else Some (mkPool (memory_policy config) (payload_initial_size config) 0 0 0 0 [] [] ∅ 0).

(** The constructor of a node: [calloc] of the node's header, whose last octet is
    the first of the data and which is padded to 16 octets, and of the data; the
    data starts at offset 12. *)
Definition new_node (size index : Z) : PayloadNode :=
  mkNode 0 size index (if size =? 0 then 4 else size + 3).

Definition resize (n : PayloadNode) (size : Z) : PayloadNode :=
  mkNode (ref_counter n) size (data_index n) size.

Definition with_count (n : PayloadNode) (count : Z) : PayloadNode :=
  mkNode count (data_size n) (data_index n) (room n).

Definition with_index (n : PayloadNode) (index : Z) : PayloadNode :=
  mkNode (ref_counter n) (data_size n) index (room n).

(** The pool with other vectors and nodes. *)
Definition with_payloads (p : TopicPayloadPool) (free all : list nat) (ns : gmap nat PayloadNode)
    : TopicPayloadPool :=
  mkPool (policy p) (payload_size_ p) (minimum_pool_size_ p) (max_pool_size_ p)
    (infinite_histories_count_ p) (finite_max_pool_size_ p) free all ns (fresh p).

Definition with_nodes (p : TopicPayloadPool) (ns : gmap nat PayloadNode) : TopicPayloadPool :=
  with_payloads p (free_payloads_ p) (all_payloads_ p) ns.

Definition do_allocate (p : TopicPayloadPool) (size : Z) : nat * TopicPayloadPool :=
  let index := u32 (Z.of_nat (length (all_payloads_ p))) in
  (fresh p,
   mkPool (policy p) (payload_size_ p) (minimum_pool_size_ p) (max_pool_size_ p)
     (infinite_histories_count_ p) (finite_max_pool_size_ p) (free_payloads_ p)
     (all_payloads_ p ++ [fresh p]) (<[fresh p := new_node size index]> (nodes p)) (S (fresh p))).

Definition allocate (p : TopicPayloadPool) (size : Z) : option (nat * TopicPayloadPool) :=
  if max_pool_size_ p <=? Z.of_nat (length (all_payloads_ p)) then None
  else Some (do_allocate p size).

(** [reference] and the test of [dereference]; a missing node is a dangling
    pointer. *)
Definition reference (p : TopicPayloadPool) (id : nat) : outcome TopicPayloadPool :=
  match nodes p !! id with
  | Some n => Done (with_nodes p (<[id := with_count n (u32 (ref_counter n + 1))]> (nodes p)))
  | None => Undefined
  end.

Definition dereference (p : TopicPayloadPool) (id : nat) : outcome (bool * TopicPayloadPool) :=
  match nodes p !! id with
  | Some n => Done (ref_counter n =? 1,
      with_nodes p (<[id := with_count n (u32 (ref_counter n - 1))]> (nodes p)))
  | None => Undefined
  end.

Definition size_of (p : TopicPayloadPool) (id : nat) : outcome Z :=
  match nodes p !! id with Some n => Done (data_size n) | None => Undefined end.

(** A payload from the free ones or from the heap. *)
Definition take_payload (p : TopicPayloadPool) (size : Z) : option (nat * TopicPayloadPool) :=
  match last (free_payloads_ p) with
  | None => allocate p size
  | Some id =>
      Some (id, with_payloads p (take (length (free_payloads_ p) - 1) (free_payloads_ p))
                  (all_payloads_ p) (nodes p))
  end.

(** A payload that is too small is resized; when that fails it is kept for later. *)
Definition grow (memory : bool) (p : TopicPayloadPool) (id : nat) (size : Z) (resizeable : bool)
    : outcome (bool * TopicPayloadPool) :=
  match nodes p !! id with
  | Some n =>
      Done (if resizeable && (data_size n <? size) then
              if memory then (true, with_nodes p (<[id := resize n size]> (nodes p)))
              else (false, with_payloads p (free_payloads_ p ++ [id]) (all_payloads_ p) (nodes p))
            else (true, p))
  | None => Undefined
  end.

(** The payload the change gets, with its [max_size]. *)
Definition do_get_payload (memory : bool) (p : TopicPayloadPool) (size : Z) (resizeable : bool)
    : outcome (option (nat * Z) * TopicPayloadPool) :=
  match take_payload p size with
  | None => mret (None, p)
  | Some (id, p) =>
      r ← grow memory p id size resizeable;
      match r with
      | (false, p) => mret (None, p)
      | (true, p) =>
          p ← reference p id;
          size ← size_of p id;
          mret (Some (id, size), p)
      end
  end.

Definition get_payload (memory : bool) (p : TopicPayloadPool) (size : Z)
    : outcome (option (nat * Z) * TopicPayloadPool) :=
  match policy p with
  | PREALLOCATED_MEMORY_MODE => do_get_payload memory p (payload_size_ p) false
  | PREALLOCATED_WITH_REALLOC_MEMORY_MODE => do_get_payload memory p (Z.max size (payload_size_ p)) true
  | _ => do_get_payload memory p size true
  end.

(** The element at [i] becomes the last element, which takes over the index and
    is dropped from the end. *)
Definition replace_by_last (p : TopicPayloadPool) (i : Z) : outcome TopicPayloadPool :=
  match last (all_payloads_ p), all_payloads_ p !! Z.to_nat i with
  | Some l, Some _ =>
      match nodes p !! l with
      | Some n =>
          let all := <[Z.to_nat i := l]> (all_payloads_ p) in
          Done (with_payloads p (free_payloads_ p) (take (length all - 1) all)
                  (<[l := with_index n i]> (nodes p)))
      | None => Undefined
      end
  | _, _ => Undefined
  end.

Definition delete_node (p : TopicPayloadPool) (id : nat) : TopicPayloadPool :=
  with_nodes p (delete id (nodes p)).

Definition index_of (p : TopicPayloadPool) (id : nat) : outcome Z :=
  match nodes p !! id with Some n => Done (data_index n) | None => Undefined end.

(** [release_payload] of a change whose payload is the node [id] of this pool, which is
    what its assertion on the owner says: the last reference puts the node at its index back, or
    deletes it in the pool that allocates on demand. *)
Definition release_payload (p : TopicPayloadPool) (id : nat) : outcome TopicPayloadPool :=
  r ← dereference p id;
  let '(is_last, p) := r in
  if is_last : bool then
    i ← index_of p id;
    match all_payloads_ p !! Z.to_nat i with
    | None => Undefined
    | Some payload =>
        if decide (policy p = DYNAMIC_RESERVE_MEMORY_MODE) then
          p ← replace_by_last p i;
          mret (delete_node p payload)
        else mret (with_payloads p (free_payloads_ p ++ [payload]) (all_payloads_ p) (nodes p))
    end
  else mret p.

(** Whose payload the data handed to [get_payload] is. *)
Inductive data_owner := Nobody | This | Another.

#[export] Instance data_owner_eq_dec : EqDecision data_owner.
Proof. solve_decision. Defined.

(** [get_payload(data, data_owner, change)] for a change with the given writer and number
    and data of a length, held by the node [id] when this pool owns it: the node and the
    size the change gets, and the node the data refers to afterwards, with its owner. *)
Definition get_payload_for (ndebug memory : bool) (p : TopicPayloadPool) (writerGUID : Guid.GUID_t)
    (sequenceNumber : SN.SequenceNumber_t) (len : Z) (id : nat) (owner : data_owner)
    : outcome (option (nat * Z) * (nat * data_owner) * TopicPayloadPool) :=
  _ ← assert_ ndebug (negb (Guid.eqb writerGUID Guid.c_Guid_Unknown));
  _ ← assert_ ndebug (SN.neqb sequenceNumber SN.unknown);
  match owner with
  | This =>
      p ← reference p id;
      size ← size_of p id;
      mret (Some (id, size), (id, This), p)
  | _ =>
      r ← get_payload memory p len;
      match r with
      | (None, p) => mret (None, (id, owner), p)
      | (Some (new, size), p) =>
          if size <? len then
            p ← release_payload p new;
            mret (None, (id, owner), p)
          else match owner with
          | Nobody =>
              p ← reference p new;
              mret (Some (new, size), (new, This), p)
          | _ => mret (Some (new, size), (id, owner), p)
          end
      end
  end.

(** ** Histories that use the pool *)

Definition with_limits (p : TopicPayloadPool) (minimum max infinite finite : Z) : TopicPayloadPool :=
  mkPool (policy p) (payload_size_ p) minimum max infinite finite (free_payloads_ p)
    (all_payloads_ p) (nodes p) (fresh p).

Definition update_maximum_size (p : TopicPayloadPool) (config : PoolConfig) (is_reserve : bool)
    : TopicPayloadPool :=
  let size := Z.max (initial_size config) (maximum_size config) in
  if is_reserve then
    if maximum_size config =? 0
    then with_limits p (minimum_pool_size_ p) UINT32_MAX (u32 (infinite_histories_count_ p + 1))
           (finite_max_pool_size_ p)
    else
      let finite := u32 (finite_max_pool_size_ p + size) in
      with_limits p (minimum_pool_size_ p)
        (if infinite_histories_count_ p =? 0 then finite else max_pool_size_ p)
        (infinite_histories_count_ p) finite
  else
    let infinite := if maximum_size config =? 0 then u32 (infinite_histories_count_ p - 1)
                    else infinite_histories_count_ p in
    let finite := if maximum_size config =? 0 then finite_max_pool_size_ p
                  else u32 (finite_max_pool_size_ p - size) in
    with_limits p (minimum_pool_size_ p) (if infinite =? 0 then finite else max_pool_size_ p)
      infinite finite.

Fixpoint reserve_loop (n : nat) (p : TopicPayloadPool) (size : Z) : TopicPayloadPool :=
  match n with
  | O => p
  | S n =>
      let '(id, p) := do_allocate p size in
      reserve_loop n (with_payloads p (free_payloads_ p ++ [id]) (all_payloads_ p) (nodes p)) size
  end.

Definition reserve (ndebug : bool) (p : TopicPayloadPool) (min_num size : Z)
    : outcome TopicPayloadPool :=
  _ ← assert_ ndebug (min_num <=? max_pool_size_ p);
  mret (reserve_loop (Z.to_nat min_num - length (all_payloads_ p)) p size).

Definition reserve_history (ndebug : bool) (p : TopicPayloadPool) (config : PoolConfig)
    : outcome TopicPayloadPool :=
  _ ← assert_ ndebug (bool_decide (memory_policy config = policy p));
  let p := update_maximum_size p config true in
  match policy p with
  | PREALLOCATED_MEMORY_MODE | PREALLOCATED_WITH_REALLOC_MEMORY_MODE =>
      let minimum := u32 (minimum_pool_size_ p + initial_size config) in
      let p := with_limits p minimum (max_pool_size_ p) (infinite_histories_count_ p)
                 (finite_max_pool_size_ p) in
      reserve ndebug p minimum (payload_size_ p)
  | _ => mret p
  end.

(** Free payloads are deleted until at most [max_num] payloads are left, [n]
    being how many there are too many. *)
Fixpoint shrink_loop (n : nat) (p : TopicPayloadPool) : outcome TopicPayloadPool :=
  match n with
  | O => mret p
  | S n =>
      match last (free_payloads_ p) with
      | None => Undefined
      | Some id =>
          let p := with_payloads p (take (length (free_payloads_ p) - 1) (free_payloads_ p))
                     (all_payloads_ p) (nodes p) in
          i ← index_of p id;
          p ← replace_by_last p i;
          shrink_loop n (delete_node p id)
      end
  end.

Definition shrink (ndebug : bool) (p : TopicPayloadPool) (max_num : Z) : outcome TopicPayloadPool :=
  _ ← assert_ ndebug
        (Z.of_nat (length (all_payloads_ p)) - Z.of_nat (length (free_payloads_ p)) <=? max_num);
  shrink_loop (length (all_payloads_ p) - Z.to_nat max_num) p.

Definition release_history (ndebug : bool) (p : TopicPayloadPool) (config : PoolConfig)
    : outcome TopicPayloadPool :=
  let p :=
    match policy p with
    | PREALLOCATED_MEMORY_MODE | PREALLOCATED_WITH_REALLOC_MEMORY_MODE =>
        with_limits p (u32 (minimum_pool_size_ p - initial_size config)) (max_pool_size_ p)
          (infinite_histories_count_ p) (finite_max_pool_size_ p)
    | _ => p
    end in
  _ ← assert_ ndebug (bool_decide (memory_policy config = policy p));
  let p := update_maximum_size p config false in
  match policy p with
  | DYNAMIC_RESERVE_MEMORY_MODE => mret p
  | _ => shrink ndebug p (max_pool_size_ p)
  end.

End PayloadPool.
