(* ===== verification/PoolsFacts.v ===== *)
(** * Facts about the pools

    A pool of changes never hands out a change that is in use, and a pool of
    payloads keeps the index of every node and the counter of its references
    right, so that releasing a payload returns or deletes that payload. *)

From S2P Require Import Prelude.
From S2P Require Import SeqNum.
From S2P Require Import Guid.
From S2P Require Import CacheChange.
From S2P Require Import Pools.
From stdpp Require Import gmap.
#[local] Open Scope Z_scope.

(** ** Vectors used as stacks *)

Section vectors.
Context {A : Type}.
Implicit Types l : list A.

Lemma last_split l x : last l = Some x → l = take (length l - 1) l ++ [x].
Proof.
  intros Hl. apply last_Some in Hl as [l' ->]. rewrite length_app. simpl.
  replace (length l' + 1 - 1)%nat with (length l') by lia. by rewrite take_app_length.
Qed.

Lemma pop_elem l x y :
  last l = Some x → NoDup l → (y ∈ take (length l - 1) l ↔ y ∈ l ∧ y ≠ x).
Proof.
  intros Hl Hnd. pose proof (last_split l x Hl) as Hs.
  remember (take (length l - 1) l) as l' eqn:E. clear E Hl. subst l.
  apply NoDup_app in Hnd as (_ & Hno & _). rewrite elem_of_app, list_elem_of_singleton. split.
  - intros Hy. split; [by left|]. intros ->. apply (Hno _ Hy). by left.
  - tauto.
Qed.

Lemma pop_NoDup l x : last l = Some x → NoDup l → NoDup (take (length l - 1) l).
Proof.
  intros Hl Hnd. pose proof (last_split l x Hl) as Hs.
  remember (take (length l - 1) l) as l' eqn:E. clear E Hl. subst l.
  by apply NoDup_app in Hnd as (? & _).
Qed.

Lemma push_NoDup l x : NoDup l → (x ∉ l) → NoDup (l ++ [x]).
Proof.
  intros Hnd Hx. apply NoDup_app. split; [done|]. split; [|apply NoDup_singleton].
  intros y Hy ->%list_elem_of_singleton. done.
Qed.
End vectors.

Module ChangePoolFacts.
Import ChangePool CacheChange.

(** A change as [CacheChange_t()] or [return_cache_to_pool] leaves it. *)
Record clean (c : CacheChange_t) : Prop := {
  clean_kind : kind c = ALIVE;
  clean_guid : writerGUID c = Guid.c_Guid_Unknown;
  clean_handle : instanceHandle c = None;
  clean_number : sequenceNumber c = SN.mkSN 0 0;
  clean_read : isRead c = false;
  clean_params : sample_identity (write_params c) = unknown_identity ∧
    related_sample_identity (write_params c) = unknown_identity;
  clean_fragments : fragment_size_ c = 0 ∧ fragment_count_ c = 0 ∧ first_missing_fragment_ c = 0
}.

Record pool_ok (p : CacheChangePool) : Prop := {
  ok_all : NoDup (all_caches_ p);
  ok_free : NoDup (free_caches_ p);
  ok_subset x : x ∈ free_caches_ p → x ∈ all_caches_ p;
  ok_size : current_pool_size_ p = Z.of_nat (length (all_caches_ p));
  ok_max : current_pool_size_ p <= max_pool_size_ p <= UINT32_MAX;
  ok_store x : x ∈ all_caches_ p ↔ is_Some (caches p !! x);
  ok_fresh x : x ∈ all_caches_ p → (x < fresh p)%nat;
  ok_clean x c : x ∈ free_caches_ p → caches p !! x = Some c → clean c;
  ok_dynamic : memory_mode_ p = DYNAMIC_RESERVE_MEMORY_MODE → free_caches_ p = []
}.

(** The changes that have been handed out. *)
Definition in_use (p : CacheChangePool) (x : nat) : Prop := x ∈ all_caches_ p ∧ (x ∉ free_caches_ p).

Lemma create_one_ok p :
  pool_ok p → current_pool_size_ p < max_pool_size_ p →
  let '(ch, p') := create_one p in
  pool_ok p' ∧ ch = fresh p ∧ (∀ x, x ∈ all_caches_ p' ↔ x ∈ all_caches_ p ∨ x = ch) ∧
  free_caches_ p' = free_caches_ p ∧ max_pool_size_ p' = max_pool_size_ p ∧
  memory_mode_ p' = memory_mode_ p ∧ current_pool_size_ p' = current_pool_size_ p + 1 ∧
  caches p' !! ch = Some new_change.
Proof.
  intros [Ha Hf Hs Hsz Hm Hst Hfr Hcl Hdy] Hlt. unfold create_one. simpl.
  assert (Hnew : fresh p ∉ all_caches_ p) by (intros Hin; specialize (Hfr _ Hin); lia).
  assert (Hsize : u32 (current_pool_size_ p + 1) = current_pool_size_ p + 1)
    by (apply u32_small; range_unfold; lia).
  rewrite Hsize. split_and!; try done.
  - split; simpl; rewrite ?Hsize; try done.
    + by apply push_NoDup.
    + intros x Hx. apply elem_of_app. left. by apply Hs.
    + rewrite length_app. simpl. lia.
    + lia.
    + intros x. rewrite elem_of_app, list_elem_of_singleton, Hst. rewrite lookup_insert_is_Some.
      destruct (decide (fresh p = x)) as [->|]; [tauto|]. naive_solver.
    + intros x [Hx| ->%list_elem_of_singleton]%elem_of_app; [|lia]. specialize (Hfr _ Hx). lia.
    + intros x c Hx. rewrite lookup_insert_ne; [by apply Hcl|].
      intros <-. specialize (Hfr _ (Hs _ Hx)). lia.
  - intros x. rewrite elem_of_app, list_elem_of_singleton. done.
  - apply lookup_insert_eq.
Qed.

Lemma push_free_ok p ch c :
  pool_ok p → in_use p ch → caches p !! ch = Some c → clean c →
  memory_mode_ p ≠ DYNAMIC_RESERVE_MEMORY_MODE →
  pool_ok (push_free p ch) ∧ (∀ x, in_use (push_free p ch) x ↔ in_use p x ∧ x ≠ ch).
Proof.
  intros [Ha Hf Hs Hsz Hm Hst Hfr Hcl Hdy] [Hin Hno] Hc Hclean Hmode. split.
  - split; simpl; try done.
    + by apply push_NoDup.
    + intros x [Hx| ->%list_elem_of_singleton]%elem_of_app; auto.
    + intros x c' [Hx| ->%list_elem_of_singleton]%elem_of_app Hx'; [by eapply Hcl|]. by simplify_eq.
  - intros x. unfold in_use. simpl. rewrite elem_of_app, list_elem_of_singleton. tauto.
Qed.

Lemma new_change_clean : clean new_change.
Proof. by split. Qed.

Lemma reset_change_clean c : clean (reset_change c).
Proof. by split. Qed.

Lemma create_group_ok n : ∀ p,
  pool_ok p → memory_mode_ p ≠ DYNAMIC_RESERVE_MEMORY_MODE →
  current_pool_size_ p + Z.of_nat n <= max_pool_size_ p →
  pool_ok (create_group n p) ∧ (∀ x, in_use (create_group n p) x ↔ in_use p x) ∧
  length (free_caches_ (create_group n p)) = (length (free_caches_ p) + n)%nat.
Proof.
  induction n as [|n IH]; intros p Hok Hmode Hle; [split_and!; [done|done|simpl; lia]|].
  pose proof (create_one_ok p Hok ltac:(lia)) as Hone. cbn [create_group].
  destruct (create_one p) as [ch p1].
  destruct Hone as (Hok1 & -> & Hall & Hfree & Hmax & Hmd & Hcur & Hc).
  assert (Hnew : fresh p ∉ all_caches_ p)
    by (intros Hin; pose proof (ok_fresh p Hok _ Hin); lia).
  destruct (push_free_ok p1 (fresh p) new_change Hok1) as [Hok2 Huse2];
    [|done|apply new_change_clean| |].
  { split; [apply Hall; by right|]. rewrite Hfree. intros Hx. apply Hnew. by apply (ok_subset p Hok). }
  { by rewrite Hmd. }
  destruct (IH (push_free p1 (fresh p)) Hok2) as (Hok3 & Huse3 & Hlen3); [simpl; by rewrite Hmd|simpl; lia|].
  split; [done|]. split.
  - intros x. rewrite Huse3, Huse2. unfold in_use. rewrite Hall, Hfree. split; [tauto|].
    intros [Hx Hf]. split; [tauto|]. by intros ->.
  - rewrite Hlen3. simpl. rewrite length_app, Hfree. simpl. lia.
Qed.

Lemma allocateGroup_ok p n :
  pool_ok p → memory_mode_ p ≠ DYNAMIC_RESERVE_MEMORY_MODE →
  0 < n → current_pool_size_ p + n <= UINT32_MAX →
  let '(ok, p') := allocateGroup p n in
  pool_ok p' ∧ (∀ x, in_use p' x ↔ in_use p x) ∧
  (ok = false → current_pool_size_ p = max_pool_size_ p ∧ p' = p) ∧
  (ok = true → current_pool_size_ p < max_pool_size_ p ∧ free_caches_ p' ≠ []).
Proof.
  intros Hok Hmode Hn Hfit. pose proof (ok_max p Hok) as Hmax. pose proof (ok_size p Hok) as Hsz.
  unfold allocateGroup. rewrite (u32_small (current_pool_size_ p + n)) by (range_unfold; lia).
  rewrite (u32_small (max_pool_size_ p - current_pool_size_ p)) by (range_unfold; lia).
  assert (Hgroup : ∀ m, 0 < m → current_pool_size_ p + m <= max_pool_size_ p →
    let p' := create_group (Z.to_nat m) p in
    pool_ok p' ∧ (∀ x, in_use p' x ↔ in_use p x) ∧ free_caches_ p' ≠ []).
  { intros m Hm Hle. destruct (create_group_ok (Z.to_nat m) p Hok Hmode) as (? & ? & Hl); [lia|].
    split; [done|]. split; [done|]. intros Hnil. rewrite Hnil in Hl. simpl in Hl. lia. }
  destruct (Z.ltb_spec (max_pool_size_ p) (current_pool_size_ p + n)) as [Hlt|Hge].
  - destruct (Z.leb_spec (max_pool_size_ p - current_pool_size_ p) 0).
    + split; [done|]. split; [done|]. split; [|done]. intros _. split; [lia|done].
    + destruct (Hgroup (max_pool_size_ p - current_pool_size_ p)) as (? & ? & ?); [lia..|].
      split; [done|]. split; [done|]. split; [done|]. intros _. split; [lia|done].
  - destruct (Z.leb_spec n 0); [lia|].
    replace (current_pool_size_ p + n - current_pool_size_ p) with n by lia.
    destruct (Hgroup n) as (? & ? & ?); [lia..|].
    split; [done|]. split; [done|]. split; [done|]. intros _. split; [lia|done].
Qed.

Lemma pop_free_ok p :
  pool_ok p → free_caches_ p ≠ [] →
  ∃ ch, (pop_free p).1 = Some ch ∧ pool_ok (pop_free p).2 ∧ ch ∈ free_caches_ p ∧
    (∀ x, in_use (pop_free p).2 x ↔ in_use p x ∨ x = ch) ∧ (pop_free p).2.(caches) = caches p.
Proof.
  intros Hok Hne. pose proof Hok as [Ha Hf Hs Hsz Hm Hst Hfr Hcl Hdy].
  destruct (last (free_caches_ p)) as [ch|] eqn:Hl; [|by apply last_None in Hl].
  assert (Hin : ch ∈ free_caches_ p).
  { apply last_Some in Hl as [l' ->]. apply elem_of_app. right. by left. }
  unfold pop_free. rewrite Hl. exists ch. simpl.
  pose proof (λ y, pop_elem _ ch y Hl Hf) as Hpop. split; [done|]. split; [|split; [done|split; [|done]]].
  - split; simpl; try done.
    + by apply pop_NoDup with ch.
    + intros x [? _]%Hpop. auto.
    + intros x c [? _]%Hpop. by apply Hcl.
    + intros Hd. by rewrite (Hdy Hd).
  - intros x. unfold in_use. simpl. rewrite Hpop. specialize (Hs ch Hin).
    destruct (decide (x = ch)) as [->|]; [tauto|]. tauto.
Qed.

(** A change that was not in use and is clean, or no change because the pool has
    reached its limit. *)
Definition reserved (p : CacheChangePool) (r : option nat) (p' : CacheChangePool) : Prop :=
  match r with
  | Some ch => ¬ in_use p ch ∧ (∀ x, in_use p' x ↔ in_use p x ∨ x = ch) ∧
      ∃ c, caches p' !! ch = Some c ∧ clean c
  | None => free_caches_ p = [] ∧ current_pool_size_ p = max_pool_size_ p ∧ p' = p
  end.

Lemma reserve_spec p :
  pool_ok p → current_pool_size_ p <= 655250 →
  ∃ r p', reserve_cache p = Done (r, p') ∧ pool_ok p' ∧
    reserved p r p'.
Proof.
  intros Hok Hsmall. unfold reserve_cache.
  assert (Hpop : ∀ q, pool_ok q → free_caches_ q ≠ [] → (∀ x, in_use q x ↔ in_use p x) →
    ∃ r p', Done (pop_free q) = Done (r, p') ∧ pool_ok p' ∧
      reserved p r p').
  { intros q Hq Hne Huse. destruct (pop_free_ok q Hq Hne) as (ch & Hch & Hok' & Hin & Huse' & Hcs).
    destruct (pop_free q) as [r p']. simpl in *. subst r. exists (Some ch), p'. split; [done|].
    split; [done|]. unfold reserved. rewrite <- Huse. split; [by intros [_ ?]|].
    split; [intros x; by rewrite Huse', Huse|].
    destruct (proj1 (ok_store q Hq ch) (ok_subset q Hq _ Hin)) as [c Hc].
    exists c. rewrite Hcs. split; [done|]. by eapply (ok_clean q Hq). }
  destruct (decide (free_caches_ p = [])) as [Hnil|Hne]; [|by apply Hpop].
  pose proof (ok_size p Hok) as Hsz. pose proof (ok_max p Hok) as Hmax.
  assert (Hsingle : ∃ r p', Done (allocateSingle p) = Done (r, p') ∧ pool_ok p' ∧
      reserved p r p').
  { unfold allocateSingle. destruct (Z.ltb_spec (current_pool_size_ p) (max_pool_size_ p)).
    - pose proof (create_one_ok p Hok ltac:(lia)) as Hone. destruct (create_one p) as [ch p1].
      destruct Hone as (Hok1 & -> & Hall & Hfree & _ & _ & _ & Hc). exists (Some (fresh p)), p1.
      split; [done|]. split; [done|]. unfold reserved, in_use. rewrite Hfree, Hnil. split_and!.
      + intros [Hin _]. pose proof (ok_fresh p Hok _ Hin). lia.
      + intros x. rewrite Hall. pose proof (not_elem_of_nil x). tauto.
      + exists new_change. split; [done|apply new_change_clean].
    - exists None, p. split; [done|]. split; [done|]. split; [done|]. split; [lia|done]. }
  assert (Hgrow : memory_mode_ p ≠ DYNAMIC_RESERVE_MEMORY_MODE →
    ∃ r p', (n ← growth (current_pool_size_ p);
      let '(ok, p) := allocateGroup p n in mret (if ok : bool then pop_free p else (None, p))) =
        Done (r, p') ∧ pool_ok p' ∧
      reserved p r p').
  { intros Hmode. unfold growth.
    assert (Hg : 10 <= (current_pool_size_ p + 9) / 10 + 10 <= 65535)
      by (Z.to_euclidean_division_equations; lia).
    destruct (Z.leb_spec ((current_pool_size_ p + 9) / 10 + 10) UINT16_MAX); [|range_unfold; lia].
    cbn [mbind outcome_bind].
    set (n := (current_pool_size_ p + 9) / 10 + 10) in *.
    pose proof (allocateGroup_ok p n Hok Hmode ltac:(lia) ltac:(range_unfold; lia)) as Hag.
    destruct (allocateGroup p n) as [[|] p1]; destruct Hag as (Hok1 & Huse1 & Hf & Ht).
    - apply Hpop; [done|by apply Ht|done].
    - destruct (Hf eq_refl) as [? ->]. by exists None, p. }
  destruct (memory_mode_ p) eqn:Hmode; done || (by apply Hgrow).
Qed.

Lemma NoDup_insert_last (l : list nat) i x :
  NoDup l → l !! i = Some x →
  let l' := swap_remove l i in
  NoDup l' ∧ (∀ y, y ∈ l' ↔ y ∈ l ∧ y ≠ x) ∧ length l' = (length l - 1)%nat.
Proof.
  intros Hnd Hi. unfold swap_remove. pose proof (lookup_lt_Some _ _ _ Hi) as Hlt.
  destruct (last l) as [z|] eqn:Hl; [|apply last_None in Hl; subst; done].
  apply last_Some in Hl as [k ->]. rewrite length_app in *. simpl in *.
  replace (length k + 1 - 1)%nat with (length k) by lia.
  apply NoDup_app in Hnd as (Hk & Hno & _).
  assert (Hz : z ∉ k) by (intros Hz; apply (Hno z Hz); by left).
  destruct (decide (i < length k)%nat) as [Hik|Hik].
  - rewrite lookup_app_l in Hi by done.
    rewrite insert_app_l, take_app_length' by (rewrite ?length_insert; done).
    split; [|split; [|rewrite length_insert; lia]].
    + apply NoDup_alt. intros a b y Ha Hb. rewrite NoDup_alt in Hk.
      rewrite list_lookup_insert_Some in Ha, Hb.
      destruct Ha as [(-> & <- & _)|[? Ha]], Hb as [(-> & Heq & _)|[? Hb]]; try done; [| |by eapply Hk].
      * apply list_elem_of_lookup_2 in Hb. done.
      * subst. by apply list_elem_of_lookup_2 in Ha.
    + intros y. rewrite elem_of_app, list_elem_of_singleton. rewrite !list_elem_of_lookup. split.
      * intros [a Ha]. rewrite list_lookup_insert_Some in Ha.
        destruct Ha as [(-> & <- & _)|[Hne Ha]].
        -- split; [by right|]. intros ->. apply Hz. by eapply list_elem_of_lookup_2.
        -- split; [left; by exists a|]. intros ->. apply Hne. rewrite NoDup_alt in Hk. by eapply Hk.
      * intros [[[a Ha]| ->] Hne].
        -- exists a. rewrite list_lookup_insert_ne; [done|]. intros ->. congruence.
        -- exists i. by rewrite list_lookup_insert_eq.
  - assert (i = length k) as -> by lia. rewrite lookup_app_r, Nat.sub_diag in Hi by lia.
    simpl in Hi. injection Hi as ->. rewrite insert_app_r_alt, Nat.sub_diag by lia. simpl.
    rewrite take_app_length. split; [done|]. split; [|lia].
    intros y. rewrite elem_of_app, list_elem_of_singleton. split; [|tauto].
    intros Hy. split; [by left|]. by intros ->.
Qed.

Lemma release_spec ndebug p ch :
  pool_ok p → in_use p ch →
  ∃ p', release_cache ndebug p ch = Done (true, p') ∧ pool_ok p' ∧
    ∀ x, in_use p' x ↔ in_use p x ∧ x ≠ ch.
Proof.
  intros Hok Huse. pose proof Hok as [Ha Hf Hs Hsz Hm Hst Hfr Hcl Hdy]. pose proof Huse as [Hin Hno].
  destruct (proj1 (Hst ch) Hin) as [c Hc].
  assert (Hret : memory_mode_ p ≠ DYNAMIC_RESERVE_MEMORY_MODE →
    ∃ p', (p' ← return_cache_to_pool ndebug p ch; mret (true, p')) = Done (true, p') ∧ pool_ok p' ∧
      ∀ x, in_use p' x ↔ in_use p x ∧ x ≠ ch).
  { intros Hmode. unfold return_cache_to_pool. rewrite Hc, assert_true by (by apply bool_decide_true).
    cbn [mbind outcome_bind]. eexists. split; [done|].
    match goal with |- context [push_free ?q ch] => set (q0 := q) end.
    apply (push_free_ok q0 ch (reset_change c)); [|done|apply lookup_insert_eq|apply reset_change_clean|done].
    split; simpl; try done.
    - intros x. rewrite lookup_insert_is_Some, Hst. destruct (decide (ch = x)) as [<-|]; naive_solver.
    - intros x c' Hx Hx'. rewrite lookup_insert_ne in Hx' by congruence. by eapply Hcl. }
  unfold release_cache. destruct (memory_mode_ p) eqn:Hmode; try (by apply Hret).
  destruct (list_find (λ x, x = ch) (all_caches_ p)) as [[i y]|] eqn:Hfind.
  2: { apply list_find_None in Hfind. rewrite Forall_forall in Hfind. by destruct (Hfind ch Hin). }
  apply list_find_Some in Hfind as (Hi & -> & _).
  destruct (NoDup_insert_last _ i ch Ha Hi) as (Hnd & Helem & Hlen).
  assert (Hpos : (0 < length (all_caches_ p))%nat) by (apply lookup_lt_Some in Hi; lia).
  assert (Hu : u32 (current_pool_size_ p - 1) = current_pool_size_ p - 1)
    by (apply u32_small; range_unfold; lia).
  eexists. split; [done|]. rewrite Hu. split.
  - split; simpl; try done; try lia.
    + intros x Hx. rewrite (Hdy eq_refl) in Hx. by apply not_elem_of_nil in Hx.
    + intros x. rewrite Helem, Hst, lookup_delete_is_Some. naive_solver.
    + intros x [? _]%Helem. auto.
    + intros x c' Hx. rewrite (Hdy eq_refl) in Hx. by apply not_elem_of_nil in Hx.
  - intros x. unfold in_use. simpl. rewrite Helem. tauto.
Qed.

Lemma init_ok config :
  0 <= initial_size config <= UINT32_MAX → 0 <= maximum_size config <= UINT32_MAX →
  pool_ok (init config) ∧ ∀ x, ¬ in_use (init config) x.
Proof.
  intros Hi Hm. unfold init.
  set (limit := if 0 <? maximum_size config then _ else UINT32_MAX).
  assert (Hlim : 0 < limit <= UINT32_MAX) by (unfold limit; bool_case; range_unfold; lia).
  set (p := mkPool _ 0 limit _ _ _ _).
  assert (Hp : pool_ok p).
  { split; simpl; [constructor|constructor|done|done|lia| | | |done].
    - intros x. rewrite elem_of_nil. split; [done|]. intros [c Hc]. by rewrite lookup_empty in Hc.
    - intros x Hx. by apply not_elem_of_nil in Hx.
    - intros x c Hx. by apply not_elem_of_nil in Hx. }
  assert (Hno : ∀ x, ¬ in_use p x) by (intros x [Hx _]; by apply not_elem_of_nil in Hx).
  assert (Hgroup : memory_mode_ p ≠ DYNAMIC_RESERVE_MEMORY_MODE →
    let q := (allocateGroup p (if initial_size config =? 0 then 1 else initial_size config)).2 in
    pool_ok q ∧ ∀ x, ¬ in_use q x).
  { intros Hmode. pose proof (allocateGroup_ok p (if initial_size config =? 0 then 1 else initial_size config)
      Hp Hmode) as Hag. destruct (allocateGroup p _) as [ok q].
    destruct Hag as (Hok & Huse & _); [bool_case; lia|simpl; bool_case; range_unfold; lia|].
    split; [done|]. intros x. rewrite Huse. apply Hno. }
  destruct (memory_policy config) eqn:Hpol; done || (by apply Hgroup).
Qed.

(** A pool of changes hands out only changes that are not in use, with the
    fields of a new change, and refuses only at its limit; a change that is given
    back is no longer in use; nothing else changes hands. *)
Theorem change_pool_contract ndebug p :
  pool_ok p →
  (current_pool_size_ p <= 655250 →
    ∃ r p', reserve_cache p = Done (r, p') ∧ pool_ok p' ∧ reserved p r p') ∧
  (∀ ch, in_use p ch → ∃ p', release_cache ndebug p ch = Done (true, p') ∧ pool_ok p' ∧
    ∀ x, in_use p' x ↔ in_use p x ∧ x ≠ ch).
Proof. intros Hok. split; [by apply reserve_spec|]. intros ch. by apply release_spec. Qed.

Definition small_pool : CacheChangePool :=
  init (mkConfig PREALLOCATED_MEMORY_MODE 100 2 4).

Lemma small_pool_ok : pool_ok small_pool.
Proof. apply init_ok; simpl; range_unfold; lia. Qed.

Lemma change_pool_contract_witness :
  (current_pool_size_ small_pool <= 655250 →
    ∃ r p', reserve_cache small_pool = Done (r, p') ∧ pool_ok p' ∧ reserved small_pool r p') ∧
  (∀ ch, in_use small_pool ch → ∃ p', release_cache false small_pool ch = Done (true, p') ∧
    pool_ok p' ∧ ∀ x, in_use p' x ↔ in_use small_pool x ∧ x ≠ ch).
Proof. apply (change_pool_contract false small_pool). apply small_pool_ok. Defined.
End ChangePoolFacts.

Module PayloadPoolFacts.
Import PayloadPool.

(** The pool is consistent with [held], how many changes refer to each payload:
    the counters are these numbers, every node knows its place in
    [all_payloads_], and the free payloads are those nobody refers to, apart from
    [pending], which is being handed out or taken back. *)
Record payload_ok (p : TopicPayloadPool) (held : nat → Z) (pending : option nat) : Prop := {
  po_all : NoDup (all_payloads_ p);
  po_free : NoDup (free_payloads_ p);
  po_nodes id : id ∈ all_payloads_ p ↔ is_Some (nodes p !! id);
  po_index i id n : all_payloads_ p !! i = Some id → nodes p !! id = Some n → data_index n = Z.of_nat i;
  po_count id n : nodes p !! id = Some n → ref_counter n = held id ∧ 0 <= data_size n <= room n;
  po_held id : 0 <= held id < 2 ^ 32 - 1;
  po_gone id : (id ∉ all_payloads_ p) → held id = 0;
  po_unused id : id ∈ free_payloads_ p ↔ id ∈ all_payloads_ p ∧ held id = 0 ∧ pending ≠ Some id;
  po_fresh id : id ∈ all_payloads_ p → (id < fresh p)%nat;
  po_size : 0 <= payload_size_ p;
  po_length : Z.of_nat (length (all_payloads_ p)) <= UINT32_MAX
}.

Definition upd (held : nat → Z) (id : nat) (v : Z) (x : nat) : Z :=
  if decide (x = id) then v else held x.

Lemma ok_node p held pending id :
  payload_ok p held pending → id ∈ all_payloads_ p →
  ∃ n, nodes p !! id = Some n ∧ ref_counter n = held id.
Proof.
  intros Hok Hin. destruct (proj1 (po_nodes _ _ _ Hok id) Hin) as [n Hn]. exists n.
  split; [done|]. by apply (po_count _ _ _ Hok id n).
Qed.

(** Changing the counter of a node, or its size. *)
Lemma ok_update p held pending pending' id n n' :
  payload_ok p held pending → nodes p !! id = Some n → data_index n' = data_index n →
  0 <= data_size n' <= room n' → 0 <= ref_counter n' < 2 ^ 32 - 1 →
  (∀ x, x ∈ all_payloads_ p →
    (held x = 0 ∧ pending ≠ Some x) ↔ (upd held id (ref_counter n') x = 0 ∧ pending' ≠ Some x)) →
  payload_ok (with_nodes p (<[id := n']> (nodes p))) (upd held id (ref_counter n')) pending'.
Proof.
  intros [Ha Hf Hn Hi Hc Hh Hg Hu Hfr Hps Hle] Hid Hidx Hsz Hr Hfree.
  assert (Hin : id ∈ all_payloads_ p) by (apply Hn; by exists n).
  split; simpl; try done.
  - intros x. rewrite Hn, lookup_insert_is_Some. destruct (decide (id = x)) as [<-|]; naive_solver.
  - intros i x m Hx. rewrite lookup_insert_Some. intros [[<- <-]|[? Hm]]; [|by eapply Hi].
    rewrite Hidx. by eapply Hi.
  - intros x m. rewrite lookup_insert_Some. unfold upd.
    intros [[<- <-]|[? Hm]]; [by rewrite decide_True|]. rewrite decide_False by done. by apply Hc.
  - intros x. unfold upd. case_decide; [done|apply Hh].
  - intros x Hx. unfold upd. rewrite decide_False; [by apply Hg|]. by intros ->.
  - intros x. rewrite Hu. specialize (Hfree x). tauto.
Qed.

Lemma take_payload_ok p held size :
  payload_ok p held None → 0 <= size → Z.of_nat (length (all_payloads_ p)) < UINT32_MAX →
  match take_payload p size with
  | Some (id, p') =>
      payload_ok p' held (Some id) ∧ held id = 0 ∧ id ∈ all_payloads_ p' ∧ policy p' = policy p ∧
      (free_payloads_ p = [] → ∃ n, nodes p' !! id = Some n ∧ data_size n = size)
  | None => free_payloads_ p = [] ∧ max_pool_size_ p <= Z.of_nat (length (all_payloads_ p))
  end.
Proof.
  intros Hok Hsize Hlen. pose proof Hok as [Ha Hf Hn Hi Hc Hh Hg Hu Hfr Hps Hle].
  unfold take_payload. destruct (last (free_payloads_ p)) as [id|] eqn:Hl.
  - assert (Hin : id ∈ free_payloads_ p).
    { apply last_Some in Hl as [k ->]. apply elem_of_app. right. by left. }
    destruct (proj1 (Hu id) Hin) as (Hall & Hz & _).
    split; [|split; [done|split; [done|split; [done|]]]].
    + split; simpl; try done; [by apply pop_NoDup with id|]. intros x.
      rewrite (pop_elem _ id x Hl Hf), Hu. split; [intros [? ?]|intros (? & ? & ?)]; split_and!; try tauto; congruence.
    + intros Hnil. by rewrite Hnil in Hl.
  - apply last_None in Hl. unfold allocate.
    destruct (Z.leb_spec (max_pool_size_ p) (Z.of_nat (length (all_payloads_ p)))); [done|].
    simpl. rewrite u32_small by (range_unfold; lia).
    assert (Hnew : fresh p ∉ all_payloads_ p) by (intros Hx; specialize (Hfr _ Hx); lia).
    split; [|split; [by apply Hg|split; [apply elem_of_app; right; by left|split; [done|]]]].
    + split; simpl; try done.
      * by apply push_NoDup.
      * intros x. rewrite elem_of_app, list_elem_of_singleton, Hn, lookup_insert_is_Some.
        destruct (decide (fresh p = x)) as [->|]; naive_solver.
      * intros i x n. rewrite lookup_snoc_Some, lookup_insert_Some.
        intros [[? Hx]|[-> <-]] [[Hq <-]|[? Hm]]; try done; [|by eapply Hi].
        subst x. apply list_elem_of_lookup_2 in Hx. done.
      * intros x n. rewrite lookup_insert_Some. intros [[<- <-]|[? Hm]]; [|by apply Hc].
        simpl. rewrite Hg by done. split; [done|]. bool_case; lia.
      * intros x Hx. apply Hg. intros Hx'. apply Hx, elem_of_app. by left.
      * intros x. rewrite Hu, elem_of_app, list_elem_of_singleton. split.
        -- intros (? & ? & _). split; [by left|]. split; [done|]. intros [= Hq]. by subst x.
        -- intros ([?|Hq] & ? & Hne); [done|]. subst x. by destruct Hne.
      * intros x [Hx| ->%list_elem_of_singleton]%elem_of_app; [|lia]. specialize (Hfr _ Hx). lia.
      * rewrite length_app. simpl. lia.
    + intros _. exists (new_node size (Z.of_nat (length (all_payloads_ p)))).
      by rewrite lookup_insert_eq.
Qed.

Lemma upd_same held id : ∀ x, upd held id (held id) x = held x.
Proof. intros x. unfold upd. by case_decide; subst. Qed.

Lemma payload_ok_ext p held held' pending :
  (∀ x, held x = held' x) → payload_ok p held pending → payload_ok p held' pending.
Proof.
  intros Heq [Ha Hf Hn Hi Hc Hh Hg Hu Hfr Hps Hle]. split; try done; intros; rewrite <- ?Heq; auto.
Qed.

Lemma grow_ok memory p held id size resizeable :
  payload_ok p held (Some id) → id ∈ all_payloads_ p → 0 <= size →
  (∃ p' n', grow memory p id size resizeable = Done (true, p') ∧ payload_ok p' held (Some id) ∧
    all_payloads_ p' = all_payloads_ p ∧ policy p' = policy p ∧ nodes p' !! id = Some n' ∧
    (resizeable = true → size <= data_size n') ∧
    (∀ n, nodes p !! id = Some n → data_size n <= data_size n')) ∨
  memory = false ∧ resizeable = true ∧ grow memory p id size resizeable =
    Done (false, with_payloads p (free_payloads_ p ++ [id]) (all_payloads_ p) (nodes p)).
Proof.
  intros Hok Hin Hsize. destruct (ok_node _ _ _ _ Hok Hin) as (n & Hn & Hcount).
  unfold grow. rewrite Hn.
  destruct (resizeable && (data_size n <? size)) eqn:Hb.
  - apply andb_true_iff in Hb as [-> Hb%Z.ltb_lt]. destruct memory; [left|by right]. eexists _, (resize n size). split; [done|].
    split; [|split; [done|split; [done|split; [apply lookup_insert_eq|]]]].
    + apply payload_ok_ext with (upd held id (held id)); [apply upd_same|].
      rewrite <- Hcount. change (ref_counter n) with (ref_counter (resize n size)).
      apply ok_update with (Some id) n; try done; [simpl; rewrite Hcount; apply Hok|].
      intros x Hx. simpl. by rewrite Hcount, upd_same.
    + split; [done|]. intros n0 Hn0. simplify_eq. simpl. lia.
  - left. exists p, n. split; [done|]. split; [done|]. split; [done|]. split; [done|]. split; [done|].
    split; [intros ->; simpl in Hb; apply Z.ltb_ge in Hb; lia|]. intros n0 Hn0. simplify_eq. lia.
Qed.

Lemma reference_ok p held pending id :
  payload_ok p held pending → id ∈ all_payloads_ p → held id + 1 < 2 ^ 32 - 1 →
  (pending = Some id ∨ pending = None ∧ 0 < held id) →
  ∃ p' n', reference p id = Done p' ∧ payload_ok p' (upd held id (held id + 1)) None ∧
    all_payloads_ p' = all_payloads_ p ∧ policy p' = policy p ∧ nodes p' !! id = Some n' ∧
    (∀ n, nodes p !! id = Some n → data_size n' = data_size n).
Proof.
  intros Hok Hin Hmax Hpend. destruct (ok_node _ _ _ _ Hok Hin) as (n & Hn & Hcount).
  unfold reference. rewrite Hn. pose proof (po_held _ _ _ Hok id).
  eexists _, (with_count n (u32 (ref_counter n + 1))). split; [done|].
  assert (Hu : u32 (ref_counter n + 1) = held id + 1)
    by (rewrite Hcount; apply u32_small; range_unfold; lia).
  split; [|split; [done|split; [done|split; [apply lookup_insert_eq|by intros; simplify_eq]]]].
  rewrite Hu. change (held id + 1) with (ref_counter (with_count n (held id + 1))) at 2.
  apply ok_update with pending n; try done; simpl; [by apply (po_count _ _ _ Hok id)|lia|].
  intros x Hx. unfold upd. case_decide as Hxi.
  - subst x. split; [intros [? ?]|lia]. destruct Hpend as [?|[_ ?]]; [done|lia].
  - split; [intros [? ?]; done|]. intros [? _]. split; [done|]. destruct Hpend as [->|[-> _]]; congruence.
Qed.

Lemma dereference_ok p held id :
  payload_ok p held None → 0 < held id →
  ∃ p', dereference p id = Done (bool_decide (held id = 1), p') ∧
    payload_ok p' (upd held id (held id - 1)) (if decide (held id = 1) then Some id else None) ∧
    all_payloads_ p' = all_payloads_ p ∧ policy p' = policy p.
Proof.
  intros Hok Hpos. assert (Hin : id ∈ all_payloads_ p).
  { apply dec_stable. intros Hno. pose proof (po_gone _ _ _ Hok id Hno). lia. }
  destruct (ok_node _ _ _ _ Hok Hin) as (n & Hn & Hcount). unfold dereference. rewrite Hn.
  pose proof (po_held _ _ _ Hok id).
  assert (Hu : u32 (ref_counter n - 1) = held id - 1)
    by (rewrite Hcount; apply u32_small; range_unfold; lia).
  assert (Hb : (ref_counter n =? 1) = bool_decide (held id = 1)).
  { rewrite Hcount. destruct (Z.eqb_spec (held id) 1); case_bool_decide; done. }
  eexists. rewrite Hb. split; [done|]. split; [|done].
  - rewrite Hu. change (held id - 1) with (ref_counter (with_count n (held id - 1))) at 2.
    apply ok_update with None n; try done; simpl; [by apply (po_count _ _ _ Hok id)|lia|].
    intros x Hx. unfold upd. destruct (decide (held id = 1)) as [Hone|Hone], (decide (x = id)) as [->|Hne].
    + split; [lia|]. intros [_ ?]. done.
    + split; intros [? _]; (split; [done|congruence]).
    + split; lia.
    + split; intros [? _]; done.
Qed.

Lemma give_back_ok p held id :
  payload_ok p held (Some id) → id ∈ all_payloads_ p → held id = 0 →
  payload_ok (with_payloads p (free_payloads_ p ++ [id]) (all_payloads_ p) (nodes p)) held None.
Proof.
  intros [Ha Hf Hn Hi Hc Hh Hg Hu Hfr Hps Hle] Hin Hz. split; simpl; try done.
  - apply push_NoDup; [done|]. intros (_ & _ & ?)%Hu. done.
  - intros x. rewrite elem_of_app, list_elem_of_singleton, Hu. split.
    + intros [(? & ? & _)| ->]; done.
    + intros (? & ? & _). destruct (decide (x = id)); [by right|]. left. split_and!; congruence.
Qed.

Lemma swap_remove_lookup (l : list nat) i j x y :
  NoDup l → last l = Some x → (i < length l)%nat → ChangePool.swap_remove l i !! j = Some y →
  (j < length l - 1)%nat ∧ (j = i ∧ y = x ∨ j ≠ i ∧ l !! j = Some y ∧ y ≠ x).
Proof.
  intros Hnd Hl Hi. unfold ChangePool.swap_remove. rewrite Hl, lookup_take_Some, list_lookup_insert_Some.
  intros [[(-> & -> & _)|[Hne Hj]] Hlt]; [by auto|]. split; [done|]. right. split; [done|].
  split; [done|]. intros ->. rewrite last_lookup in Hl.
  rewrite NoDup_alt in Hnd. specialize (Hnd _ _ _ Hl Hj). lia.
Qed.

(** Taking a payload that nobody refers to out of the pool. *)
Lemma drop_ok p held id :
  payload_ok p held (Some id) → id ∈ all_payloads_ p → held id = 0 →
  ∃ i p', index_of p id = Done i ∧ all_payloads_ p !! Z.to_nat i = Some id ∧
    replace_by_last p i = Done p' ∧ payload_ok (delete_node p' id) held None ∧
    (length (all_payloads_ p') = length (all_payloads_ p) - 1)%nat ∧
    free_payloads_ p' = free_payloads_ p ∧ policy p' = policy p.
Proof.
  intros Hok Hin Hz. pose proof Hok as [Ha Hf Hn Hi Hc Hh Hg Hu Hfr Hps Hle].
  destruct (ok_node _ _ _ _ Hok Hin) as (n & Hn' & _).
  apply list_elem_of_lookup in Hin as Hpos. destruct Hpos as [k Hk].
  pose proof (lookup_lt_Some _ _ _ Hk) as Hlt.
  assert (Hidx : data_index n = Z.of_nat k) by (by eapply Hi).
  destruct (last (all_payloads_ p)) as [l|] eqn:Hl; [|apply last_None in Hl; rewrite Hl in Hlt; simpl in Hlt; lia].
  assert (Hlin : l ∈ all_payloads_ p).
  { apply last_Some in Hl as [q ->]. apply elem_of_app. right. by left. }
  destruct (ok_node _ _ _ _ Hok Hlin) as (m & Hm & Hmc).
  exists (data_index n). unfold index_of. rewrite Hn', Hidx, Nat2Z.id.
  eexists. split; [done|]. split; [done|]. unfold replace_by_last. rewrite Hl, Nat2Z.id, Hk, Hm.
  split; [done|]. rewrite length_insert.
  pose proof (ChangePoolFacts.NoDup_insert_last _ k id Ha Hk) as Hswap.
  assert (Hsr : take (length (all_payloads_ p) - 1) (<[k:=l]> (all_payloads_ p)) =
    ChangePool.swap_remove (all_payloads_ p) k) by (unfold ChangePool.swap_remove; by rewrite Hl).
  rewrite Hsr. destruct Hswap as (Hnd & Helem & Hlen). split; [|split; [exact Hlen|split; done]].
  split; simpl; try done.
  - intros x. rewrite Helem, Hn, lookup_delete_is_Some, lookup_insert_is_Some.
    destruct (decide (l = x)) as [<-|]; naive_solver.
  - intros j x q Hj. rewrite lookup_delete_Some, lookup_insert_Some. intros [Hx Hq].
    destruct (swap_remove_lookup _ _ _ _ _ Ha Hl Hlt Hj) as [_ [[-> ->]|(Hne & Hj' & Hxl)]].
    + destruct Hq as [[_ <-]|[? _]]; [done|done].
    + destruct Hq as [[? _]|[_ Hq]]; [done|]. by eapply Hi.
  - intros x q. rewrite lookup_delete_Some, lookup_insert_Some.
    intros [Hx [[<- <-]|[_ Hq]]]; [|by apply Hc]. simpl. by apply Hc.
  - intros x Hx. destruct (decide (x = id)) as [->|]; [done|]. apply Hg. intros Hx'. apply Hx, Helem. done.
  - intros x. rewrite Hu, Helem. split.
    + intros (? & ? & Hne). split_and!; try done. intros ->. done.
    + intros ([? ?] & ? & _). split_and!; try done. congruence.
  - intros x [? _]%Helem. auto.
  - rewrite Hlen. lia.
Qed.

Lemma do_get_payload_ok memory p held size resizeable :
  payload_ok p held None → 0 <= size → Z.of_nat (length (all_payloads_ p)) < UINT32_MAX →
  ∃ r p', do_get_payload memory p size resizeable = Done (r, p') ∧
    match r with
    | Some (id, got) => held id = 0 ∧ payload_ok p' (upd held id 1) None ∧ policy p' = policy p ∧
        (resizeable = true ∨ free_payloads_ p = [] → size <= got)
    | None => payload_ok p' held None ∧
        (memory = true → p' = p ∧ free_payloads_ p = [] ∧ max_pool_size_ p <= Z.of_nat (length (all_payloads_ p)))
    end.
Proof.
  intros Hok Hsize Hlen. unfold do_get_payload.
  pose proof (take_payload_ok p held size Hok Hsize Hlen) as Htake.
  destruct (take_payload p size) as [[id p1]|]; [|by exists None, p].
  destruct Htake as (Hok1 & Hz & Hin1 & Hpol1 & Hnew).
  destruct (grow_ok memory p1 held id size resizeable Hok1 Hin1 Hsize)
    as [(p2 & n2 & -> & Hok2 & Hall2 & Hpol2 & Hn2 & Hsz2 & Hkeep2)|(-> & _ & ->)]; cbn [mbind outcome_bind].
  2: { eexists None, _. split; [done|]. split; [by apply give_back_ok|done]. }
  destruct (reference_ok p2 held (Some id) id Hok2) as (p3 & n3 & -> & Hok3 & _ & Hpol3 & Hn3 & Hsz3);
    [by rewrite Hall2|rewrite Hz; range_unfold; lia|by left|].
  cbn [mbind outcome_bind]. unfold size_of. rewrite Hn3. cbn [mbind outcome_bind].
  eexists _, _. split; [done|]. split; [done|]. rewrite Hz in Hok3. split; [done|].
  split; [congruence|]. rewrite (Hsz3 _ Hn2). intros [->|Hnil]; [by apply Hsz2|].
  destruct (Hnew Hnil) as (n & Hn & <-). by apply Hkeep2.
Qed.

(** Whether a pool can always satisfy the size asked for. *)
Definition sized (p : TopicPayloadPool) : Prop := policy p ≠ PREALLOCATED_MEMORY_MODE.

Lemma get_payload_ok memory p held size :
  payload_ok p held None → 0 <= size →
  Z.of_nat (length (all_payloads_ p)) < UINT32_MAX →
  ∃ r p', get_payload memory p size = Done (r, p') ∧
    match r with
    | Some (id, got) => held id = 0 ∧ payload_ok p' (upd held id 1) None ∧ policy p' = policy p ∧
        (sized p → size <= got)
    | None => payload_ok p' held None ∧
        (memory = true → p' = p ∧ free_payloads_ p = [] ∧ max_pool_size_ p <= Z.of_nat (length (all_payloads_ p)))
    end.
Proof.
  intros Hok Hsize Hlen. pose proof (po_size _ _ _ Hok) as Hps. unfold get_payload, sized.
  destruct (policy p) eqn:Hpol;
    [destruct (do_get_payload_ok memory p held (payload_size_ p) false Hok Hps Hlen) as (r & p' & -> & Hr)
    |destruct (do_get_payload_ok memory p held (Z.max size (payload_size_ p)) true Hok ltac:(lia) Hlen)
       as (r & p' & -> & Hr)
    |destruct (do_get_payload_ok memory p held size true Hok Hsize Hlen) as (r & p' & -> & Hr)..];
    exists r, p'; (split; [done|]); destruct r as [[id got]|]; try done;
    destruct Hr as (Hz & Hok' & Hpol' & Hgot);
    (split; [done|]); (split; [done|]); (split; [congruence|]); intros Hs; try done;
    specialize (Hgot (or_introl eq_refl)); lia.
Qed.

Lemma upd_twice held id v w : ∀ x, upd (upd held id v) id w x = upd held id w x.
Proof. intros x. unfold upd. by case_decide. Qed.

Lemma upd_at held id v : upd held id v id = v.
Proof. unfold upd. by rewrite decide_True. Qed.

Lemma release_payload_ok p held id :
  payload_ok p held None → 0 < held id →
  ∃ p', release_payload p id = Done p' ∧ payload_ok p' (upd held id (held id - 1)) None.
Proof.
  intros Hok Hpos. assert (Hin : id ∈ all_payloads_ p).
  { apply dec_stable. intros Hno. pose proof (po_gone _ _ _ Hok id Hno). lia. }
  unfold release_payload.
  destruct (dereference_ok p held id Hok Hpos) as (p1 & -> & Hok1 & Hall1 & Hpol1).
  cbn [mbind outcome_bind]. case_bool_decide as Hone; [|by rewrite decide_False in Hok1; [exists p1|]].
  rewrite decide_True in Hok1 by done. rewrite <- Hall1 in Hin.
  assert (Hz : upd held id (held id - 1) id = 0) by (rewrite upd_at; lia).
  destruct (drop_ok p1 _ id Hok1 Hin Hz) as (i & p2 & -> & Hi & Hrep & Hok2 & _).
  cbn [mbind outcome_bind]. rewrite Hi. case_decide.
  - rewrite Hrep. cbn [mbind outcome_bind]. by eexists.
  - eexists. split; [done|]. by apply give_back_ok.
Qed.

(** The change has a writer and a number. *)
Definition named (g : Guid.GUID_t) (n : SN.SequenceNumber_t) : Prop :=
  Guid.eqb g Guid.c_Guid_Unknown = false ∧ SN.neqb n SN.unknown = true.

(** The payload a change shares with the data it is made from. *)
Lemma get_payload_for_ok ndebug memory p held g n len id owner :
  payload_ok p held None → 0 <= len → named g n →
  Z.of_nat (length (all_payloads_ p)) < UINT32_MAX →
  (owner = This → 0 < held id ∧ held id + 1 < 2 ^ 32 - 1) →
  ∃ r d p', get_payload_for ndebug memory p g n len id owner = Done (r, d, p') ∧
    match r with
    | Some (new, _) =>
        (if decide (owner = This) then new = id else held new = 0) ∧
        payload_ok p' (upd held new (held new + if decide (owner = Nobody) then 2 else 1)) None ∧
        (if decide (owner = Another) then d = (id, Another) else d = (new, This))
    | None => payload_ok p' held None ∧ d = (id, owner) ∧ owner ≠ This
    end.
Proof.
  intros Hok Hlen [Hgk Hnk] Hcap Hthis. unfold get_payload_for. rewrite Hgk, Hnk, !assert_true by done. cbn [mbind outcome_bind].
  destruct (decide (owner = This)) as [->|Hot].
  { destruct (Hthis eq_refl) as [Hpos Hmax]. assert (Hin : id ∈ all_payloads_ p).
    { apply dec_stable. intros Hno. pose proof (po_gone _ _ _ Hok id Hno). lia. }
    destruct (reference_ok p held None id Hok Hin Hmax) as (p1 & n1 & -> & Hok1 & _ & _ & Hn1 & _);
      [by right|]. cbn [mbind outcome_bind]. unfold size_of. rewrite Hn1. cbn [mbind outcome_bind].
    eexists (Some _), _, p1. split; [done|]. by rewrite !decide_False by done. }
  destruct (get_payload_ok memory p held len Hok Hlen Hcap) as (r & p1 & Hget & Hr).
  assert (Hrest : ∃ r' d p', (match r with
      | None => mret (None, (id, owner), p1)
      | Some (new, size) =>
          if size <? len then p ← release_payload p1 new; mret (None, (id, owner), p)
          else match owner with
          | Nobody => p ← reference p1 new; mret (Some (new, size), (new, This), p)
          | _ => mret (Some (new, size), (id, owner), p1)
          end
      end : outcome _) = Done (r', d, p') ∧
    match r' with
    | Some (new, _) => held new = 0 ∧
        payload_ok p' (upd held new (held new + if decide (owner = Nobody) then 2 else 1)) None ∧
        (if decide (owner = Another) then d = (id, Another) else d = (new, This))
    | None => payload_ok p' held None ∧ d = (id, owner) ∧ owner ≠ This
    end).
  { destruct r as [[new size]|]; [|destruct Hr as (Hr & _); by eexists None, _, p1].
    destruct Hr as (Hz & Hok1 & _ & _). destruct (Z.ltb_spec size len).
    - destruct (release_payload_ok p1 _ new Hok1) as (p2 & -> & Hok2); [rewrite upd_at; lia|].
      eexists None, _, p2. split; [done|]. split; [|done].
      apply payload_ok_ext with (2 := Hok2). intros x. rewrite upd_twice, upd_at. unfold upd.
      case_decide; [subst|done]. lia.
    - destruct owner; [|done|].
      + destruct (reference_ok p1 _ None new Hok1) as (p2 & n2 & -> & Hok2 & _);
          [|rewrite upd_at; range_unfold; lia|right; by rewrite upd_at|].
        { apply dec_stable. intros Hno. pose proof (po_gone _ _ _ Hok1 new Hno) as Hg.
          rewrite upd_at in Hg. lia. }
        eexists (Some _), _, p2. split; [done|]. split; [done|].
        rewrite decide_True, decide_False by done. split; [|done].
        apply payload_ok_ext with (2 := Hok2). intros x. rewrite upd_twice, upd_at, Hz. done.
      + eexists (Some _), _, p1. split; [done|]. split; [done|].
        rewrite decide_False, decide_True by done. split; [|done]. by rewrite Hz. }
  destruct Hrest as (r' & d & p' & Heq & Hres). exists r', d, p'. split; [|done].
  rewrite <- Heq, Hget. destruct owner; destruct r as [[? ?]|]; done.
Qed.

(** ** Histories coming and going *)

Lemma with_limits_ok p held minimum max infinite finite :
  payload_ok p held None → payload_ok (with_limits p minimum max infinite finite) held None.
Proof. by intros []. Qed.

Lemma reserve_loop_ok n : ∀ p held size,
  payload_ok p held None → 0 <= size → Z.of_nat (length (all_payloads_ p) + n) <= UINT32_MAX →
  payload_ok (reserve_loop n p size) held None.
Proof.
  induction n as [|n IH]; intros p held size Hok Hsize Hcap; [done|]. cbn [reserve_loop].
  pose proof Hok as [Ha Hf Hn Hi Hc Hh Hg Hu Hfr Hps Hle]. unfold do_allocate.
  rewrite u32_small by (range_unfold; lia).
  assert (Hnew : fresh p ∉ all_payloads_ p) by (intros Hx; specialize (Hfr _ Hx); lia).
  apply IH; [|done|simpl; rewrite length_app; simpl; lia]. split; simpl; try done.
  - by apply push_NoDup.
  - apply push_NoDup; [done|]. intros (? & _)%Hu. done.
  - intros x. rewrite elem_of_app, list_elem_of_singleton, Hn, lookup_insert_is_Some.
    destruct (decide (fresh p = x)) as [->|]; naive_solver.
  - intros i x m. rewrite lookup_snoc_Some, lookup_insert_Some.
    intros [[? Hx]|[-> <-]] [[Hq <-]|[? Hm]]; try done; [|by eapply Hi].
    subst x. apply list_elem_of_lookup_2 in Hx. done.
  - intros x m. rewrite lookup_insert_Some. intros [[<- <-]|[? Hm]]; [|by apply Hc].
    simpl. rewrite Hg by done. split; [done|]. bool_case; lia.
  - intros x Hx. apply Hg. intros Hx'. apply Hx, elem_of_app. by left.
  - intros x. rewrite !elem_of_app, !list_elem_of_singleton, Hu. split.
    + intros [(? & ? & _)| ->]; [split; [by left|done]|]. split; [by right|]. split; [by apply Hg|done].
    + intros ([?| ->] & ? & ?); [left; done|by right].
  - intros x [Hx| ->%list_elem_of_singleton]%elem_of_app; [|lia]. specialize (Hfr _ Hx). lia.
  - rewrite length_app. simpl. lia.
Qed.

(** One round of [shrink]. *)
Lemma shrink_round p held n :
  payload_ok p held None → free_payloads_ p ≠ [] →
  ∃ q, shrink_loop (S n) p = shrink_loop n q ∧ payload_ok q held None ∧
    length (all_payloads_ q) = (length (all_payloads_ p) - 1)%nat ∧
    length (free_payloads_ q) = (length (free_payloads_ p) - 1)%nat.
Proof.
  intros Hok Hne. cbn [shrink_loop]. destruct (last (free_payloads_ p)) as [id|] eqn:Hl.
  2: { by apply last_None in Hl. }
  pose proof Hok as [Ha Hf Hns Hi Hc Hh Hg Hu Hfr Hps Hle].
  assert (Hin : id ∈ free_payloads_ p).
  { apply last_Some in Hl as [k ->]. apply elem_of_app. right. by left. }
  destruct (proj1 (Hu id) Hin) as (Hall & Hz & _).
  set (p1 := with_payloads _ _ _ _).
  assert (Hok1 : payload_ok p1 held (Some id)).
  { split; simpl; try done; [by apply pop_NoDup with id|]. intros x.
    rewrite (pop_elem _ id x Hl Hf), Hu. split; [intros [? ?]|intros (? & ? & ?)]; split_and!;
      try tauto; congruence. }
  destruct (drop_ok p1 held id Hok1 Hall Hz) as (i & p2 & -> & _ & Hrep & Hok2 & Hlen2 & Hfree2 & _).
  cbn [mbind outcome_bind]. rewrite Hrep. cbn [mbind outcome_bind].
  exists (delete_node p2 id). split; [done|]. split; [done|]. split; [exact Hlen2|].
  simpl. rewrite Hfree2. simpl. rewrite length_take. lia.
Qed.

Lemma shrink_loop_ok n : ∀ p held p',
  payload_ok p held None → shrink_loop n p = Done p' →
  payload_ok p' held None ∧ length (all_payloads_ p') = (length (all_payloads_ p) - n)%nat.
Proof.
  induction n as [|n IH]; intros p held p' Hok Hrun.
  { injection Hrun as <-. split; [done|lia]. }
  destruct (decide (free_payloads_ p = [])) as [Hnil|Hne].
  { simpl in Hrun. by rewrite Hnil in Hrun. }
  destruct (shrink_round p held n Hok Hne) as (q & Heq & Hokq & Hlen & _).
  rewrite Heq in Hrun. destruct (IH q held p' Hokq Hrun) as [? Hl]. split; [done|lia].
Qed.

Lemma shrink_loop_total n : ∀ p held,
  payload_ok p held None → (n <= length (free_payloads_ p))%nat → ∃ p', shrink_loop n p = Done p'.
Proof.
  induction n as [|n IH]; intros p held Hok Hn; [by eexists|].
  destruct (shrink_round p held n Hok) as (q & -> & Hokq & _ & Hlen).
  { intros Hnil. rewrite Hnil in Hn. simpl in Hn. lia. }
  apply (IH q held Hokq). lia.
Qed.

Lemma update_maximum_ok p held config b :
  payload_ok p held None → payload_ok (update_maximum_size p config b) held None.
Proof. intros Hok. unfold update_maximum_size. destruct b; [case_match|]; by apply with_limits_ok. Qed.

Lemma assert_done {A} ndebug b (m : outcome A) a :
  (_ ← assert_ ndebug b; m) = Done a → m = Done a.
Proof. unfold assert_. by destruct (ndebug || b). Qed.

Lemma reserve_history_ok ndebug p held config p' :
  payload_ok p held None → reserve_history ndebug p config = Done p' → payload_ok p' held None.
Proof.
  intros Hok Hrun%assert_done. apply (update_maximum_ok _ _ config true) in Hok.
  set (q := update_maximum_size p config true) in *. cbv zeta in Hrun.
  assert (Hres : ∀ minimum, minimum <= UINT32_MAX → ∀ q', payload_ok q' held None →
    reserve ndebug q' minimum (payload_size_ q) = Done p' → payload_ok p' held None).
  { intros minimum Hmin q' Hq' Hr%assert_done. injection Hr as <-. apply reserve_loop_ok; [done| |].
    - apply (po_size _ _ _ Hok).
    - pose proof (po_length _ _ _ Hq'). lia. }
  destruct (policy q); try (by injection Hrun as <-);
    (eapply Hres; [|by apply with_limits_ok; exact Hok|exact Hrun]; mlia).
Qed.

Lemma release_history_ok ndebug p held config p' :
  payload_ok p held None → release_history ndebug p config = Done p' → payload_ok p' held None.
Proof.
  intros Hok Hrun%assert_done. cbv zeta in Hrun. revert Hrun.
  match goal with |- context [update_maximum_size ?q config false] => set (q0 := q) end.
  assert (Hq : payload_ok q0 held None)
    by (unfold q0; destruct (policy p); done || by apply with_limits_ok).
  apply (update_maximum_ok _ _ config false) in Hq.
  set (q1 := update_maximum_size q0 config false) in *.
  assert (Hsh : ∀ m, shrink ndebug q1 m = Done p' → payload_ok p' held None).
  { intros m Hr%assert_done. by apply (shrink_loop_ok _ _ held) in Hr as [? _]. }
  destruct (policy q1); intros Hrun; try (by apply Hsh in Hrun). by injection Hrun as <-.
Qed.

(** ** Runs of a pool *)

(** What the changes that use a pool do; [held] counts their references.  They
    release payloads they hold, share payloads they hold, have a writer and a number when
    they get the payload of other data, and stay within what the counters and indices can
    count.  A payload may fail to grow. *)
Inductive pool_step (ndebug : bool)
    : TopicPayloadPool * (nat → Z) → TopicPayloadPool * (nat → Z) → Prop :=
  | step_get memory p held size id got p' :
      0 <= size → Z.of_nat (length (all_payloads_ p)) < UINT32_MAX →
      get_payload memory p size = Done (Some (id, got), p') →
      pool_step ndebug (p, held) (p', upd held id 1)
  | step_get_refused memory p held size p' :
      0 <= size → Z.of_nat (length (all_payloads_ p)) < UINT32_MAX →
      get_payload memory p size = Done (None, p') →
      pool_step ndebug (p, held) (p', held)
  | step_share memory p held g n len id owner new got d p' :
      0 <= len → named g n → Z.of_nat (length (all_payloads_ p)) < UINT32_MAX →
      (owner = This → 0 < held id ∧ held id + 1 < 2 ^ 32 - 1) →
      get_payload_for ndebug memory p g n len id owner = Done (Some (new, got), d, p') →
      pool_step ndebug (p, held)
        (p', upd held new (held new + if decide (owner = Nobody) then 2 else 1))
  | step_share_refused memory p held g n len id owner d p' :
      0 <= len → named g n → Z.of_nat (length (all_payloads_ p)) < UINT32_MAX →
      (owner = This → 0 < held id ∧ held id + 1 < 2 ^ 32 - 1) →
      get_payload_for ndebug memory p g n len id owner = Done (None, d, p') →
      pool_step ndebug (p, held) (p', held)
  | step_release p held id p' :
      0 < held id → release_payload p id = Done p' →
      pool_step ndebug (p, held) (p', upd held id (held id - 1))
  | step_reserve p held config p' :
      reserve_history ndebug p config = Done p' → pool_step ndebug (p, held) (p', held)
  | step_unreserve p held config p' :
      release_history ndebug p config = Done p' → pool_step ndebug (p, held) (p', held).

Lemma step_ok ndebug s s' :
  pool_step ndebug s s' → payload_ok s.1 s.2 None → payload_ok s'.1 s'.2 None.
Proof.
  destruct 1 as [memory p held size id got p' Hs Hl Hrun|memory p held size p' Hs Hl Hrun
    |memory p held g n len id owner new got d p' Hs Hnm Hl Ho Hrun|memory p held g n len id owner d p' Hs Hnm Hl Ho Hrun
    |p held id p' Hpos Hrun|p held config p' Hrun|p held config p' Hrun]; simpl; intros Hok.
  - destruct (get_payload_ok memory p held size Hok Hs Hl) as (r & q & Heq & Hr). rewrite Hrun in Heq.
    simplify_eq. by destruct Hr as (_ & ? & _).
  - destruct (get_payload_ok memory p held size Hok Hs Hl) as (r & q & Heq & Hr). rewrite Hrun in Heq.
    simplify_eq. by destruct Hr as (? & _).
  - destruct (get_payload_for_ok ndebug memory p held g n len id owner Hok Hs Hnm Hl Ho) as (r & e & q & Heq & Hr).
    rewrite Hrun in Heq. simplify_eq. by destruct Hr as (_ & ? & _).
  - destruct (get_payload_for_ok ndebug memory p held g n len id owner Hok Hs Hnm Hl Ho) as (r & e & q & Heq & Hr).
    rewrite Hrun in Heq. simplify_eq. by destruct Hr as (? & _).
  - destruct (release_payload_ok p held id Hok Hpos) as (q & Heq & Hr). rewrite Hrun in Heq. by simplify_eq.
  - by eapply reserve_history_ok.
  - by eapply release_history_ok.
Qed.

Lemma created_ok config p :
  get config = Some p → 0 <= payload_initial_size config → payload_ok p (λ _, 0) None.
Proof.
  unfold get. destruct (_ =? 0); [done|]. intros [= <-] Hsize.
  split; simpl; try done; try constructor; try (intros x; by rewrite ?elem_of_nil);
    try (range_unfold; lia).
  - by intros ?%elem_of_nil.
  - intros [n Hn]. by rewrite lookup_empty in Hn.
  - by intros ?%elem_of_nil.
  - by intros (?%elem_of_nil & _).
Qed.

Lemma reachable_ok ndebug s s' :
  rtc (pool_step ndebug) s s' → payload_ok s.1 s.2 None → payload_ok s'.1 s'.2 None.
Proof. induction 1; eauto using step_ok. Qed.

(** C22: in every state a payload pool reaches, whatever its memory policy, the
    counter of each payload is the number of changes that refer to it; a payload
    that is handed out was referred to by nobody and, unless sizes are fixed in advance
    (PREALLOCATED_MEMORY_MODE), has the size asked for, also when payloads fail to grow;
    and releasing a payload that is referred to
    is defined, which takes the node at the payload's index for the payload
    itself. *)
Theorem payload_pool_safe ndebug config p0 p held :
  get config = Some p0 → 0 <= payload_initial_size config →
  rtc (pool_step ndebug) (p0, λ _, 0) (p, held) →
  (∀ id n, nodes p !! id = Some n → ref_counter n = held id ∧ 0 <= data_size n <= room n) ∧
  (∀ memory size, 0 <= size → Z.of_nat (length (all_payloads_ p)) < UINT32_MAX →
    ∃ r p', get_payload memory p size = Done (r, p') ∧
      ∀ id got, r = Some (id, got) → held id = 0 ∧ (sized p → size <= got)) ∧
  (∀ id, 0 < held id → ∃ p' n i, release_payload p id = Done p' ∧
    nodes p !! id = Some n ∧ data_index n = Z.of_nat i ∧ all_payloads_ p !! i = Some id).
Proof.
  intros Hget Hsize Hrun. pose proof (created_ok _ _ Hget Hsize) as Hok0.
  apply reachable_ok in Hrun as Hok; [|done]. simpl in Hok. split; [apply Hok|]. split.
  - intros memory size Hs Hl. destruct (get_payload_ok memory p held size Hok Hs Hl) as (r & q & Heq & Hr).
    exists r, q. split; [done|]. intros id got ->. by destruct Hr as (? & _ & _ & ?).
  - intros id Hpos. destruct (release_payload_ok p held id Hok Hpos) as (q & Heq & _).
    assert (Hin : id ∈ all_payloads_ p).
    { apply dec_stable. intros Hno. pose proof (po_gone _ _ _ Hok id Hno). lia. }
    destruct (ok_node _ _ _ _ Hok Hin) as (n & Hn & _).
    apply list_elem_of_lookup in Hin as [i Hi]. exists q, n, i.
    split; [done|]. split; [done|]. split; [by eapply (po_index _ _ _ Hok)|done].
Qed.

(** ** Example *)

Definition demo_config : PoolConfig := mkConfig DYNAMIC_RESERVE_MEMORY_MODE 10 1 4.

Definition demo_created : TopicPayloadPool :=
  mkPool DYNAMIC_RESERVE_MEMORY_MODE 10 0 0 0 0 [] [] ∅ 0.

Definition demo_reserved : TopicPayloadPool :=
  mkPool DYNAMIC_RESERVE_MEMORY_MODE 10 0 4 0 4 [] [] ∅ 0.

Definition demo_used : TopicPayloadPool :=
  mkPool DYNAMIC_RESERVE_MEMORY_MODE 10 0 4 0 4 [] [0%nat] {[0%nat := mkNode 1 100 0 103]} 1.

Lemma demo_run : rtc (pool_step true) (demo_created, λ _, 0) (demo_used, upd (λ _, 0) 0 1).
Proof.
  apply rtc_l with (demo_reserved, λ _, 0).
  { apply step_reserve with demo_config. reflexivity. }
  apply rtc_once. apply step_get with true 100 100; [lia|done|]. vm_compute. reflexivity.
Qed.

Lemma payload_pool_safe_witness :
  (∀ id n, nodes demo_used !! id = Some n →
    ref_counter n = upd (λ _, 0) 0 1 id ∧ 0 <= data_size n <= room n) ∧
  (∀ memory size, 0 <= size → Z.of_nat (length (all_payloads_ demo_used)) < UINT32_MAX →
    ∃ r p', get_payload memory demo_used size = Done (r, p') ∧
      ∀ id got, r = Some (id, got) → upd (λ _, 0) 0 1 id = 0 ∧ (sized demo_used → size <= got)) ∧
  (∀ id, 0 < upd (λ _, 0) 0 1 id → ∃ p' n i, release_payload demo_used id = Done p' ∧
    nodes demo_used !! id = Some n ∧ data_index n = Z.of_nat i ∧
    all_payloads_ demo_used !! i = Some id).
Proof.
  apply (payload_pool_safe true demo_config demo_created demo_used (upd (λ _, 0) 0 1)).
  - reflexivity.
  - done.
  - apply demo_run.
Defined.
End PayloadPoolFacts.
