(* ===== verification/GapBuilder.v ===== *)
(** * Gap builder

    [RTPSGapBuilder] (src/cpp/rtps/messages/RTPSGapBuilder.cpp) gathers the
    sequence numbers a reader will never get into GAP submessages: a first
    number and a bitmap after the contiguous part.  The message group the gaps
    go to is an interface of its own; [GapSinkLaws] states what the builder
    relies on. *)

From S2P Require Import Prelude.
From S2P Require Import SeqNum.
From S2P Require Import Bitmap.
From S2P Require Import BitmapFacts.
From S2P Require Import Guid.

(** A GAP submessage, for all readers or for one. *)
Record Gap := mkGap {
  gap_start : SN.SequenceNumber_t;
  gap_list : SequenceNumberSet_t;
  gap_reader : option Guid.GUID_t
}.

(** [RTPSMessageGroup::add_gap]: whether the gap was added, and the group. *)
Class GapSink (G : Type) := add_gap : G → Gap → bool * G.

(** The gaps a group has taken. *)
Class GapSinkLaws (G : Type) `{GapSink G} := {
  gaps : G → list Gap;
  add_gap_gaps g gap : gaps (add_gap g gap).2 = if (add_gap g gap).1 then gaps g ++ [gap] else gaps g;
}.

Module GapBuilder.
Import BitmapRange.

Section builder.
Context {G : Type} `{GapSink G}.

Record RTPSGapBuilder := mkBuilder {
  is_gap_pending_ : bool;
  group_ : G;
  initial_sequence_ : SN.SequenceNumber_t;
  gap_bitmap_ : SequenceNumberSet_t;
  reader_guid_ : option Guid.GUID_t
}.

Definition create (group : G) (reader : option Guid.GUID_t) : RTPSGapBuilder :=
  mkBuilder false group SN.default default_range reader.

Definition flush (b : RTPSGapBuilder) : bool * RTPSGapBuilder :=
  if is_gap_pending_ b then
    let '(ok, group) := add_gap (group_ b) (mkGap (initial_sequence_ b) (gap_bitmap_ b) (reader_guid_ b)) in
    if ok
    then (true, mkBuilder false group (initial_sequence_ b) (gap_bitmap_ b) (reader_guid_ b))
    else (false, mkBuilder true group (initial_sequence_ b) (gap_bitmap_ b) (reader_guid_ b))
  else (true, b).

(** A new gap that starts at [gap_sequence]. *)
Definition restart (b : RTPSGapBuilder) (gap_sequence : SN.SequenceNumber_t) : RTPSGapBuilder :=
  mkBuilder true (group_ b) gap_sequence
    (set_base (gap_bitmap_ b) (SN.add_u32 gap_sequence 1)) (reader_guid_ b).

Definition add (b : RTPSGapBuilder) (gap_sequence : SN.SequenceNumber_t) : bool * RTPSGapBuilder :=
  if negb (is_gap_pending_ b) then (true, restart b gap_sequence)
  else if SN.eqb gap_sequence (base (gap_bitmap_ b)) then
    (true, mkBuilder true (group_ b) (initial_sequence_ b)
      (set_base (gap_bitmap_ b) (SN.add_u32 gap_sequence 1)) (reader_guid_ b))
  else
    let '(fits, bitmap) := BitmapRange.add (gap_bitmap_ b) gap_sequence in
    if fits then (true, mkBuilder true (group_ b) (initial_sequence_ b) bitmap (reader_guid_ b))
    else
      let '(ret_val, b) := flush b in
      (ret_val, restart b gap_sequence).

(** [add] of every number, and the [flush] of the destructor. *)
Fixpoint add_all (b : RTPSGapBuilder) (l : list SN.SequenceNumber_t) : bool * RTPSGapBuilder :=
  match l with
  | [] => flush b
  | s :: l =>
      let '(ok, b) := add b s in
      let '(rest, b) := add_all b l in
      (ok && rest, b)
  end.
End builder.
Arguments RTPSGapBuilder G : clear implicits.

(** The sequence numbers a gap declares irrelevant, as a reader goes through
    them: those before the base of the bitmap, and the members of the bitmap. *)
Definition announces (g : Gap) (x : Z) : Prop :=
  SN.val (gap_start g) <= x < SN.val (base_ (gap_list g)) ∨ mem (gap_list g) x.

Section facts.
Context {G : Type} `{GapSinkLaws G}.
Implicit Types b : RTPSGapBuilder G.

(** A sequence number with room for the bitmap after it. *)
Definition roomy (s : SN.SequenceNumber_t) : Prop := SN.wf s ∧ 0 < SN.val s < 2 ^ 63 - 300.

(** What has been added is what the gaps sent and the pending one announce, and
    the pending gap ends before [last]. *)
Record builder_inv b (added : Z → Prop) (last : Z) : Prop := {
  bi_added x : added x ↔
    Exists (λ g, announces g x) (gaps (group_ b)) ∨
    (is_gap_pending_ b = true ∧ announces (mkGap (initial_sequence_ b) (gap_bitmap_ b) (reader_guid_ b)) x);
  bi_start : is_gap_pending_ b = true → roomy (initial_sequence_ b);
  bi_inv : is_gap_pending_ b = true → inv (gap_bitmap_ b);
  bi_base : is_gap_pending_ b = true → SN.val (base_ (gap_bitmap_ b)) <= last + 1;
  bi_after : is_gap_pending_ b = true → SN.val (initial_sequence_ b) < SN.val (base_ (gap_bitmap_ b));
  bi_full : is_gap_pending_ b = true → full (gap_bitmap_ b);
  bi_mem x : is_gap_pending_ b = true → mem (gap_bitmap_ b) x → x <= last;
  bi_sent : Forall (λ g, 0 < SN.val (gap_start g) < SN.val (base_ (gap_list g))) (gaps (group_ b));
}.

Lemma set_base_spec (r : SequenceNumberSet_t) s :
  roomy s →
  let r' := set_base r (SN.add_u32 s 1) in
  inv r' ∧ full r' ∧ SN.val (SN.add_u32 s 1) = SN.val s + 1 ∧ ∀ x, ¬ mem r' x.
Proof.
  intros [Hwf Hv]. destruct (SN.add_u32_val s 1) as [Hval _]; [done|range_unfold; lia|lia|].
  destruct (make_spec (SN.add_u32 s 1)) as ([Hinv _] & Hb & Hfull & Hno).
  { split; simpl; [apply SN.add_u32_wf; [done|range_unfold; lia]|unfold NBITS; lia]. }
  rewrite set_base_make. done.
Qed.

Lemma flush_spec b b' added last :
  builder_inv b added last → flush b = (true, b') →
  builder_inv b' added last ∧ is_gap_pending_ b' = false.
Proof.
  intros Hinv. unfold flush. destruct (is_gap_pending_ b) eqn:Hp; [|by intros [= <-]].
  set (gap := mkGap _ _ _). pose proof (add_gap_gaps (group_ b) gap) as Hg.
  destruct (add_gap (group_ b) gap) as [[|] group] eqn:Heq; [|done]. intros [= <-].
  destruct Hinv as [Hadd Hst Hin Hb Ha Hf Hm Hs]. simpl in Hg. split; [|done].
  split; simpl; try done.
  - intros x. rewrite Hadd, Hp, Hg, Exists_app, Exists_cons, Exists_nil. subst gap. tauto.
  - rewrite Hg, Forall_app, Forall_singleton. split; [done|]. subst gap. simpl.
    specialize (Hst Hp) as [_ Hst]. specialize (Ha Hp). lia.
Qed.

Lemma restart_spec b added last s :
  builder_inv b added last → is_gap_pending_ b = false → roomy s →
  builder_inv (restart b s) (λ x, added x ∨ x = SN.val s) (SN.val s).
Proof.
  intros [Hadd _ _ _ _ _ _ Hs] Hp Hroom.
  destruct (set_base_spec (gap_bitmap_ b) s Hroom) as (Hinv & Hfull & Hbase & Hno).
  split; simpl; intros; try done; try lia.
  - rewrite Hadd, Hp. unfold announces. simpl gap_start. simpl gap_list.
    change (base_ (set_base _ ?y)) with y. rewrite Hbase. split.
    + intros [[?|[? _]]| ->]; [by left|done|]. right. split; [done|]. left. lia.
    + intros [?|[_ [?|[]%Hno]]]; [by left; left|]. right. lia.
  - by destruct (Hno x).
Qed.

Lemma gap_add_spec b b' added last s :
  builder_inv b added last → roomy s → last < SN.val s → add b s = (true, b') →
  builder_inv b' (λ x, added x ∨ x = SN.val s) (SN.val s).
Proof.
  intros Hinv Hroom Hlast. unfold add. destruct (is_gap_pending_ b) eqn:Hp; simpl.
  2: { intros [= <-]. by apply restart_spec with last. }
  pose proof Hroom as [Hwf Hv]. pose proof Hinv as [Hadd Hst Hin Hb Ha Hf Hm Hs].
  specialize (Hst Hp). specialize (Hin Hp). specialize (Hb Hp). specialize (Ha Hp). specialize (Hf Hp).
  pose proof (inv_room _ Hin) as [Hbwf _]. simpl in Hbwf.
  unfold base. rewrite SN.eqb_val by done. destruct (Z.eqb_spec (SN.val s) (SN.val (base_ (gap_bitmap_ b)))).
  - intros [= <-]. destruct (set_base_spec (gap_bitmap_ b) s Hroom) as (Hinv' & Hfull & Hbase & Hno).
    split; simpl; intros; try done; try lia.
    + rewrite Hadd, Hp. unfold announces. simpl gap_start. simpl gap_list.
      change (base_ (set_base _ ?y)) with y. rewrite Hbase. split.
      * intros [[?|[_ [?|Hx]]]| ->]; [by left|right..]; (split; [done|left]); [lia| |lia].
        apply mem_iff in Hx as Hr. destruct Hr as [Hr _]. simpl in Hr. specialize (Hm _ Hp Hx). lia.
      * intros [?|[_ [?|[]%Hno]]]; [by left; left|].
        destruct (decide (x = SN.val s)) as [->|]; [by right|left; right]. split; [done|]. left. lia.
    + by destruct (Hno x).
  - destruct (BitmapFacts.add_spec (gap_bitmap_ b) s Hin Hwf) as (Hok & Hin' & Hbase & Hmax & _ & Hmem).
    destruct (BitmapRange.add (gap_bitmap_ b) s) as [fits bitmap] eqn:Heq. simpl in *.
    destruct fits.
    + intros [= <-]. symmetry in Hok. rewrite Hok in Hmem.
      split; simpl; intros; try done; try (rewrite ?Hbase; lia).
      * rewrite Hadd, Hp. unfold announces. simpl gap_start. simpl gap_list. rewrite Hbase, Hmem. tauto.
      * unfold full. by rewrite Hmax, Hbase.
      * match goal with Hq : mem bitmap _ |- _ => apply Hmem in Hq as [Hx|[_ ->]] end; [|lia].
        specialize (Hm _ Hp Hx). lia.
    + destruct (flush b) as [ok b1] eqn:Hfl. intros [= -> <-].
      destruct (flush_spec _ _ _ _ Hinv Hfl) as [Hinv1 Hp1]. by apply restart_spec with last.
Qed.

Lemma gap_add_all_spec l : ∀ b b' added last,
  builder_inv b added last → Forall roomy l →
  StronglySorted Z.lt (last :: (SN.val <$> l)) → add_all b l = (true, b') →
  (∃ last', builder_inv b' (λ x, added x ∨ x ∈ SN.val <$> l) last') ∧ is_gap_pending_ b' = false.
Proof.
  induction l as [|s l IH]; intros b b' added last Hinv Hroom Hsort Hrun.
  - apply (flush_spec _ _ _ _ Hinv) in Hrun as [Hinv' Hp]. split; [|done]. exists last.
    destruct Hinv' as [Hadd ? ? ? ? ? ? ?]. split; try done. intros x. rewrite <- Hadd.
    simpl. rewrite elem_of_nil. tauto.
  - simpl in Hrun. destruct (add b s) as [ok b1] eqn:Ha. destruct (add_all b1 l) as [rest b2] eqn:Hl.
    injection Hrun as Hok <-. apply andb_true_iff in Hok as [-> ->].
    inversion Hroom as [|? ? Hs Hroom']; subst.
    inversion Hsort as [|? ? Hsort' Hall]; subst. inversion Hall as [|? ? Hlt _]; subst.
    pose proof (gap_add_spec _ _ _ _ _ Hinv Hs Hlt Ha) as Hinv1.
    destruct (IH _ _ _ _ Hinv1 Hroom' Hsort' Hl) as [[last' [Hadd ? ? ? ? ? ? ?]] Hp].
    split; [|done]. exists last'. split; try done. intros x. rewrite <- Hadd.
    rewrite fmap_cons, elem_of_cons. tauto.
Qed.

(** A group that takes every gap. *)
Definition accepting : Prop := ∀ (g : G) gap, (add_gap g gap).1 = true.

Lemma flush_accepted b : accepting → (flush b).1 = true.
Proof.
  intros Hacc. unfold flush. destruct (is_gap_pending_ b); [|done].
  pose proof (Hacc (group_ b) (mkGap (initial_sequence_ b) (gap_bitmap_ b) (reader_guid_ b))) as Ha.
  destruct (add_gap _ _) as [ok g]. simpl in Ha. by subst ok.
Qed.

Lemma add_all_accepted l : ∀ b, accepting → (add_all b l).1 = true.
Proof.
  induction l as [|s l IH]; intros b Hacc; [by apply flush_accepted|]. simpl.
  assert (Ha : (add b s).1 = true).
  { unfold add. destruct (negb _); [done|]. destruct (SN.eqb _ _); [done|].
    destruct (BitmapRange.add _ _) as [[|] ?]; [done|].
    pose proof (flush_accepted b Hacc) as Hf. by destruct (flush b). }
  destruct (add b s) as [ok b1]. simpl in Ha. subst ok.
  specialize (IH b1 Hacc). by destruct (add_all b1 l).
Qed.

(** C20: with a group that takes every gap, building gaps from an increasing list
    of sequence numbers succeeds, the gaps declare exactly these numbers
    irrelevant, and each has a positive start before the base of its bitmap, as
    readers require. *)
Theorem gap_builder_exact (group : G) reader l :
  accepting → gaps group = [] → Forall roomy l → StronglySorted Z.lt (SN.val <$> l) →
  ∃ b, add_all (create group reader) l = (true, b) ∧
    (∀ x, Exists (λ g, announces g x) (gaps (group_ b)) ↔ x ∈ SN.val <$> l) ∧
    Forall (λ g, 0 < SN.val (gap_start g) < SN.val (base_ (gap_list g))) (gaps (group_ b)).
Proof.
  intros Hacc Hg Hroom Hsort. pose proof (add_all_accepted l (create group reader) Hacc) as Hok.
  destruct (add_all (create group reader) l) as [ok b] eqn:Hrun. simpl in Hok. subst ok.
  exists b. split; [done|].
  destruct (gap_add_all_spec l (create group reader) b (λ _, False) 0) as [[last' Hinv] Hp]; try done.
  - split; simpl; try done; rewrite Hg; [|done]. intros x. rewrite Exists_nil.
    split; [done|by intros [?|[? _]]].
  - constructor; [done|]. apply Forall_forall. intros x (s & -> & Hs)%list_elem_of_fmap.
    rewrite Forall_forall in Hroom. destruct (Hroom s Hs) as [_ ?]. lia.
  - destruct Hinv as [Hadd _ _ _ _ _ _ Hsent]. split; [|done]. intros x.
    specialize (Hadd x). rewrite Hp in Hadd. intuition congruence.
Qed.

(** A gap the group refuses is given up: [add] reports the failure, and the
    numbers gathered so far are replaced by the new one. *)
Theorem refused_gap_dropped b s :
  is_gap_pending_ b = true → SN.eqb s (base (gap_bitmap_ b)) = false →
  (BitmapRange.add (gap_bitmap_ b) s).1 = false →
  (add_gap (group_ b) (mkGap (initial_sequence_ b) (gap_bitmap_ b) (reader_guid_ b))).1 = false →
  ∃ b', add b s = (false, b') ∧ gaps (group_ b') = gaps (group_ b) ∧
    is_gap_pending_ b' = true ∧ initial_sequence_ b' = s ∧
    (roomy s → ∀ x, announces (mkGap (initial_sequence_ b') (gap_bitmap_ b') (reader_guid_ b')) x ↔
      x = SN.val s).
Proof.
  intros Hp Hbase Hfit Hrefused. unfold add, flush. rewrite Hp, Hbase. simpl negb. cbn iota.
  destruct (BitmapRange.add (gap_bitmap_ b) s) as [fits ?]. simpl in Hfit. subst fits.
  pose proof (add_gap_gaps (group_ b) (mkGap (initial_sequence_ b) (gap_bitmap_ b) (reader_guid_ b))) as Hg.
  destruct (add_gap _ _) as [ok g]. simpl in Hrefused, Hg. subst ok.
  eexists. split; [done|]. split; [done|]. split; [done|]. split; [done|]. intros Hroom x.
  destruct (set_base_spec (gap_bitmap_ b) s Hroom) as (_ & _ & Hval & Hno).
  unfold announces. simpl. rewrite Hval. split; [intros [?|[]%Hno]; lia|]. intros ->. left. lia.
Qed.
End facts.

(** ** Whatever the group answers

    In whatever order the numbers come, and whatever the group does with the gaps, each
    gap it is given announces only numbers that were added. *)
Section soundness.
Context {G : Type} `{GapSink G}.
Context (Q : Z → Prop) (top : Z) (J : G → Prop).
Hypothesis Q_range : ∀ x, Q x → 0 < x <= top.
Hypothesis top_range : top < 2 ^ 63 - 300.
Implicit Types b : RTPSGapBuilder G.

Record sound_gap (g : Gap) : Prop := {
  sg_start : SN.wf (gap_start g) ∧ 0 < SN.val (gap_start g) < SN.val (base_ (gap_list g));
  sg_base : SN.val (base_ (gap_list g)) <= top + 1;
  sg_list : inv (gap_list g);
  sg_announces x : announces g x → Q x
}.

Definition pending b : Gap := mkGap (initial_sequence_ b) (gap_bitmap_ b) (reader_guid_ b).

Definition sound b : Prop := J (group_ b) ∧ (is_gap_pending_ b = true → sound_gap (pending b)).

Context (reader : option Guid.GUID_t).
Hypothesis J_add : ∀ g gap, J g → gap_reader gap = reader → sound_gap gap → J (add_gap g gap).2.

Lemma flush_sound b :
  sound b → reader_guid_ b = reader → sound (flush b).2 ∧ reader_guid_ (flush b).2 = reader.
Proof.
  intros [HJ Hp] Hr. unfold flush. destruct (is_gap_pending_ b) eqn:E; [|split; [split; [done|simpl; by rewrite E]|done]].
  specialize (J_add (group_ b) (pending b) HJ Hr (Hp eq_refl)). unfold pending in J_add.
  destruct (add_gap (group_ b) _) as [[|] g]; simpl in *; (split; [|done]); (split; [done|]); [done|].
  intros _. exact (Hp eq_refl).
Qed.

Lemma restart_sound b s : J (group_ b) → SN.wf s → Q (SN.val s) → sound (restart b s).
Proof.
  intros HJ Hs HQ. split; [done|]. intros _. pose proof (Q_range _ HQ).
  destruct (set_base_spec (gap_bitmap_ b) s) as (Hinv & _ & Hval & Hno); [split; [done|lia]|].
  assert (SN.val (base_ (gap_list (pending (restart b s)))) = SN.val s + 1) as Eb by exact Hval.
  split; rewrite ?Eb; [split; [exact Hs|simpl; lia]|lia|exact Hinv|].
  intros x [Hx|[]%Hno]. rewrite Eb in Hx. simpl in Hx. by replace x with (SN.val s) by lia.
Qed.

Lemma add_sound b s :
  sound b → reader_guid_ b = reader → SN.wf s → Q (SN.val s) →
  sound (add b s).2 ∧ reader_guid_ (add b s).2 = reader.
Proof.
  intros Hb Hr Hs HQ. pose proof Hb as [HJ Hp]. pose proof (Q_range _ HQ) as Hv. unfold add.
  destruct (is_gap_pending_ b) eqn:E; simpl; [|split; [by apply restart_sound|done]].
  specialize (Hp eq_refl). pose proof Hp as [[Hw Hst] Hb1 Hinv Hann]. unfold pending in *. simpl in *.
  pose proof (inv_room _ Hinv) as [Hbw _]. simpl in Hbw.
  unfold base. rewrite SN.eqb_val by done. destruct (Z.eqb_spec (SN.val s) (SN.val (base_ (gap_bitmap_ b)))) as [Es|Es].
  - destruct (set_base_spec (gap_bitmap_ b) s) as (Hinv' & _ & Hval & Hno); [split; [done|lia]|].
    split; [|done]. split; [done|]. intros _. set (g := pending _).
    assert (SN.val (base_ (gap_list g)) = SN.val s + 1) as Eb by exact Hval.
    split; rewrite ?Eb; [split; [exact Hw|simpl; lia]|lia|exact Hinv'|].
    intros x [Hx|[]%Hno]. rewrite Eb in Hx. simpl in Hx.
    destruct (decide (x = SN.val s)) as [->|]; [done|]. apply Hann. left. simpl. lia.
  - destruct (BitmapFacts.add_spec (gap_bitmap_ b) s Hinv Hs) as (_ & Hin' & Hbase & _ & _ & Hmem).
    destruct (BitmapRange.add (gap_bitmap_ b) s) as [fits bitmap] eqn:Heq. simpl in *. destruct fits.
    + split; [|done]. split; [done|]. intros _. split; unfold pending; simpl; rewrite ?Hbase; [done|done|done|].
      intros x [Hx|Hx]; simpl in Hx; [rewrite Hbase in Hx; apply Hann; by left|].
      apply Hmem in Hx as [Hx|[_ ->]]; [apply Hann; by right|done].
    + destruct (flush_sound b Hb Hr) as [[HJ' _] Hr']. destruct (flush b) as [ok b1]. simpl in *.
      split; [by apply restart_sound|done].
Qed.

Lemma add_many_sound l b :
  sound b → reader_guid_ b = reader → Forall (λ s, SN.wf s ∧ Q (SN.val s)) l →
  sound (foldl (λ b s, (add b s).2) b l) ∧ reader_guid_ (foldl (λ b s, (add b s).2) b l) = reader.
Proof.
  intros Hb Hr Hl. revert b Hb Hr. induction Hl as [|s l [Hs HQ] _ IH]; intros b Hb Hr; [done|]. simpl.
  destruct (add_sound b s Hb Hr Hs HQ). by apply IH.
Qed.

Lemma add_all_sound l b :
  sound b → reader_guid_ b = reader → Forall (λ s, SN.wf s ∧ Q (SN.val s)) l → sound (add_all b l).2.
Proof.
  intros Hb Hr Hl. revert b Hb Hr. induction Hl as [|s l [Hs HQ] _ IH]; intros b Hb Hr; [by apply flush_sound|].
  simpl. destruct (add_sound b s Hb Hr Hs HQ) as [H1 H2]. destruct (add b s) as [ok b1]. simpl in *.
  specialize (IH b1 H1 H2). by destruct (add_all b1 l).
Qed.

End soundness.

(** ** A group that takes every gap, and one that takes none *)

#[export] Instance list_sink : GapSink (list Gap) := λ g gap, (true, g ++ [gap]).
#[export, refine] Instance list_sink_laws : GapSinkLaws (list Gap) := { gaps := id }.
Proof. done. Defined.

#[export] Instance full_sink : GapSink unit := λ g _, (false, g).
#[export, refine] Instance full_sink_laws : GapSinkLaws unit := { gaps := λ _, [] }.
Proof. done. Defined.

Definition irrelevant : list SN.SequenceNumber_t := SN.mkSN 0 <$> [3; 4; 9; 300; 301].

Lemma gap_builder_exact_witness :
  ∃ b, add_all (create ([] : list Gap) None) irrelevant = (true, b) ∧
    (∀ x, Exists (λ g, announces g x) (gaps (group_ b)) ↔ x ∈ SN.val <$> irrelevant) ∧
    Forall (λ g, 0 < SN.val (gap_start g) < SN.val (base_ (gap_list g))) (gaps (group_ b)).
Proof.
  apply (gap_builder_exact ([] : list Gap) None irrelevant).
  - intros g gap. reflexivity.
  - reflexivity.
  - repeat (constructor; [split; SN.sn_unfold; lia|]). constructor.
  - vm_compute. repeat (constructor; [|repeat constructor]). constructor.
Defined.

Lemma refused_gap_dropped_witness :
  ∃ b', add (add (create tt None) (SN.mkSN 0 3)).2 (SN.mkSN 0 300) = (false, b') ∧
    gaps (group_ b') = gaps (group_ (add (create tt None) (SN.mkSN 0 3)).2) ∧ is_gap_pending_ b' = true ∧ initial_sequence_ b' = SN.mkSN 0 300 ∧
    (roomy (SN.mkSN 0 300) → ∀ x,
      announces (mkGap (initial_sequence_ b') (gap_bitmap_ b') (reader_guid_ b')) x ↔
      x = SN.val (SN.mkSN 0 300)).
Proof.
  apply (refused_gap_dropped (add (create tt None) (SN.mkSN 0 3)).2 (SN.mkSN 0 300)); reflexivity.
Defined.

End GapBuilder.
