(* ===== verification/History.v ===== *)
(** * Histories

    The vectors of changes of writers and readers: [History]
    (src/cpp/rtps/history/History.cpp), [WriterHistory]
    (src/cpp/rtps/history/WriterHistory.cpp) and [ReaderHistory]
    (src/cpp/rtps/history/ReaderHistory.cpp).  An iterator is an index of the
    vector, the end its length.  The virtual methods the base class calls are the
    class [HistoryImpl]; the writer and the reader behind a history are the classes
    [HistoryWriter] and [HistoryReader], of the calls the history makes. *)

From S2P Require Import Prelude.
From S2P Require Import SeqNum.
From S2P Require Import Guid.
From S2P Require Import CacheChange.
From S2P Require Import Pools.

Module History.
Import CacheChange.

Record HistoryAttributes := mkAttributes {
  memoryPolicy : MemoryManagementPolicy_t;
  payloadMaxSize : Z;
  initialReservedCaches : Z;
  maximumReservedCaches : Z;
  extraReservedCaches : Z
}.

(** [attached] says that an endpoint has been created with this history: the
    mutex and the endpoint's pointer are set together. *)
Record History := mkHistory {
  m_att : HistoryAttributes;
  m_changes : list CacheChange_t;
  m_isHistoryFull : bool;
  attached : bool
}.

(** [std::find_if], the length of the vector when nothing is found. *)
Fixpoint find_if {A} (p : A → bool) (l : list A) : nat :=
  match l with
  | [] => 0%nat
  | x :: l => if p x then 0%nat else S (find_if p l)
  end.

(** [std::lower_bound] for the elements that come before: on a vector in which
    they do not come first its behaviour is undefined. *)
Definition lower_bound {A} (before : A → bool) (l : list A) : outcome nat :=
  let it := find_if (λ x, negb (before x)) l in
  if forallb (λ x, negb (before x)) (drop it l) then Done it else Undefined.

(** [erase] of an element of the vector, after which the history is not full. *)
Definition erase (h : History) (removal : nat) : History :=
  mkHistory (m_att h) (delete removal (m_changes h)) false (attached h).

Definition matches_change (ch_inner ch_outer : CacheChange_t) : bool :=
  SN.eqb (sequenceNumber ch_inner) (sequenceNumber ch_outer).

(** [History::remove_change_nts]: the history, the iterator and the changes given
    to [do_release_cache]. *)
Definition remove_change_nts (h : History) (removal : nat) (release : bool)
    : History * nat * list CacheChange_t :=
  if negb (attached h) then (h, removal, [])
  else match m_changes h !! removal with
  | None => (h, length (m_changes h), [])
  | Some change => (erase h removal, removal, if release then [change] else [])
  end.

Definition get_min_change (h : History) : option CacheChange_t := head (m_changes h).
Definition get_max_change (h : History) : option CacheChange_t := last (m_changes h).

(** The search of [get_change_nts] over the elements from [hint] on. *)
Fixpoint search_change (seq : SN.SequenceNumber_t) (guid : Guid.GUID_t) (l : list CacheChange_t)
    (it : nat) : option CacheChange_t * nat :=
  match l with
  | [] => (None, it)
  | c :: l =>
      if Guid.eqb (writerGUID c) guid then
        if SN.eqb (sequenceNumber c) seq then (Some c, it)
        else if SN.gtb (sequenceNumber c) seq then (None, it)
        else search_change seq guid l (S it)
      else search_change seq guid l (S it)
  end.

Definition get_change_nts (h : History) (seq : SN.SequenceNumber_t) (guid : Guid.GUID_t)
    (hint : nat) : option CacheChange_t * nat :=
  search_change seq guid (drop hint (m_changes h)) hint.

Definition get_change (h : History) (seq : SN.SequenceNumber_t) (guid : Guid.GUID_t)
    : option CacheChange_t :=
  if attached h then fst (get_change_nts h seq guid 0) else None.

Definition get_earliest_change (h : History) : option CacheChange_t :=
  if attached h then head (m_changes h) else None.

(** ** What the base class does through its virtual methods *)

Class HistoryImpl (S : Type) := {
  base : S → History;
  impl_matches : S → CacheChange_t → CacheChange_t → bool;
  impl_remove_nts : S → nat → bool → S * nat
}.

(** The change made on the stack to be compared with others. *)
Definition reference_change (guid : Guid.GUID_t) (seq : SN.SequenceNumber_t) : CacheChange_t :=
  let c := ChangePool.new_change in
  mkChange (kind c) guid (instanceHandle c) seq (serializedPayload c) (inline_qos c) (isRead c)
    (sourceTimestamp c) (receptionTimestamp c) (vendor_id c) (write_params c) (is_untyped_ c)
    (fragment_size_ c) (fragment_count_ c) (first_missing_fragment_ c).

Section Virtual.
Context {S : Type} `{!HistoryImpl S}.
Implicit Types s : S.

(** Without a mutex the code makes up an iterator of no vector: [None]. *)
Definition find_change_nts s (ch : CacheChange_t) : option nat :=
  if attached (base s) then Some (find_if (λ c, impl_matches s c ch) (m_changes (base s))) else None.

(** [remove_change]: locking a missing mutex is undefined. *)
Definition remove_change s (ch : CacheChange_t) : outcome (S * bool) :=
  match find_change_nts s ch with
  | None => Undefined
  | Some it =>
      match m_changes (base s) !! it with
      | None => mret (s, false)
      | Some found =>
          let dummy_change := reference_change (writerGUID found) (sequenceNumber found) in
          let '(s, history_it) := impl_remove_nts s it true in
          match m_changes (base s) !! history_it with
          | Some next => mret (s, negb (impl_matches s dummy_change next))
          | None => mret (s, true)
          end
      end
  end.

(** The loop of [remove_all_changes], [fuel] rounds at most. *)
Fixpoint remove_fronts (fuel : nat) s : outcome S :=
  match m_changes (base s) with
  | [] => mret s
  | front :: _ =>
      match fuel with
      | O => Unfinished
      | Datatypes.S fuel => '(s, _) ← remove_change s front; remove_fronts fuel s
      end
  end.

End Virtual.
End History.

(** ** Writer histories *)

Module WriterHistory.
Import CacheChange.
Import History.

(** The attributes of a writer its history reads. *)
Class WriterInfo (W : Type) := {
  getGuid : W → Guid.GUID_t;
  getMaxDataSize : W → Z;
  with_key : W → bool
}.

(** The writer as its history sees it.  [change_removed_by_history] says whether
    the writer lets the change go. *)
Class HistoryWriter (W : Type) := {
  writer_info :: WriterInfo W;
  change_removed_by_history : W → CacheChange_t → W * bool;
  release_change : W → CacheChange_t → W;
  unsent_change_added_to_history : W → CacheChange_t → W
}.

Definition PARAMETER_STATUS_SIZE : Z := 8.
Definition PARAMETER_KEY_SIZE : Z := 20.
Definition PARAMETER_SENTINEL_SIZE : Z := 4.
Definition PARAMETER_SAMPLE_IDENTITY_SIZE : Z := 28.

Definition get_max_fragment_payload_size : Z := 65535 - 28 - 32 - 3.

Section Info.
Context {W : Type} `{!WriterInfo W}.

Record WriterHistory := mkWriterHistory {
  hist : History;
  m_lastCacheChangeSeqNum : SN.SequenceNumber_t;
  high_mark_for_frag_ : Z;
  mp_writer : W
}.

Implicit Types h : WriterHistory.

Definition with_writer h (w : W) : WriterHistory :=
  mkWriterHistory (hist h) (m_lastCacheChangeSeqNum h) (high_mark_for_frag_ h) w.
Definition with_hist h (b : History) : WriterHistory :=
  mkWriterHistory b (m_lastCacheChangeSeqNum h) (high_mark_for_frag_ h) (mp_writer h).

Definition next_sequence_number h : SN.SequenceNumber_t :=
  SN.add_u32 (m_lastCacheChangeSeqNum h) 1.

(** *** Fragmentation *)

(** The octets of inline QoS a change is sent with. *)
Definition inline_qos_size (w : W) (change : CacheChange_t) : Z :=
  let n := Payload.length (inline_qos change) in
  let n := if negb (identity_eqb (related_sample_identity (write_params change)) unknown_identity)
           then u32 (n + 2 * PARAMETER_SAMPLE_IDENTITY_SIZE) else n in
  if negb (bool_decide (kind change = ALIVE)) && with_key w
  then u32 (u32 (n + PARAMETER_KEY_SIZE) + PARAMETER_STATUS_SIZE) else n.

Definition final_high_mark_for_frag (high_mark qos_size : Z) : Z :=
  if 0 <? qos_size then u32 (high_mark - u32 (PARAMETER_SENTINEL_SIZE + qos_size)) else high_mark.

(** [set_fragments]: the mark the history keeps and the change. *)
Definition set_fragments (w : W) (high_mark : Z) (change : CacheChange_t)
    : outcome (Z * CacheChange_t) :=
  let high_mark := if high_mark =? 0 then getMaxDataSize w else high_mark in
  let final := final_high_mark_for_frag high_mark (inline_qos_size w change) in
  if final <? Payload.length (serializedPayload change) then
    change ← setFragmentSize change (u16 (Z.min final get_max_fragment_payload_size)) false;
    mret (high_mark, change)
  else mret (high_mark, change).

(** *** Adding *)

(** The change with the fields [prepare_and_add_change] assigns. *)
Definition stamped (c : CacheChange_t) (seq : SN.SequenceNumber_t) (timestamp : Time_t)
    (wparams : WriteParams) : CacheChange_t :=
  mkChange (kind c) (writerGUID c) (instanceHandle c) seq (serializedPayload c) (inline_qos c)
    (isRead c) timestamp (receptionTimestamp c) (vendor_id c) wparams (is_untyped_ c)
    (fragment_size_ c) (fragment_count_ c) (first_missing_fragment_ c).

(** [prepare_and_add_change]: the change as stored, or [None] when refused, and
    the write parameters given back.  [now] is what [Time_t::now] reads. *)
Definition prepare_and_add_change h (a_change : CacheChange_t) (wparams : WriteParams) (now : Time_t)
    : outcome (WriterHistory * option CacheChange_t * WriteParams) :=
  let b := hist h in
  if Guid.neqb (writerGUID a_change) (getGuid (mp_writer h)) then mret (h, None, wparams)
  else if bool_decide (memoryPolicy (m_att b) = PREALLOCATED_MEMORY_MODE)
    && (payloadMaxSize (m_att b) <? Payload.length (serializedPayload a_change))
  then mret (h, None, wparams)
  else if m_isHistoryFull b then mret (h, None, wparams)
  else
    let seq := SN.incr (m_lastCacheChangeSeqNum h) in
    let timestamp := if seconds (source_timestamp wparams) <? 0 then now else source_timestamp wparams in
    let change := stamped a_change seq timestamp wparams in
    let id := mkIdentity (writerGUID change) (sequenceNumber change) in
    let wparams := mkParams id id (source_timestamp wparams) in
    '(high_mark, change) ← set_fragments (mp_writer h) (high_mark_for_frag_ h) change;
    let changes := m_changes b ++ [change] in
    let full := s32 (Z.of_nat (length changes)) =? maximumReservedCaches (m_att b) in
    mret (mkWriterHistory (mkHistory (m_att b) changes (full || m_isHistoryFull b) (attached b))
            seq high_mark (mp_writer h), Some change, wparams).

(** [RTPSWriter::get_seq_num_min] and [get_seq_num_max]. *)
Definition get_seq_num_min h : SN.SequenceNumber_t :=
  match get_min_change (hist h) with
  | Some change => sequenceNumber change
  | None => SN.c_SequenceNumber_Unknown
  end.

Definition get_seq_num_max h : SN.SequenceNumber_t :=
  match get_max_change (hist h) with
  | Some change => sequenceNumber change
  | None => SN.c_SequenceNumber_Unknown
  end.

Definition writer_matches h (inner_change outer_change : CacheChange_t) : bool :=
  Guid.eqb (writerGUID outer_change) (getGuid (mp_writer h))
  && SN.eqb (sequenceNumber inner_change) (sequenceNumber outer_change).

End Info.
Arguments WriterHistory : clear implicits.

Section Writer.
Context {W : Type} `{!HistoryWriter W}.
Implicit Types h : WriterHistory W.

Definition notify_writer h (a_change : CacheChange_t) : WriterHistory W :=
  with_writer h (unsent_change_added_to_history (mp_writer h) a_change).

Definition add_change_ h (a_change : CacheChange_t) (wparams : WriteParams) (now : Time_t)
    : outcome (WriterHistory W * WriteParams * bool) :=
  if negb (attached (hist h)) then mret (h, wparams, false)
  else
    '(h, stored, wparams) ← prepare_and_add_change h a_change wparams now;
    match stored with
    | None => mret (h, wparams, false)
    | Some change => mret (notify_writer h change, wparams, true)
    end.

Definition default_params : WriteParams :=
  mkParams unknown_identity unknown_identity (mkTime (-1) 4294967295).

Definition add_change h (a_change : CacheChange_t) (now : Time_t) : outcome (WriterHistory W * bool) :=
  '(h, _, ok) ← add_change_ h a_change default_params now; mret (h, ok).

(** *** Removing *)

Definition remove_nts h (removal : nat) (release : bool) : WriterHistory W * nat :=
  let b := hist h in
  if negb (attached b) then (h, removal)
  else match m_changes b !! removal with
  | None => (h, length (m_changes b))
  | Some change =>
      let '(w, gone) := change_removed_by_history (mp_writer h) change in
      if gone then
        let w := if release then release_change w change else w in
        (with_hist (with_writer h w) (erase b removal), removal)
      else (with_writer h w, removal)
  end.

#[export] Instance writer_history_impl : HistoryImpl (WriterHistory W) := {|
  base := hist;
  impl_matches := writer_matches;
  impl_remove_nts := remove_nts
|}.

Definition remove_change_g h (a_change : CacheChange_t) : outcome (WriterHistory W * bool) :=
  remove_change h a_change.

(** The result of the removal is not looked at. *)
Definition remove_change_and_reuse h (seq : SN.SequenceNumber_t) : WriterHistory W * option CacheChange_t :=
  if negb (attached (hist h)) then (h, None)
  else
    let ch := reference_change (getGuid (mp_writer h)) seq in
    let it := find_if (λ c, writer_matches h c ch) (m_changes (hist h)) in
    match m_changes (hist h) !! it with
    | None => (h, None)
    | Some removal => let '(h, _) := remove_nts h it false in (h, Some removal)
    end.

Definition remove_change_seq h (seq : SN.SequenceNumber_t) : WriterHistory W * bool :=
  match remove_change_and_reuse h seq with
  | (h, Some p) => (with_writer h (release_change (mp_writer h) p), true)
  | (h, None) => (h, false)
  end.

Definition remove_min_change h : outcome (WriterHistory W * bool) :=
  if negb (attached (hist h)) then mret (h, false)
  else match m_changes (hist h) with
  | front :: _ => remove_change_g h front
  | [] => mret (h, false)
  end.

(** [remove_all_changes] of a writer's history: the loop, [clear] and the flag. *)
Definition remove_all_changes (fuel : nat) h : outcome (WriterHistory W * bool) :=
  if negb (attached (hist h)) then mret (h, false)
  else match m_changes (hist h) with
  | [] => mret (h, false)
  | _ :: _ =>
      h ← remove_fronts fuel h;
      mret (with_hist h (mkHistory (m_att (hist h)) [] false (attached (hist h))), true)
  end.

End Writer.
End WriterHistory.

#[export] Existing Instance WriterHistory.writer_info.

(** ** Reader histories *)

Module ReaderHistory.
Import CacheChange.
Import History.

(** The reader as its history sees it. *)
Class HistoryReader (R : Type) := {
  change_removed_by_history : R → CacheChange_t → R;
  releaseCache : R → CacheChange_t → R
}.

Definition time_ltb (t1 t2 : Time_t) : bool :=
  if seconds t1 <? seconds t2 then true
  else if seconds t2 <? seconds t1 then false
  else fraction t1 <? fraction t2.

Definition history_order_cmp (lhs rhs : CacheChange_t) : bool :=
  if Guid.eqb (writerGUID lhs) (writerGUID rhs)
  then SN.ltb (sequenceNumber lhs) (sequenceNumber rhs)
  else time_ltb (sourceTimestamp lhs) (sourceTimestamp rhs).

(** [sorted_vector_insert]: at the end unless the item goes before the last. *)
Definition sorted_vector_insert {A} (pred : A → A → bool) (collection : list A) (item : A)
    : outcome (list A) :=
  let insert_at it := take it collection ++ item :: drop it collection in
  match last collection with
  | Some back =>
      if pred item back then it ← lower_bound (λ x, pred x item) collection; mret (insert_at it)
      else mret (insert_at (length collection))
  | None => mret (insert_at (length collection))
  end.

Section Reader.
Context {R : Type} `{!HistoryReader R}.

Record ReaderHistory := mkReaderHistory { hist : History; mp_reader : R }.

Implicit Types h : ReaderHistory.

(** Whether the change can be added, and otherwise whether it never will be. *)
Definition can_change_be_added_nts h (writer_guid : Guid.GUID_t) (total_payload_size : Z)
    : bool * bool :=
  if bool_decide (memoryPolicy (m_att (hist h)) = PREALLOCATED_MEMORY_MODE)
    && (payloadMaxSize (m_att (hist h)) <? total_payload_size) then (false, true)
  else if Guid.eqb writer_guid Guid.c_Guid_Unknown then (false, true)
  else (true, false).

Definition add_change h (a_change : CacheChange_t) : outcome (ReaderHistory * bool) :=
  let b := hist h in
  if negb (attached b) then mret (h, false)
  else if bool_decide (memoryPolicy (m_att b) = PREALLOCATED_MEMORY_MODE)
    && (payloadMaxSize (m_att b) <? Payload.length (serializedPayload a_change)) then mret (h, false)
  else
    changes ← sorted_vector_insert history_order_cmp (m_changes b) a_change;
    mret (mkReaderHistory (mkHistory (m_att b) changes (m_isHistoryFull b) (attached b)) (mp_reader h),
          true).

Definition received_change h (change : CacheChange_t) (unknown_missing_changes_up_to : Z)
    : outcome (ReaderHistory * bool) := add_change h change.

Definition reader_matches h (inner_change outer_change : CacheChange_t) : bool :=
  SN.eqb (sequenceNumber inner_change) (sequenceNumber outer_change)
  && Guid.eqb (writerGUID inner_change) (writerGUID outer_change).

Definition remove_nts h (removal : nat) (release : bool) : ReaderHistory * nat :=
  let b := hist h in
  if negb (attached b) then (h, removal)
  else match m_changes b !! removal with
  | None => (h, length (m_changes b))
  | Some change =>
      let r := change_removed_by_history (mp_reader h) change in
      let r := if release then releaseCache r change else r in
      (mkReaderHistory (erase b removal) r, removal)
  end.

#[export] Instance reader_history_impl : HistoryImpl ReaderHistory := {|
  base := hist;
  impl_matches := reader_matches;
  impl_remove_nts := remove_nts
|}.

(** The loop of [remove_changes_with_pred] from [chit] on. *)
Fixpoint remove_with_pred (fuel : nat) (pred : CacheChange_t → bool) h (chit : nat)
    : outcome ReaderHistory :=
  match m_changes (hist h) !! chit with
  | None => mret h
  | Some c =>
      match fuel with
      | O => Unfinished
      | S fuel =>
          if pred c then let '(h, chit) := remove_nts h chit true in remove_with_pred fuel pred h chit
          else remove_with_pred fuel pred h (S chit)
      end
  end.

Definition remove_changes_with_pred (ndebug : bool) (pred : CacheChange_t → bool) h
    : outcome ReaderHistory :=
  assert_ ndebug (attached (hist h));;
  if attached (hist h) then remove_with_pred (length (m_changes (hist h))) pred h 0 else Undefined.

(** The sequence number last notified is not looked at. *)
Definition writer_unmatched (ndebug : bool) h (writer_guid : Guid.GUID_t)
    (last_notified_seq : SN.SequenceNumber_t) : outcome ReaderHistory :=
  remove_changes_with_pred ndebug (λ ch, Guid.eqb writer_guid (writerGUID ch)) h.

Definition remove_changes_with_guid (ndebug : bool) h (a_guid : Guid.GUID_t)
    : outcome (ReaderHistory * bool) :=
  if negb (attached (hist h)) then mret (h, false)
  else h ← remove_changes_with_pred ndebug (λ ch, Guid.eqb a_guid (writerGUID ch)) h; mret (h, true).

(** The loop of [remove_fragmented_changes_until] from [chit] on. *)
Fixpoint remove_fragmented (fuel : nat) (seq_num : SN.SequenceNumber_t) (writer_guid : Guid.GUID_t)
    h (chit : nat) : outcome ReaderHistory :=
  match m_changes (hist h) !! chit with
  | None => mret h
  | Some item =>
      match fuel with
      | O => Unfinished
      | S fuel =>
          if Guid.eqb (writerGUID item) writer_guid then
            if SN.ltb (sequenceNumber item) seq_num then
              if negb (is_fully_assembled item) then
                let '(h, chit) := remove_nts h chit true in
                remove_fragmented fuel seq_num writer_guid h chit
              else remove_fragmented fuel seq_num writer_guid h (S chit)
            else mret h
          else remove_fragmented fuel seq_num writer_guid h (S chit)
      end
  end.

Definition remove_fragmented_changes_until h (seq_num : SN.SequenceNumber_t)
    (writer_guid : Guid.GUID_t) : outcome (ReaderHistory * bool) :=
  if negb (attached (hist h)) then mret (h, false)
  else h ← remove_fragmented (length (m_changes (hist h))) seq_num writer_guid h 0; mret (h, true).

Definition get_min_change_from h (writerGuid : Guid.GUID_t) : option CacheChange_t :=
  m_changes (hist h) !! find_if (λ c, Guid.eqb (writerGUID c) writerGuid) (m_changes (hist h)).

End Reader.
Arguments ReaderHistory : clear implicits.
End ReaderHistory.
