(* ===== verification/HistoryFacts.v ===== *)
(** * What the histories promise

    The search of a history and its hints; a writer's history as a finite map from
    sequence numbers to changes; what fragmentation leaves; the order of a reader's
    history, with the timestamps it needs, and the removals from it. *)

From S2P Require Import Prelude.
From S2P Require Import SeqNum.
From S2P Require Import Guid.
From S2P Require Import CacheChange.
From S2P Require Import Pools.
From S2P Require Import History.
From stdpp Require Import gmap.
#[local] Open Scope Z_scope.
#[local] Existing Instance Guid.GUID_eq_dec.
#[local] Existing Instance SN.SequenceNumber_eq_dec.

Module HistorySearch.
Import CacheChange History.

(** ** Searching a vector *)

Lemma find_if_lt {A} (p : A → bool) l x : l !! find_if p l = Some x → p x = true.
Proof.
  induction l as [|y l IH]; simpl; [done|]. destruct (p y) eqn:E; [|exact IH].
  simpl. intros [= ->]. exact E.
Qed.

Lemma find_if_before {A} (p : A → bool) l i x :
  (i < find_if p l)%nat → l !! i = Some x → p x = false.
Proof.
  revert i. induction l as [|y l IH]; intros i; simpl; [lia|].
  destruct (p y) eqn:E; [lia|]. destruct i as [|i]; simpl.
  - intros _ [= ->]. exact E.
  - intros Hi. apply IH. lia.
Qed.

Lemma find_if_le {A} (p : A → bool) l : (find_if p l <= length l)%nat.
Proof. induction l as [|y l IH]; simpl; [lia|]. destruct (p y); lia. Qed.

Lemma find_if_none {A} (p : A → bool) l :
  l !! find_if p l = None ↔ Forall (λ x, p x = false) l.
Proof.
  induction l as [|y l IH]; simpl; [split; [constructor|done]|].
  destruct (p y) eqn:E; simpl.
  - split; [done|]. intros Hl. inversion Hl. congruence.
  - rewrite IH, Forall_cons. tauto.
Qed.

Lemma find_if_ext {A} (p q : A → bool) l :
  Forall (λ x, p x = q x) l → find_if p l = find_if q l.
Proof. induction 1 as [|x l Hx _ IH]; simpl; [done|]. rewrite Hx, IH. done. Qed.

(** A search for what is rarer may start where the other ended. *)
Lemma find_if_resume {A} (p q : A → bool) l :
  (∀ x, q x = true → p x = true) →
  find_if q l = (find_if p l + find_if q (drop (find_if p l) l))%nat.
Proof.
  intros Hqp. induction l as [|x l IH]; simpl; [done|].
  destruct (p x) eqn:Ep; simpl; [done|].
  destruct (q x) eqn:Eq; [specialize (Hqp x Eq); congruence|]. by rewrite IH.
Qed.

(** On a vector in which nothing that comes before follows something that does
    not, [lower_bound] is the place between the two. *)
Lemma lower_bound_split {A} (before : A → bool) l :
  StronglySorted (λ x y, before x = false → before y = false) l →
  ∃ it, lower_bound before l = Done it ∧
    Forall (λ x, before x = true) (take it l) ∧ Forall (λ x, before x = false) (drop it l).
Proof.
  intros Hs. unfold lower_bound. induction Hs as [|x l Hs IH Hx]; simpl; [by exists 0%nat|].
  destruct (before x) eqn:E; simpl.
  - destruct IH as (it & Hit & Ht & Hd). exists (S it). simpl.
    destruct (forallb _ _); [|done]. injection Hit as ->. split; [done|]. split; [by constructor|done].
  - exists 0%nat. rewrite E. simpl.
    assert (Forall (λ y, before y = false) l) as Hl.
    { eapply Forall_impl; [exact Hx|]. intros y Hy. by apply Hy. }
    replace (forallb _ l) with true; [split; [done|]; split; [constructor|by constructor]|].
    symmetry. apply forallb_forall. intros y Hy%list_elem_of_In. rewrite Forall_forall in Hl.
    by rewrite Hl.
Qed.

Lemma filter_all {A} (P : A → Prop) `{!∀ x, Decision (P x)} (l : list A) :
  Forall P l → filter P l = l.
Proof. induction 1 as [|x l Hx _ IH]; [done|]. by rewrite filter_cons_True, IH. Qed.

Definition number (c : CacheChange_t) : Z := SN.val (sequenceNumber c).

Definition wf_change (c : CacheChange_t) : Prop :=
  SN.wf (sequenceNumber c) ∧ Guid.wf (writerGUID c).

Definition is_change (g : Guid.GUID_t) (s : SN.SequenceNumber_t) (c : CacheChange_t) : Prop :=
  writerGUID c = g ∧ sequenceNumber c = s.

#[export] Instance is_change_dec g s c : Decision (is_change g s c).
Proof. unfold is_change. apply _. Defined.

(** The changes of each writer come in the order of their sequence numbers. *)
Definition ordered (g : Guid.GUID_t) (l : list CacheChange_t) : Prop :=
  StronglySorted Z.lt (number <$> filter (λ c, writerGUID c = g) l).

(** Where the search stops. *)
Definition at_or_past (g : Guid.GUID_t) (s : SN.SequenceNumber_t) (c : CacheChange_t) : bool :=
  Guid.eqb (writerGUID c) g && (SN.eqb (sequenceNumber c) s || SN.gtb (sequenceNumber c) s).

Lemma search_change_stop s g l it :
  search_change s g l it =
  (c ← l !! find_if (at_or_past g s) l; if SN.eqb (sequenceNumber c) s then Some c else None,
   (it + find_if (at_or_past g s) l)%nat).
Proof.
  revert it. induction l as [|c l IH]; intros it; simpl; [by rewrite Nat.add_0_r|].
  unfold at_or_past at 1 3. destruct (Guid.eqb (writerGUID c) g); simpl.
  - destruct (SN.eqb (sequenceNumber c) s) eqn:E; simpl; [by rewrite E, Nat.add_0_r|].
    destruct (SN.gtb (sequenceNumber c) s); simpl; [by rewrite E, Nat.add_0_r|].
    rewrite IH. f_equal. lia.
  - rewrite IH. f_equal. lia.
Qed.

Lemma at_or_past_iff g s c :
  Guid.wf g → SN.wf s → wf_change c →
  at_or_past g s c = true ↔ writerGUID c = g ∧ SN.val s <= number c.
Proof.
  intros Hg Hs [Hsn Hgc]. unfold at_or_past, number.
  rewrite andb_true_iff, (Guid.guid_eqb_eq _ _ Hgc Hg), orb_true_iff.
  rewrite SN.eqb_val, SN.gtb_val, Z.eqb_eq, Z.ltb_lt by done. intuition lia.
Qed.

Lemma ordered_cons g c l :
  ordered g (c :: l) → ordered g l ∧
  (writerGUID c = g → Forall (λ d, writerGUID d = g → number c < number d) l).
Proof.
  unfold ordered. rewrite filter_cons. case_decide as E; [|done]. simpl.
  intros [Hl Hc]%StronglySorted_inv. split; [done|]. intros _.
  rewrite Forall_fmap, Forall_forall in Hc. apply Forall_forall. intros d Hd Hg.
  apply (Hc d), list_elem_of_filter. done.
Qed.

Lemma search_change_exact s g l it :
  Guid.wf g → SN.wf s → Forall wf_change l → ordered g l →
  (search_change s g l it).1 = snd <$> list_find (is_change g s) l.
Proof.
  intros Hg Hs. revert it. induction l as [|c l IH]; intros it Hl Hord; [done|].
  apply Forall_cons in Hl as [[Hsn Hgc] Hl]. apply ordered_cons in Hord as [Hord Hc]. simpl.
  destruct (decide (writerGUID c = g)) as [E|E].
  - rewrite (proj2 (Guid.guid_eqb_eq _ _ Hgc Hg) E).
    destruct (SN.eqb (sequenceNumber c) s) eqn:Es.
    + apply SN.eqb_eq in Es. by rewrite (decide_True (P := is_change g s c)).
    + assert (sequenceNumber c ≠ s) as Hne by (intros F; apply SN.eqb_eq in F; congruence).
      rewrite (decide_False (P := is_change g s c)) by (intros [_ ?]; done).
      rewrite SN.gtb_val by done. destruct (SN.val s <? SN.val (sequenceNumber c)) eqn:Ev.
      * apply Z.ltb_lt in Ev. rewrite (proj2 (list_find_None _ _)); [done|].
        specialize (Hc E). rewrite Forall_forall in Hc |- *. intros d Hd [Hdg Hds].
        specialize (Hc d Hd Hdg). unfold number in Hc. rewrite Hds in Hc. lia.
      * rewrite IH by done. destruct (list_find _ l) as [[]|]; done.
  - destruct (Guid.eqb (writerGUID c) g) eqn:Eg;
      [by apply (Guid.guid_eqb_eq _ _ Hgc Hg) in Eg|].
    rewrite (decide_False (P := is_change g s c)) by (intros [? _]; done).
    rewrite IH by done. destruct (list_find _ l) as [[]|]; done.
Qed.

(** The search of a history, which stops at the first later change of the
    writer, is a search through the whole vector: [get_change] returns the change
    of that writer with that number when there is one and nothing otherwise, as
    long as each writer's changes are in order.  The iterator it returns is a
    sound hint: a search that starts there for the same or a later number of that
    writer gives what a search from the earlier hint gives. *)
Theorem get_change_exact (h : History) seq g
    (Hatt : attached h = true) (Hg : Guid.wf g) (Hseq : SN.wf seq)
    (Hwf : Forall wf_change (m_changes h)) (Hord : ordered g (m_changes h)) :
  get_change h seq g = snd <$> list_find (is_change g seq) (m_changes h) ∧
  ∀ earlier hint, SN.wf earlier → SN.val earlier <= SN.val seq →
    get_change_nts h seq g (get_change_nts h earlier g hint).2 = get_change_nts h seq g hint.
Proof.
  split.
  - unfold get_change. rewrite Hatt. unfold get_change_nts. rewrite drop_0. by apply search_change_exact.
  - intros earlier hint Hearlier Hle. unfold get_change_nts.
    rewrite (search_change_stop earlier). simpl. rewrite <-drop_drop.
    set (l := drop hint (m_changes h)).
    assert (Forall wf_change l) as Hl by by apply Forall_drop.
    rewrite !search_change_stop. set (p := at_or_past g earlier). set (q := at_or_past g seq).
    assert (find_if q l = (find_if p l + find_if q (drop (find_if p l) l))%nat) as Hresume.
    { transitivity (find_if (λ c, q c && p c) l).
      - apply find_if_ext. eapply Forall_impl; [exact Hl|]. intros c Hc. simpl.
        destruct (q c) eqn:Eq; [|done]. symmetry. apply at_or_past_iff; [done..|].
        apply at_or_past_iff in Eq; [|done..]. destruct Eq. split; [done|lia].
      - rewrite (find_if_resume p _ l) by (intros x [_ Hx]%andb_true_iff; done).
        f_equal. apply find_if_ext, Forall_drop. eapply Forall_impl; [exact Hl|]. intros c Hc. simpl.
        destruct (q c) eqn:Eq; [|done]. simpl. apply at_or_past_iff; [done..|].
        apply at_or_past_iff in Eq; [|done..]. destruct Eq. split; [done|lia]. }
    rewrite Hresume, lookup_drop. f_equal. lia.
Qed.

End HistorySearch.

(** ** A writer's history is a map *)

Module WriterHistoryFacts.
Import CacheChange History WriterHistory HistorySearch.

(** What the history relies on: the writer keeps its GUID. *)
Class HistoryWriterLaws (W : Type) `{HistoryWriter W} := {
  removed_guid w c : getGuid (change_removed_by_history w c).1 = getGuid w;
  released_guid w c : getGuid (release_change w c) = getGuid w;
  unsent_guid w c : getGuid (unsent_change_added_to_history w c) = getGuid w
}.

Section info.
Context {W : Type} `{WriterInfo W}.
Implicit Types h : WriterHistory W.

Definition own h (c : CacheChange_t) : Prop :=
  SN.wf (sequenceNumber c) ∧ writerGUID c = getGuid (mp_writer h) ∧
  0 < number c <= SN.val (m_lastCacheChangeSeqNum h).

Record history_ok h : Prop := {
  ok_guid : Guid.wf (getGuid (mp_writer h));
  ok_attached : attached (hist h) = true;
  ok_last : SN.wf (m_lastCacheChangeSeqNum h) ∧ 0 <= SN.val (m_lastCacheChangeSeqNum h);
  ok_own : Forall (own h) (m_changes (hist h));
  ok_sorted : StronglySorted Z.lt (number <$> m_changes (hist h));
  ok_max : is_s32 (maximumReservedCaches (m_att (hist h))) ∧ 0 <= maximumReservedCaches (m_att (hist h));
  ok_size : 0 < maximumReservedCaches (m_att (hist h)) →
    Z.of_nat (length (m_changes (hist h))) <= maximumReservedCaches (m_att (hist h));
  ok_full : m_isHistoryFull (hist h) = true ↔
    0 < maximumReservedCaches (m_att (hist h)) ∧
    Z.of_nat (length (m_changes (hist h))) = maximumReservedCaches (m_att (hist h))
}.

(** What a history stands for. *)
Definition contents (l : list CacheChange_t) : gmap Z CacheChange_t :=
  list_to_map ((λ c, (number c, c)) <$> l).

Lemma contents_lookup l n c :
  StronglySorted Z.lt (number <$> l) →
  contents l !! n = Some c ↔ c ∈ l ∧ number c = n.
Proof.
  intros Hs%StronglySorted_lt_NoDup. unfold contents.
  rewrite <-elem_of_list_to_map by (rewrite <-list_fmap_compose; exact Hs).
  rewrite list_elem_of_fmap. split.
  - intros (d & [= -> ->] & Hd). done.
  - intros [Hc <-]. by exists c.
Qed.

Lemma contents_snoc l c :
  StronglySorted Z.lt (number <$> l) → Forall (λ d, number d < number c) l →
  contents (l ++ [c]) = <[number c := c]> (contents l).
Proof.
  intros _ Hl. unfold contents. rewrite fmap_app, list_to_map_app. simpl.
  rewrite <-insert_union_r, (right_id_L ∅ _); [done|].
  apply not_elem_of_list_to_map. rewrite <-list_fmap_compose.
  intros (d & Hd & Hin)%list_elem_of_fmap. rewrite Forall_forall in Hl.
  specialize (Hl d Hin). simpl in Hd. lia.
Qed.

Lemma sorted_delete l i :
  StronglySorted Z.lt (number <$> l) → StronglySorted Z.lt (number <$> delete i l).
Proof.
  revert i. induction l as [|c l IH]; intros i Hs; [done|]. simpl in Hs.
  apply StronglySorted_inv in Hs as [Hs Hc]. destruct i as [|i]; simpl; [done|].
  constructor; [by apply IH|]. rewrite Forall_fmap in Hc |- *. by apply Forall_delete.
Qed.

Lemma contents_delete l i c :
  StronglySorted Z.lt (number <$> l) → l !! i = Some c →
  contents (delete i l) = delete (number c) (contents l).
Proof.
  intros Hs Hi. apply map_eq. intros n. apply option_eq. intros d.
  rewrite contents_lookup by by apply sorted_delete.
  rewrite lookup_delete_Some, (contents_lookup l) by done.
  rewrite !list_elem_of_lookup. split.
  - intros [[j Hj] Hn].
    assert (∃ j', j' ≠ i ∧ l !! j' = Some d) as (j' & Hne & Hj').
    { destruct (decide (j < i)%nat).
      - rewrite list_lookup_delete_lt in Hj by lia. exists j. split; [lia|done].
      - rewrite list_lookup_delete_ge in Hj by lia. exists (S j). split; [lia|done]. }
    split; [|by split; [exists j'|]]. intros Heq. apply Hne.
    apply StronglySorted_lt_NoDup in Hs. apply (NoDup_lookup _ j' i (number d) Hs);
      rewrite list_lookup_fmap; [rewrite Hj'|rewrite Hi]; simpl; congruence.
  - intros (Hne & [j Hj] & Hn). split; [|done].
    destruct (decide (j < i)%nat); [exists j; by rewrite list_lookup_delete_lt by lia|].
    destruct (decide (j = i)) as [->|]; [congruence|].
    exists (j - 1)%nat. rewrite list_lookup_delete_ge by lia.
    by replace (S (j - 1)) with j by lia.
Qed.

(** *** Adding *)

(** Fragmentation touches nothing but the fields that describe fragments. *)
Lemma set_fragments_done (w : W) m c :
  ∃ m' c' size count first, set_fragments w m c = Done (m', c') ∧
    c' = with_fragments c size count first.
Proof.
  unfold set_fragments. cbv zeta. set (m' := if m =? 0 then _ else m).
  destruct (_ <? _); [|exists m', c, (fragment_size_ c), (fragment_count_ c),
    (first_missing_fragment_ c); split; [done|by destruct c]].
  unfold setFragmentSize. cbv zeta. destruct (0 <? _); by eexists m', _, _, _, _.
Qed.

Definition accepts h (c : CacheChange_t) : Prop :=
  writerGUID c = getGuid (mp_writer h) ∧
  (memoryPolicy (m_att (hist h)) = PREALLOCATED_MEMORY_MODE →
    Payload.length (serializedPayload c) <= payloadMaxSize (m_att (hist h))) ∧
  (0 < maximumReservedCaches (m_att (hist h)) →
    Z.of_nat (length (m_changes (hist h))) < maximumReservedCaches (m_att (hist h))).

Lemma refusals h c :
  history_ok h → Guid.wf (writerGUID c) →
  Guid.neqb (writerGUID c) (getGuid (mp_writer h)) = false →
  bool_decide (memoryPolicy (m_att (hist h)) = PREALLOCATED_MEMORY_MODE)
    && (payloadMaxSize (m_att (hist h)) <? Payload.length (serializedPayload c)) = false →
  m_isHistoryFull (hist h) = false → accepts h c.
Proof.
  intros Hok Hc. rewrite Guid.guid_neqb_negb, negb_false_iff, (Guid.guid_eqb_eq _ _ Hc (ok_guid _ Hok)).
  intros Hg Hmem Hfull. split; [done|]. split.
  - intros Hp. rewrite bool_decide_true in Hmem by done. by apply Z.ltb_ge in Hmem.
  - intros Hmax. pose proof (ok_size _ Hok Hmax). pose proof (ok_full _ Hok).
    destruct (decide (Z.of_nat (length (m_changes (hist h))) = maximumReservedCaches (m_att (hist h))));
      [|lia]. intuition congruence.
Qed.

Lemma accepted h c :
  history_ok h → Guid.wf (writerGUID c) → accepts h c →
  Guid.neqb (writerGUID c) (getGuid (mp_writer h)) = false ∧
  bool_decide (memoryPolicy (m_att (hist h)) = PREALLOCATED_MEMORY_MODE)
    && (payloadMaxSize (m_att (hist h)) <? Payload.length (serializedPayload c)) = false ∧
  m_isHistoryFull (hist h) = false.
Proof.
  intros Hok Hc (Hg & Hmem & Hsize).
  rewrite Guid.guid_neqb_negb, negb_false_iff, (Guid.guid_eqb_eq _ _ Hc (ok_guid _ Hok)).
  split; [done|]. split.
  - case_bool_decide as E; [|done]. simpl. apply Z.ltb_ge. auto.
  - apply not_true_is_false. rewrite (ok_full _ Hok). lia.
Qed.

(** The history after a change with the next number has been put at its end. *)
Lemma snoc_ok h (w : W) m c :
  history_ok h → accepts h c → getGuid w = getGuid (mp_writer h) →
  SN.val (m_lastCacheChangeSeqNum h) + 1 < 2 ^ 63 →
  Z.of_nat (length (m_changes (hist h))) + 1 < 2 ^ 31 →
  sequenceNumber c = SN.incr (m_lastCacheChangeSeqNum h) →
  let changes := m_changes (hist h) ++ [c] in
  let full := s32 (Z.of_nat (length changes)) =? maximumReservedCaches (m_att (hist h)) in
  let h' := mkWriterHistory (mkHistory (m_att (hist h)) changes (full || false) (attached (hist h)))
              (SN.incr (m_lastCacheChangeSeqNum h)) m w in
  history_ok h' ∧
  SN.val (m_lastCacheChangeSeqNum h') = SN.val (m_lastCacheChangeSeqNum h) + 1 ∧
  contents changes = <[SN.val (m_lastCacheChangeSeqNum h) + 1 := c]> (contents (m_changes (hist h))).
Proof.
  intros Hok (Hg & _ & Hroom) Hw Hlast Hlen Hseq changes full h'.
  destruct (ok_last _ Hok) as [Hwf Hnn]. pose proof (SN.incr_wf _ Hwf) as Hwf'.
  assert (SN.val (SN.incr (m_lastCacheChangeSeqNum h)) = SN.val (m_lastCacheChangeSeqNum h) + 1) as Hval
    by (apply SN.incr_val; [done|lia]).
  assert (number c = SN.val (m_lastCacheChangeSeqNum h) + 1) as Hnum by (unfold number; congruence).
  assert (Forall (λ d, number d < number c) (m_changes (hist h))) as Hbefore.
  { eapply Forall_impl; [apply (ok_own _ Hok)|]. intros d (_ & _ & ?). lia. }
  pose proof (ok_max _ Hok) as [Hs32 Hmax0]. split; [constructor; simpl|split; [exact Hval|]].
  - rewrite Hw. apply Hok.
  - apply Hok.
  - rewrite Hval. split; [done|lia].
  - subst changes. apply Forall_app. split.
    + eapply Forall_impl; [apply (ok_own _ Hok)|]. intros d (? & ? & ?). split; [done|]. simpl.
      split; [congruence|lia].
    + apply Forall_singleton. unfold own. simpl. rewrite Hnum, Hseq, Hval. split; [done|].
      split; [congruence|lia].
  - subst changes. rewrite fmap_app. apply StronglySorted_app_2; [|apply Hok|repeat constructor].
    intros x y (d & -> & Hd)%list_elem_of_fmap ->%list_elem_of_singleton.
    rewrite Forall_forall in Hbefore. by apply Hbefore.
  - done.
  - intros Hmax. specialize (Hroom Hmax). subst changes. rewrite length_app. simpl. lia.
  - subst full changes. rewrite orb_false_r, length_app, s32_small by (simpl; mlia). simpl.
    rewrite Z.eqb_eq. lia.
  - rewrite <-Hnum. apply contents_snoc; [apply Hok|done].
Qed.

(** What [prepare_and_add_change] does with a change, the writer apart. *)
Lemma prepare_spec h c p now :
  history_ok h → Guid.wf (writerGUID c) →
  SN.val (m_lastCacheChangeSeqNum h) + 1 < 2 ^ 63 →
  Z.of_nat (length (m_changes (hist h))) + 1 < 2 ^ 31 →
  ∃ h' p' o, prepare_and_add_change h c p now = Done (h', o, p') ∧ history_ok h' ∧
    (is_Some o ↔ accepts h c) ∧ mp_writer h' = mp_writer h ∧ m_att (hist h') = m_att (hist h) ∧
    match o with
    | Some stored =>
        m_changes (hist h') = m_changes (hist h) ++ [stored] ∧
        contents (m_changes (hist h')) =
          <[SN.val (m_lastCacheChangeSeqNum h) + 1 := stored]> (contents (m_changes (hist h))) ∧
        SN.val (m_lastCacheChangeSeqNum h') = SN.val (m_lastCacheChangeSeqNum h) + 1 ∧
        number stored = SN.val (m_lastCacheChangeSeqNum h) + 1 ∧
        serializedPayload stored = serializedPayload c ∧ kind stored = kind c ∧
        sample_identity p' = mkIdentity (getGuid (mp_writer h)) (sequenceNumber stored)
    | None => h' = h
    end.
Proof.
  intros Hok Hc Hlast Hlen. unfold prepare_and_add_change. cbv zeta.
  destruct (Guid.neqb _ _) eqn:E1; [|destruct (bool_decide _ && _) eqn:E2;
    [|destruct (m_isHistoryFull (hist h)) eqn:E3]];
    try (eexists h, p, None; split_and!; [done..| |done|done|done];
         split; [by intros []|]; intros Hacc%accepted; [destruct Hacc as (? & ? & ?); congruence|done..]).
  pose proof (refusals h c Hok Hc E1 E2 E3) as Hacc.
  edestruct set_fragments_done as (m & c' & size & count & first & Hset & Hc').
  rewrite Hset. cbn [mbind outcome_bind].
  assert (accepts h c') as Hacc' by (rewrite Hc'; exact Hacc).
  eexists _, _, (Some c'). split; [reflexivity|].
  destruct (snoc_ok h (mp_writer h) m c') as (Hok' & Hval & Hcont); [done|done|done|done|done|by rewrite Hc'|].
  split_and!; [exact Hok'|by split|done|done|done|exact Hcont|exact Hval| |by rewrite Hc'|by rewrite Hc'|].
  - unfold number. rewrite Hc'. simpl. by apply SN.incr_val; [apply Hok|lia].
  - rewrite Hc'. simpl. f_equal. apply Hacc.
Qed.

Lemma writer_ok h (w : W) : getGuid w = getGuid (mp_writer h) → history_ok h → history_ok (with_writer h w).
Proof.
  intros Hw []. constructor; simpl; try done; [by rewrite Hw|]. eapply Forall_impl; [done|].
  intros c (? & Hg & ?). split; [done|]. split; [|done]. simpl. by rewrite Hw.
Qed.

Lemma find_own h seq :
  history_ok h → SN.wf seq →
  m_changes (hist h) !! find_if (λ c, writer_matches h c (reference_change (getGuid (mp_writer h)) seq))
    (m_changes (hist h)) = contents (m_changes (hist h)) !! SN.val seq.
Proof.
  intros Hok Hseq. set (p := λ c, _).
  assert (Forall (λ c, p c = true ↔ number c = SN.val seq) (m_changes (hist h))) as Hp.
  { eapply Forall_impl; [apply (ok_own _ Hok)|]. intros c (Hwf & _). subst p. unfold writer_matches. simpl.
    rewrite (proj2 (Guid.guid_eqb_eq _ _ (ok_guid _ Hok) (ok_guid _ Hok)) eq_refl). simpl.
    unfold number. by rewrite SN.eqb_val, Z.eqb_eq. }
  rewrite Forall_forall in Hp.
  destruct (m_changes (hist h) !! find_if p (m_changes (hist h))) as [c|] eqn:E; symmetry.
  - apply contents_lookup; [apply Hok|]. pose proof (list_elem_of_lookup_2 _ _ _ E) as Hin.
    split; [done|]. apply Hp; [done|]. by apply find_if_lt in E.
  - apply find_if_none in E. rewrite Forall_forall in E. apply eq_None_not_Some. intros [c Hc].
    apply contents_lookup in Hc as [Hin Hn]; [|apply Hok]. apply Hp in Hn; [|done].
    rewrite E in Hn by done. done.
Qed.

Lemma erase_ok h i c :
  history_ok h → m_changes (hist h) !! i = Some c → history_ok (with_hist h (erase (hist h) i)).
Proof.
  intros Hok Hi. pose proof (ok_own _ Hok) as Hown. pose proof (lookup_lt_Some _ _ _ Hi) as Hlt.
  constructor; simpl; try apply Hok.
  - by apply Forall_delete.
  - apply sorted_delete, Hok.
  - intros Hmax. pose proof (ok_size _ Hok Hmax). rewrite length_delete by done. lia.
  - split; [done|]. intros [Hmax Heq]. pose proof (ok_size _ Hok Hmax).
    rewrite length_delete in Heq by done. lia.
Qed.

Lemma ordered_own h : history_ok h → ordered (getGuid (mp_writer h)) (m_changes (hist h)).
Proof.
  intros Hok. unfold ordered. rewrite filter_all; [apply Hok|].
  apply Forall_forall. pose proof (ok_own _ Hok) as Hown. rewrite Forall_forall in Hown. intros c Hc. by apply Hown.
Qed.

Lemma get_change_contents h seq :
  history_ok h → SN.wf seq →
  get_change (hist h) seq (getGuid (mp_writer h)) = contents (m_changes (hist h)) !! SN.val seq.
Proof.
  intros Hok Hseq. unfold get_change. rewrite (ok_attached _ Hok). unfold get_change_nts. rewrite drop_0.
  pose proof (ok_own _ Hok) as Hown.
  rewrite search_change_exact; [|apply Hok|done| |by apply ordered_own].
  2: { eapply Forall_impl; [exact Hown|]. intros c (? & Hg & _). split; [done|]. rewrite Hg. apply Hok. }
  rewrite Forall_forall in Hown. apply option_eq. intros c. rewrite contents_lookup by apply Hok.
  destruct (list_find _ _) as [[i d]|] eqn:E; simpl.
  - apply list_find_Some in E as (Hd & [_ Hs] & _). apply list_elem_of_lookup_2 in Hd.
    split; [intros [= <-]; unfold number; by rewrite Hs|]. intros [Hc Hn]. f_equal.
    assert (contents (m_changes (hist h)) !! SN.val seq = Some c) as E1 by (apply contents_lookup; [apply Hok|done]).
    assert (contents (m_changes (hist h)) !! SN.val seq = Some d) as E2
      by (apply contents_lookup; [apply Hok|]; unfold number; by rewrite Hs). congruence.
  - apply list_find_None in E. rewrite Forall_forall in E. split; [done|]. intros [Hc Hn].
    destruct (E c Hc). destruct (Hown c Hc) as (? & ? & _). split; [done|]. by apply SN.val_inj.
Qed.

Lemma min_number h :
  history_ok h → m_changes (hist h) ≠ [] →
  is_Some (contents (m_changes (hist h)) !! SN.val (get_seq_num_min h)) ∧
  ∀ n, is_Some (contents (m_changes (hist h)) !! n) → SN.val (get_seq_num_min h) <= n.
Proof.
  intros Hok Hne. unfold get_seq_num_min, get_min_change. pose proof (ok_sorted _ Hok) as Hs.
  destruct (m_changes (hist h)) as [|c l] eqn:E; [done|]. simpl. split.
  - exists c. apply contents_lookup; [done|]. split; [left|done].
  - intros n [d [Hd <-]%contents_lookup]; [|done]. fold (number c).
    simpl in Hs. apply StronglySorted_inv in Hs as [_ Hall]. rewrite Forall_fmap, Forall_forall in Hall.
    apply elem_of_cons in Hd as [->|Hd]; [lia|]. specialize (Hall d Hd). simpl in Hall. lia.
Qed.

Lemma max_number h :
  history_ok h → m_changes (hist h) ≠ [] →
  is_Some (contents (m_changes (hist h)) !! SN.val (get_seq_num_max h)) ∧
  ∀ n, is_Some (contents (m_changes (hist h)) !! n) → n <= SN.val (get_seq_num_max h).
Proof.
  intros Hok Hne. unfold get_seq_num_max, get_max_change. pose proof (ok_sorted _ Hok) as Hs.
  destruct (exists_last Hne) as (l & c & E). rewrite E in Hs |- *. rewrite last_snoc. split.
  - exists c. apply contents_lookup; [done|]. split; [|done]. apply elem_of_app. right. by apply list_elem_of_singleton.
  - intros n [d [Hd <-]%contents_lookup]; [|done]. fold (number c). rewrite fmap_app in Hs.
    apply elem_of_app in Hd as [Hd| ->%list_elem_of_singleton]; [|lia].
    assert (number d < number c); [|lia].
    apply (StronglySorted_app_1_elem_of _ _ _ _ _ Hs); [by apply list_elem_of_fmap_2|left].
Qed.

End info.

Section writer.
Context {W : Type} `{HistoryWriterLaws W}.
Implicit Types h : WriterHistory W.

(** What [add_change_] does: a change that is accepted gets the next number and
    is put in the map under it. *)
Lemma add_change_spec h c p now :
  history_ok h → Guid.wf (writerGUID c) →
  SN.val (m_lastCacheChangeSeqNum h) + 1 < 2 ^ 63 →
  Z.of_nat (length (m_changes (hist h))) + 1 < 2 ^ 31 →
  ∃ h' p' ok, add_change_ h c p now = Done (h', p', ok) ∧ history_ok h' ∧ (ok = true ↔ accepts h c) ∧
    if ok then ∃ stored,
      contents (m_changes (hist h')) =
        <[SN.val (m_lastCacheChangeSeqNum h) + 1 := stored]> (contents (m_changes (hist h))) ∧
      SN.val (m_lastCacheChangeSeqNum h') = SN.val (m_lastCacheChangeSeqNum h) + 1 ∧
      number stored = SN.val (m_lastCacheChangeSeqNum h) + 1 ∧
      serializedPayload stored = serializedPayload c ∧ kind stored = kind c ∧
      sample_identity p' = mkIdentity (getGuid (mp_writer h)) (sequenceNumber stored)
    else h' = h.
Proof.
  intros Hok Hc Hlast Hlen. unfold add_change_. rewrite (ok_attached _ Hok). cbn [negb].
  destruct (prepare_spec h c p now Hok Hc Hlast Hlen) as (h' & p' & [stored|] & -> & Hok' & Hacc & Hw & _ & Ho);
    cbn [mbind outcome_bind].
  - destruct Ho as (_ & Hcont & Hval & Hnum & Hpay & Hkind & Hid). eexists _, _, true. split; [reflexivity|].
    split; [apply writer_ok; [apply unsent_guid|done]|]. split; [by rewrite <-Hacc|].
    exists stored. by split_and!.
  - eexists _, _, false. split; [reflexivity|]. split_and!; [done| |done].
    split; [done|]. intros Ha%Hacc. by destruct Ha.
Qed.

(** *** Removing *)

(** The answer of the writer to the removal of a change. *)
Definition lets_go h (c : CacheChange_t) : bool := (change_removed_by_history (mp_writer h) c).2.

Lemma remove_nts_spec h i c release :
  history_ok h → m_changes (hist h) !! i = Some c →
  ∃ h', remove_nts h i release = (h', i) ∧ history_ok h' ∧
    m_lastCacheChangeSeqNum h' = m_lastCacheChangeSeqNum h ∧
    getGuid (mp_writer h') = getGuid (mp_writer h) ∧
    m_changes (hist h') = (if lets_go h c then delete i (m_changes (hist h)) else m_changes (hist h)) ∧
    mp_writer h' =
      let w := (change_removed_by_history (mp_writer h) c).1 in
      if lets_go h c && release then release_change w c else w.
Proof.
  intros Hok Hi. unfold remove_nts, lets_go. rewrite (ok_attached _ Hok), Hi. cbn [negb].
  pose proof (removed_guid (mp_writer h) c) as Hguid.
  destruct (change_removed_by_history (mp_writer h) c) as [w gone]. simpl in Hguid |- *.
  assert (getGuid (if release then release_change w c else w) = getGuid (mp_writer h)) as Hw
    by (destruct release; [by rewrite released_guid|done]).
  destruct gone; (eexists; split; [reflexivity|]; simpl); (split; [|by split_and!]); [|by apply writer_ok].
  by apply (erase_ok (with_writer h (if release then release_change w c else w))) with (c := c), Hi; apply writer_ok.
Qed.

(** After an element has been removed from a sorted vector another number is at
    its place. *)
Lemma next_number l i c d :
  StronglySorted Z.lt (number <$> l) → l !! i = Some c → delete i l !! i = Some d → number c < number d.
Proof.
  intros Hs Hc. rewrite list_lookup_delete_ge by done. intros Hd.
  apply (StronglySorted_app_1_elem_of Z.lt (take (S i) (number <$> l)) (drop (S i) (number <$> l))).
  - by rewrite take_drop.
  - apply (list_elem_of_lookup_2 _ i). rewrite lookup_take_lt by lia. by rewrite list_lookup_fmap, Hc.
  - apply (list_elem_of_lookup_2 _ 0%nat). rewrite lookup_drop, Nat.add_0_r.
    by rewrite list_lookup_fmap, Hd.
Qed.

(** What [remove_change] does: the change is gone from the map if the writer lets
    it go, and the result says so. *)
Lemma remove_change_spec h seq ch :
  history_ok h → SN.wf seq → writerGUID ch = getGuid (mp_writer h) → sequenceNumber ch = seq →
  let found := contents (m_changes (hist h)) !! SN.val seq in
  let ok := from_option (lets_go h) false found in
  ∃ h', remove_change h ch = Done (h', ok) ∧ history_ok h' ∧
    m_lastCacheChangeSeqNum h' = m_lastCacheChangeSeqNum h ∧
    getGuid (mp_writer h') = getGuid (mp_writer h) ∧
    contents (m_changes (hist h')) =
      (if ok then delete (SN.val seq) (contents (m_changes (hist h))) else contents (m_changes (hist h))) ∧
    mp_writer h' = match found with
      | Some c => (if lets_go h c then λ w, release_change w c else id)
                    (change_removed_by_history (mp_writer h) c).1
      | None => mp_writer h
      end ∧
    ∃ i, (∀ c, found = Some c → m_changes (hist h) !! i = Some c) ∧
      m_changes (hist h') = if ok then delete i (m_changes (hist h)) else m_changes (hist h).
Proof.
  intros Hok Hwf Hg Hseq found ok. unfold remove_change, find_change_nts.
  cbn [base writer_history_impl impl_matches impl_remove_nts]. rewrite (ok_attached _ Hok).
  rewrite (find_if_ext _ (λ c, writer_matches h c (reference_change (getGuid (mp_writer h)) seq)))
    by (apply Forall_true; intros c; unfold writer_matches; simpl; by rewrite Hg, Hseq).
  pose proof (find_own h seq Hok Hwf) as Hfind. fold found in Hfind. set (it := find_if _ _) in *.
  rewrite Hfind. subst ok. destruct found as [c|] eqn:Ef; [|exists h; split_and!; [done..|by exists 0%nat]].
  destruct (remove_nts_spec h it c true Hok Hfind) as (h' & Hrem & Hok' & Hlast & Hguid & Hch & Hw).
  rewrite Hrem, Hch. subst found. apply contents_lookup in Ef as [Hin Hnum]; [|apply Hok].
  pose proof (ok_own _ Hok) as Hown. rewrite Forall_forall in Hown. destruct (Hown c Hin) as (Hcwf & Hcg & _).
  simpl from_option. destruct (lets_go h c) eqn:Egone.
  - exists h'. split; [|split_and!; [done..|rewrite Hch, <-Hnum; apply contents_delete; [apply Hok|done]|done|
      exists it; split; [by intros ? [= <-]|done]]].
    destruct (delete it _ !! it) as [d|] eqn:Ed; [|done].
    pose proof (next_number _ _ _ _ (ok_sorted _ Hok) Hfind Ed) as Hlt.
    unfold writer_matches at 1. simpl.
    replace (SN.eqb (sequenceNumber c) (sequenceNumber d)) with false; [by rewrite andb_false_r|].
    symmetry. apply not_true_is_false. intros E%SN.eqb_eq. unfold number in Hlt. rewrite E in Hlt. lia.
  - exists h'. split; [|split_and!; [done..|by rewrite Hch|done|exists it; split; [by intros ? [= <-]|done]]].
    rewrite Hfind.
    unfold writer_matches at 1. simpl. rewrite Hcg, Hguid.
    rewrite (proj2 (Guid.guid_eqb_eq _ _ (ok_guid _ Hok) (ok_guid _ Hok)) eq_refl).
    by rewrite (proj2 (SN.eqb_eq _ _) eq_refl).
Qed.

(** C9: a writer's history implements a finite map from sequence numbers to
    changes together with the last number given out.  Adding an acceptable change
    gives it the next number, binds it there in the map and tells the caller the
    sample's identity; a change that is not acceptable (of another writer, larger
    than a preallocated payload, or one too many) leaves the history as it is.
    Removing a change deletes its number from the map exactly if the writer lets
    it go, and says so.  Lookups are the map's lookups, and the first and last
    numbers a heartbeat announces are the least and the greatest of the map. *)
Theorem writer_history_refines_map h (Hok : history_ok h) :
  let m := contents (m_changes (hist h)) in
  let last := SN.val (m_lastCacheChangeSeqNum h) in
  (∀ c p now, Guid.wf (writerGUID c) → last + 1 < 2 ^ 63 →
    Z.of_nat (length (m_changes (hist h))) + 1 < 2 ^ 31 →
    ∃ h' p' ok, add_change_ h c p now = Done (h', p', ok) ∧ history_ok h' ∧ (ok = true ↔ accepts h c) ∧
      if ok then ∃ stored,
        contents (m_changes (hist h')) = <[last + 1 := stored]> m ∧
        SN.val (m_lastCacheChangeSeqNum h') = last + 1 ∧ number stored = last + 1 ∧
        serializedPayload stored = serializedPayload c ∧ kind stored = kind c ∧
        sample_identity p' = mkIdentity (getGuid (mp_writer h)) (sequenceNumber stored)
      else h' = h) ∧
  (∀ c, SN.wf (sequenceNumber c) → writerGUID c = getGuid (mp_writer h) →
    let ok := from_option (lets_go h) false (m !! number c) in
    ∃ h', remove_change h c = Done (h', ok) ∧ history_ok h' ∧
      m_lastCacheChangeSeqNum h' = m_lastCacheChangeSeqNum h ∧
      contents (m_changes (hist h')) = if ok then delete (number c) m else m) ∧
  (∀ seq, SN.wf seq → get_change (hist h) seq (getGuid (mp_writer h)) = m !! SN.val seq) ∧
  (m_changes (hist h) ≠ [] →
    (is_Some (m !! SN.val (get_seq_num_min h)) ∧
     ∀ n, is_Some (m !! n) → SN.val (get_seq_num_min h) <= n) ∧
    (is_Some (m !! SN.val (get_seq_num_max h)) ∧
     ∀ n, is_Some (m !! n) → n <= SN.val (get_seq_num_max h))).
Proof.
  split_and!.
  - intros c p now. by apply add_change_spec.
  - intros c Hwf Hg. destruct (remove_change_spec h (sequenceNumber c) c) as (h' & ? & ? & ? & ? & ? & _);
      [done..|]. by exists h'.
  - intros seq. by apply get_change_contents.
  - intros Hne. split; [by apply min_number|by apply max_number].
Qed.

(** [remove_change] by sequence number does not look at the answer of the
    writer.  When the writer does not let the change go, the change stays in the
    history, the caller is told that it was removed, and the change is given back
    to the pools all the same: the history is left with a change it does not own. *)
Theorem refused_removal_released h seq c
    (Hok : history_ok h) (Hseq : SN.wf seq)
    (Hfound : get_change (hist h) seq (getGuid (mp_writer h)) = Some c)
    (Hrefused : lets_go h c = false) :
  ∃ h', remove_change_seq h seq = (h', true) ∧ m_changes (hist h') = m_changes (hist h) ∧
    mp_writer h' = release_change (change_removed_by_history (mp_writer h) c).1 c.
Proof.
  rewrite get_change_contents, <-find_own in Hfound by done.
  unfold remove_change_seq, remove_change_and_reuse. rewrite (ok_attached _ Hok). cbn [negb]. cbv zeta.
  rewrite Hfound.
  destruct (remove_nts_spec h _ c false Hok Hfound) as (h' & Hrem & _ & _ & _ & Hch & Hw).
  rewrite Hrem. eexists. split; [reflexivity|]. unfold with_writer. simpl.
  rewrite Hch, Hw, Hrefused. done.
Qed.

(** What the writer is told when all changes are removed. *)
Definition let_all_go (w : W) (l : list CacheChange_t) : W :=
  foldl (λ w c, release_change (change_removed_by_history w c).1 c) w l.

(** One round of the loop. *)
Lemma remove_front h c l :
  history_ok h → m_changes (hist h) = c :: l →
  ∃ h', remove_change h c = Done (h', lets_go h c) ∧ history_ok h' ∧
    m_changes (hist h') = (if lets_go h c then l else c :: l) ∧
    mp_writer h' = (if lets_go h c then λ w, release_change w c else id)
      (change_removed_by_history (mp_writer h) c).1.
Proof.
  intros Hok E. pose proof (ok_own _ Hok) as Hown. pose proof (ok_sorted _ Hok) as Hs.
  rewrite E in Hown, Hs. apply Forall_cons in Hown as [(Hwf & Hg & _) _].
  assert (contents (m_changes (hist h)) !! number c = Some c) as Hfound.
  { rewrite E. apply contents_lookup; [done|]. split; [left|done]. }
  destruct (remove_change_spec h (sequenceNumber c) c Hok Hwf Hg eq_refl)
    as (h' & Hrem & Hok' & _ & _ & _ & Hw & i & Hi & Hch).
  fold (number c) in *. rewrite Hfound in *. simpl in Hrem, Hch. exists h'. split_and!; [done..| |done].
  rewrite Hch. specialize (Hi c eq_refl). rewrite E in *. destruct (lets_go h c); [|done].
  apply StronglySorted_lt_NoDup in Hs.
  assert (i = 0%nat) as ->; [|done]. apply (NoDup_lookup _ i 0 (number c) Hs); [|done].
  by rewrite list_lookup_fmap, Hi.
Qed.

Lemma remove_fronts_done h fuel :
  history_ok h → (∀ w c, (change_removed_by_history w c).2 = true) →
  (length (m_changes (hist h)) <= fuel)%nat →
  ∃ h', remove_fronts fuel h = Done h' ∧ history_ok h' ∧ m_changes (hist h') = [] ∧
    mp_writer h' = let_all_go (mp_writer h) (m_changes (hist h)).
Proof.
  intros Hok Hlet. revert h Hok. induction fuel as [|fuel IH]; intros h Hok Hlen;
    destruct (m_changes (hist h)) as [|c l] eqn:E; try (simpl in Hlen; lia);
    try (exists h; cbn [remove_fronts base writer_history_impl]; rewrite E; done).
  destruct (remove_front h c l Hok E) as (h' & Hrem & Hok' & Hl & Hw).
  unfold lets_go in Hl, Hw. rewrite Hlet in Hl, Hw.
  cbn [remove_fronts base writer_history_impl]. rewrite E, Hrem. cbn [mbind outcome_bind].
  destruct (IH h' Hok') as (h'' & -> & ? & ? & Hw''); [rewrite Hl; simpl in Hlen; lia|].
  exists h''. split_and!; [done..|]. rewrite Hw'', Hl, Hw. done.
Qed.

Lemma remove_fronts_stuck h fuel c l :
  history_ok h → m_changes (hist h) = c :: l → (∀ w, (change_removed_by_history w c).2 = false) →
  remove_fronts fuel h = Unfinished.
Proof.
  intros Hok E Hkeep. revert h Hok E. induction fuel as [|fuel IH]; intros h Hok E;
    cbn [remove_fronts base writer_history_impl]; rewrite E; [done|].
  destruct (remove_front h c l Hok E) as (h' & Hrem & Hok' & Hl & _). rewrite Hrem.
  cbn [mbind outcome_bind]. unfold lets_go in Hl. rewrite Hkeep in Hl. by apply IH.
Qed.

(** C33: [remove_all_changes] ends as soon as the writer lets every change go: in
    as many rounds as there are changes the history is empty, it can take changes
    again, and the writer has been told of and been given back each change once,
    oldest first.  When the writer never lets the oldest change go the loop never
    ends: it has not ended after any number of rounds. *)
Theorem remove_all_changes_ends h (Hok : history_ok h) (Hne : m_changes (hist h) ≠ []) :
  ((∀ w c, (change_removed_by_history w c).2 = true) →
    ∃ h', remove_all_changes (length (m_changes (hist h))) h = Done (h', true) ∧ history_ok h' ∧
      m_changes (hist h') = [] ∧ m_isHistoryFull (hist h') = false ∧
      mp_writer h' = let_all_go (mp_writer h) (m_changes (hist h))) ∧
  (∀ c, head (m_changes (hist h)) = Some c → (∀ w, (change_removed_by_history w c).2 = false) →
    ∀ fuel, remove_all_changes fuel h = Unfinished).
Proof.
  unfold remove_all_changes. rewrite (ok_attached _ Hok). cbn [negb].
  destruct (m_changes (hist h)) as [|c l] eqn:E; [done|]. split.
  - intros Hlet. destruct (remove_fronts_done h (length (c :: l)) Hok Hlet) as (h' & Hrem & Hok' & Hnil & Hw);
      [by rewrite E|].
    rewrite Hrem. cbn [mbind outcome_bind]. eexists. split; [reflexivity|]. simpl.
    rewrite E in Hw. split; [|done]. pose proof (ok_max _ Hok') as [].
    constructor; simpl; try apply Hok'; [constructor|constructor|lia|]. split; [done|lia].
  - intros d [= <-] Hkeep fuel. by rewrite (remove_fronts_stuck h fuel c l Hok E Hkeep).
Qed.

(** *** Fragmentation *)

Lemma inline_qos_size_u32 (w : W) c :
  is_u32 (Payload.length (inline_qos c)) → is_u32 (inline_qos_size w c).
Proof.
  intros Hc. unfold inline_qos_size. cbv zeta.
  repeat match goal with |- context [if ?b then _ else _] => destruct b end; auto with mint.
Qed.

Lemma fragment_count n size :
  0 <= n → 0 < size → n + size <= 2 ^ 32 →
  let count := u32 (n + size - 1) / size in size * (count - 1) < n <= size * count.
Proof.
  intros Hn Hsize Hsum. cbv zeta. rewrite u32_small by mlia.
  pose proof (Z.div_mod (n + size - 1) size). pose proof (Z.mod_pos_bound (n + size - 1) size). lia.
Qed.

(** With room for a change's inline QoS, a change of a writer is sent whole
    exactly if it fits, and otherwise cut in fragments of at most 65472 octets
    that fit and that cover the payload with none to spare.  When the inline QoS
    alone is larger than a message, the subtraction wraps around: the change is
    never fragmented, whatever its size. *)
Theorem fragmentation_bounds (w : W) m c
    (Hlen : is_u32 (Payload.length (serializedPayload c))) (Hqos : is_u32 (Payload.length (inline_qos c)))
    (Hm : is_u32 m) (Hmax : is_u32 (getMaxDataSize w)) :
  let mark := if m =? 0 then getMaxDataSize w else m in
  let q := inline_qos_size w c in
  let n := Payload.length (serializedPayload c) in
  let room := if 0 <? q then mark - PARAMETER_SENTINEL_SIZE - q else mark in
  ∃ c', set_fragments w m c = Done (mark, c') ∧
    (0 < room → n <= room → c' = c) ∧
    (0 < room → room < n → n + room <= 2 ^ 32 →
      fragment_size_ c' = Z.min room 65472 ∧
      fragment_size_ c' * (fragment_count_ c' - 1) < n <= fragment_size_ c' * fragment_count_ c' ∧
      is_fully_assembled c' = true) ∧
    (room < 0 → q < 2 ^ 32 - 4 → n <= 2 ^ 32 + room → c' = c).
Proof.
  cbv zeta. set (mark := if m =? 0 then _ else m). set (q := inline_qos_size w c).
  set (n := Payload.length _) in *. set (room := if 0 <? q then _ else mark).
  assert (is_u32 q) as Hq by by apply inline_qos_size_u32.
  assert (is_u32 mark) as Hmark by (subst mark; destruct (m =? 0); done).
  assert (final_high_mark_for_frag mark q = if (room <? 0) && (q <? 2 ^ 32 - 4) then 2 ^ 32 + room else
    if room <? 0 then final_high_mark_for_frag mark q else room) as Hfinal.
  { unfold final_high_mark_for_frag, PARAMETER_SENTINEL_SIZE in *. subst room. range_unfold.
    destruct (0 <? q) eqn:E; bool_case; simpl; try lia; wrap_unfold; bool_case;
      Z.to_euclidean_division_equations; lia. }
  unfold set_fragments. cbv zeta. fold mark q n. set (final := final_high_mark_for_frag mark q) in *.
  destruct (final <? n) eqn:Efrag; [apply Z.ltb_lt in Efrag|apply Z.ltb_ge in Efrag].
  - unfold setFragmentSize. cbv zeta. fold n.
    assert (0 < room → room < n → u16 (Z.min final get_max_fragment_payload_size) = Z.min room 65472) as Hsize.
    { intros Hr _. rewrite Hfinal. destruct (room <? 0) eqn:Er; [lia|]. simpl.
      rewrite u16_small; [done|]. unfold get_max_fragment_payload_size. range_unfold. lia. }
    set (size := u16 _) in *. destruct (0 <? size) eqn:E0; cbn [mbind outcome_bind];
      eexists; (split; [reflexivity|]); split_and!; try (intros; exfalso; revert Hfinal Efrag; bool_case; simpl; lia).
    intros Hr Hn Hsum. rewrite (Hsize Hr Hn) in *. simpl. split; [done|].
    split; [apply fragment_count; range_unfold; lia|]. unfold is_fully_assembled. simpl. lia.
  - exists c. split; [done|]. split_and!; [done| |done]. intros. exfalso.
    revert Hfinal Efrag. bool_case; simpl; lia.
Qed.

End writer.

(** *** A writer that notes what it is told *)

Record NotingWriter := mkNoting { refuses : bool; added : list Z; released : list Z }.

Definition noting_guid : Guid.GUID_t :=
  Guid.mkGUID [1; 15; 0; 0; 0; 0; 0; 0; 0; 0; 0; 1] [0; 0; 1; 3].

#[export] Instance noting_writer : HistoryWriter NotingWriter := {|
  writer_info := {| getGuid _ := noting_guid; getMaxDataSize _ := 100; with_key _ := false |};
  change_removed_by_history w _ := (w, negb (refuses w));
  release_change w c := mkNoting (refuses w) (added w) (released w ++ [number c]);
  unsent_change_added_to_history w c := mkNoting (refuses w) (added w ++ [number c]) (released w)
|}.

Lemma noting_guid_wf : Guid.wf noting_guid.
Proof. repeat split; repeat constructor; range_unfold; simpl; lia. Qed.

#[export] Instance noting_laws : HistoryWriterLaws NotingWriter.
Proof. done. Qed.

Definition noted_change (n : Z) (payload : Z) : CacheChange_t :=
  with_payload (reference_change noting_guid (SN.mkSN 0 n))
    (Payload.with_length Payload.default_payload payload).

Definition noting_history (refuses : bool) : WriterHistory NotingWriter :=
  mkWriterHistory
    (mkHistory (mkAttributes PREALLOCATED_WITH_REALLOC_MEMORY_MODE 500 2 3 1)
      [noted_change 2 10; noted_change 4 10] false true)
    (SN.mkSN 0 4) 0 (mkNoting refuses [] []).

Lemma noting_history_ok b : history_ok (noting_history b).
Proof.
  apply Build_history_ok; [apply noting_guid_wf|..].
  - reflexivity.
  - split; [split; range_unfold; simpl; lia|vm_compute; congruence].
  - apply Forall_cons_2; [|apply Forall_singleton]; (split; [split; range_unfold; simpl; lia|split; [done|]]);
      vm_compute; split; congruence.
  - vm_compute. repeat constructor.
  - simpl. range_unfold. lia.
  - simpl. lia.
  - simpl. split; [done|lia].
Qed.

Lemma get_change_exact_witness :
  get_change (hist (noting_history false)) (SN.mkSN 0 4) noting_guid = Some (noted_change 4 10) ∧
  get_change_nts (hist (noting_history false)) (SN.mkSN 0 4) noting_guid
    (get_change_nts (hist (noting_history false)) (SN.mkSN 0 3) noting_guid 0).2 =
  get_change_nts (hist (noting_history false)) (SN.mkSN 0 4) noting_guid 0.
Proof.
  destruct (get_change_exact (hist (noting_history false)) (SN.mkSN 0 4) noting_guid) as [E Hint].
  - done.
  - apply noting_guid_wf.
  - split; range_unfold; simpl; lia.
  - apply Forall_cons_2; [|apply Forall_singleton];
      (split; [split; range_unfold; simpl; lia|apply noting_guid_wf]).
  - apply (ordered_own _ (noting_history_ok false)).
  - split; [rewrite E; vm_compute; reflexivity|].
    apply Hint; [split; range_unfold; simpl; lia|vm_compute; congruence].
Defined.

Lemma writer_history_refines_map_witness :
  history_ok (noting_history false) ∧
  get_change (hist (noting_history false)) (SN.mkSN 0 2) noting_guid =
    contents [noted_change 2 10; noted_change 4 10] !! 2.
Proof.
  split; [apply noting_history_ok|].
  destruct (writer_history_refines_map (noting_history false) (noting_history_ok false))
    as (_ & _ & Hget & _).
  apply (Hget (SN.mkSN 0 2)). split; range_unfold; simpl; lia.
Defined.

Lemma refused_removal_released_witness :
  ∃ h', remove_change_seq (noting_history true) (SN.mkSN 0 2) = (h', true) ∧
    m_changes (hist h') = [noted_change 2 10; noted_change 4 10] ∧
    mp_writer h' = mkNoting true [] [2].
Proof.
  destruct (refused_removal_released (noting_history true) (SN.mkSN 0 2) (noted_change 2 10))
    as (h' & E & Hch & Hw).
  - apply noting_history_ok.
  - split; range_unfold; simpl; lia.
  - vm_compute. reflexivity.
  - reflexivity.
  - exists h'. split; [exact E|]. split; [rewrite Hch; reflexivity|rewrite Hw; vm_compute; reflexivity].
Defined.

(** A writer that lets everything go and notes what it gets back. *)
#[local] Instance giving_writer : HistoryWriter (list Z) := {|
  writer_info := {| getGuid _ := noting_guid; getMaxDataSize _ := 100; with_key _ := false |};
  change_removed_by_history w _ := (w, true);
  release_change w c := w ++ [number c];
  unsent_change_added_to_history w _ := w
|}.

#[local] Instance giving_laws : HistoryWriterLaws (list Z).
Proof. done. Qed.

Definition giving_history : WriterHistory (list Z) :=
  mkWriterHistory (hist (noting_history false)) (SN.mkSN 0 4) 0 [].

Lemma remove_all_changes_ends_witness :
  ∃ h', remove_all_changes 2 giving_history = Done (h', true) ∧ history_ok h' ∧
    m_changes (hist h') = [] ∧ m_isHistoryFull (hist h') = false ∧ mp_writer h' = [2; 4].
Proof.
  destruct (remove_all_changes_ends giving_history) as [Hend _].
  - destruct (noting_history_ok false). constructor; done.
  - done.
  - destruct Hend as (h' & E & Hok & Hnil & Hfull & Hw); [done|]. exists h'.
    split_and!; [exact E|exact Hok|exact Hnil|exact Hfull|rewrite Hw; vm_compute; reflexivity].
Defined.

Lemma fragmentation_bounds_witness :
  ∃ c', set_fragments (mkNoting false [] []) 0 (noted_change 1 250) = Done (100, c') ∧
    fragment_size_ c' = 100.
Proof.
  destruct (fragmentation_bounds (mkNoting false [] []) 0 (noted_change 1 250)) as (c' & E & _ & Hfrag & _).
  - range_unfold; simpl; lia.
  - range_unfold; simpl; lia.
  - range_unfold; simpl; lia.
  - range_unfold; simpl; lia.
  - exists c'. split; [exact E|]. apply Hfrag; vm_compute; congruence.
Defined.

End WriterHistoryFacts.

(** ** A reader's history *)

Module ReaderHistoryFacts.
Import CacheChange History ReaderHistory HistorySearch.

Definition stamp (c : CacheChange_t) : Z :=
  seconds (sourceTimestamp c) * 2 ^ 32 + fraction (sourceTimestamp c).

Definition wf_stamp (c : CacheChange_t) : Prop :=
  is_s32 (seconds (sourceTimestamp c)) ∧ is_u32 (fraction (sourceTimestamp c)).

Lemma time_ltb_stamp c d :
  wf_stamp c → wf_stamp d →
  time_ltb (sourceTimestamp c) (sourceTimestamp d) = (stamp c <? stamp d).
Proof.
  unfold wf_stamp, stamp, time_ltb. intros [_ Hc] [_ Hd]. range_unfold.
  bool_case; try reflexivity; lia.
Qed.

(** *** Inserting in a sorted vector *)

Lemma lower_bound_key {A} (pred : A → A → bool) (key : A → Z) l item :
  Forall (λ x, pred x item = (key x <? key item)) l → StronglySorted (by_key key) l →
  ∃ it, lower_bound (λ x, pred x item) l = Done it ∧
    Forall (λ x, key x < key item) (take it l) ∧ Forall (λ x, key item <= key x) (drop it l).
Proof.
  intros Hpred Hs. destruct (lower_bound_split (λ x, pred x item) l) as (it & E & Ht & Hd).
  - clear -Hpred Hs. induction Hs as [|x l Hs IH Hx]; [constructor|].
    apply Forall_cons in Hpred as [E Hpred]. constructor; [by apply IH|].
    rewrite Forall_forall in Hx, Hpred |- *. intros y Hy. specialize (Hx y Hy). rewrite (Hpred y Hy), E.
    unfold by_key in Hx. rewrite !Z.ltb_ge. lia.
  - exists it. split; [done|]. rewrite Forall_forall in Hpred.
    rewrite Forall_forall in Ht, Hd. split; apply Forall_forall; intros x Hx.
    + specialize (Ht x Hx). rewrite Hpred in Ht by by eapply subseteq_take. by apply Z.ltb_lt.
    + specialize (Hd x Hx). rewrite Hpred in Hd by by eapply subseteq_drop. by apply Z.ltb_ge.
Qed.

Lemma insert_sorted {A} (key : A → Z) l1 l2 item :
  StronglySorted (by_key key) (l1 ++ l2) →
  Forall (λ x, key x <= key item) l1 → Forall (λ x, key item <= key x) l2 →
  StronglySorted (by_key key) (l1 ++ item :: l2).
Proof.
  intros (H12 & H1 & H2)%StronglySorted_app Hb Ha. apply StronglySorted_app_2; [|done|by constructor].
  intros x y Hx [->|Hy]%elem_of_cons; [|by apply H12]. rewrite Forall_forall in Hb. by apply Hb.
Qed.

(** As long as the predicate compares the keys, the vector stays sorted by them. *)
Lemma sorted_vector_insert_sorted {A} (pred : A → A → bool) (key : A → Z) l item :
  Forall (λ x, pred x item = (key x <? key item) ∧ pred item x = (key item <? key x)) l →
  StronglySorted (by_key key) l →
  ∃ l', sorted_vector_insert pred l item = Done l' ∧ l' ≡ₚ item :: l ∧ StronglySorted (by_key key) l'.
Proof.
  intros [Hl Hr]%Forall_and Hs. unfold sorted_vector_insert. cbv zeta.
  assert (Done (take (length l) l ++ item :: drop (length l) l) = Done (l ++ [item])) as Hend
    by by rewrite take_ge, drop_ge by lia.
  assert (l ++ [item] ≡ₚ item :: l) as Hperm by by rewrite Permutation_app_comm.
  destruct (last l) as [back|] eqn:E; cycle 1.
  { apply last_None in E as ->. exists [item]. split_and!; [done..|repeat constructor]. }
  apply last_Some in E as [l0 ->]. apply Forall_app in Hr as [_ Hback]. rewrite Forall_singleton in Hback.
  rewrite Hback. destruct (_ <? _) eqn:E.
  - destruct (lower_bound_key pred key (l0 ++ [back]) item Hl Hs) as (it & -> & Ht & Hd).
    cbn [mbind outcome_bind]. eexists. split; [reflexivity|]. split.
    + rewrite <-Permutation_middle, take_drop. done.
    + apply insert_sorted; [by rewrite take_drop| |done].
      eapply Forall_impl; [exact Ht|]. simpl. intros; lia.
  - apply Z.ltb_ge in E. exists ((l0 ++ [back]) ++ [item]). split; [exact Hend|]. split; [done|].
    apply insert_sorted; [by rewrite app_nil_r| |constructor].
    apply StronglySorted_app in Hs as (H0 & _ & _). apply Forall_app. split; [|by apply Forall_singleton].
    apply Forall_forall. intros x Hx. specialize (H0 x back Hx). unfold by_key in H0.
    rewrite list_elem_of_singleton in H0. specialize (H0 eq_refl). lia.
Qed.

(** *** The order of the changes *)

Definition ident (c : CacheChange_t) : Guid.GUID_t * Z := (writerGUID c, number c).

(** No sample twice, and each writer's source timestamps grow with its numbers. *)
Definition coherent (l : list CacheChange_t) : Prop :=
  Forall (λ c, wf_change c ∧ wf_stamp c) l ∧ NoDup (ident <$> l) ∧
  ∀ c d, c ∈ l → d ∈ l → writerGUID c = writerGUID d → number c < number d → stamp c < stamp d.

#[export] Instance coherent_proper : Proper ((≡ₚ) ==> iff) coherent.
Proof.
  assert (∀ l l', l ≡ₚ l' → coherent l → coherent l') as Hgo; [|intros l l' Hl; split; by apply Hgo].
  intros l l' Hl (Hwf & Hnd & Hmono). unfold coherent. rewrite <-Hl. split; [done|]. split; [done|].
  intros c d Hc Hd. apply Hmono; by rewrite Hl.
Qed.

Lemma cmp_stamp c d :
  wf_change c ∧ wf_stamp c → wf_change d ∧ wf_stamp d → ident c ≠ ident d →
  (writerGUID c = writerGUID d → number c < number d → stamp c < stamp d) →
  (writerGUID d = writerGUID c → number d < number c → stamp d < stamp c) →
  history_order_cmp c d = (stamp c <? stamp d).
Proof.
  intros [[Hcs Hcg] Hct] [[Hds Hdg] Hdt] Hid Hcd Hdc. unfold history_order_cmp.
  destruct (Guid.eqb (writerGUID c) (writerGUID d)) eqn:E; [|by apply time_ltb_stamp].
  apply (Guid.guid_eqb_eq _ _ Hcg Hdg) in E. rewrite SN.ltb_val by done.
  assert (number c ≠ number d) as Hne by (intros F; apply Hid; unfold ident; by rewrite E, F).
  unfold number in *. specialize (Hcd E). specialize (Hdc (eq_sym E)). bool_case; lia.
Qed.

Lemma coherent_ordered g l :
  coherent l → StronglySorted (by_key stamp) l → ordered g l.
Proof.
  intros (_ & Hnd & Hmono) Hs. unfold ordered. induction Hs as [|c l Hs IH Hc]; [constructor|].
  simpl in Hnd. apply NoDup_cons in Hnd as [Hfresh Hnd].
  assert (StronglySorted Z.lt (number <$> filter (λ d, writerGUID d = g) l)) as IHl.
  { apply IH; [done|]. intros x y Hx Hy. by apply Hmono; right. }
  rewrite filter_cons. case_decide as Eg; [|done]. simpl. constructor; [done|].
  apply Forall_fmap, Forall_forall. intros d [Hdg Hd]%list_elem_of_filter. simpl.
  destruct (Z.lt_trichotomy (number c) (number d)) as [|[E|E]]; [done| |].
  - destruct Hfresh. apply list_elem_of_fmap. exists d. split; [|done]. unfold ident. congruence.
  - rewrite Forall_forall in Hc. specialize (Hc d Hd). unfold by_key in Hc.
    assert (stamp d < stamp c) by (apply Hmono; [by right|left|congruence|done]). lia.
Qed.

Lemma found_by_ident l c :
  coherent l → StronglySorted (by_key stamp) l → c ∈ l →
  ∀ it, (search_change (sequenceNumber c) (writerGUID c) l it).1 = Some c.
Proof.
  intros Hl Hs Hc it. pose proof Hl as (Hwf & Hnd & _). rewrite Forall_forall in Hwf.
  destruct (Hwf c Hc) as [[Hsn Hg] _].
  rewrite search_change_exact; [|done..|by apply Forall_forall; intros d Hd; apply Hwf|by apply coherent_ordered].
  destruct (list_find_elem_of (is_change (writerGUID c) (sequenceNumber c)) l c Hc) as [[i d] E]; [done|].
  rewrite E. simpl. f_equal. apply list_find_Some in E as (Hi & [Hdg Hds] & _).
  apply list_elem_of_lookup in Hc as [j Hj].
  assert (i = j) as ->; [|congruence].
  apply (NoDup_lookup _ i j (ident c) Hnd); rewrite list_lookup_fmap; [rewrite Hi|rewrite Hj]; simpl; [|done].
  unfold ident, number. by rewrite Hdg, Hds.
Qed.

Section reader.
Context {R : Type} `{HistoryReader R}.
Implicit Types h : ReaderHistory R.

Record reader_ok h : Prop := {
  r_attached : attached (hist h) = true;
  r_coherent : coherent (m_changes (hist h));
  r_sorted : StronglySorted (by_key stamp) (m_changes (hist h))
}.

Lemma add_change_sorted h c
    (Hok : reader_ok h) (Hc : coherent (c :: m_changes (hist h)))
    (Hfits : memoryPolicy (m_att (hist h)) = PREALLOCATED_MEMORY_MODE →
      Payload.length (serializedPayload c) <= payloadMaxSize (m_att (hist h))) :
  ∃ l, add_change h c = Done (mkReaderHistory (mkHistory (m_att (hist h)) l (m_isHistoryFull (hist h))
      (attached (hist h))) (mp_reader h), true) ∧
    l ≡ₚ c :: m_changes (hist h) ∧ StronglySorted (by_key stamp) l.
Proof.
  unfold add_change. rewrite (r_attached _ Hok). cbn [negb]. cbv zeta.
  replace (bool_decide _ && _) with false.
  2: { symmetry. apply andb_false_iff. case_bool_decide; [right; apply Z.ltb_ge; auto|by left]. }
  destruct (sorted_vector_insert_sorted history_order_cmp stamp (m_changes (hist h)) c) as (l & -> & Hp & Hs);
    [|apply Hok|by exists l].
  pose proof Hc as (Hwf & Hnd & Hmono). rewrite Forall_cons in Hwf. destruct Hwf as [Hwfc Hwf].
  simpl in Hnd. apply NoDup_cons in Hnd as [Hfresh _]. rewrite Forall_forall in Hwf.
  apply Forall_forall. intros d Hd.
  assert (ident c ≠ ident d) as Hid by (intros E; apply Hfresh; rewrite E; by apply list_elem_of_fmap_2).
  split; (apply cmp_stamp; [by auto|by auto|congruence| |]; apply Hmono; (by right) || left).
Qed.

(** C23: adding a change to a reader's history.  The history is in the order of the source
    timestamps, each writer's timestamps grow strictly with its numbers, also with the new
    change, and no number of a writer is there twice.  If the history has room for the
    change, adding it does not meet the undefined case of the search for its place, adds
    just that change, and leaves a history with the same order in which every change is
    found by its writer and number. *)
Theorem reader_history_order h c
    (Hok : reader_ok h) (Hc : coherent (c :: m_changes (hist h)))
    (Hfits : memoryPolicy (m_att (hist h)) = PREALLOCATED_MEMORY_MODE →
      Payload.length (serializedPayload c) <= payloadMaxSize (m_att (hist h))) :
  ∃ h', add_change h c = Done (h', true) ∧ reader_ok h' ∧
    m_changes (hist h') ≡ₚ c :: m_changes (hist h) ∧ mp_reader h' = mp_reader h ∧
    ∀ d, d ∈ m_changes (hist h') → get_change (hist h') (sequenceNumber d) (writerGUID d) = Some d.
Proof.
  destruct (add_change_sorted h c Hok Hc Hfits) as (l & -> & Hp & Hs).
  eexists. split; [reflexivity|]. simpl. rewrite <-Hp in Hc. split_and!; [|done|done|].
  - constructor; [apply (r_attached _ Hok)|done|done].
  - intros d Hd. unfold get_change. simpl. rewrite (r_attached _ Hok). unfold get_change_nts. simpl.
    rewrite drop_0. by apply found_by_ident.
Qed.

(** *** Removing *)

(** What the reader is told when changes are removed. *)
Definition told (r : R) (l : list CacheChange_t) : R :=
  foldl (λ r c, releaseCache (change_removed_by_history r c) c) r l.

(** [h'] is [h] with the changes [l], after the reader was told of [gone]. *)
Definition left_with h h' (l gone : list CacheChange_t) : Prop :=
  m_changes (hist h') = l ∧ mp_reader h' = told (mp_reader h) gone ∧
  attached (hist h') = attached (hist h) ∧ m_att (hist h') = m_att (hist h).

(** The removal of the element at [chit] keeps what is before and after it. *)
Lemma remove_nts_at h chit c :
  attached (hist h) = true → m_changes (hist h) !! chit = Some c →
  ∃ h1, remove_nts h chit true = (h1, chit) ∧
    attached (hist h1) = attached (hist h) ∧ m_att (hist h1) = m_att (hist h) ∧
    mp_reader h1 = releaseCache (change_removed_by_history (mp_reader h) c) c ∧
    take chit (m_changes (hist h1)) = take chit (m_changes (hist h)) ∧
    drop chit (m_changes (hist h1)) = drop (S chit) (m_changes (hist h)).
Proof.
  intros Hatt E. pose proof (lookup_lt_Some _ _ _ E) as Hlt. unfold remove_nts.
  rewrite Hatt, E. cbn [negb]. cbv zeta. eexists. split; [reflexivity|]. simpl.
  split_and!; [done..| |]; rewrite delete_take_drop.
  - rewrite take_app_le, take_take by (rewrite length_take; lia). f_equal. lia.
  - apply drop_app_length'. rewrite length_take. lia.
Qed.

Lemma remove_with_pred_spec fuel pred h chit :
  attached (hist h) = true → (length (drop chit (m_changes (hist h))) <= fuel)%nat →
  ∃ h', remove_with_pred fuel pred h chit = Done h' ∧
    left_with h h'
      (take chit (m_changes (hist h)) ++ filter (λ c, pred c = false) (drop chit (m_changes (hist h))))
      (filter (λ c, pred c = true) (drop chit (m_changes (hist h)))).
Proof.
  revert h chit. induction fuel as [|fuel IH]; intros h chit Hatt Hlen; simpl;
    destruct (m_changes (hist h) !! chit) as [c|] eqn:E.
  1: { rewrite (drop_S _ c) in Hlen by done. simpl in Hlen. lia. }
  1,3: apply lookup_ge_None in E; exists h; split; [done|]; by rewrite (drop_ge _ chit), (take_ge _ chit), app_nil_r by lia.
  rewrite (drop_S _ c) in Hlen |- * by done. simpl in Hlen.
  rewrite !filter_cons. destruct (pred c) eqn:Ep; simpl.
  - destruct (remove_nts_at h chit c Hatt E) as (h1 & -> & Hatt1 & Hatt2 & Hr1 & Htake & Hdrop).
    destruct (IH h1 chit) as (h' & -> & Hl & Hr & Ha & Hatt'); [congruence|rewrite Hdrop; lia|].
    exists h'. split; [done|]. rewrite Htake, Hdrop in Hl. rewrite Hdrop, Hr1 in Hr.
    split_and!; [done|done|congruence|congruence].
  - destruct (IH h (S chit) Hatt) as (h' & -> & Hl & Hrest); [lia|]. exists h'. split; [done|].
    split; [|done]. rewrite Hl, (take_S_r _ _ c), <-app_assoc by done. done.
Qed.

Lemma remove_with_pred_none fuel pred h chit :
  Forall (λ c, pred c = false) (drop chit (m_changes (hist h))) →
  (length (drop chit (m_changes (hist h))) <= fuel)%nat → remove_with_pred fuel pred h chit = Done h.
Proof.
  revert chit. induction fuel as [|fuel IH]; intros chit Hno Hlen; simpl;
    destruct (m_changes (hist h) !! chit) as [c|] eqn:E; [|done| |done];
    rewrite (drop_S _ c) in Hlen, Hno by done; simpl in Hlen; [lia|].
  apply Forall_cons in Hno as [-> Hno]. apply IH; [done|lia].
Qed.

(** The changes [remove_fragmented_changes_until] is to remove. *)
Definition stale (seq : SN.SequenceNumber_t) (g : Guid.GUID_t) (c : CacheChange_t) : bool :=
  Guid.eqb (writerGUID c) g && SN.ltb (sequenceNumber c) seq && negb (is_fully_assembled c).

(** The loop that stops early does what one over the whole vector does. *)
Lemma remove_fragmented_pred fuel seq g h chit :
  attached (hist h) = true → Guid.wf g → SN.wf seq →
  Forall wf_change (drop chit (m_changes (hist h))) → ordered g (drop chit (m_changes (hist h))) →
  (length (drop chit (m_changes (hist h))) <= fuel)%nat →
  remove_fragmented fuel seq g h chit = remove_with_pred fuel (stale seq g) h chit.
Proof.
  intros Hatt Hg Hseq. revert h chit Hatt. induction fuel as [|fuel IH]; intros h chit Hatt Hwf Hord Hlen;
    simpl; destruct (m_changes (hist h) !! chit) as [c|] eqn:E; try done.
  rewrite (drop_S _ c) in Hlen, Hord, Hwf by done. simpl in Hlen.
  apply Forall_cons in Hwf as [[Hcs Hcg] Hwf]. apply ordered_cons in Hord as [Hord Hnext].
  assert (remove_fragmented fuel seq g h (S chit) = remove_with_pred fuel (stale seq g) h (S chit)) as Hskip
    by (apply IH; [done..|lia]).
  unfold stale at 1. destruct (Guid.eqb (writerGUID c) g) eqn:Eg; [|exact Hskip].
  destruct (SN.ltb (sequenceNumber c) seq) eqn:Es.
  - destruct (is_fully_assembled c); cbn [negb andb]; [exact Hskip|].
    destruct (remove_nts_at h chit c Hatt E) as (h1 & -> & Hatt1 & _ & _ & _ & Hdrop).
    apply IH; [congruence|rewrite Hdrop; (done || lia)..].
  - cbn [andb]. symmetry. apply remove_with_pred_none; [|lia].
    apply (Guid.guid_eqb_eq _ _ Hcg Hg) in Eg. specialize (Hnext Eg). rewrite Forall_forall in Hnext, Hwf |- *.
    rewrite SN.ltb_val, Z.ltb_ge in Es by done. intros d Hd. unfold stale. destruct (Hwf d Hd) as [Hds Hdg].
    destruct (Guid.eqb (writerGUID d) g) eqn:Edg; [|done].
    apply (Guid.guid_eqb_eq _ _ Hdg Hg) in Edg. specialize (Hnext d Hd Edg). unfold number in Hnext.
    rewrite SN.ltb_val by done. destruct (Z.ltb_spec (SN.val (sequenceNumber d)) (SN.val seq)); [lia|done].
Qed.

Lemma NoDup_fmap_filter {A B} (f : A → B) (P : A → Prop) `{!∀ x, Decision (P x)} l :
  NoDup (f <$> l) → NoDup (f <$> filter P l).
Proof.
  induction l as [|x l IH]; [done|]. simpl. intros [Hx Hl]%NoDup_cons. rewrite filter_cons.
  case_decide; [|by apply IH]. simpl. constructor; [|by apply IH].
  intros (y & Hy & [_ Hin]%list_elem_of_filter)%list_elem_of_fmap. apply Hx, list_elem_of_fmap. by exists y.
Qed.

Lemma coherent_filter (P : CacheChange_t → Prop) `{!∀ c, Decision (P c)} l :
  coherent l → coherent (filter P l).
Proof.
  intros (Hwf & Hnd & Hmono). split_and!.
  - rewrite Forall_forall in Hwf |- *. intros c [_ Hc]%list_elem_of_filter. by apply Hwf.
  - by apply NoDup_fmap_filter.
  - intros c d [_ Hc]%list_elem_of_filter [_ Hd]%list_elem_of_filter. by apply Hmono.
Qed.

Lemma sorted_filter (P : CacheChange_t → Prop) `{!∀ c, Decision (P c)} (S : relation CacheChange_t) l :
  StronglySorted S l → StronglySorted S (filter P l).
Proof.
  induction 1 as [|c l _ IH Hc]; [constructor|]. rewrite filter_cons. case_decide; [|done].
  constructor; [done|]. rewrite Forall_forall in Hc |- *. intros d [_ Hd]%list_elem_of_filter. by apply Hc.
Qed.

Lemma reader_ok_filter h h' (P : CacheChange_t → Prop) `{!∀ c, Decision (P c)} gone :
  reader_ok h → left_with h h' (filter P (m_changes (hist h))) gone → reader_ok h'.
Proof.
  intros [Hatt Hco Hs] (Hl & _ & Ha & _). constructor; [congruence| |]; rewrite Hl.
  - by apply coherent_filter.
  - by apply sorted_filter.
Qed.

(** A removal by a predicate that decides [goes]. *)
Lemma removal_exact h pred (goes : CacheChange_t → Prop) `{!∀ c, Decision (goes c)} :
  reader_ok h → Forall (λ c, pred c = true ↔ goes c) (m_changes (hist h)) →
  ∃ h', remove_with_pred (length (m_changes (hist h))) pred h 0 = Done h' ∧ reader_ok h' ∧
    left_with h h' (filter (λ c, ¬ goes c) (m_changes (hist h))) (filter goes (m_changes (hist h))).
Proof.
  intros Hok Hpred. destruct (remove_with_pred_spec (length (m_changes (hist h))) pred h 0) as (h' & -> & Hh);
    [apply Hok|by rewrite drop_0|].
  rewrite drop_0, take_0 in Hh. simpl in Hh. rewrite Forall_forall in Hpred.
  rewrite (filter_same (λ c, pred c = false) (λ c, ¬ goes c)) in Hh
    by (intros c Hc; rewrite <-(Hpred c Hc); destruct (pred c); naive_solver).
  rewrite (filter_same (λ c, pred c = true) goes) in Hh by (intros c Hc; exact (Hpred c Hc)).
  exists h'. split; [done|]. split; [|done]. by eapply reader_ok_filter.
Qed.

(** The removals from a reader's history are exact.  When a writer is
    unmatched just its changes go, those already notified included; a removal of
    half-assembled changes up to a number removes just that writer's changes below
    the number that miss fragments, although the loop stops at the first later
    change.  The other changes stay in their order, and the reader is told of and
    given back each removed change once, in order. *)
Theorem reader_removals_exact ndebug h g seq
    (Hok : reader_ok h) (Hg : Guid.wf g) (Hseq : SN.wf seq) :
  let l := m_changes (hist h) in
  (∃ h', writer_unmatched ndebug h g seq = Done h' ∧ reader_ok h' ∧
    left_with h h' (filter (λ c, writerGUID c ≠ g) l) (filter (λ c, writerGUID c = g) l)) ∧
  (∃ h', remove_changes_with_guid ndebug h g = Done (h', true) ∧ reader_ok h' ∧
    left_with h h' (filter (λ c, writerGUID c ≠ g) l) (filter (λ c, writerGUID c = g) l)) ∧
  (∃ h', remove_fragmented_changes_until h seq g = Done (h', true) ∧ reader_ok h' ∧
    let goes c := writerGUID c = g ∧ number c < SN.val seq ∧ is_fully_assembled c = false in
    left_with h h' (filter (λ c, ¬ goes c) l) (filter goes l)).
Proof.
  cbv zeta. pose proof (r_coherent _ Hok) as (Hwf & _ & _).
  assert (Forall wf_change (m_changes (hist h))) as Hwf'
    by (eapply Forall_impl; [exact Hwf|]; by intros c []).
  assert (Forall (λ c, Guid.eqb g (writerGUID c) = true ↔ writerGUID c = g) (m_changes (hist h))) as Hpred.
  { eapply Forall_impl; [exact Hwf'|]. intros c [_ Hc]. rewrite Guid.guid_eqb_eq by done. done. }
  destruct (removal_exact h _ _ Hok Hpred) as (h1 & E1 & Hok1 & Hh1).
  unfold writer_unmatched, remove_changes_with_guid, remove_changes_with_pred, remove_fragmented_changes_until.
  rewrite (r_attached _ Hok), assert_true by done. cbn [mbind outcome_bind negb].
  split; [|split]; [by exists h1|exists h1; by rewrite E1|].
  rewrite remove_fragmented_pred; rewrite ?drop_0;
    [|apply Hok|done..|apply coherent_ordered; apply Hok|done].
  destruct (removal_exact h (stale seq g)
    (λ c, writerGUID c = g ∧ number c < SN.val seq ∧ is_fully_assembled c = false) Hok) as (h2 & -> & Hh2);
    [|by exists h2].
  eapply Forall_impl; [exact Hwf'|]. intros c [Hs Hc]. unfold stale, number.
  rewrite !andb_true_iff, negb_true_iff, Guid.guid_eqb_eq, SN.ltb_val, Z.ltb_lt by done. tauto.
Qed.

End reader.

(** *** When timestamps do not grow *)

(** A reader that notes the changes given back. *)
#[export] Instance noting_reader : HistoryReader (list Z) := {|
  change_removed_by_history r _ := r;
  releaseCache r c := r ++ [number c]
|}.

Definition guid_a : Guid.GUID_t := Guid.mkGUID [1; 15; 0; 0; 0; 0; 0; 0; 0; 0; 0; 1] [0; 0; 1; 3].
Definition guid_b : Guid.GUID_t := Guid.mkGUID [1; 15; 0; 0; 0; 0; 0; 0; 0; 0; 0; 2] [0; 0; 1; 3].

(** The change [n] of a writer with the given source timestamp, of [fragments]
    fragments. *)
Definition stamped_change (g : Guid.GUID_t) (n sec fragments : Z) : CacheChange_t :=
  with_fragments (WriterHistory.stamped (reference_change g (SN.mkSN 0 n)) (SN.mkSN 0 n) (mkTime sec 0)
    WriterHistory.default_params) fragments fragments 0.

Definition empty_history : ReaderHistory (list Z) :=
  mkReaderHistory (mkHistory (mkAttributes PREALLOCATED_WITH_REALLOC_MEMORY_MODE 500 10 0 1) [] false true) [].

(** The order of a reader's history is no order at all when timestamps repeat:
    changes of one writer compare by number, changes of two writers by time.  Two
    samples of one writer with the same timestamp, the second received first, and
    between them a sample of another writer with that timestamp too: the first is
    stored after the second, and a search for it stops before it.  The change is in
    the history and [get_change] does not find it. *)
Theorem equal_timestamps_hide_change :
  ∃ h1 h2 h3, add_change empty_history (stamped_change guid_a 2 5 0) = Done (h1, true) ∧
    add_change h1 (stamped_change guid_b 1 5 0) = Done (h2, true) ∧
    add_change h2 (stamped_change guid_a 1 5 0) = Done (h3, true) ∧
    In (stamped_change guid_a 1 5 0) (m_changes (hist h3)) ∧
    get_change (hist h3) (SN.mkSN 0 1) guid_a = None.
Proof.
  do 3 eexists. split; [vm_compute; reflexivity|]. split; [vm_compute; reflexivity|].
  split; [vm_compute; reflexivity|]. split; [|vm_compute; reflexivity].
  vm_compute. right. right. left. reflexivity.
Qed.

Definition two_changes : ReaderHistory (list Z) :=
  mkReaderHistory (mkHistory (m_att (hist empty_history))
    [stamped_change guid_b 1 5 2; stamped_change guid_a 2 6 3] false true) [].

Lemma guid_ab_wf : Guid.wf guid_a ∧ Guid.wf guid_b.
Proof. split; repeat split; repeat constructor; range_unfold; simpl; lia. Qed.

Lemma stamped_change_wf g n sec f :
  Guid.wf g → is_u32 n → is_s32 sec → wf_change (stamped_change g n sec f) ∧ wf_stamp (stamped_change g n sec f).
Proof.
  intros Hg Hn Hs. split; [split; [split; simpl; [range_unfold; lia|exact Hn]|exact Hg]|].
  split; simpl; [exact Hs|range_unfold; lia].
Qed.

Lemma three_coherent :
  coherent (stamped_change guid_a 1 4 0 :: m_changes (hist two_changes)).
Proof.
  destruct guid_ab_wf as [Ha Hb]. split_and!.
  - repeat apply Forall_cons_2; [..|constructor]; (apply stamped_change_wf; [done|range_unfold; lia..]).
  - apply NoDup_ListNoDup. vm_compute. repeat constructor; simpl; intuition congruence.
  - intros c d. simpl. rewrite !elem_of_cons. setoid_rewrite elem_of_nil.
    intros [->|[->|[->|[]]]] [->|[->|[->|[]]]]; vm_compute; intros; try done; congruence.
Qed.

Lemma two_changes_ok : reader_ok two_changes.
Proof.
  constructor; [done| |repeat constructor; vm_compute; congruence].
  pose proof three_coherent as (Hwf & Hnd & Hmono). split_and!.
  - by inversion Hwf.
  - by inversion Hnd.
  - intros c d Hc Hd. by apply Hmono; right.
Qed.

Lemma reader_history_order_witness :
  ∃ h', add_change two_changes (stamped_change guid_a 1 4 0) = Done (h', true) ∧
    get_change (hist h') (SN.mkSN 0 2) guid_a = Some (stamped_change guid_a 2 6 3).
Proof.
  destruct (reader_history_order two_changes (stamped_change guid_a 1 4 0)) as (h' & E & _ & Hp & _ & Hget).
  - apply two_changes_ok.
  - apply three_coherent.
  - done.
  - exists h'. split; [exact E|]. apply (Hget (stamped_change guid_a 2 6 3)).
    rewrite Hp. right. right. left.
Defined.

Lemma reader_removals_exact_witness :
  ∃ h', remove_fragmented_changes_until two_changes (SN.mkSN 0 3) guid_a = Done (h', true) ∧
    m_changes (hist h') = [stamped_change guid_b 1 5 2] ∧ mp_reader h' = [2].
Proof.
  destruct (reader_removals_exact true two_changes guid_a (SN.mkSN 0 3)) as (_ & _ & h' & E & _ & Hl & Hr & _).
  - apply two_changes_ok.
  - apply guid_ab_wf.
  - split; range_unfold; simpl; lia.
  - exists h'. split; [exact E|]. split; [rewrite Hl|rewrite Hr]; vm_compute; reflexivity.
Defined.

End ReaderHistoryFacts.
