(* ===== verification/Locator.v ===== *)
(** * Locators

    [Locator_t] (include/fastdds/rtps/common/Locator.h), the address predicates
    and port accessors of [IPLocator] (src/cpp/utils/IPLocator.cpp) that do not
    parse text, masked locators
    (src/cpp/rtps/common/LocatorWithMask.cpp, src/cpp/rtps/network/utils/network.cpp)
    and the choice of the locators of a remote endpoint worth keeping
    (src/cpp/rtps/network/utils/external_locators.cpp).  Addresses are lists of
    sixteen octets. *)

From S2P Require Import Prelude Containers.

Module Locator.

Definition LOCATOR_KIND_INVALID : Z := -1.
Definition LOCATOR_PORT_INVALID : Z := 0.
Definition LOCATOR_KIND_RESERVED : Z := 0.
Definition LOCATOR_KIND_UDPv4 : Z := 1.
Definition LOCATOR_KIND_UDPv6 : Z := 2.
Definition LOCATOR_KIND_TCPv4 : Z := 4.
Definition LOCATOR_KIND_TCPv6 : Z := 8.
Definition LOCATOR_KIND_SHM : Z := 16.
Definition LOCATOR_KIND_DPDK : Z := 64.
Definition LOCATOR_KIND_XDP : Z := 128.

Record Locator_t := mkLocator { kind : Z; port : Z; address : list Z }.

#[export] Instance Locator_eq_dec : EqDecision Locator_t.
Proof. solve_decision. Defined.

(** [LOCATOR_ADDRESS_INVALID]. *)
Definition invalid_address : list Z := replicate 16 0.

Definition LOCATOR_INVALID : Locator_t :=
  mkLocator LOCATOR_KIND_INVALID LOCATOR_PORT_INVALID invalid_address.

Definition default : Locator_t := mkLocator LOCATOR_KIND_UDPv4 0 invalid_address.
Definition of_port (portin : Z) : Locator_t := mkLocator LOCATOR_KIND_UDPv4 portin invalid_address.
Definition of_kind_port (kindin portin : Z) : Locator_t := mkLocator kindin portin invalid_address.

Definition set_port (l : Locator_t) (p : Z) : Locator_t := mkLocator (kind l) p (address l).
Definition set_octets (l : Locator_t) (a : list Z) : Locator_t := mkLocator (kind l) (port l) a.

Definition set_address (l other : Locator_t) : Locator_t := set_octets l (address other).
Definition get_address (l : Locator_t) (field : nat) : Z := nth field (address l) 0.
Definition set_Invalid_Address (l : Locator_t) : Locator_t := set_octets l invalid_address.

Definition is_ipv4_kind (l : Locator_t) : bool :=
  (kind l =? LOCATOR_KIND_UDPv4) || (kind l =? LOCATOR_KIND_TCPv4).
Definition is_ipv6_kind (l : Locator_t) : bool :=
  (kind l =? LOCATOR_KIND_UDPv6) || (kind l =? LOCATOR_KIND_TCPv6).

Definition IsAddressDefined (l : Locator_t) : bool :=
  if is_ipv4_kind l then existsb (λ i, negb (get_address l i =? 0)) (seq 12 4)
  else if is_ipv6_kind l then existsb (λ i, negb (get_address l i =? 0)) (seq 0 16)
  else false.

Definition IsLocatorValid (l : Locator_t) : bool := 0 <=? kind l.

(** The 24 octets of the object on a little-endian target. *)
Definition octets (l : Locator_t) : list Z :=
  le_bytes 4 (u32 (kind l)) ++ le_bytes 4 (port l) ++ address l.

Definition ltb (l1 l2 : Locator_t) : bool := memcmp 24 (octets l1) (octets l2) <? 0.

Definition eqb (l1 l2 : Locator_t) : bool :=
  if negb (kind l1 =? kind l2) then false
  else if negb (port l1 =? port l2) then false
  else if negb (bool_decide (address l1 = address l2)) then false
  else true.

Definition neqb (l1 l2 : Locator_t) : bool := negb (eqb l1 l2).

Definition wf (l : Locator_t) : Prop :=
  is_s32 (kind l) ∧ is_u32 (port l) ∧ length (address l) = 16%nat ∧ Forall is_u8 (address l).

Lemma locator_eqb_eq l1 l2 : eqb l1 l2 = true ↔ l1 = l2.
Proof.
  unfold eqb. destruct l1 as [k1 p1 a1], l2 as [k2 p2 a2]; simpl.
  destruct (Z.eqb_spec k1 k2); simpl; [|split; [done|congruence]].
  destruct (Z.eqb_spec p1 p2); simpl; [|split; [done|congruence]].
  case_bool_decide; simpl; [|split; [done|congruence]]. split; congruence.
Qed.

(** ** IPLocator *)

Definition setIPv4 (l : Locator_t) (o1 o2 o3 o4 : Z) : bool * Locator_t :=
  if negb (kind l =? LOCATOR_KIND_TCPv4) && negb (kind l =? LOCATOR_KIND_UDPv4)
  then (false, l)
  else (true, set_octets l (take 12 (address l) ++ [o1; o2; o3; o4])).

(** The port of a locator holds two 16-bit ports; on a little-endian target the
    physical port is the low half. *)
Definition setLogicalPort (l : Locator_t) (p : Z) : bool * Locator_t :=
  (negb (p =? 0), set_port l (u16 (port l) + Z.shiftl p 16)).
Definition getLogicalPort (l : Locator_t) : Z := u16 (Z.shiftr (port l) 16).
Definition setPhysicalPort (l : Locator_t) (p : Z) : bool * Locator_t :=
  (negb (p =? 0), set_port l (Z.shiftl (Z.shiftr (port l) 16) 16 + p)).
Definition getPhysicalPort (l : Locator_t) : Z := u16 (port l).

Definition setWan (l : Locator_t) (o1 o2 o3 o4 : Z) : bool * Locator_t :=
  (true, set_octets l (take 8 (address l) ++ [o1; o2; o3; o4] ++ drop 12 (address l))).

Definition hasWan (l : Locator_t) : bool :=
  (kind l =? LOCATOR_KIND_TCPv4) &&
  existsb (λ i, negb (get_address l i =? 0)) [8; 9; 10; 11]%nat.

Definition WanToLanLocator (l : Locator_t) : Locator_t :=
  set_octets l (take 8 (address l) ++ [0; 0; 0; 0] ++ take 4 (drop 8 (address l))).

Definition toPhysicalLocator (l : Locator_t) : Locator_t := snd (setLogicalPort l 0).

Definition ip_equals_wan (l : Locator_t) : bool :=
  hasWan l && forallb (λ i, get_address l i =? get_address l (i + 4)) [8; 9; 10; 11]%nat.

Definition setPortRTPS (l : Locator_t) (p : Z) : bool * Locator_t :=
  if (kind l =? LOCATOR_KIND_UDPv4) || (kind l =? LOCATOR_KIND_UDPv6) then setPhysicalPort l p
  else if (kind l =? LOCATOR_KIND_TCPv4) || (kind l =? LOCATOR_KIND_TCPv6) then setLogicalPort l p
  else (false, l).

Definition getPortRTPS (l : Locator_t) : Z :=
  if (kind l =? LOCATOR_KIND_UDPv4) || (kind l =? LOCATOR_KIND_UDPv6) then getPhysicalPort l
  else if (kind l =? LOCATOR_KIND_TCPv4) || (kind l =? LOCATOR_KIND_TCPv6) then getLogicalPort l
  else 0.

Definition isLocal (l : Locator_t) : bool :=
  if is_ipv4_kind l then
    (get_address l 12 =? 127) && (get_address l 13 =? 0) &&
    (get_address l 14 =? 0) && (get_address l 15 =? 1)
  else
    forallb (λ i, get_address l i =? 0) (seq 0 15) && (get_address l 15 =? 1).

Definition isAny (l : Locator_t) : bool :=
  if is_ipv4_kind l then forallb (λ i, get_address l i =? 0) (seq 12 4)
  else forallb (λ i, get_address l i =? 0) (seq 0 16).

Definition compareAddress (l1 l2 : Locator_t) (fullAddress : bool) : bool :=
  if negb (kind l1 =? kind l2) then false
  else if negb fullAddress && is_ipv4_kind l1
       then memcmp 4 (drop 12 (address l1)) (drop 12 (address l2)) =? 0
       else memcmp 16 (address l1) (address l2) =? 0.

Definition compareAddressAndPhysicalPort (l1 l2 : Locator_t) : bool :=
  compareAddress l1 l2 true && (getPhysicalPort l1 =? getPhysicalPort l2).

Definition isMulticast (l : Locator_t) : bool :=
  if (kind l =? LOCATOR_KIND_TCPv4) || (kind l =? LOCATOR_KIND_TCPv6) then false
  else if kind l =? LOCATOR_KIND_UDPv4
       then (224 <=? get_address l 12) && (get_address l 12 <=? 239)
       else get_address l 0 =? 0xFF.

(** [isEmpty(locator, index)] compares with an invalid locator from [index]. *)
Definition isEmpty_from (l : Locator_t) (index : nat) : bool :=
  forallb (λ i, get_address l i =? get_address LOCATOR_INVALID i) (seq index (16 - index)).

Definition isEmpty (l : Locator_t) : bool :=
  if is_ipv4_kind l then isEmpty_from l 12 else isEmpty_from l 0.

Lemma ports_roundtrip l p q :
  is_u32 (port l) → is_u16 p → is_u16 q →
  let l' := snd (setLogicalPort (snd (setPhysicalPort l p)) q) in
  getPhysicalPort l' = p ∧ getLogicalPort l' = q ∧ is_u32 (port l') ∧
  kind l' = kind l ∧ address l' = address l.
Proof.
  intros Hl Hp Hq. unfold setLogicalPort, setPhysicalPort, getPhysicalPort, getLogicalPort; simpl.
  rewrite !Z.shiftl_mul_pow2, !Z.shiftr_div_pow2 by lia.
  split_and!; try done; mlia.
Qed.

(** ** Masked locators *)

(** [network::address_matches] on two addresses and a number of bits. *)
Definition address_matches (addr1 addr2 : list Z) (num_bits : Z) : bool :=
  let full_bytes := Z.to_nat (num_bits / 8) in
  if (full_bytes =? 0)%nat || bool_decide (take full_bytes addr1 = take full_bytes addr2) then
    let rem_bits := num_bits mod 8 in
    if rem_bits =? 0 then true
    else
      let mask := u8 (Z.shiftl 0xFF (8 - rem_bits)) in
      Z.land (nth full_bytes addr1 0) mask =? Z.land (nth full_bytes addr2 0) mask
  else false.

Record LocatorWithMask := mkMasked { locator : Locator_t; mask_ : Z }.

(** [matches]; its assertions bound the mask. *)
Definition matches (m : LocatorWithMask) (loc : Locator_t) : bool :=
  if kind (locator m) =? kind loc then
    if is_ipv4_kind loc then
      address_matches (drop 12 (address loc)) (drop 12 (address (locator m))) (mask_ m)
    else if is_ipv6_kind loc || (kind loc =? LOCATOR_KIND_SHM) then
      address_matches (address loc) (address (locator m)) (mask_ m)
    else false
  else false.

Definition matches_assert (m : LocatorWithMask) (loc : Locator_t) : bool :=
  if kind (locator m) =? kind loc then
    if is_ipv4_kind loc then mask_ m <=? 32
    else if is_ipv6_kind loc || (kind loc =? LOCATOR_KIND_SHM) then mask_ m <=? 128
    else true
  else true.

(** ** External locators

    A [std::map] from externality, in decreasing order, of maps from cost, in
    increasing order, of masked locators: the entries in iteration order. *)
Definition CostMap := list (Z * list LocatorWithMask).
Definition ExternalLocators := list (Z * CostMap).

(** [get_locator_mask]: the mask of the interface with that address, among the
    addresses the system reports, 24 by default. *)
Definition get_locator_mask (infoIPs : list LocatorWithMask) (l : Locator_t) : Z :=
  match find (λ i, (kind (locator i) =? kind l) &&
                   bool_decide (address (locator i) = address l)) infoIPs with
  | Some i => mask_ i
  | None => 24
  end.

(** Mask and cost of a listening locator; the boolean is the assertion on the
    kind. *)
Definition get_mask_and_cost (infoIPs : list LocatorWithMask) (l : Locator_t) : Z * Z * bool :=
  let mask := get_locator_mask infoIPs l in
  let k := kind l in
  if (k =? LOCATOR_KIND_UDPv4) || (k =? LOCATOR_KIND_TCPv4) ||
     (k =? LOCATOR_KIND_XDP) || (k =? LOCATOR_KIND_DPDK) then (mask, 1, true)
  else if (k =? LOCATOR_KIND_UDPv6) || (k =? LOCATOR_KIND_TCPv6) then (mask, 2, true)
  else if k =? LOCATOR_KIND_SHM then (128, 0, true)
  else (mask, 0, false).

(** [map[key].push_back(x)] on the cost map, ordered by increasing key. *)
Fixpoint cost_push (m : CostMap) (key : Z) (x : LocatorWithMask) : CostMap :=
  match m with
  | [] => [(key, [x])]
  | (k, l) :: m' =>
      if key <? k then (key, [x]) :: m
      else if key =? k then (k, l ++ [x]) :: m'
      else (k, l) :: cost_push m' key x
  end.

(** [external_locators[0]], created empty when missing: externality 0 is the
    last of the decreasing order. *)
Fixpoint with_externality_0 (e : ExternalLocators) (f : CostMap → CostMap) : ExternalLocators :=
  match e with
  | [] => [(0, f [])]
  | (x, m) :: e' => if x =? 0 then (x, f m) :: e' else (x, m) :: with_externality_0 e' f
  end.

Definition set_listening_locators (infoIPs : list LocatorWithMask) (e : ExternalLocators)
    (listening : list Locator_t) : ExternalLocators :=
  let e := with_externality_0 e (λ _, []) in
  fold_left (λ e l,
    let '(mask, cost, _) := get_mask_and_cost infoIPs l in
    with_externality_0 e (λ m, cost_push m cost (mkMasked l mask))) listening e.

(** The locators of externality above 0, to be announced. *)
Definition perform_add_external_locators (e : ExternalLocators) : list Locator_t :=
  concat (map (λ '(x, m),
    if 0 <? x then concat (map (λ '(_, l), map locator l) m) else []) e).

Definition heuristic_value (externality cost : Z) : Z :=
  Z.lor (Z.shiftl (255 - externality) 16) (Z.shiftl cost 8).

(** The first entry of the collection that has a matching local locator. *)
Definition find_match (e : ExternalLocators) (remote : Locator_t) : option (Z * Z) :=
  let candidates :=
    concat (map (λ '(x, m), concat (map (λ '(c, l), map (λ i, (x, c, i)) l) m)) e) in
  match find (λ '(_, _, i), matches i remote) candidates with
  | Some (x, c, _) => Some (x, c)
  | None => None
  end.

Definition heuristic (remote : Locator_t) (e : ExternalLocators) (ignore_non_matching : bool) : Z :=
  if LOCATOR_KIND_SHM =? kind remote then heuristic_value 0 0
  else if isLocal remote then heuristic_value 0 1
  else match find_match e remote with
       | Some (x, c) => heuristic_value x c
       | None => if ignore_non_matching then UINT64_MAX else 0
       end.

Fixpoint take_while {A} (p : A → bool) (l : list A) : list A :=
  match l with
  | [] => []
  | x :: l => if p x then x :: take_while p l else []
  end.

Fixpoint drop_while {A} (p : A → bool) (l : list A) : list A :=
  match l with
  | [] => []
  | x :: l' => if p x then drop_while p l' else l
  end.

(** The loop that pops the last locator while it is not worth keeping. *)
Definition pop_back_while {A} (p : A → bool) (l : list A) : list A :=
  reverse (drop_while p (reverse l)).

(** The number of locators of a group whose address is that of a local one. *)
Definition exactly_matched (group : list Locator_t) (locals : list LocatorWithMask) : nat :=
  length (filter (λ l, existsb (λ m, bool_decide (address l = address (locator m))) locals = true)
            group).

(** The traversal of the external locators: [kept] are the locators before the
    iterator and [rest] those from it on. *)
Fixpoint filter_entries (h : Locator_t → Z) (entries : list (Z * Z * list LocatorWithMask))
    (kept rest : list Locator_t) : list Locator_t :=
  match entries with
  | [] => kept ++ rest
  | (externality, cost, locals) :: entries =>
      let entry_heuristic := heuristic_value externality cost in
      let group := take_while (λ l, entry_heuristic =? h l) rest in
      let after := drop_while (λ l, entry_heuristic =? h l) rest in
      match group with
      | [] => filter_entries h entries kept rest
      | _ :: _ =>
          let num := exactly_matched group locals in
          if (0 <? externality) && (num =? length locals)%nat &&
             negb (bool_decide (after = [])) && (length group =? num)%nat
          then filter_entries h entries kept after
          else kept ++ group
      end
  end.

(** The (externality, cost) entries in iteration order. *)
Definition entries_of (e : ExternalLocators) : list (Z * Z * list LocatorWithMask) :=
  concat (map (λ '(x, m), map (λ '(c, l), (x, c, l)) m) e).

Definition filter_remote_locators (locators : list Locator_t) (e : ExternalLocators)
    (ignore_non_matching : bool) : list Locator_t :=
  let h := λ l, heuristic l e ignore_non_matching in
  let sorted := sort_by h locators in
  let matching := if ignore_non_matching
                  then pop_back_while (λ l, UINT64_MAX =? h l) sorted else sorted in
  let kept := if ignore_non_matching then [] else take_while (λ l, 0 =? h l) matching in
  let rest := if ignore_non_matching then matching
              else drop_while (λ l, 0 =? h l) matching in
  filter_entries h (entries_of e) kept rest.

(** ** Facts about the selection *)

Lemma take_drop_while {A} (p : A → bool) l : take_while p l ++ drop_while p l = l.
Proof. induction l as [|x l IH]; simpl; [done|]. destruct (p x); simpl; by rewrite ?IH. Qed.

Lemma take_while_all {A} (p : A → bool) l : Forall (λ x, p x = true) (take_while p l).
Proof. induction l as [|x l IH]; simpl; [done|]. destruct (p x) eqn:?; auto. Qed.

Lemma drop_while_head {A} (p : A → bool) l x l' : drop_while p l = x :: l' → p x = false.
Proof.
  induction l as [|y l IH]; simpl; [done|]. destruct (p y) eqn:Hy; [done|].
  by intros [= <- _].
Qed.

Lemma pop_back_while_prefix {A} (p : A → bool) l :
  ∃ tail, l = pop_back_while p l ++ tail ∧ Forall (λ x, p x = true) tail.
Proof.
  exists (reverse (take_while p (reverse l))). unfold pop_back_while. split.
  - rewrite <- reverse_app, take_drop_while. by rewrite reverse_involutive.
  - apply Forall_reverse, take_while_all.
Qed.

Lemma pop_back_while_last {A} (p : A → bool) l x :
  last (pop_back_while p l) = Some x → p x = false.
Proof.
  unfold pop_back_while. rewrite last_reverse.
  destruct (drop_while p (reverse l)) as [|y l'] eqn:Hd; simpl; [done|].
  intros [= <-]. by apply drop_while_head in Hd.
Qed.

(** What the traversal returns is a selection of what it was given that keeps
    everything before the iterator, and drops something only to keep something
    else. *)
Lemma filter_entries_spec h entries kept rest :
  ∃ pre post, rest = pre ++ post ∧
    ∃ mid tail, post = mid ++ tail ∧ filter_entries h entries kept rest = kept ++ mid ∧
                (rest ≠ [] → mid ≠ []).
Proof.
  revert rest. induction entries as [|[[x c] locals] entries IH]; intros rest; simpl.
  { exists [], rest. split; [done|]. exists rest, []. by rewrite app_nil_r. }
  set (p := λ l, heuristic_value x c =? h l).
  pose proof (take_drop_while p rest) as Hsplit.
  destruct (take_while p rest) as [|y group] eqn:Hg; [apply IH|].
  case_match eqn:Hcond.
  - destruct (IH (drop_while p rest)) as (pre & post & Hpost & mid & tail & ? & ? & Hne).
    exists ((y :: group) ++ pre), post. split; [by rewrite <- app_assoc, <- Hpost|].
    exists mid, tail. split_and!; [done..|]. intros _. apply Hne.
    destruct (bool_decide_reflect (drop_while p rest = [])); [|done].
    rewrite andb_false_r in Hcond. done.
  - exists [], rest. split; [done|]. exists (y :: group), (drop_while p rest). done.
Qed.

(** Externalities and costs are octets. *)
Definition external_wf (e : ExternalLocators) : Prop :=
  ∀ x c l, (x, c, l) ∈ entries_of e → is_u8 x ∧ is_u8 c.

Lemma heuristic_value_range x c : is_u8 x → is_u8 c → 0 <= heuristic_value x c < 2 ^ 24.
Proof.
  intros. unfold heuristic_value. rewrite Z.lor_comm, Z.shiftl_mul_pow2, lor_shiftl_add by
    (rewrite ?Z.shiftl_mul_pow2; range_unfold; lia). range_unfold. lia.
Qed.

Lemma find_match_entry e remote x c :
  find_match e remote = Some (x, c) → ∃ l, (x, c, l) ∈ entries_of e.
Proof.
  unfold find_match. case_match eqn:Hf; [|done]. destruct p as [[x' c'] i].
  intros [= -> ->]. apply find_some in Hf as [Hin _]. apply list_elem_of_In in Hin.
  apply list_elem_of_In in Hin. apply in_concat in Hin as (g & Hg & Hin).
  apply in_map_iff in Hg as ([y m] & <- & Hm).
  apply in_concat in Hin as (g & Hg & Hin). apply in_map_iff in Hg as ([d l] & <- & Hd).
  apply in_map_iff in Hin as (k & [= -> -> ->] & _). exists l.
  apply list_elem_of_In, in_concat. eexists. split; [apply in_map_iff; by exists (x, m)|].
  simpl. apply in_map_iff. by exists (c, l).
Qed.

Lemma heuristic_range l e ign : external_wf e → 0 <= heuristic l e ign <= UINT64_MAX.
Proof.
  intros He. unfold heuristic.
  destruct (LOCATOR_KIND_SHM =? kind l); [by vm_compute|].
  destruct (isLocal l); [by vm_compute|].
  destruct (find_match e l) as [[x c]|] eqn:Hm; [|destruct ign; by vm_compute].
  apply find_match_entry in Hm as [ls Hin]. destruct (He _ _ _ Hin) as [Hx Hc].
  pose proof (heuristic_value_range x c Hx Hc). range_unfold. lia.
Qed.

Lemma sorted_prefix_min (h : Locator_t → Z) l x :
  StronglySorted (by_key h) l → (∀ y, y ∈ l → 0 <= h y) → x ∈ l → h x = 0 →
  x ∈ take_while (λ y, 0 =? h y) l.
Proof.
  induction 1 as [|y l Hs IH Hall]; intros Hpos Hx Hz; [by apply not_elem_of_nil in Hx|].
  cbn [take_while]. rewrite Forall_forall in Hall. destruct (Z.eqb_spec 0 (h y)) as [Hy|Hy].
  - apply elem_of_cons in Hx as [->|Hx]; [by left|]. right. apply IH; [|done..].
    intros z Hin. apply Hpos. by right.
  - exfalso. apply elem_of_cons in Hx as [->|Hx]; [done|].
    specialize (Hall x Hx). unfold by_key in Hall. specialize (Hpos y ltac:(by left)). lia.
Qed.

Lemma sorted_last_max (h : Locator_t → Z) l x y :
  StronglySorted (by_key h) l → last l = Some y → x ∈ l → h x <= h y.
Proof.
  induction 1 as [|z l Hs IH Hall]; [done|]. intros Hlast Hx. rewrite Forall_forall in Hall.
  destruct l as [|w l].
  { simpl in Hlast. simplify_eq. by apply list_elem_of_singleton in Hx as ->. }
  apply elem_of_cons in Hx as [->|Hx]; [|by apply IH].
  apply Hall, last_Some_elem_of. by rewrite <- Hlast.
Qed.

(** Phase two leaves no locator that should be ignored. *)
Lemma pop_non_matching (h : Locator_t → Z) l x :
  StronglySorted (by_key h) l → (∀ y, y ∈ l → h y <= UINT64_MAX) →
  (x ∈ pop_back_while (λ y, UINT64_MAX =? h y) l ↔ x ∈ l ∧ h x ≠ UINT64_MAX).
Proof.
  intros Hs Hle. destruct (pop_back_while_prefix (λ y, UINT64_MAX =? h y) l) as (tail & Hl & Htail).
  pose proof (pop_back_while_last (λ y, UINT64_MAX =? h y) l) as Hlast.
  set (r := pop_back_while _ l) in *. rewrite Forall_forall in Htail.
  assert (Hsr : StronglySorted (by_key h) r) by (rewrite Hl in Hs; by eapply StronglySorted_app_1_l).
  split.
  - intros Hx. split; [rewrite Hl; apply elem_of_app; by left|].
    destruct (last r) as [y|] eqn:Hy; [|by apply last_None in Hy as ->; apply not_elem_of_nil in Hx].
    specialize (Hlast y eq_refl). apply Z.eqb_neq in Hlast.
    pose proof (sorted_last_max h r x y Hsr Hy Hx).
    assert (h y <= UINT64_MAX); [|lia]. apply Hle. rewrite Hl. apply elem_of_app. left.
    by apply last_Some_elem_of.
  - intros [Hx Hne]. rewrite Hl in Hx. apply elem_of_app in Hx as [?|Hx]; [done|].
    apply Htail, Z.eqb_eq in Hx. congruence.
Qed.

(** The locators of a remote endpoint that are kept: never one that was not
    announced; when non-matching locators are ignored, only matching ones; when
    they are not, every non-matching one; and as long as one announced locator is
    acceptable, at least one is kept. *)
Theorem filter_remote_locators_sound locators e ign :
  external_wf e →
  let kept := filter_remote_locators locators e ign in
  (∀ l, l ∈ kept → l ∈ locators) ∧
  (ign = true → ∀ l, l ∈ kept → heuristic l e true ≠ UINT64_MAX) ∧
  (ign = false → ∀ l, l ∈ locators → heuristic l e false = 0 → l ∈ kept) ∧
  ((∃ l, l ∈ locators ∧ (ign = true → heuristic l e true ≠ UINT64_MAX)) → kept ≠ []).
Proof.
  intros He kept. subst kept. unfold filter_remote_locators.
  set (h := λ l, heuristic l e ign). set (sorted := sort_by h locators).
  assert (Hin : ∀ l, l ∈ sorted ↔ l ∈ locators)
    by (intros l; unfold sorted; by rewrite sort_by_perm).
  assert (Hs : StronglySorted (by_key h) sorted) by apply sort_by_sorted.
  assert (Hh : ∀ l, 0 <= h l <= UINT64_MAX) by (intros; by apply heuristic_range).
  destruct ign.
  - pose proof (pop_non_matching h sorted) as Hpop. set (r := pop_back_while _ sorted) in *.
    destruct (filter_entries_spec h (entries_of e) [] r)
      as (pre & post & Hr & mid & tail & Hpost & -> & Hne). simpl.
    assert (Hsub : ∀ l, l ∈ mid → l ∈ sorted ∧ h l ≠ UINT64_MAX).
    { intros l Hl. apply Hpop; [done|intros; apply Hh|]. rewrite Hr, Hpost, !elem_of_app. tauto. }
    split_and!; [intros l Hl; by apply Hin, Hsub|intros _ l Hl; by apply Hsub|done|].
    intros (l & Hl & Hacc). apply Hne. intros Hnil.
    assert (Hlr : l ∈ r) by (apply Hpop; [done|intros; apply Hh|split; [by apply Hin|by apply Hacc]]).
    rewrite Hnil in Hlr. by apply not_elem_of_nil in Hlr.
  - pose proof (take_drop_while (λ l, 0 =? h l) sorted) as Hsplit.
    set (k := take_while _ sorted) in *. set (r := drop_while _ sorted) in *.
    destruct (filter_entries_spec h (entries_of e) k r)
      as (pre & post & Hr & mid & tail & Hpost & -> & Hne).
    split_and!; [| done | |].
    + intros l Hl. apply Hin. revert Hl. rewrite <- Hsplit, Hr, Hpost, !elem_of_app. tauto.
    + intros _ l Hl Hz. apply elem_of_app. left.
      apply sorted_prefix_min; [done|intros; apply Hh|by apply Hin|done].
    + intros (l & Hl & _) [Hk Hm]%app_nil. apply Hin in Hl. rewrite <- Hsplit in Hl.
      rewrite Hk in Hl. simpl in Hl. destruct r; [by apply not_elem_of_nil in Hl|].
      by apply Hne.
Qed.

(** A masked locator of the user-space kinds (XDP, DPDK) never matches, so
    an endpoint that ignores non-matching locators drops every XDP and DPDK
    locator of its peers that is not the local-host address, even one equal to a
    configured external locator. *)
Theorem userspace_locators_ignored locators e l :
  external_wf e →
  kind l = LOCATOR_KIND_XDP ∨ kind l = LOCATOR_KIND_DPDK → isLocal l = false →
  l ∉ filter_remote_locators locators e true.
Proof.
  intros He Hk Hloc Hl.
  assert (Hmax : heuristic l e true = UINT64_MAX).
  { unfold heuristic. rewrite Hloc. destruct (Z.eqb_spec LOCATOR_KIND_SHM (kind l)) as [Hshm|];
      [destruct Hk as [Hk|Hk]; rewrite Hk in Hshm; discriminate|].
    unfold find_match. set (cands := concat _).
    destruct (find _ cands) as [[[x c] i]|] eqn:Hf; [|done].
    apply find_some in Hf as [_ Hm]. unfold matches, is_ipv4_kind, is_ipv6_kind in Hm.
    destruct (kind (locator i) =? kind l); [|done]. by destruct Hk as [Hk|Hk]; rewrite Hk in Hm. }
  revert Hl. unfold filter_remote_locators.
  set (h := λ l, heuristic l e true). set (sorted := sort_by h locators).
  pose proof (pop_non_matching h sorted l) as Hpop. set (r := pop_back_while _ sorted) in *.
  destruct (filter_entries_spec h (entries_of e) [] r)
    as (pre & post & Hr & mid & tail & Hpost & -> & _). simpl. intros Hl.
  destruct Hpop as [Hpop _]; [apply sort_by_sorted|intros; by apply heuristic_range|].
  apply Hpop; [|done]. rewrite Hr, Hpost, !elem_of_app. tauto.
Qed.

(** A configuration with one external network, and the peer's locators. *)
Definition sample_external : ExternalLocators :=
  [(1, [(0, [mkMasked (mkLocator LOCATOR_KIND_UDPv4 7410 (replicate 12 0 ++ [10; 1; 0; 5])) 16;
             mkMasked (mkLocator LOCATOR_KIND_XDP 7410 (replicate 10 0 ++ [2; 0; 0; 0; 0; 7])) 128])]);
   (0, [(1, [mkMasked (mkLocator LOCATOR_KIND_UDPv4 7410 (replicate 12 0 ++ [192; 168; 1; 2])) 24])])].

Lemma sample_external_wf : external_wf sample_external.
Proof.
  intros x c l. vm_compute entries_of. rewrite !elem_of_cons.
  intros [Hx|[Hx|Hx]]; [injection Hx as -> -> ->; range_unfold; lia..|by apply not_elem_of_nil in Hx].
Qed.

Lemma filter_remote_locators_sound_witness :
  filter_remote_locators
    [mkLocator LOCATOR_KIND_UDPv4 7411 (replicate 12 0 ++ [172; 16; 0; 1]);
     mkLocator LOCATOR_KIND_UDPv4 7411 (replicate 12 0 ++ [192; 168; 1; 9])] sample_external true
  = [mkLocator LOCATOR_KIND_UDPv4 7411 (replicate 12 0 ++ [192; 168; 1; 9])] ∧
  filter_remote_locators
    [mkLocator LOCATOR_KIND_UDPv4 7411 (replicate 12 0 ++ [192; 168; 1; 9])] sample_external true ≠ [].
Proof.
  split; [vm_compute; reflexivity|].
  destruct (filter_remote_locators_sound
    [mkLocator LOCATOR_KIND_UDPv4 7411 (replicate 12 0 ++ [192; 168; 1; 9])]
    sample_external true sample_external_wf) as (_ & _ & _ & Hne).
  apply Hne. eexists. split; [left|]. intros _. vm_compute. discriminate.
Defined.

Lemma userspace_locators_ignored_witness :
  mkLocator LOCATOR_KIND_XDP 7410 (replicate 10 0 ++ [2; 0; 0; 0; 0; 7]) ∉
  filter_remote_locators [mkLocator LOCATOR_KIND_XDP 7410 (replicate 10 0 ++ [2; 0; 0; 0; 0; 7])]
    sample_external true.
Proof.
  apply (userspace_locators_ignored _ sample_external);
    [apply sample_external_wf|left; reflexivity|reflexivity].
Defined.

End Locator.
