(* ===== verification/LocatorSelector.v ===== *)
(** * Selection of destination locators

    [LocatorSelectorEntry] and [LocatorSelector]
    (include/fastdds/rtps/common/LocatorSelectorEntry.hpp, LocatorSelector.hpp),
    with the iterator the transports send through, and the selection algorithm of
    the UDP transports (src/cpp/rtps/transport/UDPTransportInterface.cpp).

    A selector holds pointers to entries that belong to the reader proxies: the
    entries live in a store from pointers to entries, and the operations of the
    selector change the store. *)

From S2P Require Import Prelude Containers Guid Locator.
From stdpp Require Import gmap.

#[local] Open Scope Z_scope.

Module LocatorSelector.
Import Guid Locator.

Record LocatorSelectorEntry := mkEntry {
  remote_guid : GUID_t;
  unicast : RLV.t Locator_t;
  multicast : RLV.t Locator_t;
  (** [EntryState]: indexes into the two lists. *)
  state_unicast : RLV.t nat;
  state_multicast : RLV.t nat;
  enabled : bool;
  transport_should_process : bool
}.

(** The constructor. *)
Definition make_entry (max_unicast_locators max_multicast_locators : Z) : LocatorSelectorEntry :=
  mkEntry c_Guid_Unknown
    (RLV.make (RLV.fixed_size_configuration max_unicast_locators))
    (RLV.make (RLV.fixed_size_configuration max_multicast_locators))
    (RLV.make (RLV.fixed_size_configuration max_unicast_locators))
    (RLV.make (RLV.fixed_size_configuration max_multicast_locators))
    false false.

Definition set_enabled (e : LocatorSelectorEntry) (b : bool) : LocatorSelectorEntry :=
  mkEntry (remote_guid e) (unicast e) (multicast e) (state_unicast e) (state_multicast e)
    b (transport_should_process e).

Definition set_process (e : LocatorSelectorEntry) (b : bool) : LocatorSelectorEntry :=
  mkEntry (remote_guid e) (unicast e) (multicast e) (state_unicast e) (state_multicast e)
    (enabled e) b.

Definition set_state (e : LocatorSelectorEntry) (su sm : RLV.t nat) : LocatorSelectorEntry :=
  mkEntry (remote_guid e) (unicast e) (multicast e) su sm (enabled e) (transport_should_process e).

(** [LocatorSelectorEntry::enable]. *)
Definition entry_enable (e : LocatorSelectorEntry) (should_enable : bool) : LocatorSelectorEntry :=
  set_enabled e (should_enable && Guid.neqb (remote_guid e) c_Guid_Unknown).

(** [LocatorSelectorEntry::reset]. *)
Definition entry_reset (e : LocatorSelectorEntry) : LocatorSelectorEntry :=
  set_state e (RLV.clear (state_unicast e)) (RLV.clear (state_multicast e)).

Definition select_unicast (e : LocatorSelectorEntry) (j : nat) : LocatorSelectorEntry :=
  set_state e (snd (RLV.push_back (state_unicast e) j)) (state_multicast e).

Definition select_multicast (e : LocatorSelectorEntry) (j : nat) : LocatorSelectorEntry :=
  set_state e (state_unicast e) (snd (RLV.push_back (state_multicast e) j)).

(** The loops of [create_fully_selected_entry]. *)
Definition add_selected_unicast (e : LocatorSelectorEntry) (l : Locator_t) : LocatorSelectorEntry :=
  let e := select_unicast e (length (RLV.collection_ (unicast e))) in
  mkEntry (remote_guid e) (snd (RLV.push_back (unicast e) l)) (multicast e)
    (state_unicast e) (state_multicast e) (enabled e) (transport_should_process e).

Definition add_selected_multicast (e : LocatorSelectorEntry) (l : Locator_t) : LocatorSelectorEntry :=
  let e := select_multicast e (length (RLV.collection_ (multicast e))) in
  mkEntry (remote_guid e) (unicast e) (snd (RLV.push_back (multicast e) l))
    (state_unicast e) (state_multicast e) (enabled e) (transport_should_process e).

Definition create_fully_selected_entry (unicast_locators multicast_locators : list Locator_t)
    : LocatorSelectorEntry :=
  let e := make_entry (Z.of_nat (length unicast_locators)) (Z.of_nat (length multicast_locators)) in
  let e := fold_left add_selected_unicast unicast_locators e in
  fold_left add_selected_multicast multicast_locators e.

(** ** The selector *)

Abbreviation Store := (gmap Z LocatorSelectorEntry).

Record LocatorSelector := mkSelector {
  entries_ : RLV.t Z;
  selections_ : RLV.t nat;
  last_state_ : RLV.t Z;
  store : Store
}.

Definition make_selector (cfg : RLV.config) (st : Store) : LocatorSelector :=
  mkSelector (RLV.make cfg) (RLV.make cfg) (RLV.make cfg) st.

Definition dead_entry : LocatorSelectorEntry := make_entry 0 0.

(** The entry a pointer refers to. *)
Definition entry_at (s : LocatorSelector) (p : Z) : LocatorSelectorEntry :=
  match store s !! p with Some e => e | None => dead_entry end.

(** [entries_.at(index)]. *)
Definition entry (s : LocatorSelector) (index : nat) : LocatorSelectorEntry :=
  entry_at s (nth index (RLV.collection_ (entries_ s)) 0).

Definition update_entry (s : LocatorSelector) (p : Z)
    (f : LocatorSelectorEntry → LocatorSelectorEntry) : LocatorSelector :=
  mkSelector (entries_ s) (selections_ s) (last_state_ s) (alter f p (store s)).

Definition clear (s : LocatorSelector) : LocatorSelector :=
  mkSelector (RLV.clear (entries_ s)) (RLV.clear (selections_ s)) (RLV.clear (last_state_ s))
    (store s).

Definition add_entry (s : LocatorSelector) (p : Z) : bool * LocatorSelector :=
  let '(ok, v) := RLV.push_back (entries_ s) p in
  (ok, mkSelector v (selections_ s) (last_state_ s) (store s)).

Definition remove_entry (s : LocatorSelector) (guid : GUID_t) : bool * LocatorSelector :=
  let '(ok, v) := RLV.remove_if false (entries_ s) (λ p, Guid.eqb (remote_guid (entry_at s p)) guid) in
  (ok, mkSelector v (selections_ s) (last_state_ s) (store s)).

(** One round of the loop of [reset]. *)
Definition reset_entry (enable_all : bool) (s : LocatorSelector) (p : Z) : LocatorSelector :=
  let last' := snd (RLV.push_back (last_state_ s) (if enabled (entry_at s p) then 1 else 0)) in
  update_entry (mkSelector (entries_ s) (selections_ s) last' (store s)) p
    (λ e, entry_enable e enable_all).

Definition reset (s : LocatorSelector) (enable_all : bool) : LocatorSelector :=
  let s := mkSelector (entries_ s) (selections_ s) (RLV.clear (last_state_ s)) (store s) in
  fold_left (reset_entry enable_all) (RLV.collection_ (entries_ s)) s.

Definition enable (s : LocatorSelector) (guid : GUID_t) : LocatorSelector :=
  match find (λ p, Guid.eqb (remote_guid (entry_at s p)) guid) (RLV.collection_ (entries_ s)) with
  | Some p => update_entry s p (λ e, set_enabled e true)
  | None => s
  end.

Definition state_has_changed (s : LocatorSelector) : bool :=
  let ps := RLV.collection_ (entries_ s) in
  let last := RLV.collection_ (last_state_ s) in
  if negb (length ps =? length last)%nat then true
  else existsb (λ '(p, b), negb (b =? (if enabled (entry_at s p) then 1 else 0)))
         (combine ps last).

Definition selection_start (s : LocatorSelector) : LocatorSelector :=
  let s := mkSelector (entries_ s) (RLV.clear (selections_ s)) (last_state_ s) (store s) in
  fold_left (λ s p, update_entry s p entry_reset) (RLV.collection_ (entries_ s)) s.

Definition transport_starts (s : LocatorSelector) : LocatorSelector :=
  fold_left (λ s p, update_entry s p (λ e, set_process e (enabled e)))
    (RLV.collection_ (entries_ s)) s.

Definition select (s : LocatorSelector) (index : nat) : LocatorSelector :=
  if (index <? length (RLV.collection_ (entries_ s)))%nat &&
     negb (RLV.contains (selections_ s) index)
  then mkSelector (entries_ s) (snd (RLV.push_back (selections_ s) index)) (last_state_ s) (store s)
  else s.

Definition selected_size (s : LocatorSelector) : Z :=
  fold_left (λ result index,
    u64 (u64 (result + RLV.size (state_multicast (entry s index))) +
         RLV.size (state_unicast (entry s index))))
    (RLV.collection_ (selections_ s)) 0.

(** The locators an entry's state points at; an index out of range would
    throw. *)
Definition picked_multicast (e : LocatorSelectorEntry) : list Locator_t :=
  omap (λ j, RLV.at_ (multicast e) j) (RLV.collection_ (state_multicast e)).
Definition picked_unicast (e : LocatorSelectorEntry) : list Locator_t :=
  omap (λ j, RLV.at_ (unicast e) j) (RLV.collection_ (state_unicast e)).

Definition is_selected (s : LocatorSelector) (l : Locator_t) : bool :=
  if isMulticast l then
    existsb (λ index, existsb (λ x, Locator.eqb x l) (picked_multicast (entry s index)))
      (RLV.collection_ (selections_ s))
  else
    existsb (λ index, existsb (λ x, Locator.eqb x l) (picked_unicast (entry s index)))
      (RLV.collection_ (selections_ s)).

(** [for_each]: the locators the action is applied to, in order. *)
Definition for_each (s : LocatorSelector) : list Locator_t :=
  concat (map (λ index, picked_multicast (entry s index) ++ picked_unicast (entry s index))
            (RLV.collection_ (selections_ s))).

(** ** The iterator *)

Record IteratorIndex := mkIndex {
  selections_index : Z;
  state_index : nat;
  state_multicast_done : bool;
  current_locator : option Locator_t
}.

(** The locator at position [k] of a state list, [None] past its end. *)
Definition pick (locs : RLV.t Locator_t) (st : RLV.t nat) (k : nat) : option Locator_t :=
  RLV.collection_ st !! k ≫= RLV.at_ locs.

Definition selected_entry (s : LocatorSelector) (i : Z) : LocatorSelectorEntry :=
  entry s (nth (Z.to_nat i) (RLV.collection_ (selections_ s)) 0%nat).

(** The loop of [go_to_next_entry], one selection per unit of fuel. *)
Fixpoint go_to_next_entry_loop (fuel : nat) (s : LocatorSelector) (c : IteratorIndex)
    : IteratorIndex :=
  match fuel with
  | O => c
  | S fuel =>
      let i := u64 (selections_index c + 1) in
      if i <? RLV.size (selections_ s) then
        let e := selected_entry s i in
        if RLV.size (state_multicast e) =? 0 then
          if 0 <? RLV.size (state_unicast e)
          then mkIndex i (state_index c) (state_multicast_done c)
                 (pick (unicast e) (state_unicast e) 0)
          else go_to_next_entry_loop fuel s
                 (mkIndex i (state_index c) (state_multicast_done c) (current_locator c))
        else mkIndex i (state_index c) false (pick (multicast e) (state_multicast e) 0)
      else mkIndex i (state_index c) (state_multicast_done c) None
  end.

Definition go_to_next_entry (s : LocatorSelector) (c : IteratorIndex) : IteratorIndex :=
  go_to_next_entry_loop (S (length (RLV.collection_ (selections_ s)))) s c.

Definition iterator_end : IteratorIndex := mkIndex (2 ^ 64 - 1) 0 true None.

Definition begin (s : LocatorSelector) : IteratorIndex := go_to_next_entry s iterator_end.

Definition next (s : LocatorSelector) (c : IteratorIndex) : IteratorIndex :=
  let e := selected_entry s (selections_index c) in
  let k := S (state_index c) in
  if state_multicast_done c then
    if (length (RLV.collection_ (state_unicast e)) <=? k)%nat then
      go_to_next_entry s (mkIndex (selections_index c) 0 true (current_locator c))
    else mkIndex (selections_index c) k true (pick (unicast e) (state_unicast e) k)
  else
    if (length (RLV.collection_ (state_multicast e)) <=? k)%nat then
      if (length (RLV.collection_ (state_unicast e)) <=? 0)%nat then
        go_to_next_entry s (mkIndex (selections_index c) 0 true (current_locator c))
      else mkIndex (selections_index c) 0 true (pick (unicast e) (state_unicast e) 0)
    else mkIndex (selections_index c) k false (pick (multicast e) (state_multicast e) k).

(** The assertion of [operator ++]. *)
Definition next_assert (s : LocatorSelector) (c : IteratorIndex) : bool :=
  selections_index c <? RLV.size (selections_ s).

(** A loop over the iterator, from [c] to the end, at most [fuel] locators. *)
Fixpoint iterate (fuel : nat) (s : LocatorSelector) (c : IteratorIndex) : list Locator_t :=
  match fuel with
  | O => []
  | S fuel =>
      match current_locator c with
      | None => []
      | Some l => l :: iterate fuel s (next s c)
      end
  end.

(** ** The selection algorithm of the UDP transports

    [k] is the kind of locators the transport supports
    ([UDPTransportInterface::IsLocatorSupported]). *)

Definition IsLocatorSupported (k : Z) (l : Locator_t) : bool := kind l =? k.

(** [check_and_invalidate] on the entries [ps] from the starting index on. *)
Fixpoint check_and_invalidate (s : LocatorSelector) (ps : list Z) (l : Locator_t)
    : bool * LocatorSelector :=
  match ps with
  | [] => (false, s)
  | p :: ps =>
      let e := entry_at s p in
      let hit := transport_should_process e &&
                 existsb (λ x, Locator.eqb x l) (RLV.collection_ (multicast e)) in
      let s := if hit then update_entry s p (λ e, set_process e false) else s in
      let '(r, s) := check_and_invalidate s ps l in
      (hit || r, s)
  end.

(** The loop over the multicast locators of the entry [p], from position [j]:
    [later] are the entries after it. *)
Fixpoint choose_multicast (k : Z) (s : LocatorSelector) (p : Z) (later : list Z)
    (j : nat) (ls : list Locator_t) : bool * LocatorSelector :=
  match ls with
  | [] => (false, s)
  | l :: ls =>
      if IsLocatorSupported k l then
        let '(hit, s) := check_and_invalidate s later l in
        if hit then (true, update_entry s p (λ e, select_multicast e j))
        else if RLV.size (unicast (entry_at s p)) =? 0
             then (true, update_entry s p (λ e, select_multicast e j))
             else choose_multicast k s p later (S j) ls
      else choose_multicast k s p later (S j) ls
  end.

(** The loop over its unicast locators. *)
Fixpoint choose_unicast (k : Z) (s : LocatorSelector) (p : Z) (selected : bool)
    (j : nat) (ls : list Locator_t) : bool * LocatorSelector :=
  match ls with
  | [] => (selected, s)
  | l :: ls =>
      if IsLocatorSupported k l && negb (is_selected s l)
      then choose_unicast k (update_entry s p (λ e, select_unicast e j)) p true (S j) ls
      else choose_unicast k s p selected (S j) ls
  end.

(** The body of the loop over the entries, for the entry [p] at index [i]. *)
Definition select_entry (k : Z) (s : LocatorSelector) (i : nat) (p : Z) (later : list Z)
    : LocatorSelector :=
  if transport_should_process (entry_at s p) then
    let '(selected, s) :=
      choose_multicast k s p later 0 (RLV.collection_ (multicast (entry_at s p))) in
    let '(selected, s) :=
      if selected then (true, s)
      else choose_unicast k s p false 0 (RLV.collection_ (unicast (entry_at s p))) in
    if selected then select s i else s
  else s.

Fixpoint select_locators_loop (k : Z) (s : LocatorSelector) (i : nat) (ps : list Z)
    : LocatorSelector :=
  match ps with
  | [] => s
  | p :: later => select_locators_loop k (select_entry k s i p later) (S i) later
  end.

Definition select_locators (k : Z) (s : LocatorSelector) : LocatorSelector :=
  let s := transport_starts s in
  select_locators_loop k s 0 (RLV.collection_ (entries_ s)).

End LocatorSelector.
