(* ===== verification/LocatorSelectorFacts.v ===== *)
(** * Facts about the locator selector

    The iterator visits what [for_each] visits, and the enabling state is
    tracked exactly. *)

From S2P Require Import Prelude Containers Guid Locator LocatorSelector.
From stdpp Require Import gmap.

#[local] Open Scope Z_scope.

Import LocatorSelector.

(** ** Picked locators *)

(** The state lists of an entry point inside its locator lists. *)
Definition entry_valid (e : LocatorSelectorEntry) : Prop :=
  Forall (λ j, (j < length (RLV.collection_ (unicast e)))%nat) (RLV.collection_ (state_unicast e)) ∧
  Forall (λ j, (j < length (RLV.collection_ (multicast e)))%nat)
    (RLV.collection_ (state_multicast e)).

Lemma omap_total {A B} (f : A → option B) (l : list A) :
  Forall (λ x, is_Some (f x)) l →
  length (omap f l) = length l ∧ ∀ k, omap f l !! k = l !! k ≫= f.
Proof.
  induction 1 as [|x l [y Hy] _ [IHl IHk]]; [done|].
  simpl. rewrite Hy. simpl. split; [by f_equal|]. intros [|k]; simpl; [done|apply IHk].
Qed.

Lemma picks_total (locs : RLV.t Locator.Locator_t) (st : list nat) :
  Forall (λ j, (j < length (RLV.collection_ locs))%nat) st →
  Forall (λ j, is_Some (RLV.at_ locs j)) st.
Proof. intros H. eapply Forall_impl; [exact H|]. intros j Hj. by apply lookup_lt_is_Some. Qed.

Lemma picked_unicast_spec e :
  entry_valid e →
  length (picked_unicast e) = length (RLV.collection_ (state_unicast e)) ∧
  ∀ k, pick (unicast e) (state_unicast e) k = picked_unicast e !! k.
Proof.
  intros [H _]. destruct (omap_total _ _ (picks_total _ _ H)) as [Hl Hk].
  split; [done|]. intros k. unfold picked_unicast. by rewrite Hk.
Qed.

Lemma picked_multicast_spec e :
  entry_valid e →
  length (picked_multicast e) = length (RLV.collection_ (state_multicast e)) ∧
  ∀ k, pick (multicast e) (state_multicast e) k = picked_multicast e !! k.
Proof.
  intros [_ H]. destruct (omap_total _ _ (picks_total _ _ H)) as [Hl Hk].
  split; [done|]. intros k. unfold picked_multicast. by rewrite Hk.
Qed.

(** ** The iterator *)

Section iterator.
Context (s : LocatorSelector).

Let sel := RLV.collection_ (selections_ s).

(** Selections that point at valid entries, fewer than a [size_t] can count. *)
Context (Hvalid : ∀ index, index ∈ sel → entry_valid (entry s index)).
Context (Hsize : Z.of_nat (length sel) < 2 ^ 64).

Let picks (index : nat) : list Locator.Locator_t :=
  picked_multicast (entry s index) ++ picked_unicast (entry s index).

(** What is still to be visited from the [i]-th selection on. *)
Let rest (i : nat) : list Locator.Locator_t := concat (map picks (drop i sel)).

(** An iterator that still has the locators of the list to visit. *)
Inductive points : IteratorIndex → list Locator.Locator_t → Prop :=
  | points_end i k d : points (mkIndex i k d None) []
  | points_unicast i k index l tail :
      sel !! i = Some index →
      drop k (picked_unicast (entry s index)) = l :: tail →
      points (mkIndex (Z.of_nat i) k true (Some l)) ((l :: tail) ++ rest (S i))
  | points_multicast i k index l tail :
      sel !! i = Some index →
      drop k (picked_multicast (entry s index)) = l :: tail →
      points (mkIndex (Z.of_nat i) k false (Some l))
        ((l :: tail) ++ picked_unicast (entry s index) ++ rest (S i)).

Lemma rest_cons i index : sel !! i = Some index → rest i = picks index ++ rest (S i).
Proof. intros Hi. unfold rest. by rewrite (drop_S sel index i Hi). Qed.

Lemma rest_end i : (length sel <= i)%nat → rest i = [].
Proof. intros Hi. unfold rest. by rewrite drop_ge. Qed.

Lemma selected_entry_at i index :
  sel !! i = Some index → selected_entry s (Z.of_nat i) = entry s index.
Proof.
  intros Hi. unfold selected_entry. rewrite Nat2Z.id. fold sel.
  by rewrite (nth_lookup_Some _ _ _ _ Hi).
Qed.

Lemma size_zero_iff {A} (v : RLV.t A) n :
  n = length (RLV.collection_ v) → (RLV.size v =? 0) = (n =? 0)%nat.
Proof. intros ->. unfold RLV.size. destruct (RLV.collection_ v); done. Qed.

Lemma go_to_next_points fuel i c :
  u64 (selections_index c + 1) = Z.of_nat i → state_index c = 0%nat →
  state_multicast_done c = true → (S (length sel - i) <= fuel)%nat → (i <= length sel)%nat →
  points (go_to_next_entry_loop fuel s c) (rest i).
Proof.
  revert i c. induction fuel as [|fuel IH]; intros i c Hi Hk Hd Hf Hle; [lia|].
  cbn [go_to_next_entry_loop]. rewrite Hi, Hk, Hd. unfold RLV.size at 1. fold sel.
  destruct (Z.ltb_spec (Z.of_nat i) (Z.of_nat (length sel))) as [Hlt|Hge].
  2: { rewrite rest_end by lia. constructor. }
  destruct (lookup_lt_is_Some_2 sel i) as [index Hindex]; [lia|].
  rewrite (selected_entry_at i index Hindex), (rest_cons i index Hindex).
  assert (Hv : entry_valid (entry s index)) by (apply Hvalid; by eapply list_elem_of_lookup_2).
  destruct (picked_unicast_spec _ Hv) as [Hlu Hpu], (picked_multicast_spec _ Hv) as [Hlm Hpm].
  rewrite (size_zero_iff _ _ Hlm), Hpu, Hpm. unfold picks.
  destruct (picked_multicast (entry s index)) as [|l tail] eqn:Hm; simpl.
  - destruct (picked_unicast (entry s index)) as [|l tail] eqn:Hu; simpl in *.
    + destruct (Z.ltb_spec 0 (RLV.size (state_unicast (entry s index)))) as [Hc|_];
        [unfold RLV.size in Hc; lia|].
      apply IH; simpl; try done; [|lia..].
      rewrite u64_small by (range_unfold; lia). lia.
    + destruct (Z.ltb_spec 0 (RLV.size (state_unicast (entry s index)))) as [_|Hc];
        [|unfold RLV.size in Hc; lia].
      eapply (points_unicast i 0 index l tail); [done|]. by rewrite Hu.
  - rewrite <- app_assoc. eapply (points_multicast i 0 index l tail); [done|]. by rewrite Hm.
Qed.

Lemma go_to_next_from i k :
  (i < length sel)%nat → k = 0%nat →
  ∀ l, points (go_to_next_entry s (mkIndex (Z.of_nat i) k true l)) (rest (S i)).
Proof.
  intros Hi -> l. apply go_to_next_points; simpl; try done; [|fold sel; lia..].
  rewrite u64_small by (range_unfold; lia). lia.
Qed.

Lemma next_points c l L :
  points c (l :: L) → current_locator c = Some l ∧ next_assert s c = true ∧ points (next s c) L.
Proof.
  intros Hp. inversion Hp as [|i k index l' tail Hi Hd|i k index l' tail Hi Hd]; subst.
  all: assert (Hlt := lookup_lt_Some _ _ _ Hi).
  all: assert (Hv : entry_valid (entry s index)) by (apply Hvalid; by eapply list_elem_of_lookup_2).
  all: destruct (picked_unicast_spec _ Hv) as [Hlu Hpu], (picked_multicast_spec _ Hv) as [Hlm Hpm].
  all: split; [done|]; split; [apply Z.ltb_lt; simpl; unfold RLV.size; fold sel; lia|].
  all: unfold next; simpl; rewrite (selected_entry_at i index Hi), ?Hpu, ?Hpm.
  - assert (Htail : drop (S k) (picked_unicast (entry s index)) = tail)
      by (rewrite <- Nat.add_1_r, <- drop_drop, Hd; done).
    rewrite <- Hlu. destruct (Nat.leb_spec (length (picked_unicast (entry s index))) (S k)).
    + rewrite drop_ge in Htail by done. subst tail. by apply go_to_next_from.
    + destruct tail as [|l2 tail]; [apply (f_equal length) in Htail; rewrite length_drop in Htail; simpl in Htail; lia|].
      assert (picked_unicast (entry s index) !! S k = Some l2) as ->
        by (rewrite <- (Nat.add_0_r (S k)), <- lookup_drop, Htail; done).
      by eapply points_unicast.
  - assert (Htail : drop (S k) (picked_multicast (entry s index)) = tail)
      by (rewrite <- Nat.add_1_r, <- drop_drop, Hd; done).
    rewrite <- Hlm, <- Hlu.
    destruct (Nat.leb_spec (length (picked_multicast (entry s index))) (S k)).
    + rewrite drop_ge in Htail by done. subst tail. simpl.
      destruct (picked_unicast (entry s index)) as [|l2 u] eqn:Hu; simpl; [by apply go_to_next_from|].
      eapply (points_unicast i 0 index l2 u); [done|]. by rewrite Hu.
    + destruct tail as [|l2 tail]; [apply (f_equal length) in Htail; rewrite length_drop in Htail; simpl in Htail; lia|].
      assert (picked_multicast (entry s index) !! S k = Some l2) as ->
        by (rewrite <- (Nat.add_0_r (S k)), <- lookup_drop, Htail; done).
      by eapply points_multicast.
Qed.

Lemma points_nil c : points c [] → current_locator c = None.
Proof. by inversion 1. Qed.

Lemma iterate_points L c fuel : points c L → (length L < fuel)%nat → iterate fuel s c = L.
Proof.
  revert c fuel. induction L as [|l L IH]; intros c [|fuel] Hp Hf; simpl in *; try lia.
  - by rewrite points_nil.
  - destruct (next_points c l L Hp) as (-> & _ & Hn). f_equal. apply IH; [done|lia].
Qed.

Lemma begin_points : points (begin s) (for_each s).
Proof.
  unfold begin. change (for_each s) with (rest 0).
  apply go_to_next_points; [reflexivity..|fold sel; lia|lia].
Qed.

(** The state after a number of increments, and what is left. *)
Lemma nth_points n c L :
  points c L → (n <= length L)%nat → points (Nat.iter n (next s) c) (drop n L).
Proof.
  revert c L. induction n as [|n IH]; intros c L Hp Hn; [done|].
  destruct L as [|l L]; [simpl in Hn; lia|].
  rewrite Nat.iter_succ_r. apply IH; [by apply next_points in Hp as (_ & _ & ?)|simpl in *; lia].
Qed.

End iterator.

Lemma selected_size_acc s l acc :
  (∀ index, index ∈ l → entry_valid (entry s index)) → is_u64 acc →
  fold_left (λ result index,
    u64 (u64 (result + RLV.size (state_multicast (entry s index))) +
         RLV.size (state_unicast (entry s index)))) l acc =
  u64 (acc + Z.of_nat (length (concat (map (λ index,
    picked_multicast (entry s index) ++ picked_unicast (entry s index)) l)))).
Proof.
  revert acc. induction l as [|index l IH]; intros acc Hv Hacc; simpl.
  { by rewrite Z.add_0_r, u64_small. }
  rewrite IH; [|intros; apply Hv; by right|auto with mint].
  destruct (picked_unicast_spec (entry s index)) as [Hlu _]; [apply Hv; by left|].
  destruct (picked_multicast_spec (entry s index)) as [Hlm _]; [apply Hv; by left|].
  rewrite !length_app, Hlu, Hlm. unfold RLV.size. mlia.
Qed.

(** C35: a loop from [begin()] to [end()] visits exactly the locators [for_each]
    visits, in the same order; it takes as many increments as there are selected
    locators, each of them within the assertion of [operator ++], and
    [selected_size] is that number. *)
Theorem iterator_visits_for_each s fuel :
  (∀ index, index ∈ RLV.collection_ (selections_ s) → entry_valid (entry s index)) →
  Z.of_nat (length (RLV.collection_ (selections_ s))) < 2 ^ 64 →
  Z.of_nat (length (for_each s)) < 2 ^ 64 →
  (length (for_each s) < fuel)%nat →
  iterate fuel s (begin s) = for_each s ∧
  current_locator (Nat.iter (length (for_each s)) (next s) (begin s)) = None ∧
  (∀ n, (n < length (for_each s))%nat →
     next_assert s (Nat.iter n (next s) (begin s)) = true) ∧
  selected_size s = Z.of_nat (length (for_each s)).
Proof.
  intros Hv Hsize Hlen Hfuel. pose proof (begin_points s Hv Hsize) as Hb. split_and!.
  - by apply iterate_points.
  - eapply points_nil, eq_ind; [apply nth_points; [done..|exact Hb|done]|]. by rewrite drop_all.
  - intros n Hn. destruct (drop n (for_each s)) as [|l L] eqn:Hd.
    { apply (f_equal length) in Hd. rewrite length_drop in Hd. simpl in Hd. lia. }
    eapply (next_points s Hv Hsize _ l L). rewrite <- Hd. apply nth_points; [done..|lia].
  - unfold selected_size. rewrite selected_size_acc; [|done|range_unfold; lia].
    fold (for_each s). rewrite Z.add_0_l. apply u64_small. range_unfold. lia.
Qed.

(** ** Entries in the store *)

Lemma entry_at_update s p f q :
  entry_at (update_entry s p f) q =
    if decide (p = q ∧ is_Some (store s !! p)) then f (entry_at s q) else entry_at s q.
Proof.
  unfold entry_at, update_entry; simpl. case_decide as Hd.
  - destruct Hd as [<- [e He]]. by rewrite lookup_alter_eq, He.
  - destruct (decide (p = q)) as [<-|]; [|by rewrite lookup_alter_ne].
    rewrite lookup_alter_eq. destruct (store s !! p) eqn:He; [|done].
    exfalso. apply Hd. split; [done|]. by eexists.
Qed.

(** What a selection never takes back: the locators and the flags of an entry
    stay, its picks and the selections only grow. *)
Record entry_grows (e e' : LocatorSelectorEntry) : Prop := {
  eg_guid : remote_guid e' = remote_guid e;
  eg_unicast : unicast e' = unicast e;
  eg_multicast : multicast e' = multicast e;
  eg_enabled : enabled e' = enabled e;
  eg_su : RLV.collection_ (state_unicast e) `prefix_of` RLV.collection_ (state_unicast e');
  eg_sm : RLV.collection_ (state_multicast e) `prefix_of` RLV.collection_ (state_multicast e')
}.

Record grows (s s' : LocatorSelector) : Prop := {
  g_entries : entries_ s' = entries_ s;
  g_sel : RLV.collection_ (selections_ s) `prefix_of` RLV.collection_ (selections_ s');
  g_live p : is_Some (store s !! p) ↔ is_Some (store s' !! p);
  g_entry p : entry_grows (entry_at s p) (entry_at s' p)
}.

#[export] Instance entry_grows_preorder : PreOrder entry_grows.
Proof.
  split.
  - intros e. by split.
  - intros e1 e2 e3 [] []. split; [congruence..|by etrans|by etrans].
Qed.

#[export] Instance grows_preorder : PreOrder grows.
Proof.
  split.
  - intros s. by split.
  - intros s1 s2 s3 [? ? L1 E1] [? ? L2 E2].
    split; [congruence|by etrans|intros p; by rewrite L1|].
    intros p. etrans; [apply E1|apply E2].
Qed.

Lemma update_entry_grows s p f :
  entry_grows (entry_at s p) (f (entry_at s p)) → grows s (update_entry s p f).
Proof.
  intros Hf. split; [done|done| |].
  - intros q. unfold update_entry; simpl. by rewrite lookup_alter_is_Some.
  - intros q. rewrite entry_at_update. case_decide as Hd; [|done]. by destruct Hd as [<- _].
Qed.

Lemma prefix_omap {A B} (f : A → option B) (l l' : list A) :
  l `prefix_of` l' → omap f l `prefix_of` omap f l'.
Proof. intros [k ->]. rewrite omap_app. by eexists. Qed.

Lemma picked_grows e e' :
  entry_grows e e' →
  picked_unicast e `prefix_of` picked_unicast e' ∧
  picked_multicast e `prefix_of` picked_multicast e'.
Proof.
  intros [_ Hu Hm _ ? ?]. unfold picked_unicast, picked_multicast. rewrite Hu, Hm.
  split; by apply prefix_omap.
Qed.

Lemma entry_grows_at s s' i : grows s s' → entry_grows (entry s i) (entry s' i).
Proof. intros [Hent _ _ He]. unfold entry. rewrite Hent. apply He. Qed.

Lemma elem_of_for_each s l :
  l ∈ for_each s ↔ ∃ i, i ∈ RLV.collection_ (selections_ s) ∧
    (l ∈ picked_multicast (entry s i) ∨ l ∈ picked_unicast (entry s i)).
Proof.
  unfold for_each. rewrite list_elem_of_In, in_concat. split.
  - intros (x & (i & <- & Hi)%in_map_iff & Hl). exists i.
    apply list_elem_of_In in Hi, Hl. by rewrite elem_of_app in Hl.
  - intros (i & Hi & Hl). exists (picked_multicast (entry s i) ++ picked_unicast (entry s i)).
    split; [apply in_map_iff; exists i; split; [done|]; by apply list_elem_of_In|].
    apply list_elem_of_In. by rewrite elem_of_app.
Qed.

Lemma for_each_grows s s' l : grows s s' → l ∈ for_each s → l ∈ for_each s'.
Proof.
  intros Hg. rewrite !elem_of_for_each. intros (i & Hi & Hl). exists i.
  destruct (picked_grows _ _ (entry_grows_at s s' i Hg)) as [Hu Hm].
  split; [by eapply elem_of_prefix, Hg|].
  destruct Hl; [left|right]; by eapply elem_of_prefix.
Qed.

(** ** The UDP selection reaches every destination *)

Section coverage.
Context (k : Z).

(** A selected locator belongs to the entry. *)
Definition covered (s : LocatorSelector) (p : Z) : Prop :=
  ∃ l, l ∈ for_each s ∧ (l ∈ RLV.collection_ (unicast (entry_at s p)) ∨
                         l ∈ RLV.collection_ (multicast (entry_at s p))).

(** The transport can reach the entry: through a unicast locator, or through a
    multicast one when there are no unicast ones. *)
Definition reachable (e : LocatorSelectorEntry) : Prop :=
  (∃ l, l ∈ RLV.collection_ (unicast e) ∧ IsLocatorSupported k l = true) ∨
  (RLV.collection_ (unicast e) = [] ∧
   ∃ l, l ∈ RLV.collection_ (multicast e) ∧ IsLocatorSupported k l = true).

(** An entry with nothing selected yet and room for its indexes. *)
Definition fresh (e : LocatorSelectorEntry) : Prop :=
  RLV.wf (state_unicast e) ∧ RLV.wf (state_multicast e) ∧
  RLV.collection_ (state_unicast e) = [] ∧ RLV.collection_ (state_multicast e) = [] ∧
  RLV.size (unicast e) <= RLV.maximum (RLV.configuration_ (state_unicast e)) ∧
  RLV.size (multicast e) <= RLV.maximum (RLV.configuration_ (state_multicast e)).

Lemma covered_grows s s' p : grows s s' → covered s p → covered s' p.
Proof.
  intros Hg (l & Hl & Hin). exists l. split; [by eapply for_each_grows|].
  destruct (g_entry _ _ Hg p) as [_ Hu Hm _ _ _]. by rewrite Hu, Hm.
Qed.

Lemma is_selected_for_each s l : is_selected s l = true → l ∈ for_each s.
Proof.
  unfold is_selected. rewrite elem_of_for_each.
  destruct (Locator.isMulticast l); intros (i & Hi & (x & Hx & ->%Locator.locator_eqb_eq)%existsb_exists)%existsb_exists.
  all: exists i; rewrite <- !list_elem_of_In in *; auto.
Qed.

(** Invalidation touches nothing but the flags of later entries that hold the
    locator, and nothing at all when it reports no hit. *)
Lemma check_and_invalidate_spec ps s l hit s' :
  check_and_invalidate s ps l = (hit, s') →
  grows s s' ∧ selections_ s' = selections_ s ∧ (hit = false → s' = s) ∧
  ∀ q, entry_at s' q = entry_at s q ∨
    (hit = true ∧ q ∈ ps ∧ l ∈ RLV.collection_ (multicast (entry_at s q)) ∧
     entry_at s' q = set_process (entry_at s q) false).
Proof.
  revert s hit s'. induction ps as [|p ps IH]; intros s hit s'; simpl.
  { intros [= <- <-]. split_and!; [done|done|done|by left]. }
  set (h := transport_should_process (entry_at s p) && _).
  set (s1 := if h then update_entry s p (λ e, set_process e false) else s).
  destruct (check_and_invalidate s1 ps l) as [r s2] eqn:Hrec. intros [= <- <-].
  destruct (IH _ _ _ Hrec) as (Hg & Hsel & Hid & Hent).
  assert (Hg1 : grows s s1).
  { unfold s1. destruct h; [|done]. apply update_entry_grows. by split. }
  split_and!; [by etrans|rewrite Hsel; unfold s1; by destruct h| |].
  - intros [Hh Hr]%orb_false_iff. rewrite Hid by done. unfold s1. by rewrite Hh.
  - intros q.
    assert (Hs1 : entry_at s1 q = entry_at s q ∨ (h = true ∧ q = p ∧
      l ∈ RLV.collection_ (multicast (entry_at s q)) ∧
      entry_at s1 q = set_process (entry_at s q) false)).
    { unfold s1. destruct h eqn:Hh; [|by left]. rewrite entry_at_update.
      case_decide as Hd; [|by left]. destruct Hd as [<- _]. right. split_and!; [done..| |done].
      unfold h in Hh. apply andb_true_iff in Hh as [_ (x & Hx & ->%Locator.locator_eqb_eq)%existsb_exists].
      by apply list_elem_of_In. }
    destruct Hs1 as [Hs1|(Hh & -> & Hl & Hs1)].
    + destruct (Hent q) as [He|(-> & Hq & Hl & He)]; rewrite He, Hs1 in *; [by left|right].
      rewrite orb_true_r. split_and!; [done|by right|done|done].
    + right. rewrite Hh. split_and!; [done|by left|done|].
      destruct (Hent p) as [He|(_ & _ & _ & He)]; rewrite He, Hs1; done.
Qed.

Lemma select_multicast_grows s p j :
  RLV.wf (state_multicast (entry_at s p)) → grows s (update_entry s p (λ e, select_multicast e j)).
Proof.
  intros Hwf. apply update_entry_grows. split; try done. simpl.
  destruct (decide (RLV.size (state_multicast (entry_at s p)) <
    RLV.maximum (RLV.configuration_ (state_multicast (entry_at s p))))) as [Hlt|Hge].
  - destruct (RLV.push_back_room _ j Hwf Hlt) as (_ & cap & -> & _). by eexists.
  - by rewrite RLV.push_back_full by (done || lia).
Qed.

Lemma select_unicast_grows s p j :
  RLV.wf (state_unicast (entry_at s p)) → grows s (update_entry s p (λ e, select_unicast e j)).
Proof.
  intros Hwf. apply update_entry_grows. split; try done. simpl.
  destruct (decide (RLV.size (state_unicast (entry_at s p)) <
    RLV.maximum (RLV.configuration_ (state_unicast (entry_at s p))))) as [Hlt|Hge].
  - destruct (RLV.push_back_room _ j Hwf Hlt) as (_ & cap & -> & _). by eexists.
  - by rewrite RLV.push_back_full by (done || lia).
Qed.

(** The multicast loop either changes nothing, and then no supported multicast
    locator was usable, or picks one that every invalidated entry shares. *)
Lemma choose_multicast_spec s p later j ls sel s' :
  fresh (entry_at s p) → is_Some (store s !! p) → p ∉ later →
  ls = drop j (RLV.collection_ (multicast (entry_at s p))) →
  choose_multicast k s p later j ls = (sel, s') →
  grows s s' ∧ selections_ s' = selections_ s ∧
  if sel then
    ∃ l, l ∈ picked_multicast (entry_at s' p) ∧ l ∈ RLV.collection_ (multicast (entry_at s p)) ∧
      ∀ q, q ≠ p → entry_at s' q = entry_at s q ∨
        (l ∈ RLV.collection_ (multicast (entry_at s q)) ∧
         entry_at s' q = set_process (entry_at s q) false)
  else s' = s ∧ (RLV.collection_ (unicast (entry_at s p)) = [] →
                 ∀ l, l ∈ ls → IsLocatorSupported k l = false).
Proof.
  intros Hfresh Hlive Hnot. revert j. induction ls as [|l ls IH]; intros j Hls; simpl.
  { intros [= <- <-]. split_and!; [done..|]. by intros _ l ?%not_elem_of_nil. }
  assert (Hj : RLV.collection_ (multicast (entry_at s p)) !! j = Some l)
    by (rewrite <- (Nat.add_0_r j), <- lookup_drop, <- Hls; done).
  assert (Hls' : ls = drop (S j) (RLV.collection_ (multicast (entry_at s p))))
    by (rewrite <- Nat.add_1_r, <- drop_drop, <- Hls; done).
  destruct (IsLocatorSupported k l) eqn:Hsup.
  2: { intros Hc. destruct (IH _ Hls' Hc) as (? & ? & Hrest). split_and!; [done..|].
       destruct sel; [done|]. destruct Hrest as [? Hno]. split; [done|]. intros Hu x Hx.
       apply elem_of_cons in Hx as [->|Hx]; [done|by apply Hno]. }
  destruct (check_and_invalidate s later l) as [hit s1] eqn:Hci.
  destruct (check_and_invalidate_spec _ _ _ _ _ Hci) as (Hg & Hsel & Hid & Hent).
  assert (Hp : entry_at s1 p = entry_at s p) by (destruct (Hent p) as [|(_ & ? & _)]; done).
  assert (Hpick : ∀ s2, s2 = update_entry s1 p (λ e, select_multicast e j) →
    grows s s2 ∧ selections_ s2 = selections_ s ∧
    ∃ l, l ∈ picked_multicast (entry_at s2 p) ∧ l ∈ RLV.collection_ (multicast (entry_at s p)) ∧
      ∀ q, q ≠ p → entry_at s2 q = entry_at s q ∨
        (l ∈ RLV.collection_ (multicast (entry_at s q)) ∧
         entry_at s2 q = set_process (entry_at s q) false)).
  { intros s2 ->. destruct Hfresh as (_ & Hwf & _ & Hnil & _ & Hmax). split_and!.
    - etrans; [exact Hg|]. apply select_multicast_grows. by rewrite Hp.
    - done.
    - exists l. split_and!; [| by eapply list_elem_of_lookup_2 |].
      + rewrite entry_at_update, decide_True by (split; [done|by apply (g_live _ _ Hg)]).
        rewrite Hp. unfold picked_multicast; simpl.
        apply lookup_lt_Some in Hj as Hlt.
        destruct (RLV.push_back_room (state_multicast (entry_at s p)) j Hwf) as (_ & cap & -> & _);
          [unfold RLV.size in *; rewrite Hnil; simpl; lia|].
        simpl. rewrite Hnil. simpl. unfold RLV.at_. rewrite Hj. by left.
      + intros q Hq. rewrite entry_at_update, decide_False by (intros [? _]; congruence).
        destruct (Hent q) as [?|(_ & _ & ? & ?)]; auto. }
  destruct hit.
  - intros [= <- <-]. by apply Hpick.
  - rewrite (Hid eq_refl) in *.
    destruct (Z.eqb_spec (RLV.size (unicast (entry_at s p))) 0) as [Hz|Hnz].
    + intros [= <- <-]. by apply Hpick.
    + intros Hc. destruct (IH _ Hls' Hc) as (? & ? & Hrest). split_and!; [done..|].
      destruct sel; [done|]. destruct Hrest as [? Hno]. split; [done|]. intros Hu.
      unfold RLV.size in Hnz. by rewrite Hu in Hnz.
Qed.

(** The unicast loop picks every supported locator that is not selected yet. *)
Lemma choose_unicast_spec s p sel j ls sel' s' :
  RLV.wf (state_unicast (entry_at s p)) → is_Some (store s !! p) →
  ls = drop j (RLV.collection_ (unicast (entry_at s p))) →
  RLV.size (state_unicast (entry_at s p)) <= Z.of_nat j →
  RLV.size (unicast (entry_at s p)) <=
    RLV.maximum (RLV.configuration_ (state_unicast (entry_at s p))) →
  choose_unicast k s p sel j ls = (sel', s') →
  grows s s' ∧ selections_ s' = selections_ s ∧ (sel = true → sel' = true) ∧
  (∀ q, q ≠ p → entry_at s' q = entry_at s q) ∧
  ∀ l, l ∈ ls → IsLocatorSupported k l = true →
    l ∈ for_each s' ∨ (sel' = true ∧ l ∈ picked_unicast (entry_at s' p)).
Proof.
  revert s sel j. induction ls as [|l ls IH]; intros s sel j Hwf Hlive Hls Hsz Hmax; simpl.
  { intros [= <- <-]. split_and!; try done. by intros l ?%not_elem_of_nil. }
  assert (Hj : RLV.collection_ (unicast (entry_at s p)) !! j = Some l)
    by (rewrite <- (Nat.add_0_r j), <- lookup_drop, <- Hls; done).
  apply lookup_lt_Some in Hj as Hlt.
  assert (Hls' : ls = drop (S j) (RLV.collection_ (unicast (entry_at s p))))
    by (rewrite <- Nat.add_1_r, <- drop_drop, <- Hls; done).
  destruct (IsLocatorSupported k l && negb (is_selected s l)) eqn:Hpick.
  - set (s1 := update_entry s p (λ e, select_unicast e j)). intros Hc.
    assert (Hg1 : grows s s1) by (by apply select_unicast_grows).
    assert (He1 : entry_at s1 p = select_unicast (entry_at s p) j)
      by (unfold s1; by rewrite entry_at_update, decide_True).
    destruct (RLV.push_back_room (state_unicast (entry_at s p)) j Hwf) as (_ & cap & Hpush & Hcap);
      [unfold RLV.size in *; lia|].
    apply (IH s1 true (S j)) in Hc as (Hg & Hsel & Ht & Hq & Hl).
    + split_and!; [by etrans|by rewrite Hsel|by intros _; apply Ht| |].
      * intros q Hqp. rewrite Hq by done. unfold s1.
        by rewrite entry_at_update, decide_False by (intros [? _]; congruence).
      * intros x Hx Hsup. apply elem_of_cons in Hx as [->|Hx]; [|by apply Hl].
        right. split; [by apply Ht|].
        eapply elem_of_prefix; [|apply picked_grows, (g_entry _ _ Hg)].
        rewrite He1. unfold picked_unicast; simpl. rewrite Hpush; simpl.
        rewrite omap_app, elem_of_app. right. simpl. unfold RLV.at_. rewrite Hj. by left.
    + rewrite He1; simpl. by apply RLV.push_back_wf.
    + by apply (g_live _ _ Hg1).
    + by rewrite He1.
    + rewrite He1; simpl. rewrite Hpush. unfold RLV.size in *; simpl. rewrite length_app; simpl. lia.
    + rewrite He1; simpl. by rewrite Hpush.
  - intros Hc. destruct (IH s sel (S j)) as (Hg & Hsel & Ht & Hq & Hl); [done..|lia|done|done|].
    split_and!; [done..|]. intros x Hx Hsup. apply elem_of_cons in Hx as [->|Hx]; [|by apply Hl].
    rewrite Hsup in Hpick. simpl in Hpick. apply negb_false_iff, is_selected_for_each in Hpick.
    left. by eapply for_each_grows.
Qed.

(** The loop is about to process the entries [ps] from index [i] on. *)
Record ready (s : LocatorSelector) (i : nat) (ps : list Z) : Prop := {
  r_ps : ps = drop i (RLV.collection_ (entries_ s));
  r_nodup : NoDup (RLV.collection_ (entries_ s));
  r_live p : p ∈ RLV.collection_ (entries_ s) → is_Some (store s !! p);
  r_wf : RLV.wf (selections_ s);
  r_max : RLV.size (entries_ s) <= RLV.maximum (RLV.configuration_ (selections_ s));
  r_sel : Forall (λ x, (x < i)%nat) (RLV.collection_ (selections_ s));
  r_len : (length (RLV.collection_ (selections_ s)) <= i)%nat
}.

Lemma select_spec s i ps p later :
  ready s i ps → ps = p :: later →
  grows s (select s i) ∧ entry (select s i) i = entry_at s p ∧
  RLV.collection_ (selections_ (select s i)) = RLV.collection_ (selections_ s) ++ [i] ∧
  RLV.wf (selections_ (select s i)) ∧ store (select s i) = store s ∧
  RLV.configuration_ (selections_ (select s i)) = RLV.configuration_ (selections_ s).
Proof.
  intros Hr ->. destruct Hr as [Hps _ _ Hwf Hmax Hsel Hlen].
  assert (Hi : RLV.collection_ (entries_ s) !! i = Some p)
    by (rewrite <- (Nat.add_0_r i), <- lookup_drop, <- Hps; done).
  apply lookup_lt_Some in Hi as Hlt.
  assert (Hc : RLV.contains (selections_ s) i = false).
  { unfold RLV.contains. rewrite (proj2 (RLV.find_if_None _ _)); [done|].
    eapply Forall_impl; [exact Hsel|]. intros x Hx. simpl in *. apply bool_decide_eq_false. lia. }
  destruct (RLV.push_back_room (selections_ s) i Hwf) as (_ & cap & Hpush & _);
    [unfold RLV.size in *; lia|].
  assert (Heq : select s i =
    mkSelector (entries_ s) (snd (RLV.push_back (selections_ s) i)) (last_state_ s) (store s)).
  { unfold select. by rewrite Hc, (proj2 (Nat.ltb_lt _ _) Hlt). }
  rewrite Heq. split_and!.
  - split; [done| |done|done]. simpl. rewrite Hpush. by eexists.
  - unfold entry; simpl. by rewrite (nth_lookup_Some _ _ _ _ Hi).
  - simpl. by rewrite Hpush.
  - simpl. by apply RLV.push_back_wf.
  - done.
  - simpl. by rewrite Hpush.
Qed.

Lemma ready_grows s s' i ps :
  ready s i ps → grows s s' → selections_ s' = selections_ s → ready s' i ps.
Proof.
  intros [? ? Hlive ? ? ? ?] [Hent _ Hl _] Hsel. split; rewrite ?Hent, ?Hsel; try done.
  intros q Hq. by apply Hl, Hlive.
Qed.

Lemma ready_skip s i p later : ready s i (p :: later) → ready s (S i) later.
Proof.
  intros [Hps ? ? ? ? Hsel ?]. split; try done; [|by eapply Forall_impl; [exact Hsel|simpl; lia]|lia].
  by rewrite <- Nat.add_1_r, <- drop_drop, <- Hps.
Qed.

Lemma ready_select s i p later : ready s i (p :: later) → ready (select s i) (S i) later.
Proof.
  intros Hr. destruct (select_spec s i _ p later Hr eq_refl) as (Hg & _ & Hsel & Hwf & Hst & Hcfg).
  destruct (ready_skip _ _ _ _ Hr) as [? ? Hl ? ? Hall Hlen], Hr as [_ _ _ _ _ _ Hlen'].
  split; rewrite ?(g_entries _ _ Hg), ?Hst, ?Hcfg, ?Hsel; try done.
  - apply Forall_app. split; [done|]. constructor; [lia|done].
  - rewrite length_app; simpl. lia.
Qed.

Lemma fresh_set_process e b : fresh e → fresh (set_process e b).
Proof. done. Qed.

(** Selecting the entry makes its picked locators selected. *)
Lemma select_covers s i p later l :
  ready s i (p :: later) →
  l ∈ picked_multicast (entry_at s p) ∨ l ∈ picked_unicast (entry_at s p) →
  l ∈ for_each (select s i).
Proof.
  intros Hr Hl. destruct (select_spec s i _ p later Hr eq_refl) as (_ & He & Hsel & _).
  rewrite elem_of_for_each. exists i. rewrite He, Hsel. split; [|done].
  rewrite elem_of_app. right. by left.
Qed.

Lemma select_entry_at s i q : entry_at (select s i) q = entry_at s q.
Proof. unfold select. by destruct (_ && _). Qed.

Definition flags_kept (s s' : LocatorSelector) (p : Z) : Prop :=
  ∀ q, q ≠ p →
    transport_should_process (entry_at s' q) = transport_should_process (entry_at s q) ∨
    covered s' q.

Lemma select_entry_spec s i p later :
  ready s i (p :: later) → (∀ q, q ∈ p :: later → fresh (entry_at s q)) →
  let s' := select_entry k s i p later in
  grows s s' ∧ ready s' (S i) later ∧ (∀ q, q ∈ later → fresh (entry_at s' q)) ∧
  flags_kept s s' p ∧
  (transport_should_process (entry_at s p) = true → reachable (entry_at s p) → covered s' p).
Proof.
  intros Hr Hfresh s'. subst s'. unfold select_entry.
  destruct (transport_should_process (entry_at s p)) eqn:Hproc.
  2: { split_and!; try done; [by eapply ready_skip|intros q Hq; apply Hfresh; by right|by left]. }
  assert (Hp : p ∈ RLV.collection_ (entries_ s))
    by (eapply elem_of_sublist; [|apply (sublist_drop _ i)]; rewrite <- (r_ps _ _ _ Hr); by left).
  assert (Hnot : p ∉ later).
  { assert (Hnd : NoDup (p :: later))
      by (rewrite (r_ps _ _ _ Hr); eapply sublist_NoDup; [apply (r_nodup _ _ _ Hr)|apply sublist_drop]).
    by inversion Hnd. }
  assert (Hlive := r_live _ _ _ Hr p Hp). assert (Hfp : fresh (entry_at s p)) by (apply Hfresh; by left).
  destruct (choose_multicast k s p later 0 _) as [selm s1] eqn:Hcm.
  apply choose_multicast_spec in Hcm as (Hg1 & Hsel1 & Hm); [|done..].
  assert (Hr1 := ready_grows _ _ _ _ Hr Hg1 Hsel1).
  destruct selm.
  - destruct Hm as (l & Hpick & Hin & Hq). destruct (select_spec s1 i _ p later Hr1 eq_refl) as (Hg2 & _).
    assert (Hl : l ∈ for_each (select s1 i)) by (eapply select_covers; [exact Hr1|by left]).
    split_and!; [by etrans|by eapply ready_select| | |].
    + intros q Hin'. rewrite select_entry_at. assert (q ≠ p) by (intros ->; done).
      assert (fresh (entry_at s q)) by (apply Hfresh; by right).
      destruct (Hq q) as [->|[_ ->]]; [done|done|by apply fresh_set_process].
    + intros q Hqp. rewrite !select_entry_at. destruct (Hq q Hqp) as [->|[Hlq _]]; [by left|].
      right. exists l. split; [done|]. right. rewrite select_entry_at.
      by rewrite (eg_multicast _ _ (g_entry _ _ Hg1 q)).
    + intros _ _. exists l. split; [done|]. right. rewrite select_entry_at.
      by rewrite (eg_multicast _ _ (g_entry _ _ Hg1 p)).
  - destruct Hm as [-> Hnone]. destruct (choose_unicast k s p false 0 _) as [selu s2] eqn:Hcu.
    destruct Hfp as (Hwu & _ & Hnil & _ & Hmu & _).
    apply choose_unicast_spec in Hcu as (Hg2 & Hsel2 & _ & Hq & Hl);
      [|done..|unfold RLV.size; by rewrite Hnil|done].
    assert (Hr2 := ready_grows _ _ _ _ Hr Hg2 Hsel2).
    assert (Hcov : reachable (entry_at s p) → covered (if selu then select s2 i else s2) p).
    { intros [(l & Hlu & Hsup)|(Hu & l & Hlm & Hsup)];
        [|exfalso; by rewrite (Hnone Hu l Hlm) in Hsup].
      exists l. split.
      - destruct (Hl l Hlu Hsup) as [?|[-> ?]]; [|by eapply select_covers; [exact Hr2|right]].
        destruct selu; [|done]. eapply for_each_grows; [|done]. by eapply select_spec; [exact Hr2|].
      - left. replace (entry_at (if selu then select s2 i else s2) p) with (entry_at s2 p)
          by (destruct selu; [by rewrite select_entry_at|done]).
        by rewrite (eg_unicast _ _ (g_entry _ _ Hg2 p)). }
    assert (Hent : ∀ q, q ≠ p → entry_at (if selu then select s2 i else s2) q = entry_at s q)
      by (intros q Hqp; destruct selu; rewrite ?select_entry_at; by apply Hq).
    split_and!; [|destruct selu; [by eapply ready_select|by eapply ready_skip]| | |done].
    + etrans; [exact Hg2|]. destruct selu; [by eapply select_spec; [exact Hr2|]|done].
    + intros q Hin. rewrite Hent by (intros ->; done). apply Hfresh. by right.
    + intros q Hqp. left. by rewrite Hent.
Qed.

Lemma select_locators_loop_spec ps s i :
  ready s i ps → (∀ q, q ∈ ps → fresh (entry_at s q)) →
  (∀ q, q ∈ ps → enabled (entry_at s q) = true →
     transport_should_process (entry_at s q) = true ∨ covered s q) →
  let s' := select_locators_loop k s i ps in
  grows s s' ∧
  ∀ q, q ∈ ps → enabled (entry_at s q) = true → reachable (entry_at s q) → covered s' q.
Proof.
  revert s i. induction ps as [|p later IH]; intros s i Hr Hf Hen; simpl.
  { split; [done|]. by intros q ?%not_elem_of_nil. }
  destruct (select_entry_spec s i p later Hr Hf) as (Hg & Hr' & Hf' & Hflags & Hp).
  set (s1 := select_entry k s i p later) in *.
  destruct (IH s1 (S i) Hr' Hf') as [Hg' Hcov].
  { intros q Hq Henq. rewrite (eg_enabled _ _ (g_entry _ _ Hg q)) in Henq.
    assert (Hnd : NoDup (p :: later)) by (rewrite (r_ps _ _ _ Hr); eapply sublist_NoDup;
      [apply (r_nodup _ _ _ Hr)|apply sublist_drop]).
    assert (q ≠ p) by (intros ->; by inversion Hnd).
    destruct (Hflags q) as [->|?]; [done| |by right].
    destruct (Hen q ltac:(by right) Henq); [by left|right; by eapply covered_grows]. }
  split; [by etrans|]. intros q Hq Henq Hreach.
  apply elem_of_cons in Hq as [->|Hq].
  - eapply covered_grows; [exact Hg'|].
    destruct (Hen p ltac:(by left) Henq); [by apply Hp|by eapply covered_grows].
  - destruct (g_entry _ _ Hg q) as [_ Hu Hm Hene _ _]. apply Hcov; [done|by rewrite Hene|].
    unfold reachable. by rewrite Hu, Hm.
Qed.

End coverage.

Lemma fold_update_spec f ps s q :
  (∀ p, p ∈ ps → is_Some (store s !! p)) → NoDup ps →
  let s' := fold_left (λ s p, update_entry s p f) ps s in
  entry_at s' q = (if decide (q ∈ ps) then f (entry_at s q) else entry_at s q) ∧
  entries_ s' = entries_ s ∧ selections_ s' = selections_ s ∧
  (∀ p, is_Some (store s' !! p) ↔ is_Some (store s !! p)).
Proof.
  revert s. induction ps as [|p ps IH]; intros s Hlive Hnd; simpl; [done|].
  inversion Hnd as [|? ? Hp Hnd']; subst.
  assert (Hl1 : ∀ x, is_Some (store (update_entry s p f) !! x) ↔ is_Some (store s !! x))
    by (intros x; unfold update_entry; simpl; by rewrite lookup_alter_is_Some).
  destruct (IH (update_entry s p f)) as (He & Hent & Hsel & Hl); [|done|].
  { intros x Hx. apply Hl1, Hlive. by right. }
  split_and!; [|done|done|intros x; by rewrite Hl, Hl1].
  rewrite He, entry_at_update. destruct (decide (p = q)) as [<-|Hne].
  - rewrite (decide_False (P := p ∈ ps)), decide_True, (decide_True (P := p ∈ p :: ps));
      [done|by left|split; [done|apply Hlive; by left]|done].
  - rewrite (decide_False (P := p = q ∧ _)) by (intros [? _]; done).
    destruct (decide (q ∈ ps)); [by rewrite decide_True by (by right)|].
    rewrite decide_False; [done|]. rewrite elem_of_cons. intros [?|?]; congruence.
Qed.

(** A selector over live, distinct entries, with room for its selections and
    for the picks of every entry. *)
Record selector_wf (s : LocatorSelector) : Prop := {
  sw_nodup : NoDup (RLV.collection_ (entries_ s));
  sw_live p : p ∈ RLV.collection_ (entries_ s) → is_Some (store s !! p);
  sw_sel : RLV.wf (selections_ s);
  sw_room : RLV.size (entries_ s) <= RLV.maximum (RLV.configuration_ (selections_ s));
  sw_entry p : p ∈ RLV.collection_ (entries_ s) → fresh (entry_reset (entry_at s p))
}.

(** What a transport finds when it starts on a new selection. *)
Lemma started_spec s :
  selector_wf s →
  let s2 := transport_starts (selection_start s) in
  entries_ s2 = entries_ s ∧ selections_ s2 = RLV.clear (selections_ s) ∧
  ∀ q, q ∈ RLV.collection_ (entries_ s) →
    is_Some (store s2 !! q) ∧
    entry_at s2 q = set_process (entry_reset (entry_at s q)) (enabled (entry_at s q)).
Proof.
  intros [Hnd Hlive _ _ _]. unfold selection_start, transport_starts.
  set (s0 := mkSelector (entries_ s) (RLV.clear (selections_ s)) (last_state_ s) (store s)).
  pose proof (λ q, fold_update_spec entry_reset (RLV.collection_ (entries_ s0)) s0 q Hlive Hnd) as H1.
  set (s1 := fold_left _ _ s0) in *. destruct (H1 0) as (_ & Hent1 & Hsel1 & Hl1).
  pose proof (λ q, fold_update_spec (λ e, set_process e (enabled e))
    (RLV.collection_ (entries_ s1)) s1 q) as H2.
  rewrite Hent1 in *. change (entries_ s0) with (entries_ s) in *.
  specialize (λ q, H2 q (λ x Hx, proj2 (Hl1 x) (Hlive x Hx)) Hnd). cbv zeta in H2 |- *.
  destruct (H2 0) as (_ & Hent2 & Hsel2 & Hl2).
  split_and!; [done|by rewrite Hsel2, Hsel1|]. intros q Hq. split; [by apply Hl2, Hl1, Hlive|].
  destruct (H2 q) as [-> _]. rewrite decide_True by done.
  destruct (H1 q) as [-> _]. by rewrite decide_True.
Qed.

(** C34: the UDP selection never leaves out a reachable destination: after
    [selection_start] and [select_locators], every enabled entry with a
    supported unicast locator, or with supported multicast locators only, has one
    of its own locators among the selected ones, whatever multicast locators the
    entries share. *)
Theorem udp_selection_covers k s p :
  selector_wf s → p ∈ RLV.collection_ (entries_ s) →
  enabled (entry_at s p) = true → reachable k (entry_at s p) →
  covered (select_locators k (selection_start s)) p.
Proof.
  intros Hwf Hp Hen Hreach. pose proof (started_spec s Hwf) as (Hent & Hsel & He).
  unfold select_locators. set (s2 := transport_starts (selection_start s)) in *. rewrite Hent.
  destruct (select_locators_loop_spec k (RLV.collection_ (entries_ s)) s2 0) as [Hg Hcov].
  - split; rewrite ?Hsel, ?Hent; simpl; try done; try apply Hwf.
    + intros q Hq. by apply He.
    + by apply RLV.clear_wf, Hwf.
  - intros q Hq. destruct (He q Hq) as [_ ->]. by apply Hwf.
  - intros q Hq. destruct (He q Hq) as [_ ->]. by left.
  - destruct (He p Hp) as [_ Hep]. apply Hcov; [done|by rewrite Hep..].
Qed.

(** ** The enabling state *)

Definition flag (e : LocatorSelectorEntry) : Z := if enabled e then 1 else 0.

Lemma reset_loop_spec b ps s :
  NoDup ps → RLV.wf (last_state_ s) →
  RLV.size (last_state_ s) + Z.of_nat (length ps) <=
    RLV.maximum (RLV.configuration_ (last_state_ s)) →
  let s' := fold_left (reset_entry b) ps s in
  entries_ s' = entries_ s ∧
  RLV.collection_ (last_state_ s') =
    RLV.collection_ (last_state_ s) ++ map (λ p, flag (entry_at s p)) ps.
Proof.
  revert s. induction ps as [|p ps IH]; intros s Hnd Hwf Hroom; simpl.
  { by rewrite app_nil_r. }
  inversion Hnd as [|? ? Hp Hnd']; subst. simpl in Hroom.
  destruct (RLV.push_back_room (last_state_ s) (flag (entry_at s p)) Hwf)
    as (_ & cap & Hpush & _); [lia|].
  assert (Hlast : last_state_ (reset_entry b s p) =
    snd (RLV.push_back (last_state_ s) (flag (entry_at s p)))) by done.
  destruct (IH (reset_entry b s p)) as [Hent Hst]; [done| | |].
  - rewrite Hlast. by apply RLV.push_back_wf.
  - rewrite Hlast, Hpush. unfold RLV.size in *; simpl. rewrite length_app; simpl. lia.
  - split; [by rewrite Hent|]. rewrite Hst, Hlast, Hpush; simpl. rewrite <- app_assoc. simpl.
    do 2 f_equal. apply map_ext_in. intros q Hq. apply list_elem_of_In in Hq.
    unfold reset_entry. rewrite entry_at_update. case_decide as Hd; [|done].
    destruct Hd as [<- _]. done.
Qed.

Lemma enable_keeps s guids :
  entries_ (fold_left enable guids s) = entries_ s ∧
  last_state_ (fold_left enable guids s) = last_state_ s.
Proof.
  revert s. induction guids as [|g guids IH]; intros s; simpl; [done|].
  destruct (IH (enable s g)) as [-> ->]. unfold enable. by destruct (find _ _).
Qed.

Lemma existsb_combine_map {A} (f g : A → Z) (l : list A) :
  existsb (λ '(x, b), negb (b =? g x)) (combine l (map f l)) = false ↔ ∀ x, x ∈ l → f x = g x.
Proof.
  induction l as [|x l IH]; simpl; [split; [by intros _ x ?%not_elem_of_nil|done]|].
  rewrite orb_false_iff, IH, negb_false_iff, Z.eqb_eq. setoid_rewrite elem_of_cons.
  split; [intros [? ?] y [->|?]; auto|intros Hall; split; auto].
Qed.

(** The message group is flushed exactly when the set of destinations
    changes: after [reset] and any sequence of [enable] calls,
    [state_has_changed] is false precisely when every entry is enabled as it was
    before the [reset]. *)
Theorem enabling_changes_detected s b guids :
  NoDup (RLV.collection_ (entries_ s)) → RLV.wf (last_state_ s) →
  RLV.size (entries_ s) <= RLV.maximum (RLV.configuration_ (last_state_ s)) →
  let s' := fold_left enable guids (reset s b) in
  state_has_changed s' = false ↔
  ∀ p, p ∈ RLV.collection_ (entries_ s) → enabled (entry_at s' p) = enabled (entry_at s p).
Proof.
  intros Hnd Hwf Hroom s'. unfold state_has_changed.
  destruct (enable_keeps (reset s b) guids) as [Hent Hlast]. fold s' in Hent, Hlast.
  destruct (reset_loop_spec b (RLV.collection_ (entries_ s))
    (mkSelector (entries_ s) (selections_ s) (RLV.clear (last_state_ s)) (store s)))
    as [Hent0 Hlast0]; [done|by apply RLV.clear_wf|done|].
  assert (He : entries_ s' = entries_ s) by (by rewrite Hent).
  assert (Hl : RLV.collection_ (last_state_ s') =
    map (λ p, flag (entry_at s p)) (RLV.collection_ (entries_ s))) by (by rewrite Hlast).
  rewrite He, Hl, length_map, Nat.eqb_refl. simpl.
  rewrite (existsb_combine_map (λ p, flag (entry_at s p)) (λ p, flag (entry_at s' p))).
  unfold flag. split; intros Hall p Hp; specialize (Hall p Hp);
    destruct (enabled (entry_at s p)), (enabled (entry_at s' p)); congruence.
Qed.

(** ** Witnesses *)

Definition loc (n : Z) : Locator.Locator_t :=
  Locator.mkLocator Locator.LOCATOR_KIND_UDPv4 7411 (replicate 12 0 ++ [10; 0; 0; n]).

Definition group_loc : Locator.Locator_t :=
  Locator.mkLocator Locator.LOCATOR_KIND_UDPv4 7400 (replicate 12 0 ++ [239; 255; 0; 1]).

Definition sample_guid (n : Z) : Guid.GUID_t :=
  Guid.mkGUID (GuidPrefix.guid_prefix_create (GuidPrefix.guid_utils_prefix 1 2 3) n)
    (EntityId.of_uint32 0x103).

(** Three destinations, two of which share a multicast group. *)
Definition sample_entry (n : Z) (multi : list Locator.Locator_t) : LocatorSelectorEntry :=
  mkEntry (sample_guid n)
    (RLV.mk (RLV.fixed_size_configuration 4) 4 [loc n])
    (RLV.mk (RLV.fixed_size_configuration 2) 2 multi)
    (RLV.make (RLV.fixed_size_configuration 4)) (RLV.make (RLV.fixed_size_configuration 2))
    true false.

Definition sample_selector : LocatorSelector :=
  mkSelector (RLV.mk (RLV.mkConfig 0 10 1) 3 [100; 200; 300])
    (RLV.make (RLV.mkConfig 0 10 1)) (RLV.make (RLV.mkConfig 0 10 1))
    (<[100 := sample_entry 1 [group_loc]]> (<[200 := sample_entry 2 []]>
       (<[300 := sample_entry 3 [group_loc]]> ∅))).

Lemma sample_selector_wf : selector_wf sample_selector.
Proof.
  split.
  - apply (bool_decide_unpack _). vm_compute. done.
  - intros p Hp. change (p ∈ [100; 200; 300]) in Hp.
    repeat (apply elem_of_cons in Hp as [->|Hp]; [by eexists|]).
    by apply not_elem_of_nil in Hp.
  - unfold RLV.wf, RLV.config_wf, RLV.size; simpl; lia.
  - unfold RLV.size; simpl; lia.
  - intros p Hp. change (p ∈ [100; 200; 300]) in Hp.
    repeat (apply elem_of_cons in Hp as [->|Hp];
      [vm_compute entry_at; unfold fresh, RLV.wf, RLV.config_wf, RLV.size; simpl; split_and!; done || lia|]).
    by apply not_elem_of_nil in Hp.
Qed.

Lemma udp_selection_covers_witness :
  covered (select_locators Locator.LOCATOR_KIND_UDPv4 (selection_start sample_selector)) 300 ∧
  for_each (select_locators Locator.LOCATOR_KIND_UDPv4 (selection_start sample_selector)) =
    [group_loc; loc 2].
Proof.
  split; [|vm_compute; reflexivity].
  apply udp_selection_covers; [apply sample_selector_wf|by apply (bool_decide_unpack _)|reflexivity|].
  left. exists (loc 3). split; [change (loc 3 ∈ [loc 3]); by left|reflexivity].
Defined.

Lemma enabling_changes_detected_witness :
  state_has_changed (fold_left enable [sample_guid 1; sample_guid 2; sample_guid 3]
    (reset sample_selector false)) = false ∧
  state_has_changed (fold_left enable [sample_guid 1] (reset sample_selector false)) = true.
Proof.
  split; [|vm_compute; reflexivity].
  apply enabling_changes_detected.
  - apply sample_selector_wf.
  - unfold RLV.wf, RLV.config_wf, RLV.size; simpl; lia.
  - unfold RLV.size; simpl; lia.
  - intros p Hp. change (p ∈ [100; 200; 300]) in Hp.
    repeat (apply elem_of_cons in Hp as [->|Hp]; [vm_compute; reflexivity|]).
    by apply not_elem_of_nil in Hp.
Defined.

Definition sample_selected : LocatorSelector :=
  Eval vm_compute in select_locators Locator.LOCATOR_KIND_UDPv4 (selection_start sample_selector).

Lemma iterator_visits_for_each_witness :
  iterate 3 sample_selected (begin sample_selected) = [group_loc; loc 2].
Proof.
  change [group_loc; loc 2] with (for_each sample_selected).
  apply (iterator_visits_for_each sample_selected 3).
  - intros i Hi. change (i ∈ [0; 1]%nat) in Hi.
    apply elem_of_cons in Hi as [->|Hi]; [split; repeat constructor|].
    apply elem_of_cons in Hi as [->|Hi]; [split; repeat constructor|].
    by apply not_elem_of_nil in Hi.
  - reflexivity.
  - reflexivity.
  - change (2 < 3)%nat. lia.
Defined.
