(* ===== verification/TimedEvent.v ===== *)
(** * Timed events and the service that runs them

    [TimedEventImpl] (src/cpp/rtps/resources/TimedEventImpl.cpp and .h) is a
    timer with a three-valued atomic state; [ResourceEvent]
    (src/cpp/rtps/resources/ResourceEvent.cpp) is the thread that owns all the
    timers, and [TimedEvent] (TimedEvent.cpp) is the handle the rest of the code
    uses.

    Timers are shared objects: the service keeps them in a heap from pointers
    (integers) to [TimedEventImpl.t], and its two vectors hold pointers.  Time
    points of the steady clock are nanoseconds, intervals microseconds.  Where
    the code takes a [double] number of milliseconds to build a timer, the model
    takes the microseconds it is converted to, [static_cast<int64_t>(ms * 1000)];
    [update_interval_millisec] is modelled at whole numbers of milliseconds, the
    only ones its modelled caller passes ([getIntervalMsec] truncates).

    Every access to a timer goes through the heap and is [None] when the timer
    has been freed.  What a callback does to timers while it runs is a list of
    operations; the operations other threads perform meanwhile can be listed
    there as well, as far as they do not wait for the collections.

    An operation of another thread is one step.  In the code [restart_timer] and
    [cancel_timer] first change the atomic state of the timer and then take the lock to
    notify the service, and a round of the service may fall in between; such a round is not
    followed. *)

From S2P Require Import Prelude.
From stdpp Require Import gmap sorting.

#[local] Open Scope Z_scope.

Module TimedEventImpl.

Inductive StateCode := INACTIVE | READY | WAITING.

#[export] Instance StateCode_eq_dec : EqDecision StateCode.
Proof. solve_decision. Defined.

Record t := mk {
  interval_microsec_ : Z;
  next_trigger_time_ : Z;
  (** Whether the event was built with a callable callback. *)
  callback_ : bool;
  state_ : StateCode
}.

#[export] Instance t_eq_dec : EqDecision t.
Proof. solve_decision. Defined.

(** The constructor, at the time [now] of the steady clock. *)
Definition create (callback : bool) (interval now : Z) : t :=
  mk interval now callback INACTIVE.

Definition set_state (e : t) (s : StateCode) : t :=
  mk (interval_microsec_ e) (next_trigger_time_ e) (callback_ e) s.

Definition set_time (e : t) (time : Z) : t :=
  mk (interval_microsec_ e) time (callback_ e) (state_ e).

(** [state_.compare_exchange_strong]: the previous value and the new event. *)
Definition compare_exchange (e : t) (expected desired : StateCode) : bool * StateCode * t :=
  if decide (state_ e = expected) then (true, expected, set_state e desired)
  else (false, state_ e, e).

Definition go_ready (e : t) : bool * t :=
  let '(ok, _, e') := compare_exchange e INACTIVE READY in (ok, e').

Definition go_cancel (e : t) : bool * t :=
  (negb (bool_decide (state_ e = INACTIVE)), set_state e INACTIVE).

(** [time_point + microseconds], in nanoseconds. *)
Definition after (time interval : Z) : Z := time + 1000 * interval.

Definition update (e : t) (current_time cancel_time : Z) : bool * t :=
  let '(set, expected, e') := compare_exchange e READY WAITING in
  let e'' :=
    if set then set_time e' (after current_time (interval_microsec_ e'))
    else if decide (expected = INACTIVE) then set_time e' cancel_time
    else e' in
  (negb (bool_decide (expected = INACTIVE)), e'').

(** [trigger] up to the call of the callback: whether it is called. *)
Definition trigger_begin (e : t) : bool * t :=
  if callback_ e then
    let '(ok, _, e') := compare_exchange e WAITING INACTIVE in (ok, e')
  else (false, e).

(** The rest of [trigger]: [ran] tells whether the callback was called and
    [restart] what it returned. *)
Definition trigger_end (e : t) (ran restart : bool) (current_time cancel_time : Z) : t :=
  if callback_ e then
    if ran && restart then
      let '(ok, _, e') := compare_exchange e INACTIVE WAITING in
      if ok then set_time e' (after current_time (interval_microsec_ e'))
      else set_time e' cancel_time
    else set_time e cancel_time
  else e.

Definition update_interval_us (e : t) (microseconds : Z) : t :=
  mk microseconds (next_trigger_time_ e) (callback_ e) (state_ e).

(** [update_interval_millisec] with a whole number of milliseconds. *)
Definition update_interval_millisec (e : t) (milliseconds : Z) : t :=
  update_interval_us e (milliseconds * 1000).

(** [getIntervalMsec]: [duration_cast] truncates toward zero. *)
Definition getIntervalMsec (e : t) : Z := Z.quot (interval_microsec_ e) 1000.

Definition getRemainingTimeMilliSec (e : t) (now : Z) : Z :=
  Z.quot (next_trigger_time_ e - now) 1000000.

Definition next_trigger_time (e : t) : Z := next_trigger_time_ e.

End TimedEventImpl.

(** ** The event service *)

Module ResourceEvent.
Import TimedEventImpl.

Record service := mkService {
  (** The timers, by address. *)
  timers : gmap Z TimedEventImpl.t;
  pending_timers_ : list Z;
  active_timers_ : list Z;
  skip_checking_active_timers_ : bool;
  current_time_ : Z;
  timers_count_ : Z;
  stop_ : bool;
  allow_vector_manipulation_ : bool
}.

(** The members before the thread is started. *)
Definition create_service : service := mkService ∅ [] [] false 0 0 false true.

Definition with_timers (s : service) (h : gmap Z TimedEventImpl.t) : service :=
  mkService h (pending_timers_ s) (active_timers_ s) (skip_checking_active_timers_ s)
    (current_time_ s) (timers_count_ s) (stop_ s) (allow_vector_manipulation_ s).

Definition with_vectors (s : service) (pending active : list Z) (skip : bool) : service :=
  mkService (timers s) pending active skip
    (current_time_ s) (timers_count_ s) (stop_ s) (allow_vector_manipulation_ s).

Definition with_count (s : service) (n : Z) : service :=
  mkService (timers s) (pending_timers_ s) (active_timers_ s) (skip_checking_active_timers_ s)
    (current_time_ s) n (stop_ s) (allow_vector_manipulation_ s).

(** [init_thread]: the thread takes the collections. *)
Definition init_thread (s : service) : service :=
  mkService (timers s) (pending_timers_ s) (active_timers_ s) (skip_checking_active_timers_ s)
    (current_time_ s) (timers_count_ s) false false.

(** [stop_thread] on a running thread: the thread leaves its loop and gives the
    collections back. *)
Definition stop_thread (s : service) : service :=
  mkService (timers s) (pending_timers_ s) (active_timers_ s) (skip_checking_active_timers_ s)
    (current_time_ s) (timers_count_ s) true true.

Definition set_timer (s : service) (id : Z) (e : TimedEventImpl.t) : service :=
  with_timers s (<[id := e]> (timers s)).

(** [event->next_trigger_time()] on a live timer. *)
Definition time_of (s : service) (id : Z) : Z :=
  match timers s !! id with Some e => next_trigger_time e | None => 0 end.

Definition register_timer (s : service) : service := with_count s (u64 (timers_count_ s + 1)).

(** [std::find] followed by [erase]. *)
Fixpoint erase (id : Z) (l : list Z) : list Z :=
  match l with
  | [] => []
  | x :: l => if x =? id then l else x :: erase id l
  end.

Definition unregister_timer (is_service_thread : bool) (s : service) (id : Z) : service :=
  let in_active := bool_decide (id ∈ active_timers_ s) in
  let s := with_vectors s (erase id (pending_timers_ s)) (erase id (active_timers_ s))
             (skip_checking_active_timers_ s || (in_active && is_service_thread)) in
  with_count s (u64 (timers_count_ s - 1)).

Definition register_timer_nts (s : service) (id : Z) : bool * service :=
  if bool_decide (id ∈ pending_timers_ s) then (false, s)
  else (true, with_vectors s (pending_timers_ s ++ [id]) (active_timers_ s)
                (skip_checking_active_timers_ s)).

Definition notify (s : service) (id : Z) : service := snd (register_timer_nts s id).

(** ** The handles: [TimedEvent] *)

(** Each operation dereferences the timer: [None] for a dangling pointer. *)
Definition create_timer (s : service) (id : Z) (callback : bool) (interval now : Z)
    : option service :=
  match timers s !! id with
  | Some _ => None
  | None => Some (register_timer (set_timer s id
              (TimedEventImpl.create callback interval now)))
  end.

Definition destroy_timer (by_service : bool) (s : service) (id : Z) : option service :=
  match timers s !! id with
  | None => None
  | Some _ =>
      let s := unregister_timer by_service s id in
      Some (with_timers s (delete id (timers s)))
  end.

Definition cancel_timer (s : service) (id : Z) : option service :=
  match timers s !! id with
  | None => None
  | Some e =>
      let '(ok, e) := go_cancel e in
      let s := set_timer s id e in
      Some (if ok then notify s id else s)
  end.

Definition restart_timer (s : service) (id : Z) : option service :=
  match timers s !! id with
  | None => None
  | Some e =>
      let '(ok, e) := go_ready e in
      let s := set_timer s id e in
      Some (if ok then notify s id else s)
  end.

Definition recreate_timer (by_service : bool) (s : service) (id : Z) : option service :=
  match timers s !! id with
  | None => None
  | Some e =>
      let s := unregister_timer by_service s id in
      let s := set_timer s id (snd (go_cancel e)) in
      Some (register_timer s)
  end.

Definition update_interval (s : service) (id us : Z) : option service :=
  match timers s !! id with
  | None => None
  | Some e => Some (set_timer s id (update_interval_us e us))
  end.

(** ** The service thread *)

Definition update_current_time (s : service) (now : Z) : service :=
  mkService (timers s) (pending_timers_ s) (active_timers_ s) (skip_checking_active_timers_ s)
    now (timers_count_ s) (stop_ s) (allow_vector_manipulation_ s).

(** [std::lower_bound] with [event_compare] against the time [t]. *)
Fixpoint lower_bound (s : service) (l : list Z) (t : Z) : nat :=
  match l with
  | [] => 0
  | x :: l => if time_of s x <? t then S (lower_bound s l t) else 0
  end.

(** One round of the loop over the pending timers. *)
Definition process_pending_timer (cancel_time : Z) (s : service) (tp : Z) : option service :=
  match timers s !! tp with
  | None => None
  | Some e =>
      let active := active_timers_ s in
      let pos := lower_bound s active (next_trigger_time e) in
      let active := take pos active ++ erase tp (drop pos active) in
      let '(activate, e) := update e (current_time_ s) cancel_time in
      let s := set_timer s tp e in
      let active :=
        if activate then
          let low_bound := lower_bound s active (next_trigger_time e) in
          take low_bound active ++ tp :: drop low_bound active
        else active in
      Some (with_vectors s (pending_timers_ s) active (skip_checking_active_timers_ s))
  end.

Fixpoint process_pending_loop (cancel_time : Z) (s : service) (l : list Z) : option service :=
  match l with
  | [] => Some s
  | tp :: l => s ← process_pending_timer cancel_time s tp; process_pending_loop cancel_time s l
  end.

Definition process_pending (cancel_time : Z) (s : service) : option service :=
  s ← process_pending_loop cancel_time s (pending_timers_ s);
  Some (with_vectors s [] (active_timers_ s) (skip_checking_active_timers_ s)).

(** What a callback may do to the timers, itself included. *)
Inductive op :=
  | OpCreate (id : Z) (callback : bool) (interval now : Z)
  | OpDestroy (id : Z)
  | OpCancel (id : Z)
  | OpRestart (id : Z)
  | OpRecreate (id : Z)
  | OpInterval (id us : Z).

Definition run_op (by_service : bool) (s : service) (o : op) : option service :=
  match o with
  | OpCreate id cb us now => create_timer s id cb us now
  | OpDestroy id => destroy_timer by_service s id
  | OpCancel id => cancel_timer s id
  | OpRestart id => restart_timer s id
  | OpRecreate id => recreate_timer by_service s id
  | OpInterval id us => update_interval s id us
  end.

Fixpoint run_ops (by_service : bool) (s : service) (os : list op) : option service :=
  match os with
  | [] => Some s
  | o :: os => s ← run_op by_service s o; run_ops by_service s os
  end.

Section actions.
(** The callbacks: whether the timer is to be restarted, and the operations on
    timers performed meanwhile. *)
Variable callback : Z → service → bool * list op.

(** [TimedEventImpl::trigger] in the service: the service afterwards and whether
    the callback was called; [None] when a freed timer is accessed. *)
Definition trigger (cancel_time : Z) (s : service) (tp : Z) : option (service * bool) :=
  e ← timers s !! tp;
  let '(ran, e) := trigger_begin e in
  let s := set_timer s tp e in
  let '(restart, os) := if ran then callback tp s else (false, []) in
  s ← run_ops true s os;
  e ← timers s !! tp;
  Some (set_timer s tp (trigger_end e ran restart (current_time_ s) cancel_time), ran).

(** The loop over the active timers: the service, whether something was done and
    the timers whose callback was called. *)
Fixpoint trigger_active (cancel_time : Z) (s : service) (l : list Z) (did : bool)
    : option (service * bool * list Z) :=
  match l with
  | [] => Some (s, did, [])
  | tp :: l =>
      if time_of s tp <=? current_time_ s then
        match trigger cancel_time s tp with
        | None => None
        | Some (s, ran) =>
            let ids := if ran then [tp] else [] in
            if skip_checking_active_timers_ s then Some (s, true, ids)
            else
              match trigger_active cancel_time s l true with
              | None => None
              | Some (s, did, log) => Some (s, did, ids ++ log)
              end
        end
      else Some (s, did, [])
  end.

(** [sort_timers] and the removal of the timers that are not to be waited for. *)
Definition keep_sorted (cancel_time : Z) (s : service) : service :=
  let active := sort_by (time_of s) (active_timers_ s) in
  with_vectors s (pending_timers_ s) (take (lower_bound s active cancel_time) active)
    (skip_checking_active_timers_ s).

(** Twenty-four hours, in nanoseconds. *)
Definition cancel_delay : Z := 24 * 3600 * 1000000000.

Definition do_timer_actions (s : service) : option (service * list Z) :=
  let cancel_time := current_time_ s + cancel_delay in
  s ← process_pending cancel_time s;
  let s := with_vectors s (pending_timers_ s) (active_timers_ s) false in
  match trigger_active cancel_time s (active_timers_ s) false with
  | None => None
  | Some (s, did_something, log) =>
      Some (if did_something then keep_sorted cancel_time s else s, log)
  end.

(** ** The loop of the thread, and the other threads *)

Definition set_manipulation (s : service) (allow : bool) : service :=
  mkService (timers s) (pending_timers_ s) (active_timers_ s) (skip_checking_active_timers_ s)
    (current_time_ s) (timers_count_ s) (stop_ s) allow.

Definition request_stop (s : service) : service :=
  mkService (timers s) (pending_timers_ s) (active_timers_ s) (skip_checking_active_timers_ s)
    (current_time_ s) (timers_count_ s) true (allow_vector_manipulation_ s).

(** The operations that wait for [allow_vector_manipulation_] in another thread. *)
Definition needs_collections (o : op) : bool :=
  match o with OpDestroy _ | OpRecreate _ => true | _ => false end.

(** When the thread wakes up again: [next_trigger] of the wait, at the time [now]. *)
Definition wait_deadline (s : service) (now : Z) : Z :=
  let next_trigger :=
    match active_timers_ s with
    | [] => current_time_ s + 1000000000
    | tp :: _ => time_of s tp
    end in
  if next_trigger <? now then now + 10000 else next_trigger.

(** One step of the system: an operation of another thread, a round of the
    service at the time [now] (with the callbacks called), going to sleep and
    waking up, the request to stop and the end of the thread. *)
Inductive step : service → list Z → service → Prop :=
  | step_other s o s' :
      needs_collections o = true → allow_vector_manipulation_ s = true →
      run_op false s o = Some s' → step s [] s'
  | step_other_notify s o s' :
      needs_collections o = false → run_op false s o = Some s' → step s [] s'
  | step_round s now s' log :
      stop_ s = false → allow_vector_manipulation_ s = false →
      do_timer_actions (update_current_time s now) = Some (s', log) → step s log s'
  | step_sleep s :
      stop_ s = false → allow_vector_manipulation_ s = false → pending_timers_ s = [] →
      step s [] (set_manipulation s true)
  | step_wake s :
      allow_vector_manipulation_ s = true → step s [] (set_manipulation s false)
  | step_stop s : step s [] (request_stop s)
  | step_exit s : stop_ s = true → step s [] (set_manipulation s true).

End actions.

End ResourceEvent.
