(* ===== verification/TimedEventFacts.v ===== *)
(** * Properties of the event service

    The invariant of the two vectors of [ResourceEvent], kept by every operation
    on timers and by every round of the service thread; which callbacks a round
    runs; and what becomes of timers with an interval of a day or more. *)

From S2P Require Import Prelude TimedEvent.
From stdpp Require Import gmap sorting.

#[local] Open Scope Z_scope.

Import TimedEventImpl ResourceEvent.

(** ** The vectors *)

Lemma elem_of_erase id x l : NoDup l → x ∈ erase id l ↔ x ∈ l ∧ x ≠ id.
Proof.
  induction 1 as [|y l Hy Hl IH]; cbn [erase]; [rewrite elem_of_nil; tauto|].
  destruct (Z.eqb_spec y id) as [->|Hne].
  - rewrite elem_of_cons. split; [|tauto]. intros Hx. split; [by right|]. by intros ->.
  - rewrite !elem_of_cons, IH. intuition congruence.
Qed.

Lemma erase_sublist id l : erase id l `sublist_of` l.
Proof.
  induction l as [|y l IH]; cbn [erase]; [constructor|].
  destruct (y =? id); by constructor.
Qed.

Lemma erase_id id l : id ∉ l → erase id l = l.
Proof.
  induction l as [|y l IH]; cbn [erase]; [done|]. rewrite not_elem_of_cons. intros [Hne Hl].
  destruct (Z.eqb_spec y id); [congruence|]. by rewrite IH.
Qed.

Lemma NoDup_erase id l : NoDup l → NoDup (erase id l).
Proof. intros H. eapply sublist_NoDup; [done|apply erase_sublist]. Qed.

Lemma sorted_sublist {A} (R : A → A → Prop) l1 l2 :
  l1 `sublist_of` l2 → StronglySorted R l2 → StronglySorted R l1.
Proof.
  induction 1 as [|x l1 l2 Hs IH|x l1 l2 Hs IH]; intros H; [done| |].
  - apply StronglySorted_inv in H as [H Hx]. constructor; [by apply IH|].
    rewrite Forall_forall in *. intros y Hy. apply Hx. by eapply elem_of_sublist.
  - apply StronglySorted_inv in H as [H _]. by apply IH.
Qed.

Lemma sorted_ext {A} (f g : A → Z) l :
  (∀ x, x ∈ l → f x = g x) → StronglySorted (by_key f) l → StronglySorted (by_key g) l.
Proof.
  intros Hfg. induction 1 as [|x l Hl IH Hx]; constructor.
  - apply IH. intros y Hy. apply Hfg. by right.
  - rewrite Forall_forall in *. intros y Hy. unfold by_key in *.
    rewrite <- !Hfg by (by constructor). by apply Hx.
Qed.

(** [lower_bound] splits a sorted vector at the time [t]. *)
Lemma lower_bound_before s l t x : x ∈ take (lower_bound s l t) l → time_of s x < t.
Proof.
  induction l as [|y l IH]; cbn [lower_bound take]; [by rewrite elem_of_nil|].
  destruct (Z.ltb_spec (time_of s y) t); cbn [take]; [|by rewrite elem_of_nil].
  rewrite elem_of_cons. intros [->|Hx]; [done|by apply IH].
Qed.

Lemma lower_bound_after s l t x :
  StronglySorted (by_key (time_of s)) l → x ∈ drop (lower_bound s l t) l → t <= time_of s x.
Proof.
  induction 1 as [|y l Hl IH Hy]; cbn [lower_bound drop]; [by rewrite elem_of_nil|].
  destruct (Z.ltb_spec (time_of s y) t); cbn [drop]; [done|].
  rewrite elem_of_cons. rewrite Forall_forall in Hy. intros [->|Hx]; [done|].
  specialize (Hy x Hx). unfold by_key in Hy. lia.
Qed.

(** Looking for a timer from the lower bound of its own time finds it. *)
Lemma erase_from_bound s l id :
  StronglySorted (by_key (time_of s)) l →
  take (lower_bound s l (time_of s id)) l ++ erase id (drop (lower_bound s l (time_of s id)) l)
  = erase id l.
Proof.
  induction 1 as [|y l Hl IH Hy]; cbn [lower_bound take drop erase app]; [done|].
  destruct (Z.ltb_spec (time_of s y) (time_of s id)); cbn [take drop erase app]; [|done].
  destruct (Z.eqb_spec y id) as [->|Hne]; [lia|]. by rewrite IH.
Qed.

(** Inserting at the lower bound keeps the vector sorted. *)
Lemma insert_at_bound s l id :
  StronglySorted (by_key (time_of s)) l →
  StronglySorted (by_key (time_of s))
    (take (lower_bound s l (time_of s id)) l ++ id :: drop (lower_bound s l (time_of s id)) l).
Proof.
  induction 1 as [|y l Hl IH Hy]; cbn [lower_bound take drop app]; [by repeat constructor|].
  destruct (Z.ltb_spec (time_of s y) (time_of s id)); cbn [take drop app].
  - constructor; [done|]. rewrite Forall_app, Forall_cons. split_and!.
    + by apply Forall_take.
    + unfold by_key. lia.
    + by apply Forall_drop.
  - constructor; [by constructor|]. rewrite Forall_cons. split; [done|].
    eapply Forall_impl; [done|]. unfold by_key. intros x Hx. lia.
Qed.

Lemma insert_at_perm (n : nat) (l : list Z) id : take n l ++ id :: drop n l ≡ₚ id :: l.
Proof. rewrite <- Permutation_middle. by rewrite take_drop. Qed.

(** ** The invariant *)

(** Without the order of the active timers, which callbacks find broken. *)
Record consistent (s : service) : Prop := {
  active_nodup : NoDup (active_timers_ s);
  pending_nodup : NoDup (pending_timers_ s);
  active_live : ∀ id, id ∈ active_timers_ s → is_Some (timers s !! id);
  pending_live : ∀ id, id ∈ pending_timers_ s → is_Some (timers s !! id);
  ready_pending : ∀ id e, timers s !! id = Some e → state_ e = READY → id ∈ pending_timers_ s
}.

Definition ordered (s : service) : Prop := StronglySorted (by_key (time_of s)) (active_timers_ s).

Definition service_ok (s : service) : Prop := consistent s ∧ ordered s.

(** ** Operations on timers *)

Lemma time_of_set s id e x :
  time_of (set_timer s id e) x = if decide (x = id) then next_trigger_time e else time_of s x.
Proof.
  unfold time_of, set_timer, with_timers; cbn [timers].
  destruct (decide (x = id)) as [->|Hne]; [by rewrite lookup_insert_eq|].
  by rewrite lookup_insert_ne.
Qed.

Lemma time_of_set_same s id e e' x :
  timers s !! id = Some e → next_trigger_time e' = next_trigger_time e →
  time_of (set_timer s id e') x = time_of s x.
Proof.
  intros He Ht. rewrite time_of_set. destruct (decide (x = id)) as [->|]; [|done].
  unfold time_of. by rewrite He.
Qed.

Lemma live_set s id e x : is_Some (timers s !! x) → is_Some (timers (set_timer s id e) !! x).
Proof. cbn. intros H. destruct (decide (x = id)) as [->|]; [by rewrite lookup_insert_eq|by rewrite lookup_insert_ne]. Qed.

Lemma consistent_set s id e :
  (state_ e = READY → id ∈ pending_timers_ s) → consistent s → consistent (set_timer s id e).
Proof.
  intros Hr [Ha Hp La Lp Hready]. split; [done|done|..].
  - intros x Hx. apply live_set. by apply La.
  - intros x Hx. apply live_set. by apply Lp.
  - intros x e'. cbn. destruct (decide (x = id)) as [->|].
    + rewrite lookup_insert_eq. intros [= <-]. apply Hr.
    + rewrite lookup_insert_ne by done. apply Hready.
Qed.

Lemma elem_of_notify s id x : x ∈ pending_timers_ (notify s id) ↔ x = id ∨ x ∈ pending_timers_ s.
Proof.
  unfold notify, register_timer_nts.
  case_bool_decide; cbn; [intuition congruence|].
  rewrite elem_of_app, list_elem_of_singleton. tauto.
Qed.

Lemma notify_frame s id :
  timers (notify s id) = timers s ∧ active_timers_ (notify s id) = active_timers_ s ∧
  skip_checking_active_timers_ (notify s id) = skip_checking_active_timers_ s ∧
  current_time_ (notify s id) = current_time_ s.
Proof. unfold notify, register_timer_nts. by case_bool_decide. Qed.

Lemma consistent_set_notify s id e :
  consistent s → consistent (notify (set_timer s id e) id).
Proof.
  intros [Ha Hp La Lp Hready].
  destruct (notify_frame (set_timer s id e) id) as (Et & Ea & _).
  split; rewrite ?Et, ?Ea; [done|..].
  - unfold notify, register_timer_nts. case_bool_decide as Hin; cbn in *; [done|].
    apply NoDup_app. split_and!; [done| |apply NoDup_singleton].
    intros x Hx. rewrite list_elem_of_singleton. by intros ->.
  - intros x Hx. apply live_set. by apply La.
  - intros x Hx. apply elem_of_notify in Hx as [->|Hx]; [|apply live_set; by apply Lp].
    cbn. rewrite lookup_insert_eq. by eexists.
  - intros x e' Hx Hs. apply elem_of_notify. destruct (decide (x = id)) as [|Hne]; [by left|].
    right. cbn in Hx. rewrite lookup_insert_ne in Hx by done. by eapply Hready.
Qed.

(** A waiting timer of [s'] was already waiting in [s], for the same time, and
    has not been taken out of the active vector. *)
Definition kept_waiting (s s' : service) (x : Z) (e' : TimedEventImpl.t) : Prop :=
  ∃ e, timers s !! x = Some e ∧ state_ e = WAITING ∧ callback_ e = callback_ e' ∧
    next_trigger_time e = next_trigger_time e' ∧
    (x ∈ active_timers_ s → x ∈ active_timers_ s').

(** What an operation leaves alone: times and order of the timers still active,
    for the service thread all of the vector unless it raises the flag; and it
    makes no timer wait. *)
Record op_frame (by_service : bool) (s s' : service) : Prop := {
  frame_active : active_timers_ s' `sublist_of` active_timers_ s;
  frame_time : ∀ x, x ∈ active_timers_ s' → time_of s' x = time_of s x;
  frame_now : current_time_ s' = current_time_ s;
  frame_skip : by_service = true → skip_checking_active_timers_ s' = false →
    active_timers_ s' = active_timers_ s ∧ skip_checking_active_timers_ s = false;
  frame_waiting : ∀ x e', timers s' !! x = Some e' → state_ e' = WAITING → kept_waiting s s' x e'
}.

Lemma kept_waiting_refl s s' x e :
  timers s !! x = Some e → state_ e = WAITING → active_timers_ s' = active_timers_ s →
  kept_waiting s s' x e.
Proof. intros He Hw Ea. exists e. rewrite Ea. by split_and!. Qed.

Lemma op_frame_refl b s : op_frame b s s.
Proof. split; [done..|]. intros x e He Hw. by apply kept_waiting_refl. Qed.

Lemma op_frame_trans b s1 s2 s3 : op_frame b s1 s2 → op_frame b s2 s3 → op_frame b s1 s3.
Proof.
  intros [A1 T1 N1 S1 W1] [A2 T2 N2 S2 W2]. split.
  - by etrans.
  - intros x Hx. rewrite T2 by done. apply T1. by eapply elem_of_sublist.
  - congruence.
  - intros Hb Hs. destruct (S2 Hb Hs) as [E2 K2]. destruct (S1 Hb K2) as [E1 K1].
    split; [congruence|done].
  - intros x e3 He3 Hw3. destruct (W2 x e3 He3 Hw3) as (e2 & He2 & Hw2 & C2 & E2 & K2).
    destruct (W1 x e2 He2 Hw2) as (e1 & He1 & Hw1 & C1 & E1 & K1).
    exists e1. split_and!; [done|done|congruence|congruence|auto].
Qed.

Lemma op_frame_set b s id e :
  (id ∈ active_timers_ s → next_trigger_time e = time_of s id) →
  (state_ e = WAITING → kept_waiting s s id e) → op_frame b s (set_timer s id e).
Proof.
  intros Ht Hw. split; [done| |done|done|].
  - intros x Hx. rewrite time_of_set. destruct (decide (x = id)) as [->|]; [|done]. by apply Ht.
  - intros x e'. cbn. destruct (decide (x = id)) as [->|].
    + rewrite lookup_insert_eq. by intros [= <-].
    + rewrite lookup_insert_ne by done. intros. by apply kept_waiting_refl.
Qed.

Lemma op_frame_notify b s id : op_frame b s (notify s id).
Proof.
  destruct (notify_frame s id) as (Et & Ea & Es & En). split.
  - by rewrite Ea.
  - intros x _. unfold time_of. by rewrite Et.
  - done.
  - intros _. by rewrite Es, Ea.
  - rewrite Et. intros x e He Hw. by apply kept_waiting_refl.
Qed.

(** Unregistering a timer that is then freed or made inactive ([h] is the heap
    afterwards). *)
Lemma unregister_frame b s id h :
  consistent s →
  (∀ x, x ≠ id → h !! x = timers s !! x) →
  (∀ e, h !! id = Some e → state_ e = INACTIVE) →
  op_frame b s (with_timers (unregister_timer b s id) h).
Proof.
  intros Hc Hother Hid. pose proof (active_nodup s Hc) as Hn. split; cbn.
  - apply erase_sublist.
  - intros x. rewrite elem_of_erase by done. intros [_ Hne]. unfold time_of; cbn.
    by rewrite Hother.
  - done.
  - intros ->. rewrite andb_true_r, orb_false_iff, bool_decide_eq_false. intros [-> Hni].
    by rewrite erase_id.
  - intros x e He Hw. destruct (decide (x = id)) as [->|Hne]; [by rewrite (Hid e) in Hw|].
    exists e. rewrite <- Hother by done. split_and!; [done|done|done|done|].
    cbn. rewrite elem_of_erase by done. done.
Qed.

(** Unregistering a timer and then giving it up, by freeing it or making it
    inactive ([h] is the heap afterwards). *)
Lemma consistent_unregister b s id h :
  consistent s →
  (∀ x, x ≠ id → h !! x = timers s !! x) →
  (∀ e, h !! id = Some e → state_ e = INACTIVE) →
  consistent (with_timers (unregister_timer b s id) h).
Proof.
  intros [Ha Hp La Lp Hready] Hother Hid. split; cbn.
  - by apply NoDup_erase.
  - by apply NoDup_erase.
  - intros x. rewrite elem_of_erase by done. intros [Hx Hne]. rewrite Hother by done. by apply La.
  - intros x. rewrite elem_of_erase by done. intros [Hx Hne]. rewrite Hother by done. by apply Lp.
  - intros x e Hx Hs. rewrite elem_of_erase by done.
    destruct (decide (x = id)) as [->|Hne]; [by rewrite (Hid e) in Hs|].
    split; [|done]. apply (Hready x e); [|done]. by rewrite <- Hother.
Qed.

Lemma consistent_count s n : consistent s → consistent (with_count s n).
Proof. intros []. by split. Qed.

Lemma op_frame_count b s n : op_frame b s (with_count s n).
Proof. split; [done..|]. intros x e He Hw. by apply kept_waiting_refl. Qed.

Lemma create_timer_ok b s id cb us now s' :
  consistent s → create_timer s id cb us now = Some s' → consistent s' ∧ op_frame b s s'.
Proof.
  intros Hc. unfold create_timer. destruct (timers s !! id) eqn:E; [done|]. intros [= <-].
  split.
  - by apply consistent_count, consistent_set.
  - eapply op_frame_trans; [|apply op_frame_count]. apply op_frame_set.
    { intros Hin. destruct (active_live s Hc id Hin). congruence. }
    done.
Qed.

Lemma destroy_timer_ok b s id s' :
  consistent s → destroy_timer b s id = Some s' → consistent s' ∧ op_frame b s s'.
Proof.
  intros Hc. unfold destroy_timer. destruct (timers s !! id); [|done]. intros [= <-].
  assert (Hh : ∀ x, x ≠ id → delete id (timers s) !! x = timers s !! x)
    by (intros x Hx; by rewrite lookup_delete_ne).
  assert (Hid : ∀ e, delete id (timers s) !! id = Some e → state_ e = INACTIVE)
    by (intros e; by rewrite lookup_delete_eq).
  split; [by apply consistent_unregister|by apply unregister_frame].
Qed.

Lemma recreate_timer_ok b s id s' :
  consistent s → recreate_timer b s id = Some s' → consistent s' ∧ op_frame b s s'.
Proof.
  intros Hc. unfold recreate_timer. destruct (timers s !! id) as [e|]; [|done]. intros [= <-].
  assert (Hh : ∀ x, x ≠ id → <[id := snd (go_cancel e)]> (timers s) !! x = timers s !! x)
    by (intros x Hx; by rewrite lookup_insert_ne).
  assert (Hid : ∀ e', <[id := snd (go_cancel e)]> (timers s) !! id = Some e' → state_ e' = INACTIVE)
    by (intros e'; rewrite lookup_insert_eq; by intros [= <-]).
  split.
  - by apply consistent_count, consistent_unregister.
  - eapply op_frame_trans; [by apply unregister_frame|apply op_frame_count].
Qed.

Lemma go_ready_time e : next_trigger_time (snd (go_ready e)) = next_trigger_time e.
Proof. unfold go_ready, compare_exchange. by case_decide. Qed.

Lemma go_ready_waiting e : state_ (snd (go_ready e)) = WAITING → snd (go_ready e) = e.
Proof. unfold go_ready, compare_exchange. by case_decide. Qed.

Lemma go_ready_failed e : fst (go_ready e) = false → snd (go_ready e) = e.
Proof. unfold go_ready, compare_exchange. by case_decide. Qed.

Lemma restart_timer_ok b s id s' :
  consistent s → restart_timer s id = Some s' → consistent s' ∧ op_frame b s s'.
Proof.
  intros Hc. unfold restart_timer. destruct (timers s !! id) as [e|] eqn:E; [|done].
  pose proof (go_ready_time e) as Ht. pose proof (go_ready_failed e) as Hf.
  pose proof (go_ready_waiting e) as Hw.
  destruct (go_ready e) as [ok e']; cbn [fst snd] in *. intros [= <-].
  assert (Hs : op_frame b s (set_timer s id e')).
  { apply op_frame_set; [intros _; unfold time_of; by rewrite E|].
    intros H. assert (e' = e) as -> by auto. by apply kept_waiting_refl. }
  destruct ok; split; [by apply consistent_set_notify| |apply consistent_set; [|done]|done].
  - eapply op_frame_trans; [done|apply op_frame_notify].
  - rewrite (Hf eq_refl). by apply (ready_pending s Hc).
Qed.

Lemma cancel_timer_ok b s id s' :
  consistent s → cancel_timer s id = Some s' → consistent s' ∧ op_frame b s s'.
Proof.
  intros Hc. unfold cancel_timer. destruct (timers s !! id) as [e|] eqn:E; [|done].
  cbn [go_cancel]. intros [= <-].
  assert (Hs : op_frame b s (set_timer s id (set_state e INACTIVE))).
  { apply op_frame_set; [intros _; unfold time_of; by rewrite E|done]. }
  case_match; split; [by apply consistent_set_notify| |by apply consistent_set|done].
  eapply op_frame_trans; [done|apply op_frame_notify].
Qed.

Lemma update_interval_ok b s id us s' :
  consistent s → update_interval s id us = Some s' → consistent s' ∧ op_frame b s s'.
Proof.
  intros Hc. unfold update_interval. destruct (timers s !! id) as [e|] eqn:E; [|done].
  intros [= <-]. split.
  - apply consistent_set; [|done]. cbn. by apply (ready_pending s Hc).
  - apply op_frame_set; [intros _; unfold time_of; by rewrite E|].
    cbn. intros Hw. exists e. by split_and!.
Qed.

Create HintDb timers.
#[export] Hint Resolve create_timer_ok destroy_timer_ok recreate_timer_ok restart_timer_ok
  cancel_timer_ok update_interval_ok op_frame_refl : timers.

Lemma run_op_ok b s o s' :
  consistent s → run_op b s o = Some s' → consistent s' ∧ op_frame b s s'.
Proof. intros Hc. destruct o; cbn [run_op]; eauto with timers. Qed.

Lemma run_ops_ok b s os s' :
  consistent s → run_ops b s os = Some s' → consistent s' ∧ op_frame b s s'.
Proof.
  revert s. induction os as [|o os IH]; cbn [run_ops]; intros s Hc.
  - intros [= <-]. auto with timers.
  - destruct (run_op b s o) as [s1|] eqn:E; cbn; [|done]. intros Hr.
    destruct (run_op_ok b s o s1 Hc E) as [H1 F1]. destruct (IH s1 H1 Hr) as [H2 F2].
    split; [done|by eapply op_frame_trans].
Qed.

(** Operations keep the order of the active timers. *)
Lemma op_frame_ordered b s s' : op_frame b s s' → ordered s → ordered s'.
Proof.
  intros [Ha Ht _ _ _] Ho. apply (sorted_ext (time_of s)).
  - intros x Hx. by rewrite Ht.
  - by eapply sorted_sublist.
Qed.

(** ** Pending timers *)

(** The timer after its turn, and whether it is to be active. *)
Definition updated (s : service) (cancel_time : Z) (e : TimedEventImpl.t) : TimedEventImpl.t :=
  snd (update e (current_time_ s) cancel_time).

Lemma update_activates e now c : fst (update e now c) = negb (bool_decide (state_ e = INACTIVE)).
Proof. unfold update, compare_exchange. destruct (state_ e) eqn:E; repeat case_decide; cbn; congruence. Qed.

Lemma update_state e now c :
  state_ (snd (update e now c)) = if decide (state_ e = INACTIVE) then INACTIVE else WAITING.
Proof. unfold update, compare_exchange. destruct (state_ e) eqn:E; repeat case_decide; cbn; congruence. Qed.

Lemma update_callback e now c : callback_ (snd (update e now c)) = callback_ e.
Proof. unfold update, compare_exchange. by repeat case_decide. Qed.

(** A timer that waits for a time that has come after its turn was waiting for it,
    or starts without a delay. *)
Lemma update_due e now c :
  state_ (snd (update e now c)) = WAITING → next_trigger_time (snd (update e now c)) <= now →
  (state_ e = WAITING ∧ next_trigger_time e <= now) ∨ (state_ e = READY ∧ interval_microsec_ e <= 0).
Proof.
  unfold update, compare_exchange. destruct (decide (state_ e = READY)) as [Hr|Hr]; cbn.
  - unfold next_trigger_time, after; cbn. right. split; [done|lia].
  - destruct (decide (state_ e = INACTIVE)); cbn; [congruence|]. by left.
Qed.

(** The effect of taking the timers [l] out of the pending vector. *)
Record processed (cancel_time : Z) (s : service) (l : list Z) (s' : service) : Prop := {
  proc_timers : ∀ id, timers s' !! id =
    if decide (id ∈ l) then updated s cancel_time <$> timers s !! id else timers s !! id;
  proc_active : ∀ id, id ∈ active_timers_ s' ↔
    if decide (id ∈ l) then ∃ e, timers s !! id = Some e ∧ state_ e ≠ INACTIVE
    else id ∈ active_timers_ s;
  proc_pending : pending_timers_ s' = pending_timers_ s;
  proc_now : current_time_ s' = current_time_ s;
  proc_flags : stop_ s' = stop_ s ∧ allow_vector_manipulation_ s' = allow_vector_manipulation_ s
}.

(** The vector without the timer, the service with the timer updated, and the
    vector with the timer in its new place. *)
Definition removed (s : service) (tp : Z) : list Z := erase tp (active_timers_ s).

Definition with_updated (c : Z) (s : service) (tp : Z) (e : TimedEventImpl.t) : service :=
  set_timer s tp (updated s c e).

Definition reinserted (c : Z) (s : service) (tp : Z) (e : TimedEventImpl.t) : list Z :=
  let s1 := with_updated c s tp e in
  if bool_decide (state_ e = INACTIVE) then removed s tp
  else take (lower_bound s1 (removed s tp) (time_of s1 tp)) (removed s tp) ++
       tp :: drop (lower_bound s1 (removed s tp) (time_of s1 tp)) (removed s tp).

Section pending.
Context (c : Z) (s : service) (tp : Z) (e : TimedEventImpl.t).
Context (Hc : consistent s) (Ho : ordered s) (He : timers s !! tp = Some e).

Lemma process_pending_timer_eq :
  process_pending_timer c s tp
  = Some (with_vectors (with_updated c s tp e) (pending_timers_ s) (reinserted c s tp e)
            (skip_checking_active_timers_ s)).
Proof using He Ho.
  unfold process_pending_timer. rewrite He.
  assert (Ht : next_trigger_time e = time_of s tp) by (unfold time_of; by rewrite He).
  rewrite Ht, erase_from_bound by done.
  pose proof (update_activates e (current_time_ s) c) as Hu.
  unfold reinserted, with_updated, updated, removed.
  destruct (update e (current_time_ s) c) as [ok e'] eqn:Eu; cbn [fst snd] in *. subst ok.
  cbv zeta. rewrite (time_of_set s tp e' tp), decide_True by done. by case_bool_decide.
Qed.

Lemma removed_sorted : StronglySorted (by_key (time_of (with_updated c s tp e))) (removed s tp).
Proof using Hc Ho.
  apply (sorted_ext (time_of s)).
  - intros x Hx. apply elem_of_erase in Hx as [_ Hx]; [|by apply active_nodup].
    unfold with_updated. by rewrite time_of_set, decide_False.
  - eapply sorted_sublist; [apply erase_sublist|done].
Qed.

Lemma elem_of_reinserted x :
  x ∈ reinserted c s tp e ↔ if decide (x = tp) then state_ e ≠ INACTIVE else x ∈ active_timers_ s.
Proof using Hc.
  pose proof (active_nodup s Hc) as Hn. unfold reinserted; cbv zeta.
  case_bool_decide; [|rewrite insert_at_perm, elem_of_cons];
    unfold removed; rewrite elem_of_erase by done; case_decide; tauto.
Qed.

Lemma reinserted_nodup : NoDup (reinserted c s tp e).
Proof using Hc.
  pose proof (active_nodup s Hc) as Hn. unfold reinserted; cbv zeta.
  assert (NoDup (removed s tp)) by by apply NoDup_erase.
  case_bool_decide; [done|]. rewrite insert_at_perm. constructor; [|done].
  unfold removed. rewrite elem_of_erase by done. tauto.
Qed.

Lemma reinserted_sorted :
  StronglySorted (by_key (time_of (with_updated c s tp e))) (reinserted c s tp e).
Proof using Hc Ho.
  unfold reinserted; cbv zeta. case_bool_decide; [apply removed_sorted|].
  apply insert_at_bound, removed_sorted.
Qed.

Lemma process_pending_timer_ok :
  ∃ s', process_pending_timer c s tp = Some s' ∧ service_ok s' ∧ processed c s [tp] s'.
Proof using Hc Ho He.
  eexists. split; [apply process_pending_timer_eq|]. split; [split|].
  - destruct Hc as [_ Hp La Lp Hready]. split; cbn.
    + apply reinserted_nodup.
    + done.
    + intros x Hx. apply elem_of_reinserted in Hx. apply live_set.
      destruct (decide (x = tp)) as [->|]; [by eexists|by apply La].
    + intros x Hx. apply live_set. by apply Lp.
    + intros x e'. destruct (decide (x = tp)) as [->|].
      * rewrite lookup_insert_eq. intros [= <-]. unfold updated. rewrite update_state. by case_decide.
      * rewrite lookup_insert_ne by done. apply Hready.
  - apply reinserted_sorted.
  - split; cbn; [| |done|done|done].
    + intros id. case_decide as Hid; rewrite list_elem_of_singleton in Hid.
      * subst id. by rewrite lookup_insert_eq, He.
      * by rewrite lookup_insert_ne.
    + intros id. rewrite elem_of_reinserted.
      destruct (decide (id ∈ [tp])) as [Hid|Hid]; rewrite list_elem_of_singleton in Hid.
      * subst id. rewrite decide_True, He by done.
        split; [by exists e|]. by intros (? & [= ->] & ?).
      * by rewrite decide_False.
Qed.
End pending.

Lemma process_pending_loop_ok c s l :
  service_ok s → NoDup l → (∀ id, id ∈ l → is_Some (timers s !! id)) →
  ∃ s', process_pending_loop c s l = Some s' ∧ service_ok s' ∧ processed c s l s'.
Proof.
  revert s. induction l as [|tp l IH]; intros s Hs Hn Hl; cbn [process_pending_loop].
  - exists s. split_and!; [done|done|]. split; [..|done|done|done]; intros id;
      (rewrite decide_False by apply not_elem_of_nil); done.
  - apply NoDup_cons in Hn as [Htp Hn].
    destruct (Hl tp) as [e He]; [by left|]. destruct Hs as [Hc Ho].
    destruct (process_pending_timer_ok c s tp e Hc Ho He) as (s1 & -> & Hs1 & [Pt Pa Pp Pn Pf]).
    cbn. destruct (IH s1 Hs1 Hn) as (s2 & -> & Hs2 & [Qt Qa Qp Qn Qf]).
    { intros id Hid. rewrite Pt, decide_False; [apply Hl; by right|].
      rewrite list_elem_of_singleton. by intros ->. }
    exists s2. split_and!; [done|done|]. split; [| |congruence|congruence|].
    + intros id. rewrite Qt, Pt. unfold updated. rewrite Pn.
      destruct (decide (id = tp)) as [->|Hne].
      * by rewrite (decide_False (P := tp ∈ l)), !decide_True by (done || by left).
      * rewrite (decide_False (P := id ∈ [tp])) by (by rewrite list_elem_of_singleton).
        apply decide_ext. rewrite elem_of_cons. tauto.
    + intros id. rewrite Qa. destruct (decide (id = tp)) as [->|Hne].
      * rewrite (decide_False (P := tp ∈ l)), Pa, !decide_True by (done || by left). done.
      * assert (Hd : id ∉ [tp]) by (by rewrite list_elem_of_singleton).
        specialize (Pt id). specialize (Pa id). rewrite decide_False in Pt by done.
        rewrite decide_False in Pa by done.
        rewrite Pt. destruct (decide (id ∈ l)) as [Hi|Hi];
          destruct (decide (id ∈ tp :: l)) as [Hj|Hj]; rewrite elem_of_cons in Hj; tauto.
    + destruct Pf, Qf. split; congruence.
Qed.

(** The timers after the pending ones have been taken in: nothing is pending and
    nothing is ready any more. *)
Lemma process_pending_ok c s :
  service_ok s →
  ∃ s' s1, process_pending c s = Some s' ∧ service_ok s' ∧ pending_timers_ s' = [] ∧
    processed c s (pending_timers_ s) s1 ∧
    timers s' = timers s1 ∧ active_timers_ s' = active_timers_ s1 ∧
    current_time_ s' = current_time_ s.
Proof.
  intros Hs. destruct (process_pending_loop_ok c s (pending_timers_ s) Hs) as (s1 & E & Hs1 & P);
    [apply Hs|apply Hs|].
  unfold process_pending. rewrite E; cbn. eexists _, s1.
  split; [done|]. split_and!; [|done|done|done|done|apply P].
  destruct Hs1 as [[Ha _ La _ Hr] Ho]. split; [split; cbn|done]; try done.
  - constructor.
  - intros id Hid. by apply elem_of_nil in Hid.
  - intros id e He Hready. exfalso.
    rewrite (proc_timers _ _ _ _ P) in He. case_decide as Hd.
    + apply fmap_Some in He as (e0 & _ & ->). unfold updated in Hready.
      rewrite update_state in Hready. by case_decide.
    + apply Hd. destruct Hs as [Hc _]. by apply (ready_pending s Hc id e).
Qed.

(** ** Running callbacks *)

(** What a callback owes the service: the timers it works on exist, and its own
    timer still exists when it returns. *)
Definition callback_ok (callback : Z → service → bool * list op) : Prop :=
  ∀ id s, consistent s → is_Some (timers s !! id) →
  ∃ s', run_ops true s (snd (callback id s)) = Some s' ∧ is_Some (timers s' !! id).

(** Whether triggering the timer calls its callback. *)
Definition runs (e : TimedEventImpl.t) : bool := callback_ e && bool_decide (state_ e = WAITING).

Lemma trigger_begin_runs e : fst (trigger_begin e) = runs e.
Proof.
  unfold trigger_begin, compare_exchange, runs. destruct (callback_ e); cbn; [|done].
  case_decide; by case_bool_decide.
Qed.

Lemma trigger_begin_quiet e : runs e = false → snd (trigger_begin e) = e.
Proof.
  unfold trigger_begin, compare_exchange, runs. destruct (callback_ e); cbn; [|done].
  case_decide; by case_bool_decide.
Qed.

Lemma trigger_begin_time e :
  next_trigger_time (snd (trigger_begin e)) = next_trigger_time e ∧
  (runs e = true → state_ (snd (trigger_begin e)) = INACTIVE).
Proof.
  unfold trigger_begin, compare_exchange, runs.
  destruct (callback_ e); cbn; [|done]. case_decide; by case_bool_decide.
Qed.

(** The end of a trigger never makes a timer ready. *)
Lemma trigger_end_ready e ran restart now c :
  state_ (trigger_end e ran restart now c) = READY → state_ e = READY.
Proof.
  unfold trigger_end, compare_exchange. destruct (callback_ e), ran, restart; cbn; try done.
  case_decide; cbn; congruence.
Qed.

(** The effect of triggering the timer [tp]. *)
Record triggered (s : service) (tp : Z) (s' : service) : Prop := {
  trig_consistent : consistent s';
  trig_active : active_timers_ s' `sublist_of` active_timers_ s;
  trig_time : ∀ x, x ∈ active_timers_ s' → x ≠ tp → time_of s' x = time_of s x;
  trig_now : current_time_ s' = current_time_ s;
  trig_skip : skip_checking_active_timers_ s' = false →
    active_timers_ s' = active_timers_ s ∧ skip_checking_active_timers_ s = false;
  trig_waiting : ∀ x e', x ≠ tp → timers s' !! x = Some e' → state_ e' = WAITING →
    kept_waiting s s' x e'
}.

Lemma triggered_of_frame s tp s' e' :
  op_frame true s s' → consistent s' → (state_ e' = READY → tp ∈ pending_timers_ s') →
  triggered s tp (set_timer s' tp e').
Proof.
  intros [Fa Ft Fn Fs Fw] Hc Hr. split; cbn; [by apply consistent_set|done| |done|by apply Fs|].
  - intros x Hx Hne. rewrite time_of_set, decide_False by done. by apply Ft.
  - intros x e Hne. rewrite lookup_insert_ne by done. intros He Hw.
    destruct (Fw x e He Hw) as (e0 & ? & ? & ? & ? & ?). exists e0. by split_and!.
Qed.

Section rounds.
Context (callback : Z → service → bool * list op) (Hcb : callback_ok callback).

Lemma trigger_ok c s tp e :
  consistent s → timers s !! tp = Some e →
  ∃ s', trigger callback c s tp = Some (s', runs e) ∧ triggered s tp s'.
Proof using Hcb.
  intros Hc He. unfold trigger. rewrite He; cbn.
  pose proof (trigger_begin_runs e) as Hr. pose proof (trigger_begin_quiet e) as Hq.
  pose proof (trigger_begin_time e) as [Ht Hi].
  destruct (trigger_begin e) as [ran e1]; cbn [fst snd] in *. subst ran.
  assert (Hready : state_ e1 = READY → tp ∈ pending_timers_ s).
  { destruct (runs e); [by rewrite Hi|]. rewrite Hq by done. by apply (ready_pending s Hc). }
  assert (Hc1 : consistent (set_timer s tp e1)) by by apply consistent_set.
  assert (F1 : op_frame true s (set_timer s tp e1)).
  { apply op_frame_set; [intros _; unfold time_of; by rewrite He|].
    destruct (runs e); [by rewrite Hi|]. rewrite Hq by done. intros. by apply kept_waiting_refl. }
  destruct (runs e).
  - destruct (Hcb tp (set_timer s tp e1) Hc1) as (s2 & Hrun & [e2 He2]).
    { cbn. rewrite lookup_insert_eq. by eexists. }
    destruct (callback tp (set_timer s tp e1)) as [restart os]; cbn [snd] in *.
    rewrite Hrun; cbn. rewrite He2; cbn.
    destruct (run_ops_ok true _ os s2 Hc1 Hrun) as [Hc2 F2].
    eexists. split; [done|]. apply triggered_of_frame; [by eapply op_frame_trans|done|].
    intros H. apply (ready_pending s2 Hc2 tp e2 He2). by eapply trigger_end_ready.
  - cbn. rewrite lookup_insert_eq; cbn. eexists. split; [done|].
    apply triggered_of_frame; [done|done|]. intros H. apply Hready. by eapply trigger_end_ready.
Qed.

Lemma trigger_active_ok c l s did :
  consistent s → NoDup l → (∀ x, x ∈ l → x ∈ active_timers_ s) →
  ∃ s' did' log, trigger_active callback c s l did = Some (s', did', log) ∧
    consistent s' ∧ current_time_ s' = current_time_ s ∧
    (did' = false → s' = s ∧ did = false) ∧ log `sublist_of` l ∧
    ∀ x, x ∈ log → ∃ e, timers s !! x = Some e ∧ runs e = true ∧
      next_trigger_time e <= current_time_ s.
Proof using Hcb.
  revert s did. induction l as [|tp l IH]; intros s did Hc Hn Hl; cbn [trigger_active].
  { exists s, did, []. split_and!; try done. intros x Hx. by apply elem_of_nil in Hx. }
  apply NoDup_cons in Hn as [Htp Hn].
  destruct (Z.leb_spec (time_of s tp) (current_time_ s)) as [Hdue|]; cycle 1.
  { exists s, did, []. split_and!; try done; [apply sublist_nil_l|].
    intros x Hx. by apply elem_of_nil in Hx. }
  destruct (active_live s Hc tp) as [e He]; [apply Hl; by left|].
  assert (Hte : next_trigger_time e <= current_time_ s) by (unfold time_of in Hdue; by rewrite He in Hdue).
  destruct (trigger_ok c s tp e Hc He) as (s1 & -> & [Tc _ _ Tn Ts Tw]).
  set (ids := if runs e then [tp] else []).
  assert (Hids : ids `sublist_of` [tp]) by (unfold ids; destruct (runs e); [done|apply sublist_nil_l]).
  assert (Hrun : ∀ x, x ∈ ids → ∃ e, timers s !! x = Some e ∧ runs e = true ∧
      next_trigger_time e <= current_time_ s).
  { unfold ids. intros x Hx. destruct (runs e) eqn:Er; [|by apply elem_of_nil in Hx].
    apply list_elem_of_singleton in Hx as ->. by exists e. }
  destruct (skip_checking_active_timers_ s1) eqn:Hskip.
  { exists s1, true, ids. split_and!; try done. etrans; [done|]. apply sublist_skip, sublist_nil_l. }
  destruct (Ts eq_refl) as [Ea _].
  destruct (IH s1 true Tc Hn) as (s2 & did2 & log & -> & Hc2 & En & Hd & Hsub & Hlog).
  { intros x Hx. rewrite Ea. apply Hl. by right. }
  exists s2, did2, (ids ++ log). split_and!; [done|done|congruence| |by apply (sublist_app ids [tp])|].
  { intros Hf. by destruct (Hd Hf). }
  intros x. rewrite elem_of_app. intros [Hx|Hx]; [by apply Hrun|].
  destruct (Hlog x Hx) as (e1 & He1 & Hr1 & Ht1).
  apply andb_true_iff in Hr1 as [Hcb1 Hw1]. apply bool_decide_eq_true in Hw1.
  assert (Hne : x ≠ tp) by (intros ->; apply Htp; by eapply elem_of_sublist).
  destruct (Tw x e1 Hne He1 Hw1) as (e0 & He0 & Hw0 & Hc0 & Et & _).
  exists e0. unfold runs. rewrite He0, Hc0, Hcb1, bool_decide_eq_true_2 by done.
  split_and!; [done|done|]. rewrite Et, <- Tn. done.
Qed.

Lemma keep_sorted_ok c s : consistent s → service_ok (keep_sorted c s).
Proof using.
  intros [Ha Hp La Lp Hr].
  pose proof (sort_by_perm (time_of s) (active_timers_ s)) as Hperm.
  assert (Hsub : active_timers_ (keep_sorted c s) `sublist_of` sort_by (time_of s) (active_timers_ s))
    by apply sublist_take.
  split; [split; [| |intros x Hx| |]|]; try done.
  - eapply sublist_NoDup; [|exact Hsub]. by rewrite Hperm.
  - apply La. rewrite <- Hperm. by eapply elem_of_sublist.
  - eapply sorted_sublist; [exact Hsub|]. apply sort_by_sorted.
Qed.

Lemma skip_reset_ok s : service_ok s → service_ok (with_vectors s (pending_timers_ s) (active_timers_ s) false).
Proof using. intros [[] Ho]. by split. Qed.

(** A round touches no freed timer, keeps the invariant, and each callback it runs
    belongs to a timer that was waiting and due once the pending orders were
    taken in. *)
Lemma do_timer_actions_ok s :
  service_ok s →
  ∃ s1 s' log, process_pending (current_time_ s + cancel_delay) s = Some s1 ∧
    do_timer_actions callback s = Some (s', log) ∧ service_ok s' ∧ NoDup log ∧
    ∀ x, x ∈ log → ∃ e, timers s1 !! x = Some e ∧ runs e = true ∧
      next_trigger_time e <= current_time_ s.
Proof using Hcb.
  intros Hs. unfold do_timer_actions. set (c := current_time_ s + cancel_delay).
  destruct (process_pending_ok c s Hs) as (s1 & s0 & -> & Hs1 & _ & _ & _ & _ & Hnow). cbn [mbind option_bind].
  set (s2 := with_vectors s1 _ _ false).
  assert (Hs2 : service_ok s2) by by apply skip_reset_ok.
  destruct (trigger_active_ok c (active_timers_ s1) s2 false)
    as (s3 & did & log & E & Hc3 & _ & Hd & Hsub & Hlog); [apply Hs2|apply Hs1|done|].
  change (active_timers_ s2) with (active_timers_ s1). rewrite E.
  exists s1. do 2 eexists. split_and!; [done|done| | |].
  - destruct did; [by apply keep_sorted_ok|]. by destruct (Hd eq_refl) as [-> _].
  - eapply sublist_NoDup; [apply Hs1|done].
  - intros x Hx. rewrite <- Hnow. by apply Hlog.
Qed.
End rounds.

(** ** Reachable services *)

Inductive reachable (callback : Z → service → bool * list op) : service → Prop :=
  | reachable_create : reachable callback create_service
  | reachable_step s log s' :
      reachable callback s → step callback s log s' → reachable callback s'.

Lemma service_ok_same s s' :
  timers s' = timers s → active_timers_ s' = active_timers_ s →
  pending_timers_ s' = pending_timers_ s → service_ok s → service_ok s'.
Proof.
  intros Et Ea Ep [[Ha Hp La Lp Hr] Ho]. split.
  - split; rewrite ?Et, ?Ea, ?Ep; done.
  - unfold ordered. rewrite Ea. eapply sorted_ext; [|done]. intros x _. unfold time_of. by rewrite Et.
Qed.

Lemma create_service_ok : service_ok create_service.
Proof.
  split; [split|constructor]; cbn; try constructor; intros id.
  - by rewrite elem_of_nil.
  - by rewrite elem_of_nil.
  - intros e. by rewrite lookup_empty.
Qed.

Lemma run_op_service b s o s' : service_ok s → run_op b s o = Some s' → service_ok s'.
Proof.
  intros [Hc Ho] E. destruct (run_op_ok b s o s' Hc E) as [Hc' F].
  split; [done|by eapply op_frame_ordered].
Qed.

Lemma now_service s now : service_ok s → service_ok (update_current_time s now).
Proof. by apply service_ok_same. Qed.

Lemma step_service callback s log s' :
  callback_ok callback → step callback s log s' → service_ok s → service_ok s'.
Proof.
  intros Hcb Hstep Hs. destruct Hstep as [s o s'|s o s'|s now s' log _ _ E| | | |];
    [by eapply run_op_service|by eapply run_op_service| |(eapply service_ok_same; [..|exact Hs]; done)..].
  destruct (do_timer_actions_ok callback Hcb _ (now_service s now Hs))
    as (s1 & s2 & log2 & _ & E2 & Hs2 & _). congruence.
Qed.

Lemma reachable_service callback s : callback_ok callback → reachable callback s → service_ok s.
Proof.
  intros Hcb. induction 1 as [|s log s' _ IH Hstep]; [apply create_service_ok|].
  by eapply step_service.
Qed.

(** A callback that starts another timer, if there is one. *)
Definition chain_callback (id : Z) (s : service) : bool * list op :=
  (true, if decide (is_Some (timers s !! (id + 1))) then [OpRestart (id + 1)] else []).

Lemma restart_live s id s' x :
  restart_timer s id = Some s' → is_Some (timers s !! x) → is_Some (timers s' !! x).
Proof.
  unfold restart_timer. destruct (timers s !! id); [|done].
  destruct (go_ready _) as [ok e']. intros [= <-] Hx.
  destruct ok; [destruct (notify_frame (set_timer s id e') id) as [-> _]|]; by apply live_set.
Qed.

Lemma chain_callback_ok : callback_ok chain_callback.
Proof.
  intros id s _ Hid. cbn. case_decide as Hd; cbn; [|by exists s].
  destruct (restart_timer s (id + 1)) as [s'|] eqn:E; cbn.
  - exists s'. split; [done|]. by eapply restart_live.
  - unfold restart_timer in E. destruct Hd as [e He]. rewrite He in E. by destruct (go_ready e).
Qed.

(** C24: whatever the threads do, the service never touches a freed timer: in
    every reachable state a round can be carried out at any time, both vectors
    list live timers without repetition, every timer asked to start is pending,
    and the active timers are in the order of their trigger times. *)
Theorem event_service_invariant callback s now :
  callback_ok callback → reachable callback s →
  service_ok s ∧
  ∃ s' log, do_timer_actions callback (update_current_time s now) = Some (s', log).
Proof.
  intros Hcb Hr. pose proof (reachable_service callback s Hcb Hr) as Hs. split; [done|].
  destruct (do_timer_actions_ok callback Hcb _ (now_service s now Hs))
    as (s1 & s' & log & _ & E & _). eauto.
Qed.

(** The round of the service at a state and a time, for concrete runs. *)
Definition ran_at (callback : Z → service → bool * list op) (s : service) (now : Z)
    : service * list Z :=
  default (s, []) (do_timer_actions callback (update_current_time s now)).

Definition after_ops (os : list op) : service := default create_service (run_ops false create_service os).

(** Two timers, the first of them started. *)
Definition two_timers : service :=
  Eval vm_compute in after_ops [OpCreate 1 true 1000 0; OpCreate 2 true 1000 0; OpRestart 1].

(** What the other threads do without waiting for the collections is reachable. *)
Lemma reachable_ops callback s os s' :
  reachable callback s → forallb (λ o, negb (needs_collections o)) os = true →
  run_ops false s os = Some s' → reachable callback s'.
Proof.
  revert s. induction os as [|o os IH]; cbn [run_ops forallb]; intros s Hr Ho.
  - by intros [= <-].
  - apply andb_true_iff in Ho as [Ho Hos]. apply negb_true_iff in Ho.
    destruct (run_op false s o) as [s1|] eqn:E; cbn; [|done].
    apply IH; [|done]. eapply reachable_step; [done|]. by eapply step_other_notify.
Qed.

Lemma two_timers_reachable : reachable chain_callback two_timers.
Proof.
  apply (reachable_ops _ create_service [OpCreate 1 true 1000 0; OpCreate 2 true 1000 0; OpRestart 1]);
    [constructor|done|vm_compute; reflexivity].
Qed.

Lemma event_service_invariant_witness :
  service_ok two_timers ∧
  ∃ s' log, do_timer_actions chain_callback (update_current_time two_timers 5) = Some (s', log).
Proof.
  apply (event_service_invariant chain_callback two_timers 5);
    [apply chain_callback_ok|apply two_timers_reachable].
Defined.

(** C25: a round runs a callback at most once, and only for a timer that has one
    and that was either waiting for a time that has come, or just asked to start
    with no delay.  A timer that was cancelled, or whose time has not come, does
    not run. *)
Theorem only_due_timers_run callback s now s' log :
  callback_ok callback → reachable callback s →
  do_timer_actions callback (update_current_time s now) = Some (s', log) →
  NoDup log ∧
  ∀ x, x ∈ log → ∃ e, timers s !! x = Some e ∧ callback_ e = true ∧
    ((state_ e = WAITING ∧ next_trigger_time e <= now) ∨
     (state_ e = READY ∧ interval_microsec_ e <= 0)).
Proof.
  intros Hcb Hr E.
  pose proof (now_service s now (reachable_service callback s Hcb Hr)) as Hs.
  destruct (do_timer_actions_ok callback Hcb _ Hs) as (s1 & s2 & log2 & Ep & E2 & _ & Hn & Hlog).
  assert (log2 = log) as -> by congruence. split; [done|]. intros x Hx.
  destruct (Hlog x Hx) as (e1 & He1 & Hr1 & Ht1).
  apply andb_true_iff in Hr1 as [Hc1 Hw1]. apply bool_decide_eq_true in Hw1.
  destruct (process_pending_ok (current_time_ (update_current_time s now) + cancel_delay) _ Hs) as (s1' & s0 & Ep' & _ & _ & P & Et & _).
  assert (s1' = s1) as -> by congruence.
  rewrite Et, (proc_timers _ _ _ _ P) in He1. cbn in He1, Ht1.
  destruct (decide (x ∈ pending_timers_ s)) as [Hp|Hp].
  - apply fmap_Some in He1 as (e & He & ->). exists e. split; [done|].
    unfold updated in *. rewrite update_callback in Hc1. split; [done|].
    by apply (update_due e now (now + cancel_delay)).
  - exists e1. split; [done|]. split; [done|]. by left.
Qed.

(** The two timers once the first one waits, at time 5. *)
Definition first_waiting : service :=
  Eval vm_compute in fst (ran_at chain_callback (set_manipulation two_timers false) 5).

Lemma first_waiting_reachable : reachable chain_callback first_waiting.
Proof.
  apply (reachable_step _ (set_manipulation two_timers false) []).
  - eapply reachable_step; [apply two_timers_reachable|by constructor].
  - apply (step_round _ _ 5); [done|done|vm_compute; reflexivity].
Qed.

Definition first_ran : service * list Z :=
  Eval vm_compute in ran_at chain_callback first_waiting 2000000.

Lemma only_due_timers_run_witness :
  snd first_ran = [1] ∧ NoDup (snd first_ran) ∧
  ∀ x, x ∈ snd first_ran → ∃ e, timers first_waiting !! x = Some e ∧ callback_ e = true ∧
    ((state_ e = WAITING ∧ next_trigger_time e <= 2000000) ∨
     (state_ e = READY ∧ interval_microsec_ e <= 0)).
Proof.
  split; [reflexivity|].
  apply (only_due_timers_run chain_callback first_waiting 2000000 (fst first_ran));
    [apply chain_callback_ok|apply first_waiting_reachable|vm_compute; reflexivity].
Defined.

(** ** Timers that are not interfered with *)

(** Operations that neither cancel a timer nor take it out of the service. *)
Definition benign (o : op) : bool :=
  match o with OpCreate _ _ _ _ | OpRestart _ | OpInterval _ _ => true | _ => false end.

(** The timer [x] is to run at the current time. *)
Definition due (s : service) (x : Z) : bool :=
  match timers s !! x with
  | Some e => runs e && (next_trigger_time e <=? current_time_ s)
  | None => false
  end.

(** A service in which the waiting timers of [s] still wait. *)
Record undisturbed (s s' : service) : Prop := {
  und_active : active_timers_ s' = active_timers_ s;
  und_skip : skip_checking_active_timers_ s' = skip_checking_active_timers_ s;
  und_waiting : ∀ x e, timers s !! x = Some e → state_ e = WAITING →
    ∃ e', timers s' !! x = Some e' ∧ state_ e' = WAITING ∧ callback_ e' = callback_ e ∧
      next_trigger_time e' = next_trigger_time e
}.

Lemma undisturbed_refl s : undisturbed s s.
Proof. split; [done|done|]. intros x e He Hw. by exists e. Qed.

Lemma undisturbed_trans s1 s2 s3 : undisturbed s1 s2 → undisturbed s2 s3 → undisturbed s1 s3.
Proof.
  intros [A1 S1 W1] [A2 S2 W2]. split; [congruence|congruence|].
  intros x e He Hw. destruct (W1 x e He Hw) as (e' & He' & Hw' & ? & ?).
  destruct (W2 x e' He' Hw') as (e2 & ? & ? & ? & ?). exists e2. split_and!; congruence.
Qed.

Lemma undisturbed_set s id e :
  (∀ e0, timers s !! id = Some e0 → state_ e0 = WAITING →
    state_ e = WAITING ∧ callback_ e = callback_ e0 ∧ next_trigger_time e = next_trigger_time e0) →
  undisturbed s (set_timer s id e).
Proof.
  intros Hid. split; [done|done|]. intros x e0 He Hw. cbn.
  destruct (decide (x = id)) as [->|Hne].
  - rewrite lookup_insert_eq. exists e. by destruct (Hid e0 He Hw) as (? & ? & ?).
  - rewrite lookup_insert_ne by done. by exists e0.
Qed.

Lemma undisturbed_notify s id : undisturbed s (notify s id).
Proof.
  destruct (notify_frame s id) as (Et & Ea & Es & _). split; [done|done|].
  rewrite Et. intros x e He Hw. by exists e.
Qed.

Lemma undisturbed_count s n : undisturbed s (with_count s n).
Proof. split; [done|done|]. intros x e He Hw. by exists e. Qed.

Lemma benign_undisturbed b s o s' : benign o = true → run_op b s o = Some s' → undisturbed s s'.
Proof.
  destruct o as [id cb us now| | |id| |id us]; cbn; try done; intros _.
  - unfold create_timer. destruct (timers s !! id) eqn:E; [done|]. intros [= <-].
    eapply undisturbed_trans; [|apply undisturbed_count]. apply undisturbed_set. congruence.
  - unfold restart_timer. destruct (timers s !! id) as [e|] eqn:E; [|done].
    unfold go_ready, compare_exchange.
    case_decide; intros [= <-]; [eapply undisturbed_trans; [|apply undisturbed_notify]|];
      apply undisturbed_set; intros e0 He0 Hw0; [congruence|]; by assert (e0 = e) as -> by congruence.
  - unfold update_interval. destruct (timers s !! id) as [e|] eqn:E; [|done]. intros [= <-].
    apply undisturbed_set. intros e0 He0 Hw0. by assert (e0 = e) as -> by congruence.
Qed.

Lemma benign_ops_undisturbed b s os s' :
  forallb benign os = true → run_ops b s os = Some s' → undisturbed s s'.
Proof.
  revert s. induction os as [|o os IH]; cbn [run_ops forallb]; intros s Ho.
  - intros [= <-]. apply undisturbed_refl.
  - apply andb_true_iff in Ho as [Ho Hos].
    destruct (run_op b s o) as [s1|] eqn:E; cbn; [|done]. intros Hr.
    eapply undisturbed_trans; [by eapply benign_undisturbed|by apply IH].
Qed.

Definition benign_callback (callback : Z → service → bool * list op) : Prop :=
  ∀ id s, forallb benign (snd (callback id s)) = true.

Section undisturbed.
Context (callback : Z → service → bool * list op).
Context (Hcb : callback_ok callback) (Hbenign : benign_callback callback).

(** Triggering a timer does not change which of the others are due. *)
Lemma trigger_undisturbed c s tp s' ran :
  consistent s → trigger callback c s tp = Some (s', ran) →
  active_timers_ s' = active_timers_ s ∧
  skip_checking_active_timers_ s' = skip_checking_active_timers_ s ∧
  ∀ x e, x ≠ tp → timers s !! x = Some e → state_ e = WAITING →
    ∃ e', timers s' !! x = Some e' ∧ state_ e' = WAITING ∧ callback_ e' = callback_ e ∧
      next_trigger_time e' = next_trigger_time e.
Proof using Hbenign.
  intros Hc. unfold trigger. destruct (timers s !! tp) as [e|] eqn:He; cbn; [|done].
  destruct (trigger_begin e) as [ran' e1]. set (s1 := set_timer s tp e1).
  set (r := if ran' then callback tp s1 else (false, [])).
  assert (Hr : forallb benign (snd r) = true) by (unfold r; destruct ran'; [apply Hbenign|done]).
  destruct r as [restart os]; cbn [snd] in Hr.
  destruct (run_ops true s1 os) as [s2|] eqn:E2; cbn; [|done].
  destruct (timers s2 !! tp) as [e2|]; cbn; [|done]. intros [= <- <-].
  destruct (benign_ops_undisturbed true s1 os s2 Hr E2) as [Ua Us Uw]. split_and!; [done|done|].
  intros x e0 Hne Hx Hw. cbn. rewrite lookup_insert_ne by done.
  apply Uw; [|done]. cbn. by rewrite lookup_insert_ne.
Qed.

Lemma trigger_due c s tp s' ran x :
  consistent s → trigger callback c s tp = Some (s', ran) → x ≠ tp → due s' x = due s x.
Proof using Hcb Hbenign.
  intros Hc E Hne. destruct (trigger_undisturbed c s tp s' ran Hc E) as (_ & _ & Hfwd).
  assert (Htp : is_Some (timers s !! tp))
    by (unfold trigger in E; destruct (timers s !! tp); [by eexists|done]).
  destruct Htp as [e He]. destruct (trigger_ok callback Hcb c s tp e Hc He) as (s1 & E1 & [_ _ _ Tn _ Tw]).
  assert (s1 = s') as -> by congruence. apply eq_true_iff_eq. unfold due, runs. rewrite Tn. split.
  - destruct (timers s' !! x) as [e'|] eqn:Ex; [|done].
    rewrite !andb_true_iff, bool_decide_eq_true. intros [[Hcbx Hw] Ht].
    destruct (Tw x e' Hne Ex Hw) as (e0 & -> & Hw0 & Hc0 & Et & _).
    rewrite !andb_true_iff, bool_decide_eq_true, Hc0, Et. done.
  - destruct (timers s !! x) as [e0|] eqn:Ex; [|done].
    rewrite !andb_true_iff, bool_decide_eq_true. intros [[Hcbx Hw] Ht].
    destruct (Hfwd x e0 Hne Ex Hw) as (e' & -> & Hw0 & Hc0 & Et).
    rewrite !andb_true_iff, bool_decide_eq_true, Hc0, Et. done.
Qed.

Lemma filter_due_ext s1 s2 (l : list Z) :
  (∀ x, x ∈ l → due s1 x = due s2 x) →
  filter (λ x, due s1 x = true) l = filter (λ x, due s2 x = true) l.
Proof using.
  induction l as [|x l IH]; intros H; [done|]. rewrite !filter_cons, IH, (H x).
  - done.
  - by left.
  - intros y Hy. apply H. by right.
Qed.

(** Nothing is due behind the first timer whose time has not come. *)
Lemma none_due s (l : list Z) :
  Forall (λ x, current_time_ s < time_of s x) l → filter (λ x, due s x = true) l = [].
Proof using.
  induction 1 as [|x l Hx Hl IH]; [done|]. rewrite filter_cons_False; [done|].
  unfold due. unfold time_of in Hx. destruct (timers s !! x) as [e|]; [|done].
  rewrite andb_true_iff, Z.leb_le. lia.
Qed.

Lemma trigger_active_due c l s did :
  consistent s → skip_checking_active_timers_ s = false → NoDup l →
  (∀ x, x ∈ l → x ∈ active_timers_ s) → StronglySorted (by_key (time_of s)) l →
  ∃ s' did', trigger_active callback c s l did
    = Some (s', did', filter (λ x, due s x = true) l).
Proof using Hcb Hbenign.
  revert s did. induction l as [|tp l IH]; intros s did Hc Hskip Hn Hl Hs; cbn [trigger_active].
  { by exists s, did. }
  apply NoDup_cons in Hn as [Htp Hn]. apply StronglySorted_inv in Hs as [Hs Hf].
  destruct (Z.leb_spec (time_of s tp) (current_time_ s)) as [Hdue|Hlate]; cycle 1.
  { exists s, did. rewrite none_due; [done|]. constructor; [done|].
    eapply Forall_impl; [exact Hf|]. unfold by_key. intros x Hx. lia. }
  destruct (active_live s Hc tp) as [e He]; [apply Hl; by left|].
  destruct (trigger_ok callback Hcb c s tp e Hc He) as (s1 & E1 & [Tc _ Tt _ _ _]). rewrite E1.
  destruct (trigger_undisturbed c s tp s1 _ Hc E1) as (Ea & Es & _).
  rewrite Es, Hskip.
  assert (Hne : ∀ x, x ∈ l → x ≠ tp) by (intros x Hx ->; done).
  destruct (IH s1 true) as (s2 & did2 & ->); [done|congruence|done| | |].
  { intros x Hx. rewrite Ea. apply Hl. by right. }
  { apply (sorted_ext (time_of s)); [|done]. intros x Hx. symmetry. apply Tt; [|by apply Hne].
    rewrite Ea. apply Hl. by right. }
  exists s2, did2. do 2 f_equal.
  rewrite (filter_due_ext s1 s).
  - assert (Hd : due s tp = runs e).
    { unfold due. rewrite He. unfold time_of in Hdue. rewrite He in Hdue.
      apply Z.leb_le in Hdue. by rewrite Hdue, andb_true_r. }
    rewrite filter_cons. rewrite <- Hd. by destruct (due s tp).
  - intros x Hx. rewrite (trigger_due c s tp s1 _ x Hc E1); [done|]. by apply Hne.
Qed.
End undisturbed.

(** C26: when no callback cancels or removes timers, a round runs exactly the
    callbacks of the active timers that are waiting and whose time has come, in
    the order of their times, once the pending orders have been taken in. *)
Theorem due_timers_run callback s now :
  callback_ok callback → benign_callback callback → reachable callback s →
  ∃ s1 s', process_pending (now + cancel_delay) (update_current_time s now) = Some s1 ∧
    StronglySorted (by_key (time_of s1)) (active_timers_ s1) ∧
    do_timer_actions callback (update_current_time s now)
      = Some (s', filter (λ x, due s1 x = true) (active_timers_ s1)).
Proof.
  intros Hcb Hb Hr. pose proof (now_service s now (reachable_service callback s Hcb Hr)) as Hs.
  unfold do_timer_actions. cbn [current_time_ update_current_time].
  destruct (process_pending_ok (now + cancel_delay) _ Hs) as (s1 & _ & -> & [Hc1 Ho1] & _).
  set (s2 := with_vectors s1 (pending_timers_ s1) (active_timers_ s1) false).
  destruct (skip_reset_ok s1) as [Hc2 Ho2]; [done|].
  destruct (trigger_active_due callback Hcb Hb (now + cancel_delay) (active_timers_ s1) s2 false)
    as (s3 & did & E); [done|done|by apply active_nodup|done|done|].
  cbn [mbind option_bind]. exists s1. eexists. split_and!; [done|done|].
  fold s2. change (active_timers_ s2) with (active_timers_ s1). rewrite E. done.
Qed.

Lemma chain_callback_benign : benign_callback chain_callback.
Proof. intros id s. cbn. by case_decide. Qed.

Lemma due_timers_run_witness :
  ∃ s1 s', process_pending (2000000 + cancel_delay) (update_current_time first_waiting 2000000) = Some s1 ∧
    StronglySorted (by_key (time_of s1)) (active_timers_ s1) ∧
    do_timer_actions chain_callback (update_current_time first_waiting 2000000)
      = Some (s', filter (λ x, due s1 x = true) (active_timers_ s1)).
Proof.
  apply (due_timers_run chain_callback first_waiting 2000000);
    [apply chain_callback_ok|apply chain_callback_benign|apply first_waiting_reachable].
Defined.

(** ** Intervals of a day and more *)

(** The timer [x] waits for the time [t]. *)
Definition waits_for (x t : Z) (s : service) : Prop :=
  ∃ e, timers s !! x = Some e ∧ state_ e = WAITING ∧ next_trigger_time e = t.

(** It counts as waiting but no round looks at it. *)
Definition lost (x : Z) (s : service) : Prop :=
  (∃ t, waits_for x t s) ∧ (x ∉ active_timers_ s) ∧ (x ∉ pending_timers_ s).

(** Operations that neither cancel nor destroy nor recreate the timer [x]; starting it and
    setting its interval are among them. *)
Definition spares (x : Z) (o : op) : bool :=
  match o with OpCancel id | OpDestroy id | OpRecreate id => negb (id =? x) | _ => true end.

(** [x] still waits, and is in no vector it was not in. *)
Record spared (x t : Z) (s s' : service) : Prop := {
  sp_waits : waits_for x t s → waits_for x t s';
  sp_active : waits_for x t s → x ∈ active_timers_ s' → x ∈ active_timers_ s;
  sp_pending : waits_for x t s → x ∈ pending_timers_ s' → x ∈ pending_timers_ s
}.

#[local] Instance spared_preorder x t : PreOrder (spared x t).
Proof. split; [by split|]. intros s1 s2 s3 [W1 A1 P1] [W2 A2 P2]. split; auto. Qed.

Lemma spared_lost x t s s' : spared x t s s' → waits_for x t s → lost x s → lost x s'.
Proof. intros [W A P] Hw (_ & Ha & Hp). split; [exists t; by apply W|]. split; auto. Qed.

Lemma spared_frame x t s s' :
  timers s' !! x = timers s !! x → (x ∈ active_timers_ s' → x ∈ active_timers_ s) →
  (x ∈ pending_timers_ s' → x ∈ pending_timers_ s) → spared x t s s'.
Proof. intros Et Ha Hp. split; [|auto..]. unfold waits_for. by rewrite Et. Qed.

Lemma spared_other x t s id e : id ≠ x → spared x t s (set_timer s id e).
Proof. intros Hne. apply spared_frame; [|done..]. cbn. by rewrite lookup_insert_ne. Qed.

Lemma spared_notify x t s id : id ≠ x → spared x t s (notify s id).
Proof.
  intros Hne. destruct (notify_frame s id) as (Et & Ea & _). apply spared_frame; [by rewrite Et|by rewrite Ea|].
  rewrite elem_of_notify. by intros [->|].
Qed.

Lemma spared_erased x t b s id h :
  id ≠ x → h !! x = timers s !! x → spared x t s (with_timers (unregister_timer b s id) h).
Proof.
  intros Hne Eh. apply spared_frame; [done|..]; cbn; intros Hx; by eapply elem_of_sublist, erase_sublist.
Qed.

Lemma spared_op x t b s o s' : spares x o = true → run_op b s o = Some s' → spared x t s s'.
Proof.
  destruct o as [id cb us now|id|id|id|id|id us]; cbn; rewrite ?negb_true_iff, ?Z.eqb_neq; intros Hne.
  - unfold create_timer. destruct (timers s !! id) eqn:E; [done|]. intros [= <-].
    split; [|done..]. intros (e & He & Hw). exists e. cbn. rewrite lookup_insert_ne by congruence. done.
  - unfold destroy_timer. destruct (timers s !! id); [|done]. intros [= <-]. apply spared_erased; [done|]. cbn. by rewrite lookup_delete_ne.
  - unfold cancel_timer. destruct (timers s !! id) as [e|]; [|done]. destruct (go_cancel e) as [ok e']. intros [= <-].
    destruct ok; [etrans; [|by apply spared_notify]|]; by apply spared_other.
  - unfold restart_timer. destruct (timers s !! id) as [e|] eqn:E; [|done]. unfold go_ready, compare_exchange.
    destruct (decide (state_ e = INACTIVE)) as [Hi|]; intros [= <-]; (destruct (decide (id = x)) as [->|Hx]; [|]).
    + split; intros (e0 & He0 & Hw & _); assert (e0 = e) as -> by congruence; congruence.
    + etrans; [by apply spared_other|by apply spared_notify].
    + apply spared_frame; [|done..]. cbn. by rewrite lookup_insert_eq, E.
    + by apply spared_other.
  - unfold recreate_timer. destruct (timers s !! id) as [e|]; [|done]. intros [= <-].
    transitivity (set_timer (unregister_timer b s id) id (snd (go_cancel e))); [|by apply spared_frame].
    apply spared_erased; [done|]. cbn. by rewrite lookup_insert_ne.
  - unfold update_interval. destruct (timers s !! id) as [e|] eqn:E; [|done]. intros [= <-].
    destruct (decide (id = x)) as [->|Hx]; [|by apply spared_other]. split; [|done..].
    intros (e0 & He0 & Hw & Ht). assert (e0 = e) as -> by congruence. exists (update_interval_us e us). cbn. by rewrite lookup_insert_eq.
Qed.

Lemma spared_ops x t b s os s' : forallb (spares x) os = true → run_ops b s os = Some s' → spared x t s s'.
Proof.
  revert s. induction os as [|o os IH]; cbn [run_ops forallb]; intros s Ho; [by intros [= <-]|].
  apply andb_true_iff in Ho as [Ho Hos]. destruct (run_op b s o) as [s1|] eqn:E; cbn; [|done]. intros Hr.
  etrans; [by eapply spared_op|by apply IH].
Qed.

Lemma spared_pending x t c s l s' : x ∉ l → process_pending_loop c s l = Some s' → spared x t s s'.
Proof.
  revert s. induction l as [|tp l IH]; cbn [process_pending_loop]; intros s Hl; [by intros [= <-]|].
  apply not_elem_of_cons in Hl as [Hne Hl]. unfold process_pending_timer at 1. destruct (timers s !! tp) as [e|]; [|done].
  destruct (update e (current_time_ s) c) as [act e1]. cbn [mbind option_bind]. intros Hr. etrans; [|by apply (IH _ Hl Hr)].
  clear Hr. set (pos := lower_bound s _ _). set (low := take pos _ ++ erase tp _).
  assert (∀ y, y ∈ low → y ∈ active_timers_ s) as Hlow.
  { intros y. unfold low. rewrite elem_of_app. intros [Hy|Hy]; [by eapply elem_of_sublist, sublist_take|].
    eapply elem_of_sublist; [exact Hy|]. etrans; [apply erase_sublist|apply sublist_drop]. }
  apply spared_frame; cbn; [by rewrite lookup_insert_ne| |done]. destruct act; [|apply Hlow].
  rewrite insert_at_perm, elem_of_cons. intros [->|?]; [done|by apply Hlow].
Qed.

Section losing.
Context (callback : Z → service → bool * list op) (Hcb : callback_ok callback) (x : Z).
Hypothesis Hspares : ∀ id s, forallb (spares x) (snd (callback id s)) = true.

Lemma spared_trigger t c s tp s' ran : tp ≠ x → trigger callback c s tp = Some (s', ran) → spared x t s s'.
Proof using Hspares.
  intros Hne. unfold trigger. destruct (timers s !! tp) as [e|]; cbn; [|done]. destruct (trigger_begin e) as [ran' e1].
  set (s1 := set_timer s tp e1). set (r := if ran' then callback tp s1 else (false, [])).
  assert (Hr : forallb (spares x) (snd r) = true) by (unfold r; destruct ran'; [apply Hspares|done]).
  destruct r as [restart os]; cbn [snd] in Hr. destruct (run_ops true s1 os) as [s2|] eqn:E2; cbn; [|done].
  destruct (timers s2 !! tp) as [e2|]; cbn; [|done]. intros [= <- <-].
  etrans; [by apply spared_other|]. etrans; [by apply (spared_ops x t true s1 os s2)|by apply spared_other].
Qed.

(** The loop over the active timers does not reach [x]: it is not among them, or its time
    has not come. *)
Lemma spared_active t c l s did s' did' log :
  consistent s → (∀ y, y ∈ l → y ∈ active_timers_ s) → waits_for x t s → x ∉ l ∨ current_time_ s < t →
  trigger_active callback c s l did = Some (s', did', log) →
  spared x t s s' ∧ (x ∉ log) ∧ (log ≠ [] ∨ did = true → did' = true).
Proof using Hcb Hspares.
  revert s did s' did' log. induction l as [|tp l IH]; intros s did s' did' log Hc Hl Hw Hx; cbn [trigger_active].
  { intros [= <- <- <-]. split; [done|]. split; [apply not_elem_of_nil|]. by intros [|]. }
  destruct (Z.leb_spec (time_of s tp) (current_time_ s)) as [Hdue|]; cycle 1.
  { intros [= <- <- <-]. split; [done|]. split; [apply not_elem_of_nil|]. by intros [|]. }
  assert (tp ≠ x) as Hne.
  { intros ->. destruct Hx as [Hx|Hlt]; [apply Hx; by left|]. destruct Hw as (e & He & _ & Ht). unfold time_of in Hdue. rewrite He in Hdue. lia. }
  destruct (active_live s Hc tp) as [e He]; [apply Hl; by left|].
  destruct (trigger_ok callback Hcb c s tp e Hc He) as (s1 & E1 & [Tc Ta _ Tn Ts _]). rewrite E1.
  pose proof (spared_trigger t c s tp s1 _ Hne E1) as Hs1. set (ids := if runs e then [tp] else []).
  assert (x ∉ ids) as Hids by (unfold ids; destruct (runs e); [by rewrite list_elem_of_singleton|apply not_elem_of_nil]).
  destruct (skip_checking_active_timers_ s1) eqn:Hskip; [by intros [= <- <- <-]|]. destruct (Ts eq_refl) as [Ea _].
  destruct (trigger_active callback c s1 l true) as [[[s2 did2] log2]|] eqn:E2; [|done]. intros [= <- <- <-].
  destruct (IH s1 true s2 did2 log2 Tc) as (Hs2 & Hlog & Hdid); [|by apply Hs1| |done|].
  { intros y Hy. rewrite Ea. apply Hl. by right. }
  { destruct Hx as [Hx|Hx]; [left; by apply not_elem_of_cons in Hx as [_ ?]|right; by rewrite Tn]. }
  split; [by etrans|]. split; [by rewrite elem_of_app; intros [?|?]|]. intros _. apply Hdid. by right.
Qed.

(** A round that runs a callback leaves no timer active that has a day to wait. *)
Lemma dropped_from_round t s s1 s' log :
  service_ok s → process_pending (current_time_ s + cancel_delay) s = Some s1 → waits_for x t s1 → current_time_ s + cancel_delay <= t →
  do_timer_actions callback s = Some (s', log) → log ≠ [] → lost x s'.
Proof using Hcb Hspares.
  intros Hs E1 Hw Ht. unfold do_timer_actions. rewrite E1. cbn [mbind option_bind].
  destruct (process_pending_ok (current_time_ s + cancel_delay) s Hs) as (s1' & s0 & E1' & Hs1 & Ep & _ & _ & _ & Hnow).
  assert (s1' = s1) as -> by congruence. set (s2 := with_vectors s1 _ _ false). destruct (skip_reset_ok s1 Hs1) as [Hc2 _].
  destruct (trigger_active callback _ s2 _ false) as [[[s3 did] log']|] eqn:E3; [|done]. intros [= <- <-] Hlog.
  destruct (spared_active t (current_time_ s + cancel_delay) (active_timers_ s2) s2 false s3 did log') as (Hs3 & _ & Hdid); try done.
  { right. change (current_time_ s2) with (current_time_ s1). rewrite Hnow. unfold cancel_delay in Ht. lia. }
  rewrite Hdid by by left. pose proof (sp_waits _ _ _ _ Hs3 Hw) as (e & He & Hwait & Hte).
  split; [exists t; by exists e|]. split.
  - cbn. intros Hin%lower_bound_before. unfold time_of in Hin. rewrite He in Hin. lia.
  - cbn. intros Hin%(sp_pending _ _ _ _ Hs3 Hw). change (pending_timers_ s2) with (pending_timers_ s1) in Hin. rewrite Ep in Hin.
    by apply not_elem_of_nil in Hin.
Qed.

Lemma lost_in_round s s' log : service_ok s → lost x s → do_timer_actions callback s = Some (s', log) → lost x s' ∧ x ∉ log.
Proof using Hcb Hspares.
  intros Hs Hlost. pose proof Hlost as ([t Hw] & Ha & Hp). unfold do_timer_actions, process_pending.
  destruct (process_pending_loop _ s (pending_timers_ s)) as [s0|] eqn:E0; [|done]. cbn [mbind option_bind].
  pose proof (spared_pending x t _ s _ s0 Hp E0) as Hs0. pose proof (spared_lost _ _ _ _ Hs0 Hw Hlost) as (_ & Ha0 & _).
  destruct (process_pending_ok (current_time_ s + cancel_delay) s Hs) as (s1 & s0' & E1 & Hs1 & _). unfold process_pending in E1.
  rewrite E0 in E1. cbn [mbind option_bind] in E1. injection E1 as <-. destruct (skip_reset_ok _ Hs1) as [Hc2 _].
  set (s2 := with_vectors _ _ _ false) in *. assert (waits_for x t s2) as Hw2 by by apply Hs0.
  destruct (trigger_active callback _ s2 _ false) as [[[s3 did] log']|] eqn:E3; [|done]. intros [= <- <-].
  destruct (spared_active t (current_time_ s + cancel_delay) (active_timers_ s2) s2 false s3 did log') as (Hs3 & Hlog & _); try done.
  { by left. }
  split; [|done]. assert (lost x s3) as Hl3.
  { apply (spared_lost _ _ _ _ Hs3 Hw2). split; [by exists t|]. split; [done|apply not_elem_of_nil]. }
  destruct did; [|done]. destruct Hl3 as ([t' Ht] & Ha3 & Hp3). split; [by exists t'|]. split; [|done].
  cbn. intros Hin. apply Ha3. rewrite <- (sort_by_perm (time_of s3)). eapply elem_of_sublist; [exact Hin|apply sublist_take].
Qed.

(** Rounds of the service, with the callbacks they run, and operations of other threads that
    spare [x], in any order. *)
Inductive goes_on : service → list Z → service → Prop :=
  | goes_nil s : goes_on s [] s
  | goes_op s o s1 log s2 : spares x o = true → run_op false s o = Some s1 → goes_on s1 log s2 → goes_on s log s2
  | goes_round s now s1 log1 log2 s2 :
      do_timer_actions callback (update_current_time s now) = Some (s1, log1) → goes_on s1 log2 s2 → goes_on s (log1 ++ log2) s2.

Lemma lost_forever s log s' : goes_on s log s' → service_ok s → lost x s → lost x s' ∧ x ∉ log.
Proof using Hcb Hspares.
  induction 1 as [s|s o s1 log s2 Ho E _ IH|s now s1 log1 log2 s2 E _ IH]; intros Hs Hl.
  - split; [done|apply not_elem_of_nil].
  - apply IH; [by eapply run_op_service|]. pose proof Hl as ([t Hw] & _). by eapply spared_lost; [eapply spared_op|..].
  - destruct (lost_in_round (update_current_time s now) s1 log1 (now_service s now Hs)) as [Hl1 Hx1]; [exact Hl|done|].
    destruct IH as [Hl2 Hx2]; [|done|]; [|split; [done|]; by rewrite elem_of_app; intros [?|?]].
    destruct (do_timer_actions_ok callback Hcb _ (now_service s now Hs)) as (? & s1' & ? & _ & E' & Hs' & _). congruence.
Qed.

(** C38: a timer that waits for a time a day or more ahead is lost in the first round that
    runs another timer's callback: it still counts as waiting but is in neither vector.
    From then on, while callbacks and other threads neither cancel nor destroy nor recreate
    it, whatever else they do and whenever rounds take place, it stays lost and its callback
    never runs; starting it again is among what they may do and does not help. *)
Theorem long_timer_lost s now s1 e s' log :
  reachable callback s → process_pending (now + cancel_delay) (update_current_time s now) = Some s1 →
  timers s1 !! x = Some e → state_ e = WAITING → now + cancel_delay <= next_trigger_time e →
  do_timer_actions callback (update_current_time s now) = Some (s', log) → log ≠ [] →
  lost x s' ∧ ∀ later s'', goes_on s' later s'' → lost x s'' ∧ x ∉ later.
Proof using Hcb Hspares.
  intros Hr E1 He Hw Ht E Hlog. pose proof (now_service s now (reachable_service callback s Hcb Hr)) as Hs.
  assert (lost x s') as Hl by (eapply dropped_from_round; [exact Hs|exact E1|by exists e|exact Ht|exact E|done]).
  split; [done|]. intros later s'' Hgo. apply (lost_forever _ _ _ Hgo); [|done].
  destruct (do_timer_actions_ok callback Hcb _ Hs) as (? & s1' & ? & _ & E' & Hs' & _). congruence.
Qed.

End losing.

Definition quiet_callback (id : Z) (s : service) : bool * list op := (false, []).

Lemma quiet_callback_ok : callback_ok quiet_callback.
Proof. intros id s _ Hid. by exists s. Qed.

Definition two_days : Z := 48 * 3600 * 1000000.

(** A timer of two days and one of a millisecond, both started; the service after it has
    taken them in at time 10, and after it has run the second one at 2 ms. *)
Definition long_timer : service :=
  Eval vm_compute in after_ops [OpCreate 1 true two_days 0; OpCreate 2 true 1000 0; OpRestart 1; OpRestart 2].

Definition long_waiting : service := Eval vm_compute in fst (ran_at quiet_callback (set_manipulation long_timer false) 10).

Lemma long_waiting_reachable : reachable quiet_callback long_waiting.
Proof.
  apply (reachable_step _ (set_manipulation long_timer false) []); [|apply (step_round _ _ 10); [done|done|vm_compute; reflexivity]].
  eapply reachable_step; [|by constructor].
  apply (reachable_ops _ create_service [OpCreate 1 true two_days 0; OpCreate 2 true 1000 0; OpRestart 1; OpRestart 2]);
    [constructor|done|vm_compute; reflexivity].
Qed.

Definition long_lost : service := Eval vm_compute in fst (ran_at quiet_callback long_waiting 2000000).

Lemma long_timer_lost_witness :
  lost 1 long_lost ∧ ∀ later s'', goes_on quiet_callback 1 long_lost later s'' → lost 1 s'' ∧ 1 ∉ later.
Proof.
  eapply (long_timer_lost quiet_callback quiet_callback_ok 1 (λ _ _, eq_refl) long_waiting 2000000).
  - exact long_waiting_reachable.
  - vm_compute. reflexivity.
  - vm_compute. reflexivity.
  - reflexivity.
  - vm_compute. discriminate.
  - vm_compute. reflexivity.
  - discriminate.
Defined.
