(* ===== verification/ReaderProxy.v ===== *)
(** * Reader proxies

    What a reliable writer keeps for each matched reader: [ChangeForReader_t]
    (include/fastdds/rtps/writer/ChangeForReader.h), the locators of the reader
    ([ReaderLocator], src/cpp/rtps/writer/ReaderLocator.cpp) and [ReaderProxy]
    (src/cpp/rtps/writer/ReaderProxy.cpp and .h).  The two timers of a proxy are
    [TimedEventImpl.t] values, as in a participant with an event service; what an
    operation does outside of the proxy is a list of effects.  Assertions stop the
    program unless it was built with NDEBUG. *)

From S2P Require Import Prelude.
From S2P Require Import SeqNum.
From S2P Require Import Bitmap.
From S2P Require Import Containers.
From S2P Require Import Guid.
From S2P Require Import Locator.
From S2P Require Import LocatorSelector.
From S2P Require Import TimedEvent.
From S2P Require Import CacheChange.
From S2P Require Import GapBuilder.
From S2P Require Import History.

(** ** A change as seen by one reader *)

Module ChangeForReader.
Import CacheChange.
Import BitmapRange.

Inductive ChangeForReaderStatus_t := UNSENT | REQUESTED | UNACKNOWLEDGED | ACKNOWLEDGED | UNDERWAY.

#[export] Instance status_eq_dec : EqDecision ChangeForReaderStatus_t.
Proof. solve_decision. Defined.

(** The value of the enumerator. *)
Definition status_value (s : ChangeForReaderStatus_t) : Z :=
  match s with UNSENT => 0 | REQUESTED => 1 | UNACKNOWLEDGED => 2 | ACKNOWLEDGED => 3 | UNDERWAY => 4 end.

Record ChangeForReader_t := mkCFR {
  status_ : ChangeForReaderStatus_t;
  seq_num_ : SN.SequenceNumber_t;
  change_ : CacheChange_t;
  unsent_fragments_ : FragmentNumberSet_t;
  delivered_ : bool
}.

Definition with_unsent (c : ChangeForReader_t) (u : FragmentNumberSet_t) : ChangeForReader_t :=
  mkCFR (status_ c) (seq_num_ c) (change_ c) u (delivered_ c).
Definition setStatus (c : ChangeForReader_t) (s : ChangeForReaderStatus_t) : ChangeForReader_t :=
  mkCFR s (seq_num_ c) (change_ c) (unsent_fragments_ c) (delivered_ c).
Definition set_delivered (c : ChangeForReader_t) : ChangeForReader_t :=
  mkCFR (status_ c) (seq_num_ c) (change_ c) (unsent_fragments_ c) true.

(** The fragment after the last. *)
Definition end_fragment (c : CacheChange_t) : Z := u32 (getFragmentCount c + 1).

(** The window of all fragments, as far as it reaches. *)
Definition all_fragments (u : FragmentNumberSet_t) (c : CacheChange_t) : FragmentNumberSet_t :=
  add_range (set_base u 1) 1 (end_fragment c).

(** [ChangeForReader_t(change)]. *)
Definition create (change : CacheChange_t) : ChangeForReader_t :=
  mkCFR UNSENT (sequenceNumber change) change
    (if negb (getFragmentSize change =? 0) then all_fragments default_range change else default_range) false.

Definition get_next_unsent_fragment (c : ChangeForReader_t) : Z :=
  if empty (unsent_fragments_ c) then end_fragment (change_ c) else min (unsent_fragments_ c).

Definition markAllFragmentsAsUnsent (c : ChangeForReader_t) : ChangeForReader_t :=
  if negb (getFragmentSize (change_ c) =? 0)
  then with_unsent c (all_fragments (unsent_fragments_ c) (change_ c)) else c.

(** [markFragmentsAsSent]: in the first round the window follows the fragments. *)
Definition markFragmentsAsSent (ndebug : bool) (c : ChangeForReader_t) (sentFragment : Z)
    : outcome ChangeForReader_t :=
  match remove (unsent_fragments_ c) sentFragment with
  | None => Undefined
  | Some u =>
      if negb (delivered_ c) && negb (empty u) && (max u <? getFragmentCount (change_ c)) then
        let mx := max u in
        assert_ ndebug (negb (is_set u (base u)));;
        let u := base_update u (min u) in
        mret (with_unsent c (add_range u (u32 (mx + 1)) (end_fragment (change_ c))))
      else mret (with_unsent c u)
  end.

(** [markFragmentsAsUnsent]: ignored in the first round. *)
Definition markFragmentsAsUnsent (c : ChangeForReader_t) (unsentFragments : FragmentNumberSet_t)
    : ChangeForReader_t :=
  if delivered_ c then
    if empty (unsent_fragments_ c) then with_unsent c unsentFragments
    else
      let u := unsent_fragments_ c in
      let u := if base unsentFragments <? base u then base_update u (base unsentFragments) else u in
      with_unsent c (foldl (λ u element, (add u element).2) u (for_each unsentFragments))
  else c.

End ChangeForReader.

(** ** The locators of a reader *)

Module ReaderLocator.
Import Guid Locator LocatorSelector.

(** The data of the remote reader a proxy reads ([ReaderProxyData]). *)
Inductive DurabilityKind_t := VOLATILE | TRANSIENT_LOCAL | TRANSIENT | PERSISTENT.

#[export] Instance durability_eq_dec : EqDecision DurabilityKind_t.
Proof. solve_decision. Defined.

Record ReaderProxyData := mkReaderData {
  rd_guid : GUID_t;
  rd_unicast : list Locator_t;
  rd_multicast : list Locator_t;
  rd_expects_inline_qos : bool;
  rd_durability : DurabilityKind_t;
  rd_best_effort : bool;
  rd_disable_positive_acks : bool
}.

(** [datasharing_enabled_]: there is a notifier and it is enabled. *)
Record ReaderLocator := mkLocator {
  general_locator_info_ : LocatorSelectorEntry;
  async_locator_info_ : LocatorSelectorEntry;
  loc_expects_inline_qos_ : bool;
  is_local_reader_ : bool;
  datasharing_enabled_ : bool
}.

Definition create (max_unicast_locators max_multicast_locators : Z) : ReaderLocator :=
  mkLocator (make_entry max_unicast_locators max_multicast_locators)
    (make_entry max_unicast_locators max_multicast_locators) false false false.

Definition set_remote (e : LocatorSelectorEntry) (g : GUID_t) : LocatorSelectorEntry :=
  mkEntry g (unicast e) (multicast e) (state_unicast e) (state_multicast e)
    (enabled e) (transport_should_process e).

Definition set_locators (e : LocatorSelectorEntry) (uni multi : list Locator_t) : LocatorSelectorEntry :=
  mkEntry (remote_guid e) (RLV.assign_vector (unicast e) uni) (RLV.assign_vector (multicast e) multi)
    (state_unicast e) (state_multicast e) (enabled e) (transport_should_process e).

Definition restart_entry (e : LocatorSelectorEntry) : LocatorSelectorEntry :=
  entry_enable (entry_reset e) true.

(** [start], for the writer [owner]. *)
Definition start (setting : IntraprocessDeliveryType) (owner : GUID_t) (l : ReaderLocator)
    (remote_guid_ : GUID_t) (uni multi : list Locator_t) (expects_inline_qos is_datasharing : bool)
    : bool * ReaderLocator :=
  if Guid.eqb (remote_guid (general_locator_info_ l)) c_Guid_Unknown then
    let local := should_intraprocess_between setting owner remote_guid_ in
    let is_datasharing := is_datasharing && negb local in
    let prepare e :=
      let e := set_remote e remote_guid_ in
      restart_entry (if negb local && negb is_datasharing then set_locators e uni multi else e) in
    (true, mkLocator (prepare (general_locator_info_ l)) (prepare (async_locator_info_ l))
             expects_inline_qos local (is_datasharing || datasharing_enabled_ l))
  else (false, l).

Definition update (l : ReaderLocator) (uni multi : list Locator_t) (expects_inline_qos : bool)
    : bool * ReaderLocator :=
  let changed := negb (Bool.eqb (loc_expects_inline_qos_ l) expects_inline_qos) in
  let g := general_locator_info_ l in
  let l := mkLocator g (async_locator_info_ l) expects_inline_qos (is_local_reader_ l) (datasharing_enabled_ l) in
  if bool_decide (RLV.collection_ (unicast g) = uni) && bool_decide (RLV.collection_ (multicast g) = multi)
  then (changed, l)
  else
    let prepare e :=
      restart_entry (if negb (is_local_reader_ l) && negb (datasharing_enabled_ l)
                     then set_locators e uni multi else e) in
    (true, mkLocator (prepare g) (prepare (async_locator_info_ l)) expects_inline_qos
             (is_local_reader_ l) (datasharing_enabled_ l)).

Definition stop_entry (e : LocatorSelectorEntry) : LocatorSelectorEntry :=
  let e := entry_reset (entry_enable e false) in
  mkEntry c_Guid_Unknown (RLV.clear (unicast e)) (RLV.clear (multicast e))
    (state_unicast e) (state_multicast e) (enabled e) (transport_should_process e).

Definition stop (l : ReaderLocator) : ReaderLocator :=
  mkLocator (stop_entry (general_locator_info_ l)) (stop_entry (async_locator_info_ l)) false false false.

Definition stop_guid (l : ReaderLocator) (g : GUID_t) : bool * ReaderLocator :=
  if Guid.eqb (remote_guid (general_locator_info_ l)) g then (true, stop l) else (false, l).

(** [send]: the locators handed to [sendSync], [None] when nothing is sent. *)
Definition send (l : ReaderLocator) : option (list Locator_t) :=
  if Guid.neqb (remote_guid (general_locator_info_ l)) c_Guid_Unknown && negb (is_local_reader_ l) then
    Some (if 0 <? RLV.size (unicast (general_locator_info_ l))
          then RLV.collection_ (unicast (general_locator_info_ l))
          else RLV.collection_ (multicast (general_locator_info_ l)))
  else None.

End ReaderLocator.

(** ** The proxy *)

Module ReaderProxy.
Import CacheChange.
Import ChangeForReader.
Import ReaderLocator.

Inductive Timer := nack_supression_timer | initial_heartbeat_timer.

(** What the operations do outside of the proxy. *)
Inductive Effect :=
  (** [TimedEvent::restart_timer] or [cancel_timer] notified the event service. *)
  | Notify (t : Timer)
  (** [writer_->intraprocess_gap(this, seq_num)]. *)
  | IntraprocessGap (seq_num : SN.SequenceNumber_t).

Record ReaderProxy := mkProxy {
  is_active_ : bool;
  locator_info_ : ReaderLocator;
  durability_kind_ : DurabilityKind_t;
  expects_inline_qos_ : bool;
  is_reliable_ : bool;
  disable_positive_acks_ : bool;
  changes_for_reader_ : RLV.t ChangeForReader_t;
  nack_supression_event_ : TimedEventImpl.t;
  initial_heartbeat_event_ : TimedEventImpl.t;
  timers_enabled_ : bool;
  next_expected_acknack_count_ : Z;
  last_nackfrag_count_ : Z;
  changes_low_mark_ : SN.SequenceNumber_t;
  active_ : bool
}.

Definition changes (p : ReaderProxy) : list ChangeForReader_t := RLV.collection_ (changes_for_reader_ p).

Definition with_low_mark (p : ReaderProxy) (m : SN.SequenceNumber_t) : ReaderProxy :=
  mkProxy (is_active_ p) (locator_info_ p) (durability_kind_ p) (expects_inline_qos_ p) (is_reliable_ p)
    (disable_positive_acks_ p) (changes_for_reader_ p) (nack_supression_event_ p)
    (initial_heartbeat_event_ p) (timers_enabled_ p) (next_expected_acknack_count_ p)
    (last_nackfrag_count_ p) m (active_ p).

Definition with_vector (p : ReaderProxy) (v : RLV.t ChangeForReader_t) : ReaderProxy :=
  mkProxy (is_active_ p) (locator_info_ p) (durability_kind_ p) (expects_inline_qos_ p) (is_reliable_ p)
    (disable_positive_acks_ p) v (nack_supression_event_ p)
    (initial_heartbeat_event_ p) (timers_enabled_ p) (next_expected_acknack_count_ p)
    (last_nackfrag_count_ p) (changes_low_mark_ p) (active_ p).

Definition with_changes (p : ReaderProxy) (l : list ChangeForReader_t) : ReaderProxy :=
  with_vector p (RLV.with_items (changes_for_reader_ p) l).

Definition with_timers (p : ReaderProxy) (nack hb : TimedEventImpl.t) (on : bool) : ReaderProxy :=
  mkProxy (is_active_ p) (locator_info_ p) (durability_kind_ p) (expects_inline_qos_ p) (is_reliable_ p)
    (disable_positive_acks_ p) (changes_for_reader_ p) nack hb on (next_expected_acknack_count_ p)
    (last_nackfrag_count_ p) (changes_low_mark_ p) (active_ p).

Definition with_counts (p : ReaderProxy) (acknack nackfrag : Z) : ReaderProxy :=
  mkProxy (is_active_ p) (locator_info_ p) (durability_kind_ p) (expects_inline_qos_ p) (is_reliable_ p)
    (disable_positive_acks_ p) (changes_for_reader_ p) (nack_supression_event_ p)
    (initial_heartbeat_event_ p) (timers_enabled_ p) acknack nackfrag (changes_low_mark_ p) (active_ p).

Definition with_active (p : ReaderProxy) (active : bool) : ReaderProxy :=
  mkProxy (is_active_ p) (locator_info_ p) (durability_kind_ p) (expects_inline_qos_ p) (is_reliable_ p)
    (disable_positive_acks_ p) (changes_for_reader_ p) (nack_supression_event_ p)
    (initial_heartbeat_event_ p) (timers_enabled_ p) (next_expected_acknack_count_ p)
    (last_nackfrag_count_ p) (changes_low_mark_ p) active.

Definition with_locator (p : ReaderProxy) (l : ReaderLocator) : ReaderProxy :=
  mkProxy (is_active_ p) l (durability_kind_ p) (expects_inline_qos_ p) (is_reliable_ p)
    (disable_positive_acks_ p) (changes_for_reader_ p) (nack_supression_event_ p)
    (initial_heartbeat_event_ p) (timers_enabled_ p) (next_expected_acknack_count_ p)
    (last_nackfrag_count_ p) (changes_low_mark_ p) (active_ p).

Definition is_local_reader (p : ReaderProxy) : bool := is_local_reader_ (locator_info_ p).
Definition is_datasharing_reader (p : ReaderProxy) : bool := datasharing_enabled_ (locator_info_ p).
Definition guid (p : ReaderProxy) : Guid.GUID_t :=
  LocatorSelector.remote_guid (general_locator_info_ (locator_info_ p)).

Definition is_remote_and_reliable (p : ReaderProxy) : bool :=
  negb (is_local_reader p) && negb (is_datasharing_reader p) && is_reliable_ p.

(** *** Timers *)

Definition notified (t : Timer) (notify : bool) : list Effect := if notify then [Notify t] else [].

Definition restart_nack_supression (p : ReaderProxy) : list Effect * ReaderProxy :=
  let '(notify, t) := TimedEventImpl.go_ready (nack_supression_event_ p) in
  (notified nack_supression_timer notify, with_timers p t (initial_heartbeat_event_ p) (timers_enabled_ p)).

Definition disable_timers (p : ReaderProxy) : list Effect * ReaderProxy :=
  let '(n1, t1) := if timers_enabled_ p then TimedEventImpl.go_cancel (nack_supression_event_ p)
                   else (false, nack_supression_event_ p) in
  let '(n2, t2) := TimedEventImpl.go_cancel (initial_heartbeat_event_ p) in
  (notified nack_supression_timer n1 ++ notified initial_heartbeat_timer n2, with_timers p t1 t2 false).

Definition update_nack_supression_interval (p : ReaderProxy) (us : Z) : ReaderProxy :=
  with_timers p (TimedEventImpl.update_interval_us (nack_supression_event_ p) us)
    (initial_heartbeat_event_ p) (timers_enabled_ p).

(** *** Searching *)

Definition change_less_than_sequence (seq_num : SN.SequenceNumber_t) (c : ChangeForReader_t) : bool :=
  SN.ltb (seq_num_ c) seq_num.

(** [find_change]: an index of the changes, their number for the end. *)
Definition find_change (p : ReaderProxy) (seq_num : SN.SequenceNumber_t) (exact : bool) : outcome nat :=
  it ← History.lower_bound (change_less_than_sequence seq_num) (changes p);
  mret (if exact then
          match changes p !! it with
          | Some c => if SN.eqb (seq_num_ c) seq_num then it else length (changes p)
          | None => it
          end
        else it).

(** The change an iterator points to, if it is not the end. *)
Definition lookup_change (p : ReaderProxy) (seq_num : SN.SequenceNumber_t)
    : outcome (option (nat * ChangeForReader_t)) :=
  it ← find_change p seq_num true;
  mret (match changes p !! it with Some c => Some (it, c) | None => None end).

Definition set_change (p : ReaderProxy) (it : nat) (c : ChangeForReader_t) : ReaderProxy :=
  with_changes p (<[it := c]> (changes p)).

Definition has_changes (p : ReaderProxy) : bool := negb (RLV.empty (changes_for_reader_ p)).

Definition change_is_acked (p : ReaderProxy) (seq_num : SN.SequenceNumber_t) : outcome bool :=
  if SN.leb seq_num (changes_low_mark_ p) || RLV.empty (changes_for_reader_ p) then mret true
  else
    found ← lookup_change p seq_num;
    mret (match found with
          | Some (_, c) => bool_decide (status_ c = ACKNOWLEDGED)
          | None => true
          end).

(** What [change_is_unsent] tells of a change: the next fragment to send, the
    start of the hole before it, and whether heartbeats are needed. *)
Record Unsent := mkUnsent {
  next_unsent_frag : Z;
  gap_seq : SN.SequenceNumber_t;
  need_reactivate_periodic_heartbeat : bool
}.

Definition gap_before (p : ReaderProxy) (it : nat) (c : ChangeForReader_t)
    (seq_num min_seq : SN.SequenceNumber_t) : SN.SequenceNumber_t :=
  let before := match it with
                | O => changes_low_mark_ p
                | S i => from_option seq_num_ (changes_low_mark_ p) (changes p !! i)
                end in
  let prev := SN.add_u32 before 1 in
  if SN.neqb prev (seq_num_ c) then
    if SN.ltb prev min_seq then if SN.ltb min_seq seq_num then min_seq else SN.unknown
    else prev
  else SN.unknown.

Definition change_is_unsent (p : ReaderProxy) (seq_num min_seq : SN.SequenceNumber_t)
    : outcome (option Unsent) :=
  if SN.leb seq_num (changes_low_mark_ p) || RLV.empty (changes_for_reader_ p) then mret None
  else
    found ← lookup_change p seq_num;
    mret (match found with
          | Some (it, c) =>
              if bool_decide (status_ c = UNSENT) then
                let first := is_reliable_ p && negb (delivered_ c) in
                Some (mkUnsent (get_next_unsent_fragment c)
                        (if first then gap_before p it c seq_num min_seq else SN.unknown) first)
              else None
          | None => None
          end).

Definition has_unacknowledged (p : ReaderProxy) (first_seq_in_history : SN.SequenceNumber_t) : bool :=
  SN.gtb first_seq_in_history (changes_low_mark_ p)
  || existsb (λ c, bool_decide (status_ c = UNACKNOWLEDGED)) (changes p).

(** [has_been_delivered]: the answer and [found]. *)
Definition has_been_delivered (p : ReaderProxy) (seq_number : SN.SequenceNumber_t) (found : bool)
    : outcome (bool * bool) :=
  if SN.leb seq_number (changes_low_mark_ p) then mret (true, found)
  else
    c ← lookup_change p seq_number;
    mret (match c with Some (_, c) => (delivered_ c, true) | None => (false, found) end).

(** *** Acknowledging *)

(** How many changes in a row from [future_low_mark] on are acknowledged, and the
    number after them. *)
Fixpoint skip_acked (l : list ChangeForReader_t) (future_low_mark : SN.SequenceNumber_t)
    : nat * SN.SequenceNumber_t :=
  match l with
  | c :: l =>
      if SN.eqb (seq_num_ c) future_low_mark && bool_decide (status_ c = ACKNOWLEDGED) then
        let '(n, m) := skip_acked l (SN.incr future_low_mark) in (S n, m)
      else (0%nat, future_low_mark)
  | [] => (0%nat, future_low_mark)
  end.

(** The number after the consecutive changes that are in the collection. *)
Fixpoint skip_present (l : list ChangeForReader_t) (current low : SN.SequenceNumber_t)
    : SN.SequenceNumber_t :=
  match l with
  | c :: l =>
      if SN.leb current low && SN.eqb (seq_num_ c) current
      then skip_present l (SN.incr current) low else current
  | [] => current
  end.

Section Writer.
Context {W : Type} `{!WriterHistory.WriterInfo W}.
Implicit Types h : WriterHistory.WriterHistory W.

(** The loop that puts the changes of the history up to the low mark back. *)
Fixpoint replay (fuel : nat) h (p : ReaderProxy) (current : SN.SequenceNumber_t) (should_sort : bool)
    : outcome (ReaderProxy * bool) :=
  if SN.leb current (changes_low_mark_ p) then
    match fuel with
    | O => Unfinished
    | S fuel =>
        it ← find_change p current true;
        let current := skip_present (drop it (changes p)) current (changes_low_mark_ p) in
        let change :=
          if SN.leb current (changes_low_mark_ p)
          then History.get_change (WriterHistory.hist h) current
                 (WriterHistory.getGuid (WriterHistory.mp_writer h))
          else None in
        match change with
        | Some change =>
            let cr := setStatus (ChangeForReader.create change) UNACKNOWLEDGED in
            replay fuel h (with_vector p (RLV.push_back (changes_for_reader_ p) cr).2)
              (SN.incr current) true
        | None => replay fuel h p (SN.incr current) should_sort
        end
    end
  else mret (p, should_sort).

Definition acked_changes_set h (p : ReaderProxy) (seq_num : SN.SequenceNumber_t) : outcome ReaderProxy :=
  if SN.gtb seq_num (changes_low_mark_ p) then
    chit ← find_change p seq_num false;
    let '(n, future_low_mark) := skip_acked (drop chit (changes p)) seq_num in
    mret (with_low_mark (with_changes p (drop (chit + n) (changes p))) (SN.sub_u32 future_low_mark 1))
  else
    let future_low_mark := SN.add_u32 (changes_low_mark_ p) 1 in
    if SN.eqb seq_num SN.default && negb (bool_decide (durability_kind_ p = VOLATILE)) then
      let min_sequence := WriterHistory.get_seq_num_min h in
      if SN.neqb min_sequence SN.unknown then
        let current := if SN.ltb seq_num min_sequence then min_sequence else seq_num in
        let fuel := Z.to_nat (SN.val (changes_low_mark_ p) - SN.val current + 1) in
        st ← replay fuel h p current false;
        let '(p, should_sort) := (st : ReaderProxy * bool) in
        let p := if should_sort
                 then with_changes p (sort_by (λ c, SN.val (seq_num_ c)) (changes p)) else p in
        mret (with_low_mark p (SN.sub_u32 current 1))
      else
        let future_low_mark :=
          if negb (is_local_reader p) then WriterHistory.next_sequence_number h else future_low_mark in
        mret (with_low_mark p (SN.sub_u32 future_low_mark 1))
    else mret (with_low_mark p (SN.sub_u32 future_low_mark 1)).

(** *** Life cycle *)

Definition stop (p : ReaderProxy) : list Effect * ReaderProxy :=
  let p := mkProxy false (ReaderLocator.stop (locator_info_ p)) (durability_kind_ p) (expects_inline_qos_ p)
    (is_reliable_ p) (disable_positive_acks_ p) (changes_for_reader_ p) (nack_supression_event_ p)
    (initial_heartbeat_event_ p) (timers_enabled_ p) (next_expected_acknack_count_ p)
    (last_nackfrag_count_ p) (changes_low_mark_ p) (active_ p) in
  let '(effects, p) := disable_timers p in
  (effects, with_low_mark (with_counts (with_vector p (RLV.clear (changes_for_reader_ p))) 0 0) SN.default).

(** [resource_limits_from_history] with an increment of zero. *)
Definition resource_limits_from_history (att : History.HistoryAttributes) : RLV.config :=
  let initial := History.initialReservedCaches att in
  let maximum := History.maximumReservedCaches att in
  if (0 <? maximum) && (initial =? maximum) then RLV.fixed_size_configuration maximum
  else RLV.mkConfig (if 0 <? initial then initial else 0)
         (if 0 <? maximum then maximum else RLV.SIZE_MAX) 1.

(** The constructor, at time [now]. *)
Definition create_proxy h (max_unicast max_multicast nack_supression_us now : Z) : ReaderProxy :=
  (stop (mkProxy false (ReaderLocator.create max_unicast max_multicast) VOLATILE false false false
    (RLV.make (resource_limits_from_history (History.m_att (WriterHistory.hist h))))
    (TimedEventImpl.create true nack_supression_us now) (TimedEventImpl.create true 0 now)
    false 0 0 SN.default false)).2.

Definition start (setting : Guid.IntraprocessDeliveryType) h (p : ReaderProxy)
    (reader_attributes : ReaderProxyData) (is_datasharing : bool) : outcome (list Effect * ReaderProxy) :=
  let '(_, loc) := ReaderLocator.start setting (WriterHistory.getGuid (WriterHistory.mp_writer h))
    (locator_info_ p) (rd_guid reader_attributes) (rd_unicast reader_attributes)
    (rd_multicast reader_attributes) (rd_expects_inline_qos reader_attributes) is_datasharing in
  let p := mkProxy true loc (rd_durability reader_attributes) (rd_expects_inline_qos reader_attributes)
    (negb (rd_best_effort reader_attributes)) (rd_disable_positive_acks reader_attributes)
    (changes_for_reader_ p) (nack_supression_event_ p) (initial_heartbeat_event_ p) (timers_enabled_ p)
    (next_expected_acknack_count_ p) (last_nackfrag_count_ p) (changes_low_mark_ p) (active_ p) in
  p ← (if bool_decide (durability_kind_ p = VOLATILE) then
         let min_sequence := WriterHistory.get_seq_num_min h in
         mret (with_low_mark p (if SN.eqb min_sequence SN.unknown
                                then SN.sub_u32 (WriterHistory.next_sequence_number h) 1
                                else SN.sub_u32 min_sequence 1))
       else acked_changes_set h p SN.default);
  let p := with_timers p (nack_supression_event_ p) (initial_heartbeat_event_ p) (is_remote_and_reliable p) in
  if is_local_reader p then
    let '(notify, t) := TimedEventImpl.go_ready (initial_heartbeat_event_ p) in
    mret (notified initial_heartbeat_timer notify,
          with_timers p (nack_supression_event_ p) t (timers_enabled_ p))
  else mret ([], p).

Definition update (p : ReaderProxy) (reader_attributes : ReaderProxyData) : ReaderProxy :=
  mkProxy (is_active_ p)
    (ReaderLocator.update (locator_info_ p) (rd_unicast reader_attributes)
       (rd_multicast reader_attributes) (rd_expects_inline_qos reader_attributes)).2
    (rd_durability reader_attributes) (rd_expects_inline_qos reader_attributes)
    (negb (rd_best_effort reader_attributes)) (rd_disable_positive_acks reader_attributes)
    (changes_for_reader_ p) (nack_supression_event_ p) (initial_heartbeat_event_ p) (timers_enabled_ p)
    (next_expected_acknack_count_ p) (last_nackfrag_count_ p) (changes_low_mark_ p) (active_ p).

(** *** Changes *)

(** [add_change] without the timer. *)
Definition push_change (ndebug : bool) (p : ReaderProxy) (change : ChangeForReader_t) (is_relevant : bool)
    : outcome ReaderProxy :=
  assert_ ndebug (SN.gtb (seq_num_ change) (changes_low_mark_ p));;
  assert_ ndebug (match last (changes p) with
                  | Some back => SN.gtb (seq_num_ change) (seq_num_ back)
                  | None => true
                  end);;
  if negb is_relevant then
    mret (if negb (is_reliable_ p) && SN.eqb (SN.add_u32 (changes_low_mark_ p) 1) (seq_num_ change)
          then with_low_mark p (seq_num_ change) else p)
  else
    let '(ok, v) := RLV.push_back (changes_for_reader_ p) change in
    assert_ ndebug ok;;
    mret (with_vector p v).

Definition add_change (ndebug : bool) (p : ReaderProxy) (change : ChangeForReader_t)
    (is_relevant restart : bool) : outcome (list Effect * ReaderProxy) :=
  let '(effects, p) := if restart && timers_enabled_ p then restart_nack_supression p else ([], p) in
  p ← push_change ndebug p change is_relevant; mret (effects, p).

(** [requested_changes_set]: the changes of one number of the set. *)
Definition request_change {G} `{GapSink G} (min_seq_in_history : SN.SequenceNumber_t)
    (st : outcome (bool * ReaderProxy * GapBuilder.RTPSGapBuilder G)) (sit : SN.SequenceNumber_t)
    : outcome (bool * ReaderProxy * GapBuilder.RTPSGapBuilder G) :=
  '(some, p, gap_builder) ← st;
  found ← lookup_change p sit;
  match found with
  | Some (chit, c) =>
      if bool_decide (status_ c = UNACKNOWLEDGED)
      then mret (true, set_change p chit (markAllFragmentsAsUnsent (setStatus c REQUESTED)), gap_builder)
      else mret (some, p, gap_builder)
  | None =>
      if SN.geb sit min_seq_in_history && SN.gtb sit (changes_low_mark_ p)
      then mret (some, p, (GapBuilder.add gap_builder sit).2)
      else mret (some, p, gap_builder)
  end.

Definition requested_changes_set {G} `{GapSink G} (p : ReaderProxy) (seq_num_set : SequenceNumberSet_t)
    (gap_builder : GapBuilder.RTPSGapBuilder G) (min_seq_in_history : SN.SequenceNumber_t)
    : outcome (bool * ReaderProxy * GapBuilder.RTPSGapBuilder G) :=
  if SN.neqb SN.unknown min_seq_in_history then
    foldl (request_change min_seq_in_history) (mret (false, p, gap_builder))
      (BitmapRange.for_each seq_num_set)
  else mret (false, p, gap_builder).

(** The changes converted, as they are handed to the callback, and the proxy. *)
Definition convert_status_on_all_changes (ndebug : bool) (p : ReaderProxy)
    (previous next : ChangeForReaderStatus_t) : outcome (list ChangeForReader_t * ReaderProxy) :=
  assert_ ndebug (status_value next <? status_value previous);;
  let convert c := if bool_decide (status_ c = previous) then setStatus c next else c in
  mret ((λ c, setStatus c next) <$> filter (λ c, status_ c = previous) (changes p),
        with_changes p (convert <$> changes p)).

Definition perform_nack_supression (ndebug : bool) (p : ReaderProxy) : outcome (bool * ReaderProxy) :=
  '(changed, p) ← convert_status_on_all_changes ndebug p UNDERWAY UNACKNOWLEDGED;
  mret (negb (u32 (Z.of_nat (length changed)) =? 0), p).

Definition perform_acknack_response (ndebug : bool) (p : ReaderProxy)
    : outcome (list ChangeForReader_t * ReaderProxy) :=
  convert_status_on_all_changes ndebug p REQUESTED UNSENT.

(** [process_initial_acknack]: the answer and the changes handed to the callback. *)
Definition process_initial_acknack (ndebug : bool) (p : ReaderProxy)
    : outcome (bool * list ChangeForReader_t * ReaderProxy) :=
  if is_local_reader p then
    '(changed, p) ← convert_status_on_all_changes ndebug p UNACKNOWLEDGED UNSENT;
    mret (negb (u32 (Z.of_nat (length changed)) =? 0), changed, p)
  else mret (true, [], p).

Definition from_unsent_to_status (ndebug : bool) h (p : ReaderProxy) (seq_num : SN.SequenceNumber_t)
    (status : ChangeForReaderStatus_t) (restart delivered : bool) : outcome (list Effect * ReaderProxy) :=
  assert_ ndebug (is_reliable_ p);;
  '(effects, p) ← (if restart && is_remote_and_reliable p
                   then assert_ ndebug (timers_enabled_ p);; mret (restart_nack_supression p)
                   else mret ([], p));
  assert_ ndebug (SN.gtb seq_num (changes_low_mark_ p));;
  found ← lookup_change p seq_num;
  assert_ ndebug (bool_decide (is_Some found));;
  match found with
  | None => Undefined
  | Some (it, c) =>
      assert_ ndebug (bool_decide (status_ c = UNSENT));;
      assert_ ndebug (negb (bool_decide (status = UNSENT)));;
      if bool_decide (status = ACKNOWLEDGED) && SN.eqb seq_num (SN.add_u32 (changes_low_mark_ p) 1) then
        assert_ ndebug (it =? 0)%nat;;
        p ← acked_changes_set h (with_changes p (delete it (changes p))) (SN.add_u32 seq_num 1);
        mret (effects, p)
      else
        let c := setStatus c status in
        mret (effects, set_change p it (if delivered then set_delivered c else c))
  end.

(** [mark_fragment_as_sent_for_change]: whether the change was found, and whether
    this was the last fragment. *)
Definition mark_fragment_as_sent_for_change (ndebug : bool) (p : ReaderProxy)
    (seq_num : SN.SequenceNumber_t) (frag_num : Z) : outcome (bool * bool * ReaderProxy) :=
  if SN.leb seq_num (changes_low_mark_ p) then mret (false, false, p)
  else
    found ← lookup_change p seq_num;
    match found with
    | Some (it, c) =>
        c ← markFragmentsAsSent ndebug c frag_num;
        mret (true, BitmapRange.empty (unsent_fragments_ c), set_change p it c)
    | None => mret (false, false, p)
    end.

Definition change_has_been_removed h (p : ReaderProxy) (seq_num : SN.SequenceNumber_t)
    : outcome (list Effect * ReaderProxy) :=
  match changes p with
  | [] => mret ([], p)
  | first :: _ =>
      if SN.ltb seq_num (seq_num_ first) then mret ([], p)
      else
        found ← lookup_change p seq_num;
        match found with
        | None => mret ([], p)
        | Some (chit, c) =>
            let effects := if is_local_reader p && (status_value (status_ c) <? status_value ACKNOWLEDGED)
                           then [IntraprocessGap seq_num] else [] in
            let p := with_changes p (delete chit (changes p)) in
            if SN.eqb (SN.add_u32 (changes_low_mark_ p) 1) seq_num
            then p ← acked_changes_set h p (SN.add_u32 seq_num 1); mret (effects, p)
            else mret (effects, p)
        end
  end.

Definition requested_fragment_set (p : ReaderProxy) (seq_num : SN.SequenceNumber_t)
    (frag_set : FragmentNumberSet_t) : outcome (bool * ReaderProxy) :=
  found ← lookup_change p seq_num;
  match found with
  | None => mret (false, p)
  | Some (it, c) =>
      let c := markFragmentsAsUnsent c frag_set in
      mret (true, set_change p it (if bool_decide (status_ c = UNSENT) then c else setStatus c REQUESTED))
  end.

Definition process_nack_frag (p : ReaderProxy) (reader_guid : Guid.GUID_t) (nack_count : Z)
    (seq_num : SN.SequenceNumber_t) (fragments_state : FragmentNumberSet_t) : outcome (bool * ReaderProxy) :=
  if Guid.eqb (guid p) reader_guid && (last_nackfrag_count_ p <? nack_count)
  then requested_fragment_set (with_counts p (next_expected_acknack_count_ p) nack_count) seq_num fragments_state
  else mret (false, p).

Definition check_and_set_acknack_count (p : ReaderProxy) (acknack_count : Z) : bool * ReaderProxy :=
  if next_expected_acknack_count_ p <=? acknack_count
  then (true, with_counts p (u32 (acknack_count + 1)) (last_nackfrag_count_ p)) else (false, p).

End Writer.
End ReaderProxy.
