(* ===== verification/ReaderProxyFacts.v ===== *)
(** * What a writer may rely on in its reader proxies

    The order in which the fragments of a change are sent; the searches of a
    proxy and the invariant they need; acknowledgements, requests and holes; and
    what a fragment number that no fragment has leads to. *)

From S2P Require Import Prelude.
From S2P Require Import SeqNum.
From S2P Require Import Bitmap.
From S2P Require Import BitmapFacts.
From S2P Require Import Containers.
From S2P Require Import Guid.
From S2P Require Import CacheChange.
From S2P Require Import GapBuilder.
From S2P Require Import History.
From S2P Require Import HistoryFacts.
From S2P Require Import TimedEvent.
From S2P Require Import ReaderProxy.
From stdpp Require Import gmap relations.
#[local] Open Scope Z_scope.

(** ** Fragments *)

Module FragmentWindow.
Import CacheChange ChangeForReader BitmapRange.

(** [lia] on fragment numbers. *)
Ltac frag_lia := simpl in *; unfold FragmentNumber_t, NBITS in *; lia.

(** Fragments [k + 1] up to [n] wait to be sent, as far as a window reaches; a
    window that does not reach the end starts at the next of them. *)
Record window (n k : Z) (c : ChangeForReader_t) : Prop := {
  w_first : delivered_ c = false;
  w_count : getFragmentCount (change_ c) = n;
  w_exact : exact (unsent_fragments_ c);
  w_base : 1 <= base_ (unsent_fragments_ c) <= k + 1;
  w_mem x : mem (unsent_fragments_ c) x ↔ k < x <= n ∧ x < base_ (unsent_fragments_ c) + NBITS;
  w_reach : base_ (unsent_fragments_ c) + NBITS <= n → base_ (unsent_fragments_ c) = k + 1
}.

Lemma end_fragment_val n c : getFragmentCount c = n → 0 <= n < 2 ^ 32 - 1 → end_fragment c = n + 1.
Proof. intros E Hn. unfold end_fragment. rewrite E. apply u32_small. range_unfold. lia. Qed.

Lemma window_create c n :
  getFragmentSize c ≠ 0 → getFragmentCount c = n → 0 <= n < 2 ^ 32 - 1 →
  window n 0 (create c).
Proof.
  intros Hsize Hn Hrange. unfold create. apply Z.eqb_neq in Hsize. rewrite Hsize. cbn [negb].
  unfold all_fragments. rewrite set_base_make, (end_fragment_val n) by done.
  destruct (make_spec (1 : FragmentNumber_t)) as (Hex & Hb & Hfull & Hno);
    [split; simpl; [range_unfold|unfold NBITS]; lia|].
  destruct (add_range_spec (make (1 : FragmentNumber_t)) 1 (n + 1)) as (_ & Hb' & _ & Hex' & Hmem);
    [apply Hex|simpl; range_unfold; lia..|].
  constructor; simpl; [done|done|by apply Hex'|rewrite Hb'; simpl; lia| |rewrite Hb'; simpl; lia].
  intros x. rewrite Hmem, Hb'. simpl. specialize (Hno x). simpl. intuition lia.
Qed.

Lemma window_next n k c :
  window n k c → 0 <= k <= n → n < 2 ^ 32 - 1 →
  get_next_unsent_fragment c = k + 1 ∧ (empty (unsent_fragments_ c) = true ↔ k = n).
Proof.
  intros Hw Hk Hn. pose proof (w_exact _ _ _ Hw) as Hex. pose proof (w_base _ _ _ Hw) as Hb.
  pose proof (w_mem _ _ _ Hw) as Hmem. pose proof (w_reach _ _ _ Hw) as Hreach.
  assert (k < n → mem (unsent_fragments_ c) (k + 1)) as Hnext.
  { intros Hlt. apply Hmem. split; [lia|]. unfold NBITS in *. lia. }
  assert (empty (unsent_fragments_ c) = true ↔ k = n) as Hempty.
  { rewrite empty_spec by done. split.
    - intros Hno. destruct (decide (k = n)); [done|]. destruct (Hno (k + 1)). apply Hnext. lia.
    - intros -> x Hx. apply Hmem in Hx. lia. }
  split; [|done]. unfold get_next_unsent_fragment.
  destruct (empty (unsent_fragments_ c)) eqn:E.
  - rewrite (proj1 Hempty eq_refl), (end_fragment_val n); [done|apply Hw|lia].
  - assert (k ≠ n) by (intros F; apply Hempty in F; done).
    destruct (min_spec (unsent_fragments_ c)) as [Hin Hle]; [apply Hex|exists (k + 1); apply Hnext; lia|].
    simpl in Hin, Hle. apply Hmem in Hin. specialize (Hle (k + 1)). specialize (Hnext ltac:(lia)).
    specialize (Hle Hnext). lia.
Qed.

(** The running window: after fragment [k + 1], the first of a window that does
    not reach the end, the window starts at the next. *)
Lemma window_slide n k c u :
  delivered_ c = false → getFragmentCount (change_ c) = n → 0 <= k → n + NBITS < 2 ^ 32 - 1 →
  exact u → base_ u = k + 1 → max u = k + NBITS → k + NBITS < n →
  (∀ x, mem u x ↔ k + 1 < x <= k + NBITS) →
  negb (is_set u (base u)) = true ∧
  window n (k + 1) (with_unsent c (add_range (base_update u (min u)) (u32 (max u + 1)) (end_fragment (change_ c)))).
Proof.
  intros Hfirst Hcount Hk Hn Hexu Hbu Hmax Hlong Hu.
  assert (mem u (k + 2)) as Hin2 by (apply Hu; frag_lia). split.
  - apply negb_true_iff, not_true_is_false. intros Hset.
    apply is_set_spec in Hset as [Hset _]; [|apply Hexu|apply Hexu]. unfold base in Hset. simpl in Hset.
    apply Hu in Hset. frag_lia.
  - assert (min u = k + 2) as ->.
    { destruct (min_spec u) as [Hin Hle]; [apply Hexu|by exists (k + 2)|].
      specialize (Hle (k + 2) Hin2). apply Hu in Hin. frag_lia. }
    rewrite Hmax, (end_fragment_val n), u32_small by (done || range_unfold; frag_lia).
    destruct (base_update_spec u (k + 2)) as (_ & Hb2 & Hmem2 & Hex2);
      [apply Hexu|split; simpl; [range_unfold|]; frag_lia|frag_lia|].
    assert (exact (base_update u (k + 2))) as Hex2' by (apply Hex2; [done|right; frag_lia]).
    destruct (add_range_spec (base_update u (k + 2)) (k + NBITS + 1) (n + 1)) as (_ & Hb3 & _ & Hex3 & Hmem3);
      [apply Hex2'|simpl; range_unfold; frag_lia..|].
    specialize (Hex3 Hex2'). rewrite Hb2 in Hb3, Hmem3.
    constructor; simpl; [done..|clear -Hb3 Hk; frag_lia| |clear -Hb3; frag_lia].
    intros x. rewrite Hmem3, Hmem2, Hu. clear -Hlong Hb3. frag_lia.
Qed.

Lemma window_sent ndebug n k c :
  window n k c → 0 <= k < n → n + NBITS < 2 ^ 32 - 1 →
  ∃ c', markFragmentsAsSent ndebug c (k + 1) = Done c' ∧ window n (k + 1) c' ∧ change_ c' = change_ c.
Proof.
  intros Hw Hk Hn. pose proof Hw as [Hfirst Hcount Hex Hb Hmem Hreach].
  assert (empty (unsent_fragments_ c) = false) as Hne.
  { apply not_true_is_false. rewrite (proj2 (window_next n k c Hw ltac:(lia) ltac:(frag_lia))). lia. }
  unfold markFragmentsAsSent.
  destruct (remove_spec (unsent_fragments_ c) (k + 1)) as (u & -> & Hexu & Hbu & _ & Hmemu);
    [done|done|simpl; range_unfold; frag_lia|].
  rewrite Hfirst, Hcount. cbn [negb andb].
  assert (∀ x, mem u x ↔ k + 1 < x <= n ∧ x < base_ (unsent_fragments_ c) + NBITS) as Hu.
  { intros x. rewrite Hmemu, Hmem. clear. frag_lia. }
  destruct (decide (base_ (unsent_fragments_ c) + NBITS <= n)) as [Hlong|Hshort].
  - specialize (Hreach Hlong). assert (mem u (k + NBITS)) as Hin by (apply Hu; frag_lia).
    assert (empty u = false) as Hneu.
    { apply not_true_is_false. rewrite empty_spec by done. intros Hno. by apply (Hno (k + NBITS)). }
    assert (max u = k + NBITS) as Hmax.
    { destruct (max_spec u Hexu Hneu) as [Hmaxin Hmaxle]. specialize (Hmaxle _ Hin).
      apply Hu in Hmaxin. frag_lia. }
    assert (base_ u = k + 1) as Hbase by (rewrite Hbu; exact Hreach).
    assert (∀ x, mem u x ↔ k + 1 < x <= k + NBITS) as Hu' by (intros x; rewrite Hu; frag_lia).
    destruct (window_slide n k c u) as [Hset Hw']; try done; try frag_lia.
    rewrite Hneu. cbn [negb andb].
    replace (max u <? n) with true by (symmetry; apply Z.ltb_lt; frag_lia).
    rewrite assert_true by exact Hset. cbn [mbind outcome_bind].
    eexists. split; [reflexivity|]. split; [exact Hw'|done].
  - replace (negb (empty u) && (max u <? n)) with false.
    { eexists. split; [reflexivity|]. split; [|done]. constructor; simpl; rewrite ?Hbu; try done; lia. }
    symmetry. apply andb_false_iff. destruct (empty u) eqn:E; [by left|right]. apply Z.ltb_ge.
    destruct (max_spec u Hexu E) as [Hmaxin Hmaxle]. apply Hu in Hmaxin.
    assert (mem u n) as Hin by (apply Hu; frag_lia). specialize (Hmaxle _ Hin). frag_lia.
Qed.

(** The writer's rounds over one reader: the next unsent fragment is sent until
    none is left. *)
Fixpoint send_fragments (ndebug : bool) (fuel : nat) (c : ChangeForReader_t)
    : outcome (list Z * ChangeForReader_t) :=
  if empty (unsent_fragments_ c) then mret ([], c)
  else match fuel with
  | O => Unfinished
  | S fuel =>
      let fragment := get_next_unsent_fragment c in
      c ← markFragmentsAsSent ndebug c fragment;
      '(l, c) ← send_fragments ndebug fuel c;
      mret (fragment :: l, c)
  end.

Lemma send_fragments_from ndebug n k m c :
  window n k c → 0 <= k <= n → n + NBITS < 2 ^ 32 - 1 → n - k = Z.of_nat m →
  ∃ c', send_fragments ndebug m c = Done (seqZ (k + 1) (n - k), c') ∧ window n n c' ∧ change_ c' = change_ c.
Proof.
  revert k c. induction m as [|m IH]; intros k c Hw Hk Hn Hm;
    destruct (window_next n k c Hw Hk) as [Hnext Hempty]; try frag_lia.
  - replace k with n in * by lia. exists c. simpl.
    rewrite (proj2 Hempty eq_refl), seqZ_nil by lia. done.
  - cbn [send_fragments]. replace (empty (unsent_fragments_ c)) with false
      by (symmetry; apply not_true_is_false; rewrite Hempty; lia).
    rewrite Hnext. destruct (window_sent ndebug n k c) as (c1 & -> & Hw1 & Hc1); [done|lia|lia|].
    cbn [mbind outcome_bind]. destruct (IH (k + 1) c1) as (c' & -> & Hw' & Hc'); [done|lia|lia|lia|].
    cbn [mbind outcome_bind]. exists c'. split; [|split; [done|congruence]].
    rewrite (seqZ_cons (k + 1) (n - k)) by lia.
    by replace (Z.succ (k + 1)) with (k + 1 + 1) by lia; replace (Z.pred (n - k)) with (n - (k + 1)) by lia.
Qed.

(** The fragments of a new change are sent to a reader in order, each of them
    once, whatever their number: the window of 256 fragments moves along, no
    assertion fails, and after as many rounds as there are fragments none is left
    and the next fragment is the one after the last. *)
Theorem fragments_sent_in_order ndebug c n
    (Hsize : getFragmentSize c ≠ 0) (Hcount : getFragmentCount c = n) (Hn : 0 <= n < 2 ^ 32 - 257) :
  ∃ c', send_fragments ndebug (Z.to_nat n) (create c) = Done (seqZ 1 n, c') ∧
    empty (unsent_fragments_ c') = true ∧ get_next_unsent_fragment c' = n + 1.
Proof.
  destruct (send_fragments_from ndebug n 0 (Z.to_nat n) (create c)) as (c' & E & Hw & _);
    [apply window_create; (done || lia)|lia|frag_lia|lia|].
  exists c'. rewrite E. replace (n - 0) with n by lia. split; [done|].
  destruct (window_next n n c' Hw) as [Hnext Hempty]; [lia|lia|]. split; [by apply Hempty|done].
Qed.

Definition fragmented_change (n : Z) : CacheChange_t :=
  with_fragments (History.reference_change Guid.c_Guid_Unknown (SN.mkSN 0 1)) 100 n n.

Lemma fragments_sent_in_order_witness :
  ∃ c', send_fragments false 300 (create (fragmented_change 300)) = Done (seqZ 1 300, c') ∧
    empty (unsent_fragments_ c') = true ∧ get_next_unsent_fragment c' = 301.
Proof.
  apply (fragments_sent_in_order false (fragmented_change 300) 300); [done|reflexivity|lia].
Defined.

End FragmentWindow.

(** ** The changes of a proxy *)

Module ProxyFacts.
Import CacheChange ChangeForReader ReaderProxy HistorySearch.

Definition num (c : ChangeForReader_t) : Z := SN.val (seq_num_ c).

(** Numbers that can be counted up, above the low mark, in order. *)
Record proxy_ok (p : ReaderProxy) : Prop := {
  p_low : SN.wf (changes_low_mark_ p) ∧ 0 <= SN.val (changes_low_mark_ p) < 2 ^ 63 - 1;
  p_nums : Forall (λ c, SN.wf (seq_num_ c) ∧ SN.val (changes_low_mark_ p) < num c < 2 ^ 63 - 1) (changes p);
  p_sorted : StronglySorted Z.lt (num <$> changes p)
}.

(** The change with a number. *)
Definition at_num (n : Z) (l : list ChangeForReader_t) : option (nat * ChangeForReader_t) :=
  list_find (λ c, num c = n) l.

Lemma sorted_nth (l : list ChangeForReader_t) i j c d :
  StronglySorted Z.lt (num <$> l) → l !! i = Some c → l !! j = Some d → (i < j)%nat → num c < num d.
Proof.
  intros Hs Hc Hd Hij.
  apply (StronglySorted_app_1_elem_of Z.lt (take j (num <$> l)) (drop j (num <$> l))).
  - by rewrite take_drop.
  - apply (list_elem_of_lookup_2 _ i). rewrite lookup_take_lt by lia. by rewrite list_lookup_fmap, Hc.
  - apply (list_elem_of_lookup_2 _ 0%nat). rewrite lookup_drop, Nat.add_0_r. by rewrite list_lookup_fmap, Hd.
Qed.

Lemma at_num_Some l n i c :
  StronglySorted Z.lt (num <$> l) → at_num n l = Some (i, c) ↔ l !! i = Some c ∧ num c = n.
Proof.
  intros Hs. unfold at_num. rewrite list_find_Some. split; [tauto|]. intros [Hi Hn].
  split_and!; [done..|]. intros j d Hj Hji. pose proof (sorted_nth l j i d c Hs Hj Hi Hji). lia.
Qed.

Lemma at_num_None l n : at_num n l = None ↔ ∀ c, c ∈ l → num c ≠ n.
Proof. unfold at_num. by rewrite list_find_None, Forall_forall. Qed.

(** The place [lower_bound] finds among sorted changes. *)
Lemma find_place p seq :
  proxy_ok p → SN.wf seq →
  ∃ it, History.lower_bound (change_less_than_sequence seq) (changes p) = Done it ∧
    (it <= length (changes p))%nat ∧
    Forall (λ c, num c < SN.val seq) (take it (changes p)) ∧
    Forall (λ c, SN.val seq <= num c) (drop it (changes p)).
Proof.
  intros [_ Hnums Hs] Hseq.
  assert (Forall (λ c, change_less_than_sequence seq c = (num c <? SN.val seq)) (changes p)) as Hless.
  { eapply Forall_impl; [exact Hnums|]. intros c [Hc _]. unfold change_less_than_sequence. by apply SN.ltb_val. }
  destruct (lower_bound_split (change_less_than_sequence seq) (changes p)) as (it & E & Ht & Hd).
  - clear Hnums. induction (changes p) as [|c l IH]; [constructor|]. simpl in Hs.
    apply StronglySorted_inv in Hs as [Hs Hc]. apply Forall_cons in Hless as [Ec Hless].
    constructor; [by apply IH|]. rewrite Forall_fmap, Forall_forall in Hc. rewrite Forall_forall in Hless.
    apply Forall_forall. intros d Hd. specialize (Hc d Hd). simpl in Hc. rewrite Ec, (Hless d Hd), !Z.ltb_ge. lia.
  - exists (it `min` length (changes p))%nat. rewrite Forall_forall in Hless.
    assert (it <= length (changes p))%nat as Hle.
    { unfold History.lower_bound in E. destruct (forallb _ _); [|done]. injection E as <-. apply find_if_le. }
    rewrite Nat.min_l by done. split; [done|]. split; [done|].
    rewrite Forall_forall in Ht, Hd. split; apply Forall_forall; intros c Hc.
    + specialize (Ht c Hc). rewrite Hless in Ht by by eapply subseteq_take. by apply Z.ltb_lt.
    + specialize (Hd c Hc). rewrite Hless in Hd by by eapply subseteq_drop. by apply Z.ltb_ge.
Qed.

Lemma lookup_change_spec p seq :
  proxy_ok p → SN.wf seq → lookup_change p seq = Done (at_num (SN.val seq) (changes p)).
Proof.
  intros Hok Hseq. pose proof Hok as [_ Hnums Hs].
  destruct (find_place p seq Hok Hseq) as (it & E & Hle & Ht & Hd).
  unfold lookup_change, find_change. rewrite E. cbn [mbind outcome_bind mret outcome_ret]. rewrite Forall_forall in Ht, Hd, Hnums.
  destruct (changes p !! it) as [c|] eqn:Ec; [|simpl; rewrite ?Ec].
  - destruct (Hnums c) as [Hc _]; [by eapply list_elem_of_lookup_2|]. rewrite SN.eqb_val by done. fold (num c).
    destruct (Z.eqb_spec (num c) (SN.val seq)) as [En|En].
    + rewrite Ec. f_equal. symmetry. by apply at_num_Some.
    + rewrite lookup_ge_None_2 by done. f_equal. symmetry. apply at_num_None.
      intros d [j Hj]%list_elem_of_lookup.
      assert (SN.val seq <= num c) by (apply Hd, (list_elem_of_lookup_2 _ 0%nat); by rewrite lookup_drop, Nat.add_0_r).
      destruct (Nat.lt_trichotomy j it) as [Hlt|[->|Hlt]].
      * assert (num d < SN.val seq); [|lia]. apply Ht, (list_elem_of_lookup_2 _ j). by rewrite lookup_take_lt.
      * congruence.
      * pose proof (sorted_nth _ _ _ _ _ Hs Ec Hj Hlt). lia.
  - f_equal. symmetry. apply at_num_None. intros d [j Hj]%list_elem_of_lookup.
    apply lookup_ge_None in Ec. pose proof (lookup_lt_Some _ _ _ Hj).
    assert (num d < SN.val seq); [|lia]. apply Ht, (list_elem_of_lookup_2 _ j). by rewrite lookup_take_lt by lia.
Qed.

(** *** Acknowledgement *)

(** Whether the reader has acknowledged a number, or will never get it. *)
Definition acked (p : ReaderProxy) (n : Z) : bool :=
  (n <=? SN.val (changes_low_mark_ p)) ||
  match at_num n (changes p) with Some (_, c) => bool_decide (status_ c = ACKNOWLEDGED) | None => true end.

Lemma change_is_acked_spec p seq :
  proxy_ok p → SN.wf seq → change_is_acked p seq = Done (acked p (SN.val seq)).
Proof.
  intros Hok Hseq. unfold change_is_acked, acked. rewrite SN.leb_val by (done || apply Hok).
  destruct (SN.val seq <=? SN.val (changes_low_mark_ p)); [done|]. simpl.
  destruct (RLV.empty (changes_for_reader_ p)) eqn:E; simpl.
  - unfold RLV.empty in E. unfold changes. destruct (RLV.collection_ _); done.
  - rewrite lookup_change_spec by done. cbn [mbind outcome_bind].
    by destruct (at_num _ _) as [[]|].
Qed.

(** The acknowledged changes in a row. *)
Lemma skip_acked_spec l m :
  SN.wf m → Forall (λ c, SN.wf (seq_num_ c) ∧ num c < 2 ^ 63 - 1) l → StronglySorted Z.lt (num <$> l) →
  let '(k, m') := skip_acked l m in
  (k <= length l)%nat ∧ SN.wf m' ∧ SN.val m' = SN.val m + Z.of_nat k ∧
  (∀ i c, (i < k)%nat → l !! i = Some c → num c = SN.val m + Z.of_nat i ∧ status_ c = ACKNOWLEDGED) ∧
  (∀ c, l !! k = Some c → num c = SN.val m' → status_ c ≠ ACKNOWLEDGED).
Proof.
  revert m. induction l as [|c l IH]; intros m Hm Hl Hs; simpl.
  { split_and!; [lia|done|lia|intros; lia|done]. }
  apply Forall_cons in Hl as [[Hc Hlt] Hl]. simpl in Hs. apply StronglySorted_inv in Hs as [Hs _].
  rewrite SN.eqb_val by done. fold (num c).
  destruct ((num c =? SN.val m) && bool_decide (status_ c = ACKNOWLEDGED)) eqn:E.
  - apply andb_true_iff in E as [En%Z.eqb_eq Est%bool_decide_eq_true].
    destruct (SN.incr_val m) as [Hincr _]; [done|lia|].
    specialize (IH (SN.incr m) (SN.incr_wf _ Hm) Hl Hs).
    destruct (skip_acked l (SN.incr m)) as [k m']. destruct IH as (Hk & Hwf & Hv & Hall & Hend).
    split_and!; [simpl; lia|done|lia| |exact Hend].
    intros [|i] d Hi; simpl; [intros [= <-]; split; [lia|done]|].
    intros Hd. destruct (Hall i d) as [? ?]; [lia|done|]. split; [lia|done].
  - split_and!; [lia|done|lia|intros; lia|]. intros d [= <-] Hn Hst.
    rewrite Hn, Z.eqb_refl, bool_decide_true in E by done. done.
Qed.

Lemma sorted_drop (l : list ChangeForReader_t) n :
  StronglySorted Z.lt (num <$> l) → StronglySorted Z.lt (num <$> drop n l).
Proof. intros Hs. rewrite <-(take_drop n l), fmap_app in Hs. by apply StronglySorted_app_1_r in Hs. Qed.

(** What is left when everything up to a number is dropped. *)
Lemma at_num_drop l k n :
  Forall (λ c, num c ≠ n) (take k l) → snd <$> at_num n (drop k l) = snd <$> at_num n l.
Proof.
  revert k. induction l as [|c l IH]; intros [|k] Ht; try done. simpl in Ht.
  apply Forall_cons in Ht as [Hc Ht]. simpl. rewrite IH by done. unfold at_num. simpl.
  rewrite decide_False by done. by destruct (list_find _ l) as [[]|].
Qed.

Lemma filter_drop (l : list ChangeForReader_t) k m :
  Forall (λ c, num c <= m) (take k l) → Forall (λ c, m < num c) (drop k l) →
  drop k l = filter (λ c, m < num c) l.
Proof.
  intros Ht Hd. rewrite <-(take_drop k l) at 2. rewrite filter_app.
  rewrite filter_none; [|intros c Hc; rewrite Forall_forall in Ht; specialize (Ht c Hc); lia].
  by rewrite filter_all.
Qed.

Section writer.
Context {W : Type} `{WriterHistory.WriterInfo W}.
Implicit Types h : WriterHistory.WriterHistory W.

Lemma acked_change p c : proxy_ok p → c ∈ changes p → status_ c = ACKNOWLEDGED → acked p (num c) = true.
Proof.
  intros Hok [i Hi]%list_elem_of_lookup Hst. unfold acked.
  rewrite (proj2 (at_num_Some _ (num c) i c (p_sorted _ Hok))) by done. by rewrite bool_decide_true, orb_true_r.
Qed.

(** What dropping the acknowledged row leaves. *)
Lemma acked_row p seq it k :
  proxy_ok p → (it + k <= length (changes p))%nat →
  Forall (λ c, num c < SN.val seq) (take it (changes p)) →
  Forall (λ c, SN.val seq <= num c) (drop it (changes p)) →
  (∀ i c, (i < k)%nat → drop it (changes p) !! i = Some c →
    num c = SN.val seq + Z.of_nat i ∧ status_ c = ACKNOWLEDGED) →
  Forall (λ c, num c < SN.val seq + Z.of_nat k) (take (it + k) (changes p)) ∧
  Forall (λ c, SN.val seq + Z.of_nat k <= num c) (drop (it + k) (changes p)) ∧
  ∀ n, SN.val seq <= n < SN.val seq + Z.of_nat k → ∃ c, c ∈ changes p ∧ num c = n ∧ status_ c = ACKNOWLEDGED.
Proof.
  intros [_ Hnums Hs] Hlen Ht Hd Hrow. rewrite Forall_forall in Ht, Hd, Hnums. split_and!.
  - apply Forall_forall. intros c [j Hj]%list_elem_of_lookup. apply lookup_take_Some in Hj as [Hj Hlt].
    destruct (decide (j < it)%nat).
    + assert (num c < SN.val seq); [|lia]. apply Ht, (list_elem_of_lookup_2 _ j). by rewrite lookup_take_lt.
    + destruct (Hrow (j - it)%nat c) as [-> _]; [lia| |lia].
      rewrite lookup_drop. by replace (it + (j - it))%nat with j by lia.
  - apply Forall_forall. intros c [j Hj]%list_elem_of_lookup. rewrite lookup_drop in Hj.
    destruct (decide (k = 0)%nat) as [->|Hk].
    + rewrite Z.add_0_r. apply Hd, (list_elem_of_lookup_2 _ j). rewrite lookup_drop. by rewrite Nat.add_0_r in Hj.
    + destruct (lookup_lt_is_Some_2 (changes p) (it + (k - 1))) as [d Hdk]; [lia|].
      destruct (Hrow (k - 1)%nat d) as [Hnd _]; [lia|by rewrite lookup_drop|].
      pose proof (sorted_nth _ _ _ _ _ Hs Hdk Hj). lia.
  - intros n Hn. destruct (lookup_lt_is_Some_2 (changes p) (it + Z.to_nat (n - SN.val seq))) as [c Hc]; [lia|].
    destruct (Hrow (Z.to_nat (n - SN.val seq)) c) as [Hnc Hst]; [lia|by rewrite lookup_drop|].
    exists c. split_and!; [by eapply list_elem_of_lookup_2|lia|done].
Qed.

Lemma acked_set_up h p seq :
  proxy_ok p → SN.wf seq → SN.val (changes_low_mark_ p) < SN.val seq < 2 ^ 63 - 1 →
  ∃ low k, acked_changes_set h p seq = Done (with_low_mark (with_changes p (drop k (changes p))) low) ∧
    SN.wf low ∧ SN.val seq - 1 <= SN.val low < 2 ^ 63 - 1 ∧
    Forall (λ c, num c <= SN.val low) (take k (changes p)) ∧
    Forall (λ c, SN.val low < num c) (drop k (changes p)) ∧
    (∀ n, SN.val seq <= n <= SN.val low → ∃ c, c ∈ changes p ∧ num c = n ∧ status_ c = ACKNOWLEDGED) ∧
    (∀ c, c ∈ drop k (changes p) → num c = SN.val low + 1 → status_ c ≠ ACKNOWLEDGED).
Proof.
  intros Hok Hseq Hrange. pose proof Hok as [[Hlow Hlow0] Hnums Hs]. unfold acked_changes_set.
  rewrite SN.gtb_val by done. rewrite (proj2 (Z.ltb_lt _ _)) by lia.
  destruct (find_place p seq Hok Hseq) as (it & E & Hle & Ht & Hd).
  unfold find_change. rewrite E. cbn [mbind outcome_bind mret outcome_ret].
  pose proof (skip_acked_spec (drop it (changes p)) seq Hseq) as Hskip.
  destruct (skip_acked _ seq) as [k m]. destruct Hskip as (Hk & Hm & Hmv & Hrow & Hend).
  { apply Forall_drop. eapply Forall_impl; [exact Hnums|]. intros c [? ?]. split; [done|lia]. }
  { by apply sorted_drop. }
  rewrite length_drop in Hk.
  destruct (acked_row p seq it k Hok) as (Ht' & Hd' & Hn); [lia|done..|].
  destruct (SN.sub_u32_val m 1) as [Hsub _]; [apply SN.nonneg_val; [done|lia]|range_unfold; lia|lia|].
  exists (SN.sub_u32 m 1), (it + k)%nat. split; [done|].
  split; [apply SN.sub_u32_wf; [done|range_unfold; lia]|]. rewrite Hsub, Hmv. split_and!.
  - lia.
  - destruct (decide (k = 0)%nat) as [->|]; [lia|]. destruct (Hn (SN.val seq + Z.of_nat k - 1)) as (c & Hc & Hnc & _); [lia|].
    rewrite Forall_forall in Hnums. destruct (Hnums c Hc) as [_ ?]. lia.
  - eapply Forall_impl; [exact Ht'|]. simpl. intros; lia.
  - eapply Forall_impl; [exact Hd'|]. simpl. intros; lia.
  - intros n Hrow'. apply Hn. lia.
  - intros c [j Hj]%list_elem_of_lookup Hc. rewrite lookup_drop in Hj.
    destruct (decide (j = 0)%nat) as [->|Hj0]; [apply Hend; [by rewrite lookup_drop, <-(Nat.add_0_r (it + k))|lia]|].
    destruct (lookup_lt_is_Some_2 (changes p) (it + k)) as [d Hdk].
    { pose proof (lookup_lt_Some _ _ _ Hj). lia. }
    pose proof (sorted_nth _ _ _ _ _ Hs Hdk Hj ltac:(lia)).
    rewrite Forall_forall in Hd'. specialize (Hd' d).
    assert (d ∈ drop (it + k) (changes p)) as Hin
      by (apply (list_elem_of_lookup_2 _ 0%nat); by rewrite lookup_drop, Nat.add_0_r).
    specialize (Hd' Hin). simpl in Hd'. lia.
Qed.

Lemma same_low_mark p :
  proxy_ok p → with_low_mark p (SN.sub_u32 (SN.add_u32 (changes_low_mark_ p) 1) 1) = p.
Proof.
  intros [[Hlow Hv] _ _].
  destruct (SN.add_u32_val (changes_low_mark_ p) 1) as [Ha _]; [done|range_unfold; lia|lia|].
  assert (SN.wf (SN.add_u32 (changes_low_mark_ p) 1)) as Hw by (apply SN.add_u32_wf; [done|range_unfold; lia]).
  destruct (SN.sub_u32_val (SN.add_u32 (changes_low_mark_ p) 1) 1) as [Hs _];
    [apply SN.nonneg_val; [done|lia]|range_unfold; lia|lia|].
  rewrite (SN.val_inj (SN.sub_u32 (SN.add_u32 (changes_low_mark_ p) 1) 1) (changes_low_mark_ p));
    [by destruct p|apply SN.sub_u32_wf; [done|range_unfold; lia]|done|lia].
Qed.

Lemma dropped_ok p low k :
  proxy_ok p → SN.wf low → 0 <= SN.val low < 2 ^ 63 - 1 →
  Forall (λ c, SN.val low < num c) (drop k (changes p)) →
  proxy_ok (with_low_mark (with_changes p (drop k (changes p))) low).
Proof.
  intros [_ Hnums Hs] Hlow Hv Hd. constructor; simpl; [done| |by apply sorted_drop].
  unfold changes. simpl. fold (changes p). apply Forall_forall. intros c Hc.
  rewrite Forall_forall in Hnums, Hd. destruct (Hnums c) as [? [_ ?]]; [by eapply subseteq_drop|].
  split; [done|]. specialize (Hd c Hc). simpl. lia.
Qed.

(** C18: an acknowledgement of everything below a number is exact.  Afterwards the
    proxy counts a number as acknowledged just if it is below that number or was
    acknowledged before; the low mark moves over the changes in a row that were
    acknowledged already and stops at the first that is not; the changes above the
    low mark are kept as they were and the others dropped.  An acknowledgement at or
    below the low mark changes nothing, the first number of a reader that wants
    history apart. *)
Theorem acknowledgement_exact h p seq
    (Hok : proxy_ok p) (Hseq : SN.wf seq) (Hmax : SN.val seq < 2 ^ 63 - 1) :
  (SN.val (changes_low_mark_ p) < SN.val seq → ∃ p', acked_changes_set h p seq = Done p' ∧ proxy_ok p' ∧
    (∀ n, acked p' n = (n <? SN.val seq) || acked p n) ∧
    SN.val seq - 1 <= SN.val (changes_low_mark_ p') ∧
    changes p' = filter (λ c, SN.val (changes_low_mark_ p') < num c) (changes p) ∧
    (∀ c, c ∈ changes p' → num c = SN.val (changes_low_mark_ p') + 1 → status_ c ≠ ACKNOWLEDGED)) ∧
  (SN.val seq <= SN.val (changes_low_mark_ p) → seq ≠ SN.default ∨ durability_kind_ p = ReaderLocator.VOLATILE →
    acked_changes_set h p seq = Done p).
Proof.
  split.
  - intros Hlt. destruct (acked_set_up h p seq Hok Hseq) as (low & k & -> & Hlow & Hv & Ht & Hd & Hrow & Hend); [lia|].
    pose proof Hok as [[_ Hlow0] _ Hs]. eexists. split; [reflexivity|]. split; [apply dropped_ok; (done || lia)|].
    simpl. unfold changes at 1 3 4. simpl. fold (changes p). split_and!; [|lia|by apply filter_drop|exact Hend].
    intros n. unfold acked. simpl. unfold changes at 1. simpl. fold (changes p).
    destruct (Z.leb_spec n (SN.val low)) as [Hle|Hgt]; simpl.
    + destruct (Z.ltb_spec n (SN.val seq)); [done|]. symmetry.
      destruct (Hrow n) as (c & Hc & <- & Hst); [lia|]. by apply acked_change.
    + destruct (Z.ltb_spec n (SN.val seq)); [lia|]. destruct (Z.leb_spec n (SN.val (changes_low_mark_ p))); [lia|].
      simpl. assert (snd <$> at_num n (drop k (changes p)) = snd <$> at_num n (changes p)) as Hat.
      { apply at_num_drop. eapply Forall_impl; [exact Ht|]. simpl. intros; lia. }
      destruct (at_num n (drop k (changes p))) as [[]|], (at_num n (changes p)) as [[]|]; by simplify_eq/=.
  - intros Hle Hno. pose proof Hok as [[Hlow _] _ _]. unfold acked_changes_set. rewrite SN.gtb_val by done.
    rewrite (proj2 (Z.ltb_ge _ _)) by lia. rewrite same_low_mark by done.
    replace (SN.eqb seq SN.default && negb (bool_decide (durability_kind_ p = ReaderLocator.VOLATILE))) with false; [done|].
    symmetry. apply andb_false_iff. destruct Hno as [Hno| ->]; [left|by right].
    apply not_true_is_false. by rewrite SN.eqb_eq.
Qed.

(** *** Requests *)

(** What a request for a number does to a change. *)
Definition requested (n : Z) (c : ChangeForReader_t) : ChangeForReader_t :=
  if bool_decide (num c = n ∧ status_ c = UNACKNOWLEDGED)
  then markAllFragmentsAsUnsent (setStatus c REQUESTED) else c.

Lemma num_requested n c : num (requested n c) = num c ∧ seq_num_ (requested n c) = seq_num_ c.
Proof.
  unfold requested, markAllFragmentsAsUnsent. case_bool_decide; [|done]. by destruct (negb _).
Qed.

(** Changes that keep their numbers keep the invariant. *)
Lemma mapped_ok p f :
  proxy_ok p → (∀ c, seq_num_ (f c) = seq_num_ c) → proxy_ok (with_changes p (f <$> changes p)).
Proof.
  intros [Hlow Hnums Hs] Hf. constructor; simpl; [done|..]; unfold changes; simpl; fold (changes p).
  - rewrite Forall_fmap. eapply Forall_impl; [exact Hnums|]. intros c. simpl. unfold num. by rewrite Hf.
  - rewrite <-list_fmap_compose. rewrite (list_fmap_ext _ num); [done|]. intros i c _. simpl. unfold num. by rewrite Hf.
Qed.

Lemma set_change_requested p n i c :
  StronglySorted Z.lt (num <$> changes p) → at_num n (changes p) = Some (i, c) → status_ c = UNACKNOWLEDGED →
  <[i := markAllFragmentsAsUnsent (setStatus c REQUESTED)]> (changes p) = requested n <$> changes p.
Proof.
  intros Hs Hat Hst. pose proof Hat as [Hi Hn]%at_num_Some; [|done]. apply list_eq. intros j.
  rewrite list_lookup_fmap. destruct (decide (i = j)) as [<-|Hij].
  - rewrite list_lookup_insert_eq by by eapply lookup_lt_Some. rewrite Hi. simpl. f_equal.
    unfold requested. by rewrite bool_decide_true.
  - rewrite list_lookup_insert_ne by done. destruct (changes p !! j) as [d|] eqn:Ej; [|done]. simpl. f_equal.
    unfold requested. rewrite bool_decide_false; [done|]. intros [Hd _].
    destruct (Nat.lt_trichotomy i j) as [Hlt|[?|Hlt]]; [|done|];
      [pose proof (sorted_nth _ _ _ _ _ Hs Hi Ej Hlt)|pose proof (sorted_nth _ _ _ _ _ Hs Ej Hi Hlt)]; lia.
Qed.

Lemma requested_id n l :
  (∀ i c, at_num n l = Some (i, c) → status_ c ≠ UNACKNOWLEDGED) → StronglySorted Z.lt (num <$> l) →
  requested n <$> l = l.
Proof.
  intros Hno Hs. rewrite <-(list_fmap_id l) at 2. apply list_fmap_ext. intros i c Hi. simpl. unfold requested.
  rewrite bool_decide_false; [done|]. intros [Hn Hst]. apply (Hno i c); [|done]. by apply at_num_Some.
Qed.

(** What requests for several numbers do to a change. *)
Definition requested_all (ns : list Z) (c : ChangeForReader_t) : ChangeForReader_t :=
  if bool_decide (num c ∈ ns ∧ status_ c = UNACKNOWLEDGED)
  then markAllFragmentsAsUnsent (setStatus c REQUESTED) else c.

Lemma requested_all_cons n ns c : requested_all (n :: ns) c = requested_all ns (requested n c).
Proof.
  unfold requested_all at 1. destruct (decide (num c = n ∧ status_ c = UNACKNOWLEDGED)) as [[Hn Hst]|Hno].
  - rewrite bool_decide_true by (split; [rewrite Hn; left|done]). unfold requested. rewrite bool_decide_true by done.
    unfold requested_all. rewrite bool_decide_false; [done|]. intros [_ Hreq].
    unfold markAllFragmentsAsUnsent in Hreq. by destruct (negb _).
  - unfold requested. rewrite (bool_decide_false (num c = n ∧ status_ c = UNACKNOWLEDGED)) by done.
    unfold requested_all. apply (f_equal (λ b : bool, if b then _ else _)). apply bool_decide_ext.
    rewrite elem_of_cons. naive_solver.
Qed.

Lemma at_num_fmap f n l : (∀ c, num (f c) = num c) → at_num n (f <$> l) = None ↔ at_num n l = None.
Proof.
  intros Hf. rewrite !at_num_None. split.
  - intros Hno c Hc. rewrite <-Hf. by apply Hno, list_elem_of_fmap_2.
  - intros Hno c (d & -> & Hd)%list_elem_of_fmap. rewrite Hf. by apply Hno.
Qed.

(** The numbers a reader asks for and will never get. *)
Definition never_sent (p : ReaderProxy) (min_seq s : SN.SequenceNumber_t) : Prop :=
  SN.val min_seq <= SN.val s ∧ SN.val (changes_low_mark_ p) < SN.val s ∧ at_num (SN.val s) (changes p) = None.

#[export] Instance never_sent_dec p min_seq s : Decision (never_sent p min_seq s).
Proof. unfold never_sent. apply _. Defined.

Definition asked (ns : list Z) (c : ChangeForReader_t) : bool :=
  bool_decide (num c ∈ ns ∧ status_ c = UNACKNOWLEDGED).

Section requests.
Context {G : Type} `{GapSink G}.

Lemma request_one (some : bool) p (gb : GapBuilder.RTPSGapBuilder G) min_seq s :
  proxy_ok p → SN.wf min_seq → SN.wf s →
  request_change min_seq (Done (some, p, gb)) s =
  Done (some || existsb (asked [SN.val s]) (changes p),
        with_changes p (requested (SN.val s) <$> changes p),
        if decide (never_sent p min_seq s) then (GapBuilder.add gb s).2 else gb).
Proof.
  intros Hok Hmin Hs. pose proof Hok as [[Hlow _] _ Hsort]. unfold request_change. cbn [mbind outcome_bind].
  rewrite lookup_change_spec by done. cbn [mbind outcome_bind].
  assert (∀ l, with_changes p l = with_changes p (changes p) → with_changes p l = p) as Hsame
    by (intros l ->; destruct p as [? ? ? ? ? ? []]; done).
  destruct (at_num (SN.val s) (changes p)) as [[i c]|] eqn:E.
  - rewrite (decide_False (P := never_sent p min_seq s)) by (intros (_ & _ & ?); congruence).
    pose proof E as [Hi Hn]%at_num_Some; [|done]. case_bool_decide as Hst.
    + unfold set_change. rewrite (set_change_requested p (SN.val s)) by done. do 3 f_equal. symmetry.
      apply orb_true_iff. right. apply existsb_exists. exists c. split; [by apply list_elem_of_In; eapply list_elem_of_lookup_2|].
      apply bool_decide_eq_true. rewrite list_elem_of_singleton. done.
    + rewrite requested_id, (Hsame (changes p)) by (done || (intros ? ? E'; rewrite E in E'; naive_solver)).
      do 3 f_equal. symmetry. rewrite <-(orb_false_r some) at 2. f_equal. apply not_true_is_false. intros (d & Hd%list_elem_of_In & Hask)%existsb_exists.
      apply bool_decide_eq_true in Hask as [Hnd%list_elem_of_singleton Hsd].
      apply list_elem_of_lookup in Hd as [j Hj].
      assert (at_num (SN.val s) (changes p) = Some (j, d)) by by apply at_num_Some. congruence.
  - rewrite requested_id, (Hsame (changes p)) by (done || congruence).
    assert (existsb (asked [SN.val s]) (changes p) = false) as ->.
    { apply not_true_is_false. intros (d & Hd%list_elem_of_In & Hask)%existsb_exists.
      apply bool_decide_eq_true in Hask as [Hnd%list_elem_of_singleton _].
      by apply (proj1 (at_num_None _ _) E d). }
    rewrite orb_false_r, SN.geb_val, SN.gtb_val by done.
    case_decide as Hn; unfold never_sent in Hn.
    + by rewrite (proj2 (Z.leb_le _ _)), (proj2 (Z.ltb_lt _ _)) by tauto.
    + destruct (Z.leb_spec (SN.val min_seq) (SN.val s)), (Z.ltb_spec (SN.val (changes_low_mark_ p)) (SN.val s)); try done.
      by destruct Hn.
Qed.

Lemma asked_cons n ns c : asked (n :: ns) c = asked [n] c || asked ns (requested n c).
Proof.
  unfold asked at 1 2, requested.
  destruct (decide (num c = n ∧ status_ c = UNACKNOWLEDGED)) as [[Hn Hst]|Hno].
  - rewrite (bool_decide_true (num c ∈ n :: ns ∧ _)) by (split; [rewrite Hn; left|done]).
    by rewrite (bool_decide_true (num c ∈ [n] ∧ _)) by (split; [rewrite Hn; left|done]).
  - rewrite (bool_decide_false (num c ∈ [n] ∧ _)) by (by rewrite list_elem_of_singleton).
    rewrite (bool_decide_false (num c = n ∧ _)) by done. simpl. apply bool_decide_ext.
    rewrite elem_of_cons. naive_solver.
Qed.

Lemma existsb_or {A} (f g : A → bool) l : existsb (λ x, f x || g x) l = existsb f l || existsb g l.
Proof.
  induction l as [|x l IH]; [done|]. simpl. rewrite IH.
  destruct (f x), (g x), (existsb f l), (existsb g l); done.
Qed.

Lemma existsb_fmap {A B} (f : A → B) (g : B → bool) l : existsb g (f <$> l) = existsb (λ x, g (f x)) l.
Proof. induction l as [|x l IH]; [done|]. simpl. f_equal. exact IH. Qed.

Lemma existsb_ext {A} (f g : A → bool) l : (∀ x, f x = g x) → existsb f l = existsb g l.
Proof. intros Hfg. induction l as [|x l IH]; [done|]. simpl. by rewrite Hfg, IH. Qed.

Lemma request_many min_seq l some p (gb : GapBuilder.RTPSGapBuilder G) :
  proxy_ok p → SN.wf min_seq → Forall SN.wf l →
  foldl (request_change min_seq) (Done (some, p, gb)) l =
  Done (some || existsb (asked (SN.val <$> l)) (changes p),
        with_changes p (requested_all (SN.val <$> l) <$> changes p),
        foldl (λ b s, (GapBuilder.add b s).2) gb (filter (never_sent p min_seq) l)).
Proof.
  intros Hok Hmin Hl. revert some p gb Hok. induction Hl as [|s l Hs _ IH]; intros some p gb Hok.
  - simpl. do 3 f_equal.
    + rewrite existsb_ext with (g := λ _, false); [|intros c; apply bool_decide_false; rewrite elem_of_nil; naive_solver].
      assert (∀ l : list ChangeForReader_t, existsb (λ _, false) l = false) as -> by (intros l; by induction l).
      by rewrite orb_false_r.
    + rewrite (list_fmap_ext _ id); [rewrite list_fmap_id; by destruct p as [? ? ? ? ? ? []]|].
      intros i c _. unfold requested_all. rewrite bool_decide_false; [done|]. rewrite elem_of_nil. naive_solver.
  - cbn [foldl]. rewrite request_one by done.
    set (p1 := with_changes p (requested (SN.val s) <$> changes p)).
    assert (changes p1 = requested (SN.val s) <$> changes p) as Hch by done.
    rewrite IH by (apply mapped_ok; [done|]; intros c; apply num_requested).
    rewrite Hch, existsb_fmap, <-list_fmap_compose.
    rewrite (filter_same (never_sent p1 min_seq) (never_sent p min_seq)); cycle 1.
    { intros x _. unfold never_sent. rewrite Hch, at_num_fmap; [done|]. intros c. apply num_requested. }
    rewrite filter_cons, <-orb_assoc, <-existsb_or.
    rewrite (existsb_ext _ (asked (SN.val <$> s :: l))) by (intros c; symmetry; apply asked_cons).
    rewrite (list_fmap_ext _ (requested_all (SN.val <$> s :: l))) by (intros i c _; symmetry; apply requested_all_cons).
    by destruct (decide (never_sent p min_seq s)).
Qed.

Lemma members_of (set : SequenceNumberSet_t) n :
  BitmapFacts.inv set → n ∈ SN.val <$> BitmapRange.for_each set ↔ BitmapFacts.mem set n.
Proof.
  intros Hset. change SN.val with (item_val (T := SN.SequenceNumber_t)). rewrite BitmapFacts.for_each_spec by done.
  rewrite list_elem_of_filter, elem_of_seqZ. split; [tauto|]. intros Hn. split; [done|].
  apply BitmapFacts.mem_iff in Hn. lia.
Qed.

(** What a request for the numbers of a set does to a change. *)
Definition requested_by (set : SequenceNumberSet_t) (c : ChangeForReader_t) : ChangeForReader_t :=
  if bool_decide (BitmapFacts.mem set (num c) ∧ status_ c = UNACKNOWLEDGED)
  then markAllFragmentsAsUnsent (setStatus c REQUESTED) else c.

Lemma requests_spec p (set : SequenceNumberSet_t) (gb : GapBuilder.RTPSGapBuilder G) min_seq :
  proxy_ok p → BitmapFacts.inv set → SN.wf min_seq → SN.eqb min_seq SN.unknown = false →
  ∃ some, requested_changes_set p set gb min_seq =
      Done (some, with_changes p (requested_by set <$> changes p), foldl (λ b s, (GapBuilder.add b s).2) gb
                        (filter (never_sent p min_seq) (BitmapRange.for_each set))) ∧
    (some = true ↔ ∃ c, c ∈ changes p ∧ BitmapFacts.mem set (num c) ∧ status_ c = UNACKNOWLEDGED).
Proof.
  intros Hok Hset Hmin Hknown. unfold requested_changes_set. rewrite SN.neqb_negb.
  rewrite (proj2 (negb_true_iff _)) by (rewrite <-not_true_iff_false, SN.eqb_eq in *; congruence).
  rewrite request_many; [|done|done|exact (BitmapFacts.for_each_wf set Hset)]. eexists. split.
  - do 3 f_equal. f_equal. apply list_fmap_ext. intros i c _. unfold requested_all, requested_by.
    apply (f_equal (λ b : bool, if b then _ else _)), bool_decide_ext. by rewrite members_of.
  - simpl. rewrite existsb_exists. setoid_rewrite <-list_elem_of_In. unfold asked.
    setoid_rewrite bool_decide_eq_true. by setoid_rewrite (λ n, members_of set n Hset).
Qed.

Lemma requested_by_seq set c : seq_num_ (requested_by set c) = seq_num_ c.
Proof. unfold requested_by, markAllFragmentsAsUnsent. case_bool_decide; [|done]. by destruct (negb _). Qed.

(** C19: a negative acknowledgement is answered exactly.  Each change the reader
    asks for that was sent and waits for its acknowledgement is marked as requested
    with all its fragments, no other change is touched, and the caller learns
    whether there was one.  The numbers handed to the gap builder are, in order,
    those asked for that the history may hold, are above the low mark and have no
    change: a number the reader still needs never becomes a gap. *)
Theorem requests_answered p (set : SequenceNumberSet_t) (gb : GapBuilder.RTPSGapBuilder G) min_seq
    (Hok : proxy_ok p) (Hset : BitmapFacts.inv set) (Hmin : SN.wf min_seq) (Hknown : min_seq ≠ SN.unknown) :
  ∃ some p', requested_changes_set p set gb min_seq =
      Done (some, p', foldl (λ b s, (GapBuilder.add b s).2) gb
                        (filter (never_sent p min_seq) (BitmapRange.for_each set))) ∧
    proxy_ok p' ∧ changes_low_mark_ p' = changes_low_mark_ p ∧
    (some = true ↔ ∃ c, c ∈ changes p ∧ BitmapFacts.mem set (num c) ∧ status_ c = UNACKNOWLEDGED) ∧
    changes p' = (λ c, if bool_decide (BitmapFacts.mem set (num c) ∧ status_ c = UNACKNOWLEDGED)
                       then markAllFragmentsAsUnsent (setStatus c REQUESTED) else c) <$> changes p.
Proof.
  destruct (requests_spec p set gb min_seq Hok Hset Hmin) as (some & E & Hsome).
  { apply not_true_is_false. by rewrite SN.eqb_eq. }
  eexists some, _. split; [exact E|]. split_and!; [|done|done|done].
  apply mapped_ok; [done|]. intros c. apply requested_by_seq.
Qed.

End requests.

(** *** Holes *)

(** The number before the change at a place: that of the change before it, or the
    low mark. *)
Lemma number_before p it c :
  proxy_ok p → changes p !! it = Some c →
  let before := match it with
                | O => changes_low_mark_ p
                | S i => from_option seq_num_ (changes_low_mark_ p) (changes p !! i)
                end in
  SN.wf before ∧ SN.val (changes_low_mark_ p) <= SN.val before < num c ∧
  (∀ n, SN.val before < n < num c → at_num n (changes p) = None) ∧
  (SN.val (changes_low_mark_ p) < SN.val before → at_num (SN.val before) (changes p) ≠ None).
Proof.
  intros [[Hlow _] Hnums Hs] Hit. rewrite Forall_forall in Hnums.
  destruct it as [|i]; simpl.
  - destruct (Hnums c) as [_ ?]; [by eapply list_elem_of_lookup_2|]. split_and!; [done|lia|lia| |lia].
    intros n Hn. apply at_num_None. intros d [j Hj]%list_elem_of_lookup <-.
    destruct (decide (j = 0)%nat) as [->|]; [rewrite Hit in Hj; injection Hj as ->; lia|].
    pose proof (sorted_nth _ _ _ _ _ Hs Hit Hj). lia.
  - destruct (changes p !! i) as [b|] eqn:Eb.
    2: { apply lookup_ge_None in Eb. apply lookup_lt_Some in Hit. lia. }
    simpl. destruct (Hnums b) as [Hb ?]; [by eapply list_elem_of_lookup_2|].
    pose proof (sorted_nth _ _ _ _ _ Hs Eb Hit ltac:(lia)). fold (num b). split_and!; [done|lia|lia| |].
    + intros n Hn. apply at_num_None. intros d [j Hj]%list_elem_of_lookup <-.
      destruct (Nat.lt_trichotomy j i) as [Hlt|[->|Hlt]]; [pose proof (sorted_nth _ _ _ _ _ Hs Hj Eb Hlt); lia|
        rewrite Eb in Hj; injection Hj as ->; lia|].
      destruct (decide (j = S i)%nat) as [->|]; [rewrite Hit in Hj; injection Hj as ->; lia|].
      pose proof (sorted_nth _ _ _ _ _ Hs Hit Hj). lia.
    + intros _. rewrite (proj2 (at_num_Some (changes p) (num b) i b Hs)) by done. done.
Qed.

Lemma unsent_step p seq min_seq :
  proxy_ok p → SN.wf seq →
  change_is_unsent p seq min_seq = Done (
    match at_num (SN.val seq) (changes p) with
    | Some (it, c) =>
        if bool_decide (status_ c = UNSENT) then
          let first := is_reliable_ p && negb (delivered_ c) in
          Some (mkUnsent (get_next_unsent_fragment c) (if first then gap_before p it c seq min_seq else SN.unknown) first)
        else None
    | None => None
    end).
Proof.
  intros Hok Hseq. pose proof Hok as [[Hlow Hlow0] Hnums Hs]. rewrite Forall_forall in Hnums. unfold change_is_unsent.
  destruct (_ || _) eqn:Eskip; [|by rewrite lookup_change_spec].
  destruct (at_num (SN.val seq) (changes p)) as [[it c]|] eqn:E; [|done]. exfalso. apply at_num_Some in E as [Hi Hn]; [|done].
  rewrite SN.leb_val in Eskip by done. apply orb_true_iff in Eskip as [Hle%Z.leb_le|E].
  - destruct (Hnums c) as [_ ?]; [by eapply list_elem_of_lookup_2|]. lia.
  - unfold RLV.empty, changes in *. by destruct (RLV.collection_ _).
Qed.

Lemma gap_before_sound p it c seq min_seq :
  proxy_ok p → SN.wf seq → SN.wf min_seq → changes p !! it = Some c → num c = SN.val seq →
  let g := gap_before p it c seq min_seq in
  g = SN.unknown ∨ SN.wf g ∧ SN.val (changes_low_mark_ p) < SN.val g < SN.val seq ∧
    ∀ n, SN.val g <= n < SN.val seq →
      SN.val (changes_low_mark_ p) < n ∧ SN.val min_seq <= n ∧ at_num n (changes p) = None.
Proof.
  intros Hok Hseq Hmin Hit Hn g. pose proof Hok as [[Hlow Hlow0] Hnums Hs]. rewrite Forall_forall in Hnums.
  destruct (number_before p it c Hok Hit) as (Hb & Hbv & Hhole & Hpres).
  destruct (Hnums c) as [Hc Hcv]; [by eapply list_elem_of_lookup_2|]. subst g.
  unfold gap_before; set (before := match it with O => _ | S _ => _ end) in *.
  destruct (SN.add_u32_val before 1) as [Hprev _]; [done|range_unfold; lia|lia|].
  assert (SN.wf (SN.add_u32 before 1)) as Hpw by (apply SN.add_u32_wf; [done|range_unfold; lia]).
  rewrite SN.neqb_negb, SN.eqb_val, !SN.ltb_val by done; fold (num c).
  destruct (Z.eqb_spec (SN.val (SN.add_u32 before 1)) (num c)) as [|Hne]; [by left|]. simpl.
  destruct (Z.ltb_spec (SN.val (SN.add_u32 before 1)) (SN.val min_seq)) as [Hlt|Hge];
    [destruct (Z.ltb_spec (SN.val min_seq) (SN.val seq)); [|by left]|]; right;
    (split; [done|]); (split; [lia|]); intros n Hrange; (split_and!; [lia|lia|apply Hhole; lia]).
Qed.

(** The hole a writer announces before an unsent change is a real one.  The
    answer of [change_is_unsent] is that of the status; the first time a change is
    sent to a reliable reader, each number from the start of the hole up to the
    change is above the low mark, in the range of the history and without a change
    for this reader, and every such number directly before the change is covered. *)
Theorem announced_hole_exact p seq min_seq
    (Hok : proxy_ok p) (Hseq : SN.wf seq) (Hmin : SN.wf min_seq) (Hpos : 0 < SN.val min_seq) :
  ∃ r, change_is_unsent p seq min_seq = Done r ∧
    (r = None ↔ ∀ i c, at_num (SN.val seq) (changes p) = Some (i, c) → status_ c ≠ UNSENT) ∧
    ∀ u, r = Some u → ∃ i c, at_num (SN.val seq) (changes p) = Some (i, c) ∧
      next_unsent_frag u = get_next_unsent_fragment c ∧
      need_reactivate_periodic_heartbeat u = is_reliable_ p && negb (delivered_ c) ∧
      (gap_seq u ≠ SN.unknown → ∀ n, SN.val (gap_seq u) <= n < SN.val seq →
        SN.val (changes_low_mark_ p) < n ∧ SN.val min_seq <= n ∧ at_num n (changes p) = None) ∧
      (is_reliable_ p = true → delivered_ c = false → ∀ n, SN.val (changes_low_mark_ p) < n < SN.val seq →
        SN.val min_seq <= n → (∀ m, n <= m < SN.val seq → at_num m (changes p) = None) →
        gap_seq u ≠ SN.unknown ∧ SN.val (gap_seq u) <= n).
Proof.
  pose proof Hok as [[Hlow Hlow0] Hnums Hs]. rewrite Forall_forall in Hnums.
  rewrite unsent_step by done. eexists. split; [reflexivity|].
  destruct (at_num (SN.val seq) (changes p)) as [[it c]|] eqn:E; [|split; [split; [done|done]|done]].
  pose proof E as [Hit Hn]%at_num_Some; [|done]. case_bool_decide as Hst; [|split; [naive_solver|done]].
  split; [split; [done|intros Hno; by destruct (Hno it c)]|].
  intros u [= <-]. exists it, c. simpl. split_and!; [done..| |].
  - destruct (_ && _); [|done]. intros Hne.
    destruct (gap_before_sound p it c seq min_seq Hok Hseq Hmin Hit Hn) as [|(_ & _ & Hall)]; [done|exact Hall].
  - intros -> Hdel n Hrange Hge Hfree. rewrite Hdel. simpl.
    destruct (number_before p it c Hok Hit) as (Hb & Hbv & Hhole & Hpres).
    destruct (Hnums c) as [Hc Hcv]; [by eapply list_elem_of_lookup_2|].
    unfold gap_before; set (before := match it with O => _ | S _ => _ end) in *.
    destruct (SN.add_u32_val before 1) as [Hprev _]; [done|range_unfold; lia|lia|].
    assert (SN.wf (SN.add_u32 before 1)) as Hpw by (apply SN.add_u32_wf; [done|range_unfold; lia]).
    rewrite SN.neqb_negb, SN.eqb_val, !SN.ltb_val by done; fold (num c).
    assert (SN.val before < n) as Hbn.
    { destruct (Z.lt_ge_cases (SN.val before) n); [done|]. destruct Hpres; [lia|]. apply Hfree. lia. }
    assert (SN.val SN.unknown < 0) as Hunk by (vm_compute; done).
    destruct (Z.eqb_spec (SN.val (SN.add_u32 before 1)) (num c)) as [|Hne]; [lia|]. simpl.
    destruct (Z.ltb_spec (SN.val (SN.add_u32 before 1)) (SN.val min_seq));
      [destruct (Z.ltb_spec (SN.val min_seq) (SN.val seq)); [|lia]|];
      (split; [intros F; apply (f_equal SN.val) in F; lia|lia]).
Qed.

(** *** The invariant *)

Lemma ok_set_change p i c d :
  proxy_ok p → changes p !! i = Some c → seq_num_ d = seq_num_ c → proxy_ok (set_change p i d).
Proof.
  intros [Hlow Hnums Hs] Hi Hd. constructor; simpl; [done|..]; unfold changes; simpl; fold (changes p).
  - apply Forall_insert; [done|]. rewrite Forall_forall in Hnums. unfold num. rewrite Hd.
    apply Hnums. by eapply list_elem_of_lookup_2.
  - rewrite list_fmap_insert. rewrite list_insert_id; [done|].
    rewrite list_lookup_fmap, Hi. simpl. unfold num. by rewrite Hd.
Qed.

Lemma ok_delete p i : proxy_ok p → proxy_ok (with_changes p (delete i (changes p))).
Proof.
  intros [Hlow Hnums Hs]. constructor; simpl; [done|..]; unfold changes; simpl; fold (changes p).
  - by apply Forall_delete.
  - clear Hnums. revert i. induction (changes p) as [|c l IH]; intros [|i]; simpl in *; try done.
    + by apply StronglySorted_inv in Hs as [? _].
    + apply StronglySorted_inv in Hs as [Hs Hc]. constructor; [by apply IH|].
      rewrite Forall_fmap in Hc |- *. by apply Forall_delete.
Qed.

Lemma ok_timers p n b on : proxy_ok p → proxy_ok (with_timers p n b on).
Proof. intros [? ? ?]. by constructor. Qed.

Lemma ok_counts p n m : proxy_ok p → proxy_ok (with_counts p n m).
Proof. intros [? ? ?]. by constructor. Qed.

Lemma ok_acked h p p' seq :
  proxy_ok p → SN.wf seq → SN.val seq < 2 ^ 63 - 1 → seq ≠ SN.default ∨ durability_kind_ p = ReaderLocator.VOLATILE →
  acked_changes_set h p seq = Done p' → proxy_ok p'.
Proof.
  intros Hok Hseq Hmax Hno E. destruct (Z.lt_ge_cases (SN.val (changes_low_mark_ p)) (SN.val seq)) as [Hlt|Hge].
  - destruct (acked_set_up h p seq Hok Hseq) as (low & k & E' & Hlow & Hv & _ & Hd & _); [lia|].
    rewrite E' in E. injection E as <-. pose proof (p_low _ Hok). apply dropped_ok; (done || lia).
  - pose proof Hok as [[Hlow _] _ _]. unfold acked_changes_set in E. rewrite SN.gtb_val in E by done.
    rewrite (proj2 (Z.ltb_ge _ _)) in E by lia. rewrite same_low_mark in E by done.
    replace (SN.eqb seq SN.default && negb (bool_decide (durability_kind_ p = ReaderLocator.VOLATILE)))
      with false in E; [by injection E as <-|].
    symmetry. apply andb_false_iff. destruct Hno as [Hno| ->]; [left|by right].
    apply not_true_is_false. by rewrite SN.eqb_eq.
Qed.

(** The number after one that has a change. *)
Lemma next_number_ok p i c seq :
  proxy_ok p → SN.wf seq → at_num (SN.val seq) (changes p) = Some (i, c) →
  SN.wf (SN.add_u32 seq 1) ∧ SN.val (SN.add_u32 seq 1) <= 2 ^ 63 - 1 ∧ SN.add_u32 seq 1 ≠ SN.default.
Proof.
  intros [[_ Hlow] Hnums Hs] Hseq [Hi Hn]%at_num_Some; [|done]. rewrite Forall_forall in Hnums.
  destruct (Hnums c) as [_ ?]; [by eapply list_elem_of_lookup_2|].
  destruct (SN.add_u32_val seq 1) as [Hv _]; [done|range_unfold; lia|lia|].
  split; [apply SN.add_u32_wf; [done|range_unfold; lia]|]. split; [lia|].
  intros E. rewrite E in Hv. assert (SN.val SN.default = 0) by done. lia.
Qed.

Lemma push_change_ok ndebug p c rel p' :
  proxy_ok p → SN.wf (seq_num_ c) → SN.val (changes_low_mark_ p) < num c < 2 ^ 63 - 1 →
  Forall (λ d, num d < num c) (changes p) → push_change ndebug p c rel = Done p' → proxy_ok p'.
Proof.
  intros Hok Hc Hrange Hlast. pose proof Hok as [[Hlow Hlv] Hnums Hs]. unfold push_change. intros E. done_inv.
  destruct rel; simpl in E.
  - destruct (RLV.push_back _ c) as [ok v] eqn:Ev. done_inv. subst p'.
    assert (RLV.collection_ v = changes p ∨ RLV.collection_ v = changes p ++ [c]) as Hv.
    { unfold RLV.push_back, RLV.emplace_back, RLV.ensure_capacity in Ev.
      repeat case_match; simplify_eq/=; by (left + right). }
    constructor; simpl; [done|..]; unfold changes; simpl; destruct Hv as [->| ->]; try done.
    + apply Forall_app_2; [done|by apply Forall_singleton].
    + rewrite fmap_app. apply StronglySorted_app_2; [|done|repeat constructor].
      intros n m (d & -> & Hd)%list_elem_of_fmap ->%list_elem_of_singleton. rewrite Forall_forall in Hlast. by apply Hlast.
  - destruct (negb (is_reliable_ p) && _) eqn:Eb; injection E as <-; [|done].
    apply andb_true_iff in Eb as [_ Eb%SN.eqb_eq].
    destruct (SN.add_u32_val (changes_low_mark_ p) 1) as [Hv _]; [done|range_unfold; lia|lia|].
    rewrite Eb in Hv. fold (num c) in Hv. destruct (changes p) as [|d l] eqn:Ed.
    + constructor; simpl; unfold changes in *; simpl; rewrite ?Ed; [split; [done|fold (num c); lia]|constructor..].
    + apply Forall_cons in Hlast as [Hd _]. apply Forall_cons in Hnums as [[_ ?] _]. lia.
Qed.

Lemma markFragmentsAsSent_seq ndebug c n c' : markFragmentsAsSent ndebug c n = Done c' → seq_num_ c' = seq_num_ c.
Proof.
  unfold markFragmentsAsSent. destruct (BitmapRange.remove (unsent_fragments_ c) n); [|done].
  destruct (_ && _); intros E; done_inv; by subst.
Qed.

Lemma markFragmentsAsUnsent_seq c u : seq_num_ (markFragmentsAsUnsent c u) = seq_num_ c.
Proof. unfold markFragmentsAsUnsent. destruct (delivered_ c); [|done]. by destruct (BitmapRange.empty (unsent_fragments_ c)). Qed.

(** The lookup in front of an operation that is done. *)
Ltac found_change Hok :=
  match goal with
  | H : lookup_change _ _ = Done ?found |- _ =>
      rewrite lookup_change_spec in H by (done || apply Hok); injection H as <-;
      let E := fresh "Hat" in let it := fresh "it" in let c := fresh "c" in
      destruct (at_num _ _) as [[it c]|] eqn:E
  end.

Lemma from_unsent_ok ndebug h p seq st restart del e p' :
  proxy_ok p → SN.wf seq → SN.val seq + 1 < 2 ^ 63 - 1 →
  from_unsent_to_status ndebug h p seq st restart del = Done (e, p') → proxy_ok p'.
Proof.
  intros Hok Hseq Hmax E. unfold from_unsent_to_status in E. apply bind_Done in E as (_ & _ & E).
  apply bind_Done in E as ([e1 p1] & Ep & E).
  assert (proxy_ok p1) as Hok1.
  { destruct (restart && _); done_inv; [|by subst]. unfold restart_nack_supression in Ep.
    destruct (TimedEventImpl.go_ready _); simplify_eq. by apply ok_timers. }
  done_inv. found_change Hok1; [|done]. done_inv.
  destruct (bool_decide (st = ACKNOWLEDGED) && _); done_inv; simplify_eq.
  - destruct (next_number_ok p1 it c seq Hok1 Hseq Hat) as (Hw & _ & Hne).
    destruct (SN.add_u32_val seq 1) as [Hv _]; [done|range_unfold; lia|lia|].
    eapply (ok_acked h (with_changes p1 (delete it (changes p1)))); [by apply ok_delete|done|lia|by left|done].
  - pose proof Hat as [Hi _]%at_num_Some; [|apply Hok1]. eapply ok_set_change; [done|done|]. by destruct del.
Qed.

Lemma removed_ok h p seq e p' :
  proxy_ok p → SN.wf seq → SN.val seq + 1 < 2 ^ 63 - 1 → change_has_been_removed h p seq = Done (e, p') → proxy_ok p'.
Proof.
  intros Hok Hseq Hmax. unfold change_has_been_removed. destruct (changes p) as [|first l] eqn:Ech; [by intros [= _ <-]|].
  destruct (SN.ltb _ _); [by intros [= _ <-]|]. intros E. apply bind_Done in E as (found & Hl & E).
  found_change Hok; [|by done_inv; simplify_eq].
  set (p1 := with_changes p (delete it (first :: l))) in *.
  assert (proxy_ok p1) as Hok1 by (subst p1; rewrite <-Ech; by apply ok_delete).
  destruct (SN.eqb _ seq); done_inv; simplify_eq; [|done].
  destruct (next_number_ok p it c seq Hok Hseq Hat) as (Hw & _ & Hne).
  destruct (SN.add_u32_val seq 1) as [Hv _]; [done|range_unfold; lia|lia|].
  eapply (ok_acked h p1); [done|done|lia|by left|done].
Qed.

Lemma mark_fragment_ok ndebug p seq n found was p' :
  proxy_ok p → SN.wf seq → mark_fragment_as_sent_for_change ndebug p seq n = Done (found, was, p') → proxy_ok p'.
Proof.
  intros Hok Hseq. unfold mark_fragment_as_sent_for_change. destruct (SN.leb _ _); [by intros [= _ _ <-]|].
  intros E. apply bind_Done in E as (fnd & Hl & E). found_change Hok; [|by done_inv; simplify_eq].
  done_inv. simplify_eq. pose proof Hat as [Hi _]%at_num_Some; [|apply Hok].
  eapply ok_set_change; [done|done|]. by eapply markFragmentsAsSent_seq.
Qed.

Lemma nack_frag_ok p g n seq u r p' :
  proxy_ok p → SN.wf seq → process_nack_frag p g n seq u = Done (r, p') → proxy_ok p'.
Proof.
  intros Hok Hseq. unfold process_nack_frag. destruct (_ && _); [|by intros [= _ <-]].
  set (p1 := with_counts _ _ _). assert (proxy_ok p1) as Hok1 by by apply ok_counts.
  unfold requested_fragment_set. intros E. apply bind_Done in E as (found & Hl & E). found_change Hok1; [|by done_inv; simplify_eq].
  done_inv. simplify_eq/=. pose proof Hat as [Hi _]%at_num_Some; [|apply Hok1].
  eapply ok_set_change; [done|done|]. case_bool_decide; apply markFragmentsAsUnsent_seq.
Qed.

(** The calls a writer makes on a proxy.  Changes are added in the order of their
    numbers; the first acknowledgement of a reader that wants history apart. *)
Inductive proxy_step h (p : ReaderProxy) : ReaderProxy → Prop :=
  | step_add ndebug c rel restart e p' :
      SN.wf (seq_num_ c) → SN.val (changes_low_mark_ p) < num c < 2 ^ 63 - 1 →
      Forall (λ d, num d < num c) (changes p) →
      add_change ndebug p c rel restart = Done (e, p') → proxy_step h p p'
  | step_acked seq p' :
      SN.wf seq → SN.val seq < 2 ^ 63 - 1 → seq ≠ SN.default ∨ durability_kind_ p = ReaderLocator.VOLATILE →
      acked_changes_set h p seq = Done p' → proxy_step h p p'
  | step_requested (G : Type) (sink : GapSink G) (set : SequenceNumberSet_t) (gb : GapBuilder.RTPSGapBuilder G) min_seq r gb' p' :
      BitmapFacts.inv set → SN.wf min_seq → requested_changes_set p set gb min_seq = Done (r, p', gb') → proxy_step h p p'
  | step_supression ndebug r p' : perform_nack_supression ndebug p = Done (r, p') → proxy_step h p p'
  | step_response ndebug r p' : perform_acknack_response ndebug p = Done (r, p') → proxy_step h p p'
  | step_initial ndebug r l p' : process_initial_acknack ndebug p = Done (r, l, p') → proxy_step h p p'
  | step_sent ndebug seq st restart del e p' :
      SN.wf seq → SN.val seq + 1 < 2 ^ 63 - 1 →
      from_unsent_to_status ndebug h p seq st restart del = Done (e, p') → proxy_step h p p'
  | step_fragment ndebug seq n found was p' :
      SN.wf seq → mark_fragment_as_sent_for_change ndebug p seq n = Done (found, was, p') → proxy_step h p p'
  | step_removed seq e p' :
      SN.wf seq → SN.val seq + 1 < 2 ^ 63 - 1 → change_has_been_removed h p seq = Done (e, p') → proxy_step h p p'
  | step_nack_frag g n seq u r p' :
      SN.wf seq → process_nack_frag p g n seq u = Done (r, p') → proxy_step h p p'
  | step_start setting data ds e p' :
      WriterHistoryFacts.history_ok h → SN.val (WriterHistory.m_lastCacheChangeSeqNum h) < 2 ^ 63 - 2 →
      changes p = [] → changes_low_mark_ p = SN.default →
      start setting h p data ds = Done (e, p') → proxy_step h p p'
  | step_count n : proxy_step h p (check_and_set_acknack_count p n).2
  | step_stop : proxy_step h p (stop p).2.

Lemma ok_empty p : changes p = [] → SN.wf (changes_low_mark_ p) → 0 <= SN.val (changes_low_mark_ p) < 2 ^ 63 - 1 → proxy_ok p.
Proof. intros E ? ?. constructor; [done|rewrite E; constructor..]. Qed.

(** The numbers a new proxy starts from. *)
Lemma start_marks h :
  WriterHistoryFacts.history_ok h → SN.val (WriterHistory.m_lastCacheChangeSeqNum h) < 2 ^ 63 - 2 →
  let next := WriterHistory.next_sequence_number h in
  let mn := WriterHistory.get_seq_num_min h in
  (SN.wf (SN.sub_u32 next 1) ∧ 0 <= SN.val (SN.sub_u32 next 1) < 2 ^ 63 - 1) ∧
  (mn ≠ SN.unknown → SN.wf mn ∧ 0 < SN.val mn ∧ SN.wf (SN.sub_u32 mn 1) ∧ 0 <= SN.val (SN.sub_u32 mn 1) < 2 ^ 63 - 1).
Proof.
  intros Hh Hlast. destruct (WriterHistoryFacts.ok_last _ Hh) as [Hw Hv]. cbv zeta.
  assert (∀ s, SN.wf s → 0 < SN.val s < 2 ^ 63 - 1 → SN.wf (SN.sub_u32 s 1) ∧ 0 <= SN.val (SN.sub_u32 s 1) < 2 ^ 63 - 1) as Hsub.
  { intros s Hs Hr. split; [apply SN.sub_u32_wf; [done|range_unfold; lia]|].
    destruct (SN.sub_u32_val s 1) as [-> _]; [apply SN.nonneg_val; [done|lia]|range_unfold; lia|lia|lia]. }
  split.
  - unfold WriterHistory.next_sequence_number.
    destruct (SN.add_u32_val (WriterHistory.m_lastCacheChangeSeqNum h) 1) as [Ha _]; [done|range_unfold; lia|lia|].
    apply Hsub; [apply SN.add_u32_wf; [done|range_unfold; lia]|lia].
  - unfold WriterHistory.get_seq_num_min, History.get_min_change. pose proof (WriterHistoryFacts.ok_own _ Hh) as Hown.
    destruct (History.m_changes (WriterHistory.hist h)) as [|c l]; [done|]. intros _. simpl.
    apply Forall_cons in Hown as [(Hc & _ & Hr) _]. unfold HistorySearch.number in Hr.
    split; [done|]. split; [lia|]. apply Hsub; [done|lia].
Qed.

(** The acknowledgement a proxy simulates when it starts for a reader that wants
    history: nothing is below the mark, so nothing is put back. *)
Lemma first_ack h p :
  WriterHistoryFacts.history_ok h → SN.val (WriterHistory.m_lastCacheChangeSeqNum h) < 2 ^ 63 - 2 →
  changes_low_mark_ p = SN.default → durability_kind_ p ≠ ReaderLocator.VOLATILE →
  ∃ low, acked_changes_set h p SN.default = Done (with_low_mark p low) ∧ (SN.wf low ∧ 0 <= SN.val low < 2 ^ 63 - 1) ∧
    (low = SN.default ∨ low = SN.sub_u32 (WriterHistory.next_sequence_number h) 1 ∨
     WriterHistory.get_seq_num_min h ≠ SN.unknown ∧ low = SN.sub_u32 (WriterHistory.get_seq_num_min h) 1).
Proof.
  intros Hh Hlast Hlow Hdur. destruct (start_marks h Hh Hlast) as [Hnext Hmin].
  unfold acked_changes_set. rewrite Hlow. cbn [SN.gtb SN.eqb SN.default SN.high SN.low andb orb Z.ltb Z.eqb Z.compare].
  rewrite bool_decide_false by done. cbn [negb andb].
  replace (SN.gtb (SN.mkSN 0 0) (SN.mkSN 0 0)) with false by done. rewrite SN.neqb_negb.
  destruct (SN.eqb (WriterHistory.get_seq_num_min h) SN.unknown) eqn:Eu; cbn [negb].
  - destruct (is_local_reader p); cbn [negb].
    + exists SN.default. split; [done|]. split; [|by left]. split; [split; range_unfold; simpl; lia|vm_compute; split; congruence].
    + exists (SN.sub_u32 (WriterHistory.next_sequence_number h) 1). split; [done|]. split; [exact Hnext|right; by left].
  - assert (WriterHistory.get_seq_num_min h ≠ SN.unknown) as Hne by (intros F; apply SN.eqb_eq in F; congruence).
    destruct (Hmin Hne) as (Hw & Hpos & Hsub).
    assert (SN.wf (SN.mkSN 0 0)) as Hz by (split; range_unfold; simpl; lia).
    rewrite SN.ltb_val by done. change (SN.val (SN.mkSN 0 0)) with 0. rewrite (proj2 (Z.ltb_lt _ _)) by done.
    replace (replay _ h p _ false) with (Done (p, false)).
    { exists (SN.sub_u32 (WriterHistory.get_seq_num_min h) 1). split; [done|]. split; [exact Hsub|right; by right]. }
    symmetry. assert (SN.val (SN.mkSN 0 0) = 0) as Hv0 by done. unfold SN.default in *.
    replace (Z.to_nat _) with 0%nat by lia. simpl. rewrite Hlow, SN.leb_val by done.
    by rewrite (proj2 (Z.leb_gt _ _)) by lia.
Qed.

Lemma start_ok setting h p data ds e p' :
  WriterHistoryFacts.history_ok h → SN.val (WriterHistory.m_lastCacheChangeSeqNum h) < 2 ^ 63 - 2 →
  changes p = [] → changes_low_mark_ p = SN.default →
  start setting h p data ds = Done (e, p') → proxy_ok p'.
Proof.
  intros Hh Hlast Hch Hlow0. destruct (start_marks h Hh Hlast) as [Hnext Hmin].
  unfold start. destruct (ReaderLocator.start _ _ _ _ _ _ _ _) as [ok loc]. set (p1 := mkProxy _ _ _ _ _ _ _ _ _ _ _ _ _ _).
  intros E. apply bind_Done in E as (p2 & E2 & E).
  assert (∃ low, p2 = with_low_mark p1 low ∧ SN.wf low ∧ 0 <= SN.val low < 2 ^ 63 - 1) as (low & -> & Hlow & Hv).
  { case_bool_decide as Edur.
    - injection E2 as <-. eexists. split; [reflexivity|].
      destruct (SN.eqb _ _) eqn:Eu; [exact Hnext|]. apply Hmin. intros F. apply SN.eqb_eq in F. congruence.
    - destruct (first_ack h p1 Hh Hlast Hlow0 Edur) as (low & E' & Hr & _). rewrite E' in E2. injection E2 as <-.
      by exists low. }
  assert (proxy_ok (with_low_mark p1 low)) as Hok by by apply ok_empty.
  destruct (is_local_reader _); [destruct (TimedEventImpl.go_ready _)|]; done_inv; simplify_eq;
    repeat apply ok_timers; exact Hok.
Qed.

Lemma converted_ok ndebug p a b l p' :
  proxy_ok p → convert_status_on_all_changes ndebug p a b = Done (l, p') → proxy_ok p'.
Proof.
  intros Hok E. unfold convert_status_on_all_changes in E. done_inv. simplify_eq.
  apply mapped_ok; [done|]. intros c. by case_bool_decide.
Qed.

Lemma proxy_step_ok h p p' : proxy_ok p → proxy_step h p p' → proxy_ok p'.
Proof.
  intros Hok Hstep. destruct Hstep as [ndebug c rel restart e p' Hc Hr Hl E|seq p' Hs Hm Hno E|G sink set gb mn r gb' p' Hset Hmin E|
    ndebug r p' E|ndebug r p' E|ndebug r l p' E|ndebug seq st restart del e p' Hs Hm E|ndebug seq n f w p' Hs E|
    seq e p' Hs Hm E|g n seq u r p' Hs E|setting data ds e p' Hh Hlast Hch Hlow E|n|].
  - unfold add_change in E. destruct (restart && _); [unfold restart_nack_supression in E; destruct (TimedEventImpl.go_ready _)|];
      done_inv; simplify_eq;
      match goal with E : push_change _ ?q _ _ = Done _ |- _ =>
        apply (push_change_ok _ q _ _ _ ltac:(first [exact Hok|by apply ok_timers]) Hc Hr Hl E) end.
  - by eapply ok_acked.
  - unfold requested_changes_set in E. destruct (SN.neqb _ _); [|by done_inv; simplify_eq].
    rewrite request_many in E; [|done|done|exact (BitmapFacts.for_each_wf set Hset)]. simplify_eq.
    apply mapped_ok; [done|]. intros c. unfold requested_all, markAllFragmentsAsUnsent.
    case_bool_decide; [|done]. by destruct (negb _).
  - unfold perform_nack_supression in E. apply bind_Done in E as ([l p1] & E1 & E). done_inv. simplify_eq. by eapply converted_ok.
  - by eapply converted_ok.
  - unfold process_initial_acknack in E. destruct (is_local_reader p); [|by done_inv; simplify_eq].
    apply bind_Done in E as ([l1 p1] & E1 & E). done_inv. simplify_eq. by eapply converted_ok.
  - by eapply from_unsent_ok.
  - by eapply mark_fragment_ok.
  - by eapply removed_ok.
  - by eapply nack_frag_ok.
  - by eapply start_ok.
  - unfold check_and_set_acknack_count. destruct (_ <=? _); [by apply ok_counts|done].
  - unfold stop, disable_timers. simpl. repeat case_match; simplify_eq/=;
      (constructor; simpl; [split; [split; range_unfold; simpl; lia|vm_compute; split; congruence]|constructor..]).
Qed.

(** In every reader proxy that a writer can reach, from its construction and
    through any calls, the changes are in the order of their numbers and above the
    low mark.  So each search among them is defined and finds the change with the
    number if there is one, and the proxy says of a number that it is acknowledged
    just if it is at or below the low mark, has no change or has a change with that
    status. *)
Theorem reader_proxies_ok h0 uni multi us now p
    (Hreach : rtc (λ p p', ∃ h, proxy_step h p p') (create_proxy h0 uni multi us now) p) :
  proxy_ok p ∧ ∀ seq, SN.wf seq →
    lookup_change p seq = Done (at_num (SN.val seq) (changes p)) ∧
    change_is_acked p seq = Done (acked p (SN.val seq)).
Proof.
  assert (proxy_ok p) as Hok.
  { assert (proxy_ok (create_proxy h0 uni multi us now)) as Hnew;
      [|induction Hreach as [|? ? ? [h Hstep] _ IH]; [done|]; apply IH; by eapply proxy_step_ok].
    unfold create_proxy, stop, disable_timers. simpl. repeat case_match; simplify_eq/=;
      (constructor; simpl; [split; [split; range_unfold; simpl; lia|vm_compute; split; congruence]|constructor..]). }
  split; [done|]. intros seq Hseq. split; [by apply lookup_change_spec|by apply change_is_acked_spec].
Qed.

(** *** The history put back *)

Lemma lower_bound_all {A} (before : A → bool) l :
  Forall (λ x, before x = true) l → History.lower_bound before l = Done (length l).
Proof.
  intros Hl. unfold History.lower_bound.
  assert (History.find_if (λ x, negb (before x)) l = length l) as ->; [|by rewrite drop_all].
  induction Hl as [|x l Hx _ IH]; simpl; [done|]. by rewrite Hx, IH.
Qed.

Lemma length_filter_weaken {A} (P Q : A → Prop) `{!∀ x, Decision (P x), !∀ x, Decision (Q x)} l :
  (∀ x, P x → Q x) → (length (filter P l) <= length (filter Q l))%nat.
Proof.
  intros HPQ. induction l as [|x l IH]; [done|]. rewrite !filter_cons.
  destruct (decide (P x)) as [Hp|Hp], (decide (Q x)) as [Hq|Hq]; simpl; try lia. by destruct Hq; apply HPQ.
Qed.

(** The changes of a sorted history below a number, and below the next. *)
Lemma below_succ (l : list CacheChange_t) n :
  StronglySorted Z.lt (number <$> l) →
  filter (λ c, number c < n + 1) l =
  filter (λ c, number c < n) l ++ match WriterHistoryFacts.contents l !! n with Some c => [c] | None => [] end.
Proof.
  intros Hs. induction l as [|c l IH]; [done|]. pose proof Hs as Hs'. simpl in Hs.
  apply StronglySorted_inv in Hs as [Hs Hc]. rewrite Forall_fmap, Forall_forall in Hc.
  rewrite !filter_cons, IH by done.
  change (WriterHistoryFacts.contents (c :: l)) with (<[number c := c]> (WriterHistoryFacts.contents l)).
  destruct (Z.lt_trichotomy (number c) n) as [Hlt|[Heq|Hgt]].
  - rewrite !decide_True by lia. rewrite lookup_insert_ne by lia. done.
  - rewrite decide_True, decide_False by lia. rewrite Heq, lookup_insert_eq.
    rewrite !filter_none; [|intros d Hd; specialize (Hc d Hd); simpl in Hc; lia].
    assert (WriterHistoryFacts.contents l !! n = None) as ->; [|done].
    apply eq_None_not_Some. intros [d [Hd Hn]%WriterHistoryFacts.contents_lookup]; [|done].
    specialize (Hc d Hd). simpl in Hc. lia.
  - rewrite !decide_False by lia. rewrite lookup_insert_ne by lia.
    rewrite filter_none; [|intros d Hd; specialize (Hc d Hd); simpl in Hc; lia].
    assert (WriterHistoryFacts.contents l !! n = None) as ->; [|done].
    apply eq_None_not_Some. intros [d [Hd Hn]%WriterHistoryFacts.contents_lookup]; [|done].
    specialize (Hc d Hd). simpl in Hc. lia.
Qed.

(** A change of the history as it is put back. *)
Definition put_back (c : CacheChange_t) : ChangeForReader_t := setStatus (create c) UNACKNOWLEDGED.

Lemma num_put_back c : num (put_back c) = number c.
Proof. done. Qed.

Definition holds (v : RLV.t ChangeForReader_t) (n : nat) : Prop :=
  RLV.wf v ∧ Z.of_nat n <= RLV.maximum (RLV.configuration_ v).

Lemma replay_spec h fuel p current b :
  WriterHistoryFacts.history_ok h → SN.wf current → SN.wf (changes_low_mark_ p) →
  let l := History.m_changes (WriterHistory.hist h) in
  let low := SN.val (changes_low_mark_ p) in
  0 <= SN.val current <= low + 1 → low < 2 ^ 63 - 1 → low - SN.val current + 1 <= Z.of_nat fuel →
  changes p = put_back <$> filter (λ c, number c < SN.val current) l →
  holds (changes_for_reader_ p) (length (filter (λ c, number c < low + 1) l)) →
  ∃ v b', replay fuel h p current b = Done (with_vector p v, b') ∧
    RLV.collection_ v = put_back <$> filter (λ c, number c < low + 1) l ∧
    RLV.configuration_ v = RLV.configuration_ (changes_for_reader_ p).
Proof.
  intros Hh. revert p current b. induction fuel as [|fuel IH]; intros p current b Hcur Hlow l low Hr Hmax Hf Hch [Hwf Hroom];
    simpl; rewrite SN.leb_val by done; fold low.
  { rewrite (proj2 (Z.leb_gt _ _)) by lia. exists (changes_for_reader_ p), b.
    replace (SN.val current) with (low + 1) in Hch by lia. split; [by destruct p|done]. }
  destruct (Z.leb_spec (SN.val current) low) as [Hle|Hgt]; cycle 1.
  { exists (changes_for_reader_ p), b. replace (SN.val current) with (low + 1) in Hch by lia. split; [by destruct p|done]. }
  pose proof (WriterHistoryFacts.ok_own _ Hh) as Hown. pose proof (WriterHistoryFacts.ok_sorted _ Hh) as Hs.
  unfold find_change. rewrite lower_bound_all; cycle 1.
  { rewrite Hch, Forall_fmap. apply Forall_forall. intros c [Hlt Hin]%list_elem_of_filter. simpl.
    rewrite Forall_forall in Hown. destruct (Hown c Hin) as (Hc & _). unfold change_less_than_sequence. simpl.
    rewrite SN.ltb_val by done. by apply Z.ltb_lt. }
  cbn [mbind outcome_bind mret outcome_ret]. rewrite lookup_ge_None_2, drop_all by done. cbn [skip_present].
  rewrite SN.leb_val by done. fold low. rewrite (proj2 (Z.leb_le _ _)) by done.
  rewrite WriterHistoryFacts.get_change_contents by done. fold l.
  destruct (SN.incr_val current) as [Hincr _]; [done|lia|]. pose proof (SN.incr_wf _ Hcur) as Hwi.
  pose proof (below_succ l (SN.val current) Hs) as Hsucc. rewrite <-Hincr in Hsucc.
  destruct (WriterHistoryFacts.contents l !! SN.val current) as [c|] eqn:E.
  - assert (RLV.size (changes_for_reader_ p) < RLV.maximum (RLV.configuration_ (changes_for_reader_ p))) as Hsz.
    { unfold RLV.size. fold (changes p). rewrite Hch, length_fmap.
      assert (length (filter (λ c, (number c < SN.val (SN.incr current))%Z) l) <= length (filter (λ c, (number c < low + 1)%Z) l))%nat as Hlen.
      { apply length_filter_weaken. intros; lia. }
      rewrite Hsucc, length_app in Hlen. simpl in Hlen. lia. }
    destruct (RLV.push_back_room (changes_for_reader_ p) (put_back c) Hwf Hsz) as (_ & cap & Epush & Hcap & Hmore).
    fold (put_back c). rewrite Epush. cbn [snd].
    destruct (IH (with_vector p (RLV.mk (RLV.configuration_ (changes_for_reader_ p)) cap (RLV.collection_ (changes_for_reader_ p) ++ [put_back c])))
      (SN.incr current) true) as (v & b' & -> & Hv & Hcfg); try done; try (simpl; lia).
    + unfold changes. simpl. fold (changes p). fold l. rewrite Hch, Hsucc, fmap_app. done.
    + split; [|done]. destruct Hwf as (? & ? & ?). unfold RLV.wf, RLV.size in *. simpl. rewrite length_app. simpl. split_and!; [done|lia..].
    + exists v, b'. done.
  - rewrite app_nil_r in Hsucc. destruct (IH p (SN.incr current) b) as (v & b' & -> & Hv & Hcfg); try done; try lia.
    + fold l. by rewrite Hsucc.
    + by exists v, b'.
Qed.

Lemma sort_by_same {A} (key : A → Z) l : StronglySorted Z.lt (key <$> l) → sort_by key l = l.
Proof.
  intros Hs. apply (StronglySorted_unique_strong (by_key key)).
  - intros x y Hx Hy Hxy Hyx. rewrite sort_by_perm in Hx. unfold by_key in *.
    apply list_elem_of_lookup in Hx as [i Hi], Hy as [j Hj]. apply StronglySorted_lt_NoDup in Hs.
    assert (i = j) as ->; [|congruence].
    apply (NoDup_lookup _ i j (key x) Hs); rewrite list_lookup_fmap; [by rewrite Hi|rewrite Hj; simpl; f_equal; lia].
  - apply sort_by_sorted.
  - induction l as [|x l IH]; [constructor|]. simpl in Hs. apply StronglySorted_inv in Hs as [Hs Hx].
    constructor; [by apply IH|]. rewrite Forall_fmap in Hx. eapply Forall_impl; [exact Hx|].
    unfold by_key. simpl. intros; lia.
  - apply sort_by_perm.
Qed.

Lemma put_back_sorted l n :
  StronglySorted Z.lt (number <$> l) → StronglySorted Z.lt (num <$> (put_back <$> filter (λ c, number c < n) l)).
Proof.
  intros Hs. rewrite <-list_fmap_compose. rewrite (list_fmap_ext _ number) by done.
  induction l as [|c l IH]; [constructor|]. simpl in Hs. apply StronglySorted_inv in Hs as [Hs Hc].
  rewrite filter_cons. case_decide; [|by apply IH]. simpl. constructor; [by apply IH|].
  rewrite Forall_fmap, Forall_forall in Hc |- *. intros d [_ Hd]%list_elem_of_filter. by apply Hc.
Qed.

(** When a reader that wants history has nothing pending and acknowledges
    nothing, as it does first and after it was lost, the writer puts back exactly
    what it still has: each change of its history up to the low mark waits again to
    be acknowledged, whole and in order, and the low mark is set just below the
    oldest.  The loop over the numbers ends within its bound. *)
Theorem history_put_back h p
    (Hh : WriterHistoryFacts.history_ok h) (Hne : History.m_changes (WriterHistory.hist h) ≠ [])
    (Hok : proxy_ok p) (Hnone : changes p = []) (Hdur : durability_kind_ p ≠ ReaderLocator.VOLATILE)
    (Hmin : SN.val (WriterHistory.get_seq_num_min h) <= SN.val (changes_low_mark_ p) + 1)
    (Hroom : holds (changes_for_reader_ p) (length (filter (λ c, number c < SN.val (changes_low_mark_ p) + 1)
      (History.m_changes (WriterHistory.hist h))))) :
  ∃ p', acked_changes_set h p SN.default = Done p' ∧ proxy_ok p' ∧
    SN.val (changes_low_mark_ p') = SN.val (WriterHistory.get_seq_num_min h) - 1 ∧
    changes p' = (λ c, setStatus (create c) UNACKNOWLEDGED) <$>
      filter (λ c, number c < SN.val (changes_low_mark_ p) + 1) (History.m_changes (WriterHistory.hist h)).
Proof.
  pose proof Hok as [[Hlow Hlv] _ _]. set (l := History.m_changes _) in *.
  set (low := SN.val (changes_low_mark_ p)) in *.
  pose proof (WriterHistoryFacts.ok_own _ Hh) as Hown. pose proof (WriterHistoryFacts.ok_sorted _ Hh) as Hs. fold l in Hown, Hs.
  set (mn := WriterHistory.get_seq_num_min h) in *.
  assert (SN.wf mn ∧ 0 < SN.val mn ∧ Forall (λ c, SN.val mn <= number c) l) as (Hmw & Hmv & Hleast).
  { subst mn. unfold WriterHistory.get_seq_num_min, History.get_min_change. fold l.
    destruct l as [|c r]; [done|]. simpl. apply Forall_cons in Hown as [(Hc & _ & Hr) _]. fold (number c).
    split; [done|]. split; [lia|]. constructor; [lia|]. simpl in Hs. apply StronglySorted_inv in Hs as [_ Hc'].
    rewrite Forall_fmap in Hc'. eapply Forall_impl; [exact Hc'|]. simpl. intros; lia. }
  unfold acked_changes_set. assert (SN.wf SN.default) as Hd by (split; range_unfold; simpl; lia).
  rewrite SN.gtb_val by done. fold low. change (SN.val SN.default) with 0. rewrite (proj2 (Z.ltb_ge _ _)) by lia.
  rewrite bool_decide_false by done. change (SN.eqb SN.default SN.default) with true. cbn [negb andb].
  fold mn. rewrite SN.neqb_negb, (SN.ltb_val SN.default) by done. change (SN.val SN.default) with 0.
  assert (SN.eqb mn SN.unknown = false) as ->.
  { apply not_true_is_false. rewrite SN.eqb_eq. intros F. rewrite F in Hmv. by vm_compute in Hmv. }
  cbn [negb]. rewrite (proj2 (Z.ltb_lt _ _)) by done. fold low.
  destruct (replay_spec h (Z.to_nat (low - SN.val mn + 1)) p mn false) as (v & b & E & Hv & Hcfg); try done; try lia.
  { fold l. rewrite Hnone, filter_none; [done|]. intros c Hc. rewrite Forall_forall in Hleast. specialize (Hleast c Hc). lia. }
  fold l low in Hv. rewrite E. cbn [mbind outcome_bind].
  destruct (SN.sub_u32_val mn 1) as [Hsub _]; [apply SN.nonneg_val; [done|lia]|range_unfold; lia|lia|].
  assert (SN.wf (SN.sub_u32 mn 1)) as Hsw by (apply SN.sub_u32_wf; [done|range_unfold; lia]).
  pose proof (put_back_sorted l (low + 1) Hs) as Hps.
  assert (changes (if b then with_changes (with_vector p v) (sort_by (λ c, SN.val (seq_num_ c)) (changes (with_vector p v)))
    else with_vector p v) = put_back <$> filter (λ c, number c < low + 1) l) as Hch.
  { destruct b; [|exact Hv]. unfold changes at 1. simpl. unfold changes. simpl. rewrite Hv. by apply sort_by_same. }
  set (p2 := if b then _ else _) in *. clearbody p2. eexists. split; [reflexivity|]. simpl. split_and!; [|exact Hsub|exact Hch].
  constructor; simpl; [rewrite Hsub; split; [done|lia]| |]; unfold changes; simpl; fold (changes p2); rewrite Hch; [|exact Hps].
  rewrite Forall_fmap. apply Forall_forall. intros c [Hlt Hc]%list_elem_of_filter. simpl. rewrite Hsub.
  rewrite Forall_forall in Hown, Hleast. destruct (Hown c Hc) as (? & _ & _). specialize (Hleast c Hc).
  change (num (put_back c)) with (number c). split; [done|lia].
Qed.

End writer.

(** *** A reliable reader of a small history *)

#[local] Existing Instance WriterHistoryFacts.noting_writer.
#[local] Existing Instance WriterHistoryFacts.noting_laws.
#[local] Existing Instance GapBuilder.list_sink.

Definition sample_history := WriterHistoryFacts.noting_history false.

(** The changes 2 and 4 of the history in a given status, above a low mark. *)
Definition sample_proxy (d : ReaderLocator.DurabilityKind_t) (low : Z) (l : list (Z * ChangeForReaderStatus_t)) : ReaderProxy :=
  let p := create_proxy sample_history 4 1 0 0 in
  with_changes
    (mkProxy true (locator_info_ p) d false true false (changes_for_reader_ p) (nack_supression_event_ p)
       (initial_heartbeat_event_ p) true 0 0 (SN.mkSN 0 low) true)
    ((λ x, setStatus (create (WriterHistoryFacts.noted_change x.1 10)) x.2) <$> l).

Lemma sample_proxy_ok d low st st' :
  0 <= low < 2 → proxy_ok (sample_proxy d low [(2, st); (4, st')]).
Proof.
  intros Hlow. constructor.
  - unfold sample_proxy. simpl. split; [split; range_unfold; simpl; lia|]. unfold SN.val, SN.to64long. simpl. lia.
  - simpl. repeat (apply Forall_cons_2; [split; [split; range_unfold; simpl; lia|]|]); [..|constructor];
      unfold num, SN.val, SN.to64long; simpl; lia.
  - vm_compute. repeat constructor.
Qed.

Lemma acknowledgement_exact_witness :
  ∃ p', acked_changes_set sample_history
      (sample_proxy ReaderLocator.VOLATILE 1 [(2, UNACKNOWLEDGED); (4, UNSENT)]) (SN.mkSN 0 3) = Done p' ∧
    acked p' 2 = true ∧ acked p' 4 = false ∧ num <$> changes p' = [4].
Proof.
  destruct (acknowledgement_exact sample_history
    (sample_proxy ReaderLocator.VOLATILE 1 [(2, UNACKNOWLEDGED); (4, UNSENT)]) (SN.mkSN 0 3)) as [Hup _].
  - apply sample_proxy_ok. lia.
  - split; range_unfold; simpl; lia.
  - vm_compute. done.
  - destruct Hup as (p' & E & _ & Hack & _); [vm_compute; done|]. exists p'. split; [exact E|].
    split; [rewrite Hack; reflexivity|]. split; [rewrite Hack; reflexivity|].
    vm_compute in E. injection E as <-. reflexivity.
Defined.

Definition sample_requests : SequenceNumberSet_t :=
  (BitmapRange.add (BitmapRange.add (BitmapRange.make (SN.mkSN 0 2)) (SN.mkSN 0 2)).2 (SN.mkSN 0 3)).2.

Lemma sample_requests_inv : BitmapFacts.inv sample_requests.
Proof.
  assert (∀ n, 0 <= n < 10 → item_wf (SN.mkSN 0 n)) as Hwf by (intros n Hn; split; range_unfold; simpl; lia).
  destruct (BitmapFacts.make_spec (SN.mkSN 0 2)) as ([Hinv _] & _); [split; [by apply Hwf|vm_compute; done]|].
  destruct (BitmapFacts.add_spec _ (SN.mkSN 0 2) Hinv) as (_ & Hinv1 & _); [by apply Hwf|].
  by destruct (BitmapFacts.add_spec _ (SN.mkSN 0 3) Hinv1) as (_ & Hinv2 & _); [apply Hwf|].
Qed.

Lemma requests_answered_witness :
  ∃ p' gb, requested_changes_set (sample_proxy ReaderLocator.VOLATILE 1 [(2, UNACKNOWLEDGED); (4, UNSENT)])
      sample_requests (GapBuilder.create ([] : list GapBuilder.Gap) None) (SN.mkSN 0 2) = Done (true, p', gb) ∧
    status_ <$> changes p' = [REQUESTED; UNSENT] ∧ (GapBuilder.flush gb).2 ≠ gb.
Proof.
  destruct (requests_answered (sample_proxy ReaderLocator.VOLATILE 1 [(2, UNACKNOWLEDGED); (4, UNSENT)])
    sample_requests (GapBuilder.create ([] : list GapBuilder.Gap) None) (SN.mkSN 0 2))
    as (some & p' & E & _ & _ & Hsome & Hch).
  - apply sample_proxy_ok. lia.
  - apply sample_requests_inv.
  - split; range_unfold; simpl; lia.
  - done.
  - assert (some = true) as ->.
    { apply Hsome. eexists. split; [left|split; [vm_compute; reflexivity|reflexivity]]. }
    eexists p', _. split; [exact E|]. split; [rewrite Hch; vm_compute; reflexivity|vm_compute; congruence].
Defined.

Lemma announced_hole_exact_witness :
  ∃ u, change_is_unsent (sample_proxy ReaderLocator.VOLATILE 1 [(2, UNACKNOWLEDGED); (4, UNSENT)])
      (SN.mkSN 0 4) (SN.mkSN 0 2) = Done (Some u) ∧ gap_seq u = SN.mkSN 0 3.
Proof.
  destruct (announced_hole_exact (sample_proxy ReaderLocator.VOLATILE 1 [(2, UNACKNOWLEDGED); (4, UNSENT)])
    (SN.mkSN 0 4) (SN.mkSN 0 2)) as (r & E & _).
  - apply sample_proxy_ok. lia.
  - split; range_unfold; simpl; lia.
  - split; range_unfold; simpl; lia.
  - vm_compute. done.
  - vm_compute in E. injection E as <-. eexists. split; reflexivity.
Defined.

Lemma history_put_back_witness :
  ∃ p', acked_changes_set sample_history (sample_proxy ReaderLocator.TRANSIENT_LOCAL 4 []) SN.default = Done p' ∧
    num <$> changes p' = [2; 4] ∧ SN.val (changes_low_mark_ p') = 1.
Proof.
  destruct (history_put_back sample_history (sample_proxy ReaderLocator.TRANSIENT_LOCAL 4 []))
    as (p' & E & _ & Hlow & Hch).
  - apply WriterHistoryFacts.noting_history_ok.
  - done.
  - apply ok_empty; [done|split; range_unfold; simpl; lia|vm_compute; split; congruence].
  - done.
  - done.
  - vm_compute. congruence.
  - split; [apply RLV.make_wf; vm_compute; repeat split; (congruence || by left)|vm_compute; congruence].
  - exists p'. split; [exact E|]. split; [rewrite Hch; vm_compute; reflexivity|exact Hlow].
Defined.

Definition sample_reader : ReaderLocator.ReaderProxyData :=
  ReaderLocator.mkReaderData WriterHistoryFacts.noting_guid [] [] false ReaderLocator.VOLATILE false false.

Lemma reader_proxies_ok_witness :
  ∃ p, proxy_ok p ∧ num <$> changes p = [2; 4] ∧ change_is_acked p (SN.mkSN 0 3) = Done true.
Proof.
  set (p0 := create_proxy sample_history 4 1 0 0).
  destruct (start Guid.INTRAPROCESS_OFF sample_history p0 sample_reader false) as [[e1 p1]| | | |] eqn:E1;
    try (vm_compute in E1; discriminate).
  destruct (add_change false p1 (create (WriterHistoryFacts.noted_change 2 10)) true false) as [[e2 p2]| | | |] eqn:E2;
    try (vm_compute in E1; simplify_eq; vm_compute in E2; discriminate).
  destruct (add_change false p2 (create (WriterHistoryFacts.noted_change 4 10)) true false) as [[e3 p3]| | | |] eqn:E3;
    try (vm_compute in E1; simplify_eq; vm_compute in E2; simplify_eq; vm_compute in E3; discriminate).
  exists p3. destruct (reader_proxies_ok sample_history 4 1 0 0 p3) as [Hok Hall].
  - eapply rtc_l; [exists sample_history; eapply (step_start sample_history p0); [..|exact E1]|].
    { apply WriterHistoryFacts.noting_history_ok. } { vm_compute; done. } { done. } { done. }
    vm_compute in E1. simplify_eq.
    eapply rtc_l; [exists sample_history; eapply step_add; [..|exact E2]|].
    { split; range_unfold; simpl; lia. } { vm_compute; done. } { vm_compute; constructor. }
    vm_compute in E2. simplify_eq.
    eapply rtc_l; [exists sample_history; eapply step_add; [..|exact E3]|reflexivity].
    { split; range_unfold; simpl; lia. } { vm_compute; done. } { vm_compute; repeat constructor. }
  - split; [exact Hok|]. destruct (Hall (SN.mkSN 0 3)) as [_ ->]; [split; range_unfold; simpl; lia|].
    vm_compute in E1. simplify_eq. vm_compute in E2. simplify_eq. vm_compute in E3. simplify_eq. split; reflexivity.
Defined.

(** When changes are pending above the low mark, putting back the history breaks
    the order the next search relies on: the change 2 is appended behind the change
    4, and the number 3 is then searched for by bisection in changes out of order. *)
Theorem put_back_searches_unsorted :
  acked_changes_set sample_history (sample_proxy ReaderLocator.TRANSIENT_LOCAL 3 [(4, UNSENT)]) SN.default = Undefined.
Proof. vm_compute. reflexivity. Qed.

End ProxyFacts.
