(* ===== verification/StatefulWriter.v ===== *)
(** * The stateful writer

    [StatefulWriter] (src/cpp/rtps/writer/StatefulWriter.cpp): a reliable writer that
    composes its history with a reader proxy per matched reader.

    - The writer and its history refer to each other.  A state is a [WriterHistory]
      whose writer is the record [StatefulWriter] below, and the calls the history
      makes are operations on the whole state.
    - A pointer to a reader proxy is its place in [matched_remote_readers_].  Readers
      of the same process and data sharing are off, so this is the only vector of
      matched readers.  Positive acknowledgements are not disabled.
    - What the writer asks of the network, the flow controller, the listener and the
      pools is the class [WriterEnv].  A message of the group is added for the readers
      behind the current sender; the readers the transports reach for the readers
      enabled in the locator selector, and the number of locators, are [select].
    - The group throws [timeout] when what it holds back cannot be sent in time.  A
      routine that may pass this on is [throwing]; the [try] blocks are where the code
      has them.  That a flush times out shows with the submessage added last.
    - Timers and the other calls out of the writer are noted in [log]. *)

From S2P Require Import Prelude.
From S2P Require Import SeqNum.
From S2P Require Import Bitmap.
From S2P Require Import Containers.
From S2P Require Import Guid.
From S2P Require Import CacheChange.
From S2P Require Import GapBuilder.
From S2P Require Import History.
From S2P Require Import Locator.
From S2P Require Import LocatorSelector.
From S2P Require Import ReaderProxy.

Module StatefulWriter.
Import CacheChange ChangeForReader.
Import ReaderLocator.
Import ReaderProxy.
Import WriterHistory.

(** ** What the writer asks of others *)

(** A submessage handed to the message group. *)
Inductive Submessage :=
  | DATA (change : CacheChange_t) (inline_qos : bool)
  | DATA_FRAG (change : CacheChange_t) (fragment_number : Z) (inline_qos : bool)
  | GAP (g : Gap)
  | HEARTBEAT (first last : SN.SequenceNumber_t) (count : Z) (final liveliness : bool).

(** What comes of it: the group may refuse, or throw one of its two exceptions.  Only
    [add_data] and [add_data_frag] throw [limit_exceeded]. *)
Inductive Answer := Added | Refused | TimedOut | LimitExceeded.

Class WriterEnv (E : Type) := {
  (** [group.add_data] and the like, for the readers behind the sender. *)
  add_submessage : E → list Guid.GUID_t → Submessage → Answer * E;
  get_current_bytes_processed : E → Z;
  (** [select_locators] of the transports: the readers reached and the number of
      selected locators. *)
  select : E → list Guid.GUID_t → list Guid.GUID_t * Z;
  (** The flow controller. *)
  add_new_sample : E → CacheChange_t → E;
  add_old_sample : E → CacheChange_t → E;
  flow_remove_change : E → CacheChange_t → bool * E;
  (** [onWriterChangeReceivedByAll]: the changes the listener removes from the
      history of the writer while it runs. *)
  onWriterChangeReceivedByAll : E → CacheChange_t → list SN.SequenceNumber_t * E;
  (** The pools. *)
  release_change : E → CacheChange_t → E
}.

(** The calls that only leave a trace. *)
Inductive Event :=
  | ProxyEffect (reader : Guid.GUID_t) (e : ReaderProxy.Effect)
  | RestartPeriodicHeartbeat
  | CancelPeriodicHeartbeat
  | RestartNackResponse
  (** [update_reader_info] of both selectors, with or without sender resources. *)
  | UpdateReaderInfo (create_sender_resources : bool)
  | ReaderDiscovered (reader : Guid.GUID_t)
  | ReaderChanged (reader : Guid.GUID_t)
  | ReaderRemoved (reader : Guid.GUID_t)
  | LivelinessAsserted.

Record Config := mkConfig {
  c_guid : Guid.GUID_t;
  c_max_data_size : Z;
  c_with_key : bool;
  c_durability : DurabilityKind_t;
  m_pushMode : bool;
  m_separateSendingEnabled : bool;
  disable_heartbeat_piggyback_ : bool;
  sendBufferSize_ : Z;
  liveliness_finite : bool;
  has_listener : bool;
  reader_data_filter_ : option (CacheChange_t → Guid.GUID_t → bool);
  external_unicast_locators : Locator.ExternalLocators;
  ignore_non_matching_locators : bool;
  max_unicast_locators : Z;
  max_multicast_locators : Z
}.

(** [DeliveryRetCode]. *)
Inductive DeliveryRetCode := DELIVERED | NOT_DELIVERED | EXCEEDED_LIMIT.

Section writer.
Context {E : Type} `{!WriterEnv E}.

Record StatefulWriter := mkStateful {
  cfg : Config;
  matched_remote_readers_ : RLV.t ReaderProxy;
  matched_readers_pool_ : RLV.t ReaderProxy;
  nack_supression_us : Z;
  next_all_acked_notify_sequence_ : SN.SequenceNumber_t;
  min_readers_low_mark_ : SN.SequenceNumber_t;
  all_acked_ : bool;
  may_remove_change_ : Z;
  biggest_removed_sequence_number_ : SN.SequenceNumber_t;
  m_heartbeatCount : Z;
  currentUsageSendBufferSize_ : Z;
  (** [all_remote_readers] of the general selector, and whom its locators reach. *)
  general_selection : list Guid.GUID_t * list Guid.GUID_t;
  env : E;
  log : list Event
}.

Implicit Types w : StatefulWriter.

Definition with_readers w (matched pool : RLV.t ReaderProxy) : StatefulWriter :=
  mkStateful (cfg w) matched pool (nack_supression_us w) (next_all_acked_notify_sequence_ w)
    (min_readers_low_mark_ w) (all_acked_ w) (may_remove_change_ w) (biggest_removed_sequence_number_ w)
    (m_heartbeatCount w) (currentUsageSendBufferSize_ w) (general_selection w) (env w) (log w).

Definition with_interval w (us : Z) : StatefulWriter :=
  mkStateful (cfg w) (matched_remote_readers_ w) (matched_readers_pool_ w) us
    (next_all_acked_notify_sequence_ w) (min_readers_low_mark_ w) (all_acked_ w) (may_remove_change_ w)
    (biggest_removed_sequence_number_ w) (m_heartbeatCount w) (currentUsageSendBufferSize_ w) (general_selection w) (env w) (log w).

(** The next sequence to be notified as acknowledged by all, and the lowest mark. *)
Definition with_acked w (next low : SN.SequenceNumber_t) (all : bool) : StatefulWriter :=
  mkStateful (cfg w) (matched_remote_readers_ w) (matched_readers_pool_ w) (nack_supression_us w) next low all
    (may_remove_change_ w) (biggest_removed_sequence_number_ w) (m_heartbeatCount w)
    (currentUsageSendBufferSize_ w) (general_selection w) (env w) (log w).

Definition with_removal w (may_remove : Z) (biggest : SN.SequenceNumber_t) : StatefulWriter :=
  mkStateful (cfg w) (matched_remote_readers_ w) (matched_readers_pool_ w) (nack_supression_us w)
    (next_all_acked_notify_sequence_ w) (min_readers_low_mark_ w) (all_acked_ w) may_remove biggest
    (m_heartbeatCount w) (currentUsageSendBufferSize_ w) (general_selection w) (env w) (log w).

Definition with_heartbeat w (count usage : Z) : StatefulWriter :=
  mkStateful (cfg w) (matched_remote_readers_ w) (matched_readers_pool_ w) (nack_supression_us w)
    (next_all_acked_notify_sequence_ w) (min_readers_low_mark_ w) (all_acked_ w) (may_remove_change_ w)
    (biggest_removed_sequence_number_ w) count usage (general_selection w) (env w) (log w).

Definition with_selection w (l : list Guid.GUID_t * list Guid.GUID_t) : StatefulWriter :=
  mkStateful (cfg w) (matched_remote_readers_ w) (matched_readers_pool_ w) (nack_supression_us w)
    (next_all_acked_notify_sequence_ w) (min_readers_low_mark_ w) (all_acked_ w) (may_remove_change_ w)
    (biggest_removed_sequence_number_ w) (m_heartbeatCount w) (currentUsageSendBufferSize_ w) l (env w) (log w).

Definition with_env w (e : E) : StatefulWriter :=
  mkStateful (cfg w) (matched_remote_readers_ w) (matched_readers_pool_ w) (nack_supression_us w)
    (next_all_acked_notify_sequence_ w) (min_readers_low_mark_ w) (all_acked_ w) (may_remove_change_ w)
    (biggest_removed_sequence_number_ w) (m_heartbeatCount w) (currentUsageSendBufferSize_ w) (general_selection w) e (log w).

Definition emit w (l : list Event) : StatefulWriter :=
  mkStateful (cfg w) (matched_remote_readers_ w) (matched_readers_pool_ w) (nack_supression_us w)
    (next_all_acked_notify_sequence_ w) (min_readers_low_mark_ w) (all_acked_ w) (may_remove_change_ w)
    (biggest_removed_sequence_number_ w) (m_heartbeatCount w) (currentUsageSendBufferSize_ w) (general_selection w) (env w) (log w ++ l).

Definition readers w : list ReaderProxy := RLV.collection_ (matched_remote_readers_ w).

Definition set_reader w (i : nat) (p : ReaderProxy) : StatefulWriter :=
  with_readers w (RLV.with_items (matched_remote_readers_ w) (<[i := p]> (readers w))) (matched_readers_pool_ w).

#[export] Instance stateful_writer_info : WriterInfo StatefulWriter := {|
  getGuid w := c_guid (cfg w);
  getMaxDataSize w := c_max_data_size (cfg w);
  with_key w := c_with_key (cfg w)
|}.

(** ** The state of the writer with its history *)

Definition Sys : Type := WriterHistory StatefulWriter.

Abbreviation M := (stateful Sys).

Definition writer : M StatefulWriter := λ s, Done (mp_writer s, s).
Definition changes_of : M (list CacheChange_t) := λ s, Done (History.m_changes (hist s), s).
Definition modify (f : StatefulWriter → StatefulWriter) : M unit := λ s, Done (tt, with_writer s (f (mp_writer s))).
Definition note (e : Event) : M unit := modify (λ w, emit w [e]).

(** What the environment is asked. *)
Definition ask {A} (f : E → A * E) : M A :=
  w ← writer; let '(a, e) := f (env w) in modify (λ w, with_env w e);; mret a.

(** A routine that may throw [timeout], which is [None]. *)
Abbreviation throwing A := (stateful Sys (option A)).

Definition returns {A} (a : A) : throwing A := mret (Some a).

(** One after the other, unless the first one throws. *)
Definition then_ {A B} (m : throwing A) (k : A → throwing B) : throwing B :=
  r ← m; match r with Some a => k a | None => mret None end.

(** [try] with an empty handler for [timeout]. *)
Definition tried (m : throwing unit) : M unit := m;; mret tt.

Definition the_reader (i : nat) : M ReaderProxy :=
  w ← writer; match readers w !! i with Some p => mret p | None => undefined end.

(** An operation on a reader proxy, with its effects. *)
Definition on_reader {A} (i : nat) (f : Sys → ReaderProxy → outcome (A * ReaderProxy)) : M A :=
  p ← the_reader i;
  s ← get_state;
  '(a, p) ← lift_outcome (f s p);
  modify (λ w, set_reader w i p);; mret a.

Definition on_reader_effects (i : nat) (f : Sys → ReaderProxy → outcome (list ReaderProxy.Effect * ReaderProxy))
    : M unit :=
  p ← the_reader i;
  effects ← on_reader i f;
  modify (λ w, emit w (ProxyEffect (guid p) <$> effects)).

Definition acknowledge (i : nat) (seq : SN.SequenceNumber_t) : M unit :=
  on_reader i (λ s p, p ← acked_changes_set s p seq; mret (tt, p)).

(** [for_matched_readers]: until the routine returns true. *)
Fixpoint for_readers (l : list nat) (fn : nat → M bool) : M bool :=
  match l with
  | [] => mret false
  | i :: l => stop ← fn i; if stop : bool then mret true else for_readers l fn
  end.

Definition for_matched_readers (fn : nat → M bool) : M bool :=
  w ← writer; for_readers (seq 0 (length (readers w))) fn.

(** The same with a routine that never stops. *)
Definition for_each_reader (fn : nat → M unit) : M unit :=
  for_matched_readers (λ i, fn i;; mret false);; mret tt.

(** ** Removal of changes *)

Definition change_removed_by_history (a_change : CacheChange_t) : M bool :=
  let sequence_number := sequenceNumber a_change in
  removed ← ask (λ e, flow_remove_change e a_change);
  if removed : bool then
    modify (λ w, with_removal w (may_remove_change_ w)
      (if SN.gtb sequence_number (biggest_removed_sequence_number_ w)
       then sequence_number else biggest_removed_sequence_number_ w));;
    for_each_reader (λ i, on_reader_effects i (λ s p, change_has_been_removed s p sequence_number));;
    modify (λ w, with_removal w 2 (biggest_removed_sequence_number_ w));;
    mret true
  else mret false.

(** [WriterHistory::remove_change_nts] with this writer. *)
Definition remove_nts (removal : nat) (release : bool) : M nat :=
  s ← get_state;
  if negb (History.attached (hist s)) then mret removal
  else match History.m_changes (hist s) !! removal with
  | None => mret (length (History.m_changes (hist s)))
  | Some change =>
      gone ← change_removed_by_history change;
      if gone : bool then
        (if release then ask (λ e, (tt, release_change e change)) else mret tt);;
        s ← get_state;
        put_state (with_hist s (History.erase (hist s) removal));;
        mret removal
      else mret removal
  end.

(** [History::remove_change] of the change of this writer with this number. *)
Definition remove_change (seq : SN.SequenceNumber_t) : M bool :=
  s ← get_state;
  if negb (History.attached (hist s)) then undefined
  else
    let ch := History.reference_change (getGuid (mp_writer s)) seq in
    let it := History.find_if (λ c, writer_matches s c ch) (History.m_changes (hist s)) in
    match History.m_changes (hist s) !! it with
    | None => mret false
    | Some found =>
        let dummy_change := History.reference_change (writerGUID found) (sequenceNumber found) in
        history_it ← remove_nts it true;
        s ← get_state;
        mret (match History.m_changes (hist s) !! history_it with
              | Some next => negb (writer_matches s dummy_change next)
              | None => true
              end)
    end.

Fixpoint remove_changes (l : list SN.SequenceNumber_t) : M unit :=
  match l with
  | [] => mret tt
  | seq :: l => remove_change seq;; remove_changes l
  end.

(** ** Acknowledged changes *)

(** The loop of [check_acked_status] over the readers: whether all is acknowledged,
    and the lowest mark once there is one. *)
Definition scan_acked (st : bool * option SN.SequenceNumber_t) (p : ReaderProxy)
    : bool * option SN.SequenceNumber_t :=
  let '(all_acked, min_low_mark) := st in
  let reader_low_mark := changes_low_mark_ p in
  (all_acked && negb (has_changes p),
   match min_low_mark with
   | Some m => Some (if SN.ltb reader_low_mark m then reader_low_mark else m)
   | None => Some reader_low_mark
   end).

(** The loop that tells the listener backwards of the changes all have received.
    Each round goes to the change before, and [fuel] counts the changes. *)
Fixpoint tell_received (fuel : nat) (cit : nat) (end_seq : SN.SequenceNumber_t) : M unit :=
  match fuel with
  | O => unfinished
  | S fuel =>
      l ← changes_of;
      match l !! cit with
      | None => undefined
      | Some change =>
          let seq := sequenceNumber change in
          w ← writer;
          if SN.ltb seq (next_all_acked_notify_sequence_ w) then mret tt
          else
            removed ← ask (λ e, onWriterChangeReceivedByAll e change);
            remove_changes removed;;
            if SN.gtb seq end_seq then tell_received fuel (pred cit) end_seq else mret tt
      end
  end.

(** The place of the last change up to [min_low_mark], where the loop starts. *)
Definition start_received (l : list CacheChange_t) (min_low_mark : SN.SequenceNumber_t) : outcome nat :=
  cit ← History.lower_bound (λ c, SN.ltb (sequenceNumber c) min_low_mark) l;
  let cit := match l !! cit with
             | Some c => if SN.eqb (sequenceNumber c) min_low_mark then S cit else cit
             | None => cit
             end in
  match cit with O => Undefined | S cit => mret cit end.

Definition check_acked_status : M unit :=
  s ← get_state;
  w ← writer;
  let '(all_acked, low) := foldl scan_acked (true, None) (readers w) in
  let min_low_mark := default (SN.sub_u32 (next_sequence_number s) 1) low in
  let min_seq := get_seq_num_min s in
  (if SN.neqb min_seq SN.unknown then
     (if SN.leb (next_all_acked_notify_sequence_ w) min_low_mark then
        (if has_listener (cfg w) && SN.geb min_low_mark min_seq then
           let end_seq := if SN.gtb min_seq (next_all_acked_notify_sequence_ w)
                          then min_seq else next_all_acked_notify_sequence_ w in
           l ← changes_of;
           cit ← lift_outcome (start_received l min_low_mark);
           tell_received (S cit) cit end_seq
         else mret tt);;
        modify (λ w, with_acked w (SN.add_u32 min_low_mark 1) (min_readers_low_mark_ w) (all_acked_ w))
      else mret tt);;
     s ← get_state;
     (if SN.geb min_low_mark (get_seq_num_min s)
      then modify (λ w, with_removal w 1 (biggest_removed_sequence_number_ w)) else mret tt);;
     modify (λ w, with_acked w (next_all_acked_notify_sequence_ w) min_low_mark (all_acked_ w))
   else mret tt);;
  if all_acked : bool then
    s ← get_state;
    let next_seq := next_sequence_number s in
    modify (λ w, with_acked w next_seq (SN.sub_u32 next_seq 1) true)
  else mret tt.

Definition change_is_acked_by (i : nat) (seq : SN.SequenceNumber_t) : M bool :=
  p ← the_reader i; lift_outcome (change_is_acked p seq).

Definition is_acked_by_all (ndebug : bool) (seq : SN.SequenceNumber_t) : M bool :=
  s ← get_state;
  lift_outcome (assert_ ndebug (SN.gtb (next_sequence_number s) seq));;
  w ← writer;
  if SN.ltb seq (next_all_acked_notify_sequence_ w) then mret true
  else
    unacked ← for_matched_readers (λ i, acked ← change_is_acked_by i seq; mret (negb acked));
    mret (negb unacked).

Definition is_change_acked_by_all (ndebug : bool) (change : CacheChange_t) : M bool :=
  w ← writer;
  if Guid.neqb (writerGUID change) (getGuid w) then mret false
  else is_acked_by_all ndebug (sequenceNumber change).

Definition all_readers_updated : M bool :=
  pending ← for_matched_readers (λ i, p ← the_reader i; mret (has_changes p)); mret (negb pending).

(** The loop of [has_been_fully_delivered]: [found] is kept between the readers. *)
Fixpoint delivered_by (l : list ReaderProxy) (seq_num : SN.SequenceNumber_t) (found : bool) : outcome bool :=
  match l with
  | [] => mret true
  | p :: l =>
      '(ret_code, found) ← has_been_delivered p seq_num found;
      if found && negb ret_code then mret false else delivered_by l seq_num found
  end.

Definition has_been_fully_delivered (seq_num : SN.SequenceNumber_t) : M bool :=
  s ← get_state;
  w ← writer;
  if SN.geb seq_num (next_sequence_number s) then mret false
  else lift_outcome (delivered_by (readers w) seq_num false).

Definition rebuild_status_after_load : M unit :=
  s ← get_state;
  let min_seq := get_seq_num_min s in
  (if SN.neqb min_seq SN.unknown
   then modify (λ w, with_removal w 1 (SN.sub_u32 min_seq 1)) else mret tt);;
  let next_seq := next_sequence_number s in
  modify (λ w, with_acked w next_seq (SN.sub_u32 next_seq 1) true).

Definition remove_min_change : M bool :=
  s ← get_state;
  if negb (History.attached (hist s)) then mret false
  else match History.m_changes (hist s) with
  | front :: _ => remove_change (sequenceNumber front)
  | [] => mret false
  end.

(** [try_remove_change]: [others] is what the other threads do while it waits. *)
Definition try_remove_change (others : M unit) : M bool :=
  s ← get_state;
  w ← writer;
  let min_low_mark := SN.sub_u32 (next_all_acked_notify_sequence_ w) 1 in
  let calc := if SN.ltb min_low_mark (get_seq_num_min s) then SN.default
              else SN.add_u32 (SN.sub min_low_mark (get_seq_num_min s)) 1 in
  may_remove_change ←
    (if SN.leb calc SN.default then
       modify (λ w, with_removal w 0 (biggest_removed_sequence_number_ w));;
       others;;
       w ← writer; mret (may_remove_change_ w)
     else mret 1);
  if may_remove_change =? 1 then remove_min_change
  else mret (may_remove_change =? 2).

(** ** Heartbeats and gaps *)

(** Whether the group has thrown. *)
Definition thrown (a : Answer) : bool := match a with Added | Refused => false | TimedOut | LimitExceeded => true end.

(** [group.add_gap] and [add_heartbeat], whose answer is not looked at. *)
Definition send (destinations : list Guid.GUID_t) (m : Submessage) : throwing unit :=
  a ← ask (λ e, add_submessage e destinations m);
  mret (if thrown a then None else Some tt).

Definition incrementHBCount : M unit :=
  modify (λ w, with_heartbeat w (u32 (m_heartbeatCount w + 1)) (currentUsageSendBufferSize_ w)).

(** [send_heartbeat_nts_] to the readers behind the sender, of which there are
    [number_of_readers]. *)
Definition send_heartbeat_nts_ (ndebug : bool) (number_of_readers : nat) (destinations : list Guid.GUID_t)
    (final liveliness : bool) : throwing unit :=
  if (number_of_readers =? 0)%nat then returns tt
  else
    s ← get_state;
    let firstSeq := get_seq_num_min s in
    let lastSeq := get_seq_num_max s in
    range ←
      (if SN.eqb firstSeq SN.unknown || SN.eqb lastSeq SN.unknown then
         lift_outcome (assert_ ndebug (SN.eqb firstSeq SN.unknown && SN.eqb lastSeq SN.unknown));;
         mret (if (number_of_readers =? 1)%nat || liveliness
               then Some (next_sequence_number s, SN.sub_u32 (next_sequence_number s) 1) else None)
       else lift_outcome (assert_ ndebug (SN.leb firstSeq lastSeq));; mret (Some (firstSeq, lastSeq)));
    match range with
    | None => returns tt
    | Some (firstSeq, lastSeq) =>
        incrementHBCount;;
        w ← writer;
        then_ (send destinations (HEARTBEAT firstSeq lastSeq (m_heartbeatCount w) final liveliness)) (λ _,
          modify (λ w, with_heartbeat w (m_heartbeatCount w) (s32 (sendBufferSize_ (cfg w))));;
          returns tt)
    end.

(** The transports select for the readers that are enabled: who is reached, and the
    number of locators.  [general] says whether this is the general selector, which
    keeps the selection; the other one belongs to the thread of a flow controller.
    The code keeps a selection when the same readers are enabled again; here it is made
    again. *)
Definition select_readers (general : bool) (enabled : list Guid.GUID_t) : M (list Guid.GUID_t * Z) :=
  w ← writer;
  let selection := select (env w) enabled in
  (if general then modify (λ w, with_selection w (enabled, selection.1)) else mret tt);;
  mret selection.

(** [select_all_readers_nts]: the number of [all_remote_readers], which are those that are
    enabled, and whom the transports reach. *)
Definition select_all_readers_nts (general : bool) : M (nat * list Guid.GUID_t) :=
  w ← writer;
  '(reached, _) ← select_readers general (guid <$> readers w);
  mret (length (readers w), reached).

(** [send_heartbeat_piggyback_nts_]; the octets processed before are zero, as its
    caller passes a fresh variable. *)
Definition send_heartbeat_piggyback_nts_ (ndebug general : bool) : throwing unit :=
  s ← get_state;
  w ← writer;
  if disable_heartbeat_piggyback_ (cfg w) then returns tt
  else if History.m_isHistoryFull (hist s) || SN.ltb (next_all_acked_notify_sequence_ w) (get_seq_num_min s) then
    '(n, all) ← select_all_readers_nts general; send_heartbeat_nts_ ndebug n all false false
  else
    let usage := s32 (currentUsageSendBufferSize_ w - get_current_bytes_processed (env w)) in
    modify (λ w, with_heartbeat w (m_heartbeatCount w) usage);;
    if usage <? 0 then '(n, all) ← select_all_readers_nts general; send_heartbeat_nts_ ndebug n all false false
    else returns tt.

(** A group as the gap builder sees it.  Once it has thrown, nothing more is added. *)
Record GapGroup := mkGapGroup { g_destinations : list Guid.GUID_t; g_env : E; g_thrown : bool }.

#[export] Instance gap_group : GapSink GapGroup := λ g gap,
  if g_thrown g then (false, g)
  else
    let '(a, e) := add_submessage (g_env g) (g_destinations g) (GAP gap) in
    (match a with Added => true | _ => false end, mkGapGroup (g_destinations g) e (thrown a)).

(** [n] numbers from [prev] on, and those between the changes of the history. *)
Fixpoint count_up (n : nat) (prev : SN.SequenceNumber_t) : list SN.SequenceNumber_t :=
  match n with O => [] | S n => prev :: count_up n (SN.incr prev) end.

Fixpoint holes (prev : SN.SequenceNumber_t) (l : list CacheChange_t) : list SN.SequenceNumber_t :=
  match l with
  | [] => []
  | c :: l =>
      count_up (Z.to_nat (SN.val (sequenceNumber c) - SN.val prev)) prev ++ holes (SN.incr (sequenceNumber c)) l
  end.

Definition add_gaps_for_holes_in_history_ (destinations : list Guid.GUID_t) : throwing unit :=
  s ← get_state;
  let firstSeq := get_seq_num_min s in
  let lastSeq := get_seq_num_max s in
  match History.m_changes (hist s) with
  | first :: l =>
      if u64 (SN.to64long lastSeq - SN.to64long firstSeq + 1) =? Z.of_nat (S (length l)) then returns tt
      else
        ask (λ e, let '(_, gb) := GapBuilder.add_all (GapBuilder.create (mkGapGroup destinations e false) None)
                                    (holes (SN.add_u32 (sequenceNumber first) 1) l) in
                  (if g_thrown (GapBuilder.group_ gb) then None else Some tt, g_env (GapBuilder.group_ gb)))
  | [] => returns tt
  end.

Definition send_heartbeat_to_nts (ndebug : bool) (i : nat) (liveliness force : bool) : M unit :=
  s ← get_state;
  p ← the_reader i;
  let first := if SN.eqb SN.unknown (get_seq_num_min s)
               then SN.sub_u32 (next_sequence_number s) 1 else get_seq_num_min s in
  if is_reliable_ p && (force || liveliness || has_unacknowledged p first) then
    tried (then_
      (if SN.neqb (get_seq_num_min s) SN.unknown && SN.neqb (get_seq_num_max s) SN.unknown then
         lift_outcome (assert_ ndebug (SN.leb (get_seq_num_min s) (get_seq_num_max s)));;
         if liveliness then returns tt else add_gaps_for_holes_in_history_ [guid p]
       else returns tt)
      (λ _, send_heartbeat_nts_ ndebug 1 [guid p] false liveliness))
  else mret tt.

Definition send_heartbeat_to_all_readers (ndebug : bool) : throwing unit :=
  w ← writer;
  if m_separateSendingEnabled (cfg w) then
    for_each_reader (λ i, send_heartbeat_to_nts ndebug i false false);; returns tt
  else match readers w with
  | [] => returns tt
  | _ :: _ =>
      '(n, all) ← select_all_readers_nts true;
      s ← get_state;
      lift_outcome (assert_ ndebug (Bool.eqb (SN.eqb SN.unknown (get_seq_num_min s))
                                      (SN.eqb SN.unknown (get_seq_num_max s))));;
      then_ (add_gaps_for_holes_in_history_ all) (λ _, send_heartbeat_nts_ ndebug n all false false)
  end.

(** [send_periodic_heartbeat], the callback of the timer and the liveliness
    assertion: whether there are changes without an acknowledgement. *)
Definition send_periodic_heartbeat (ndebug : bool) (final liveliness : bool) : M bool :=
  s ← get_state;
  w ← writer;
  if negb liveliness then
    let first := if SN.eqb SN.unknown (get_seq_num_min s)
                 then SN.sub_u32 (next_sequence_number s) 1 else get_seq_num_min s in
    unacked_changes ← for_matched_readers (λ i, p ← the_reader i; mret (has_unacknowledged p first));
    (if unacked_changes : bool then tried (send_heartbeat_to_all_readers ndebug) else mret tt);;
    mret unacked_changes
  else if m_separateSendingEnabled (cfg w) then
    for_each_reader (λ i, send_heartbeat_to_nts ndebug i liveliness false);;
    mret (negb (RLV.empty (matched_remote_readers_ w)))
  else match readers w with
  | [] => mret false
  | _ :: _ =>
      let '(all, reached) := general_selection w in
      tried (send_heartbeat_nts_ ndebug (length all) reached final liveliness);;
      mret true
  end.

(** ** Delivery *)

(** What the first loop over the readers gathers in a round. *)
Record Round := mkRound {
  gap_seq_for_all : SN.SequenceNumber_t;
  first_relevant_reader : nat;
  r_inline_qos : bool;
  should_be_sent : bool;
  min_unsent_fragment : Z;
  enabled_readers : list Guid.GUID_t;
  need_reactivate : bool
}.

Definition set_active (i : nat) (active : bool) : M unit :=
  on_reader i (λ _ p, mret (tt, with_active p active)).

(** A gap for one number after [gap_seq] up to the change. *)
Definition gap_to (gap_seq : SN.SequenceNumber_t) (change : CacheChange_t) (reader : option Guid.GUID_t) : Submessage :=
  GAP (mkGap gap_seq (BitmapRange.make (sequenceNumber change)) reader).

(** Whether the hole before the change is one of the history. *)
Definition hole_for_all (s : Sys) (change : CacheChange_t) (gap_seq : SN.SequenceNumber_t) : outcome bool :=
  let chit := History.find_if (λ c, writer_matches s c change) (History.m_changes (hist s)) in
  match chit with
  | O => mret true
  | S prev =>
      match History.m_changes (hist s) !! prev with
      | Some c => mret (SN.eqb (SN.add_u32 (sequenceNumber c) 1) gap_seq)
      | None => Undefined
      end
  end.

(** A reader to which the change goes in this round. *)
Definition activate (ndebug : bool) (change : CacheChange_t) (i : nat) (p : ReaderProxy) (u : Unsent) (r : Round)
    : throwing Round :=
  let reset := next_unsent_frag u <? min_unsent_fragment r in
  set_active i true;;
  let r := mkRound (gap_seq_for_all r) (if reset then i else first_relevant_reader r)
    (r_inline_qos r || expects_inline_qos_ p) true (if reset then next_unsent_frag u else min_unsent_fragment r)
    ((if reset then [] else enabled_readers r) ++ [guid p]) (need_reactivate r) in
  if SN.neqb SN.unknown (gap_seq u) then
    s ← get_state;
    for_all ← (if SN.eqb SN.unknown (gap_seq_for_all r) then
                 all ← lift_outcome (hole_for_all s change (gap_seq u));
                 mret (if all : bool then gap_seq u else gap_seq_for_all r)
               else mret (gap_seq_for_all r));
    then_
      (if SN.neqb for_all (gap_seq u) then
         then_ (send [guid p] (gap_to (gap_seq u) change (Some (guid p))))
           (λ _, send_heartbeat_nts_ ndebug 1 [guid p] false false)
       else returns tt)
      (λ _, returns (mkRound for_all (first_relevant_reader r) (r_inline_qos r) (should_be_sent r)
              (min_unsent_fragment r) (enabled_readers r) (need_reactivate r)))
  else returns r.

Fixpoint scan_readers (ndebug : bool) (change : CacheChange_t) (n_fragments : Z) (l : list nat) (r : Round)
    : throwing Round :=
  match l with
  | [] => returns r
  | i :: l =>
      s ← get_state;
      p ← the_reader i;
      unsent ← lift_outcome (change_is_unsent p (sequenceNumber change) (get_seq_num_min s));
      then_
        match unsent with
        | Some u =>
            let r := mkRound (gap_seq_for_all r) (first_relevant_reader r) (r_inline_qos r) (should_be_sent r)
              (min_unsent_fragment r) (enabled_readers r)
              (need_reactivate r || need_reactivate_periodic_heartbeat u) in
            if (n_fragments =? 0) || (next_unsent_frag u <=? min_unsent_fragment r)
            then activate ndebug change i p u r
            else set_active i false;; returns r
        | None => set_active i false;; returns r
        end
        (scan_readers ndebug change n_fragments l)
  end.

(** The change has gone to a reader as a whole. *)
Definition sent_to (ndebug : bool) (change : CacheChange_t) (i : nat) : M unit :=
  p ← the_reader i;
  if is_reliable_ p
  then on_reader_effects i (λ s p, from_unsent_to_status ndebug s p (sequenceNumber change) UNDERWAY true true)
  else acknowledge i (SN.add_u32 (sequenceNumber change) 1).

(** A fragment has gone to a reader. *)
Definition fragment_sent_to (ndebug : bool) (change : CacheChange_t) (fragment : Z) (i : nat) : M unit :=
  '(_, allFragmentsSent) ← on_reader i (λ _ p,
     '(found, all, p) ← mark_fragment_as_sent_for_change ndebug p (sequenceNumber change) fragment;
     mret (found, all, p));
  if allFragmentsSent : bool then sent_to ndebug change i else mret tt.

Definition sent_part (ndebug : bool) (change : CacheChange_t) (n_fragments fragment : Z) (i : nat) : M unit :=
  if 0 <? n_fragments then fragment_sent_to ndebug change fragment i else sent_to ndebug change i.

Definition part (change : CacheChange_t) (n_fragments fragment : Z) (inline_qos : bool) : Submessage :=
  if 0 <? n_fragments then DATA_FRAG change fragment inline_qos else DATA change inline_qos.

(** The second loop: the active readers from the first relevant one on. *)
Definition for_active (first : nat) (fn : nat → M unit) : M unit :=
  w ← writer;
  for_readers (seq first (length (readers w) - first)) (λ i,
    p ← the_reader i;
    if active_ p then fn i;; mret false else mret false);;
  mret tt.

(** What an answer of the group means for a delivery, and whether the rest is skipped. *)
Definition answered (a : Answer) : DeliveryRetCode * bool :=
  match a with
  | Added => (DELIVERED, false)
  | Refused => (NOT_DELIVERED, false)
  | TimedOut => (NOT_DELIVERED, true)
  | LimitExceeded => (EXCEEDED_LIMIT, true)
  end.

(** One part of the change to each of the active readers by itself, in the [try] block of
    [deliver_sample_to_network]. *)
Fixpoint send_separately (ndebug : bool) (change : CacheChange_t) (n_fragments : Z) (r : Round) (l : list nat)
    (ret_code : DeliveryRetCode) : M DeliveryRetCode :=
  match l with
  | [] => mret ret_code
  | i :: l =>
      p ← the_reader i;
      if negb (active_ p) then send_separately ndebug change n_fragments r l ret_code
      else
        let fragment := min_unsent_fragment r in
        let rest ret_code :=
          in_time ← send_heartbeat_nts_ ndebug 1 [guid p] false false;
          match in_time with
          | Some _ => send_separately ndebug change n_fragments r l ret_code
          | None => mret NOT_DELIVERED
          end in
        if (0 <? n_fragments) && (fragment =? u32 (n_fragments + 1)) then rest ret_code
        else
          a ← ask (λ e, add_submessage e [guid p] (part change n_fragments fragment
                          (if 0 <? n_fragments then r_inline_qos r else expects_inline_qos_ p)));
          let '(code, thrown) := answered a in
          if thrown : bool then mret code
          else
            (match a with Added => sent_part ndebug change n_fragments fragment i | _ => mret tt end);;
            rest (match a with Added => ret_code | _ => code end)
  end.

(** The heartbeat at the end, in the same [try] block. *)
Definition piggyback (ndebug general : bool) (code : DeliveryRetCode) : M DeliveryRetCode :=
  in_time ← send_heartbeat_piggyback_nts_ ndebug general;
  mret (match in_time with Some _ => code | None => NOT_DELIVERED end).

(** One part of the change to all active readers at once. *)
Definition send_at_once (ndebug general : bool) (change : CacheChange_t) (n_fragments : Z) (r : Round)
    (destinations : list Guid.GUID_t) : M DeliveryRetCode :=
  let fragment := min_unsent_fragment r in
  if (0 <? n_fragments) && (fragment =? u32 (n_fragments + 1)) then
    piggyback ndebug general DELIVERED
  else
    a ← ask (λ e, add_submessage e destinations (part change n_fragments fragment (r_inline_qos r)));
    let '(code, thrown) := answered a in
    if thrown : bool then mret code
    else
      (match a with
       | Added => for_active (first_relevant_reader r) (sent_part ndebug change n_fragments fragment)
       | _ => mret tt
       end);;
      piggyback ndebug general code.

(** A round of [deliver_sample_to_network]. *)
Definition deliver_round (ndebug general : bool) (change : CacheChange_t) (n_fragments : Z) (need : bool)
    : throwing (DeliveryRetCode * Round) :=
  w ← writer;
  let n := length (readers w) in
  then_ (scan_readers ndebug change n_fragments (seq 0 n)
           (mkRound SN.unknown 0 false false (u32 (n_fragments + 1)) [] need)) (λ r,
    let separate := m_separateSendingEnabled (cfg w) in
    let global_gap := SN.neqb SN.unknown (gap_seq_for_all r) in
    '(destinations, num_locators) ←
      (if (should_be_sent r && negb separate) || global_gap then select_readers general (enabled_readers r)
       else mret ([], 0));
    then_ (if global_gap then send destinations (gap_to (gap_seq_for_all r) change None) else returns tt) (λ _,
      code ←
        (if negb (should_be_sent r) then mret DELIVERED
         else if separate then
           send_separately ndebug change n_fragments r
             (seq (first_relevant_reader r) (n - first_relevant_reader r)) DELIVERED
         else if 0 <? num_locators then send_at_once ndebug general change n_fragments r destinations
         else mret DELIVERED);
      returns (code, r))).

(** The loop of [deliver_sample_to_network], while there is a part to send. *)
Fixpoint deliver_rounds (fuel : nat) (ndebug general : bool) (change : CacheChange_t) (n_fragments : Z)
    (min_unsent : Z) (need : bool) : throwing (DeliveryRetCode * bool) :=
  if min_unsent =? u32 (n_fragments + 1) then returns (DELIVERED, need)
  else match fuel with
  | O => unfinished
  | S fuel =>
      then_ (deliver_round ndebug general change n_fragments need) (λ '(code, r),
        match code with
        | DELIVERED => deliver_rounds fuel ndebug general change n_fragments (min_unsent_fragment r) (need_reactivate r)
        | _ => returns (code, need_reactivate r)
        end)
  end.

Definition deliver_sample_to_network (fuel : nat) (ndebug general : bool) (change : CacheChange_t)
    : throwing DeliveryRetCode :=
  then_ (deliver_rounds fuel ndebug general change (getFragmentCount change) 0 false) (λ '(code, need),
    (if need : bool then note RestartPeriodicHeartbeat else mret tt);;
    returns code).

Definition deliver_sample_nts (fuel : nat) (ndebug general : bool) (cache_change : CacheChange_t)
    : throwing DeliveryRetCode :=
  w ← writer;
  then_ (if RLV.empty (matched_remote_readers_ w) then returns DELIVERED
         else deliver_sample_to_network fuel ndebug general cache_change) (λ ret_code,
    check_acked_status;;
    returns ret_code).

(** ** New changes *)

Definition rtps_is_relevant (w : StatefulWriter) (p : ReaderProxy) (change : CacheChange_t) : bool :=
  match reader_data_filter_ (cfg w) with Some is_relevant => is_relevant change (guid p) | None => true end.

(** The change is added to each proxy; whether it has to be sent. *)
Fixpoint add_to_readers (ndebug : bool) (change : CacheChange_t) (l : list nat) (should_send : bool) : M bool :=
  match l with
  | [] => mret should_send
  | i :: l =>
      w ← writer;
      p ← the_reader i;
      let relevant := rtps_is_relevant w p change in
      let push := m_pushMode (cfg w) || negb (is_reliable_ p) in
      let c := ChangeForReader.create change in
      on_reader_effects i (λ _ p, ReaderProxy.add_change ndebug p (if push then c else setStatus c UNACKNOWLEDGED) relevant false);;
      add_to_readers ndebug change l (should_send || (push && relevant))
  end.

Definition unsent_change_added_to_history (ndebug : bool) (change : CacheChange_t) : M unit :=
  w ← writer;
  (if liveliness_finite (cfg w) then note LivelinessAsserted else mret tt);;
  if RLV.empty (matched_remote_readers_ w) then check_acked_status
  else
    should_send ← add_to_readers ndebug change (seq 0 (length (readers w))) false;
    if should_send : bool then ask (λ e, (tt, add_new_sample e change))
    else note RestartPeriodicHeartbeat.

(** [WriterHistory::add_change_] with this writer. *)
Definition add_change_ (ndebug : bool) (a_change : CacheChange_t) (wparams : WriteParams) (now : Time_t)
    : M (WriteParams * bool) :=
  s ← get_state;
  if negb (History.attached (hist s)) then mret (wparams, false)
  else
    '(s, stored, wparams) ← lift_outcome (prepare_and_add_change s a_change wparams now);
    put_state s;;
    match stored with
    | None => mret (wparams, false)
    | Some change => unsent_change_added_to_history ndebug change;; mret (wparams, true)
    end.

(** ** Acknowledgements *)

(** [requested_changes_set] with the gaps for the reader, and the flush at the end.  This
    group waits for a day before it throws, and what then becomes of the process is not
    followed here. *)
Definition request_changes (i : nat) (sn_set : SequenceNumberSet_t) (min_seq : SN.SequenceNumber_t) : M bool :=
  p ← the_reader i;
  w ← writer;
  '(some, p', gb) ← lift_outcome (requested_changes_set p sn_set
                       (GapBuilder.create (mkGapGroup [guid p] (env w) false) None) min_seq);
  let '(_, gb) := GapBuilder.flush gb in
  modify (λ w, with_env (set_reader w i p') (g_env (GapBuilder.group_ gb)));;
  mret some.

(** The samples of the changes that wait for being sent again. *)
Fixpoint add_old_samples (l : list ChangeForReader_t) : M unit :=
  match l with
  | [] => mret tt
  | c :: l => ask (λ e, (tt, add_old_sample e (change_ c)));; add_old_samples l
  end.

(** An acknowledgement with a new count of the reader behind [i]. *)
Definition acknack_of (ndebug : bool) (i : nat) (sn_set : SequenceNumberSet_t) (final_flag : bool) : M unit :=
  acknowledge i (BitmapRange.base sn_set);;
  s ← get_state;
  (if SN.gtb (BitmapRange.base sn_set) SN.default then
     some ← request_changes i sn_set (get_seq_num_min s);
     if some : bool then note RestartNackResponse
     else if negb final_flag then note RestartPeriodicHeartbeat else mret tt
   else if BitmapRange.empty sn_set && negb final_flag then
     '(answer, changed) ← on_reader i (λ _ p,
        '(answer, changed, p) ← process_initial_acknack ndebug p; mret (answer, changed, p));
     add_old_samples changed;;
     p ← the_reader i;
     if answer && is_remote_and_reliable p
     then send_heartbeat_to_nts ndebug i false true;; note RestartPeriodicHeartbeat else mret tt
   else mret tt);;
  check_acked_status.

Definition process_acknack (ndebug : bool) (writer_guid reader_guid : Guid.GUID_t) (ack_count : Z)
    (sn_set : SequenceNumberSet_t) (final_flag : bool) : M bool :=
  s ← get_state;
  w ← writer;
  if negb (Guid.eqb (getGuid w) writer_guid) then mret false
  else
    let received := if BitmapRange.empty sn_set then BitmapRange.base sn_set else BitmapRange.max sn_set in
    (if SN.leb received (next_sequence_number s) then
       for_matched_readers (λ i,
         p ← the_reader i;
         if Guid.eqb (guid p) reader_guid then
           fresh ← on_reader i (λ _ p, mret (check_and_set_acknack_count p ack_count));
           (if fresh : bool then acknack_of ndebug i sn_set final_flag else mret tt);;
           mret true
         else mret false);;
       mret tt
     else mret tt);;
    mret true.

Definition process_nack_frag (writer_guid reader_guid : Guid.GUID_t) (ack_count : Z)
    (seq_num : SN.SequenceNumber_t) (fragments_state : FragmentNumberSet_t) : M bool :=
  w ← writer;
  if negb (Guid.eqb (getGuid w) writer_guid) then mret false
  else
    for_matched_readers (λ i,
      p ← the_reader i;
      if Guid.eqb (guid p) reader_guid then
        requested ← on_reader i (λ _ p, ReaderProxy.process_nack_frag p reader_guid ack_count seq_num fragments_state);
        (if requested : bool then note RestartNackResponse else mret tt);;
        mret true
      else mret false);;
    mret true.

Definition perform_nack_response (ndebug : bool) : M unit :=
  for_each_reader (λ i,
    changed ← on_reader i (λ _ p, perform_acknack_response ndebug p);
    add_old_samples changed).

Definition perform_nack_supression (ndebug : bool) (reader_guid : Guid.GUID_t) : M unit :=
  for_matched_readers (λ i,
    p ← the_reader i;
    if Guid.eqb (guid p) reader_guid then
      on_reader i (λ _ p, ReaderProxy.perform_nack_supression ndebug p);;
      note RestartPeriodicHeartbeat;;
      mret true
    else mret false);;
  mret tt.

(** ** Matching *)

(** [on_reader_discovery] of the listener, if there is one. *)
Definition tell (e : Event) : M unit := w ← writer; if has_listener (cfg w) then note e else mret tt.

(** [filter_remote_locators] on the unicast locators of an entry. *)
Definition filter_entry (w : StatefulWriter) (e : LocatorSelector.LocatorSelectorEntry)
    : LocatorSelector.LocatorSelectorEntry :=
  let u := LocatorSelector.unicast e in
  LocatorSelector.mkEntry (LocatorSelector.remote_guid e)
    (RLV.with_items u (Locator.filter_remote_locators (RLV.collection_ u)
       (external_unicast_locators (cfg w)) (ignore_non_matching_locators (cfg w))))
    (LocatorSelector.multicast e) (LocatorSelector.state_unicast e) (LocatorSelector.state_multicast e)
    (LocatorSelector.enabled e) (LocatorSelector.transport_should_process e).

Definition filter_reader (w : StatefulWriter) (p : ReaderProxy) : ReaderProxy :=
  let l := locator_info_ p in
  with_locator p (mkLocator (filter_entry w (general_locator_info_ l)) (filter_entry w (async_locator_info_ l))
    (loc_expects_inline_qos_ l) (is_local_reader_ l) (datasharing_enabled_ l)).

(** [update_reader_info] of both selectors: all readers are selected. *)
Definition update_reader_info (create_sender_resources : bool) : M unit :=
  select_all_readers_nts true;;
  note (UpdateReaderInfo create_sender_resources).

(** A proxy from the pool of inactive ones, or a new one if allowed. *)
Definition take_proxy (now : Z) : M (option ReaderProxy) :=
  s ← get_state;
  w ← writer;
  match last (RLV.collection_ (matched_readers_pool_ w)) with
  | None =>
      let max_readers := RLV.maximum (RLV.configuration_ (matched_readers_pool_ w)) in
      if RLV.size (matched_remote_readers_ w) + RLV.size (matched_readers_pool_ w) <? max_readers
      then mret (Some (create_proxy s (max_unicast_locators (cfg w)) (max_multicast_locators (cfg w))
                         (nack_supression_us w) now))
      else mret None
  | Some rp =>
      modify (λ w, with_readers w (matched_remote_readers_ w) (RLV.pop_back (matched_readers_pool_ w)));;
      mret (Some rp)
  end.

(** The changes of the history for a late joiner. *)
Fixpoint add_history (ndebug : bool) (l : list CacheChange_t) (i : nat) : M unit :=
  match l with
  | [] => mret tt
  | change :: l =>
      w ← writer;
      p ← the_reader i;
      (if rtps_is_relevant w p change then
         on_reader_effects i (λ _ p,
           ReaderProxy.add_change ndebug p (setStatus (ChangeForReader.create change) UNACKNOWLEDGED) true false)
       else mret tt);;
      add_history ndebug l i
  end.

Definition is_transient (d : DurabilityKind_t) : bool := negb (bool_decide (d = VOLATILE)).

(** The end of [matched_reader_add] for the new reader behind [i]. *)
Definition greet_reader (ndebug : bool) (i : nat) : throwing unit :=
  s ← get_state;
  w ← writer;
  p ← the_reader i;
  if is_reliable_ p then
    (if SN.neqb (get_seq_num_min s) SN.unknown then
       lift_outcome (assert_ ndebug (SN.neqb (get_seq_num_max s) SN.unknown));;
       lift_outcome (assert_ ndebug (SN.leb (get_seq_num_min s) (get_seq_num_max s)));;
       tried (then_
         (if is_transient (durability_kind_ p) && is_transient (c_durability (cfg w))
          then add_history ndebug (History.m_changes (hist s)) i;; returns tt
          else send [guid p]
            (GAP (mkGap (get_seq_num_min s) (BitmapRange.make (next_sequence_number s)) (Some (guid p)))))
         (λ _, note RestartPeriodicHeartbeat;; returns tt))
     else mret tt);;
    send_heartbeat_nts_ ndebug 1 [guid p] false false
  else acknowledge i (next_sequence_number s);; returns tt.

Definition matched_reader_add (ndebug : bool) (rdata : ReaderProxyData) (now : Z) : throwing bool :=
  let g := rd_guid rdata in
  if Guid.eqb g Guid.c_Guid_Unknown then returns false
  else
    w ← writer;
    match list_find (λ p, Guid.eqb (guid p) g = true) (readers w) with
    | Some (i, p) =>
        modify (λ w, set_reader w i (filter_reader w (update p rdata)));;
        update_reader_info true;;
        tell (ReaderChanged g);;
        returns false
    | None =>
        taken ← take_proxy now;
        match taken with
        | None => returns false
        | Some rp =>
            s ← get_state;
            '(effects, rp) ← lift_outcome (start Guid.INTRAPROCESS_OFF s rp rdata false);
            modify (λ w, emit w (ProxyEffect g <$> effects));;
            w ← writer;
            let i := length (readers w) in
            modify (λ w, with_readers w (RLV.push_back (matched_remote_readers_ w) (filter_reader w rp)).2
                           (matched_readers_pool_ w));;
            update_reader_info true;;
            then_ (greet_reader ndebug i) (λ _, tell (ReaderDiscovered g);; returns true)
        end
    end.

Definition matched_reader_remove (reader_guid : Guid.GUID_t) : M bool :=
  w ← writer;
  let found := list_find (λ p, Guid.eqb (guid p) reader_guid = true) (readers w) in
  (match found with
   | Some (i, _) =>
       modify (λ w, with_readers w (RLV.with_items (matched_remote_readers_ w) (delete i (readers w)))
                      (matched_readers_pool_ w))
   | None => mret tt
   end);;
  update_reader_info false;;
  w ← writer;
  (if RLV.empty (matched_remote_readers_ w) then note CancelPeriodicHeartbeat else mret tt);;
  match found with
  | Some (_, rproxy) =>
      let '(effects, rproxy) := stop rproxy in
      modify (λ w, emit w (ProxyEffect reader_guid <$> effects));;
      modify (λ w, with_readers w (matched_remote_readers_ w) (RLV.push_back (matched_readers_pool_ w) rproxy).2);;
      check_acked_status;;
      tell (ReaderRemoved reader_guid);;
      mret true
  | None => mret false
  end.

Definition matched_reader_is_matched (reader_guid : Guid.GUID_t) : M bool :=
  for_matched_readers (λ i, p ← the_reader i; mret (Guid.eqb (guid p) reader_guid)).

(** [updateTimes], for the interval of the proxies. *)
Definition updateTimes (us : Z) : M unit :=
  w ← writer;
  if nack_supression_us w =? us then mret tt
  else
    let each v := RLV.with_items v ((λ p, update_nack_supression_interval p us) <$> RLV.collection_ v) in
    modify (λ w, with_interval (with_readers w (each (matched_remote_readers_ w)) (each (matched_readers_pool_ w))) us).

(** ** Construction *)

Definition create (c : Config) (matched_readers_allocation : RLV.config) (us : Z) (e : E) : StatefulWriter :=
  mkStateful c (RLV.make matched_readers_allocation) (RLV.make matched_readers_allocation) us (SN.mkSN 0 1) SN.default
    false 0 SN.default 0 (s32 (sendBufferSize_ c)) ([], []) e [].

(** [init]: the pool gets its first proxies. *)
Fixpoint init (n : nat) (now : Z) : M unit :=
  match n with
  | O => mret tt
  | S n =>
      s ← get_state;
      modify (λ w, with_readers w (matched_remote_readers_ w)
        (RLV.push_back (matched_readers_pool_ w)
           (create_proxy s (max_unicast_locators (cfg w)) (max_multicast_locators (cfg w)) (nack_supression_us w) now)).2);;
      init n now
  end.

End writer.
Arguments StatefulWriter : clear implicits.
Arguments Sys : clear implicits.
End StatefulWriter.
