(* ===== verification/StatefulWriterFacts.v ===== *)
(** * Facts about the stateful writer

    The writer keeps an invariant with its history and its reader proxies: proxies
    refer only to changes of the history, and number them rightly.  Acknowledgements,
    additions, removals and deliveries keep it, end, and do what they promise. *)

From S2P Require Import Prelude.
From S2P Require Import SeqNum.
From S2P Require Import Bitmap.
From S2P Require Import BitmapFacts.
From S2P Require Import Containers.
From S2P Require Import Guid.
From S2P Require Import CacheChange.
From S2P Require Import GapBuilder.
From S2P Require Import History.
From S2P Require Import HistoryFacts.
From S2P Require Import ReaderProxy.
From S2P Require Import ReaderProxyFacts.
From S2P Require Import StatefulWriter.

Module WriterFacts.
Import CacheChange ChangeForReader ReaderLocator ReaderProxy.
Import HistorySearch WriterHistoryFacts ProxyFacts.
Import StatefulWriter.

(** What the environment promises: the group takes a submessage it has added, nothing
    else hands it one, the flow controller lets a change go, and a listener that is
    told of a change removes at most this one. *)
Class WriterEnvLaws (E : Type) `{WriterEnv E} := {
  sent : E → list (list Guid.GUID_t * Submessage);
  add_sent e d m :
    sent (add_submessage e d m).2 = sent e ++ [(d, m)] ∨
    (add_submessage e d m).1 ≠ Added ∧ sent (add_submessage e d m).2 = sent e;
  new_sent e c : sent (add_new_sample e c) = sent e;
  old_sent e c : sent (add_old_sample e c) = sent e;
  flow_sent e c : sent (flow_remove_change e c).2 = sent e;
  told_sent e c : sent (onWriterChangeReceivedByAll e c).2 = sent e;
  release_sent e c : sent (release_change e c) = sent e;
  flow_lets_go e c : (flow_remove_change e c).1 = true;
  removes_told e c : (onWriterChangeReceivedByAll e c).1 ⊆ [sequenceNumber c]
}.

(** ** A proxy and the history *)

(** A change that is sent as a whole. *)
Definition whole (c : CacheChange_t) : Prop := getFragmentSize c = 0 ∧ getFragmentCount c = 0.

Definition no_fragments (c : ChangeForReader_t) : Prop :=
  whole (change_ c) → BitmapRange.empty (unsent_fragments_ c) = true.

(** A change of a proxy is one of the history, and numbered as it is.  A remote
    reader acknowledges only from the lowest number on. *)
Definition refers (l : list CacheChange_t) (c : ChangeForReader_t) : Prop :=
  change_ c ∈ l ∧ seq_num_ c = sequenceNumber (change_ c) ∧ status_ c ≠ ACKNOWLEDGED ∧ no_fragments c.

(** The vector of a proxy has room for the changes of the history. *)
Definition roomy (limit : Z) (v : RLV.t ChangeForReader_t) : Prop :=
  RLV.wf v ∧ (if 0 <? limit then limit else 2 ^ 31) <= RLV.maximum (RLV.configuration_ v).

Record tracks (l : list CacheChange_t) (last limit : Z) (p : ReaderProxy) : Prop := {
  t_ok : proxy_ok p;
  t_guid : Guid.wf (guid p);
  t_remote : is_local_reader p = false ∧ is_datasharing_reader p = false;
  t_timers : timers_enabled_ p = is_reliable_ p;
  t_low : SN.val (changes_low_mark_ p) <= last;
  t_refers : Forall (refers l) (changes p);
  t_room : roomy limit (changes_for_reader_ p)
}.

Lemma refers_num l c : refers l c → num c = number (change_ c).
Proof. intros (_ & E & _). unfold num, number. by rewrite E. Qed.

Lemma tracks_below l last limit p :
  tracks l last limit p → Forall (λ c, number c <= last) l → Forall (λ c, num c <= last) (changes p).
Proof.
  intros Ht Hl. eapply Forall_impl; [apply (t_refers _ _ _ _ Ht)|]. intros c Hc. rewrite (refers_num l c Hc).
  rewrite Forall_forall in Hl. by apply Hl, Hc.
Qed.

(** Changes of one number each: there are not more than in the history. *)
Lemma tracks_length l last limit p :
  tracks l last limit p → NoDup (number <$> l) → (length (changes p) <= length l)%nat.
Proof.
  intros Ht Hl. rewrite <-(length_fmap num (changes p)), <-(length_fmap number l).
  apply submseteq_length, NoDup_submseteq; [apply StronglySorted_lt_NoDup, (t_ok _ _ _ _ Ht)|].
  intros n (c & -> & Hc)%list_elem_of_fmap. pose proof (t_refers _ _ _ _ Ht) as Hr. rewrite Forall_forall in Hr.
  rewrite (refers_num l c) by by apply Hr. apply list_elem_of_fmap_2, (Hr c Hc).
Qed.

(** The history with one more change, and with one less. *)
Lemma tracks_more l last limit p c last' :
  tracks l last limit p → last <= last' → tracks (l ++ [c]) last' limit p.
Proof.
  intros [] Hle. constructor; try done; [lia|]. eapply Forall_impl; [done|].
  intros d (Hd & ? & ?). split; [|done]. apply elem_of_app. by left.
Qed.

(** What no operation on a matched reader changes. *)
Definition same_reader (p p' : ReaderProxy) : Prop :=
  locator_info_ p' = locator_info_ p ∧ timers_enabled_ p' = timers_enabled_ p ∧
  is_reliable_ p' = is_reliable_ p ∧ durability_kind_ p' = durability_kind_ p.

#[export] Instance same_reader_preorder : PreOrder same_reader.
Proof.
  split; [done|]. intros p1 p2 p3 (? & ? & ? & ?) (? & ? & ? & ?). unfold same_reader. split_and!; congruence.
Qed.

Lemma same_guid p p' : same_reader p p' → guid p' = guid p.
Proof. intros (E & _). unfold guid. by rewrite E. Qed.

(** The vector of another proxy, with changes of the same history. *)
Lemma tracks_reader l last limit p p' l' :
  tracks l last limit p → same_reader p p' → proxy_ok p' → SN.val (changes_low_mark_ p') <= last →
  Forall (refers l') (changes p') → roomy limit (changes_for_reader_ p') → tracks l' last limit p'.
Proof.
  intros [] (Hl & Ht & Hr & _) Hok Hlow Href Hroom.
  constructor; try done; unfold guid, is_local_reader, is_datasharing_reader in *; rewrite ?Hl, ?Ht, ?Hr; done.
Qed.

(** Fewer or the same changes in the same vector. *)
Lemma roomy_items limit v l : roomy limit v → (length l <= length (RLV.collection_ v))%nat → roomy limit (RLV.with_items v l).
Proof.
  intros [(? & ? & ?) ?] Hle. split; [|done]. unfold RLV.wf, RLV.size in *. simpl. split_and!; [done|lia..].
Qed.

(** *** Acknowledgements *)

Lemma acked_tracks `{WriterHistory.WriterInfo W} (h : WriterHistory.WriterHistory W) l last limit p seq :
  tracks l last limit p → SN.wf seq → SN.val seq <= last + 1 → last < 2 ^ 63 - 2 →
  seq ≠ SN.default ∨ durability_kind_ p = VOLATILE →
  ∃ p', acked_changes_set h p seq = Done p' ∧ tracks l last limit p' ∧ same_reader p p' ∧
    SN.val (changes_low_mark_ p') = Z.max (SN.val (changes_low_mark_ p)) (SN.val seq - 1) ∧
    changes p' = filter (λ c, SN.val seq <= num c) (changes p).
Proof.
  intros Ht Hseq Hle Hmax Hno. pose proof (t_ok _ _ _ _ Ht) as Hok. pose proof (t_refers _ _ _ _ Ht) as Href.
  pose proof Hok as [[Hlow0 Hlowv] Hnums _].
  destruct (Z.lt_ge_cases (SN.val (changes_low_mark_ p)) (SN.val seq)) as [Hlt|Hge].
  - destruct (acked_set_up h p seq Hok Hseq) as (low & k & -> & Hlow & Hv & Hk & Hd & Hrow & _); [lia|].
    assert (SN.val low = SN.val seq - 1) as Elow.
    { destruct (Z.lt_ge_cases (SN.val low) (SN.val seq)); [lia|]. destruct (Hrow (SN.val low)) as (c & Hc & _ & Hst); [lia|].
      rewrite Forall_forall in Href. by destruct (Href c Hc) as (_ & _ & ? & _). }
    eexists. split; [reflexivity|]. set (p' := with_low_mark _ _).
    assert (changes p' = drop k (changes p)) as Ech by done.
    assert (same_reader p p') as Hsame by done. split_and!; [|done|subst p'; simpl; lia|].
    + eapply tracks_reader; [done|done|apply dropped_ok; [done|done|lia|done]|change (changes_low_mark_ p') with low; lia| |].
      * rewrite Ech. by apply Forall_drop.
      * apply roomy_items; [apply Ht|]. rewrite length_drop. unfold changes. lia.
    + rewrite Ech, (filter_drop _ k (SN.val low)) by done. apply filter_same. intros c _. lia.
  - assert (acked_changes_set h p seq = Done p) as ->.
    { unfold acked_changes_set. rewrite SN.gtb_val by done. rewrite (proj2 (Z.ltb_ge _ _)) by lia.
      rewrite same_low_mark by done.
      replace (SN.eqb seq SN.default && negb (bool_decide (durability_kind_ p = VOLATILE))) with false; [done|].
      symmetry. apply andb_false_iff. destruct Hno as [Hno| ->]; [left|by right].
      apply not_true_is_false. by rewrite SN.eqb_eq. }
    exists p. split_and!; [done|done|done|lia|]. symmetry. apply filter_all. eapply Forall_impl; [exact Hnums|].
    simpl. intros c [_ ?]. lia.
Qed.

(** *** New changes *)

Lemma pushed_tracks ndebug l top limit p c d rel :
  tracks l top limit p → Forall (λ x, number x <= top) l → NoDup (number <$> l) →
  SN.wf (sequenceNumber c) → number c = top + 1 → top + 1 < 2 ^ 63 - 1 →
  (0 < limit → Z.of_nat (length l) < limit) → Z.of_nat (length l) + 1 < 2 ^ 31 →
  refers [c] d →
  ∃ p', ReaderProxy.add_change ndebug p d rel false = Done ([], p') ∧ tracks (l ++ [c]) (top + 1) limit p' ∧
    same_reader p p' ∧ (rel = true → changes p' = changes p ++ [d] ∧ changes_low_mark_ p' = changes_low_mark_ p) ∧
    (rel = false → changes p' = changes p ∧ SN.val (changes_low_mark_ p) <= SN.val (changes_low_mark_ p') ∧
      (is_reliable_ p = true → changes_low_mark_ p' = changes_low_mark_ p)).
Proof.
  intros Ht Hl Hnd Hc Hn Hmax Hroom Hsz Hd. pose proof (t_ok _ _ _ _ Ht) as Hok. pose proof Hok as [[Hlow Hlowv] Hnums Hs].
  pose proof (tracks_below _ _ _ _ Ht Hl) as Hbelow. pose proof (t_low _ _ _ _ Ht) as Hlast.
  assert (num d = top + 1) as Hdn.
  { rewrite (refers_num [c] d Hd). destruct Hd as (->%list_elem_of_singleton & _). done. }
  assert (SN.wf (seq_num_ d)) as Hdw by (destruct Hd as (->%list_elem_of_singleton & -> & _); done).
  assert (Forall (λ x, num x < num d) (changes p)) as Hbefore.
  { eapply Forall_impl; [exact Hbelow|]. simpl. intros. lia. }
  destruct (t_room _ _ _ _ Ht) as [Hwf Hmaxr]. pose proof (tracks_length _ _ _ _ Ht Hnd) as Hlen.
  destruct (RLV.push_back_room (changes_for_reader_ p) d Hwf) as (_ & cap & Epush & Hcap).
  { unfold RLV.size. fold (changes p). destruct (Z.ltb_spec 0 limit); [specialize (Hroom ltac:(done))|]; lia. }
  assert (push_change ndebug p d rel = Done (
    if rel then with_vector p (RLV.push_back (changes_for_reader_ p) d).2
    else if negb (is_reliable_ p) && SN.eqb (SN.add_u32 (changes_low_mark_ p) 1) (seq_num_ d)
         then with_low_mark p (seq_num_ d) else p)) as E.
  { unfold push_change. rewrite (assert_true _ (SN.gtb _ _)) by (rewrite SN.gtb_val by done; fold (num d); apply Z.ltb_lt; lia).
    cbn [mbind outcome_bind]. rewrite assert_true; cycle 1.
    { destruct (last (changes p)) as [b|] eqn:Eb; [|done]. apply last_Some in Eb as [l' Eb].
      rewrite Forall_forall in Hnums, Hbefore. assert (b ∈ changes p) as Hb
        by (rewrite Eb; apply elem_of_app; right; by apply list_elem_of_singleton).
      rewrite SN.gtb_val by (done || by apply Hnums). apply Z.ltb_lt, (Hbefore b Hb). }
    cbn [mbind outcome_bind]. destruct rel; [|done]. cbn [negb].
    rewrite Epush. by rewrite assert_true. }
  unfold ReaderProxy.add_change. cbn [andb]. rewrite E. cbn [mbind outcome_bind]. eexists. split; [reflexivity|].
  set (p' := if rel then _ else _).
  assert (same_reader p p') as Hsame by (subst p'; destruct rel; [done|by destruct (_ && _)]).
  assert (proxy_ok p') as Hok' by (eapply (push_change_ok ndebug p d rel); [done|done|lia|done|done]).
  assert (rel = true → changes p' = changes p ++ [d] ∧ changes_low_mark_ p' = changes_low_mark_ p ∧
          RLV.wf (changes_for_reader_ p') ∧
          RLV.configuration_ (changes_for_reader_ p') = RLV.configuration_ (changes_for_reader_ p)) as Hrel.
  { intros ->. subst p'. unfold changes. simpl. rewrite Epush. split_and!; [done|done| |done].
    destruct Hwf as (? & ? & ?). unfold RLV.wf, RLV.size in *. simpl. rewrite length_app. simpl. split_and!; [done|lia..]. }
  split_and!; [|done|intros Hr; by destruct (Hrel Hr) as (? & ? & _)|]; cycle 1.
  { intros ->. subst p'. destruct (is_reliable_ p); cbn [negb andb]; [split_and!; [done|lia|done]|].
    destruct (SN.eqb _ _); simpl; (split; [done|]); (split; [|done]); [fold (num d)|]; lia. }
  assert (SN.val (changes_low_mark_ p') <= top + 1) as Hlow'.
  { subst p'. destruct rel; simpl; [lia|]. destruct (_ && _); simpl; [|lia]. fold (num d). lia. }
  assert (Forall (refers (l ++ [c])) (changes p)) as Hold.
  { eapply Forall_impl; [apply (t_refers _ _ _ _ Ht)|]. intros x (? & ?). split; [|done]. apply elem_of_app. by left. }
  assert (tracks (l ++ [c]) (top + 1) limit p) as Ht' by (apply tracks_more with (last := top); [done|lia]).
  destruct rel.
  - destruct Hrel as (Ech & _ & Hwf' & Hcfg); [done|]. eapply tracks_reader; [exact Ht'|done|done|done| |].
    + rewrite Ech. apply Forall_app. split; [done|]. apply Forall_singleton. destruct Hd as (Hd & ?).
      split; [|done]. apply elem_of_app. by right.
    + split; [done|]. rewrite Hcfg. apply (t_room _ _ _ _ Ht).
  - eapply tracks_reader; [exact Ht'|done|done|done| |]; subst p'; destruct (_ && _); (done || apply Ht).
Qed.

(** *** Removed changes *)

Lemma delete_other (l : list CacheChange_t) (i : nat) c d :
  l !! i = Some c → d ∈ l → number d ≠ number c → d ∈ delete i l.
Proof.
  intros Hi Hd Hne. rewrite delete_take_drop. apply elem_of_app.
  rewrite <-(take_drop_middle l i c Hi) in Hd. apply elem_of_app in Hd as [Hd|Hd]; [by left|].
  apply elem_of_cons in Hd as [->|Hd]; [done|by right].
Qed.

Lemma delete_sorted (l : list CacheChange_t) (i : nat) c d :
  StronglySorted Z.lt (number <$> l) → l !! i = Some c → d ∈ delete i l → d ∈ l ∧ number d ≠ number c.
Proof.
  intros Hs Hi [j Hj]%list_elem_of_lookup. pose proof (StronglySorted_lt_NoDup _ Hs) as Hnd.
  assert (∃ k, k ≠ i ∧ l !! k = Some d) as (k & Hne & Hk).
  { destruct (decide (j < i)%nat).
    - rewrite list_lookup_delete_lt in Hj by lia. exists j. split; [lia|done].
    - rewrite list_lookup_delete_ge in Hj by lia. exists (S j). split; [lia|done]. }
  split; [by eapply list_elem_of_lookup_2|]. intros E. apply Hne.
  apply (NoDup_lookup _ k i (number c) Hnd); rewrite list_lookup_fmap; [rewrite Hk|by rewrite Hi]. simpl. by rewrite E.
Qed.

Lemma filter_delete (l : list ChangeForReader_t) it d :
  StronglySorted Z.lt (num <$> l) → l !! it = Some d → delete it l = filter (λ c, num c ≠ num d) l.
Proof.
  intros Hs Hit. rewrite delete_take_drop. rewrite <-(take_drop_middle l it d Hit) at 3.
  rewrite filter_app, filter_cons_False by tauto. f_equal; symmetry; apply filter_all, Forall_forall; intros c Hc.
  - apply list_elem_of_lookup in Hc as [j Hj]. apply lookup_take_Some in Hj as [Hj Hlt].
    pose proof (sorted_nth l j it c d Hs Hj Hit Hlt). lia.
  - apply list_elem_of_lookup in Hc as [j Hj]. rewrite lookup_drop in Hj.
    pose proof (sorted_nth l it (S it + j) d c Hs Hit Hj). lia.
Qed.

(** A proxy that has let the change at [i] of the history go. *)
Lemma tracks_without l top limit p p' i c :
  tracks l top limit p → l !! i = Some c → same_reader p p' → proxy_ok p' →
  SN.val (changes_low_mark_ p') <= top → changes p' = filter (λ d, num d ≠ number c) (changes p) →
  RLV.configuration_ (changes_for_reader_ p') = RLV.configuration_ (changes_for_reader_ p) →
  RLV.capacity_ (changes_for_reader_ p') = RLV.capacity_ (changes_for_reader_ p) →
  tracks (delete i l) top limit p'.
Proof.
  intros Ht Hi Hsame Hok Hlow Ech Hcfg Hcap. eapply tracks_reader; [done|done|done|done| |].
  - rewrite Ech. pose proof (t_refers _ _ _ _ Ht) as Hr. rewrite Forall_forall in Hr. apply Forall_forall.
    intros d [Hne Hd]%list_elem_of_filter. pose proof (refers_num l d (Hr d Hd)) as En. destruct (Hr d Hd) as (Hin & ? & ?).
    split; [|done]. eapply delete_other; [done|done|]. by rewrite <-En.
  - destruct (t_room _ _ _ _ Ht) as [(? & ? & ?) ?]. unfold roomy, RLV.wf, RLV.size in *. rewrite Hcfg, Hcap.
    assert (length (RLV.collection_ (changes_for_reader_ p')) <= length (RLV.collection_ (changes_for_reader_ p)))%nat.
    { fold (changes p') (changes p). rewrite Ech. apply length_filter. }
    split_and!; [done|lia..].
Qed.

Lemma removed_tracks `{WriterHistory.WriterInfo W} (h : WriterHistory.WriterHistory W) l top limit p i c :
  tracks l top limit p → l !! i = Some c → SN.wf (sequenceNumber c) → number c <= top → top < 2 ^ 63 - 2 →
  ∃ p', change_has_been_removed h p (sequenceNumber c) = Done ([], p') ∧ tracks (delete i l) top limit p' ∧
    same_reader p p' ∧ (SN.val (changes_low_mark_ p') = SN.val (changes_low_mark_ p) ∨
      SN.val (changes_low_mark_ p') = SN.val (changes_low_mark_ p) + 1 ∧ SN.val (changes_low_mark_ p') = number c) ∧
    changes p' = filter (λ d, num d ≠ number c) (changes p).
Proof.
  intros Ht Hi Hc Hle Hmax. pose proof (t_ok _ _ _ _ Ht) as Hok. pose proof Hok as [[Hlow Hlowv] Hnums Hs].
  rewrite Forall_forall in Hnums. pose proof (t_low _ _ _ _ Ht) as Hlowt.
  assert ((∀ d, d ∈ changes p → num d ≠ number c) → changes p = filter (λ d, num d ≠ number c) (changes p) ∧
    tracks (delete i l) top limit p) as Hno.
  { intros Hno. assert (changes p = filter (λ d, num d ≠ number c) (changes p)) as E
      by (symmetry; apply filter_all, Forall_forall, Hno).
    split; [done|]. by eapply tracks_without. }
  unfold change_has_been_removed. destruct (changes p) as [|first rest] eqn:Ech.
  { destruct Hno as [E Ht']; [by intros d ?%elem_of_nil|]. exists p. rewrite Ech. split_and!; [done|done|done|by left|done]. }
  rewrite <-Ech in *. assert (first ∈ changes p) as Hfirst by (rewrite Ech; left).
  rewrite SN.ltb_val by (done || by apply Hnums). destruct (Z.ltb_spec (SN.val (sequenceNumber c)) (SN.val (seq_num_ first))) as [Hlt|Hge].
  { destruct Hno as [E Ht'].
    { intros d Hd. rewrite Ech in Hd, Hs. apply elem_of_cons in Hd as [->|Hd]; [unfold num, number; lia|].
      simpl in Hs. apply StronglySorted_inv in Hs as [_ Hf]. rewrite Forall_fmap, Forall_forall in Hf.
      specialize (Hf d Hd). unfold num, number in *. simpl in Hf. lia. }
    exists p. split_and!; [done|done|done|by left|done]. }
  rewrite lookup_change_spec by done. cbn [mbind outcome_bind]. fold (number c).
  destruct (at_num (number c) (changes p)) as [[it d]|] eqn:Eat; cycle 1.
  { rewrite at_num_None in Eat. destruct Hno as [E Ht']; [done|]. exists p. split_and!; [done|done|done|by left|done]. }
  apply at_num_Some in Eat as [Hit Hd]; [|done]. destruct (t_remote _ _ _ _ Ht) as [-> _]. cbn [andb].
  set (p1 := with_changes p (delete it (changes p))). change (changes_low_mark_ p1) with (changes_low_mark_ p).
  assert (changes p1 = filter (λ d, num d ≠ number c) (changes p)) as E1
    by (change (changes p1) with (delete it (changes p)); rewrite <-Hd; by apply filter_delete).
  assert (tracks (delete i l) top limit p1) as Ht1
    by (eapply tracks_without; [done|done|done|by apply ok_delete|done|done|done|done]).
  destruct (Hnums d) as [_ Hdr]; [by eapply list_elem_of_lookup_2|].
  destruct (SN.add_u32_val (sequenceNumber c) 1) as [Hv _]; [done|range_unfold; lia|fold (number c); lia|]. fold (number c) in Hv.
  destruct (SN.eqb _ _) eqn:Eq; [|exists p1; split_and!; [done|done|done|by left|done]].
  destruct (acked_tracks h (delete i l) top limit p1 (SN.add_u32 (sequenceNumber c) 1)) as (p2 & -> & Ht2 & Hsame & Hlow2 & Ech2);
    [done|apply SN.add_u32_wf; [done|range_unfold; lia]|lia|lia|left|].
  { intros E. rewrite E in Hv. change (SN.val SN.default) with 0 in Hv. lia. }
  apply SN.eqb_eq in Eq. destruct (SN.add_u32_val (changes_low_mark_ p) 1) as [Hlv _]; [done|range_unfold; lia|lia|].
  rewrite Eq in Hlv. fold (number c) in Hlv.
  exists p2. split_and!; [done|done|done|change (changes_low_mark_ p1) with (changes_low_mark_ p) in Hlow2; right; lia|].
  rewrite Ech2, E1. apply filter_all, Forall_forall. intros x [Hx Hxin]%list_elem_of_filter.
  destruct (Hnums x Hxin) as [_ Hxr]. lia.
Qed.

(** A change the reader has acknowledged is not in its proxy. *)
Lemma removed_acked `{WriterHistory.WriterInfo W} (h : WriterHistory.WriterHistory W) p seq :
  proxy_ok p → SN.wf seq → SN.val seq <= SN.val (changes_low_mark_ p) → change_has_been_removed h p seq = Done ([], p).
Proof.
  intros Hok Hseq Hle. unfold change_has_been_removed. destruct (changes p) as [|first rest] eqn:Ech; [done|].
  pose proof (p_nums _ Hok) as Hn. rewrite Ech in Hn. apply Forall_cons in Hn as [[Hw Hlow] _].
  rewrite SN.ltb_val, (proj2 (Z.ltb_lt _ _)) by (done || (unfold num in Hlow; lia)). done.
Qed.

(** *** Changes of another status *)

(** [d] is [c] up to its status, its fragments and its mark. *)
Definition restated (c d : ChangeForReader_t) : Prop :=
  seq_num_ d = seq_num_ c ∧ change_ d = change_ c ∧ (status_ c ≠ ACKNOWLEDGED → status_ d ≠ ACKNOWLEDGED) ∧
  (no_fragments c → no_fragments d).

#[export] Instance restated_preorder : PreOrder restated.
Proof. split; [done|]. intros c d e (? & ? & ? & ?) (? & ? & ? & ?). unfold restated. split_and!; [congruence|congruence|auto|auto]. Qed.

Lemma restated_all l : Forall2 restated l l.
Proof. induction l; by constructor. Qed.

(** [p'] is [p] up to the state of its changes, its timers and its counts. *)
Record restates (p p' : ReaderProxy) : Prop := {
  rs_same : same_reader p p';
  rs_low : changes_low_mark_ p' = changes_low_mark_ p;
  rs_vector : ∃ l, changes_for_reader_ p' = RLV.with_items (changes_for_reader_ p) l;
  rs_changes : Forall2 restated (changes p) (changes p')
}.

#[export] Instance restates_preorder : PreOrder restates.
Proof.
  split.
  - intros p. split; [done|done|exists (changes p); unfold changes; by destruct (changes_for_reader_ p)|].
    apply restated_all.
  - intros p1 p2 p3 [H1 L1 [l1 V1] C1] [H2 L2 [l2 V2] C2]. split.
    + exact (transitivity H1 H2).
    + congruence.
    + exists l2. by rewrite V2, V1.
    + exact (transitivity C1 C2).
Qed.

Lemma restates_nums p p' : restates p p' → num <$> changes p' = num <$> changes p.
Proof.
  intros [_ _ _ H]. induction H as [|c d l l' (E & _) _ IH]; [done|]. simpl. f_equal; [|done].
  unfold num. by rewrite E.
Qed.

Lemma restates_with p f :
  (∀ c, restated c (f c)) → restates p (with_changes p (f <$> changes p)).
Proof.
  intros Hf. split; [done|done|by eexists|]. unfold changes. simpl. apply Forall2_fmap_r.
  apply Forall2_same_length_lookup_2; [done|]. intros i x y Hx Hy. assert (x = y) as -> by congruence. apply Hf.
Qed.

Lemma restates_set p i c d : changes p !! i = Some c → restated c d → restates p (set_change p i d).
Proof.
  intros Hi Hd. split; [done|done|by eexists|]. unfold changes. simpl. fold (changes p).
  apply Forall2_same_length_lookup_2; [by rewrite length_insert|]. intros j x y Hx Hy.
  destruct (decide (i = j)) as [<-|Hne].
  - rewrite list_lookup_insert_eq in Hy by by eapply lookup_lt_Some. congruence.
  - rewrite list_lookup_insert_ne in Hy by done. assert (x = y) as -> by congruence. done.
Qed.

Lemma restates_state p p' :
  same_reader p p' → changes_low_mark_ p' = changes_low_mark_ p → changes_for_reader_ p' = changes_for_reader_ p →
  restates p p'.
Proof.
  intros ? ? E. split; [done|done|exists (changes p); rewrite E; unfold changes; by destruct (changes_for_reader_ p)|].
  unfold changes. rewrite E. apply restated_all.
Qed.

Lemma restates_tracks l top limit p p' : tracks l top limit p → restates p p' → tracks l top limit p'.
Proof.
  intros Ht Hr. pose proof Hr as [Hsame Hlow [v Hv] Hch]. pose proof (restates_nums p p' Hr) as En.
  pose proof (t_ok _ _ _ _ Ht) as [Hl Hnums Hs]. eapply tracks_reader; [done|done| |by rewrite Hlow; apply Ht| |].
  - constructor; [by rewrite Hlow| |by rewrite En]. rewrite Hlow. clear -Hnums Hch.
    induction Hch as [|c d m m' (E & _) _ IH]; [done|]. apply Forall_cons in Hnums as [? ?].
    constructor; [unfold num; by rewrite E|by apply IH].
  - pose proof (t_refers _ _ _ _ Ht) as Href. clear -Href Hch.
    induction Hch as [|c d m m' (E & Ec & Est & Ef) _ IH]; [done|]. apply Forall_cons in Href as [(? & ? & ? & ?) ?].
    constructor; [|by apply IH]. unfold refers. rewrite E, Ec. auto.
  - rewrite Hv. apply roomy_items; [apply Ht|]. fold (changes p). assert (changes p' = v) as <- by (unfold changes; by rewrite Hv).
    by rewrite (Forall2_length _ _ _ Hch).
Qed.

(** ** A proxy that knows what its reader wants *)

Lemma Forall_kept {A} (P Q : A → Prop) `{!∀ x, Decision (P x)} (l : list A) : Forall Q l → Forall Q (filter P l).
Proof. rewrite !Forall_forall. intros HQ x [_ Hx]%list_elem_of_filter. by apply HQ. Qed.

Record good (wanted : CacheChange_t → Prop) (l : list CacheChange_t) (top next limit : Z) (p : ReaderProxy) : Prop := {
  g_tracks : tracks l top limit p;
  g_covers c : c ∈ l → wanted c → SN.val (changes_low_mark_ p) < number c → number c ∈ num <$> changes p;
  g_next : Forall (λ d, next <= num d) (changes p)
}.

Section good.
Context (wanted : CacheChange_t → Prop) (l : list CacheChange_t) (top next limit : Z).

Lemma good_restates p p' : good wanted l top next limit p → restates p p' → good wanted l top next limit p'.
Proof.
  intros [Ht Hc Hn] Hr. pose proof (restates_nums p p' Hr) as En. split.
  - by eapply restates_tracks.
  - rewrite (rs_low _ _ Hr), En. exact Hc.
  - rewrite <-(Forall_fmap num (λ n, next <= n)) in Hn |- *. by rewrite En.
Qed.

Lemma good_acked `{WriterHistory.WriterInfo W} (h : WriterHistory.WriterHistory W) p seq :
  good wanted l top next limit p → SN.wf seq → SN.val seq <= top + 1 → top < 2 ^ 63 - 2 →
  seq ≠ SN.default ∨ durability_kind_ p = VOLATILE →
  ∃ p', acked_changes_set h p seq = Done p' ∧ good wanted l top next limit p' ∧ same_reader p p' ∧
    SN.val (changes_low_mark_ p') = Z.max (SN.val (changes_low_mark_ p)) (SN.val seq - 1) ∧
    changes p' = filter (λ c, SN.val seq <= num c) (changes p).
Proof.
  intros [Ht Hc Hn] Hs Hle Hmax Hno. destruct (acked_tracks h l top limit p seq Ht Hs Hle Hmax Hno)
    as (p' & E & Ht' & Hsame & Hlow & Ech). exists p'. split_and!; [done| |done|done|done]. split.
  - done.
  - intros c Hin Hw Hlt. rewrite Ech. destruct (list_elem_of_fmap num (changes p) (number c)) as [Hex _].
    destruct Hex as (d & Ed & Hd); [apply Hc; [done|done|lia]|]. rewrite Ed. apply list_elem_of_fmap_2.
    apply list_elem_of_filter. split; [lia|done].
  - rewrite Ech. by apply Forall_kept.
Qed.

Lemma good_removed `{WriterHistory.WriterInfo W} (h : WriterHistory.WriterHistory W) p i c :
  good wanted l top next limit p → StronglySorted Z.lt (number <$> l) → l !! i = Some c →
  SN.wf (sequenceNumber c) → number c <= top → top < 2 ^ 63 - 2 →
  ∃ p', change_has_been_removed h p (sequenceNumber c) = Done ([], p') ∧
    good wanted (delete i l) top next limit p' ∧ same_reader p p' ∧
    (SN.val (changes_low_mark_ p') = SN.val (changes_low_mark_ p) ∨
      SN.val (changes_low_mark_ p') = SN.val (changes_low_mark_ p) + 1 ∧ SN.val (changes_low_mark_ p') = number c) ∧
    changes p' = filter (λ d, num d ≠ number c) (changes p).
Proof.
  intros [Ht Hc Hn] Hs Hi Hwf Hle Hmax. destruct (removed_tracks h l top limit p i c Ht Hi Hwf Hle Hmax)
    as (p' & E & Ht' & Hsame & Hlow & Ech). exists p'. split_and!; [done| |done|done|done]. split.
  - done.
  - intros x Hx Hw Hlt. destruct (delete_sorted l i c x Hs Hi Hx) as [Hxl Hne]. rewrite Ech.
    destruct (list_elem_of_fmap num (changes p) (number x)) as [Hex _].
    destruct Hex as (d & Ed & Hd); [apply Hc; [done|done|lia]|]. rewrite Ed. apply list_elem_of_fmap_2.
    apply list_elem_of_filter. split; [congruence|done].
  - rewrite Ech. by apply Forall_kept.
Qed.

Lemma good_pushed ndebug p c d rel :
  good wanted l top next limit p → Forall (λ x, number x <= top) l → NoDup (number <$> l) →
  SN.wf (sequenceNumber c) → number c = top + 1 → top + 1 < 2 ^ 63 - 1 → next <= top + 1 →
  (0 < limit → Z.of_nat (length l) < limit) → Z.of_nat (length l) + 1 < 2 ^ 31 →
  refers [c] d → (wanted c → rel = true) →
  ∃ p', ReaderProxy.add_change ndebug p d rel false = Done ([], p') ∧
    good wanted (l ++ [c]) (top + 1) next limit p' ∧ same_reader p p' ∧
    changes p' = (if rel then changes p ++ [d] else changes p) ∧
    (is_reliable_ p = true → changes_low_mark_ p' = changes_low_mark_ p).
Proof.
  intros [Ht Hc Hn] Hl Hnd Hwf Hnum Hmax Hnext Hroom Hsz Hd Hrel.
  destruct (pushed_tracks ndebug l top limit p c d rel) as (p' & E & Ht' & Hsame & Hadd & Hirr); try done.
  assert (num d = top + 1) as Hdn.
  { rewrite (refers_num [c] d Hd). destruct Hd as (->%list_elem_of_singleton & _). done. }
  exists p'. split_and!; [done| |done|destruct rel; [by apply Hadd|by apply Hirr]|intros Hr; destruct rel; [by apply Hadd|by apply Hirr]].
  split; [done| |].
  - intros x Hx Hw Hlt. destruct rel.
    + destruct Hadd as [-> Elow]; [done|]. rewrite Elow in Hlt. rewrite fmap_app. apply elem_of_app.
      apply elem_of_app in Hx as [Hx| ->%list_elem_of_singleton]; [left; by apply Hc|right].
      apply list_elem_of_singleton. simpl. lia.
    + destruct Hirr as (-> & Hle & _); [done|]. apply elem_of_app in Hx as [Hx| ->%list_elem_of_singleton]; [|by specialize (Hrel Hw)].
      apply Hc; [done|done|lia].
  - destruct rel.
    + destruct Hadd as [-> _]; [done|]. apply Forall_app. split; [done|]. apply Forall_singleton. lia.
    + destruct Hirr as [-> _]; [done|]. done.
Qed.

End good.

Section facts.
Context {E : Type} `{!WriterEnv E} `{!WriterEnvLaws E}.
Implicit Types s : Sys E.
Implicit Types w : StatefulWriter E.

Definition wr s : StatefulWriter E := WriterHistory.mp_writer s.
Definition stored s : list CacheChange_t := History.m_changes (WriterHistory.hist s).
Definition last_num s : Z := SN.val (WriterHistory.m_lastCacheChangeSeqNum s).
Definition next_num s : Z := SN.val (next_all_acked_notify_sequence_ (wr s)).
Definition limit s : Z := History.maximumReservedCaches (History.m_att (WriterHistory.hist s)).
Definition messages s : list (list Guid.GUID_t * Submessage) := sent (env (wr s)).

(** What each matched reader is to get: relevant changes, for a volatile reader those
    after it was matched. *)
Context (wanted : Guid.GUID_t → CacheChange_t → Prop).

(** ** Submessages *)

(** No reader of [d] wants what the history has under number [n]. *)
Definition unwanted (l : list CacheChange_t) (top : Z) (d : list Guid.GUID_t) (n : Z) : Prop :=
  0 < n <= top ∧ ∀ r c, r ∈ d → c ∈ l → number c = n → ¬ wanted r c.

(** Data is what the history has under its number, if that is still there; gaps announce
    nothing that is wanted; heartbeats announce nothing of the history as lost. *)
Definition message_ok (l : list CacheChange_t) (top : Z) (x : list Guid.GUID_t * Submessage) : Prop :=
  match x.2 with
  | DATA c _ | DATA_FRAG c _ _ =>
      SN.wf (sequenceNumber c) ∧ 0 < number c <= top ∧ ∀ c', c' ∈ l → number c' = number c → c' = c
  | GAP g => GapBuilder.sound_gap (unwanted l top x.1) top g
  | HEARTBEAT first last _ _ _ =>
      (SN.wf first ∧ 0 < SN.val first <= top + 1) ∧ (SN.wf last ∧ 0 <= SN.val last <= top) ∧
      ∀ c, c ∈ l → SN.val first <= number c
  end.

Lemma message_more l top x c :
  message_ok l top x → number c = top + 1 → message_ok (l ++ [c]) (top + 1) x.
Proof.
  destruct x as [d [c' q|c' n q|g|first last k f v]]; unfold message_ok; simpl; intros H Hc.
  1, 2: destruct H as (Hw & Hn & Hl); split_and!; [done|lia..|]; intros x [Hx| ->%list_elem_of_singleton]%elem_of_app Ex;
    [by apply Hl|lia].
  - destruct H as [Hst Hb Hl Ha]. split; [done|lia|done|]. intros n Hn. destruct (Ha n Hn) as [Hr Hw].
    split; [lia|]. intros r x Hrd [Hx| ->%list_elem_of_singleton]%elem_of_app Ex; [by apply (Hw r)|lia].
  - destruct H as ((? & ?) & (? & ?) & Hl). split_and!; try (done || lia).
    intros x [Hx| ->%list_elem_of_singleton]%elem_of_app; [by apply Hl|lia].
Qed.

Lemma message_less l l' top x : l' ⊆ l → message_ok l top x → message_ok l' top x.
Proof.
  intros Hsub. destruct x as [d [c' q|c' n q|g|first last k f v]]; unfold message_ok; simpl; intros H.
  1, 2: destruct H as (Hw & Hn & Hl); split_and!; [done|lia..|]; intros x Hx; by apply Hl, Hsub.
  - destruct H as [Hst Hb Hl Ha]. split; [done|lia|done|]. intros n Hn. destruct (Ha n Hn) as [Hr Hw].
    split; [lia|]. intros r x Hrd Hx. by apply (Hw r), Hsub.
  - destruct H as (? & ? & Hl). split; [done|]. split; [done|]. intros x Hx. by apply Hl, Hsub.
Qed.

(** ** The invariant *)

Definition good_in s (p : ReaderProxy) : Prop :=
  good (wanted (guid p)) (stored s) (last_num s) (next_num s) (limit s) p.

Definition relevant (c : Config) (g : Guid.GUID_t) (change : CacheChange_t) : bool :=
  match reader_data_filter_ c with Some is_relevant => is_relevant change g | None => true end.

Record winv s : Prop := {
  v_history : history_ok s;
  v_top : last_num s < 2 ^ 62;
  v_filter : ∀ g c, wanted g c → relevant (cfg (wr s)) g c = true;
  v_readers : Forall (good_in s) (readers (wr s));
  v_distinct : NoDup (guid <$> readers (wr s));
  v_next : SN.wf (next_all_acked_notify_sequence_ (wr s)) ∧ 0 <= next_num s <= last_num s + 1;
  v_sent : Forall (message_ok (stored s) (last_num s)) (messages s)
}.

(** [s'] is [s] up to the proxies, which are [rs], submessages that were sent, and
    what no theorem looks at. *)
Record acts s (rs : list ReaderProxy) s' : Prop := {
  a_hist : WriterHistory.hist s' = WriterHistory.hist s;
  a_last : WriterHistory.m_lastCacheChangeSeqNum s' = WriterHistory.m_lastCacheChangeSeqNum s;
  a_cfg : cfg (wr s') = cfg (wr s);
  a_readers : matched_remote_readers_ (wr s') = RLV.with_items (matched_remote_readers_ (wr s)) rs;
  a_pool : matched_readers_pool_ (wr s') = matched_readers_pool_ (wr s);
  a_next : next_all_acked_notify_sequence_ (wr s') = next_all_acked_notify_sequence_ (wr s);
  a_sent : ∃ ms, messages s' = messages s ++ ms ∧ Forall (message_ok (stored s) (last_num s)) ms
}.

Lemma acts_readers s rs s' : acts s rs s' → readers (wr s') = rs.
Proof. intros H. unfold readers. by rewrite (a_readers _ _ _ H). Qed.

Lemma acts_stored s rs s' : acts s rs s' → stored s' = stored s ∧ last_num s' = last_num s ∧ next_num s' = next_num s ∧ limit s' = limit s.
Proof. intros [Eh El _ _ _ En _]. unfold stored, last_num, next_num, limit. by rewrite Eh, El, En. Qed.

Lemma acts_refl s : acts s (readers (wr s)) s.
Proof.
  split; [done|done|done|by unfold readers; destruct (matched_remote_readers_ (wr s))|done|done|].
  exists []. by rewrite app_nil_r.
Qed.

Lemma acts_trans s1 rs2 s2 rs3 s3 : acts s1 rs2 s2 → acts s2 rs3 s3 → acts s1 rs3 s3.
Proof.
  intros H12 H23. pose proof (acts_stored _ _ _ H12) as (Es & El & _).
  pose proof H12 as [? ? ? Hr ? ? (ms & Em & Hms)]. pose proof H23 as [? ? ? Hr' ? ? (ms' & Em' & Hms')].
  split; try congruence.
  - by rewrite Hr', Hr.
  - exists (ms ++ ms'). rewrite Em', Em, app_assoc. split; [done|]. apply Forall_app. by rewrite Es, El in Hms'.
Qed.

Lemma winv_acts s rs s' :
  winv s → acts s rs s' → guid <$> rs = guid <$> readers (wr s) → Forall (good_in s) rs → winv s'.
Proof.
  intros Hi Ha Hg Hrs. pose proof (acts_stored _ _ _ Ha) as (Es & El & En & Em). pose proof (acts_readers _ _ _ Ha) as Er.
  pose proof Hi as [Hh Ht Hf _ Hd Hn Hs]. pose proof Ha as [Eh Elast Ec _ _ Enext (ms & Ems & Hms)]. split.
  - destruct s as [h last high w], s' as [h' last' high' w']. unfold wr in *. simpl in *. subst h' last'.
    pose proof (writer_ok (WriterHistory.mkWriterHistory h last high w) w') as Hw. simpl in Hw. rewrite Ec in Hw.
    destruct (Hw eq_refl Hh). by constructor.
  - by rewrite El.
  - by rewrite Ec.
  - rewrite Er. unfold good_in. by rewrite Es, El, En, Em.
  - by rewrite Er, Hg.
  - by rewrite El, En, Enext.
  - rewrite Es, El, Ems. apply Forall_app. done.
Qed.

Lemma winv_same s s' : winv s → acts s (readers (wr s)) s' → winv s'.
Proof. intros Hi Ha. eapply winv_acts; [done|done|done|apply Hi]. Qed.

(** ** Programs that only speak *)

Lemma acts_writer s w' :
  cfg w' = cfg (wr s) → matched_remote_readers_ w' = matched_remote_readers_ (wr s) →
  matched_readers_pool_ w' = matched_readers_pool_ (wr s) →
  next_all_acked_notify_sequence_ w' = next_all_acked_notify_sequence_ (wr s) →
  sent (env w') = messages s → acts s (readers (wr s)) (WriterHistory.with_writer s w').
Proof.
  intros Ec Er Ep En Es. split; [done|done|done| |done|done|].
  - simpl. rewrite Er. unfold readers. by destruct (matched_remote_readers_ (wr s)).
  - exists []. rewrite app_nil_r. done.
Qed.

Definition speaks {A} (p : stateful (Sys E) A) : Prop :=
  ∀ s, winv s → ends (p s) (λ _ s', acts s (readers (wr s)) s').

(** One after the other. *)
Lemma acts_same s1 s2 s3 :
  acts s1 (readers (wr s1)) s2 → acts s2 (readers (wr s2)) s3 → acts s1 (readers (wr s1)) s3.
Proof. intros H12 H23. pose proof (acts_readers _ _ _ H12) as Er. rewrite Er in H23. by eapply acts_trans. Qed.

Lemma speaks_ret {A} (a : A) : speaks (mret a).
Proof. intros s _. apply ends_ret, acts_refl. Qed.

Lemma speaks_bind {A B} (p : stateful (Sys E) A) (k : A → stateful (Sys E) B) :
  speaks p → (∀ a, speaks (k a)) → speaks (p ≫= k).
Proof.
  intros Hp Hk s Hi. eapply ends_bind; [by apply Hp|]. intros a s1 H1.
  eapply ends_impl; [by apply Hk, (winv_same s)|]. intros b s2 H2. exact (acts_same _ _ _ H1 H2).
Qed.

Lemma speaks_writer : speaks writer.
Proof. intros s _. eexists _, _. split; [reflexivity|apply acts_refl]. Qed.

Lemma speaks_get : speaks get_state.
Proof. intros s _. eexists _, _. split; [reflexivity|apply acts_refl]. Qed.

Lemma speaks_modify (f : StatefulWriter E → StatefulWriter E) :
  (∀ w, cfg (f w) = cfg w ∧ matched_remote_readers_ (f w) = matched_remote_readers_ w ∧
    matched_readers_pool_ (f w) = matched_readers_pool_ w ∧
    next_all_acked_notify_sequence_ (f w) = next_all_acked_notify_sequence_ w ∧ env (f w) = env w) →
  speaks (modify f).
Proof.
  intros Hf s _. eexists _, _. split; [reflexivity|]. destruct (Hf (wr s)) as (? & ? & ? & ? & Ee).
  apply acts_writer; try done. change (sent (env (f (wr s))) = messages s). by rewrite Ee.
Qed.

Lemma speaks_note e : speaks (note e).
Proof. by apply speaks_modify. Qed.

Lemma speaks_ask {A} (f : E → A * E) : (∀ e, sent (f e).2 = sent e) → speaks (ask f).
Proof.
  intros Hf s _. unfold ask. rewrite (bind_step writer _ _ (wr s) s) by done.
  pose proof (Hf (env (wr s))) as Hs. destruct (f (env (wr s))) as [a e]. eexists _, _. split; [reflexivity|].
  by apply acts_writer.
Qed.

Lemma speaks_if {A} (b : bool) (p q : stateful (Sys E) A) : speaks p → speaks q → speaks (if b then p else q).
Proof. by destruct b. Qed.

Lemma ask_message s d m :
  message_ok (stored s) (last_num s) (d, m) →
  ends (ask (λ e, add_submessage e d m) s) (λ a s', acts s (readers (wr s)) s' ∧
    (a = Added → messages s' = messages s ++ [(d, m)]) ∧ env (wr s') = (add_submessage (env (wr s)) d m).2 ∧
    a = (add_submessage (env (wr s)) d m).1).
Proof.
  intros Hm. unfold ask. rewrite (bind_step writer _ _ (wr s) s) by done.
  pose proof (add_sent (env (wr s)) d m) as Hs. destruct (add_submessage (env (wr s)) d m) as [a e]. simpl in Hs.
  eexists _, _. split; [reflexivity|]. split; [|split; [|done]].
  - split; [done|done|done| |done|done|].
    + simpl. unfold readers. fold (wr s). by destruct (matched_remote_readers_ (wr s)).
    + destruct Hs as [Hs|[_ Hs]]; [exists [(d, m)]; split; [done|by apply Forall_singleton]|].
      exists []. by rewrite app_nil_r.
  - intros ->. destruct Hs as [Hs|[? _]]; done.
Qed.

(** *** Programs that may throw *)

(** Every submessage is taken. *)
Definition willing : Prop := ∀ (e : E) d m, (add_submessage e d m).1 = Added.

(** Nothing but submessages were sent, and only an unwilling group has thrown. *)
Definition said {A} s (o : option A) s' : Prop := acts s (readers (wr s)) s' ∧ (willing → is_Some o).

Definition talks {A} (p : stateful (Sys E) (option A)) : Prop := ∀ s, winv s → ends (p s) (said s).

Lemma said_ret {A} s (a : A) : said s (Some a) s.
Proof. split; [apply acts_refl|by exists a]. Qed.

Lemma ends_speak_said {A B} (p : stateful (Sys E) A) (k : A → stateful (Sys E) (option B)) s :
  winv s → ends (p s) (λ _ s', acts s (readers (wr s)) s') →
  (∀ a s', winv s' → acts s (readers (wr s)) s' → ends (k a s') (said s')) → ends ((p ≫= k) s) (said s).
Proof.
  intros Hi Hp Hk. eapply ends_bind; [exact Hp|]. intros a s1 H1.
  eapply ends_impl; [by apply Hk; [apply (winv_same s)|]|]. intros b s2 [H2 Hw]. split; [exact (acts_same _ _ _ H1 H2)|done].
Qed.

Lemma ends_then {A B} (p : stateful (Sys E) (option A)) (k : A → stateful (Sys E) (option B)) s :
  winv s → ends (p s) (said s) → (∀ a s', winv s' → acts s (readers (wr s)) s' → ends (k a s') (said s')) →
  ends (then_ p k s) (said s).
Proof.
  intros Hi Hp Hk. unfold then_. eapply ends_bind; [exact Hp|]. intros [a|] s1 [H1 Hw].
  - eapply ends_impl; [by apply Hk; [apply (winv_same s)|]|]. intros b s2 [H2 Hw2]. split; [exact (acts_same _ _ _ H1 H2)|done].
  - apply ends_ret. split; [done|]. intros Hall. by destruct (Hw Hall).
Qed.

Lemma tried_speaks (p : stateful (Sys E) (option unit)) s :
  ends (p s) (said s) → ends (tried p s) (λ _ s', acts s (readers (wr s)) s').
Proof. intros Hp. eapply ends_bind; [exact Hp|]. intros o s1 [H1 _]. by apply ends_ret. Qed.

Lemma send_said s d m : message_ok (stored s) (last_num s) (d, m) → ends (send d m s) (said s).
Proof.
  intros Hm. eapply ends_bind; [by apply ask_message|]. intros a s' (Ha & _ & _ & Ea). apply ends_ret. split; [done|].
  intros Hw. rewrite Ea, Hw. by exists tt.
Qed.

Lemma the_reader_at s i p : readers (wr s) !! i = Some p → the_reader i s = Done (p, s).
Proof.
  intros Hi. unfold the_reader. rewrite (bind_step writer _ _ (wr s) s) by done. by rewrite Hi.
Qed.

(** The marks of the history. *)
Lemma marks s :
  history_ok s →
  let first := WriterHistory.get_seq_num_min s in
  let last := WriterHistory.get_seq_num_max s in
  (stored s = [] ∧ first = SN.unknown ∧ last = SN.unknown) ∨
  (stored s ≠ [] ∧ (SN.wf first ∧ SN.eqb first SN.unknown = false) ∧ (SN.wf last ∧ SN.eqb last SN.unknown = false) ∧
   0 < SN.val first <= SN.val last ∧ SN.val last <= last_num s ∧
   (∀ c, c ∈ stored s → SN.val first <= number c <= SN.val last)).
Proof.
  intros Hh first lst. pose proof (ok_own _ Hh) as Hown. fold (stored s) in Hown. rewrite Forall_forall in Hown.
  destruct (decide (stored s = [])) as [Enil|Hne].
  { left. split; [done|]. subst first lst. unfold WriterHistory.get_seq_num_min, WriterHistory.get_seq_num_max,
      History.get_min_change, History.get_max_change. fold (stored s). by rewrite Enil. }
  right. split; [done|]. destruct (min_number s Hh Hne) as [[c Hc] Hmin]. destruct (max_number s Hh Hne) as [[d Hd] Hmax].
  fold first in Hc, Hmin. fold lst in Hd, Hmax. pose proof (ok_sorted _ Hh) as Hs.
  apply contents_lookup in Hc as [Hc Ec]; [|done]. apply contents_lookup in Hd as [Hd Ed]; [|done].
  assert (first = sequenceNumber (default c (head (stored s))) ∧ lst = sequenceNumber (default c (list.last (stored s)))) as [Ef El].
  { subst first lst. unfold WriterHistory.get_seq_num_min, WriterHistory.get_seq_num_max, History.get_min_change, History.get_max_change.
    fold (stored s). split; [by destruct (stored s)|]. destruct (list.last (stored s)) eqn:El; [done|].
    by apply last_None in El. }
  assert (∀ x, x ∈ stored s → SN.wf (sequenceNumber x) ∧ 0 < number x <= last_num s ∧ SN.eqb (sequenceNumber x) SN.unknown = false) as Hx.
  { intros x Hx. destruct (Hown x Hx) as (Hw & _ & Hr). split; [done|]. split; [done|]. apply not_true_is_false.
    rewrite SN.eqb_eq. intros Eu. unfold number in Hr. rewrite Eu in Hr. unfold SN.unknown, SN.val in Hr. simpl in Hr. lia. }
  assert (default c (head (stored s)) ∈ stored s) as H1 by (destruct (stored s); [done|left]).
  assert (default c (list.last (stored s)) ∈ stored s) as H2.
  { destruct (list.last (stored s)) eqn:El'; [|done]. simpl. apply last_Some in El' as [l' ->]. apply elem_of_app. right. by left. }
  destruct (Hx _ H1) as (? & Hr1 & ?), (Hx _ H2) as (? & Hr2 & ?). unfold number in Hr1, Hr2. rewrite <-Ef in *. rewrite <-El in *.
  assert (∀ x, x ∈ stored s → is_Some (contents (History.m_changes (WriterHistory.hist s)) !! number x)) as Hin
    by (intros x Hxin; exists x; by apply contents_lookup).
  split; [done|]. split; [done|]. split; [split; [lia|]|split; [lia|]].
  - rewrite <-Ed. apply Hmin, Hin, Hd.
  - intros x Hxin. split; [apply Hmin, Hin, Hxin|apply Hmax, Hin, Hxin].
Qed.

Lemma next_seq s :
  history_ok s → last_num s < 2 ^ 63 - 2 →
  SN.wf (WriterHistory.next_sequence_number s) ∧ SN.val (WriterHistory.next_sequence_number s) = last_num s + 1 ∧
  SN.wf (SN.sub_u32 (WriterHistory.next_sequence_number s) 1) ∧
  SN.val (SN.sub_u32 (WriterHistory.next_sequence_number s) 1) = last_num s.
Proof.
  intros Hh Hlt. destruct (ok_last _ Hh) as [Hw Hv]. fold (last_num s) in Hv. unfold WriterHistory.next_sequence_number.
  destruct (SN.add_u32_val (WriterHistory.m_lastCacheChangeSeqNum s) 1) as [Ha _]; [done|range_unfold; lia|fold (last_num s); lia|].
  assert (SN.wf (SN.add_u32 (WriterHistory.m_lastCacheChangeSeqNum s) 1)) as Hw1 by (apply SN.add_u32_wf; [done|range_unfold; lia]).
  fold (last_num s) in Ha.
  destruct (SN.sub_u32_val (SN.add_u32 (WriterHistory.m_lastCacheChangeSeqNum s) 1) 1) as [Hb _];
    [apply SN.nonneg_val; [done|lia]|range_unfold; lia|lia|].
  split_and!; [done|done|apply SN.sub_u32_wf; [done|range_unfold; lia]|lia].
Qed.

(** ** Heartbeats and gaps *)

(** A program that speaks, and another in the state it ends in. *)
Lemma ends_speak {A B} (p : stateful (Sys E) A) (k : A → stateful (Sys E) B) s :
  winv s → ends (p s) (λ _ s', acts s (readers (wr s)) s') →
  (∀ a s', winv s' → acts s (readers (wr s)) s' → ends (k a s') (λ _ s'', acts s' (readers (wr s')) s'')) →
  ends ((p ≫= k) s) (λ _ s', acts s (readers (wr s)) s').
Proof.
  intros Hi Hp Hk. eapply ends_bind; [exact Hp|]. intros a s1 H1.
  eapply ends_impl; [by apply Hk; [apply (winv_same s)|]|]. intros b s2 H2. exact (acts_same _ _ _ H1 H2).
Qed.

Lemma message_acts s s' x :
  acts s (readers (wr s)) s' → message_ok (stored s) (last_num s) x → message_ok (stored s') (last_num s') x.
Proof. intros Ha. by destruct (acts_stored _ _ _ Ha) as (-> & -> & _). Qed.

Lemma heartbeat_talks ndebug n d final live : talks (send_heartbeat_nts_ ndebug n d final live).
Proof.
  intros s Hi. pose proof (v_history _ Hi) as Hh. unfold send_heartbeat_nts_.
  destruct (n =? 0)%nat; [apply ends_ret, said_ret|]. rewrite (bind_step get_state _ _ s s) by done. cbv zeta.
  destruct (next_seq s Hh) as (Hnw & Hnv & Hlw & Hlv); [pose proof (v_top _ Hi); lia|].
  assert (0 <= last_num s) as Htop by apply (ok_last _ Hh).
  set (go := λ range, match range with None => _ | Some _ => _ end).
  assert (∀ first last, (∀ k, message_ok (stored s) (last_num s) (d, HEARTBEAT first last k final live)) →
    ends (go (Some (first, last)) s) (said s)) as Hgo.
  { intros first last Hm. unfold go. apply ends_speak_said; [done|by apply speaks_modify|]. intros _ s1 Hi1 H1.
    rewrite (bind_step writer _ _ (wr s1) s1) by done.
    apply ends_then; [done|by apply send_said, (message_acts s)|]. intros _ s2 Hi2 H2.
    apply ends_speak_said; [done|by apply speaks_modify|]. intros _ s3 Hi3 H3. apply ends_ret, said_ret. }
  destruct (marks s Hh) as [(Enil & E1 & E2)|(Hne & (Hw1 & E1) & (Hw2 & E2) & Hle & Hle2 & Hall)].
  - rewrite E1, E2. set (range := _ : stateful (Sys E) (option (_ * _))).
    rewrite (bind_step range go s (if (n =? 1)%nat || live then Some (WriterHistory.next_sequence_number s,
      SN.sub_u32 (WriterHistory.next_sequence_number s) 1) else None) s) by (subst range; by destruct ndebug).
    destruct ((n =? 1)%nat || live); [|apply ends_ret, said_ret]. apply Hgo. intros k. unfold message_ok. simpl.
    rewrite Enil, Hnv, Hlv. split_and!; try (done || lia). by intros c ?%elem_of_nil.
  - set (range := _ : stateful (Sys E) (option (_ * _))).
    rewrite (bind_step range go s (Some (WriterHistory.get_seq_num_min s, WriterHistory.get_seq_num_max s)) s).
    2: { subst range. rewrite E1, E2. cbn [orb]. rewrite (SN.leb_val _ _ Hw1 Hw2).
         by rewrite (proj2 (Z.leb_le _ _)) by lia; destruct ndebug. }
    apply Hgo. intros k. unfold message_ok. simpl. split_and!; try (done || lia). intros c Hc. by apply Hall.
Qed.

Lemma select_speaks general l : speaks (select_readers general l).
Proof.
  unfold select_readers. apply speaks_bind; [apply speaks_writer|]. intros w. cbv zeta.
  apply speaks_bind; [|intros _; apply speaks_ret]. destruct general; [by apply speaks_modify|apply speaks_ret].
Qed.

Lemma select_all_speaks general : speaks (select_all_readers_nts general).
Proof.
  unfold select_all_readers_nts. apply speaks_bind; [apply speaks_writer|]. intros w.
  apply speaks_bind; [apply select_speaks|]. intros [all n]. apply speaks_ret.
Qed.

Lemma piggyback_talks ndebug general : talks (send_heartbeat_piggyback_nts_ ndebug general).
Proof.
  assert (talks ('(n, all) ← select_all_readers_nts general; send_heartbeat_nts_ ndebug n all false false)) as Hall.
  { intros s Hi. apply ends_speak_said; [done|by apply select_all_speaks|]. intros [n all] s1 Hi1 _. by apply heartbeat_talks. }
  intros s Hi. unfold send_heartbeat_piggyback_nts_. rewrite (bind_step get_state _ _ s s) by done.
  rewrite (bind_step writer _ _ (wr s) s) by done. destruct (disable_heartbeat_piggyback_ _); [apply ends_ret, said_ret|].
  destruct (_ || _); [by apply Hall|]. cbv zeta. apply ends_speak_said; [done|by apply speaks_modify|]. intros _ s1 Hi1 _.
  destruct (_ <? 0); [by apply Hall|apply ends_ret, said_ret].
Qed.

(** What a group is given on top of the submessages of [s]: gaps for the readers [d]. *)
Definition gaps_for s (d : list Guid.GUID_t) (g : GapGroup) : Prop :=
  g_destinations g = d ∧ (willing → g_thrown g = false) ∧
  ∃ ms, sent (g_env g) = messages s ++ ms ∧ Forall (message_ok (stored s) (last_num s)) ms.

Lemma gaps_for_add s d g gap :
  gaps_for s d g → GapBuilder.sound_gap (unwanted (stored s) (last_num s) d) (last_num s) gap →
  gaps_for s d (add_gap g gap).2.
Proof.
  intros (Hd & Hw & ms & Es & Hms) Hgap. unfold add_gap, gap_group. destruct (g_thrown g) eqn:Et.
  { split; [done|]. split; [intros Ht; by specialize (Hw Ht)|]. by exists ms. }
  pose proof (add_sent (g_env g) (g_destinations g) (GAP gap)) as Hs.
  assert (willing → (add_submessage (g_env g) (g_destinations g) (GAP gap)).1 = Added) as Ha by (intros Hall; apply Hall).
  destruct (add_submessage _ _ _) as [a e]. simpl in *. split; [done|]. split; [intros Ht; by rewrite (Ha Ht)|]. destruct Hs as [Hs|[_ Hs]].
  - exists (ms ++ [(d, GAP gap)]). simpl. rewrite Hs, Es, Hd, app_assoc. split; [done|].
    apply Forall_app. split; [done|]. by apply Forall_singleton.
  - exists ms. simpl. by rewrite Hs.
Qed.

Lemma gaps_for_start s d : gaps_for s d (mkGapGroup d (env (wr s)) false).
Proof. split; [done|]. split; [done|]. exists []. by rewrite app_nil_r. Qed.

(** A state that took its environment from such a group. *)
Lemma gaps_acts s d g rs w' :
  gaps_for s d g → cfg w' = cfg (wr s) →
  matched_remote_readers_ w' = RLV.with_items (matched_remote_readers_ (wr s)) rs →
  matched_readers_pool_ w' = matched_readers_pool_ (wr s) →
  next_all_acked_notify_sequence_ w' = next_all_acked_notify_sequence_ (wr s) → env w' = g_env g →
  acts s rs (WriterHistory.with_writer s w').
Proof.
  intros (_ & _ & ms & Es & Hms) ? ? ? ? Ee. split; try done. exists ms. split; [|done].
  unfold messages at 1. simpl. by rewrite Ee.
Qed.

Lemma unwanted_range l top d x : unwanted l top d x → 0 < x <= top.
Proof. by intros [? _]. Qed.

Lemma add_gaps_said s d l :
  winv s → Forall (λ x, SN.wf x ∧ unwanted (stored s) (last_num s) d (SN.val x)) l →
  ends (ask (λ e, let '(_, gb) := GapBuilder.add_all (GapBuilder.create (mkGapGroup d e false) None) l in
                  (if g_thrown (GapBuilder.group_ gb) then None else Some tt, g_env (GapBuilder.group_ gb))) s) (said s).
Proof.
  intros Hi Hl. pose proof (v_top _ Hi) as Htop. unfold ask. rewrite (bind_step writer _ _ (wr s) s) by done.
  destruct (GapBuilder.add_all_sound (unwanted (stored s) (last_num s) d) (last_num s) (gaps_for s d)
    (unwanted_range _ _ _) ltac:(lia) None (λ g gap Hg _ Hgap, gaps_for_add s d g gap Hg Hgap) l
    (GapBuilder.create (mkGapGroup d (env (wr s)) false) None)) as [HJ _]; [|done|done|].
  { split; [apply gaps_for_start|done]. }
  destruct (GapBuilder.add_all _ _) as [ok gb]. eexists _, _. split; [reflexivity|].
  pose proof (proj1 (proj2 HJ)) as Ht. simpl in Ht. split; [|intros Hw; rewrite (Ht Hw); by exists tt].
  eapply gaps_acts; [exact HJ|done| |done|done|done]. simpl. unfold readers. fold (wr s). by destruct (matched_remote_readers_ (wr s)).
Qed.

Lemma count_up_spec n prev x :
  SN.wf prev → 0 <= SN.val prev → SN.val prev + Z.of_nat n < 2 ^ 63 → x ∈ count_up n prev →
  SN.wf x ∧ SN.val prev <= SN.val x < SN.val prev + Z.of_nat n.
Proof.
  revert prev. induction n as [|n IH]; intros prev Hw Hnn Hlt; cbn [count_up]; [by intros ?%elem_of_nil|].
  intros [->|Hx]%elem_of_cons; [split; [done|lia]|].
  assert (SN.val (SN.incr prev) = SN.val prev + 1) as Ev by (apply SN.incr_val; [done|lia]).
  destruct (IH (SN.incr prev)) as [? ?]; [by apply SN.incr_wf|lia|lia|done|]. split; [done|lia].
Qed.

Lemma holes_spec prev l x :
  SN.wf prev → 0 <= SN.val prev → StronglySorted Z.lt (number <$> l) →
  Forall (λ c, SN.wf (sequenceNumber c) ∧ SN.val prev <= number c < 2 ^ 62) l → x ∈ holes prev l →
  SN.wf x ∧ SN.val prev <= SN.val x ∧ Exists (λ c, SN.val x < number c) l ∧ Forall (λ c, number c ≠ SN.val x) l.
Proof.
  revert prev. induction l as [|c l IH]; intros prev Hw Hnn Hs Hl; cbn [holes]; [by intros ?%elem_of_nil|].
  simpl in Hs. apply StronglySorted_inv in Hs as [Hs Hc]. rewrite Forall_fmap in Hc.
  apply Forall_cons in Hl as [[Hcw Hcr] Hl]. unfold number in Hcr. intros [Hx|Hx]%elem_of_app.
  - apply count_up_spec in Hx as [Hxw Hxr]; [|done|done|lia]. split_and!; [done|lia|left; unfold number; lia|].
    constructor; [unfold number; lia|]. eapply Forall_impl; [exact Hc|]. simpl. unfold number. intros d ?. lia.
  - assert (SN.val (SN.incr (sequenceNumber c)) = number c + 1) as Ev by (apply SN.incr_val; [done|unfold number in *; lia]).
    destruct (IH (SN.incr (sequenceNumber c))) as (Hxw & Hge & Hlt & Hne); [by apply SN.incr_wf|unfold number in *; lia|done| |done|].
    { rewrite Forall_forall in Hl, Hc. apply Forall_forall. intros d Hd. destruct (Hl d Hd) as [? ?].
      specialize (Hc d Hd). simpl in Hc. split; [done|lia]. }
    split_and!; [done|unfold number in *; lia|by right|constructor; [lia|done]].
Qed.

Lemma holes_talk d : talks (add_gaps_for_holes_in_history_ d).
Proof.
  intros s Hi. pose proof (v_history _ Hi) as Hh. unfold add_gaps_for_holes_in_history_.
  rewrite (bind_step get_state _ _ s s) by done. cbv zeta. fold (stored s).
  pose proof (ok_own _ Hh) as Hown. pose proof (ok_sorted _ Hh) as Hs. fold (stored s) in Hown, Hs.
  destruct (stored s) as [|first l] eqn:Est; [apply ends_ret, said_ret|].
  destruct (u64 _ =? _); [apply ends_ret, said_ret|]. apply add_gaps_said; [done|].
  apply Forall_forall. intros x Hx. apply Forall_cons in Hown as [(Hfw & _ & Hfr) Hown].
  fold (last_num s) in Hfr. simpl in Hs. apply StronglySorted_inv in Hs as [Hs Hlt]. rewrite Forall_fmap in Hlt.
  pose proof (v_top _ Hi) as Htop.
  destruct (SN.add_u32_val (sequenceNumber first) 1) as [Ev _]; [done|range_unfold; lia|fold (number first); lia|].
  fold (number first) in Ev.
  destruct (holes_spec (SN.add_u32 (sequenceNumber first) 1) l x) as (Hxw & Hge & Hex & Hne);
    [apply SN.add_u32_wf; [done|range_unfold; lia]|lia|done| |done|].
  { rewrite Forall_forall in Hown, Hlt. apply Forall_forall. intros c Hc. destruct (Hown c Hc) as (? & _ & Hr).
    specialize (Hlt c Hc). fold (last_num s) in Hr. simpl in Hlt. split; [done|lia]. }
  split; [done|]. apply Exists_exists in Hex as (c & Hc & Hxc). rewrite Forall_forall in Hown, Hne.
  destruct (Hown c Hc) as (_ & _ & Hr). fold (last_num s) in Hr. split; [lia|].
  intros r e _ He Een. exfalso. rewrite Est in He. apply elem_of_cons in He as [->|He]; [lia|]. by apply (Hne e He).
Qed.

Lemma reader_in s i : (i < length (readers (wr s)))%nat → ∃ p, readers (wr s) !! i = Some p.
Proof. intros Hi. apply lookup_lt_is_Some_2 in Hi as [p Hp]. by exists p. Qed.

Lemma unknown_sym x : SN.eqb SN.unknown x = SN.eqb x SN.unknown.
Proof. unfold SN.eqb. by rewrite (Z.eqb_sym (SN.high SN.unknown)), (Z.eqb_sym (SN.low SN.unknown)). Qed.

Lemma heartbeat_to_speaks ndebug i live force s :
  winv s → (i < length (readers (wr s)))%nat →
  ends (send_heartbeat_to_nts ndebug i live force s) (λ _ s', acts s (readers (wr s)) s').
Proof.
  intros Hi Hlt. destruct (reader_in s i Hlt) as [p Hp]. unfold send_heartbeat_to_nts.
  rewrite (bind_step get_state _ _ s s) by done. rewrite (bind_step _ _ _ _ _ (the_reader_at s i p Hp)). cbv zeta.
  destruct (_ && _); [|apply ends_ret, acts_refl].
  apply tried_speaks, ends_then; [done| |intros a s' Hi' _; by apply heartbeat_talks].
  destruct (marks s (v_history _ Hi)) as [(_ & E1 & E2)|(_ & (Hw1 & E1) & (Hw2 & E2) & Hle & _)].
  - rewrite E1. apply ends_ret, said_ret.
  - rewrite !SN.neqb_negb, E1, E2. cbn [negb andb]. eapply ends_bind.
    + apply (ends_lift _ tt s (λ _ s', s' = s)); [|done].
      rewrite (SN.leb_val _ _ Hw1 Hw2), (proj2 (Z.leb_le _ _)) by lia. by destruct ndebug.
    + intros _ ? ->. destruct live; [apply ends_ret, said_ret|by apply holes_talk].
Qed.

Lemma for_readers_speak l fn s :
  winv s → (∀ i s1, i ∈ l → winv s1 → readers (wr s1) = readers (wr s) →
    ends (fn i s1) (λ _ s2, acts s1 (readers (wr s1)) s2)) →
  ends (for_readers l fn s) (λ _ s', acts s (readers (wr s)) s').
Proof.
  revert s. induction l as [|i l IH]; intros s Hi Hfn; cbn [for_readers]; [apply ends_ret, acts_refl|].
  apply ends_speak; [done|apply Hfn; [left|done|done]|]. intros stop s1 Hi1 H1.
  destruct stop; [apply ends_ret, acts_refl|]. apply IH; [done|]. intros j s2 Hj Hi2 Er.
  apply Hfn; [by right|done|]. by rewrite Er, (acts_readers _ _ _ H1).
Qed.

Lemma for_matched_speak fn s :
  winv s → (∀ i s1, (i < length (readers (wr s)))%nat → winv s1 → readers (wr s1) = readers (wr s) →
    ends (fn i s1) (λ _ s2, acts s1 (readers (wr s1)) s2)) →
  ends (for_matched_readers fn s) (λ _ s', acts s (readers (wr s)) s').
Proof.
  intros Hi Hfn. unfold for_matched_readers. rewrite (bind_step writer _ _ (wr s) s) by done.
  apply for_readers_speak; [done|]. intros i s1 [_ Hj]%elem_of_seq. apply Hfn. lia.
Qed.

Lemma for_each_speak fn s :
  winv s → (∀ i s1, (i < length (readers (wr s)))%nat → winv s1 → readers (wr s1) = readers (wr s) →
    ends (fn i s1) (λ _ s2, acts s1 (readers (wr s1)) s2)) →
  ends (for_each_reader fn s) (λ _ s', acts s (readers (wr s)) s').
Proof.
  intros Hi Hfn. unfold for_each_reader. apply ends_speak; [done| |intros; by apply speaks_ret].
  apply for_matched_speak; [done|]. intros i s1 Hlt Hi1 Er. apply ends_speak; [done|by apply Hfn|].
  intros; by apply speaks_ret.
Qed.

Lemma heartbeat_to_all_talks ndebug : talks (send_heartbeat_to_all_readers ndebug).
Proof.
  intros s Hi. unfold send_heartbeat_to_all_readers. rewrite (bind_step writer _ _ (wr s) s) by done.
  destruct (m_separateSendingEnabled _).
  { apply ends_speak_said; [done| |intros; apply ends_ret, said_ret]. apply for_each_speak; [done|].
    intros i s1 Hlt Hi1 Er. apply heartbeat_to_speaks; [done|by rewrite Er]. }
  destruct (StatefulWriter.readers (wr s)) as [|p l]; [apply ends_ret, said_ret|].
  apply ends_speak_said; [done|by apply select_all_speaks|]. intros [n all] s1 Hi1 _.
  rewrite (bind_step get_state _ _ s1 s1) by done. eapply ends_bind.
  - apply (ends_lift _ tt s1 (λ _ s', s' = s1)); [|done]. rewrite !unknown_sym.
    destruct (marks s1 (v_history _ Hi1)) as [(_ & E1 & E2)|(_ & (_ & E1) & (_ & E2) & _)]; rewrite ?E1, ?E2; by destruct ndebug.
  - intros _ ? ->. apply ends_then; [done|by apply holes_talk|]. intros _ s2 Hi2 _. by apply heartbeat_talks.
Qed.

Lemma periodic_speaks ndebug final live : speaks (send_periodic_heartbeat ndebug final live).
Proof.
  intros s Hi. unfold send_periodic_heartbeat. rewrite (bind_step get_state _ _ s s) by done.
  rewrite (bind_step writer _ _ (wr s) s) by done. cbv zeta. destruct live; cbn [negb].
  - destruct (m_separateSendingEnabled _).
    { apply ends_speak; [done| |intros; by apply speaks_ret]. apply for_each_speak; [done|].
      intros i s1 Hlt Hi1 Er. apply heartbeat_to_speaks; [done|by rewrite Er]. }
    destruct (readers (wr s)) as [|p l] eqn:Er; rewrite <-Er; [apply ends_ret, acts_refl|].
    destruct (general_selection _) as [all reached].
    apply ends_speak; [done|by apply tried_speaks, heartbeat_talks|intros; by apply speaks_ret].
  - apply ends_speak; [done| |].
    + apply for_matched_speak; [done|]. intros i s1 Hlt Hi1 Er. rewrite <-Er in Hlt.
      destruct (reader_in s1 i Hlt) as [p Hp]. rewrite (bind_step _ _ _ _ _ (the_reader_at s1 i p Hp)). apply ends_ret, acts_refl.
    + intros b s1 Hi1 _. apply ends_speak; [done| |intros; by apply speaks_ret].
      destruct b; [by apply tried_speaks, heartbeat_to_all_talks|apply ends_ret, acts_refl].
Qed.

Lemma old_samples_speak l : speaks (add_old_samples l).
Proof.
  induction l as [|c l IH]; cbn [add_old_samples]; [apply speaks_ret|].
  apply speaks_bind; [|done]. apply speaks_ask. intros e. apply old_sent.
Qed.

(** ** Steps on one proxy *)

Definition placed s (i : nat) (p' : ReaderProxy) : Sys E := WriterHistory.with_writer s (set_reader (wr s) i p').

Lemma placed_acts s i p' : acts s (<[i := p']> (readers (wr s))) (placed s i p').
Proof. split; try done. exists []. by rewrite app_nil_r. Qed.

Lemma on_reader_step {A} s i (f : Sys E → ReaderProxy → outcome (A * ReaderProxy)) p a p' :
  readers (wr s) !! i = Some p → f s p = Done (a, p') → on_reader i f s = Done (a, placed s i p').
Proof.
  intros Hp Hf. unfold on_reader. rewrite (bind_step _ _ _ _ _ (the_reader_at s i p Hp)).
  rewrite (bind_step get_state _ _ s s) by done. by rewrite (bind_step (lift_outcome _) _ _ (a, p') s)
    by (unfold lift_outcome; by rewrite Hf).
Qed.

Lemma on_reader_acts {A} s i (f : Sys E → ReaderProxy → outcome (A * ReaderProxy)) p a p' :
  readers (wr s) !! i = Some p → f s p = Done (a, p') →
  ends (on_reader i f s) (λ a' s', a' = a ∧ acts s (<[i := p']> (readers (wr s))) s').
Proof.
  intros Hp Hf. rewrite (on_reader_step s i f p a p' Hp Hf). exists a, (placed s i p').
  split; [done|]. split; [done|apply placed_acts].
Qed.

Lemma on_reader_effects_acts s i f p e p' :
  readers (wr s) !! i = Some p → f s p = Done (e, p') →
  ends (on_reader_effects i f s) (λ _ s', acts s (<[i := p']> (readers (wr s))) s').
Proof.
  intros Hp Hf. unfold on_reader_effects. rewrite (bind_step _ _ _ _ _ (the_reader_at s i p Hp)).
  rewrite (bind_step _ _ _ _ _ (on_reader_step s i f p e p' Hp Hf)).
  eexists _, _. split; [reflexivity|]. eapply acts_trans; [apply placed_acts|].
  replace (<[i := p']> (readers (wr s))) with (readers (wr (placed s i p'))) by done. by apply acts_writer.
Qed.

Lemma guids_insert (rs : list ReaderProxy) i p p' : rs !! i = Some p → guid p' = guid p → guid <$> <[i := p']> rs = guid <$> rs.
Proof. intros Hi Hg. rewrite list_fmap_insert, Hg. apply list_insert_id. by rewrite list_lookup_fmap, Hi. Qed.

Lemma winv_update s i p p' s' :
  winv s → readers (wr s) !! i = Some p → guid p' = guid p → good_in s p' →
  acts s (<[i := p']> (readers (wr s))) s' → winv s'.
Proof.
  intros Hi Hp Hg Hgood Ha. eapply winv_acts; [done|done|by eapply guids_insert|].
  apply Forall_insert; [apply Hi|done].
Qed.

Lemma good_at s i p : winv s → readers (wr s) !! i = Some p → good_in s p.
Proof. intros Hi Hp. pose proof (v_readers _ Hi) as Hr. rewrite Forall_forall in Hr. by eapply Hr, list_elem_of_lookup_2. Qed.

(** A step on every proxy in turn. *)
Lemma for_readers_update (R : ReaderProxy → ReaderProxy → Prop) (fn : nat → stateful (Sys E) unit) s k s1 pre :
  (∀ i s1 p, readers (wr s) !! i = Some p → readers (wr s1) !! i = Some p → acts s (readers (wr s1)) s1 →
    ends (fn i s1) (λ _ s2, ∃ p', acts s1 (<[i := p']> (readers (wr s1))) s2 ∧ R p p')) →
  acts s (pre ++ drop k (readers (wr s))) s1 → Forall2 R (take k (readers (wr s))) pre → (k <= length (readers (wr s)))%nat →
  ends (for_readers (seq k (length (readers (wr s)) - k)) (λ i, fn i;; mret false) s1)
    (λ _ s', ∃ rs, acts s rs s' ∧ Forall2 R (readers (wr s)) rs).
Proof.
  intros Hfn. remember (length (readers (wr s)) - k)%nat as n eqn:En. revert k s1 pre En.
  induction n as [|n IH]; intros k s1 pre En Ha HR Hk; cbn [seq for_readers].
  { apply ends_ret. rewrite drop_ge, app_nil_r in Ha by lia. rewrite take_ge in HR by lia. by exists pre. }
  destruct (reader_in s k) as [p Hp]; [lia|]. pose proof (acts_readers _ _ _ Ha) as Er.
  assert (length pre = k) as Hlen by (rewrite <-(Forall2_length _ _ _ HR), length_take; lia).
  rewrite (drop_S _ p) in Ha, Er by done.
  assert (readers (wr s1) !! k = Some p) as Hp1 by (by rewrite Er, <-Hlen, list_lookup_middle).
  apply (ends_bind _ _ _ (λ stop s2, stop = false ∧ ∃ p', acts s1 (<[k := p']> (readers (wr s1))) s2 ∧ R p p')).
  { eapply ends_bind; [apply (Hfn k s1 p Hp Hp1); by rewrite Er|]. intros [] s2 H2. by apply ends_ret. }
  intros stop s2 [-> (p' & Ha2 & Hp')]. apply (IH (S k) s2 (pre ++ [p'])); [lia| | |lia].
  - eapply acts_trans; [exact Ha|]. rewrite Er, <-Hlen in Ha2. rewrite insert_app_r_alt, Nat.sub_diag in Ha2 by lia.
    rewrite <-app_assoc, <-Hlen at 1. exact Ha2.
  - rewrite (take_S_r _ _ p) by done. apply Forall2_app; [done|]. by constructor.
Qed.

Lemma for_each_update (R : ReaderProxy → ReaderProxy → Prop) fn s :
  (∀ i s1 p, readers (wr s) !! i = Some p → readers (wr s1) !! i = Some p → acts s (readers (wr s1)) s1 →
    ends (fn i s1) (λ _ s2, ∃ p', acts s1 (<[i := p']> (readers (wr s1))) s2 ∧ R p p')) →
  ends (for_each_reader fn s) (λ _ s', ∃ rs, acts s rs s' ∧ Forall2 R (readers (wr s)) rs).
Proof.
  intros Hfn. unfold for_each_reader, for_matched_readers.
  apply (ends_bind _ _ _ (λ _ s', ∃ rs, acts s rs s' ∧ Forall2 R (readers (wr s)) rs)); [|intros; by apply ends_ret].
  rewrite (bind_step writer _ _ (wr s) s) by done. rewrite <-(Nat.sub_0_r (length (readers (wr s)))).
  apply (for_readers_update R fn s 0 s []); [done|rewrite drop_0; apply acts_refl|constructor|lia].
Qed.

(** ** Removals *)

(** [p'] has let changes go, and takes no number for missing that was not. *)
Definition lets (p p' : ReaderProxy) : Prop :=
  same_reader p p' ∧ SN.val (changes_low_mark_ p) <= SN.val (changes_low_mark_ p') ∧ changes p' ⊆ changes p.

#[local] Instance lets_preorder : PreOrder lets.
Proof.
  split; [done|]. intros p1 p2 p3 (H12 & ? & ?) (H23 & ? & ?). split; [exact (transitivity H12 H23)|]. split; [lia|].
  by etrans.
Qed.

Record shrinks s s' : Prop := {
  sh_stored : sublist (stored s') (stored s);
  sh_last : last_num s' = last_num s;
  sh_cfg : cfg (wr s') = cfg (wr s);
  sh_limit : limit s' = limit s;
  sh_readers : Forall2 lets (readers (wr s)) (readers (wr s'));
  sh_low i p p' c : readers (wr s) !! i = Some p → readers (wr s') !! i = Some p' →
    c ∈ stored s' → number c <= SN.val (changes_low_mark_ p') → number c <= SN.val (changes_low_mark_ p);
  sh_sent : messages s `prefix_of` messages s';
  sh_pool : matched_readers_pool_ (wr s') = matched_readers_pool_ (wr s);
  sh_vector : matched_remote_readers_ (wr s') = RLV.with_items (matched_remote_readers_ (wr s)) (readers (wr s'))
}.

#[local] Instance shrinks_preorder : PreOrder shrinks.
Proof.
  split.
  - intros s. split; [done|done|done|done| | |done|done|];
      [induction (readers (wr s)); by constructor| |by unfold readers; destruct (matched_remote_readers_ (wr s))].
    intros i p p' c Hp Hp' _. by simplify_eq.
  - intros s1 s2 s3 [A1 A2 A3 A4 A5 A6 A7 A8 A9] [B1 B2 B3 B4 B5 B6 B7 B8 B9].
    split; [by etrans|congruence|congruence|congruence|exact (transitivity A5 B5)| |by etrans|congruence|by rewrite B9, A9].
    intros i p p' c Hp Hp' Hc Hle. destruct (Forall2_lookup_l _ _ _ _ _ A5 Hp) as (q & Hq & _).
    apply (A6 i p q c Hp Hq); [by eapply elem_of_sublist|]. by apply (B6 i q p').
Qed.

Lemma acts_sent s rs s' : acts s rs s' → messages s `prefix_of` messages s'.
Proof. intros [_ _ _ _ _ _ (ms & -> & _)]. by exists ms. Qed.

Lemma lets_all (rs : list ReaderProxy) : Forall2 lets rs rs.
Proof. induction rs; by constructor. Qed.

Lemma acts_shrinks s s' : acts s (readers (wr s)) s' → shrinks s s'.
Proof.
  intros Ha. pose proof (acts_stored _ _ _ Ha) as (Es & El & _ & Em). pose proof (acts_readers _ _ _ Ha) as Er.
  split; [by rewrite Es|done|apply Ha|done|rewrite Er; apply lets_all| |by eapply acts_sent|apply Ha|rewrite Er; apply Ha].
  rewrite Er. intros i p p' c Hp Hp'. by simplify_eq.
Qed.

(** The changes up to [n] are acknowledged by every reader. *)
Definition acked_up_to s (n : Z) : Prop := Forall (λ p, n <= SN.val (changes_low_mark_ p)) (readers (wr s)).

(** What left the history was acknowledged by every reader, and no proxy has changed. *)
Record forgets s s' : Prop := {
  fo_shrinks : shrinks s s';
  fo_readers : readers (wr s') = readers (wr s);
  fo_gone c : c ∈ stored s → c ∈ stored s' ∨ acked_up_to s (number c)
}.

#[local] Instance forgets_preorder : PreOrder forgets.
Proof.
  split; [intros s; split; [reflexivity|done|by left]|].
  intros s1 s2 s3 [A1 A2 A3] [B1 B2 B3]. split; [exact (transitivity A1 B1)|congruence|].
  intros c Hc. destruct (A3 c Hc) as [Hc2|]; [|by right]. destruct (B3 c Hc2) as [|Ha]; [by left|right].
  unfold acked_up_to in *. by rewrite <-A2.
Qed.

(** The listener takes nothing out of the history. *)
Definition takes_nothing : Prop := ∀ (e : E) c, (onWriterChangeReceivedByAll e c).1 = [].

(** What [check_acked_status] may do: a listener may take changes that every reader has
    acknowledged out of the history. *)
Record settles s s' : Prop := {
  se_forgets : forgets s s';
  se_quiet : has_listener (cfg (wr s)) = false ∨ takes_nothing → stored s' = stored s
}.

#[local] Instance settles_preorder : PreOrder settles.
Proof.
  split; [intros s; by split; [reflexivity|]|].
  intros s1 s2 s3 [A1 A2] [B1 B2]. split; [exact (transitivity A1 B1)|].
  intros Hq. rewrite B2 by by rewrite (sh_cfg _ _ (fo_shrinks _ _ A1)). by apply A2.
Qed.

Lemma settles_shrinks s s' : settles s s' → shrinks s s'.
Proof. intros Hs. apply Hs. Qed.

Lemma acts_settles s s' : acts s (readers (wr s)) s' → settles s s'.
Proof.
  intros Ha. pose proof (acts_stored _ _ _ Ha) as (Es & _). split; [split|done].
  - by apply acts_shrinks.
  - by apply (acts_readers _ _ _ Ha).
  - intros c Hc. left. by rewrite Es.
Qed.

(** A proxy without the change at [it]. *)
Definition lets_change s (it : nat) (p p' : ReaderProxy) : Prop :=
  lets p p' ∧ (∀ c, c ∈ delete it (stored s) → number c <= SN.val (changes_low_mark_ p') → number c <= SN.val (changes_low_mark_ p)) ∧
  good (wanted (guid p)) (delete it (stored s)) (last_num s) (next_num s) (limit s) p' ∧
  (∀ c, stored s !! it = Some c → number c <= SN.val (changes_low_mark_ p) → p' = p).

Lemma ask_step {A} (f : E → A * E) s :
  ask f s = Done ((f (env (wr s))).1, WriterHistory.with_writer s (with_env (wr s) (f (env (wr s))).2)).
Proof.
  unfold ask. rewrite (bind_step writer _ _ (wr s) s) by done. by destruct (f (env (wr s))).
Qed.

Lemma removed_by_history s it c :
  winv s → stored s !! it = Some c →
  ends (change_removed_by_history c s) (λ b s', b = true ∧ ∃ rs, acts s rs s' ∧ Forall2 (lets_change s it) (readers (wr s)) rs).
Proof.
  intros Hi Hit. pose proof (v_history _ Hi) as Hh. pose proof (ok_own _ Hh) as Hown. rewrite Forall_forall in Hown.
  destruct (Hown c (list_elem_of_lookup_2 _ _ _ Hit)) as (Hcw & _ & Hcr). fold (last_num s) in Hcr.
  pose proof (v_top _ Hi) as Htop. unfold change_removed_by_history. cbv zeta.
  rewrite (bind_step _ _ _ _ _ (ask_step _ s)). rewrite flow_lets_go. set (s1 := WriterHistory.with_writer s _).
  assert (acts s (readers (wr s)) s1) as H1 by (apply acts_writer; try done; apply flow_sent).
  eapply ends_bind; [apply (speaks_modify _); [done|by apply (winv_same s)]|]. intros [] s2 H2.
  pose proof (acts_same _ _ _ H1 H2) as H12. pose proof (acts_readers _ _ _ H12) as Er.
  pose proof (acts_stored _ _ _ H12) as (Es & El & En & Em).
  eapply ends_bind.
  { apply (for_each_update (lets_change s it)). intros i s3 p Hp Hp3 _. rewrite Er in Hp.
    destruct (good_removed (wanted (guid p)) (stored s) (last_num s) (next_num s) (limit s) s3 p it c)
      as (p' & Ef & Hg & Hsame & Hlow & Ech); [by eapply good_at|apply Hh|done|done|lia|lia|].
    eapply ends_impl; [by apply (on_reader_effects_acts s3 i _ p [] p')|]. intros [] s4 H4. exists p'. split; [done|].
    split; [|split; [|split; [done|]]].
    - split; [done|]. split; [lia|]. rewrite Ech. intros x [_ ?]%list_elem_of_filter. done.
    - intros d Hd Hle. destruct (delete_sorted (stored s) it c d (ok_sorted _ Hh) Hit Hd) as [_ Hne].
      lia.
    - intros c' Hc' Hle. assert (c' = c) as -> by congruence. rewrite (removed_acked s3 p) in Ef; [by injection Ef| |done|done].
      apply (g_tracks _ _ _ _ _ _ (good_at s i p Hi Hp)). }
  intros [] s3 (rs & H3 & HR). rewrite Er in HR.
  assert (acts s rs s3) as H13 by by eapply acts_trans.
  eexists _, _. split; [reflexivity|]. split; [done|]. exists rs. split; [|done].
  eapply acts_trans; [exact H13|]. pose proof (acts_readers _ _ _ H13) as Er3. rewrite <-Er3. by apply acts_writer.
Qed.

Lemma Forall2_guids R (l l' : list ReaderProxy) :
  Forall2 R l l' → (∀ p p', R p p' → guid p' = guid p) → guid <$> l' = guid <$> l.
Proof. intros H HR. induction H as [|p p' l l' Hp _ IH]; [done|]. rewrite !fmap_cons. by rewrite IH, (HR p p' Hp). Qed.

Lemma Forall2_kept {A} (R : A → A → Prop) l l' : Forall2 R l l' → (∀ x y, x ∈ l → R x y → y = x) → l' = l.
Proof.
  intros H HR. induction H as [|x y l l' Hxy _ IH]; [done|]. f_equal; [apply HR; [left|done]|].
  apply IH. intros a b Ha. apply HR. by right.
Qed.

(** The change at [it] has left the proxies, and then the history. *)
Lemma winv_erased s s1 rs it c :
  winv s → stored s !! it = Some c → acts s rs s1 → Forall2 (lets_change s it) (readers (wr s)) rs →
  let s' := WriterHistory.with_hist s1 (History.erase (WriterHistory.hist s1) it) in
  winv s' ∧ shrinks s s' ∧ stored s' = delete it (stored s) ∧ next_num s' = next_num s ∧
  (acked_up_to s (number c) → readers (wr s') = readers (wr s)).
Proof.
  intros Hi Hit Ha HR s'. pose proof (acts_stored _ _ _ Ha) as (Es & El & En & Em). pose proof (acts_readers _ _ _ Ha) as Er.
  pose proof Hi as [Hh Ht Hf _ Hd Hn Hs].
  assert (history_ok s1) as Hh1.
  { destruct Ha as [Eh Elast Ec _ _ _ _]. destruct s as [h last high w], s1 as [h1 last1 high1 w1]. unfold wr in *.
    simpl in *. subst h1 last1. pose proof (writer_ok (WriterHistory.mkWriterHistory h last high w) w1) as Hw.
    simpl in Hw. rewrite Ec in Hw. destruct (Hw eq_refl Hh). by constructor. }
  assert (stored s' = delete it (stored s)) as Est by (change (delete it (stored s1) = delete it (stored s)); by rewrite Es).
  assert (∀ p p', lets_change s it p p' → guid p' = guid p) as Hguid by (intros p p' [(Hsame & _) _]; by apply same_guid).
  split; [split|split; [split|split; [done|split; [exact En|]]]].
  - eapply (erase_ok s1 it c); [done|]. fold (stored s1). by rewrite Es.
  - change (last_num s1 < 2 ^ 62). by rewrite El.
  - change (∀ g c, wanted g c → relevant (cfg (wr s1)) g c = true). by rewrite (a_cfg _ _ _ Ha).
  - change (Forall (good_in s') (readers (wr s1))). rewrite Er. apply Forall_forall. intros p' [i Hp']%list_elem_of_lookup.
    destruct (Forall2_lookup_r _ _ _ _ _ HR Hp') as (p & Hp & Hl). unfold good_in. rewrite Est, (Hguid p p' Hl).
    change (last_num s') with (last_num s1). change (next_num s') with (next_num s1). change (limit s') with (limit s1).
    rewrite El, En, Em. apply Hl.
  - change (NoDup (guid <$> readers (wr s1))). by rewrite Er, (Forall2_guids _ _ _ HR Hguid).
  - change (SN.wf (next_all_acked_notify_sequence_ (wr s1)) ∧ 0 <= next_num s1 <= last_num s1 + 1).
    by rewrite El, En, (a_next _ _ _ Ha).
  - change (Forall (message_ok (stored s') (last_num s1)) (messages s1)). rewrite Est, El.
    assert (Forall (message_ok (stored s) (last_num s)) (messages s1)) as Hm.
    { destruct (a_sent _ _ _ Ha) as (ms & -> & Hms). by apply Forall_app. }
    eapply Forall_impl; [exact Hm|]. intros x. apply message_less. intros d Hdel.
    by apply (delete_sorted (stored s) it c d (ok_sorted _ Hh)).
  - rewrite Est. apply sublist_delete.
  - exact El.
  - apply (a_cfg _ _ _ Ha).
  - exact Em.
  - change (Forall2 lets (readers (wr s)) (readers (wr s1))). rewrite Er. eapply Forall2_impl; [exact HR|]. by intros p p' [? _].
  - change (readers (wr s')) with (readers (wr s1)). rewrite Est, Er. intros i p p' d Hp Hp' Hdin.
    destruct (Forall2_lookup_lr _ _ _ _ _ _ HR Hp Hp') as (_ & Hlow & _). by apply Hlow.
  - change (messages s `prefix_of` messages s1). by eapply acts_sent.
  - apply (a_pool _ _ _ Ha).
  - change (matched_remote_readers_ (wr s1) = RLV.with_items (matched_remote_readers_ (wr s)) (readers (wr s1))).
    rewrite Er. apply (a_readers _ _ _ Ha).
  - intros Hack. change (readers (wr s1) = readers (wr s)). rewrite Er. apply (Forall2_kept _ _ _ HR). intros p p' Hp (_ & _ & _ & Hk).
    apply (Hk c Hit). unfold acked_up_to in Hack. rewrite Forall_forall in Hack. by apply Hack.
Qed.

Lemma drop_nts_spec s it c :
  winv s → stored s !! it = Some c →
  ends (remove_nts it true s) (λ k s', k = it ∧ winv s' ∧ shrinks s s' ∧ stored s' = delete it (stored s) ∧
    next_num s' = next_num s ∧ (acked_up_to s (number c) → readers (wr s') = readers (wr s))).
Proof.
  intros Hi Hit. unfold remove_nts. rewrite (bind_step get_state _ _ s s) by done.
  rewrite (ok_attached _ (v_history _ Hi)). cbn [negb]. fold (stored s). rewrite Hit.
  eapply ends_bind; [by apply (removed_by_history s it c)|]. intros b s1 (-> & rs & H1 & HR).
  rewrite (bind_step _ _ _ _ _ (ask_step _ s1)). set (s2 := WriterHistory.with_writer s1 _).
  rewrite (bind_step get_state _ _ s2 s2) by done.
  assert (acts s rs s2) as H2.
  { eapply acts_trans; [exact H1|]. rewrite <-(acts_readers _ _ _ H1). apply acts_writer; try done. apply release_sent. }
  eexists _, _. split; [reflexivity|]. split; [done|]. by apply (winv_erased s s2 rs it c).
Qed.

(** Another change of the history does not match. *)
Lemma other_change s c next :
  winv s → SN.wf (sequenceNumber c) → next ∈ stored s → number next ≠ number c →
  WriterHistory.writer_matches s (History.reference_change (writerGUID c) (sequenceNumber c)) next = false.
Proof.
  intros Hi Hc Hin Hne. unfold WriterHistory.writer_matches. apply andb_false_iff. right. simpl.
  pose proof (ok_own _ (v_history _ Hi)) as Hown. rewrite Forall_forall in Hown.
  destruct (Hown next Hin) as (Hw & _). rewrite SN.eqb_val by done. apply Z.eqb_neq. unfold number in Hne. lia.
Qed.

Lemma drop_change_spec s seq :
  winv s → SN.wf seq →
  ends (remove_change seq s) (λ b s', winv s' ∧ shrinks s s' ∧ next_num s' = next_num s ∧
    (acked_up_to s (SN.val seq) → readers (wr s') = readers (wr s)) ∧
    if b then ∃ it c, stored s !! it = Some c ∧ number c = SN.val seq ∧ stored s' = delete it (stored s)
    else s' = s ∧ ∀ c, c ∈ stored s → number c ≠ SN.val seq).
Proof.
  intros Hi Hseq. pose proof (v_history _ Hi) as Hh. unfold remove_change. rewrite (bind_step get_state _ _ s s) by done.
  rewrite (ok_attached _ Hh). cbn [negb]. cbv zeta. pose proof (find_own s seq Hh Hseq) as Hfind. fold (stored s) in *.
  destruct (stored s !! _) as [c|] eqn:Eit.
  - symmetry in Hfind. apply contents_lookup in Hfind as [Hc Hn]; [|apply Hh].
    pose proof (ok_own _ Hh) as Hown. rewrite Forall_forall in Hown. destruct (Hown c Hc) as (Hcw & _).
    eapply ends_bind; [exact (drop_nts_spec s _ c Hi Eit)|]. intros k s1 (-> & Hi1 & Hsh & Est & En & Hkeep).
    rewrite (bind_step get_state _ _ s1 s1) by done. apply ends_ret. split; [done|]. split; [done|]. split; [done|].
    rewrite Hn in Hkeep. split; [done|].
    fold (stored s1). set (it := History.find_if _ _) in *.
    assert (∀ next, stored s1 !! it = Some next →
      negb (WriterHistory.writer_matches s1 (History.reference_change (writerGUID c) (sequenceNumber c)) next) = true) as Hnext.
    { intros next Hnext. rewrite (other_change s1 c next Hi1 Hcw); [done|by eapply list_elem_of_lookup_2|].
      apply list_elem_of_lookup_2 in Hnext. rewrite Est in Hnext. by apply (delete_sorted (stored s) it c next (ok_sorted _ Hh)). }
    destruct (stored s1 !! it) as [next|]; [rewrite (Hnext next eq_refl)|]; by exists it, c.
  - apply ends_ret. split; [done|]. split; [reflexivity|]. split; [done|]. split; [done|]. split; [done|]. intros c Hc Hn.
    assert (contents (stored s) !! SN.val seq = Some c) as Ec by (apply contents_lookup; [apply Hh|done]). congruence.
Qed.

(** What the listener removes when it is told of the change at [it]. *)
Lemma remove_told_spec s it c l :
  winv s → stored s !! it = Some c → acked_up_to s (number c) → l ⊆ [sequenceNumber c] →
  ends (remove_changes l s) (λ _ s', winv s' ∧ forgets s s' ∧ next_num s' = next_num s ∧
    (stored s' = stored s ∨ l ≠ [] ∧ stored s' = delete it (stored s))).
Proof.
  intros Hi Hit Hack Hl. pose proof (v_history _ Hi) as Hh. pose proof (ok_own _ Hh) as Hown. rewrite Forall_forall in Hown.
  destruct (Hown c (list_elem_of_lookup_2 _ _ _ Hit)) as (Hcw & _).
  assert (∀ s1, winv s1 → forgets s s1 → next_num s1 = next_num s → (stored s1 = stored s ∨ stored s1 = delete it (stored s)) →
    ends (remove_changes l s1) (λ _ s', winv s' ∧ forgets s s' ∧ next_num s' = next_num s ∧
    (stored s' = stored s ∨ stored s' = delete it (stored s)))) as Hgo.
  2: { destruct l as [|x l]; [apply ends_ret; split; [done|]; split; [reflexivity|]; split; [done|by left]|].
       eapply ends_impl; [apply Hgo; [done|reflexivity|done|by left]|].
       intros [] s' (? & ? & ? & [?|?]); (split; [done|]; split; [done|]; split; [done|]); [by left|by right]. }
  induction l as [|seq l IH]; intros s1 Hi1 Hfo Hn Hst; cbn [remove_changes]; [by apply ends_ret|].
  assert (seq = sequenceNumber c) as -> by (apply list_elem_of_singleton, Hl; left).
  eapply ends_bind; [by apply drop_change_spec|]. intros b s2 (Hi2 & Hsh2 & Hn2 & Hkeep & Hb).
  assert (acked_up_to s1 (number c)) as Hack1 by (unfold acked_up_to in *; by rewrite (fo_readers _ _ Hfo)).
  apply IH; [intros x Hx; apply Hl; by right|done| |congruence|].
  - apply (transitivity Hfo). split; [done|by apply Hkeep|]. intros x Hx.
    destruct b; [|destruct Hb as [-> _]; by left]. destruct Hb as (j & d & Hj & Ed & Est).
    destruct (decide (number x = number c)) as [->|Hne]; [by right|left]. rewrite Est.
    eapply delete_other; [exact Hj|exact Hx|]. by rewrite Ed.
  - destruct b; [|destruct Hb as [-> _]; done]. destruct Hb as (j & d & Hj & Ed & Est).
    destruct Hst as [Est1|Est1]; rewrite Est1 in Hj.
    + right. rewrite Est, Est1. f_equal. pose proof (StronglySorted_lt_NoDup _ (ok_sorted _ Hh)) as Hnd.
      apply (NoDup_lookup _ j it (number c) Hnd); rewrite list_lookup_fmap; fold (stored s); [rewrite Hj; simpl; by rewrite Ed|by rewrite Hit].
    + exfalso. apply list_elem_of_lookup_2 in Hj.
      destruct (delete_sorted (stored s) it c d (ok_sorted _ Hh) Hit Hj) as [_ Hne]. by apply Hne.
Qed.

(** ** What has been received by all *)

Lemma tell_received_spec cit s end_seq front :
  winv s → (cit < length (stored s))%nat → SN.wf end_seq → stored s !! 0%nat = Some front → number front <= SN.val end_seq →
  (∀ i c, (i <= cit)%nat → stored s !! i = Some c → acked_up_to s (number c)) →
  ends (tell_received (S cit) cit end_seq s) (λ _ s', winv s' ∧ forgets s s' ∧ next_num s' = next_num s ∧
    (takes_nothing → stored s' = stored s)).
Proof.
  revert s. induction cit as [cit IH] using lt_wf_ind. intros s Hi Hlt Hend Hfront Hle Hack. cbn [tell_received].
  rewrite (bind_step changes_of _ _ (stored s) s) by done. destruct (lookup_lt_is_Some_2 _ _ Hlt) as [c Hc]. rewrite Hc.
  rewrite (bind_step writer _ _ (wr s) s) by done.
  destruct (SN.ltb _ _); [apply (ends_ret tt s); split; [done|]; by split; [reflexivity|]|].
  rewrite (bind_step _ _ _ _ _ (ask_step _ s)). set (s1 := WriterHistory.with_writer s _).
  assert (acts s (readers (wr s)) s1) as H1 by (apply acts_writer; try done; apply told_sent).
  pose proof (se_forgets _ _ (acts_settles _ _ H1)) as Hfo1. pose proof (acts_stored _ _ _ H1) as (Es & _ & En & _).
  eapply ends_bind; [apply (remove_told_spec s1 cit c); [by apply (winv_same s)|done|by apply (Hack cit)|apply removes_told]|].
  intros [] s2 (Hi2 & Hfo2 & En2 & Hst). rewrite Es in Hst. pose proof (transitivity Hfo1 Hfo2) as Hfo.
  assert (takes_nothing → stored s2 = stored s) as Hq by (intros Hno; by destruct Hst as [|[Hne _]]; [|destruct Hne; apply Hno]).
  assert (stored s2 = stored s ∨ stored s2 = delete cit (stored s)) as Hst' by (destruct Hst as [|[_ ?]]; [by left|by right]).
  pose proof (ok_own _ (v_history _ Hi)) as Hown. rewrite Forall_forall in Hown.
  destruct (Hown c (list_elem_of_lookup_2 _ _ _ Hc)) as (Hcw & _). rewrite SN.gtb_val by done. fold (number c).
  destruct (Z.ltb_spec (SN.val end_seq) (number c)) as [Hgt|_].
  2: { apply ends_ret. split; [done|]. split; [done|]. split; [congruence|done]. }
  destruct cit as [|k]; [exfalso; rewrite Hfront in Hc; injection Hc as ->; lia|]. cbn [pred].
  eapply ends_impl; [apply (IH k); [lia|done| |done| |done|]|].
  - destruct Hst' as [->| ->]; [lia|]. rewrite length_delete by done. lia.
  - destruct Hst' as [->| ->]; [done|]. by rewrite list_lookup_delete_lt by lia.
  - intros i x Hik Hx. unfold acked_up_to. rewrite (fo_readers _ _ Hfo). apply (Hack i); [lia|].
    destruct Hst' as [Est|Est]; rewrite Est in Hx; [done|]. by rewrite list_lookup_delete_lt in Hx by lia.
  - intros [] s3 (Hi3 & Hfo3 & En3 & Hq3). split; [done|]. split; [exact (transitivity Hfo Hfo3)|]. split; [congruence|].
    intros Hno. rewrite Hq3 by done. by apply Hq.
Qed.

Lemma start_received_spec s low :
  winv s → SN.wf low → stored s ≠ [] → SN.val (WriterHistory.get_seq_num_min s) <= SN.val low →
  ∃ cit, start_received (stored s) low = Done cit ∧ (cit < length (stored s))%nat ∧
    ∀ i c, (i <= cit)%nat → stored s !! i = Some c → number c <= SN.val low.
Proof.
  intros Hi Hlow Hne Hmin. pose proof (v_history _ Hi) as Hh. pose proof (ok_own _ Hh) as Hown.
  pose proof (ok_sorted _ Hh) as Hs. fold (stored s) in Hown, Hs. unfold start_received.
  assert (Forall (λ c, SN.ltb (sequenceNumber c) low = (number c <? SN.val low)) (stored s)) as Hless.
  { eapply Forall_impl; [exact Hown|]. intros c (Hc & _). by apply SN.ltb_val. }
  destruct (lower_bound_split (λ c, SN.ltb (sequenceNumber c) low) (stored s)) as (it & Elb & Ht & Hd).
  { clear -Hs Hless. induction (stored s) as [|c l IH]; [constructor|]. simpl in Hs.
    apply StronglySorted_inv in Hs as [Hs Hc]. apply Forall_cons in Hless as [Ec Hless].
    constructor; [by apply IH|]. rewrite Forall_fmap, Forall_forall in Hc. rewrite Forall_forall in Hless.
    apply Forall_forall. intros d Hd. specialize (Hc d Hd). simpl in Hc. rewrite Ec, (Hless d Hd), !Z.ltb_ge. lia. }
  assert (it <= length (stored s))%nat as Hit.
  { unfold History.lower_bound in Elb. destruct (forallb _ _); [|done]. injection Elb as <-. apply find_if_le. }
  assert (∀ i c, (i < it)%nat → stored s !! i = Some c → number c <= SN.val low) as Hbefore.
  { intros i c Hi' Hc. rewrite Forall_forall in Ht, Hless.
    assert (c ∈ take it (stored s)) as Hct by (apply (list_elem_of_lookup_2 _ i); by rewrite lookup_take_lt).
    specialize (Ht c Hct). rewrite (Hless c (list_elem_of_lookup_2 _ _ _ Hc)) in Ht. apply Z.ltb_lt in Ht. lia. }
  rewrite Elb. cbn [mbind outcome_bind]. cbv zeta. destruct (stored s) as [|front rest] eqn:Est; [done|].
  assert (number front <= SN.val low) as Hfront.
  { assert (WriterHistory.get_seq_num_min s = sequenceNumber front) as E1
      by (unfold WriterHistory.get_seq_num_min, History.get_min_change; fold (stored s); by rewrite Est).
    rewrite E1 in Hmin. done. }
  destruct ((front :: rest) !! it) as [c|] eqn:Eit.
  - pose proof (lookup_lt_Some _ _ _ Eit). destruct (SN.eqb (sequenceNumber c) low) eqn:Eq.
    { exists it. split; [done|]. split; [done|]. intros i x Hle Hx. destruct (decide (i = it)) as [->|Hni]; [|apply (Hbefore i); [lia|done]].
      assert (x = c) as -> by congruence. apply SN.eqb_eq in Eq. unfold number. rewrite Eq. done. }
    destruct it as [|k]; [|exists k; split; [done|split; [lia|]]; intros i x ? Hx; apply (Hbefore i); [lia|done]]. exfalso. simpl in Eit. injection Eit as <-.
    rewrite drop_0 in Hd. apply Forall_cons in Hd as [Hd _]. apply Forall_cons in Hless as [Hf _]. rewrite Hf in Hd.
    apply Z.ltb_ge in Hd. apply Forall_cons in Hown as [(Hw & _) _]. rewrite SN.eqb_val in Eq by done.
    apply Z.eqb_neq in Eq. unfold number in *. lia.
  - apply lookup_ge_None in Eit. destruct it as [|k]; [simpl in Eit; lia|]. exists k. split; [done|]. split; [lia|].
    intros i x ? Hx. apply (Hbefore i); [lia|done].
Qed.

Lemma has_changes_iff p : has_changes p = false ↔ changes p = [].
Proof. unfold has_changes, RLV.empty, changes. by destruct (RLV.collection_ _). Qed.

Lemma scan_acked_spec rs :
  Forall (λ p, SN.wf (changes_low_mark_ p)) rs →
  let '(all, low) := foldl scan_acked (true, None) rs in
  (all = true ↔ Forall (λ p, changes p = []) rs) ∧
  match low with
  | None => rs = []
  | Some m => (∃ p, p ∈ rs ∧ changes_low_mark_ p = m) ∧ Forall (λ p, SN.val m <= SN.val (changes_low_mark_ p)) rs
  end.
Proof.
  induction rs as [|p rs IH] using rev_ind; intros Hw; [split; [by split|done]|].
  apply Forall_app in Hw as [Hw Hp]. rewrite Forall_singleton in Hp. specialize (IH Hw). rewrite foldl_snoc.
  destruct (foldl scan_acked (true, None) rs) as [all low]. destruct IH as [Hall Hlow]. unfold scan_acked. cbv zeta beta iota. split.
  - rewrite andb_true_iff, negb_true_iff, has_changes_iff, Hall, Forall_app, Forall_singleton. done.
  - destruct low as [m|].
    + destruct Hlow as [(q & Hq & Eq) Hm].
      assert (SN.wf m) as Hmw by (subst m; rewrite Forall_forall in Hw; by apply Hw).
      rewrite SN.ltb_val by done. destruct (Z.ltb_spec (SN.val (changes_low_mark_ p)) (SN.val m)).
      * split; [exists p; split; [apply elem_of_app; right; by left|done]|]. apply Forall_app. split; [|by apply Forall_singleton].
        eapply Forall_impl; [exact Hm|]. simpl. intros. lia.
      * split; [exists q; split; [apply elem_of_app; by left|done]|]. apply Forall_app. split; [done|]. by apply Forall_singleton.
    + subst rs. split; [exists p; split; [by left|done]|]. by apply Forall_singleton.
Qed.

(** Another number is the next to be acknowledged by all. *)
Lemma winv_next s next low all :
  winv s → SN.wf next → 0 <= SN.val next <= last_num s + 1 →
  Forall (λ p, Forall (λ d, SN.val next <= num d) (changes p)) (readers (wr s)) →
  let s' := WriterHistory.with_writer s (with_acked (wr s) next low all) in winv s' ∧ settles s s'.
Proof.
  intros [Hh Ht Hf Hr Hd Hn Hs] Hw Hv Hall s'. split.
  - split; [by apply writer_ok|done|done| |done|done|done]. rewrite Forall_forall in Hr, Hall.
    apply Forall_forall. intros p Hp. destruct (Hr p Hp) as [? ? _]. split; [done|done|by apply Hall].
  - split; [split; [|done|by left]|done].
    split; [done|done|done|done|apply lets_all| |done|done|]; [|by unfold readers; simpl; destruct (matched_remote_readers_ (wr s))].
    intros i p p' c Hp Hp' _.
    change (readers (wr s) !! i = Some p') in Hp'. by simplify_eq.
Qed.

(** The lowest mark, when there are changes: everything up to it is acknowledged. *)
Lemma min_low_mark_spec s :
  winv s → let '(all, low) := foldl scan_acked (true, None) (readers (wr s)) in
  let min_low := default (SN.sub_u32 (WriterHistory.next_sequence_number s) 1) low in
  (all = true ↔ Forall (λ p, changes p = []) (readers (wr s))) ∧ SN.wf min_low ∧ 0 <= SN.val min_low <= last_num s ∧
  acked_up_to s (SN.val min_low) ∧
  Forall (λ p, Forall (λ d, SN.val min_low + 1 <= num d) (changes p)) (readers (wr s)).
Proof.
  intros Hi. unfold acked_up_to. destruct (next_seq s (v_history _ Hi)) as (_ & _ & Hlw & Hlv); [pose proof (v_top _ Hi); lia|].
  pose proof (v_readers _ Hi) as Hr. rewrite Forall_forall in Hr.
  assert (0 <= last_num s) as Htop by apply (ok_last _ (v_history _ Hi)).
  pose proof (scan_acked_spec (readers (wr s))) as Hscan.
  destruct (foldl scan_acked (true, None) (readers (wr s))) as [all low]. destruct Hscan as [Hall Hlow].
  { apply Forall_forall. intros p Hp. apply (p_low _ (t_ok _ _ _ _ (g_tracks _ _ _ _ _ _ (Hr p Hp)))). }
  cbv zeta. split; [done|]. destruct low as [m|]; simpl; [|rewrite Hlow; split_and!; [done|lia|lia|constructor|constructor]].
  destruct Hlow as [(p & Hp & <-) Hm]. destruct (Hr p Hp) as [Ht _ _]. pose proof (t_low _ _ _ _ Ht) as Hle.
  destruct (p_low _ (t_ok _ _ _ _ Ht)) as [Hw Hv]. split_and!; [done|lia|done|done|].
  rewrite Forall_forall in Hm. apply Forall_forall. intros q Hq. specialize (Hm q Hq). simpl in Hm.
  eapply Forall_impl; [apply (p_nums _ (t_ok _ _ _ _ (g_tracks _ _ _ _ _ _ (Hr q Hq))))|]. simpl. intros d [_ ?]. lia.
Qed.

Lemma check_acked_spec s : winv s → ends (check_acked_status s) (λ _ s', winv s' ∧ settles s s').
Proof.
  intros Hi. pose proof (v_history _ Hi) as Hh. unfold check_acked_status. rewrite (bind_step get_state _ _ s s) by done.
  rewrite (bind_step writer _ _ (wr s) s) by done. pose proof (min_low_mark_spec s Hi) as Hscan.
  destruct (foldl scan_acked (true, None) (readers (wr s))) as [all low]. cbv zeta in *.
  destruct Hscan as (Hall & Hlw & Hlv & Hack & Hlow). set (min_low := default _ low) in *. pose proof (v_top _ Hi) as Htop.
  destruct (SN.add_u32_val min_low 1) as [Ev _]; [done|range_unfold; lia|lia|].
  assert (SN.wf (SN.add_u32 min_low 1)) as Hw1 by (apply SN.add_u32_wf; [done|range_unfold; lia]).
  assert (∀ s1, winv s1 → settles s s1 → ends ((if all then s ← get_state;
    modify (λ w, with_acked w (WriterHistory.next_sequence_number s) (SN.sub_u32 (WriterHistory.next_sequence_number s) 1) true)
    else mret tt) s1) (λ _ s', winv s' ∧ settles s s')) as Hend.
  { intros s1 Hi1 Hsh1. destruct all; [|by apply ends_ret]. rewrite (bind_step get_state _ _ s1 s1) by done.
    destruct (next_seq s1 (v_history _ Hi1)) as (Hnw & Hnv & _); [pose proof (v_top _ Hi1); lia|].
    assert (0 <= last_num s1) by apply (ok_last _ (v_history _ Hi1)).
    eexists _, _. split; [reflexivity|].
    destruct (winv_next s1 (WriterHistory.next_sequence_number s1) (SN.sub_u32 (WriterHistory.next_sequence_number s1) 1) true)
      as [Hi2 Hsh2]; [done|done|lia| |split; [done|exact (transitivity Hsh1 Hsh2)]].
    rewrite (fo_readers _ _ (se_forgets _ _ Hsh1)). eapply Forall_impl; [by apply Hall|]. intros p ->. constructor. }
  apply (ends_bind _ _ _ (λ _ s', winv s' ∧ settles s s')); [|intros [] s1 [Hi1 Hsh1]; by apply Hend]. clear Hend.
  destruct (marks s Hh) as [(_ & -> & _)|(Hne & (Hmw & Emin) & _ & Hle & _ & Hbounds)].
  { apply ends_ret. split; [done|reflexivity]. }
  rewrite SN.neqb_negb, Emin. cbn [negb].
  assert (∀ s1, winv s1 → settles s s1 → ends ((s ← get_state;
    (if SN.geb min_low (WriterHistory.get_seq_num_min s)
     then modify (λ w, with_removal w 1 (biggest_removed_sequence_number_ w)) else mret tt);;
    modify (λ w, with_acked w (next_all_acked_notify_sequence_ w) min_low (all_acked_ w))) s1)
    (λ _ s', winv s' ∧ settles s s')) as Hrest.
  { intros s1 Hi1 Hsh1. rewrite (bind_step get_state _ _ s1 s1) by done.
    apply (ends_impl _ (λ _ s2, acts s1 (readers (wr s1)) s2)).
    - apply ends_speak; [done| |intros; by apply speaks_modify].
      destruct (SN.geb _ _); [by apply speaks_modify|apply ends_ret, acts_refl].
    - intros _ s2 H2. split; [by apply (winv_same s1)|].
      exact (transitivity Hsh1 (acts_settles _ _ H2)). }
  apply (ends_bind _ _ _ (λ _ s', winv s' ∧ settles s s')); [|intros [] s1 [Hi1 Hsh1]; by apply Hrest]. clear Hrest.
  destruct (v_next _ Hi) as [Hnw Hnv]. rewrite SN.leb_val by done. destruct (_ <=? _); [|apply ends_ret; split; [done|reflexivity]].
  apply (ends_bind _ _ _ (λ _ s', winv s' ∧ settles s s')).
  - destruct (has_listener _ && _) eqn:El; [|apply ends_ret; split; [done|reflexivity]].
    apply andb_true_iff in El as [Hlis El]. rewrite SN.geb_val in El by done. apply Z.leb_le in El.
    rewrite (bind_step changes_of _ _ (stored s) s) by done.
    destruct (start_received_spec s min_low Hi Hlw Hne El) as (cit & Ecit & Hcit & Hbelow).
    rewrite (bind_step _ _ _ cit s) by (unfold lift_outcome; by rewrite Ecit).
    destruct (stored s) as [|front rest] eqn:Est; [done|].
    assert (WriterHistory.get_seq_num_min s = sequenceNumber front) as Efront
      by (unfold WriterHistory.get_seq_num_min, History.get_min_change; fold (stored s); by rewrite Est).
    eapply ends_impl; [apply (tell_received_spec cit s _ front); [done|by rewrite Est| |by rewrite Est| |]|].
    + by destruct (SN.gtb _ _).
    + rewrite SN.gtb_val by done. rewrite Efront. fold (number front). fold (next_num s).
      destruct (Z.ltb_spec (next_num s) (number front)); [done|]. fold (next_num s). lia.
    + intros i c Hle' Hc. eapply Forall_impl; [exact Hack|]. simpl. intros p ?. rewrite Est in Hc. specialize (Hbelow i c Hle' Hc). lia.
    + intros [] s1 (Hi1 & Hfo & _ & Hq). split; [done|]. split; [done|]. intros [Hno|Hno]; [congruence|by apply Hq].
  - intros [] s1 [Hi1 Hsh1]. eexists _, _. split; [reflexivity|].
    destruct (winv_next s1 (SN.add_u32 min_low 1) (min_readers_low_mark_ (wr s1)) (all_acked_ (wr s1)))
      as [Hi2 Hsh2]; [done|done|rewrite (sh_last _ _ (settles_shrinks _ _ Hsh1)); lia| |split; [done|exact (transitivity Hsh1 Hsh2)]].
    rewrite Ev, (fo_readers _ _ (se_forgets _ _ Hsh1)). done.
Qed.

End facts.
End WriterFacts.
