(* ===== verification/StatefulWriterOps.v ===== *)
(** * The operations of a stateful writer

    Each operation of the writer keeps the invariant of StatefulWriterFacts.v: it ends
    without undefined behaviour or a failing assertion, and what it sends is in order. *)

From S2P Require Import Prelude.
From S2P Require Import SeqNum.
From S2P Require Import Bitmap.
From S2P Require Import BitmapFacts.
From S2P Require Import Containers.
From S2P Require Import Guid.
From S2P Require Import CacheChange.
From S2P Require Import GapBuilder.
From S2P Require Import History.
From S2P Require Import HistoryFacts.
From S2P Require Import ReaderProxy.
From S2P Require Import ReaderProxyFacts.
From S2P Require Import StatefulWriter.
From S2P Require Import StatefulWriterFacts.

Module WriterOps.
Import CacheChange ChangeForReader ReaderLocator ReaderProxy.
Import HistorySearch WriterHistoryFacts ProxyFacts.
Import StatefulWriter WriterFacts.

Section ops.
Context {E : Type} `{!WriterEnv E} `{!WriterEnvLaws E}.
Context (wanted : Guid.GUID_t → CacheChange_t → Prop).
Implicit Types s : Sys E.
Implicit Types w : StatefulWriter E.

Abbreviation winv := (winv wanted).
Abbreviation acts := (acts wanted).
Abbreviation good_in := (good_in wanted).

#[local] Existing Instances lets_preorder shrinks_preorder settles_preorder.

(** ** What an operation may do *)

(** A proxy without a reader. *)
Record idle (limit : Z) (p : ReaderProxy) : Prop := {
  id_changes : changes p = [];
  id_low : changes_low_mark_ p = SN.default;
  id_room : roomy limit (changes_for_reader_ p);
  id_guid : guid p = Guid.c_Guid_Unknown;
  id_remote : is_local_reader p = false ∧ is_datasharing_reader p = false
}.

Definition pool_ok s : Prop :=
  RLV.wf (matched_remote_readers_ (wr s)) ∧ Forall (idle (limit s)) (RLV.collection_ (matched_readers_pool_ (wr s))).

Lemma same_pool s s' :
  limit s' = limit s → matched_readers_pool_ (wr s') = matched_readers_pool_ (wr s) →
  matched_remote_readers_ (wr s') = RLV.with_items (matched_remote_readers_ (wr s)) (readers (wr s')) →
  length (readers (wr s')) = length (readers (wr s)) → pool_ok s → pool_ok s'.
Proof.
  intros Em Ep Er El [Hw Hp]. split; [|by rewrite Ep, Em]. rewrite Er. destruct Hw as (Hc & Hs & Hm).
  split; [done|]. split; [|done]. unfold RLV.size in *. simpl. rewrite El. done.
Qed.

(** Nothing comes back into the history, and a reliable reader has acknowledged no more
    of what it wants than before, apart from the numbers of [acked]. *)
Record steady (acked : Guid.GUID_t → Z → Prop) s s' : Prop := {
  sd_low p' c : p' ∈ readers (wr s') → is_reliable_ p' = true → c ∈ stored s' → wanted (guid p') c →
    number c <= SN.val (changes_low_mark_ p') →
    (∃ p, p ∈ readers (wr s) ∧ same_reader p p' ∧ number c <= SN.val (changes_low_mark_ p)) ∨ acked (guid p') (number c);
  sd_stored c : c ∈ stored s' → c ∈ stored s ∨ last_num s < number c;
  sd_last : last_num s <= last_num s';
  sd_cfg : cfg (wr s') = cfg (wr s);
  sd_sent : messages s `prefix_of` messages s';
  sd_pool : pool_ok s → pool_ok s'
}.

Definition nobody (g : Guid.GUID_t) (n : Z) : Prop := False.

Lemma low_bound s p : winv s → p ∈ readers (wr s) → SN.val (changes_low_mark_ p) <= last_num s.
Proof.
  intros Hi [i Hp]%list_elem_of_lookup. apply (t_low _ _ _ _ (g_tracks _ _ _ _ _ _ (good_at _ _ _ _ Hi Hp))).
Qed.

Lemma steady_trans acked s1 s2 s3 : winv s2 → steady acked s1 s2 → steady acked s2 s3 → steady acked s1 s3.
Proof.
  intros Hi [W1 S1 T1 C1 M1 P1] [W2 S2 T2 C2 M2 P2]. split; [| |lia|congruence|by etrans|by intros ?%P1%P2].
  - intros p c Hp Hrel Hc Hw Hle. destruct (W2 p c Hp Hrel Hc Hw Hle) as [(q & Hq & Hsame & Hle2)|]; [|by right].
    pose proof (same_guid _ _ Hsame) as Eg. pose proof Hsame as (_ & _ & Erel & _).
    assert (c ∈ stored s2) as Hc2. { destruct (S2 c Hc) as [|Hlt]; [done|]. pose proof (low_bound s2 q Hi Hq). lia. }
    destruct (W1 q c Hq) as [(o & Ho & Hsame1 & Hle1)|Ha]; [congruence|done|by rewrite <-Eg|done| |right; by rewrite Eg].
    left. exists o. split; [done|]. split; [by etrans|done].
  - intros c Hc. destruct (S2 c Hc) as [Hc2|Hlt]; [by apply S1|right; lia].
Qed.

Lemma steady_impl (acked acked' : Guid.GUID_t → Z → Prop) s s' :
  steady acked s s' → (∀ g n, acked g n → acked' g n) → steady acked' s s'.
Proof.
  intros [W S T C M P] Himp. split; try done. intros p c Hp Hrel Hc Hw Hle.
  destruct (W p c Hp Hrel Hc Hw Hle) as [|Ha]; [by left|right; by apply Himp].
Qed.

Lemma shrinks_steady acked s s' : shrinks s s' → steady acked s s'.
Proof.
  intros [Hst El Ec Em Hr Hlow Hs Ep]. split; [| |lia|done|done|apply same_pool; try done; by rewrite (Forall2_length _ _ _ Hr)].
  - intros p' c [i Hp']%list_elem_of_lookup _ Hc _ Hle. left. destruct (Forall2_lookup_r _ _ _ _ _ Hr Hp') as (p & Hp & Hl).
    exists p. split; [by eapply list_elem_of_lookup_2|]. split; [apply Hl|by apply (Hlow i p p')].
  - intros c Hc. left. by eapply elem_of_sublist.
Qed.

Lemma acts_steady acked s rs s' :
  acts s rs s' →
  Forall2 (λ p p', same_reader p p' ∧ (is_reliable_ p = true → ∀ c, c ∈ stored s → wanted (guid p) c →
    number c <= SN.val (changes_low_mark_ p') → number c <= SN.val (changes_low_mark_ p) ∨ acked (guid p) (number c)))
    (readers (wr s)) rs → steady acked s s'.
Proof.
  intros Ha Hrs. pose proof (acts_stored _ _ _ _ Ha) as (Es & El & _ & Em). pose proof (acts_readers _ _ _ _ Ha) as Er.
  split; [| |lia|apply Ha|by eapply acts_sent|]; rewrite ?Er, ?Es.
  - intros p' c [i Hp']%list_elem_of_lookup Hrel Hc Hw Hle.
    destruct (Forall2_lookup_r _ _ _ _ _ Hrs Hp') as (p & Hp & Hsame & Hlow).
    pose proof (same_guid _ _ Hsame) as Eg. pose proof Hsame as (_ & _ & Erel & _).
    destruct (Hlow ltac:(congruence) c Hc ltac:(congruence) Hle); [left|right; by rewrite Eg].
    exists p. split; [by eapply list_elem_of_lookup_2|done].
  - intros c Hc. by left.
  - apply same_pool; [done|apply Ha|rewrite Er; apply Ha|by rewrite Er, (Forall2_length _ _ _ Hrs)].
Qed.

(** A step on one proxy that leaves its low mark. *)
Lemma update_steady acked s i p p' s' :
  readers (wr s) !! i = Some p → same_reader p p' →
  (is_reliable_ p = true → ∀ c, c ∈ stored s → wanted (guid p) c → number c <= SN.val (changes_low_mark_ p') →
    number c <= SN.val (changes_low_mark_ p) ∨ acked (guid p) (number c)) →
  acts s (<[i := p']> (readers (wr s))) s' → steady acked s s'.
Proof.
  intros Hp Hsame Hlow Ha. eapply acts_steady; [exact Ha|]. apply Forall2_same_length_lookup_2; [by rewrite length_insert|].
  intros j x y Hx Hy. destruct (decide (i = j)) as [<-|Hne].
  - rewrite list_lookup_insert_eq in Hy by by eapply lookup_lt_Some. simplify_eq. done.
  - rewrite list_lookup_insert_ne in Hy by done. simplify_eq. split; [done|]. intros _ c _ _ ?. by left.
Qed.

Lemma speak_steady acked s s' : acts s (readers (wr s)) s' → steady acked s s'.
Proof. intros Ha. by apply shrinks_steady, (acts_shrinks wanted). Qed.

(** ** Acknowledgements *)

(** Nothing of the history counts as acknowledged by the reader. *)
Definition untouched (l : list CacheChange_t) (p : ReaderProxy) : Prop := ∀ c, c ∈ l → SN.val (changes_low_mark_ p) < number c.

Lemma no_changes l top lim p : tracks l top lim p → l = [] → changes p = [].
Proof.
  intros Ht ->. pose proof (t_refers _ _ _ _ Ht) as Hr. destruct (changes p) as [|c m]; [done|].
  apply Forall_cons in Hr as [(Hin & _) _]. by apply elem_of_nil in Hin.
Qed.

(** A higher low mark, below everything that is waited for. *)
Lemma raised_good s p low :
  good_in s p → SN.wf low → SN.val (changes_low_mark_ p) <= SN.val low <= last_num s → last_num s < 2 ^ 62 →
  Forall (λ d, SN.val low < num d) (changes p) → good_in s (with_low_mark p low).
Proof.
  intros [Ht Hc Hn] Hw Hle Htop Hall. pose proof (t_ok _ _ _ _ Ht) as [[_ Hlow] Hnums Hs]. split; [|intros c Hin Hwant Hlt|done].
  - eapply tracks_reader; [exact Ht|done| |simpl; lia|apply Ht|apply Ht]. split; simpl; [split; [done|lia]| |done].
    rewrite Forall_forall in Hnums, Hall. apply Forall_forall. intros d Hd. destruct (Hnums d Hd) as [? ?].
    split; [done|]. specialize (Hall d Hd). simpl in Hall. lia.
  - apply Hc; [done|done|]. simpl in Hlt. lia.
Qed.

(** The first acknowledgement of a reader that is not volatile, which has base zero: the
    low mark goes up to the history. *)
Lemma acked_first s p :
  winv s → good_in s p → durability_kind_ p ≠ VOLATILE → untouched (stored s) p →
  ∃ p', acked_changes_set s p SN.default = Done p' ∧ good_in s p' ∧ same_reader p p' ∧
    SN.val (changes_low_mark_ p) <= SN.val (changes_low_mark_ p') ∧ untouched (stored s) p' ∧ changes p' = changes p.
Proof.
  intros Hi Hg Hdur Hun. pose proof (v_history _ _ Hi) as Hh. pose proof (v_top _ _ Hi) as Htop.
  pose proof (g_tracks _ _ _ _ _ _ Hg) as Ht. destruct (p_low _ (t_ok _ _ _ _ Ht)) as [Hlw Hlv]. pose proof (t_low _ _ _ _ Ht) as Hll.
  unfold acked_changes_set. rewrite SN.gtb_val by (done || (split; range_unfold; simpl; lia)). change (SN.val SN.default) with 0.
  rewrite (proj2 (Z.ltb_ge _ _)) by lia. rewrite bool_decide_false by done.
  destruct (marks s Hh) as [(Enil & -> & _)|(Hne & (Hmw & Em) & _ & Hmv & Hml & Hmin)].
  - rewrite (proj1 (t_remote _ _ _ _ Ht)). cbn [negb andb]. destruct (next_seq s Hh) as (_ & _ & Hw & Hv); [lia|].
    eexists. split; [reflexivity|]. split; [apply raised_good; [done|done|lia|done|]|].
    { rewrite (no_changes _ _ _ _ Ht Enil). constructor. }
    split; [done|]. split; [simpl; lia|]. split; [|done]. rewrite Enil. by intros c ?%not_elem_of_nil.
  - rewrite SN.neqb_negb, Em, SN.ltb_val by (done || (split; range_unfold; simpl; lia)). change (SN.val SN.default) with 0.
    rewrite (proj2 (Z.ltb_lt _ _)) by lia.
    assert (SN.val (changes_low_mark_ p) < SN.val (WriterHistory.get_seq_num_min s)) as Hlt.
    { destruct (min_number s Hh Hne) as [[c Hc] _]. apply contents_lookup in Hc as [Hc Ec]; [|apply Hh].
      rewrite <-Ec. by apply Hun. }
    rewrite Z2Nat.nonpos by lia. cbn [SN.eqb negb andb]. change (SN.eqb SN.default SN.default) with true. cbn [negb andb replay].
    rewrite (SN.leb_val _ _ Hmw Hlw), (proj2 (Z.leb_gt _ _)) by lia. cbn [mbind outcome_bind mret outcome_ret].
    destruct (SN.sub_u32_val (WriterHistory.get_seq_num_min s) 1) as [Hs1 _]; [apply SN.nonneg_val; [done|lia]|range_unfold; lia|lia|].
    eexists. split; [reflexivity|]. split; [apply raised_good; [done|apply SN.sub_u32_wf; [done|range_unfold; lia]|lia|done|]|].
    { pose proof (t_refers _ _ _ _ Ht) as Hr. eapply Forall_impl; [exact Hr|]. intros d Hd. rewrite (refers_num _ _ Hd).
      destruct Hd as (Hd & _). destruct (Hmin _ Hd). lia. }
    split; [done|]. split; [simpl; lia|]. split; [|done]. intros c Hc. destruct (Hmin c Hc). simpl. lia.
Qed.

Lemma acknowledge_acts s i p seq :
  winv s → readers (wr s) !! i = Some p → SN.wf seq → SN.val seq <= last_num s + 1 →
  seq ≠ SN.default ∨ durability_kind_ p = VOLATILE →
  ends (acknowledge i seq s) (λ _ s', ∃ p', acts s (<[i := p']> (readers (wr s))) s' ∧ good_in s p' ∧ same_reader p p' ∧
    SN.val (changes_low_mark_ p') = Z.max (SN.val (changes_low_mark_ p)) (SN.val seq - 1) ∧
    changes p' = filter (λ c, SN.val seq <= num c) (changes p)).
Proof.
  intros Hi Hp Hseq Hle Hno. pose proof (v_top _ _ Hi) as Htop.
  destruct (good_acked (wanted (guid p)) (stored s) (last_num s) (next_num s) (limit s) s p seq)
    as (p' & Ef & Hg & Hsame & Hlow & Ech); [by eapply good_at|done|done|lia|done|].
  unfold acknowledge. eapply ends_impl; [apply (on_reader_acts wanted s i _ p tt p' Hp); by rewrite Ef|].
  intros _ s' [_ H']. exists p'. split_and!; [done| |done|done|done]. unfold WriterFacts.good_in. by rewrite (same_guid _ _ Hsame).
Qed.

(** The same for any acknowledgement that makes sense. *)
Lemma acknowledge_any s i p seq :
  winv s → readers (wr s) !! i = Some p → SN.wf seq → 0 <= SN.val seq <= last_num s + 1 →
  seq ≠ SN.default ∨ durability_kind_ p = VOLATILE ∨ untouched (stored s) p →
  ends (acknowledge i seq s) (λ _ s', ∃ p', acts s (<[i := p']> (readers (wr s))) s' ∧ good_in s p' ∧ same_reader p p' ∧
    (seq ≠ SN.default ∨ durability_kind_ p = VOLATILE →
      SN.val (changes_low_mark_ p') = Z.max (SN.val (changes_low_mark_ p)) (SN.val seq - 1)) ∧
    (SN.val (changes_low_mark_ p) <= SN.val (changes_low_mark_ p') ∧ ∀ c, c ∈ stored s → number c <= SN.val (changes_low_mark_ p') →
      number c <= SN.val (changes_low_mark_ p) ∨ number c < SN.val seq) ∧
    changes p' = filter (λ c, SN.val seq <= num c) (changes p)).
Proof.
  intros Hi Hp Hw Hr Hno. pose proof (good_at _ _ _ _ Hi Hp) as Hg.
  assert ((seq ≠ SN.default ∨ durability_kind_ p = VOLATILE) ∨
    seq = SN.default ∧ durability_kind_ p ≠ VOLATILE ∧ untouched (stored s) p) as [Hno'|(-> & Hdur & Hun)].
  { destruct Hno as [?|[?|?]]; [by left; left|by left; right|]. destruct (decide (durability_kind_ p = VOLATILE)); [by left; right|].
    destruct (SN.eqb seq SN.default) eqn:Ed; [apply SN.eqb_eq in Ed; by right|]. left. left. intros ->. by vm_compute in Ed. }
  - eapply ends_impl; [by apply (acknowledge_acts s i p); [..|lia|]|]. intros [] s' (p' & H' & Hg' & Hsame & Hlow & Ech).
    exists p'. split_and!; try done; [lia|]. intros c _ Hle. rewrite Hlow in Hle. lia.
  - destruct (acked_first s p Hi Hg Hdur Hun) as (p' & Ef & Hg' & Hsame & Hle & Hun' & Ech).
    unfold acknowledge. eapply ends_impl; [apply (on_reader_acts wanted s i _ p tt p' Hp); by rewrite Ef|].
    intros _ s' [_ H']. exists p'. split_and!; [done|done|done|by intros [?|?]|done| |].
    + intros c Hc Hlow. specialize (Hun' c Hc). lia.
    + rewrite Ech. symmetry. apply filter_all. pose proof (p_nums _ (t_ok _ _ _ _ (g_tracks _ _ _ _ _ _ Hg))) as Hn.
      pose proof (p_low _ (t_ok _ _ _ _ (g_tracks _ _ _ _ _ _ Hg))) as [_ ?]. eapply Forall_impl; [exact Hn|].
      simpl. intros c [_ ?]. change (SN.val SN.default) with 0. lia.
Qed.

Lemma restated_requested set c : restated c (requested_by set c).
Proof.
  unfold requested_by, markAllFragmentsAsUnsent, restated. case_bool_decide; [|done]. simpl.
  destruct (Z.eqb_spec (getFragmentSize (change_ c)) 0); cbn [negb]; [done|]. split_and!; try done. by intros _ [? _].
Qed.

(** Which of the requested numbers become gaps: none the reader wants. *)
Lemma never_sent_unwanted s p min_seq x :
  winv s → good_in s p → SN.wf x → SN.val x <= last_num s → SN.wf min_seq → never_sent p min_seq x →
  unwanted wanted (stored s) (last_num s) [guid p] (SN.val x).
Proof.
  intros Hi Hg Hx Hle Hmin (_ & Hlow & Hno). pose proof (p_low _ (t_ok _ _ _ _ (g_tracks _ _ _ _ _ _ Hg))) as [_ Hnn].
  split; [lia|]. intros r c ->%list_elem_of_singleton Hc En Hw. rewrite at_num_None in Hno.
  destruct (list_elem_of_fmap num (changes p) (number c)) as [Hex _].
  destruct Hex as (d & Ed & Hd); [apply (g_covers _ _ _ _ _ _ Hg); [done|done|lia]|]. apply (Hno d Hd). lia.
Qed.

Lemma request_changes_acts s i p set :
  winv s → readers (wr s) !! i = Some p → BitmapFacts.inv set → (∀ n, BitmapFacts.mem set n → n <= last_num s) →
  ends (request_changes i set (WriterHistory.get_seq_num_min s) s) (λ some s', ∃ p',
    acts s (<[i := p']> (readers (wr s))) s' ∧ restates p p' ∧
    (stored s ≠ [] → changes p' = requested_by set <$> changes p ∧
      (some = true ↔ ∃ c, c ∈ changes p ∧ BitmapFacts.mem set (num c) ∧ status_ c = UNACKNOWLEDGED))).
Proof.
  intros Hi Hp Hset Hmax. pose proof (good_at _ s i p Hi Hp) as Hg. pose proof (v_top _ _ Hi) as Htop.
  pose proof (t_ok _ _ _ _ (g_tracks _ _ _ _ _ _ Hg)) as Hok. unfold request_changes.
  rewrite (bind_step _ _ _ _ _ (the_reader_at s i p Hp)). rewrite (bind_step writer _ _ (wr s) s) by done.
  set (gb := GapBuilder.create (mkGapGroup [guid p] (env (wr s)) false) None).
  destruct (marks s (v_history _ _ Hi)) as [(Enil & -> & _)|(Hne & (Hmw & Emin) & _)].
  { rewrite (bind_step _ _ _ (false, p, gb) s) by done. simpl. eexists _, _. split; [reflexivity|]. exists p.
    split; [|split; [reflexivity|by rewrite Enil]].
    by eapply (gaps_acts wanted s [guid p]); [apply gaps_for_start|..]. }
  destruct (requests_spec p set gb (WriterHistory.get_seq_num_min s) Hok Hset Hmw Emin) as (some & Er & Hsome).
  set (p' := with_changes p _) in *. set (l := filter _ _) in *.
  rewrite (bind_step _ _ _ (some, p', foldl (λ b x, (GapBuilder.add b x).2) gb l) s) by (unfold lift_outcome; by rewrite Er).
  destruct (GapBuilder.add_many_sound (unwanted wanted (stored s) (last_num s) [guid p]) (last_num s)
    (gaps_for wanted s [guid p]) (unwanted_range _ _ _ _) ltac:(lia) None
    (λ g gap Hg _ Hgap, gaps_for_add wanted s [guid p] g gap Hg Hgap) l gb) as [Hsound Hreader]; [|done| |].
  { split; [apply gaps_for_start|done]. }
  { apply Forall_forall. intros x [Hns Hx]%list_elem_of_filter.
    pose proof (BitmapFacts.for_each_wf set Hset) as Hwf. rewrite Forall_forall in Hwf. specialize (Hwf x Hx). simpl in Hwf.
    split; [done|]. apply (never_sent_unwanted s p (WriterHistory.get_seq_num_min s) x); [done|done|done| |done|done].
    apply Hmax, (members_of set _ Hset). by apply list_elem_of_fmap_2. }
  destruct (GapBuilder.flush_sound (unwanted wanted (stored s) (last_num s) [guid p]) (last_num s)
    (gaps_for wanted s [guid p]) None (λ g gap Hg _ Hgap, gaps_for_add wanted s [guid p] g gap Hg Hgap)
    _ Hsound Hreader) as [[HJ _] _].
  destruct (GapBuilder.flush _) as [ok gb']. eexists _, _. split; [reflexivity|]. exists p'.
  split; [|split; [apply restates_with; intros; apply restated_requested|done]].
  by eapply gaps_acts; [exact HJ|..].
Qed.

(** The reader with an identifier, if there is one. *)
Lemma for_reader_ends s g (k : nat → stateful (Sys E) bool) (Q : Sys E → Prop) :
  (∀ i p, readers (wr s) !! i = Some p → Guid.eqb (guid p) g = true → ends (k i s) (λ b s', b = true ∧ Q s')) →
  ((∀ p, p ∈ readers (wr s) → Guid.eqb (guid p) g = false) → Q s) →
  ends (for_matched_readers (λ i, p ← the_reader i; if Guid.eqb (guid p) g then k i else mret false) s) (λ _ s', Q s').
Proof.
  intros Hk Hno. unfold for_matched_readers. rewrite (bind_step writer _ _ (wr s) s) by done.
  assert (∀ n j, (j + n = length (readers (wr s)))%nat →
    (∀ p, p ∈ take j (readers (wr s)) → Guid.eqb (guid p) g = false) →
    ends (for_readers (seq j n) (λ i, p ← the_reader i; if Guid.eqb (guid p) g then k i else mret false) s) (λ _ s', Q s')) as Hgo;
    [|apply Hgo; [done|by intros p ?%elem_of_nil]].
  induction n as [|n IH]; intros j Hj Hpre; cbn [seq for_readers].
  { apply ends_ret, Hno. rewrite take_ge in Hpre by lia. done. }
  destruct (reader_in s j) as [p Hp]; [lia|].
  destruct (Guid.eqb (guid p) g) eqn:Eg.
  - apply (ends_bind _ _ _ (λ b s', b = true ∧ Q s')); [|intros b s' [-> HQ]; by apply ends_ret].
    rewrite (bind_step _ _ _ _ _ (the_reader_at s j p Hp)), Eg. by apply (Hk j p).
  - rewrite (bind_step _ _ s false s); [|by rewrite (bind_step _ _ _ _ _ (the_reader_at s j p Hp)), Eg].
    apply IH; [lia|]. intros q. rewrite (take_S_r _ _ p) by done. intros [Hq| ->%list_elem_of_singleton]%elem_of_app; [by apply Hpre|done].
Qed.

(** What an acknowledgement [set] makes of a proxy, with the history [l].  One with base
    zero of a reader that is not volatile may raise the low mark, but over nothing of [l]. *)
Record acked_by (l : list CacheChange_t) (set : SequenceNumberSet_t) (p p' : ReaderProxy) : Prop := {
  ab_same : same_reader p p';
  ab_low : BitmapRange.base set ≠ SN.default ∨ durability_kind_ p = VOLATILE →
    SN.val (changes_low_mark_ p') = Z.max (SN.val (changes_low_mark_ p)) (SN.val (BitmapRange.base set) - 1);
  ab_up : SN.val (changes_low_mark_ p) <= SN.val (changes_low_mark_ p') ∧ ∀ c, c ∈ l → number c <= SN.val (changes_low_mark_ p') →
    number c <= SN.val (changes_low_mark_ p) ∨ number c < SN.val (BitmapRange.base set);
  ab_changes : changes p' =
    (if decide (0 < SN.val (BitmapRange.base set)) then requested_by set <$> filter (λ c, SN.val (BitmapRange.base set) <= num c) (changes p)
     else changes p)
}.

(** An acknowledgement that the writer can make sense of. *)
Record valid_acknack s (p : ReaderProxy) (set : SequenceNumberSet_t) : Prop := {
  va_inv : BitmapFacts.inv set;
  va_base : SN.wf (BitmapRange.base set) ∧ 0 <= SN.val (BitmapRange.base set) <= last_num s + 1;
  va_max n : BitmapFacts.mem set n → n <= last_num s;
  va_first : BitmapRange.base set ≠ SN.default ∨ durability_kind_ p = VOLATILE ∨ untouched (stored s) p
}.

Lemma speak_after {A} s s1 rs (o : outcome (A * Sys E)) :
  acts s rs s1 → ends o (λ _ s2, acts s1 (readers (wr s1)) s2) → ends o (λ _ s2, acts s rs s2).
Proof.
  intros H1 Ho. eapply ends_impl; [exact Ho|]. intros a s2 H2. rewrite (acts_readers _ _ _ _ H1) in H2.
  by eapply acts_trans.
Qed.

Lemma acknack_of_spec ndebug s i p set final :
  winv s → readers (wr s) !! i = Some p → valid_acknack s p set →
  ends (acknack_of ndebug i set final s) (λ _ s', winv s' ∧ ∃ s1 p', winv s1 ∧
    acts s (<[i := p']> (readers (wr s))) s1 ∧ acked_by (stored s) set p p' ∧ settles s1 s').
Proof.
  intros Hi Hp [Hset [Hbw Hb] Hmax Hno]. unfold acknack_of.
  eapply ends_bind; [by apply (acknowledge_any s i p)|]. intros [] s1 (p1 & H1 & Hg1 & Hsame1 & Hlow1 & Hup1 & Ech1).
  assert (winv s1) as Hi1 by (eapply winv_update; [done|done|by apply same_guid|done|done]).
  rewrite (bind_step get_state _ _ s1 s1) by done. pose proof (acts_readers _ _ _ _ H1) as Er1.
  assert (readers (wr s1) !! i = Some p1) as Hp1
    by (rewrite Er1; apply list_lookup_insert_eq; by eapply lookup_lt_Some).
  pose proof (acts_stored _ _ _ _ H1) as (Es & El & _).
  apply (ends_bind _ _ _ (λ _ s2, ∃ p2, acts s (<[i := p2]> (readers (wr s))) s2 ∧ acked_by (stored s) set p p2 ∧ winv s2)).
  2: { intros [] s2 (p2 & H2 & Hab & Hi2). eapply ends_impl; [by apply check_acked_spec|].
       intros [] s3 [Hi3 Hsh]. split; [done|]. by exists s2, p2. }
  rewrite SN.gtb_val by (done || (split; range_unfold; simpl; lia)). change (SN.val SN.default) with 0.
  assert (∀ p2 s2, acts s1 (<[i := p2]> (readers (wr s1))) s2 → acts s (<[i := p2]> (readers (wr s))) s2) as Htrans.
  { intros p2 s2 H2. rewrite Er1, list_insert_insert_eq in H2. by eapply acts_trans. }
  destruct (Z.ltb_spec 0 (SN.val (BitmapRange.base set))) as [Hpos|Hzero].
  - eapply ends_bind; [apply (request_changes_acts s1 i p1); [done|done|done|by rewrite El]|].
    intros some s2 (p2 & H2 & Hre & Hch). assert (acked_by (stored s) set p p2) as Hab.
    { split; [exact (transitivity Hsame1 (rs_same _ _ Hre))|by rewrite (rs_low _ _ Hre)|by rewrite (rs_low _ _ Hre)|].
      rewrite decide_True by done. rewrite <-Ech1. destruct (decide (stored s1 = [])) as [Enil|Hne]; [|by apply Hch].
      assert (changes p1 = []) as E1 by (eapply no_changes; [apply (g_tracks _ _ _ _ _ _ (good_at _ _ _ _ Hi1 Hp1))|done]).
      pose proof (restates_nums _ _ Hre) as En. rewrite E1 in En |- *. simpl in En.
      apply (f_equal length) in En. rewrite length_fmap in En. by destruct (changes p2). }
    assert (winv s2) as Hi2.
    { eapply winv_update; [exact Hi1|done|apply same_guid, Hre| |done].
      unfold WriterFacts.good_in. rewrite (same_guid _ _ (rs_same _ _ Hre)).
      eapply good_restates; [by eapply good_at|done]. }
    eapply ends_impl; [apply (speak_after s s2 _ _ (Htrans _ _ H2))|].
    + destruct some; [by apply speaks_note|]. destruct final; cbn [negb]; [apply ends_ret, acts_refl|by apply speaks_note].
    + intros [] s3 H3. exists p2. split_and!; [done|done|]. eapply winv_acts; [exact Hi|exact H3|..].
      * rewrite <-(guids_insert (readers (wr s)) i p p2 Hp); [done|]. apply same_guid, Hab.
      * pose proof (v_readers _ _ Hi2) as Hr2. pose proof (Htrans _ _ H2) as H2'. rewrite (acts_readers _ _ _ _ H2') in Hr2.
        pose proof (acts_stored _ _ _ _ H2') as (E1 & E2 & E3 & E4). unfold WriterFacts.good_in in *. by rewrite E1, E2, E3, E4 in Hr2.
  - assert (acked_by (stored s) set p p1) as Hab.
    { split; [done|done|done|]. rewrite decide_False by lia. rewrite Ech1. apply filter_all, Forall_forall. intros c Hc.
      pose proof (p_nums _ (t_ok _ _ _ _ (g_tracks _ _ _ _ _ _ (good_at _ _ _ _ Hi Hp)))) as Hnums.
      pose proof (p_low _ (t_ok _ _ _ _ (g_tracks _ _ _ _ _ _ (good_at _ _ _ _ Hi Hp)))) as [_ ?].
      rewrite Forall_forall in Hnums. destruct (Hnums c Hc). lia. }
    apply (ends_impl _ (λ _ s2, acts s1 (readers (wr s1)) s2)).
    + destruct (BitmapRange.empty set && negb final); [|apply ends_ret, acts_refl].
      assert (process_initial_acknack ndebug p1 = Done (true, [], p1)) as Einit.
      { unfold process_initial_acknack. by rewrite (proj1 (t_remote _ _ _ _ (g_tracks _ _ _ _ _ _ (good_at _ _ _ _ Hi1 Hp1)))). }
      eapply ends_bind; [apply (on_reader_acts wanted s1 i _ p1 (true, []) p1 Hp1); by rewrite Einit|].
      intros [answer changed] s2 [[= -> ->] H2]. rewrite (list_insert_id _ _ _ Hp1) in H2. cbn [add_old_samples].
      assert (winv s2) as Hi2 by by apply (winv_same _ s1).
      rewrite (bind_step _ _ s2 tt s2) by done. pose proof (acts_readers _ _ _ _ H2) as Er2. rewrite <-Er2 in Hp1.
      rewrite (bind_step _ _ _ _ _ (the_reader_at s2 i p1 Hp1)). apply (speak_after s1 s2 _ _ H2).
      destruct (true && _); [|apply ends_ret, acts_refl].
      apply ends_speak; [done| |intros; by apply speaks_note]. apply heartbeat_to_speaks; [done|by eapply lookup_lt_Some].
    + intros [] s2 H2. exists p1. rewrite Er1 in H2. split_and!; [by eapply acts_trans|done|].
      apply (winv_same _ s1); [done|by rewrite Er1].
Qed.

(** The numbers below the base of an acknowledgement. *)
Definition below (g : Guid.GUID_t) (set : SequenceNumberSet_t) (r : Guid.GUID_t) (n : Z) : Prop :=
  Guid.eqb r g = true ∧ n < SN.val (BitmapRange.base set).

Lemma acked_by_counts l set p a b p' : acked_by l set (with_counts p a b) p' → acked_by l set p p'.
Proof. by intros []. Qed.

Lemma good_counts s p a b : good_in s p → good_in s (with_counts p a b).
Proof. intros Hg. eapply (good_restates _ _ _ _ _ p); [done|]. by apply restates_state. Qed.

(** An acknowledgement with a new count, from the reader behind [i]. *)
Lemma fresh_acknack_spec ndebug s i p count set final :
  winv s → readers (wr s) !! i = Some p → valid_acknack s p set → next_expected_acknack_count_ p <= count →
  ends ((fresh ← on_reader i (λ _ p, mret (check_and_set_acknack_count p count));
         (if fresh : bool then acknack_of ndebug i set final else mret tt);; mret true) s)
    (λ b s', b = true ∧ winv s' ∧ ∃ s1 p', winv s1 ∧ acts s (<[i := p']> (readers (wr s))) s1 ∧ acked_by (stored s) set p p' ∧ settles s1 s').
Proof.
  intros Hi Hp Hv Hcount. set (p0 := with_counts p (u32 (count + 1)) (last_nackfrag_count_ p)).
  assert (check_and_set_acknack_count p count = (true, p0)) as Ec
    by (unfold check_and_set_acknack_count; by rewrite (proj2 (Z.leb_le _ _) Hcount)).
  eapply ends_bind; [apply (on_reader_acts wanted s i _ p true p0 Hp); by rewrite Ec|]. intros fresh s0 [-> H0].
  assert (winv s0) as Hi0.
  { eapply winv_update; [exact Hi|done| |apply good_counts; by eapply good_at|done]. done. }
  pose proof (acts_readers _ _ _ _ H0) as Er. pose proof (acts_stored _ _ _ _ H0) as (Est & El & _).
  assert (readers (wr s0) !! i = Some p0) as Hp0 by (rewrite Er; apply list_lookup_insert_eq; by eapply lookup_lt_Some).
  eapply ends_bind; [apply (acknack_of_spec ndebug s0 i p0); [done|done|]|].
  { destruct Hv as [? ? ? ?]. split; rewrite ?El, ?Est; done. }
  intros [] s2 (Hi2 & s1 & p' & Hi1 & H1 & Hab & Hsh). rewrite Est in Hab. apply ends_ret. split; [done|]. split; [done|]. exists s1, p'.
  split; [done|]. split; [|split; [by eapply acked_by_counts|done]]. rewrite Er, list_insert_insert_eq in H1. by eapply acts_trans.
Qed.

Lemma acked_steady g s i p set s1 p' s' :
  winv s1 → readers (wr s) !! i = Some p → Guid.eqb (guid p) g = true →
  acts s (<[i := p']> (readers (wr s))) s1 → acked_by (stored s) set p p' → settles s1 s' → steady (below g set) s s'.
Proof.
  intros Hi1 Hp Hg H1 Hab Hsh. apply (steady_trans _ _ s1); [done| |by apply shrinks_steady, settles_shrinks].
  eapply update_steady; [done|apply Hab| |done]. intros _ c Hc _ Hle.
  destruct (proj2 (ab_up _ _ _ _ Hab) c Hc Hle); [by left|by right].
Qed.

Lemma process_acknack_spec ndebug s wg rg count set final :
  winv s → (∀ p, p ∈ readers (wr s) → Guid.eqb (guid p) rg = true → valid_acknack s p set) →
  ends (process_acknack ndebug wg rg count set final s) (λ _ s', winv s' ∧ steady (below rg set) s s').
Proof.
  intros Hi Hv. unfold process_acknack. rewrite (bind_step get_state _ _ s s) by done.
  rewrite (bind_step writer _ _ (wr s) s) by done.
  assert (∀ a : bool, ends (mret (M:=stateful (Sys E)) a s) (λ _ s', winv s' ∧ steady (below rg set) s s')) as Hstay.
  { intros a. apply ends_ret. split; [done|]. apply speak_steady, acts_refl. }
  destruct (negb _); [apply Hstay|]. cbv zeta.
  apply (ends_bind _ _ _ (λ _ s', winv s' ∧ steady (below rg set) s s')); [|intros; by apply ends_ret].
  destruct (SN.leb _ _).
  2: { apply ends_ret. split; [done|]. apply speak_steady, acts_refl. }
  apply (ends_bind _ _ _ (λ _ s', winv s' ∧ steady (below rg set) s s')); [|intros; by apply ends_ret].
  apply (for_reader_ends s rg _ (λ s', winv s' ∧ steady (below rg set) s s')).
  - intros i p Hp Hg. specialize (Hv p (list_elem_of_lookup_2 _ _ _ Hp) Hg).
    destruct (Z.le_gt_cases (next_expected_acknack_count_ p) count) as [Hc|Hc].
    + eapply ends_impl; [by apply (fresh_acknack_spec ndebug s i p)|].
      intros b s' (-> & Hi' & s1 & p' & Hi1 & H1 & Hab & Hsh). split; [done|]. split; [done|]. by eapply acked_steady.
    + assert (check_and_set_acknack_count p count = (false, p)) as Ec
        by (unfold check_and_set_acknack_count; by rewrite (proj2 (Z.leb_gt _ _))).
      eapply ends_bind; [apply (on_reader_acts wanted s i _ p false p Hp); by rewrite Ec|]. intros fresh s0 [-> H0].
      rewrite (list_insert_id _ _ _ Hp) in H0. apply ends_ret. split; [done|].
      split; [by apply (winv_same _ s)|by apply speak_steady].
  - intros _. split; [done|]. apply speak_steady, acts_refl.
Qed.

(** ** Requests *)

Lemma restates_winv acked s rs s' :
  winv s → acts s rs s' → Forall2 restates (readers (wr s)) rs → winv s' ∧ steady acked s s'.
Proof.
  intros Hi Ha Hrs. split.
  - eapply winv_acts; [done|done|eapply Forall2_guids; [exact Hrs|]; intros p p' []; by apply same_guid|].
    apply Forall_forall. intros p' [i Hp']%list_elem_of_lookup.
    destruct (Forall2_lookup_r _ _ _ _ _ Hrs Hp') as (p & Hp & Hre). unfold WriterFacts.good_in.
    rewrite (same_guid _ _ (rs_same _ _ Hre)). eapply good_restates; [by eapply good_at|done].
  - eapply acts_steady; [done|]. eapply Forall2_impl; [exact Hrs|]. intros p p' [Hsame El _ _]. split; [done|].
    rewrite El. intros _ c _ _ ?. by left.
Qed.

Lemma update_winv acked s i p p' s' :
  winv s → readers (wr s) !! i = Some p → restates p p' → acts s (<[i := p']> (readers (wr s))) s' →
  winv s' ∧ steady acked s s'.
Proof.
  intros Hi Hp Hre Ha. split.
  - eapply winv_update; [done|done|apply same_guid, Hre| |done]. unfold WriterFacts.good_in.
    rewrite (same_guid _ _ (rs_same _ _ Hre)). eapply good_restates; [by eapply good_at|done].
  - eapply update_steady; [done|apply Hre| |done]. rewrite (rs_low _ _ Hre). intros _ c _ _ ?. by left.
Qed.

(** A change whose status is converted. *)
Definition converted (previous next : ChangeForReaderStatus_t) (c : ChangeForReader_t) : ChangeForReader_t :=
  if bool_decide (status_ c = previous) then setStatus c next else c.

Lemma convert_step ndebug p previous next :
  status_value next < status_value previous →
  convert_status_on_all_changes ndebug p previous next =
  Done ((λ c, setStatus c next) <$> filter (λ c, status_ c = previous) (changes p),
        with_changes p (converted previous next <$> changes p)).
Proof.
  intros Hlt. unfold convert_status_on_all_changes. rewrite (proj2 (Z.ltb_lt _ _)) by done. by destruct ndebug.
Qed.

Lemma converted_restates p previous next :
  next ≠ ACKNOWLEDGED → restates p (with_changes p (converted previous next <$> changes p)).
Proof.
  intros Hne. apply restates_with. intros c. unfold converted, restated. by case_bool_decide.
Qed.

Lemma old_samples_acts l s : ends (add_old_samples l s) (λ _ s', acts s (readers (wr s)) s').
Proof.
  revert s. induction l as [|c l IH]; intros s; cbn [add_old_samples]; [apply ends_ret, acts_refl|].
  rewrite (bind_step _ _ _ _ _ (ask_step _ s)). set (s1 := WriterHistory.with_writer s _).
  assert (acts s (readers (wr s)) s1) as H1 by (apply acts_writer; try done; apply old_sent).
  eapply speak_after; [exact H1|apply IH].
Qed.

Lemma nack_response_spec ndebug s :
  winv s → ends (perform_nack_response ndebug s) (λ _ s', winv s' ∧ steady nobody s s' ∧
    Forall2 (λ p p', restates p p' ∧ changes p' = converted REQUESTED UNSENT <$> changes p) (readers (wr s)) (readers (wr s'))).
Proof.
  intros Hi. unfold perform_nack_response.
  eapply ends_impl; [apply (for_each_update wanted (λ p p', restates p p' ∧ changes p' = converted REQUESTED UNSENT <$> changes p))|].
  - intros i s1 p Hp Hp1 H1. set (p' := with_changes p (converted REQUESTED UNSENT <$> changes p)).
    assert (restates p p') as Hre by by apply converted_restates.
    eapply ends_bind; [eapply (on_reader_acts wanted s1 i _ p _ p' Hp1); by apply convert_step|].
    intros changed s2 [_ H2]. eapply ends_impl; [apply (speak_after s1 s2 _ _ H2), old_samples_acts|].
    intros [] s3 H3. by exists p'.
  - intros [] s' (rs & Ha & Hrs). pose proof (acts_readers _ _ _ _ Ha) as Er. rewrite Er.
    destruct (restates_winv nobody s rs s') as [? ?]; [done|done| |done].
    eapply Forall2_impl; [exact Hrs|]. by intros p p' [? _].
Qed.

(** No two proxies answer to one GUID. *)
Lemma same_index s i j p q g :
  winv s → Guid.wf g → readers (wr s) !! i = Some p → readers (wr s) !! j = Some q →
  Guid.eqb (guid p) g = true → Guid.eqb (guid q) g = true → i = j.
Proof.
  intros Hi Hg Hp Hq Ep Eq. pose proof (t_guid _ _ _ _ (g_tracks _ _ _ _ _ _ (good_at _ _ _ _ Hi Hp))) as Hpw.
  pose proof (t_guid _ _ _ _ (g_tracks _ _ _ _ _ _ (good_at _ _ _ _ Hi Hq))) as Hqw.
  apply Guid.guid_eqb_eq in Ep; [|done|done]. apply Guid.guid_eqb_eq in Eq; [|done|done].
  apply (NoDup_lookup _ i j g (v_distinct _ _ Hi)); rewrite list_lookup_fmap; [rewrite Hp|rewrite Hq]; simpl; by f_equal.
Qed.

(** The proxy after its changes under way went unacknowledged. *)
Definition suppressed (p : ReaderProxy) : ReaderProxy := with_changes p (converted UNDERWAY UNACKNOWLEDGED <$> changes p).

Lemma nack_supression_spec ndebug s g :
  winv s → ends (perform_nack_supression ndebug g s) (λ _ s', winv s' ∧ steady nobody s s' ∧
    (Guid.wf g → ∀ i p, readers (wr s) !! i = Some p → Guid.eqb (guid p) g = true → readers (wr s') !! i = Some (suppressed p))).
Proof.
  intros Hi. unfold perform_nack_supression.
  set (Q s' := winv s' ∧ steady nobody s s' ∧
    (Guid.wf g → ∀ i p, readers (wr s) !! i = Some p → Guid.eqb (guid p) g = true → readers (wr s') !! i = Some (suppressed p))).
  apply (ends_bind _ _ _ (λ _ s', Q s')); [|intros; by apply ends_ret]. apply (for_reader_ends s g _ Q).
  2: { intros Hno. split; [done|]. split; [apply speak_steady, acts_refl|]. intros _ i p Hp Eg.
       rewrite (Hno p (list_elem_of_lookup_2 _ _ _ Hp)) in Eg. done. }
  intros i p Hp Eg. eapply ends_bind; [eapply (on_reader_acts wanted s i _ p _ (suppressed p) Hp)|].
  { unfold ReaderProxy.perform_nack_supression. by rewrite convert_step. }
  intros changed s1 [_ H1].
  destruct (update_winv nobody s i p (suppressed p) s1 Hi Hp (converted_restates p UNDERWAY UNACKNOWLEDGED ltac:(done)) H1) as [Hi1 Hs1].
  apply (ends_bind _ _ _ (λ _ s2, acts s1 (readers (wr s1)) s2)); [by apply speaks_note|].
  intros [] s2 H2. apply ends_ret. split; [done|]. split; [by apply (winv_same _ s1)|]. split.
  - apply (steady_trans _ _ s1); [done|done|by apply speak_steady].
  - intros Hg j q Hq Eq. assert (j = i) as -> by by apply (same_index s j i q p g). simplify_eq.
    rewrite (acts_readers _ _ _ _ H2), (acts_readers _ _ _ _ H1). apply list_lookup_insert_eq. by eapply lookup_lt_Some.
Qed.

Lemma unsent_restated c u : ¬ whole (change_ c) → restated c (markFragmentsAsUnsent c u).
Proof.
  intros Hno. unfold markFragmentsAsUnsent, restated. destruct (delivered_ c); [|done].
  destruct (BitmapRange.empty _); (split_and!; [done|done|done|]); intros _ Hw; by destruct Hno.
Qed.

Lemma nack_frag_spec s wg rg count seq u :
  winv s → SN.wf seq → (∀ c, c ∈ stored s → number c = SN.val seq → ¬ whole c) →
  ends (process_nack_frag wg rg count seq u s) (λ _ s', winv s' ∧ steady nobody s s').
Proof.
  intros Hi Hseq Hfrag. unfold process_nack_frag. rewrite (bind_step writer _ _ (wr s) s) by done.
  destruct (negb _); [apply ends_ret; split; [done|apply speak_steady, acts_refl]|].
  apply (ends_bind _ _ _ (λ _ s', winv s' ∧ steady nobody s s')); [|intros; by apply ends_ret].
  apply (for_reader_ends s rg _ (λ s', winv s' ∧ steady nobody s s')).
  2: { intros _. split; [done|]. apply speak_steady, acts_refl. }
  intros i p Hp _. pose proof (good_at _ _ _ _ Hi Hp) as Hg.
  assert (∃ r p', ReaderProxy.process_nack_frag p rg count seq u = Done (r, p') ∧ restates p p') as (r & p' & Ef & Hre).
  { unfold ReaderProxy.process_nack_frag. destruct (_ && _); [|by eexists _, _; split; [reflexivity|]].
    set (p0 := with_counts p _ _). assert (restates p p0) as H0 by by apply restates_state.
    assert (proxy_ok p0) as Hok0 by apply (t_ok _ _ _ _ (g_tracks _ _ _ _ _ _ (good_restates _ _ _ _ _ _ _ Hg H0))).
    unfold requested_fragment_set. rewrite lookup_change_spec by done. cbn [mbind outcome_bind].
    destruct (at_num _ _) as [[it c]|] eqn:Eat; [|by eexists _, _; split; [reflexivity|]].
    eexists _, _. split; [reflexivity|]. apply at_num_Some in Eat as [Hit Hn]; [|apply Hok0].
    apply (transitivity H0). eapply restates_set; [exact Hit|].
    pose proof (t_refers _ _ _ _ (g_tracks _ _ _ _ _ _ Hg)) as Href. rewrite Forall_forall in Href.
    specialize (Href c (list_elem_of_lookup_2 _ _ _ Hit)). pose proof (refers_num _ _ Href) as En. destruct Href as (Hin & _).
    pose proof (unsent_restated c u (Hfrag (change_ c) Hin ltac:(lia))) as Hr.
    case_bool_decide; [done|]. destruct Hr as (? & ? & ? & ?). done. }
  eapply ends_bind; [exact (on_reader_acts wanted s i _ p r p' Hp Ef)|]. intros requested s1 [-> H1].
  destruct (update_winv nobody s i p p' s1 Hi Hp Hre H1) as [Hi1 Hs1].
  apply (ends_bind _ _ _ (λ _ s2, acts s1 (readers (wr s1)) s2)); [destruct r; [by apply speaks_note|apply ends_ret, acts_refl]|].
  intros [] s2 H2. apply ends_ret. split; [done|]. split; [by apply (winv_same _ s1)|].
  apply (steady_trans _ _ s1); [done|done|by apply speak_steady].
Qed.

(** ** New changes *)

(** The change as a proxy gets it. *)
Definition pushed_as (w : StatefulWriter E) (p : ReaderProxy) (c : CacheChange_t) : ChangeForReader_t :=
  if m_pushMode (cfg w) || negb (is_reliable_ p) then ChangeForReader.create c
  else setStatus (ChangeForReader.create c) UNACKNOWLEDGED.

Lemma pushed_refers w p c : refers [c] (pushed_as w p c).
Proof.
  assert (no_fragments (ChangeForReader.create c)) as Hf.
  { intros [Es _]. unfold ChangeForReader.create. simpl in Es |- *. by rewrite Es. }
  unfold pushed_as. destruct (_ || _); (split; [by left|]); done.
Qed.

(** A proxy that got the new change [c] of [s]. *)
Definition gets s (c : CacheChange_t) (p p' : ReaderProxy) : Prop :=
  good (wanted (guid p)) (stored s ++ [c]) (last_num s + 1) (next_num s) (limit s) p' ∧ same_reader p p' ∧
  changes p' = (if rtps_is_relevant (wr s) p c then changes p ++ [pushed_as (wr s) p c] else changes p) ∧
  (is_reliable_ p = true → changes_low_mark_ p' = changes_low_mark_ p).

(** The state with the new change in the history only. *)
Record history_grown s c s1 : Prop := {
  hg_history : history_ok s1;
  hg_stored : stored s1 = stored s ++ [c];
  hg_last : last_num s1 = last_num s + 1 ∧ number c = last_num s + 1;
  hg_writer : wr s1 = wr s;
  hg_limit : limit s1 = limit s;
  hg_room : (0 < limit s → Z.of_nat (length (stored s)) < limit s) ∧ Z.of_nat (length (stored s)) + 1 < 2 ^ 31;
  hg_top : last_num s + 1 < 2 ^ 62
}.

Lemma gets_step ndebug s c s1 p :
  winv s → history_grown s c s1 → p ∈ readers (wr s) →
  ∃ p', ReaderProxy.add_change ndebug p (pushed_as (wr s) p c) (rtps_is_relevant (wr s) p c) false = Done ([], p') ∧ gets s c p p'.
Proof.
  intros Hi [Hh1 Es [El Hn] _ _ [Hroom Hsz] Htop] Hp. pose proof (v_history _ _ Hi) as Hh.
  pose proof (v_readers _ _ Hi) as Hr. rewrite Forall_forall in Hr. pose proof (ok_own _ Hh) as Hown.
  pose proof (v_next _ _ Hi) as [_ Hnext]. pose proof (ok_own _ Hh1) as Hown1. fold (stored s1) in Hown1. rewrite Es in Hown1.
  apply Forall_app in Hown1 as [_ Hc1]. rewrite Forall_singleton in Hc1. destruct Hc1 as (Hcw & _).
  destruct (good_pushed (wanted (guid p)) (stored s) (last_num s) (next_num s) (limit s) ndebug p c (pushed_as (wr s) p c)
    (rtps_is_relevant (wr s) p c)) as (p' & Ef & Hg & Hsame & Hadd & Hlow); try done.
  - by apply Hr.
  - eapply Forall_impl; [exact Hown|]. intros d (_ & _ & _ & ?). done.
  - apply StronglySorted_lt_NoDup, Hh.
  - lia.
  - lia.
  - apply pushed_refers.
  - intros Hw. exact (v_filter _ _ Hi _ _ Hw).
  - by exists p'.
Qed.

Lemma add_to_readers_spec ndebug s c s1 k s2 pre send :
  winv s → history_grown s c s1 → acts s1 (pre ++ drop k (readers (wr s))) s2 →
  Forall2 (gets s c) (take k (readers (wr s))) pre → (k <= length (readers (wr s)))%nat →
  ends (add_to_readers ndebug c (seq k (length (readers (wr s)) - k)) send s2) (λ _ s3, ∃ rs,
    acts s1 rs s3 ∧ Forall2 (gets s c) (readers (wr s)) rs).
Proof.
  intros Hi Hgrow. remember (length (readers (wr s)) - k)%nat as n eqn:En. revert k s2 pre send En.
  induction n as [|n IH]; intros k s2 pre send En Ha HR Hk; cbn [seq add_to_readers].
  { apply ends_ret. rewrite drop_ge, app_nil_r in Ha by lia. rewrite take_ge in HR by lia. by exists pre. }
  destruct (reader_in s k) as [p Hp]; [lia|]. pose proof (acts_readers _ _ _ _ Ha) as Er.
  assert (length pre = k) as Hlen by (rewrite <-(Forall2_length _ _ _ HR), length_take; lia).
  rewrite (drop_S _ p) in Ha, Er by done.
  assert (readers (wr s2) !! k = Some p) as Hp2 by (by rewrite Er, <-Hlen, list_lookup_middle).
  assert (cfg (wr s2) = cfg (wr s)) as Ec by (rewrite (a_cfg _ _ _ _ Ha); by rewrite (hg_writer _ _ _ Hgrow)).
  rewrite (bind_step writer _ _ (wr s2) s2) by done. rewrite (bind_step _ _ _ _ _ (the_reader_at s2 k p Hp2)). cbv zeta.
  destruct (gets_step ndebug s c s1 p Hi Hgrow (list_elem_of_lookup_2 _ _ _ Hp)) as (p' & Ef & Hgets).
  assert (rtps_is_relevant (wr s2) p c = rtps_is_relevant (wr s) p c) as -> by (unfold rtps_is_relevant; by rewrite Ec).
  rewrite Ec. eapply ends_bind; [exact (on_reader_effects_acts wanted s2 k _ p [] p' Hp2 Ef)|].
  intros [] s3 H3. apply (IH (S k) s3 (pre ++ [p'])); [lia| | |lia].
  - eapply acts_trans; [exact Ha|]. rewrite Er, <-Hlen in H3. rewrite insert_app_r_alt, Nat.sub_diag in H3 by lia.
    rewrite <-app_assoc, <-Hlen at 1. exact H3.
  - rewrite (take_S_r _ _ p) by done. apply Forall2_app; [done|]. by constructor.
Qed.

Lemma winv_grown s c s1 rs s2 :
  winv s → history_grown s c s1 → acts s1 rs s2 → Forall2 (gets s c) (readers (wr s)) rs →
  winv s2 ∧ steady nobody s s2 ∧ stored s2 = stored s ++ [c] ∧ last_num s2 = last_num s + 1.
Proof.
  intros Hi [Hh1 Es [El Hn] Ew Em _ Htop] Ha HR. pose proof (acts_stored _ _ _ _ Ha) as (Es2 & El2 & En2 & Em2).
  pose proof (acts_readers _ _ _ _ Ha) as Er. pose proof Hi as [Hh Ht Hf Hr Hd Hnx Hs].
  assert (∀ p p', gets s c p p' → guid p' = guid p) as Hguid by (intros p p' (_ & Hsame & _); by apply same_guid).
  assert (next_num s1 = next_num s) as En1 by (unfold next_num; by rewrite Ew).
  assert (winv s2) as Hi2.
  { split.
    - destruct Ha as [Eh Elast Ec _ _ _ _]. destruct s1 as [h last high w], s2 as [h2 last2 high2 w2]. unfold wr in *.
      simpl in *. subst h2 last2. pose proof (writer_ok (WriterHistory.mkWriterHistory h last high w) w2) as Hw.
      simpl in Hw. rewrite Ec in Hw. destruct (Hw eq_refl Hh1). by constructor.
    - lia.
    - by rewrite (a_cfg _ _ _ _ Ha), Ew.
    - rewrite Er. apply Forall_forall. intros p' [i Hp']%list_elem_of_lookup.
      destruct (Forall2_lookup_r _ _ _ _ _ HR Hp') as (p & Hp & Hg). unfold WriterFacts.good_in.
      rewrite (Hguid p p' Hg), Es2, Es, El2, El, En2, En1, Em2, Em. apply Hg.
    - by rewrite Er, (Forall2_guids _ _ _ HR Hguid).
    - rewrite (a_next _ _ _ _ Ha), Ew, En2, En1, El2, El. destruct Hnx. split; [done|lia].
    - destruct (a_sent _ _ _ _ Ha) as (ms & -> & Hms). rewrite Es2, El2. apply Forall_app. split; [|done].
      unfold messages at 1. rewrite Ew. fold (messages s). rewrite Es, El. eapply Forall_impl; [exact Hs|].
      intros x Hx. by apply message_more. }
  split; [done|]. split; [|by rewrite Es2, El2]. split; rewrite ?Er, ?Es2, ?El2, ?Es, ?El.
  - intros p' d [i Hp']%list_elem_of_lookup Hrel _ _ Hle. left.
    destruct (Forall2_lookup_r _ _ _ _ _ HR Hp') as (p & Hp & _ & Hsame & _ & Hlow). exists p.
    split; [by eapply list_elem_of_lookup_2|]. split; [done|]. destruct Hsame as (_ & _ & Erel & _). rewrite <-Hlow by congruence. done.
  - intros d [Hd'| ->%list_elem_of_singleton]%elem_of_app; [by left|right; lia].
  - lia.
  - by rewrite (a_cfg _ _ _ _ Ha), Ew.
  - replace (messages s) with (messages s1) by (unfold messages; by rewrite Ew). by eapply acts_sent.
  - assert (length rs = length (readers (wr s))) as Hlen by by rewrite (Forall2_length _ _ _ HR).
    apply same_pool; [by rewrite Em2, Em|by rewrite (a_pool _ _ _ _ Ha), Ew|rewrite Er, <-Ew; apply Ha|by rewrite Er].
Qed.

(** [unsent_change_added_to_history]: the change has reached the proxies, and then
    some changes may have been removed by the listener. *)
Lemma unsent_change_spec ndebug s c s1 :
  winv s → history_grown s c s1 →
  ends (unsent_change_added_to_history ndebug c s1) (λ _ s', winv s' ∧ ∃ s2, winv s2 ∧ steady nobody s s2 ∧
    stored s2 = stored s ++ [c] ∧ last_num s2 = last_num s + 1 ∧ Forall2 (gets s c) (readers (wr s)) (readers (wr s2)) ∧ settles s2 s' ∧
    (readers (wr s) ≠ [] → stored s' = stored s2)).
Proof.
  intros Hi Hgrow. unfold unsent_change_added_to_history. rewrite (bind_step writer _ _ (wr s1) s1) by done.
  apply (ends_bind _ _ _ (λ _ s2, acts s1 (readers (wr s)) s2)).
  { destruct (liveliness_finite _).
    - eexists _, _. split; [reflexivity|]. rewrite <-(hg_writer _ _ _ Hgrow). by apply acts_writer.
    - apply ends_ret. rewrite <-(hg_writer _ _ _ Hgrow). apply acts_refl. }
  intros [] s2 H2. rewrite (hg_writer _ _ _ Hgrow). unfold RLV.empty. fold (readers (wr s)).
  assert (∀ rs s3, acts s1 rs s3 → Forall2 (gets s c) (readers (wr s)) rs → winv s3 ∧ ∃ s4, winv s4 ∧ steady nobody s s4 ∧
    stored s4 = stored s ++ [c] ∧ last_num s4 = last_num s + 1 ∧ Forall2 (gets s c) (readers (wr s)) (readers (wr s4)) ∧ settles s4 s3 ∧
    (readers (wr s) ≠ [] → stored s3 = stored s4)) as Hdone.
  { intros rs s3 H3 HR. destruct (winv_grown s c s1 rs s3 Hi Hgrow H3 HR) as (Hi3 & Hst & ? & ?). split; [done|].
    exists s3. split_and!; [done|done|done|done| |reflexivity|done]. by rewrite (acts_readers _ _ _ _ H3). }
  destruct (readers (wr s)) as [|p0 l0] eqn:Er0.
  - destruct (winv_grown s c s1 [] s2 Hi Hgrow H2) as (Hi2 & Hst & Es2 & El2); [rewrite Er0; constructor|].
    eapply ends_impl; [by apply check_acked_spec|]. intros [] s3 [Hi3 Hsh]. split; [done|]. exists s2.
    split_and!; [done|done|done|done| |done|done]. rewrite (acts_readers _ _ _ _ H2). constructor.
  - rewrite <-Er0 in *. rewrite <-(Nat.sub_0_r (length (readers (wr s)))).
    eapply ends_bind; [apply (add_to_readers_spec ndebug s c s1 0 s2 []); [done|done|by rewrite drop_0|constructor|lia]|].
    intros send s3 (rs & H3 & HR). destruct (Hdone rs s3 H3 HR) as (Hi3 & _).
    apply (ends_impl _ (λ _ s4, acts s3 (readers (wr s3)) s4)).
    + destruct send; [apply speaks_ask; [|done]; intros e; apply new_sent|by apply speaks_note].
    + intros [] s4 H4. apply (Hdone rs); [|done]. rewrite (acts_readers _ _ _ _ H3) in H4. by eapply acts_trans.
Qed.

(** ** Delivery *)

(** The change waits for being sent to the reader. *)
Definition is_unsent (c : CacheChange_t) (p : ReaderProxy) : bool :=
  match at_num (number c) (changes p) with Some (_, d) => bool_decide (status_ d = UNSENT) | None => false end.

Lemma same_change s c d : winv s → c ∈ stored s → d ∈ stored s → number c = number d → c = d.
Proof.
  intros Hi [i Hc]%list_elem_of_lookup [j Hd]%list_elem_of_lookup En.
  pose proof (StronglySorted_lt_NoDup _ (ok_sorted _ (v_history _ _ Hi))) as Hnd.
  assert (i = j) as ->; [|congruence].
  apply (NoDup_lookup _ i j (number c) Hnd); rewrite list_lookup_fmap; fold (stored s); [by rewrite Hc|rewrite Hd; simpl; by rewrite En].
Qed.

(** What a proxy has under the number of a whole change. *)
Lemma at_change s p c it d :
  winv s → good_in s p → c ∈ stored s → whole c → at_num (number c) (changes p) = Some (it, d) →
  changes p !! it = Some d ∧ num d = number c ∧ change_ d = c ∧ get_next_unsent_fragment d = 1.
Proof.
  intros Hi Hg Hc Hw Hat. pose proof (t_ok _ _ _ _ (g_tracks _ _ _ _ _ _ Hg)) as Hok.
  apply at_num_Some in Hat as [Hit Hn]; [|apply Hok]. pose proof (t_refers _ _ _ _ (g_tracks _ _ _ _ _ _ Hg)) as Hr.
  rewrite Forall_forall in Hr. specialize (Hr d (list_elem_of_lookup_2 _ _ _ Hit)). pose proof (refers_num _ _ Hr) as En.
  destruct Hr as (Hin & _ & _ & Hf). assert (change_ d = c) as Ec by (apply (same_change s); [done|done|done|lia]).
  split_and!; [done|done|done|]. unfold get_next_unsent_fragment. rewrite Hf by by rewrite Ec.
  unfold end_fragment. destruct Hw as [_ Hw]. by rewrite Ec, Hw.
Qed.

Lemma number_range s c : winv s → c ∈ stored s → SN.wf (sequenceNumber c) ∧ 0 < number c <= last_num s.
Proof.
  intros Hi Hc. pose proof (ok_own _ (v_history _ _ Hi)) as Hown. rewrite Forall_forall in Hown.
  by destruct (Hown c Hc) as (? & _ & ?).
Qed.

Lemma data_ok s d c q : winv s → c ∈ stored s → message_ok wanted (stored s) (last_num s) (d, DATA c q).
Proof.
  intros Hi Hc. destruct (number_range s c Hi Hc) as [Hw Hr]. split; [done|]. split; [done|].
  intros c' Hc' En. by apply (same_change s).
Qed.

(** A gap from [gap] up to the change, none of which [d] wants. *)
Lemma gap_ok s d c gap r :
  winv s → c ∈ stored s → SN.wf gap → 0 < SN.val gap < number c →
  (∀ n, SN.val gap <= n < number c → ∀ g x, g ∈ d → x ∈ stored s → number x = n → ¬ wanted g x) →
  message_ok wanted (stored s) (last_num s) (d, gap_to gap c r).
Proof.
  intros Hi Hc Hgw Hgv Hno. destruct (number_range s c Hi Hc) as [Hw Hr]. pose proof (v_top _ _ Hi) as Htop.
  destruct (BitmapFacts.make_spec (sequenceNumber c)) as ([Hinv _] & _ & _ & Hnone).
  { split; simpl; [done|unfold BitmapRange.NBITS; fold (number c); lia]. }
  split; simpl; [done|fold (number c); lia|done|]. intros x [Hx|[]%Hnone]. simpl in Hx. fold (number c) in Hx.
  split; [lia|]. intros g y Hg Hy En. apply (Hno x); [lia|done|done|done].
Qed.

Lemma sorted_before (l : list CacheChange_t) i j c d :
  StronglySorted Z.lt (number <$> l) → l !! i = Some c → l !! j = Some d → (i < j)%nat → number c < number d.
Proof.
  intros Hs Hc Hd Hij. apply (StronglySorted_app_1_elem_of Z.lt (take j (number <$> l)) (drop j (number <$> l))).
  - by rewrite take_drop.
  - apply (list_elem_of_lookup_2 _ i). rewrite lookup_take_lt by done. by rewrite list_lookup_fmap, Hc.
  - apply (list_elem_of_lookup_2 _ 0%nat). rewrite lookup_drop, Nat.add_0_r, list_lookup_fmap. by rewrite Hd.
Qed.

(** Where the change is in the history. *)
Lemma find_stored s c :
  winv s → c ∈ stored s → stored s !! History.find_if (λ x, WriterHistory.writer_matches s x c) (stored s) = Some c.
Proof.
  intros Hi Hc. pose proof (v_history _ _ Hi) as Hh. pose proof (ok_own _ Hh) as Hown. rewrite Forall_forall in Hown.
  destruct (Hown c Hc) as (Hcw & Hcg & _). set (matches := λ x, WriterHistory.writer_matches s x c).
  assert (∀ x, x ∈ stored s → matches x = true ↔ number x = number c) as Hm.
  { intros x Hx. destruct (Hown x Hx) as (Hxw & _). unfold matches, WriterHistory.writer_matches.
    rewrite Hcg, (proj2 (Guid.guid_eqb_eq _ _ (ok_guid _ Hh) (ok_guid _ Hh)) eq_refl). simpl.
    unfold number. by rewrite SN.eqb_val, Z.eqb_eq. }
  destruct (stored s !! _) as [c'|] eqn:Eit.
  - pose proof (list_elem_of_lookup_2 _ _ _ Eit) as Hin. f_equal. apply (same_change s); [done|done|done|].
    apply Hm; [done|]. by apply find_if_lt in Eit.
  - apply find_if_none in Eit. rewrite Forall_forall in Eit. specialize (Eit c Hc).
    rewrite (proj2 (Hm c Hc) eq_refl) in Eit. done.
Qed.

Lemma hole_for_all_spec s c gap :
  winv s → c ∈ stored s → SN.wf gap →
  ∃ b, hole_for_all s c gap = Done b ∧ (b = true → ∀ x, x ∈ stored s → ¬ (SN.val gap <= number x < number c)).
Proof.
  intros Hi Hc Hgap. pose proof (find_stored s c Hi Hc) as Eit. pose proof (ok_sorted _ (v_history _ _ Hi)) as Hs.
  unfold hole_for_all. fold (stored s) in *. set (it := History.find_if _ _) in *.
  assert (∀ i x, stored s !! i = Some x → (it <= i)%nat → number c <= number x) as Hafter.
  { intros i x Hx Hle. destruct (decide (i = it)) as [->|Hne]; [rewrite Eit in Hx; injection Hx as ->; lia|].
    pose proof (sorted_before _ it i c x Hs Eit Hx). lia. }
  destruct it as [|prev].
  - exists true. split; [done|]. intros _ x [i Hx]%list_elem_of_lookup Hr. specialize (Hafter i x Hx). lia.
  - destruct (lookup_lt_is_Some_2 (stored s) prev) as [c0 Hc0]; [apply lookup_lt_Some in Eit; lia|]. rewrite Hc0.
    exists (SN.eqb (SN.add_u32 (sequenceNumber c0) 1) gap). split; [done|]. intros Eq x [i Hx]%list_elem_of_lookup Hr.
    apply SN.eqb_eq in Eq. destruct (number_range s c0 Hi (list_elem_of_lookup_2 _ _ _ Hc0)) as [Hw0 Hr0]. pose proof (v_top _ _ Hi) as Htop.
    destruct (SN.add_u32_val (sequenceNumber c0) 1) as [Ev _]; [done|range_unfold; lia|fold (number c0); lia|].
    rewrite Eq in Ev. fold (number c0) in Ev. destruct (decide (S prev <= i)%nat) as [Hle|Hgt]; [specialize (Hafter i x Hx Hle); lia|].
    destruct (decide (i = prev)) as [->|Hne]; [rewrite Hc0 in Hx; injection Hx as ->; lia|].
    pose proof (sorted_before _ i prev x c0 Hs Hx Hc0). lia.
Qed.

(** Numbers before the change that the history does not have. *)
Definition hole s (c : CacheChange_t) (gap : SN.SequenceNumber_t) : Prop :=
  SN.wf gap ∧ 0 < SN.val gap < number c ∧ ∀ x, x ∈ stored s → ¬ (SN.val gap <= number x < number c).

(** Numbers before the change that one reader does not get. *)
Definition own_hole (p : ReaderProxy) (c : CacheChange_t) (gap : SN.SequenceNumber_t) : Prop :=
  SN.wf gap ∧ 0 < SN.val gap < number c ∧
  ∀ n, SN.val gap <= n < number c → SN.val (changes_low_mark_ p) < n ∧ at_num n (changes p) = None.

Lemma own_gap_ok s p c gap :
  winv s → good_in s p → c ∈ stored s → own_hole p c gap →
  message_ok wanted (stored s) (last_num s) ([guid p], gap_to gap c (Some (guid p))).
Proof.
  intros Hi Hg Hc (Hw & Hv & Hno). apply gap_ok; [done|done|done|done|]. intros n Hn g x ->%list_elem_of_singleton Hx Ex Hwant.
  destruct (Hno n Hn) as [Hlow Hat]. rewrite at_num_None in Hat.
  destruct (list_elem_of_fmap num (changes p) (number x)) as [Hex _].
  destruct Hex as (d & Ed & Hd); [apply (g_covers _ _ _ _ _ _ Hg); [done|done|lia]|]. apply (Hat d Hd). lia.
Qed.

Lemma neq_unknown x : SN.neqb SN.unknown x = negb (SN.eqb SN.unknown x).
Proof. apply SN.neqb_negb. Qed.

Lemma activate_spec ndebug c s i p u r :
  winv s → c ∈ stored s → readers (wr s) !! i = Some p → gap_seq u = SN.unknown ∨ own_hole p c (gap_seq u) →
  gap_seq_for_all r = SN.unknown ∨ hole s c (gap_seq_for_all r) → let reset := next_unsent_frag u <? min_unsent_fragment r in
  ends (activate ndebug c i p u r s) (λ o s', acts s (<[i := with_active p true]> (readers (wr s))) s' ∧
    match o with
    | Some r' => min_unsent_fragment r' = (if reset then next_unsent_frag u else min_unsent_fragment r) ∧
        first_relevant_reader r' = (if reset then i else first_relevant_reader r) ∧ should_be_sent r' = true ∧
        enabled_readers r' = (if reset then [] else enabled_readers r) ++ [guid p] ∧
        (gap_seq_for_all r' = SN.unknown ∨ hole s c (gap_seq_for_all r'))
    | None => ¬ willing (E := E)
    end).
Proof.
  intros Hi Hc Hp Hgap Hall. unfold activate. cbv zeta. set (reset := _ <? _).
  set (p' := with_active p true). eapply ends_bind; [by apply (on_reader_acts wanted s i _ p tt p' Hp)|]. intros [] s1 [_ H1].
  set (r1 := mkRound _ _ _ _ _ _ _). destruct (SN.neqb SN.unknown (gap_seq u)) eqn:Eknown.
  2: { apply ends_ret. split; [done|]. split_and!; [done|done|done|done|done]. }
  assert (own_hole p c (gap_seq u)) as Hown.
  { destruct Hgap as [Hun|]; [|done]. rewrite Hun, neq_unknown in Eknown. done. }
  assert (restates p p') as Hre by by apply restates_state.
  destruct (update_winv nobody s i p p' s1 Hi Hp Hre H1) as [Hi1 _].
  pose proof (acts_stored _ _ _ _ H1) as (Es & El & _).
  rewrite (bind_step get_state _ _ s1 s1) by done.
  apply (ends_bind _ _ _ (λ for_all s2, s2 = s1 ∧ (for_all = SN.unknown ∨ hole s c for_all))).
  { destruct (SN.eqb SN.unknown (gap_seq_for_all r1)); [|by apply ends_ret].
    destruct (hole_for_all_spec s1 c (gap_seq u)) as (b & Eb & Hb); [done|by rewrite Es|apply Hown|].
    rewrite (bind_step _ _ _ b s1) by (unfold lift_outcome; by rewrite Eb). apply ends_ret. split; [done|].
    destruct b; [|done]. right. destruct Hown as (? & ? & _). split; [done|]. split; [done|]. rewrite Es in Hb. by apply Hb. }
  intros for_all s2 [-> Hfor].
  unfold then_ at 1. apply (ends_bind _ _ _ (said wanted s1)).
  - destruct (SN.neqb for_all _); [|apply ends_ret, said_ret].
    apply ends_then; [done| |intros; by apply heartbeat_talks]. apply send_said. rewrite Es, El.
    by apply own_gap_ok; [done|by eapply good_at|..].
  - intros o s2 [H2 Hw]. rewrite (acts_readers _ _ _ _ H1) in H2. pose proof (acts_trans _ _ _ _ _ _ H1 H2) as H12.
    destruct o; apply ends_ret; (split; [done|]); [by split_and!|]. intros Hwill. by destruct (Hw Hwill).
Qed.

(** The next fragment of the change for the reader, if the change waits for being sent. *)
Definition next_fragment (c : CacheChange_t) (p : ReaderProxy) : Z :=
  match at_num (number c) (changes p) with Some (_, d) => get_next_unsent_fragment d | None => 0 end.

(** The answer of [change_is_unsent]. *)
Lemma unsent_answer s p c :
  winv s → good_in s p → c ∈ stored s →
  ∃ o, change_is_unsent p (sequenceNumber c) (WriterHistory.get_seq_num_min s) = Done o ∧
    match o with
    | None => is_unsent c p = false
    | Some u => is_unsent c p = true ∧ next_unsent_frag u = next_fragment c p ∧ (gap_seq u = SN.unknown ∨ own_hole p c (gap_seq u))
    end.
Proof.
  intros Hi Hg Hc. destruct (number_range s c Hi Hc) as [Hcw Hcr]. pose proof (t_ok _ _ _ _ (g_tracks _ _ _ _ _ _ Hg)) as Hok.
  rewrite unsent_step by done. eexists. split; [reflexivity|]. fold (number c). unfold is_unsent, next_fragment.
  destruct (at_num (number c) (changes p)) as [[it d]|] eqn:Eat; [|done]. case_bool_decide as Hst; [|done].
  apply at_num_Some in Eat as [Hit Hn]; [|apply Hok]. cbv zeta. split; [done|]. split; [done|]. simpl.
  destruct (_ && _); [|by left].
  destruct (marks s (v_history _ _ Hi)) as [(Enil & _)|(_ & (Hmw & _) & _)]; [rewrite Enil in Hc; by apply elem_of_nil in Hc|].
  destruct (gap_before_sound p it d (sequenceNumber c) (WriterHistory.get_seq_num_min s)) as [|(Hgw & Hgv & Hall)];
    [done|done|done|done|done|by left|]. right. fold (number c) in Hgv, Hall. pose proof (p_low _ Hok) as [_ Hlow].
  split; [done|]. split; [lia|]. intros n Hrange. by destruct (Hall n Hrange) as (? & _ & ?).
Qed.

Lemma next_whole s p c : winv s → good_in s p → c ∈ stored s → whole c → is_unsent c p = true → next_fragment c p = 1.
Proof.
  intros Hi Hg Hc Hw. unfold is_unsent, next_fragment. destruct (at_num _ _) as [[it d]|] eqn:Eat; [|done]. intros _.
  by destruct (at_change s p c it d Hi Hg Hc Hw Eat) as (_ & _ & _ & ?).
Qed.

(** A proxy after the first loop: marked by whether the change goes to its reader. *)
Definition marked (c : CacheChange_t) (p : ReaderProxy) : ReaderProxy := with_active p (is_unsent c p).

Lemma marked_restates c p : restates p (marked c p).
Proof. by apply restates_state. Qed.

(** What the first loop has gathered from the first [k] readers. *)
Record round_ok s (c : CacheChange_t) (k : nat) (r : Round) : Prop := {
  ro_min : min_unsent_fragment r = 1;
  ro_first : first_relevant_reader r = 0%nat;
  ro_enabled : enabled_readers r = guid <$> filter (λ p, is_unsent c p = true) (take k (readers (wr s)));
  ro_send : should_be_sent r = existsb (is_unsent c) (take k (readers (wr s)));
  ro_gap : gap_seq_for_all r = SN.unknown ∨ hole s c (gap_seq_for_all r)
}.

(** A step of a loop over the readers: the proxy at [k] is replaced. *)
Lemma loop_step s s1 s2 (pre : list ReaderProxy) k p p' :
  acts s (pre ++ drop k (readers (wr s))) s1 → length pre = k → readers (wr s) !! k = Some p →
  readers (wr s1) !! k = Some p ∧
  (acts s1 (<[k := p']> (readers (wr s1))) s2 → acts s ((pre ++ [p']) ++ drop (S k) (readers (wr s))) s2).
Proof.
  intros Ha Hlen Hp. pose proof (acts_readers _ _ _ _ Ha) as Er. rewrite (drop_S _ p) in Er by done. split.
  - by rewrite Er, <-Hlen, list_lookup_middle.
  - intros H2. rewrite Er, <-Hlen in H2. rewrite insert_app_r_alt, Nat.sub_diag in H2 by lia.
    eapply acts_trans; [exact Ha|]. rewrite <-app_assoc, <-Hlen at 1. exact H2.
Qed.

Lemma marked_prefix s s1 c k :
  winv s → acts s ((marked c <$> take k (readers (wr s))) ++ drop k (readers (wr s))) s1 → winv s1.
Proof.
  intros Hi Ha. apply (restates_winv nobody s _ s1 Hi Ha). rewrite <-(take_drop k (readers (wr s))) at 1.
  apply Forall2_app; [apply Forall2_fmap_r|]; apply Forall2_same_length_lookup_2; try done; intros i x y Hx Hy; simplify_eq;
    [apply marked_restates|reflexivity].
Qed.

Lemma scan_readers_spec ndebug c s k s1 r :
  winv s → c ∈ stored s → whole c → acts s ((marked c <$> take k (readers (wr s))) ++ drop k (readers (wr s))) s1 →
  round_ok s c k r → (k <= length (readers (wr s)))%nat →
  ends (scan_readers ndebug c 0 (seq k (length (readers (wr s)) - k)) r s1) (λ o s2,
    match o with
    | Some r' => acts s (marked c <$> readers (wr s)) s2 ∧ round_ok s c (length (readers (wr s))) r'
    | None => ¬ willing (E := E) ∧ ∃ j, acts s ((marked c <$> take j (readers (wr s))) ++ drop j (readers (wr s))) s2
    end).
Proof.
  intros Hi Hc Hw. remember (length (readers (wr s)) - k)%nat as n eqn:En. revert k s1 r En.
  induction n as [|n IH]; intros k s1 r En Ha Hr Hk; cbn [seq scan_readers].
  { apply ends_ret. assert (k = length (readers (wr s))) as -> by lia.
    by rewrite drop_all, app_nil_r, take_ge in Ha by lia. }
  destruct (reader_in s k) as [p Hp]; [lia|]. pose proof (marked_prefix s s1 c k Hi Ha) as Hi1.
  destruct (loop_step s s1 s1 _ k p (marked c p) Ha) as [Hp1 _]; [rewrite length_fmap, length_take; lia|done|].
  pose proof (acts_stored _ _ _ _ Ha) as (Es & _). pose proof (good_at _ _ _ _ Hi1 Hp1) as Hg.
  rewrite (bind_step get_state _ _ s1 s1) by done. rewrite (bind_step _ _ _ _ _ (the_reader_at s1 k p Hp1)).
  destruct (unsent_answer s1 p c Hi1 Hg) as (o & Eo & Ho); [by rewrite Es|].
  rewrite (bind_step _ _ _ o s1) by (unfold lift_outcome; by rewrite Eo).
  assert (take (S k) (readers (wr s)) = take k (readers (wr s)) ++ [p]) as Etake by by apply take_S_r.
  apply (ends_bind _ _ _ (λ o s2, acts s1 (<[k := marked c p]> (readers (wr s1))) s2 ∧
    match o with Some r' => round_ok s c (S k) r' | None => ¬ willing (E := E) end)).
  - destruct Hr as [Rmin Rfirst Ren Rsend Rgap]. destruct o as [u|].
    + destruct Ho as (Eu & Hnext & Hgap). cbv zeta. cbn [Z.eqb orb].
      rewrite (next_whole s1 p c Hi1 Hg) in Hnext by (done || by rewrite Es).
      eapply ends_impl; [apply (activate_spec ndebug c s1 k p u); [done|by rewrite Es|done|done|]|].
      { destruct Rgap as [|(? & ? & Hno)]; [by left|right]. split; [done|]. split; [done|]. by rewrite Es. }
      intros o s2 (H2 & Ho). split; [by unfold marked; rewrite Eu|]. destruct o as [r'|]; [|done].
      destruct Ho as (Hmin & Hfirst & Hsend & Hen & Hg'). simpl in *. rewrite Hnext, Rmin in *. cbn [Z.ltb Z.compare Pos.compare Pos.compare_cont] in *. split.
      * done.
      * congruence.
      * rewrite Hen, Ren, Etake, filter_app, fmap_app, filter_cons_True by done. done.
      * rewrite Hsend, Etake, existsb_app. simpl. rewrite Eu. by rewrite orb_true_r.
      * destruct Hg' as [|(? & ? & Hno)]; [by left|right]. split; [done|]. split; [done|]. by rewrite Es in Hno.
    + eapply ends_bind; [by apply (on_reader_acts wanted s1 k _ p tt (marked c p) Hp1); unfold marked; rewrite Ho|].
      intros [] s2 [_ H2]. apply ends_ret. split; [done|]. split; try done.
      * rewrite Ren, Etake, filter_app, fmap_app, filter_cons_False by congruence. by rewrite app_nil_r.
      * rewrite Rsend, Etake, existsb_app. simpl. by rewrite Ho, !orb_false_r.
  - intros o' s2 [H2 Hr'].
    assert (acts s ((marked c <$> take (S k) (readers (wr s))) ++ drop (S k) (readers (wr s))) s2) as Ha2.
    { rewrite Etake, fmap_app. by apply (loop_step s s1 s2 _ k p (marked c p) Ha); [rewrite length_fmap, length_take; lia|..]. }
    destruct o' as [r'|]; [by apply (IH (S k) s2 r'); [lia|..|lia]|]. apply ends_ret. split; [done|]. by exists (S k).
Qed.

(** *** Sent changes *)

(** The change has gone to the reader and waits for its acknowledgement. *)
Definition underway (c : CacheChange_t) (d : ChangeForReader_t) : ChangeForReader_t :=
  if bool_decide (num d = number c) then set_delivered (setStatus d UNDERWAY) else d.

Definition was_sent s (c : CacheChange_t) (p p' : ReaderProxy) : Prop :=
  good_in s p' ∧ same_reader p p' ∧
  if is_reliable_ p then changes_low_mark_ p' = changes_low_mark_ p ∧ changes p' = underway c <$> changes p
  else SN.val (changes_low_mark_ p') = Z.max (SN.val (changes_low_mark_ p)) (number c) ∧
       changes p' = filter (λ d, number c < num d) (changes p).

Lemma underway_insert c l it d :
  StronglySorted Z.lt (num <$> l) → l !! it = Some d → num d = number c →
  <[it := set_delivered (setStatus d UNDERWAY)]> l = underway c <$> l.
Proof.
  intros Hs Hit Hn. apply list_eq. intros j. rewrite list_lookup_fmap. destruct (decide (it = j)) as [<-|Hne].
  - rewrite list_lookup_insert_eq by by eapply lookup_lt_Some. rewrite Hit. simpl. unfold underway. by rewrite bool_decide_true.
  - rewrite list_lookup_insert_ne by done. destruct (l !! j) as [e|] eqn:Ej; [|done]. simpl. f_equal. unfold underway.
    rewrite bool_decide_false; [done|]. intros En. apply Hne. pose proof (StronglySorted_lt_NoDup _ Hs) as Hnd.
    apply (NoDup_lookup _ it j (number c) Hnd); rewrite list_lookup_fmap; [rewrite Hit|rewrite Ej]; simpl; congruence.
Qed.

Lemma from_unsent_step ndebug s p c :
  winv s → good_in s p → c ∈ stored s → whole c → is_unsent c p = true → is_reliable_ p = true →
  ∃ e p', from_unsent_to_status ndebug s p (sequenceNumber c) UNDERWAY true true = Done (e, p') ∧ restates p p' ∧
    changes p' = underway c <$> changes p.
Proof.
  intros Hi Hg Hc Hw Hun Hrel. destruct (number_range s c Hi Hc) as [Hcw Hcr]. pose proof (g_tracks _ _ _ _ _ _ Hg) as Ht.
  pose proof (t_ok _ _ _ _ Ht) as Hok. unfold is_unsent in Hun. destruct (at_num (number c) (changes p)) as [[it d]|] eqn:Eat; [|done].
  apply bool_decide_eq_true in Hun. destruct (at_change s p c it d Hi Hg Hc Hw Eat) as (Hit & Hn & _ & _).
  unfold from_unsent_to_status. rewrite Hrel, (assert_true ndebug true) by done. cbn [mbind outcome_bind andb].
  assert (is_remote_and_reliable p = true) as Hrem.
  { unfold is_remote_and_reliable. destruct (t_remote _ _ _ _ Ht) as [-> ->]. by rewrite Hrel. }
  rewrite Hrem, (t_timers _ _ _ _ Ht), Hrel, (assert_true ndebug true) by done. cbn [mbind outcome_bind].
  unfold restart_nack_supression. destruct (TimedEvent.TimedEventImpl.go_ready _) as [notify timer].
  set (p1 := with_timers p _ _ _). assert (restates p p1) as H1 by by apply restates_state.
  assert (proxy_ok p1) as Hok1 by by apply ok_timers. cbn [mbind outcome_bind mret outcome_ret].
  pose proof (p_nums _ Hok) as Hnums. rewrite Forall_forall in Hnums. destruct (Hnums d (list_elem_of_lookup_2 _ _ _ Hit)) as [_ Hdr].
  change (changes_low_mark_ p1) with (changes_low_mark_ p).
  rewrite (assert_true _ (SN.gtb _ _)) by (rewrite SN.gtb_val by (done || apply Hok); apply Z.ltb_lt; fold (number c); lia).
  cbn [mbind outcome_bind]. rewrite lookup_change_spec by done. cbn [mbind outcome_bind]. fold (number c).
  change (changes p1) with (changes p). rewrite Eat. rewrite (assert_true _ (bool_decide (is_Some _))) by by apply bool_decide_eq_true.
  cbn [mbind outcome_bind]. rewrite (assert_true _ (bool_decide (status_ d = UNSENT))) by by rewrite bool_decide_true.
  cbn [mbind outcome_bind]. rewrite (assert_true _ (negb _)) by done. cbn [mbind outcome_bind].
  rewrite bool_decide_false by done. cbn [andb]. eexists _, _. split; [reflexivity|]. split.
  - apply (transitivity H1). by eapply restates_set.
  - change (<[it := set_delivered (setStatus d UNDERWAY)]> (changes p) = underway c <$> changes p).
    apply underway_insert; [apply Hok|done|done].
Qed.

Lemma sent_to_spec ndebug s i p c :
  winv s → readers (wr s) !! i = Some p → c ∈ stored s → whole c → is_unsent c p = true →
  ends (sent_to ndebug c i s) (λ _ s', ∃ p', acts s (<[i := p']> (readers (wr s))) s' ∧ was_sent s c p p').
Proof.
  intros Hi Hp Hc Hw Hun. pose proof (good_at _ _ _ _ Hi Hp) as Hg. destruct (number_range s c Hi Hc) as [Hcw Hcr].
  pose proof (v_top _ _ Hi) as Htop. unfold sent_to. rewrite (bind_step _ _ _ _ _ (the_reader_at s i p Hp)). unfold was_sent.
  destruct (is_reliable_ p) eqn:Hrel.
  - destruct (from_unsent_step ndebug s p c Hi Hg Hc Hw Hun Hrel) as (e & p' & Ef & Hre & Ech).
    eapply ends_impl; [exact (on_reader_effects_acts wanted s i _ p e p' Hp Ef)|]. intros [] s' H'. exists p'.
    split; [done|]. split; [|split; [apply Hre|split; [apply Hre|done]]].
    unfold WriterFacts.good_in. rewrite (same_guid _ _ (rs_same _ _ Hre)). by eapply good_restates.
  - destruct (SN.add_u32_val (sequenceNumber c) 1) as [Ev _]; [done|range_unfold; lia|fold (number c); lia|]. fold (number c) in Ev.
    eapply ends_impl; [apply (acknowledge_acts s i p); [done|done|apply SN.add_u32_wf; [done|range_unfold; lia]|lia|left]|].
    { intros E0. rewrite E0 in Ev. change (SN.val SN.default) with 0 in Ev. lia. }
    intros [] s' (p' & H' & Hg' & Hsame & Hlow & Ech). exists p'. split; [done|]. split_and!; [done|done|lia|].
    rewrite Ech. apply filter_same. intros d _. lia.
Qed.

(** *** Loops over the readers *)

Section loop.
Context (R : ReaderProxy → ReaderProxy → Prop) s (Hi : winv s).
Hypothesis R_good : ∀ p p', good_in s p → R p p' → good_in s p' ∧ guid p' = guid p.

Lemma loop_winv k s1 pre :
  acts s (pre ++ drop k (readers (wr s))) s1 → Forall2 R (take k (readers (wr s))) pre → winv s1.
Proof.
  intros Ha HR. pose proof (v_readers _ _ Hi) as Hr. rewrite <-(take_drop k (readers (wr s))) in Hr.
  apply Forall_app in Hr as [Hr1 Hr2]. rewrite Forall_forall in Hr1. eapply winv_acts; [done|done| |].
  - rewrite <-(take_drop k (readers (wr s))) at 2. rewrite !fmap_app. f_equal. clear -HR Hr1 R_good.
    induction HR as [|p p' l l' Hp _ IH]; [done|]. rewrite !fmap_cons, IH by (intros x Hx; apply Hr1; by right).
    f_equal. apply (R_good p p'); [apply Hr1; left|done].
  - apply Forall_app. split; [|done]. apply Forall_forall. intros p' [i Hp']%list_elem_of_lookup.
    destruct (Forall2_lookup_r _ _ _ _ _ HR Hp') as (p & Hp & HRp). apply (R_good p p'); [|done].
    apply Hr1. by eapply list_elem_of_lookup_2.
Qed.

Lemma for_readers_loop (fn : nat → stateful (Sys E) bool) k s1 pre :
  (∀ i s1 p, readers (wr s) !! i = Some p → readers (wr s1) !! i = Some p → winv s1 → acts s (readers (wr s1)) s1 →
    ends (fn i s1) (λ b s2, b = false ∧ ∃ p', acts s1 (<[i := p']> (readers (wr s1))) s2 ∧ R p p')) →
  acts s (pre ++ drop k (readers (wr s))) s1 → Forall2 R (take k (readers (wr s))) pre → (k <= length (readers (wr s)))%nat →
  ends (for_readers (seq k (length (readers (wr s)) - k)) fn s1)
    (λ _ s', ∃ rs, acts s rs s' ∧ Forall2 R (readers (wr s)) rs).
Proof.
  intros Hfn. remember (length (readers (wr s)) - k)%nat as n eqn:En. revert k s1 pre En.
  induction n as [|n IH]; intros k s1 pre En Ha HR Hk; cbn [seq for_readers].
  { apply ends_ret. rewrite drop_ge, app_nil_r in Ha by lia. rewrite take_ge in HR by lia. by exists pre. }
  destruct (reader_in s k) as [p Hp]; [lia|].
  assert (length pre = k) as Hlen by (rewrite <-(Forall2_length _ _ _ HR), length_take; lia).
  destruct (loop_step s s1 s1 pre k p p Ha Hlen Hp) as [Hp1 _].
  eapply ends_bind; [apply (Hfn k s1 p Hp Hp1); [by eapply loop_winv|by rewrite (acts_readers _ _ _ _ Ha)]|].
  intros b s2 (-> & p' & H2 & Hp'). apply (IH (S k) s2 (pre ++ [p'])); [lia| | |lia].
  - by apply (loop_step s s1 s2 pre k p p' Ha Hlen Hp).
  - rewrite (take_S_r _ _ p) by done. apply Forall2_app; [done|]. by constructor.
Qed.

End loop.

(** *** The second loop *)

(** [p'] is [p] as it was, or after the change was sent to it. *)
Definition may_send s (c : CacheChange_t) (p p' : ReaderProxy) : Prop :=
  p' = p ∨ active_ p = true ∧ was_sent s c p p'.

Definition sends_active s (c : CacheChange_t) (p p' : ReaderProxy) : Prop :=
  if active_ p then was_sent s c p p' else p' = p.

Lemma sends_may s c p p' : sends_active s c p p' → may_send s c p p'.
Proof. unfold sends_active, may_send. destruct (active_ p); [by right|by left]. Qed.

Lemma may_send_good s c p p' : good_in s p → may_send s c p p' → good_in s p' ∧ guid p' = guid p.
Proof. intros Hg [->|(_ & Hg' & Hsame & _)]; [done|]. split; [done|by apply same_guid]. Qed.

Lemma good_in_acts s rs s1 p : acts s rs s1 → good_in s1 p ↔ good_in s p.
Proof. intros Ha. destruct (acts_stored _ _ _ _ Ha) as (E1 & E2 & E3 & E4). unfold WriterFacts.good_in. by rewrite E1, E2, E3, E4. Qed.

Lemma was_sent_acts s rs s1 c p p' : acts s rs s1 → was_sent s1 c p p' ↔ was_sent s c p p'.
Proof. intros Ha. unfold was_sent. by rewrite (good_in_acts s rs s1 p' Ha). Qed.

Section second.
Context (ndebug : bool) (c : CacheChange_t) s (Hi : winv s) (Hc : c ∈ stored s) (Hw : whole c).
Hypothesis Hact : Forall (λ p, active_ p = is_unsent c p) (readers (wr s)).

Lemma sent_part_spec fragment i s1 p :
  readers (wr s) !! i = Some p → readers (wr s1) !! i = Some p → winv s1 → acts s (readers (wr s1)) s1 → active_ p = true →
  ends (sent_part ndebug c 0 fragment i s1) (λ _ s2, ∃ p', acts s1 (<[i := p']> (readers (wr s1))) s2 ∧ was_sent s c p p').
Proof.
  intros Hp Hp1 Hi1 H1 Ha. rewrite Forall_forall in Hact. pose proof (Hact p (list_elem_of_lookup_2 _ _ _ Hp)) as Hun.
  pose proof (acts_stored _ _ _ _ H1) as (Es & _). change (sent_part ndebug c 0 fragment i s1) with (sent_to ndebug c i s1).
  eapply ends_impl; [apply (sent_to_spec ndebug s1 i p c); [done|done|by rewrite Es|done|congruence]|].
  intros [] s2 (p' & H2 & Hs). exists p'. split; [done|]. by apply (was_sent_acts s _ s1 _ _ _ H1).
Qed.

Lemma for_active_spec fragment :
  ends (for_active 0 (sent_part ndebug c 0 fragment) s)
    (λ _ s', ∃ rs, acts s rs s' ∧ Forall2 (sends_active s c) (readers (wr s)) rs).
Proof.
  unfold for_active. rewrite (bind_step writer _ _ (wr s) s) by done.
  apply (ends_bind _ _ _ (λ _ s', ∃ rs, acts s rs s' ∧ Forall2 (sends_active s c) (readers (wr s)) rs)); [|intros; by apply ends_ret].
  apply (for_readers_loop (sends_active s c) s Hi) with (pre := []); [| |apply acts_refl|constructor|lia].
  { intros p p' Hg Hs. by apply (may_send_good s c); [|apply sends_may]. }
  intros i s2 p Hp Hp2 Hi2 H2. rewrite (bind_step _ _ _ _ _ (the_reader_at s2 i p Hp2)). unfold sends_active.
  destruct (active_ p) eqn:Ea.
  - eapply ends_bind; [by apply (sent_part_spec fragment i s2 p)|]. intros [] s3 H3. by apply ends_ret.
  - apply ends_ret. split; [done|]. exists p. split; [|done]. rewrite (list_insert_id _ _ _ Hp2). apply acts_refl.
Qed.

End second.

Lemma sends_active_acts s rs s1 c l l' : acts s rs s1 → Forall2 (sends_active s1 c) l l' → Forall2 (sends_active s c) l l'.
Proof.
  intros Ha HR. eapply Forall2_impl; [exact HR|]. intros p p'. unfold sends_active. destruct (active_ p); [|done].
  by apply (was_sent_acts s rs s1).
Qed.

Section messages.
Context (ndebug : bool) (c : CacheChange_t) s (Hi : winv s) (Hc : c ∈ stored s) (Hw : whole c).
Hypothesis Hact : Forall (λ p, active_ p = is_unsent c p) (readers (wr s)).

(** A submessage that was sent on the way from [s1] to [s2]. *)
Definition newly s1 s2 (x : list Guid.GUID_t * Submessage) : Prop := ∃ ms, messages s2 = messages s1 ++ ms ∧ x ∈ ms.

Lemma newly_more s0 s1 rs s2 x : acts s1 rs s2 → newly s0 s1 x → newly s0 s2 x.
Proof.
  intros Ha (ms & Em & Hx). destruct (a_sent _ _ _ _ Ha) as (ms' & Em' & _). exists (ms ++ ms'). rewrite Em', Em, app_assoc.
  split; [done|]. apply elem_of_app. by left.
Qed.

Lemma newly_since s0 rs s1 s2 x : acts s0 rs s1 → newly s1 s2 x → newly s0 s2 x.
Proof.
  intros Ha (ms & Em & Hx). destruct (a_sent _ _ _ _ Ha) as (ms' & Em' & _). exists (ms' ++ ms). rewrite Em, Em', app_assoc.
  split; [done|]. apply elem_of_app. by right.
Qed.

Lemma newly_added s0 rs s1 s2 x : acts s0 rs s1 → messages s2 = messages s1 ++ [x] → newly s0 s2 x.
Proof. intros Ha Em. eapply newly_since; [exact Ha|]. exists [x]. split; [done|by left]. Qed.

(** The change was handed over for each of the readers it goes to. *)
Definition handed s1 (l : list ReaderProxy) : Prop :=
  ∀ p, p ∈ l → active_ p = true → ∃ d q, guid p ∈ d ∧ newly s s1 (d, DATA c q).

Lemma handed_acts s1 rs s2 l : acts s1 rs s2 → handed s1 l → handed s2 l.
Proof.
  intros Ha Hh p Hp Hap. destruct (Hh p Hp Hap) as (d & q & Hd & Hm). exists d, q. split; [done|by eapply newly_more].
Qed.

(** What sending to the readers by themselves comes to. *)
Definition separated (code : DeliveryRetCode) s2 : Prop :=
  ∃ rs, acts s rs s2 ∧ Forall2 (may_send s c) (readers (wr s)) rs ∧ (willing (E := E) → code = DELIVERED) ∧
    (code = DELIVERED → Forall2 (sends_active s c) (readers (wr s)) rs ∧ handed s2 (readers (wr s))).

(** An exception ends the loop. *)
Lemma separated_stop k s1 pre code :
  acts s (pre ++ drop k (readers (wr s))) s1 → Forall2 (may_send s c) (take k (readers (wr s))) pre →
  ¬ willing (E := E) → code ≠ DELIVERED → ends (mret (M:=stateful (Sys E)) code s1) separated.
Proof.
  intros Ha HR Hno Hcode. apply ends_ret. exists (pre ++ drop k (readers (wr s))). split; [done|]. split; [|done].
  rewrite <-(take_drop k (readers (wr s))) at 1. apply Forall2_app; [done|].
  apply Forall2_same_length_lookup_2; [done|]. intros i x y Hx Hy. simplify_eq. by left.
Qed.

Lemma send_separately_spec r k s1 pre ret :
  (willing (E := E) → ret = DELIVERED) → acts s (pre ++ drop k (readers (wr s))) s1 → Forall2 (may_send s c) (take k (readers (wr s))) pre →
  (ret = DELIVERED → Forall2 (sends_active s c) (take k (readers (wr s))) pre ∧ handed s1 (take k (readers (wr s)))) →
  (k <= length (readers (wr s)))%nat →
  ends (send_separately ndebug c 0 r (seq k (length (readers (wr s)) - k)) ret s1) separated.
Proof.
  remember (length (readers (wr s)) - k)%nat as n eqn:En. revert k s1 pre ret En.
  induction n as [|n IH]; intros k s1 pre ret En Hwill Ha HR Hret Hk; cbn [seq send_separately].
  { apply ends_ret. rewrite drop_ge, app_nil_r in Ha by lia. rewrite take_ge in HR, Hret by lia. by exists pre. }
  destruct (reader_in s k) as [p Hp]; [lia|].
  assert (length pre = k) as Hlen by (rewrite <-(Forall2_length _ _ _ HR), length_take; lia).
  destruct (loop_step s s1 s1 pre k p p Ha Hlen Hp) as [Hp1 _].
  pose proof (loop_winv (may_send s c) s Hi (may_send_good s c) k s1 pre Ha HR) as Hi1.
  pose proof (acts_stored _ _ _ _ Ha) as (Es & _). pose proof (acts_readers _ _ _ _ Ha) as Er1.
  assert (take (S k) (readers (wr s)) = take k (readers (wr s)) ++ [p]) as Etake by by apply take_S_r.
  rewrite (bind_step _ _ _ _ _ (the_reader_at s1 k p Hp1)). cbn [Z.ltb Z.compare andb].
  assert (∀ q, may_send s c p q → Forall2 (may_send s c) (take (S k) (readers (wr s))) (pre ++ [q])) as Hsnoc.
  { intros q Hq. rewrite Etake. apply Forall2_app; [done|]. by constructor. }
  destruct (active_ p) eqn:Eact; cbn [negb].
  2: { apply (IH (S k) s1 (pre ++ [p])); [lia|done| |by apply Hsnoc; left| |lia].
       - apply (loop_step s s1 s1 pre k p p Ha Hlen Hp). rewrite (list_insert_id _ _ _ Hp1). apply acts_refl.
       - intros Er. destruct (Hret Er) as [H1 H2]. rewrite Etake. split.
         + apply Forall2_app; [done|]. constructor; [|constructor]. unfold sends_active. by rewrite Eact.
         + intros x [Hx| ->%list_elem_of_singleton]%elem_of_app Hax; [by apply H2|congruence]. }
  eapply ends_bind; [apply (ask_message wanted s1 [guid p]); apply data_ok; [done|by rewrite Es]|].
  intros a s2 (H2 & Hadd & _ & Ea). pose proof (winv_same _ _ _ Hi1 H2) as Hi2. pose proof (acts_readers _ _ _ _ H2) as Er2.
  assert (a ≠ Added → ¬ willing (E := E)) as Hun by (intros Hne Hall; rewrite Ea in Hne; by apply Hne, Hall). clear Ea.
  assert (acts s (pre ++ drop k (readers (wr s))) s2) as Ha2 by (rewrite Er1 in H2; by eapply acts_trans).
  assert (readers (wr s2) !! k = Some p) as Hp2 by by rewrite Er2.
  assert (∀ q s3 ret', winv s3 → acts s ((pre ++ [q]) ++ drop (S k) (readers (wr s))) s3 → may_send s c p q →
    (willing (E := E) → ret' = DELIVERED) → (ret' = DELIVERED → sends_active s c p q ∧
      Forall2 (sends_active s c) (take k (readers (wr s))) pre ∧ handed s3 (take (S k) (readers (wr s)))) →
    ends ((in_time ← send_heartbeat_nts_ ndebug 1 [guid p] false false;
      match in_time with
      | Some _ => send_separately ndebug c 0 r (seq (S k) n) ret'
      | None => mret NOT_DELIVERED
      end) s3) separated) as Hrest.
  { intros q s3 ret' Hi3 Ha3 Hq Hw' Hret'. eapply ends_bind; [by apply heartbeat_talks|]. intros o s4 [H4 Hw4].
    rewrite (acts_readers _ _ _ _ Ha3) in H4. pose proof (acts_trans _ _ _ _ _ _ Ha3 H4) as Ha4. destruct o as [[]|].
    - apply (IH (S k) s4 (pre ++ [q])); [lia|done|done|by apply Hsnoc| |lia]. intros Er. destruct (Hret' Er) as (R1 & R2 & R3).
      split; [|exact (handed_acts _ _ _ _ H4 R3)]. rewrite Etake. apply Forall2_app; [done|]. by constructor.
    - apply (separated_stop (S k) s4 (pre ++ [q])); [done|by apply Hsnoc| |done]. intros Hall. by destruct (Hw4 Hall). }
  destruct a; cbn [answered]; [| |by apply (separated_stop k s2 pre); [..|apply Hun|]|by apply (separated_stop k s2 pre); [..|apply Hun|]].
  - eapply ends_bind; [apply (sent_part_spec ndebug c s Hc Hw Hact _ k s2 p); [done|done|done|by rewrite (acts_readers _ _ _ _ Ha2)|done]|].
    intros [] s3 (p' & H3 & Hsent). assert (acts s ((pre ++ [p']) ++ drop (S k) (readers (wr s))) s3) as Ha3
      by by apply (loop_step s s2 s3 pre k p p' Ha2 Hlen Hp).
    assert (Forall2 (may_send s c) (take (S k) (readers (wr s))) (pre ++ [p'])) as HR3 by (apply Hsnoc; by right).
    pose proof (loop_winv (may_send s c) s Hi (may_send_good s c) (S k) s3 _ Ha3 HR3) as Hi3.
    apply (Hrest p'); [done|done|by right|done|]. intros Eret. destruct (Hret Eret) as [R1 R2].
    split; [unfold sends_active; by rewrite Eact|]. split; [done|]. rewrite Etake. eapply handed_acts; [exact H3|].
    intros x [Hx| ->%list_elem_of_singleton]%elem_of_app Hax; [by eapply handed_acts; [exact H2|..]|].
    eexists [guid p], _. split; [by left|]. eapply newly_added; [exact Ha|]. by apply Hadd.
  - rewrite (bind_step _ _ s2 tt s2) by done. apply (Hrest p); [done| |by left|by intros Hall; destruct (Hun ltac:(done) Hall)|done].
    apply (loop_step s s2 s2 pre k p p Ha2 Hlen Hp). rewrite (list_insert_id _ _ _ Hp2). apply acts_refl.
Qed.

(** The heartbeat after the data: only a willing group keeps the code for sure. *)
Lemma piggyback_spec general code s1 :
  winv s1 → ends (piggyback ndebug general code s1) (λ code' s2, acts s1 (readers (wr s1)) s2 ∧
    (code' = code ∨ ¬ willing (E := E) ∧ code' = NOT_DELIVERED)).
Proof.
  intros Hi1. unfold piggyback. eapply ends_bind; [by apply piggyback_talks|]. intros o s2 [H2 Hw2]. apply ends_ret. split; [done|].
  destruct o; [by left|right]. split; [|done]. intros Hall. by destruct (Hw2 Hall).
Qed.

Lemma send_at_once_spec general r d s1 :
  min_unsent_fragment r = 1 → first_relevant_reader r = 0%nat → acts s (readers (wr s)) s1 →
  ends (send_at_once ndebug general c 0 r d s1) (λ code s2, ∃ rs, acts s rs s2 ∧
    Forall2 (may_send s c) (readers (wr s)) rs ∧ (willing (E := E) → code = DELIVERED) ∧
    (code = DELIVERED → Forall2 (sends_active s c) (readers (wr s)) rs ∧ ∃ q, newly s s2 (d, DATA c q))).
Proof.
  intros Hmin Hfirst H1. unfold send_at_once. cbv zeta. rewrite Hmin, Hfirst. cbn [Z.ltb Z.compare andb].
  pose proof (acts_stored _ _ _ _ H1) as (Es & _). pose proof (winv_same _ _ _ Hi H1) as Hi1.
  eapply ends_bind; [apply (ask_message wanted s1 d); apply data_ok; [done|by rewrite Es]|].
  intros a s2 (H2 & Hadd & _ & Ea).
  assert (a ≠ Added → ¬ willing (E := E)) as Hun by (intros Hne Hall; rewrite Ea in Hne; by apply Hne, Hall). clear Ea.
  rewrite (acts_readers _ _ _ _ H1) in H2. pose proof (acts_trans _ _ _ _ _ _ H1 H2) as H12.
  assert (¬ willing (E := E) → ∀ code s3, code ≠ DELIVERED → acts s (readers (wr s)) s3 → ∃ rs, acts s rs s3 ∧
    Forall2 (may_send s c) (readers (wr s)) rs ∧ (willing (E := E) → code = DELIVERED) ∧
    (code = DELIVERED → Forall2 (sends_active s c) (readers (wr s)) rs ∧ ∃ q, newly s s3 (d, DATA c q))) as Hstop.
  { intros Hno code s3 Hcode H3. exists (readers (wr s)). split; [done|]. split; [|done].
    apply Forall2_same_length_lookup_2; [done|]. intros i x y Hx Hy. simplify_eq. by left. }
  destruct a; cbn [answered]; [| |apply ends_ret; by apply Hstop; [apply Hun|..]|apply ends_ret; by apply Hstop; [apply Hun|..]].
  - assert (readers (wr s2) = readers (wr s)) as Er2 by apply (acts_readers _ _ _ _ H12).
    eapply ends_bind; [apply (for_active_spec ndebug c s2); [by apply (winv_same _ s)| |done|by rewrite Er2]|].
    { pose proof (acts_stored _ _ _ _ H12) as (-> & _). done. }
    intros [] s3 (rs & H3 & HR). rewrite Er2 in HR. apply (sends_active_acts _ _ _ _ _ _ H12) in HR.
    pose proof (acts_trans _ _ _ _ _ _ H12 H3) as H13.
    assert (Forall2 (may_send s c) (readers (wr s)) rs) as HR' by (eapply Forall2_impl; [exact HR|]; intros; by apply sends_may).
    assert (winv s3) as Hi3.
    { apply (loop_winv (may_send s c) s Hi (may_send_good s c) (length (readers (wr s))) s3 rs).
      - by rewrite drop_all, app_nil_r.
      - by rewrite take_ge. }
    eapply ends_impl; [by apply piggyback_spec|]. intros code s4 [H4 Hcode]. exists rs.
    rewrite (acts_readers _ _ _ _ H3) in H4. split; [exact (acts_trans _ _ _ _ _ _ H13 H4)|]. split; [done|].
    split; [by destruct Hcode as [->|[? _]]|]. intros _. split; [done|].
    eexists. eapply newly_more; [exact H4|]. eapply newly_more; [exact H3|]. eapply newly_added; [exact H1|]. by apply Hadd.
  - rewrite (bind_step _ _ s2 tt s2) by done. eapply ends_impl; [apply piggyback_spec; by apply (winv_same _ s)|].
    intros code s4 [H4 Hcode]. rewrite (acts_readers _ _ _ _ H12) in H4. apply Hstop; [by apply Hun| |by eapply acts_trans].
    by destruct Hcode as [->|[_ ->]].
Qed.

End messages.

(** *** A round *)

(** The transports reach each reader the selector enables. *)
Definition reaches : Prop := ∀ (e : E) l, l ≠ [] → 0 < (select e l).2 ∧ l ⊆ (select e l).1.

(** [p'] is [p] as it was, or marked, or after the change was sent to it. *)
Definition touched s (c : CacheChange_t) (p p' : ReaderProxy) : Prop := p' = p ∨ may_send s c (marked c p) p'.

(** What a round leaves: the proxies, and what a delivery says of them.  There is no code
    when an exception was thrown. *)
Definition rounded s (c : CacheChange_t) (code : option DeliveryRetCode) s' : Prop :=
  ∃ rs, acts s rs s' ∧ Forall2 (touched s c) (readers (wr s)) rs ∧ (willing (E := E) → code = Some DELIVERED) ∧
  (code = Some DELIVERED → m_separateSendingEnabled (cfg (wr s)) = true ∨ reaches →
    Forall2 (sends_active s c) (marked c <$> readers (wr s)) rs ∧
    ∀ p, p ∈ readers (wr s) → is_unsent c p = true → ∃ d q, guid p ∈ d ∧ newly s s' (d, DATA c q)).

Lemma marked_state s c s1 : winv s → acts s (marked c <$> readers (wr s)) s1 → winv s1.
Proof.
  intros Hi Ha. apply (marked_prefix s s1 c (length (readers (wr s))) Hi). by rewrite drop_all, app_nil_r, take_ge by lia.
Qed.

Lemma select_enabled s general l :
  ends (select_readers general l s) (λ sel s', acts s (readers (wr s)) s' ∧ sel = select (env (wr s)) l).
Proof.
  unfold select_readers. rewrite (bind_step writer _ _ (wr s) s) by done. cbv zeta. destruct general.
  - eexists _, _. split; [reflexivity|]. split; [by apply acts_writer|done].
  - apply ends_ret. split; [apply acts_refl|done].
Qed.

Lemma same_sends s c l : Forall2 (may_send s c) l l.
Proof. apply Forall2_same_length_lookup_2; [done|]. intros i x y Hx Hy. simplify_eq. by left. Qed.

Lemma idle_sends s c l : existsb (is_unsent c) l = false → Forall2 (sends_active s c) (marked c <$> l) (marked c <$> l).
Proof.
  intros Hno. apply Forall2_same_length_lookup_2; [done|]. intros i x y Hx Hy. simplify_eq.
  apply list_lookup_fmap_Some in Hx as (p & -> & Hp). unfold sends_active. cbn [active_ marked with_active].
  destruct (is_unsent c p) eqn:Eu; [|done]. rewrite <-not_true_iff_false, existsb_exists in Hno. destruct Hno.
  exists p. split; [|done]. apply list_elem_of_In. by eapply list_elem_of_lookup_2.
Qed.

Lemma enabled_in s c r p :
  round_ok s c (length (readers (wr s))) r → p ∈ readers (wr s) → is_unsent c p = true → guid p ∈ enabled_readers r.
Proof.
  intros Hr Hp Hu. rewrite (ro_enabled _ _ _ _ Hr), take_ge by lia. apply list_elem_of_fmap. exists p.
  split; [done|]. by apply list_elem_of_filter.
Qed.

Lemma enabled_some s c r :
  round_ok s c (length (readers (wr s))) r → should_be_sent r = true → enabled_readers r ≠ [].
Proof.
  intros Hr Hs. rewrite (ro_send _ _ _ _ Hr), take_ge in Hs by lia. apply existsb_exists in Hs as (p & Hp%list_elem_of_In & Hu).
  pose proof (enabled_in s c r p Hr Hp Hu) as Hin. intros En. rewrite En in Hin. by apply not_elem_of_nil in Hin.
Qed.

Lemma rounded_acts s c s1 code rs s2 :
  acts s (marked c <$> readers (wr s)) s1 → acts s1 rs s2 → Forall2 (may_send s1 c) (readers (wr s1)) rs →
  (willing (E := E) → code = DELIVERED) → (code = DELIVERED → m_separateSendingEnabled (cfg (wr s)) = true ∨ reaches →
    Forall2 (sends_active s1 c) (readers (wr s1)) rs ∧
    ∀ p, p ∈ readers (wr s) → is_unsent c p = true → ∃ d q, guid p ∈ d ∧ newly s1 s2 (d, DATA c q)) →
  rounded s c (Some code) s2.
Proof.
  intros H1 H2 Hmay Hwill Hdel. pose proof (acts_readers _ _ _ _ H1) as Er. rewrite Er in *. exists rs.
  split; [exact (acts_trans _ _ _ _ _ _ H1 H2)|]. split; [|split; [intros Hall; f_equal; by apply Hwill|]].
  - rewrite Forall2_fmap_l in Hmay. eapply Forall2_impl; [exact Hmay|]. intros p p' [->|[Ha Hs]]; right; [by left|right].
    split; [done|]. by apply (was_sent_acts s _ s1 _ _ _ H1).
  - intros [= Ed] Hre. destruct (Hdel Ed Hre) as [HR HD]. split; [by apply (sends_active_acts _ _ _ _ _ _ H1)|].
    intros p Hp Hu. destruct (HD p Hp Hu) as (d & q & Hd & Hm). exists d, q. split; [done|]. by eapply newly_since.
Qed.

(** An exception before anything was sent. *)
Lemma rounded_thrown s c j s' :
  acts s ((marked c <$> take j (readers (wr s))) ++ drop j (readers (wr s))) s' → ¬ willing (E := E) → rounded s c None s'.
Proof.
  intros Ha Hno. eexists. split; [exact Ha|]. split; [|done]. rewrite <-(take_drop j (readers (wr s))) at 1.
  apply Forall2_app; [apply Forall2_fmap_r|]; apply Forall2_same_length_lookup_2; try done; intros i x y Hx Hy; simplify_eq;
    [right|]; by left.
Qed.

(** The second half of a round. *)
Lemma hand_out_spec ndebug general c r d num s s3 :
  winv s3 → c ∈ stored s3 → whole c → acts s (marked c <$> readers (wr s)) s3 → round_ok s c (length (readers (wr s))) r →
  (should_be_sent r = true → m_separateSendingEnabled (cfg (wr s)) = false → ∃ e, (d, num) = select e (enabled_readers r)) →
  ends ((if negb (should_be_sent r) then mret DELIVERED
         else if m_separateSendingEnabled (cfg (wr s)) then
           send_separately ndebug c 0 r
             (seq (first_relevant_reader r) (length (readers (wr s)) - first_relevant_reader r)) DELIVERED
         else if 0 <? num then send_at_once ndebug general c 0 r d
         else mret DELIVERED) s3) (λ code, rounded s c (Some code)).
Proof.
  intros Hi3 Hc3 Hw H03 Hr Hsel. pose proof (acts_readers _ _ _ _ H03) as Er3.
  assert (Forall (λ p, active_ p = is_unsent c p) (readers (wr s3))) as Hact.
  { rewrite Er3. apply Forall_fmap, Forall_forall. done. }
  destruct (should_be_sent r) eqn:Esend; cbn [negb].
  2: { apply ends_ret. eapply rounded_acts; [exact H03|apply acts_refl|apply same_sends|done|]. intros _ _.
       rewrite (ro_send _ _ _ _ Hr), take_ge in Esend by lia. split.
       - rewrite Er3. by apply idle_sends.
       - intros p Hp Hu. rewrite <-not_true_iff_false, existsb_exists in Esend. destruct Esend. exists p. by rewrite <-list_elem_of_In. }
  rewrite (ro_first _ _ _ _ Hr), Nat.sub_0_r. assert (length (readers (wr s)) = length (readers (wr s3))) as -> by (rewrite Er3; by rewrite length_fmap).
  destruct (m_separateSendingEnabled _) eqn:Esep.
  - pose proof (send_separately_spec ndebug c s3 Hi3 Hc3 Hw Hact r 0 s3 [] DELIVERED) as Hsep. rewrite Nat.sub_0_r in Hsep.
    eapply ends_impl; [apply Hsep; [done|apply acts_refl|constructor| |lia]|].
    { intros _. split; [constructor|]. by intros p Hp%not_elem_of_nil. }
    intros code s4 (rs & H4 & Hmay & Hwill & Hdel). eapply rounded_acts; [exact H03|exact H4|exact Hmay|exact Hwill|]. intros Ed _.
    destruct (Hdel Ed) as [HR Hh]. split; [done|]. intros p Hp Hu. apply (Hh (marked c p)); [|done].
    rewrite Er3. by apply list_elem_of_fmap_2.
  - destruct (Z.ltb_spec 0 num) as [Hnum|Hnum].
    + eapply ends_impl; [apply (send_at_once_spec ndebug c s3 Hi3 Hc3 Hw Hact general r d s3); [apply Hr|apply Hr|apply acts_refl]|].
      intros code s4 (rs & H4 & Hmay & Hwill & Hdel). eapply rounded_acts; [exact H03|exact H4|exact Hmay|exact Hwill|]. intros Ed [?|Hre]; [congruence|].
      destruct (Hdel Ed) as [HR (q & Hq)]. split; [done|]. intros p Hp Hu. exists d, q. split; [|done].
      destruct (Hsel eq_refl eq_refl) as [e He]. destruct (Hre e (enabled_readers r)) as [_ Hsub]; [by eapply enabled_some|].
      rewrite <-He in Hsub. apply Hsub. by apply (enabled_in s c).
    + apply ends_ret. eapply rounded_acts; [exact H03|apply acts_refl|apply same_sends|done|]. intros _ [?|Hre]; [congruence|].
      destruct (Hsel eq_refl eq_refl) as [e He]. destruct (Hre e (enabled_readers r)) as [Hlt _]; [by eapply enabled_some|].
      rewrite <-He in Hlt. simpl in Hlt. lia.
Qed.

Lemma deliver_round_spec ndebug general c need s :
  winv s → c ∈ stored s → whole c →
  ends (deliver_round ndebug general c 0 need s) (λ o s',
    match o with Some (code, r) => min_unsent_fragment r = 1 ∧ rounded s c (Some code) s' | None => rounded s c None s' end).
Proof.
  intros Hi Hc Hw. unfold deliver_round. rewrite (bind_step writer _ _ (wr s) s) by done. cbv zeta. unfold then_ at 1.
  pose proof (scan_readers_spec ndebug c s 0 s) as Hscan. rewrite Nat.sub_0_r in Hscan.
  eapply ends_bind; [apply Hscan; [done|done|done|apply acts_refl| |lia]|].
  { split; [done|done|done|done|by left]. }
  intros [r|] s1 Ho; [|destruct Ho as (Hno & j & H1); apply ends_ret; by eapply rounded_thrown]. destruct Ho as [H1 Hr]. pose proof (marked_state s c s1 Hi H1) as Hi1. pose proof (acts_readers _ _ _ _ H1) as Er1.
  pose proof (acts_stored _ _ _ _ H1) as (Es1 & _).
  apply (ends_bind _ _ _ (λ sel s2, acts s1 (readers (wr s1)) s2 ∧
    (should_be_sent r = true → m_separateSendingEnabled (cfg (wr s)) = false → ∃ e, sel = select e (enabled_readers r)))).
  { destruct (_ || _) eqn:Esel.
    - eapply ends_impl; [apply select_enabled|]. intros sel s2 [H2 ->]. split; [done|]. by eexists.
    - apply ends_ret. split; [apply acts_refl|]. intros E1 E2. by rewrite E1, E2 in Esel. }
  intros [d num] s2 [H2 Hsel]. pose proof (winv_same _ _ _ Hi1 H2) as Hi2. pose proof (acts_stored _ _ _ _ H2) as (Es2 & _).
  unfold then_. apply (ends_bind _ _ _ (said wanted s2)).
  { destruct (SN.neqb _ _) eqn:Eg; [|apply ends_ret, said_ret]. apply send_said.
    destruct (ro_gap _ _ _ _ Hr) as [Eu|(Hgw & Hgv & Hno)]; [by rewrite Eu in Eg|].
    apply gap_ok; [done|congruence|done|done|]. intros n Hn g x _ Hx En _. rewrite Es2, Es1 in Hx. by apply (Hno x Hx); rewrite En. }
  intros o s3 [H3 Hw3]. pose proof (winv_same _ _ _ Hi2 H3) as Hi3. pose proof (acts_same _ _ _ _ H2 H3) as H13.
  pose proof (acts_stored _ _ _ _ H13) as (Es3 & _).
  assert (acts s (marked c <$> readers (wr s)) s3) as H03 by (rewrite Er1 in H13; by eapply acts_trans).
  destruct o as [[]|].
  2: { apply ends_ret, (rounded_thrown s c (length (readers (wr s)))); [by rewrite drop_all, app_nil_r, take_ge by lia|].
       intros Hall. by destruct (Hw3 Hall). }
  apply (ends_bind _ _ _ (λ code s4, rounded s c (Some code) s4)); [|intros code s4 H4; apply ends_ret; split; [apply Hr|done]].
  by apply hand_out_spec; [|congruence|..].
Qed.

(** *** The whole delivery *)

Lemma may_send_same s c p p' : may_send s c p p' → same_reader p p'.
Proof. intros [->|(_ & _ & Hsame & _)]; done. Qed.

Lemma may_send_low s c p p' : may_send s c p p' → is_reliable_ p = true → changes_low_mark_ p' = changes_low_mark_ p.
Proof. intros [->|(_ & _ & _ & Hs)] Hrel; [done|]. rewrite Hrel in Hs. apply Hs. Qed.

Lemma touched_same s c p p' :
  touched s c p p' → same_reader p p' ∧ (is_reliable_ p = true → changes_low_mark_ p' = changes_low_mark_ p).
Proof.
  intros [->|Hm]; [done|]. split; [exact (may_send_same _ _ _ _ Hm)|]. intros Hrel. exact (may_send_low _ _ _ _ Hm Hrel).
Qed.

Lemma rounded_winv s c code s' : winv s → rounded s c code s' → winv s' ∧ steady nobody s s'.
Proof.
  intros Hi (rs & Ha & Hmay & _ & _). split.
  - eapply winv_acts; [exact Hi|exact Ha|eapply Forall2_guids; [exact Hmay|]|].
    + intros p p' Hm. apply same_guid, (touched_same _ _ _ _ Hm).
    + apply Forall_forall. intros p' [i Hp']%list_elem_of_lookup.
      destruct (Forall2_lookup_r _ _ _ _ _ Hmay Hp') as (p & Hp & [->|Hm]); [by eapply good_at|].
      apply (may_send_good s c (marked c p)); [|done].
      eapply good_restates; [exact (good_at _ _ _ _ Hi Hp)|apply marked_restates].
  - eapply acts_steady; [exact Ha|]. eapply Forall2_impl; [exact Hmay|]. intros p p' Hm.
    destruct (touched_same _ _ _ _ Hm) as [Hsame Hlow]. split; [exact Hsame|]. intros Hrel c' _ _ Hle. left. by rewrite Hlow in Hle.
Qed.

Lemma rounded_same s c code s1 s2 : rounded s c code s1 → acts s1 (readers (wr s1)) s2 → rounded s c code s2.
Proof.
  intros (rs & Ha & Hmay & Hwill & Hdel) H2. exists rs. pose proof H2 as H2'. rewrite (acts_readers _ _ _ _ Ha) in H2'.
  split; [exact (acts_trans _ _ _ _ _ _ Ha H2')|]. split; [done|]. split; [done|]. intros Ed Hre. destruct (Hdel Ed Hre) as [HR HD].
  split; [done|]. intros p Hp Hu. destruct (HD p Hp Hu) as (d & q & Hd & Hq). exists d, q. split; [done|by eapply newly_more].
Qed.

Lemma deliver_rounds_spec ndebug general c need fuel s :
  winv s → c ∈ stored s → whole c →
  ends (deliver_rounds (S fuel) ndebug general c 0 0 need s) (λ o s', rounded s c (fst <$> o) s').
Proof.
  intros Hi Hc Hw. cbn [deliver_rounds]. change (0 =? u32 (0 + 1)) with false. cbv iota. unfold then_.
  eapply ends_bind; [by apply deliver_round_spec|]. intros [[code r]|] s1; [|intros Hr; by apply ends_ret]. intros [Hmin Hr].
  destruct code; try by apply ends_ret. rewrite Hmin. destruct fuel; by apply ends_ret.
Qed.

Lemma deliver_sample_spec ndebug general fuel s c :
  winv s → c ∈ stored s → whole c →
  ends (deliver_sample_nts (S fuel) ndebug general c s) (λ code s', winv s' ∧ ∃ s1, winv s1 ∧ rounded s c code s1 ∧ settles s1 s').
Proof.
  intros Hi Hc Hw. unfold deliver_sample_nts. rewrite (bind_step writer _ _ (wr s) s) by done. unfold then_.
  apply (ends_bind _ _ _ (λ code s1, rounded s c code s1)).
  - unfold RLV.empty. fold (readers (wr s)). destruct (readers (wr s)) as [|p l] eqn:Er; cbn [bool_decide length].
    + apply ends_ret. exists []. rewrite Er. split; [rewrite <-Er; apply acts_refl|]. split; [constructor|]. split; [done|].
      intros _ _. split; [constructor|]. by intros p Hp%not_elem_of_nil.
    + unfold deliver_sample_to_network. destruct Hw as [Hsize Hcount]. rewrite Hcount. unfold then_.
      eapply ends_bind; [by apply deliver_rounds_spec|]. intros [[code need]|] s1 Hr; [|by apply ends_ret]. simpl in Hr.
      apply (ends_bind _ _ _ (λ _ s2, rounded s c (Some code) s2)); [|intros; by apply ends_ret].
      destruct need; [|by apply ends_ret]. eexists _, _. split; [reflexivity|]. eapply rounded_same; [exact Hr|]. by apply acts_writer.
  - intros code s1 Hr. destruct (rounded_winv _ _ _ _ Hi Hr) as [Hi1 _].
    destruct code as [code|]; [|apply ends_ret; split; [done|]; exists s1; split; [done|]; by split; [|reflexivity]].
    eapply ends_bind; [by apply check_acked_spec|]. intros [] s2 [Hi2 Hsh]. apply ends_ret. split; [done|]. by exists s1.
Qed.

(** ** Delivery without locators *)

(** [p'] is [p] up to whether it is marked. *)
Definition remarks (p p' : ReaderProxy) : Prop := ∃ b, p' = with_active p b.

Lemma remarks_restates p p' : remarks p p' → restates p p'.
Proof. intros [b ->]. by apply restates_state. Qed.

Lemma remarks_all (l : list ReaderProxy) : Forall2 remarks l l.
Proof. induction l as [|p l IH]; [constructor|]. constructor; [|done]. exists (active_ p). by destruct p. Qed.

Lemma remarks_due c p p' : remarks p p' → is_unsent c p' = is_unsent c p ∧ next_fragment c p' = next_fragment c p.
Proof. by intros [b ->]. Qed.

(** Nobody is reached. *)
Definition no_locators : Prop := ∀ (e : E) l, (select e l).2 <= 0.

Section stuck.
Context (ndebug general : bool) (c : CacheChange_t) (n : Z) (Hwill : willing (E := E)) (Hn : n ≠ 0).

(** The first loop over the readers: what it has gathered is at most the next fragment of
    any of them. *)
Lemma scan_fragments s k s1 pre r :
  winv s → c ∈ stored s → acts s (pre ++ drop k (readers (wr s))) s1 → Forall2 remarks (take k (readers (wr s))) pre →
  gap_seq_for_all r = SN.unknown ∨ hole s c (gap_seq_for_all r) → (k <= length (readers (wr s)))%nat →
  ends (scan_readers ndebug c n (seq k (length (readers (wr s)) - k)) r s1) (λ o s2, ∃ r' rs, o = Some r' ∧
    acts s rs s2 ∧ Forall2 remarks (readers (wr s)) rs ∧ (gap_seq_for_all r' = SN.unknown ∨ hole s c (gap_seq_for_all r')) ∧
    min_unsent_fragment r' <= min_unsent_fragment r ∧
    ∀ p, p ∈ drop k (readers (wr s)) → is_unsent c p = true → min_unsent_fragment r' <= next_fragment c p).
Proof.
  intros Hi Hc. remember (length (readers (wr s)) - k)%nat as m eqn:Em. revert k s1 pre r Em.
  induction m as [|m IH]; intros k s1 pre r Em Ha HR Hgap Hk; cbn [seq scan_readers].
  { apply ends_ret. rewrite drop_ge, app_nil_r in Ha by lia. rewrite take_ge in HR by lia. exists r, pre.
    split_and!; try done. rewrite drop_ge by lia. by intros p ?%not_elem_of_nil. }
  destruct (reader_in s k) as [p Hp]; [lia|].
  assert (length pre = k) as Hlen by (rewrite <-(Forall2_length _ _ _ HR), length_take; lia).
  destruct (loop_step s s1 s1 pre k p p Ha Hlen Hp) as [Hp1 _].
  assert (winv s1) as Hi1.
  { apply (loop_winv remarks s Hi) with (k := k) (pre := pre); [|done|done]. intros q q' Hq Hre%remarks_restates.
    pose proof (same_guid _ _ (rs_same _ _ Hre)) as Eg. split; [|done]. unfold WriterFacts.good_in. rewrite Eg. by eapply good_restates. }
  pose proof (acts_stored _ _ _ _ Ha) as (Es & _). pose proof (good_at _ _ _ _ Hi1 Hp1) as Hg.
  rewrite (bind_step get_state _ _ s1 s1) by done. rewrite (bind_step _ _ _ _ _ (the_reader_at s1 k p Hp1)).
  destruct (unsent_answer s1 p c Hi1 Hg) as (o & Eo & Ho); [by rewrite Es|].
  rewrite (bind_step _ _ _ o s1) by (unfold lift_outcome; by rewrite Eo). unfold then_ at 1.
  apply (ends_bind _ _ _ (λ o s2, ∃ r' b, o = Some r' ∧ acts s1 (<[k := with_active p b]> (readers (wr s1))) s2 ∧
    (gap_seq_for_all r' = SN.unknown ∨ hole s c (gap_seq_for_all r')) ∧ min_unsent_fragment r' <= min_unsent_fragment r ∧
    (is_unsent c p = true → min_unsent_fragment r' <= next_fragment c p))).
  - assert (∀ r1, gap_seq_for_all r1 = gap_seq_for_all r → min_unsent_fragment r1 = min_unsent_fragment r →
      (is_unsent c p = true → min_unsent_fragment r <= next_fragment c p) →
      ends ((set_active k false;; returns r1) s1) (λ o s2, ∃ r' b, o = Some r' ∧
        acts s1 (<[k := with_active p b]> (readers (wr s1))) s2 ∧
        (gap_seq_for_all r' = SN.unknown ∨ hole s c (gap_seq_for_all r')) ∧ min_unsent_fragment r' <= min_unsent_fragment r ∧
        (is_unsent c p = true → min_unsent_fragment r' <= next_fragment c p))) as Hskip.
    { intros r1 E1 E2 Hle. eapply ends_bind; [by apply (on_reader_acts wanted s1 k _ p tt (with_active p false) Hp1)|].
      intros [] s2 [_ H2]. apply ends_ret. exists r1, false. rewrite E1, E2. by split_and!. }
    destruct o as [u|]; [|apply Hskip; [done|done|congruence]]. destruct Ho as (Eu & Hnext & Hgapu). cbv zeta.
    rewrite (proj2 (Z.eqb_neq _ _) Hn). cbn [orb min_unsent_fragment]. rewrite Hnext.
    destruct (Z.leb_spec (next_fragment c p) (min_unsent_fragment r)) as [Hle|Hgt]; [|apply Hskip; [done|done|lia]].
    eapply ends_impl; [apply (activate_spec ndebug c s1 k p u); [done|by rewrite Es|done|done|]|].
    { destruct Hgap as [|(? & ? & Hno)]; [by left|right]. split; [done|]. split; [done|]. by rewrite Es. }
    intros o s2 [H2 Ho]. destruct o as [r'|]; [|done]. destruct Ho as (Emin & _ & _ & _ & Hg'). exists r', true.
    simpl in Emin. rewrite Hnext in Emin. split_and!; [done|done| | |].
    + destruct Hg' as [|(? & ? & Hno)]; [by left|right]. split; [done|]. split; [done|]. by rewrite Es in Hno.
    + rewrite Emin. destruct (Z.ltb_spec (next_fragment c p) (min_unsent_fragment r)); lia.
    + intros _. rewrite Emin. destruct (Z.ltb_spec (next_fragment c p) (min_unsent_fragment r)); lia.
  - intros o2 s2 (r1 & b & -> & H2 & Hg1 & Hle1 & Hdue).
    eapply ends_impl; [apply (IH (S k) s2 (pre ++ [with_active p b])); [lia| | |done|lia]|].
    + by apply (loop_step s s1 s2 pre k p (with_active p b) Ha Hlen Hp).
    + rewrite (take_S_r _ _ p) by done. apply Forall2_app; [done|]. constructor; [by exists b|constructor].
    + intros o3 s3 (r' & rs & -> & H3 & HR3 & Hg3 & Hle3 & Hall). exists r', rs. split_and!; try done; [lia|].
      intros q. rewrite (drop_S _ p) by done. intros [->|Hq]%elem_of_cons Hu; [specialize (Hdue Hu); lia|by apply Hall].
Qed.

(** A round that reaches nobody and leaves the proxies as they are. *)
Lemma round_stuck s need :
  winv s → c ∈ stored s → m_separateSendingEnabled (cfg (wr s)) = false → no_locators →
  ends (deliver_round ndebug general c n need s) (λ o s', ∃ r rs, o = Some (DELIVERED, r) ∧ acts s rs s' ∧
    Forall2 remarks (readers (wr s)) rs ∧ ∀ p, p ∈ readers (wr s) → is_unsent c p = true → min_unsent_fragment r <= next_fragment c p).
Proof.
  intros Hi Hc Hsep Hnone. unfold deliver_round. rewrite (bind_step writer _ _ (wr s) s) by done. cbv zeta. unfold then_ at 1.
  pose proof (scan_fragments s 0 s [] (mkRound SN.unknown 0 false false (u32 (n + 1)) [] need)) as Hscan. rewrite Nat.sub_0_r in Hscan.
  eapply ends_bind; [apply Hscan; [done|done|rewrite drop_0; apply acts_refl|constructor|by left|lia]|].
  intros o s1 (r & rs & -> & H1 & HR & Hgap & _ & Hall). rewrite drop_0 in Hall. rewrite Hsep.
  destruct (restates_winv nobody s rs s1 Hi H1) as [Hi1 _].
  { eapply Forall2_impl; [exact HR|]. intros. by apply remarks_restates. }
  pose proof (acts_readers _ _ _ _ H1) as Er1. pose proof (acts_stored _ _ _ _ H1) as (Es1 & _).
  apply (ends_bind _ _ _ (λ sel s2, acts s1 (readers (wr s1)) s2 ∧ sel.2 <= 0)).
  { destruct (_ || _); [|apply ends_ret; split; [apply acts_refl|done]].
    eapply ends_impl; [apply select_enabled|]. intros sel s2 [H2 ->]. split; [done|apply Hnone]. }
  intros [d num] s2 [H2 Hnum]. simpl in Hnum. pose proof (winv_same _ _ _ Hi1 H2) as Hi2. pose proof (acts_stored _ _ _ _ H2) as (Es2 & _).
  unfold then_. apply (ends_bind _ _ _ (said wanted s2)).
  { destruct (SN.neqb _ _) eqn:Eg; [|apply ends_ret, said_ret]. apply send_said.
    destruct Hgap as [Eu|(Hgw & Hgv & Hno)]; [by rewrite Eu in Eg|].
    apply gap_ok; [done|congruence|done|done|]. intros m Hm g x _ Hx Ex _. rewrite Es2, Es1 in Hx. by apply (Hno x Hx); rewrite Ex. }
  intros o s3 [H3 Hw3]. destruct o as [[]|]; [|by destruct (Hw3 Hwill)].
  rewrite (bind_step _ _ s3 DELIVERED s3).
  2: { destruct (negb _); [done|]. by rewrite (proj2 (Z.ltb_ge _ _)) by lia. }
  apply ends_ret. exists r, rs. split_and!; [done| |done|done].
  pose proof (acts_same _ _ _ _ H2 H3) as H13. rewrite Er1 in H13. by eapply acts_trans.
Qed.

(** A reader waits for a fragment of the change. *)
Definition waits s : Prop :=
  winv s ∧ c ∈ stored s ∧ m_separateSendingEnabled (cfg (wr s)) = false ∧
  ∃ p, p ∈ readers (wr s) ∧ is_unsent c p = true ∧ next_fragment c p < u32 (n + 1).

Lemma waits_still s rs s' : waits s → acts s rs s' → Forall2 remarks (readers (wr s)) rs → waits s'.
Proof.
  intros (Hi & Hc & Hsep & p & Hp & Hu & Hlt) Ha HR. pose proof (acts_readers _ _ _ _ Ha) as Er. split_and!.
  - apply (restates_winv nobody s rs s' Hi Ha). eapply Forall2_impl; [exact HR|]. intros. by apply remarks_restates.
  - by rewrite (proj1 (acts_stored _ _ _ _ Ha)).
  - by rewrite (a_cfg _ _ _ _ Ha).
  - apply list_elem_of_lookup in Hp as [i Hp]. destruct (Forall2_lookup_l _ _ _ _ _ HR Hp) as (p' & Hp' & Hre).
    destruct (remarks_due c p p' Hre) as [E1 E2]. exists p'. rewrite Er, E1, E2. split; [by eapply list_elem_of_lookup_2|done].
Qed.

Lemma rounds_stuck fuel s m need :
  no_locators → waits s → m ≠ u32 (n + 1) → deliver_rounds fuel ndebug general c n m need s = Unfinished.
Proof.
  intros Hnone. revert s m need. induction fuel as [|fuel IH]; intros s m need Hs Hm; cbn [deliver_rounds];
    rewrite (proj2 (Z.eqb_neq _ _) Hm); [done|]. pose proof Hs as (Hi & Hc & Hsep & p & Hp & Hu & Hlt).
  destruct (round_stuck s need Hi Hc Hsep Hnone) as (o & s' & Eo & r & rs & -> & Ha & HR & Hall). unfold then_.
  rewrite (bind_step _ _ _ _ _ Eo). apply IH; [by eapply waits_still|]. specialize (Hall p Hp Hu). lia.
Qed.

End stuck.

(** ** Publication *)

Lemma publish_spec ndebug s c params now :
  winv s → Guid.wf (writerGUID c) → last_num s + 1 < 2 ^ 62 → Z.of_nat (length (stored s)) + 1 < 2 ^ 31 →
  ends (add_change_ ndebug c params now s) (λ '(_, b) s', winv s' ∧ (b = true ↔ accepts s c) ∧
    if b then ∃ c' s2, winv s2 ∧ steady nobody s s2 ∧ stored s2 = stored s ++ [c'] ∧ last_num s2 = last_num s + 1 ∧
      number c' = last_num s + 1 ∧ serializedPayload c' = serializedPayload c ∧ kind c' = kind c ∧
      Forall2 (gets s c') (readers (wr s)) (readers (wr s2)) ∧ settles s2 s' ∧
      (readers (wr s) ≠ [] → stored s' = stored s2)
    else s' = s).
Proof.
  intros Hi Hg Htop Hlen. pose proof (v_history _ _ Hi) as Hh. unfold add_change_. rewrite (bind_step get_state _ _ s s) by done.
  rewrite (ok_attached _ Hh). cbn [negb]. destruct (prepare_spec s c params now Hh Hg) as (s1 & p' & o & E1 & Hok & Hacc & Ew & Eatt & Ho).
  { unfold last_num in Htop. lia. }
  { done. }
  rewrite (bind_step _ _ s (s1, o, p') s) by (unfold lift_outcome; by rewrite E1).
  rewrite (bind_step (put_state s1) _ s tt s1) by done. destruct o as [c'|].
  2: { subst s1. apply ends_ret. split; [done|]. split; [|done]. rewrite <-Hacc. split; [done|by intros []]. }
  destruct Ho as (Est & _ & El & En & Epay & Ek & _). assert (accepts s c) as Ha by by apply Hacc.
  assert (history_grown s c' s1) as Hgrow.
  { split; [done|done|by split|done|by unfold limit; rewrite Eatt| |done]. split; [apply Ha|done]. }
  eapply ends_bind; [by apply (unsent_change_spec ndebug s c' s1)|]. intros [] s3 (Hi3 & s2 & Hi2 & Hst & Est2 & El2 & Hgets & Hsh & Hkeep).
  apply ends_ret. split; [done|]. split; [done|]. exists c', s2. done.
Qed.

(** ** Queries *)

(** A routine that only looks at the readers. *)
Lemma for_matched_search s (fn : nat → stateful (Sys E) bool) (f : ReaderProxy → bool) :
  (∀ i p, readers (wr s) !! i = Some p → fn i s = Done (f p, s)) →
  for_matched_readers fn s = Done (existsb f (readers (wr s)), s).
Proof.
  intros Hfn. unfold for_matched_readers. rewrite (bind_step writer _ _ (wr s) s) by done. change (StatefulWriter.readers (wr s)) with (readers (wr s)).
  assert (∀ k l, drop k (readers (wr s)) = l → for_readers (seq k (length l)) fn s = Done (existsb f l, s)) as Hall.
  { intros k l. revert k. induction l as [|p l IH]; intros k El; [done|]. cbn [length seq for_readers existsb].
    assert (readers (wr s) !! k = Some p) as Hp by (rewrite <-(Nat.add_0_r k), <-lookup_drop, El; done).
    rewrite (bind_step _ _ _ _ _ (Hfn k p Hp)). destruct (f p); [done|]. apply IH. rewrite (drop_S _ p) in El by done. by simplify_eq. }
  apply (Hall 0%nat). by rewrite drop_0.
Qed.

(** A reader has acknowledged what its proxy does not wait for. *)
Lemma acked_settled s p n : good_in s p → acked p n = true ↔ n ∉ num <$> changes p.
Proof.
  intros Hg. pose proof (g_tracks _ _ _ _ _ _ Hg) as Ht. pose proof (t_refers _ _ _ _ Ht) as Hr. rewrite Forall_forall in Hr.
  pose proof (p_nums _ (t_ok _ _ _ _ Ht)) as Hn. rewrite Forall_forall in Hn. unfold acked. rewrite orb_true_iff, Z.leb_le. split.
  - intros Ha (c & -> & Hc)%list_elem_of_fmap. destruct (Hn c Hc) as [_ Hlow]. destruct Ha as [?|Ha]; [lia|].
    destruct (at_num (num c) (changes p)) as [[i d]|] eqn:Ed.
    + apply list_find_Some in Ed as (Hd & _ & _). destruct (Hr d (list_elem_of_lookup_2 _ _ _ Hd)) as (_ & _ & Hst & _). by case_bool_decide.
    + rewrite at_num_None in Ed. by apply (Ed c Hc).
  - intros Hno. right. destruct (at_num n (changes p)) as [[i d]|] eqn:Ed; [|done].
    apply list_find_Some in Ed as (Hd & <- & _). destruct Hno. apply list_elem_of_fmap_2. by eapply list_elem_of_lookup_2.
Qed.

End ops.
End WriterOps.
