(* ===== verification/StatefulWriterMatching.v ===== *)
(** * Matching and unmatching readers

    The operations of a stateful writer that change the set of matched readers, and the
    writer as it is constructed: each keeps the invariant of StatefulWriterFacts.v. *)

From S2P Require Import Prelude.
From S2P Require Import SeqNum.
From S2P Require Import Bitmap.
From S2P Require Import BitmapFacts.
From S2P Require Import Containers.
From S2P Require Import Guid.
From S2P Require Import CacheChange.
From S2P Require Import GapBuilder.
From S2P Require Import History.
From S2P Require Import HistoryFacts.
From S2P Require Import Locator.
From S2P Require Import LocatorSelector.
From S2P Require Import ReaderProxy.
From S2P Require Import ReaderProxyFacts.
From S2P Require Import StatefulWriter.
From S2P Require Import StatefulWriterFacts.
From S2P Require Import StatefulWriterOps.

Module WriterMatching.
Import CacheChange ChangeForReader ReaderLocator ReaderProxy.
Import HistorySearch WriterHistoryFacts ProxyFacts.
Import StatefulWriter WriterFacts WriterOps.

Section matching.
Context {E : Type} `{!WriterEnv E} `{!WriterEnvLaws E}.
Context (wanted : Guid.GUID_t → CacheChange_t → Prop).
Implicit Types s : Sys E.

Abbreviation winv := (winv wanted).
Abbreviation acts := (acts wanted).
Abbreviation good_in := (good_in wanted).

(** ** The proxies of the pool *)

Lemma limits_room (att : History.HistoryAttributes) :
  0 <= History.initialReservedCaches att → 0 <= History.maximumReservedCaches att < 2 ^ 31 →
  (0 < History.maximumReservedCaches att → History.initialReservedCaches att <= History.maximumReservedCaches att) →
  History.initialReservedCaches att < 2 ^ 31 →
  roomy (History.maximumReservedCaches att) (RLV.make (resource_limits_from_history att)).
Proof.
  intros Hi Hm Hle Hlt. unfold resource_limits_from_history, roomy, RLV.SIZE_MAX.
  destruct (Z.ltb_spec 0 (History.maximumReservedCaches att)) as [Hpos|Hz]; cbn [andb];
    [destruct (Z.eqb_spec (History.initialReservedCaches att) (History.maximumReservedCaches att)) as [He|Hne]|];
    (split; [apply RLV.make_wf; unfold RLV.config_wf|]); simpl;
    repeat match goal with |- context [?a <? ?b] => destruct (Z.ltb_spec a b) end; lia.
Qed.

(** The limits of the history are sensible. *)
Definition attributes_ok (att : History.HistoryAttributes) : Prop :=
  0 <= History.initialReservedCaches att < 2 ^ 31 ∧ 0 <= History.maximumReservedCaches att < 2 ^ 31 ∧
  (0 < History.maximumReservedCaches att → History.initialReservedCaches att <= History.maximumReservedCaches att).

Lemma cleared_room limit (v : RLV.t ChangeForReader_t) : roomy limit v → roomy limit (RLV.clear v).
Proof. intros [(Hc & Hs & Hm) Hmax]. split; [|done]. split; [done|]. simpl. unfold RLV.size in *. simpl. lia. Qed.

Lemma stopped_idle limit p : roomy limit (changes_for_reader_ p) → idle limit (stop p).2.
Proof.
  intros Hr. unfold stop. destruct (disable_timers _) as [e p'] eqn:Ed. unfold disable_timers in Ed.
  repeat case_match; simplify_eq; split; try done; by apply cleared_room.
Qed.

Lemma created_idle s u m us now :
  attributes_ok (History.m_att (WriterHistory.hist s)) → idle (limit s) (create_proxy s u m us now).
Proof. intros (? & ? & ?). apply stopped_idle, limits_room; simpl; lia || tauto. Qed.

(** ** A new reader *)

(** A proxy that has just been started for the reader of [data]. *)
Record started s (data : ReaderProxyData) (p : ReaderProxy) : Prop := {
  st_guid : guid p = rd_guid data;
  st_reliable : is_reliable_ p = negb (rd_best_effort data);
  st_durability : durability_kind_ p = rd_durability data;
  st_changes : changes p = [];
  st_low : SN.wf (changes_low_mark_ p) ∧ 0 <= SN.val (changes_low_mark_ p) <= last_num s;
  st_remote : is_local_reader p = false ∧ is_datasharing_reader p = false;
  st_timers : timers_enabled_ p = is_reliable_ p;
  st_room : roomy (limit s) (changes_for_reader_ p)
}.

Lemma start_low s p :
  history_ok s → last_num s < 2 ^ 62 → changes_low_mark_ p = SN.default →
  ∃ low, (if bool_decide (durability_kind_ p = VOLATILE) then
            let min_sequence := WriterHistory.get_seq_num_min s in
            mret (with_low_mark p (if SN.eqb min_sequence SN.unknown
                                   then SN.sub_u32 (WriterHistory.next_sequence_number s) 1
                                   else SN.sub_u32 min_sequence 1))
          else acked_changes_set s p SN.default) = Done (with_low_mark p low) ∧
    SN.wf low ∧ 0 <= SN.val low <= last_num s.
Proof.
  intros Hh Htop Hlow. destruct (next_seq s Hh) as (Hnw & Hnv & Hsw & Hsv); [lia|]. destruct (ok_last _ Hh) as [_ Hl0].
  assert (WriterHistory.get_seq_num_min s ≠ SN.unknown → SN.wf (SN.sub_u32 (WriterHistory.get_seq_num_min s) 1) ∧
    0 <= SN.val (SN.sub_u32 (WriterHistory.get_seq_num_min s) 1) <= last_num s) as Hmin.
  { intros Hne. destruct (marks s Hh) as [(_ & Eu & _)|(_ & (Hw & _) & _ & Hv & Hle & _)]; [done|].
    split; [apply SN.sub_u32_wf; [done|range_unfold; lia]|].
    destruct (SN.sub_u32_val (WriterHistory.get_seq_num_min s) 1) as [-> _]; [apply SN.nonneg_val; [done|lia]|range_unfold; lia|lia|lia]. }
  case_bool_decide as Ed; cbv zeta.
  - eexists. split; [reflexivity|]. destruct (SN.eqb _ _) eqn:Eu; [by rewrite Hsv|].
    apply Hmin. intros F. apply SN.eqb_eq in F. congruence.
  - destruct (first_ack s p Hh) as (low & El & (Hw & Hv) & Hc); [unfold last_num in Htop; lia|done|done|].
    exists low. split; [done|]. destruct Hc as [->|[->|[Hne ->]]]; [done|by rewrite Hsv|by apply Hmin].
Qed.

Lemma start_spec s rp data :
  history_ok s → last_num s < 2 ^ 62 → idle (limit s) rp →
  ∃ p, start Guid.INTRAPROCESS_OFF s rp data false = Done ([], p) ∧ started s data p.
Proof.
  intros Hh Htop [Hch Hlow Hroom Hguid [Hloc Hds]]. unfold start.
  assert (∃ loc, ReaderLocator.start Guid.INTRAPROCESS_OFF (WriterHistory.getGuid (WriterHistory.mp_writer s)) (locator_info_ rp)
    (rd_guid data) (rd_unicast data) (rd_multicast data) (rd_expects_inline_qos data) false = (true, loc) ∧
    LocatorSelector.remote_guid (general_locator_info_ loc) = rd_guid data ∧ is_local_reader_ loc = false ∧
    datasharing_enabled_ loc = false) as (loc & -> & Eg & El & Eds).
  { unfold ReaderLocator.start. unfold guid in Hguid. rewrite Hguid. change (Guid.eqb Guid.c_Guid_Unknown Guid.c_Guid_Unknown) with true.
    assert (Guid.should_intraprocess_between Guid.INTRAPROCESS_OFF (WriterHistory.getGuid (WriterHistory.mp_writer s)) (rd_guid data) = false) as ->
      by (unfold Guid.should_intraprocess_between; repeat case_match; done).
    eexists. split; [reflexivity|]. split; [done|]. split; [done|]. exact Hds. }
  cbv zeta. set (p1 := mkProxy true _ _ _ _ _ _ _ _ _ _ _ _ _). destruct (start_low s p1 Hh Htop Hlow) as (low & E1 & Hlow').
  cbv zeta in E1. rewrite E1. cbn [mbind outcome_bind]. change (is_local_reader (with_timers _ _ _ _)) with (is_local_reader_ loc). rewrite El.
  eexists. split; [reflexivity|]. split; try done.
  unfold is_remote_and_reliable, is_local_reader, is_datasharing_reader. simpl. by rewrite El, Eds.
Qed.

(** The new reader has nothing to get from the history as it is. *)
Definition may_match s (data : ReaderProxyData) : Prop :=
  (Guid.wf (rd_guid data) ∧ rd_guid data ≠ Guid.c_Guid_Unknown ∧ rd_guid data ∉ guid <$> readers (wr s)) ∧
  RLV.size (matched_remote_readers_ (wr s)) < RLV.maximum (RLV.configuration_ (matched_remote_readers_ (wr s))) ∧
  attributes_ok (History.m_att (WriterHistory.hist s)) ∧
  (stored s = [] ∨ is_transient (rd_durability data) && is_transient (c_durability (cfg (wr s))) = false) ∧
  ∀ c, c ∈ stored s → ¬ wanted (rd_guid data) c.

Lemma started_filter s data (w : StatefulWriter E) p : started s data p → started s data (filter_reader w p).
Proof. intros [? ? ? ? ? ? ? ?]. by split. Qed.

Lemma started_good s data p :
  Guid.wf (rd_guid data) → last_num s < 2 ^ 62 → (∀ c, c ∈ stored s → ¬ wanted (rd_guid data) c) → started s data p → good_in s p.
Proof.
  intros Hg Htop Hno [Eg Erel Edur Ech [Hlw Hlv] Hrem Ht Hroom]. split.
  - split; [apply ok_empty; [done|done|lia]|congruence|done|done|lia|rewrite Ech; constructor|done].
  - intros c Hc Hwant. rewrite Eg in Hwant. by destruct (Hno c Hc).
  - rewrite Ech. constructor.
Qed.

(** [s1] is [s] with one more reader. *)
Record joined s (p : ReaderProxy) s1 : Prop := {
  j_hist : WriterHistory.hist s1 = WriterHistory.hist s;
  j_last : WriterHistory.m_lastCacheChangeSeqNum s1 = WriterHistory.m_lastCacheChangeSeqNum s;
  j_cfg : cfg (wr s1) = cfg (wr s);
  j_next : next_all_acked_notify_sequence_ (wr s1) = next_all_acked_notify_sequence_ (wr s);
  j_sent : messages s1 = messages s;
  j_readers : readers (wr s1) = readers (wr s) ++ [p];
  j_pool : pool_ok s → pool_ok s1
}.

Lemma winv_joined s data p s1 :
  winv s → may_match s data → started s data p → joined s p s1 → winv s1 ∧ steady wanted nobody s s1.
Proof.
  intros Hi ((Hg & _ & Hnew) & _ & _ & _ & Hno) Hst [Eh El Ec En Es Er Ep].
  assert (stored s1 = stored s ∧ last_num s1 = last_num s ∧ next_num s1 = next_num s ∧ limit s1 = limit s) as (E1 & E2 & E3 & E4)
    by (unfold stored, last_num, next_num, limit; by rewrite Eh, El, En).
  pose proof Hi as [Hh Ht Hf Hr Hd Hn Hs]. split.
  - split.
    + destruct s as [h last high w], s1 as [h1 last1 high1 w1]. unfold wr in *. simpl in *. subst h1 last1.
      pose proof (writer_ok (WriterHistory.mkWriterHistory h last high w) w1) as Hw. simpl in Hw. rewrite Ec in Hw.
      destruct (Hw eq_refl Hh). by constructor.
    + lia.
    + by rewrite Ec.
    + rewrite Er. apply Forall_app. unfold WriterFacts.good_in. rewrite E1, E2, E3, E4. split; [done|]. constructor; [|constructor].
      by apply (started_good s data).
    + rewrite Er, fmap_app. apply NoDup_app. split; [done|]. split; [|apply NoDup_singleton].
      intros g Hgin Hgp%list_elem_of_singleton. subst g. by rewrite (st_guid _ _ _ Hst) in Hgin.
    + by rewrite E2, E3, En.
    + by rewrite Es, E1, E2.
  - split; [| |lia|done|by rewrite Es|done]; rewrite ?E1.
    + intros p' c Hp' _ Hc Hw Hle. left. rewrite Er in Hp'. apply elem_of_app in Hp' as [Hp'| ->%list_elem_of_singleton].
      * by exists p'.
      * rewrite (st_guid _ _ _ Hst) in Hw. by destruct (Hno c Hc).
    + intros c Hc. by left.
Qed.

Lemma take_proxy_spec s now :
  pool_ok s → attributes_ok (History.m_att (WriterHistory.hist s)) →
  ends (take_proxy now s) (λ o s1, match o with
    | None => s1 = s
    | Some rp => idle (limit s) rp ∧
        ∃ pool, s1 = WriterHistory.with_writer s (with_readers (wr s) (matched_remote_readers_ (wr s)) pool) ∧
                Forall (idle (limit s)) (RLV.collection_ pool)
    end).
Proof.
  intros [Hw Hp] Ha. unfold take_proxy. rewrite (bind_step get_state _ _ s s) by done. rewrite (bind_step writer _ _ (wr s) s) by done.
  destruct (last (RLV.collection_ (matched_readers_pool_ (wr s)))) as [rp|] eqn:El.
  - eexists _, _. split; [reflexivity|]. apply last_Some in El as [l El]. rewrite El in Hp.
    apply Forall_app in Hp as [Hp Hrp]. rewrite Forall_singleton in Hrp. split; [done|]. eexists. split; [reflexivity|].
    unfold RLV.pop_back. cbn [RLV.collection_ RLV.with_items]. fold (wr s). rewrite El, length_app, Nat.add_sub. by rewrite take_app_length.
  - cbv zeta. destruct (_ <? _); apply ends_ret; [|done]. split; [by apply created_idle|].
    exists (matched_readers_pool_ (wr s)). split; [|done]. destruct s as [h l m w]. by destruct w.
Qed.

(** The gap over the whole history, for a reader that wants none of it. *)
Lemma history_gap s g :
  winv s → stored s ≠ [] → (∀ c, c ∈ stored s → ¬ wanted g c) →
  message_ok wanted (stored s) (last_num s)
    ([g], GAP (mkGap (WriterHistory.get_seq_num_min s) (BitmapRange.make (WriterHistory.next_sequence_number s)) (Some g))).
Proof.
  intros Hi Hne Hno. pose proof (v_history _ _ Hi) as Hh. pose proof (v_top _ _ Hi) as Htop.
  destruct (next_seq s Hh) as (Hnw & Hnv & _); [lia|].
  destruct (marks s Hh) as [(Enil & _)|(_ & (Hfw & _) & _ & Hfv & Hle & _)]; [done|].
  destruct (BitmapFacts.make_spec (WriterHistory.next_sequence_number s)) as ([Hinv _] & _ & _ & Hnone).
  { split; simpl; [done|unfold BitmapRange.NBITS; lia]. }
  split; simpl; [split; [done|lia]|lia|done|]. intros x [Hx|[]%Hnone]. simpl in Hx. split; [lia|].
  intros r c ->%list_elem_of_singleton Hc _. by apply Hno.
Qed.

Lemma greet_spec ndebug s i p :
  winv s → readers (wr s) !! i = Some p → (∀ c, c ∈ stored s → ¬ wanted (guid p) c) →
  (stored s = [] ∨ is_transient (durability_kind_ p) && is_transient (c_durability (cfg (wr s))) = false) →
  ends (greet_reader ndebug i s) (λ _ s', winv s' ∧ steady wanted nobody s s').
Proof.
  intros Hi Hp Hno Hdur. pose proof (v_history _ _ Hi) as Hh. pose proof (v_top _ _ Hi) as Htop. unfold greet_reader.
  rewrite (bind_step get_state _ _ s s) by done. rewrite (bind_step writer _ _ (wr s) s) by done.
  rewrite (bind_step _ _ _ _ _ (the_reader_at s i p Hp)). destruct (is_reliable_ p) eqn:Erel.
  - apply (ends_impl _ (λ _ s', acts s (readers (wr s)) s')).
    2: { intros o s' H'. split; [by apply (winv_same _ s)|by apply speak_steady]. }
    apply ends_speak; [done| |intros _ s1 Hi1 _; eapply ends_impl; [by apply heartbeat_talks|]; by intros o s2 [? _]].
    destruct (marks s Hh) as [(Enil & Eu & _)|(Hne & (Hfw & Ef) & (Hlw & El) & Hfv & Hle & _)].
    { rewrite Eu. apply ends_ret, acts_refl. }
    destruct Hdur as [?|Hdur]; [done|]. rewrite !SN.neqb_negb, Ef, El. cbn [negb].
    rewrite (bind_step _ _ s tt s) by (unfold lift_outcome, assert_; by destruct ndebug).
    rewrite (bind_step _ _ s tt s).
    2: { unfold lift_outcome, assert_. rewrite SN.leb_val, (proj2 (Z.leb_le _ _)) by (done || lia). by destruct ndebug. }
    rewrite Hdur. apply tried_speaks, ends_then; [done|by apply send_said, history_gap|].
    intros _ s1 Hi1 H1. apply ends_speak_said; [done|by apply speaks_note|]. intros; apply ends_ret, said_ret.
  - destruct (next_seq s Hh) as (Hnw & Hnv & _); [lia|]. destruct (ok_last _ Hh) as [_ Hl0]. fold (last_num s) in Hl0.
    eapply ends_bind; [apply (acknowledge_acts wanted s i p); [done|done|done|lia|left]|].
    { intros Ed. rewrite Ed in Hnv. change (SN.val SN.default) with 0 in Hnv. lia. }
    intros [] s' (p' & H' & Hg & Hsame & _). apply ends_ret. split; [eapply winv_update; [exact Hi|exact Hp|by apply same_guid|exact Hg|exact H']|].
    eapply update_steady; [exact Hp|exact Hsame|intros ?; congruence|exact H'].
Qed.

Lemma info_acts b s : ends (update_reader_info b s) (λ _ s', acts s (readers (wr s)) s').
Proof.
  unfold update_reader_info, select_all_readers_nts. apply (ends_bind _ _ _ (λ _ s1, acts s (readers (wr s)) s1)).
  - rewrite (bind_step writer _ _ (wr s) s) by done. eapply ends_bind; [apply (select_enabled wanted)|].
    intros [all n] s1 [H1 _]. by apply ends_ret.
  - intros _ s1 H1. eexists _, _. split; [reflexivity|]. apply (acts_same _ _ _ _ H1). by apply acts_writer.
Qed.

Lemma tell_acts e s : ends (tell e s) (λ _ s', acts s (readers (wr s)) s').
Proof.
  unfold tell. rewrite (bind_step writer _ _ (wr s) s) by done.
  destruct (has_listener _); [|apply ends_ret, acts_refl]. eexists _, _. split; [reflexivity|]. by apply acts_writer.
Qed.

Lemma not_matched s g :
  winv s → Guid.wf g → g ∉ guid <$> readers (wr s) → list_find (λ p, Guid.eqb (guid p) g = true) (readers (wr s)) = None.
Proof.
  intros Hi Hg Hno. apply list_find_None, Forall_forall. intros p Hp Eg. pose proof (v_readers _ _ Hi) as Hr.
  rewrite Forall_forall in Hr. pose proof (t_guid _ _ _ _ (g_tracks _ _ _ _ _ _ (Hr p Hp))) as Hw.
  apply Guid.guid_eqb_eq in Eg; [|done|done]. subst g. apply Hno. by apply list_elem_of_fmap_2.
Qed.

Lemma unknown_guid_wf : Guid.wf Guid.c_Guid_Unknown.
Proof. by repeat (split || constructor). Qed.

(** A reader joins, unless the proxies are used up. *)
Lemma matched_add_spec ndebug s data now :
  winv s → pool_ok s → may_match s data →
  ends (matched_reader_add ndebug data now s) (λ b s', winv s' ∧ steady wanted nobody s s' ∧ (b = Some false → s' = s)).
Proof.
  intros Hi Hpool Hm. pose proof Hm as ((Hg & Hu & Hnew) & Hroom & Hatt & Hdur & Hno). unfold matched_reader_add. cbv zeta.
  assert (Guid.eqb (rd_guid data) Guid.c_Guid_Unknown = false) as ->.
  { apply not_true_is_false. intros Eg. apply Hu. apply Guid.guid_eqb_eq in Eg; [done|done|]. apply unknown_guid_wf. }
  rewrite (bind_step writer _ _ (wr s) s) by done. change (StatefulWriter.readers (wr s)) with (readers (wr s)). rewrite (not_matched s _ Hi Hg Hnew).
  eapply ends_bind; [by apply take_proxy_spec|]. intros o s1 Ho. destruct o as [rp|].
  2: { subst s1. apply ends_ret. split; [done|]. split; [apply speak_steady, acts_refl|done]. }
  destruct Ho as (Hidle & pool & -> & Hpool'). set (s1 := WriterHistory.with_writer s _).
  rewrite (bind_step get_state _ _ s1 s1) by done.
  assert (history_ok s1) as Hh1 by (apply writer_ok; [done|apply Hi]).
  destruct (start_spec s1 rp data Hh1 (v_top _ _ Hi) Hidle) as (p & Estart & Hst).
  rewrite (bind_step _ _ s1 ([], p) s1) by (unfold lift_outcome; by rewrite Estart).
  rewrite (bind_step (modify _) _ _ tt (WriterHistory.with_writer s1 (emit (wr s1) []))) by done. set (s2 := WriterHistory.with_writer s1 _).
  rewrite (bind_step writer _ _ (wr s2) s2) by done. cbv zeta.
  destruct (RLV.push_back_room (matched_remote_readers_ (wr s)) (filter_reader (wr s2) p)) as (_ & cap & Epush & Hcap & Hcap2);
    [apply Hpool|done|].
  rewrite (bind_step (modify _) _ _ tt (WriterHistory.with_writer s2 (with_readers (wr s2)
    (RLV.push_back (matched_remote_readers_ (wr s2)) (filter_reader (wr s2) p)).2 (matched_readers_pool_ (wr s2))))) by done.
  set (s3 := WriterHistory.with_writer s2 _). change (matched_remote_readers_ (wr s2)) with (matched_remote_readers_ (wr s)) in s3.
  set (q := filter_reader (wr s2) p) in *. assert (started s data q) as Hq.
  { apply started_filter. by destruct Hst. }
  assert (joined s q s3) as Hj.
  { split; try done; [subst s3; unfold readers; simpl; by rewrite Epush|]. intros [(Hc & Hs & Hmx) _]. split.
    - subst s3. simpl. rewrite Epush. simpl. split; [done|]. simpl. unfold RLV.size in *. simpl. rewrite length_app. simpl. lia.
    - done. }
  destruct (winv_joined s data q s3 Hi Hm Hq Hj) as [Hi3 Hst3].
  eapply ends_bind; [apply info_acts|]. intros [] s4 H4. pose proof (winv_same _ _ _ Hi3 H4) as Hi4.
  assert (readers (wr s4) !! length (readers (wr s)) = Some q) as Hlast.
  { rewrite (acts_readers _ _ _ _ H4), (j_readers _ _ _ Hj). by rewrite lookup_app_r, Nat.sub_diag by lia. }
  assert (stored s4 = stored s) as Es4 by (rewrite (proj1 (acts_stored _ _ _ _ H4)); unfold stored; by rewrite (j_hist _ _ _ Hj)).
  unfold then_. eapply ends_bind; [apply (greet_spec ndebug s4 _ q); [done|done| |]|].
  - rewrite Es4, (st_guid _ _ _ Hq). done.
  - rewrite Es4, (st_durability _ _ _ Hq), (a_cfg _ _ _ _ H4), (j_cfg _ _ _ Hj). done.
  - intros o s5 [Hi5 Hst5]. assert (steady wanted nobody s s5) as Hst'.
    { apply (steady_trans _ _ _ s4); [done| |done]. apply (steady_trans _ _ _ s3); [done|done|by apply speak_steady]. }
    destruct o as [[]|]; [|by apply ends_ret]. eapply ends_bind; [apply tell_acts|]. intros [] s6 H6. apply ends_ret.
    pose proof (winv_same _ _ _ Hi5 H6) as Hi6. split; [done|]. split; [|done].
    apply (steady_trans _ _ _ s5); [done|done|by apply speak_steady].
Qed.

(** ** A reader leaves *)

(** [s1] is [s] with the readers [rs] and other proxies in the pool. *)
Lemma winv_fewer s rs pool :
  winv s → rs `sublist_of` readers (wr s) → (pool_ok s → Forall (idle (limit s)) (RLV.collection_ pool)) →
  let s1 := WriterHistory.with_writer s (with_readers (wr s) (RLV.with_items (matched_remote_readers_ (wr s)) rs) pool) in
  winv s1 ∧ steady wanted nobody s s1.
Proof.
  intros Hi Hsub Hpool s1. pose proof Hi as [Hh Ht Hf Hr Hd Hn Hs].
  assert (∀ p, p ∈ rs → p ∈ readers (wr s)) as Hin by (intros p Hp; by eapply elem_of_sublist). split.
  - split; try done.
    + by apply writer_ok.
    + rewrite Forall_forall in Hr |- *. intros p Hp. by apply Hr, Hin.
    + eapply sublist_NoDup; [exact Hd|]. by apply fmap_sublist.
  - split; [| |done|done|done|].
    + intros p c Hp Hrel Hc Hw Hle. left. exists p. split; [by apply Hin|done].
    + intros c Hc. by left.
    + intros Hp. split; [|by apply Hpool]. destruct Hp as [(Hc & Hsz & Hmx) _]. split; [done|]. split; [|done].
      unfold RLV.size in *. simpl. apply sublist_length in Hsub. unfold readers in Hsub. lia.
Qed.

Lemma pool_push limit (v : RLV.t ReaderProxy) p :
  Forall (idle limit) (RLV.collection_ v) → idle limit p → Forall (idle limit) (RLV.collection_ (RLV.push_back v p).2).
Proof.
  intros Hv Hp. unfold RLV.push_back, RLV.emplace_back, RLV.ensure_capacity. repeat case_match; simplify_eq; simpl; try done.
  all: apply Forall_app; split; [done|by constructor].
Qed.

(** A reader leaves: its proxy goes back to the pool, and what only waited for it counts
    as acknowledged. *)
Lemma matched_remove_spec s g :
  winv s → ends (matched_reader_remove g s) (λ b s', winv s' ∧ steady wanted nobody s s').
Proof.
  intros Hi. unfold matched_reader_remove. rewrite (bind_step writer _ _ (wr s) s) by done. cbv zeta.
  change (StatefulWriter.readers (wr s)) with (readers (wr s)).
  set (found := list_find _ _). assert (∀ i p, found = Some (i, p) → readers (wr s) !! i = Some p) as Hfound.
  { intros i p Ef. by apply list_find_Some in Ef as (? & _). }
  apply (ends_bind _ _ _ (λ _ s1, winv s1 ∧ steady wanted nobody s s1 ∧ limit s1 = limit s)).
  { destruct found as [[i p]|]; [|apply ends_ret; split; [done|]; split; [apply speak_steady, acts_refl|done]].
    eexists _, _. split; [reflexivity|]. destruct (winv_fewer s (delete i (readers (wr s))) (matched_readers_pool_ (wr s)) Hi) as [? ?];
      [apply sublist_delete|by intros [_ ?]|]. done. }
  intros [] s1 (Hi1 & Hst1 & El1). eapply ends_bind; [apply info_acts|]. intros [] s2 H2. pose proof (winv_same _ _ _ Hi1 H2) as Hi2.
  rewrite (bind_step writer _ _ (wr s2) s2) by done.
  apply (ends_bind _ _ _ (λ _ s3, acts s2 (readers (wr s2)) s3)).
  { destruct (RLV.empty _); [by apply speaks_note|apply ends_ret, acts_refl]. }
  intros [] s3 H3. pose proof (winv_same _ _ _ Hi2 H3) as Hi3.
  assert (steady wanted nobody s s3) as Hst3.
  { apply (steady_trans _ _ _ s2); [done| |by apply speak_steady]. apply (steady_trans _ _ _ s1); [done|done|by apply speak_steady]. }
  destruct found as [[i p]|]; [|by apply ends_ret]. specialize (Hfound i p eq_refl).
  assert (limit s3 = limit s) as El3.
  { destruct (acts_stored _ _ _ _ H2) as (_ & _ & _ & E2). destruct (acts_stored _ _ _ _ H3) as (_ & _ & _ & E3). congruence. }
  assert (idle (limit s3) (stop p).2) as Hidle.
  { rewrite El3. apply stopped_idle, (g_tracks _ _ _ _ _ _ (good_at _ _ _ _ Hi Hfound)). }
  destruct (stop p) as [effects p'].
  rewrite (bind_step (modify _) _ _ tt (WriterHistory.with_writer s3 (emit (wr s3) (ProxyEffect g <$> effects)))) by done.
  set (s4 := WriterHistory.with_writer s3 _).
  assert (acts s3 (readers (wr s3)) s4) as H4 by by apply acts_writer. pose proof (winv_same _ _ _ Hi3 H4) as Hi4.
  rewrite (bind_step (modify _) _ _ tt (WriterHistory.with_writer s4 (with_readers (wr s4) (matched_remote_readers_ (wr s4))
    (RLV.push_back (matched_readers_pool_ (wr s4)) p').2))) by done.
  destruct (winv_fewer s4 (readers (wr s4)) (RLV.push_back (matched_readers_pool_ (wr s4)) p').2 Hi4) as [Hi5 Hst5];
    [done|intros [_ Hp]; by apply pool_push|].
  replace (RLV.with_items (matched_remote_readers_ (wr s4)) (readers (wr s4))) with (matched_remote_readers_ (wr s4)) in Hi5, Hst5
    by (unfold readers; by destruct (matched_remote_readers_ (wr s4))).
  set (s5 := WriterHistory.with_writer s4 _) in *.
  eapply ends_bind; [by apply (check_acked_spec wanted)|]. intros [] s6 [Hi6 Hsh]. eapply ends_bind; [apply tell_acts|].
  intros [] s7 H7. apply ends_ret. split; [by apply (winv_same _ s6)|].
  apply (steady_trans _ _ _ s6); [done| |by apply speak_steady]. apply (steady_trans _ _ _ s5); [done| |by apply shrinks_steady, settles_shrinks].
  apply (steady_trans _ _ _ s4); [done| |done]. apply (steady_trans _ _ _ s3); [done|done|by apply speak_steady].
Qed.

(** ** Construction *)

Definition fresh (c : Config) (allocation : RLV.config) (us : Z) (att : History.HistoryAttributes) (e : E) : Sys E :=
  WriterHistory.mkWriterHistory (History.mkHistory att [] false true) SN.default 0 (create c allocation us e).

Lemma winv_fresh c allocation us att e :
  Guid.wf (c_guid c) → RLV.config_wf allocation → attributes_ok att → sent e = [] →
  (∀ g x, wanted g x → relevant c g x = true) →
  winv (fresh c allocation us att e) ∧ pool_ok (fresh c allocation us att e).
Proof.
  intros Hg Ha (Hi & Hm & Hle) Hs Hw. split; [|split; [by apply RLV.make_wf|constructor]]. split; try done.
  - split; try done; simpl; [constructor|split; [range_unfold; lia|lia]|lia|]. split; [done|]. intros [? ?]. lia.
  - constructor.
  - change (messages (fresh c allocation us att e)) with (sent e). rewrite Hs. constructor.
Qed.

End matching.
End WriterMatching.
