(* ===== verification/StatefulWriterRuns.v ===== *)
(** * Runs of a stateful writer

    The operations of a stateful writer as steps, in any order the network, the
    application and the timers bring about, and what holds after each of them. *)

From S2P Require Import Prelude.
From S2P Require Import SeqNum.
From S2P Require Import Bitmap.
From S2P Require Import BitmapFacts.
From S2P Require Import Containers.
From S2P Require Import Guid.
From S2P Require Import CacheChange.
From S2P Require Import Pools.
From S2P Require Import GapBuilder.
From S2P Require Import History.
From S2P Require Import HistoryFacts.
From S2P Require Import Locator.
From S2P Require Import ReaderProxy.
From S2P Require Import ReaderProxyFacts.
From S2P Require Import StatefulWriter.
From S2P Require Import StatefulWriterFacts.
From S2P Require Import StatefulWriterOps.
From S2P Require Import StatefulWriterMatching.

Module WriterRuns.
Import CacheChange ChangeForReader ReaderLocator ReaderProxy.
Import HistorySearch WriterHistoryFacts ProxyFacts.
Import StatefulWriter WriterFacts WriterOps WriterMatching.

(** What happens to a writer. *)
Inductive Op :=
  | Publish (change : CacheChange_t) (wparams : WriteParams) (now : Time_t)
  | Remove (seq : SN.SequenceNumber_t)
  | Deliver (general : bool) (fuel : nat) (change : CacheChange_t)
  | AckNack (writer_guid reader_guid : Guid.GUID_t) (count : Z) (set : SequenceNumberSet_t) (final : bool)
  | NackFrag (writer_guid reader_guid : Guid.GUID_t) (count : Z) (seq : SN.SequenceNumber_t) (set : FragmentNumberSet_t)
  | NackResponse
  | NackSupression (reader_guid : Guid.GUID_t)
  | PeriodicHeartbeat (final liveliness : bool)
  | HeartbeatToAll
  | Match (data : ReaderProxyData) (now : Z)
  | Unmatch (reader_guid : Guid.GUID_t).

Section runs.
Context {E : Type} `{!WriterEnv E} `{!WriterEnvLaws E}.
Context (ndebug : bool) (wanted : Guid.GUID_t → CacheChange_t → Prop).
Implicit Types s : Sys E.

Definition perform (op : Op) : stateful (Sys E) unit :=
  match op with
  | Publish c wparams now => add_change_ ndebug c wparams now;; mret tt
  | Remove seq => remove_change seq;; mret tt
  | Deliver general fuel c => deliver_sample_nts fuel ndebug general c;; mret tt
  | AckNack writer_guid reader_guid count set final => process_acknack ndebug writer_guid reader_guid count set final;; mret tt
  | NackFrag writer_guid reader_guid count seq set => process_nack_frag writer_guid reader_guid count seq set;; mret tt
  | NackResponse => perform_nack_response ndebug
  | NackSupression reader_guid => perform_nack_supression ndebug reader_guid
  | PeriodicHeartbeat final liveliness => send_periodic_heartbeat ndebug final liveliness;; mret tt
  | HeartbeatToAll => tried (send_heartbeat_to_all_readers ndebug)
  | Match data now => matched_reader_add ndebug data now;; mret tt
  | Unmatch reader_guid => matched_reader_remove reader_guid;; mret tt
  end.

(** The steps that are considered.  Numbers stay small.  Samples that are delivered are in
    the history and not split into fragments.  An acknowledgement names only published
    numbers, and one with base zero, which a reader sends first, comes from a volatile reader
    or while nothing of the history counts as acknowledged by its sender.  A reader joins when the history is empty or when it does not get old samples,
    so that it wants nothing of the history. *)
Definition admissible s (op : Op) : Prop :=
  match op with
  | Publish c _ _ => Guid.wf (writerGUID c) ∧ last_num s + 1 < 2 ^ 62 ∧ Z.of_nat (length (stored s)) + 1 < 2 ^ 31
  | Remove seq => SN.wf seq
  | Deliver _ fuel c => (0 < fuel)%nat ∧ c ∈ stored s ∧ whole c
  | AckNack _ g _ set _ => ∀ p, p ∈ readers (wr s) → Guid.eqb (guid p) g = true → valid_acknack s p set
  | NackFrag _ _ _ seq _ => SN.wf seq ∧ ∀ c, c ∈ stored s → number c = SN.val seq → ¬ whole c
  | Match data _ => may_match wanted s data
  | _ => True
  end.

(** The numbers a step acknowledges for a reader. *)
Definition acks (op : Op) (g : Guid.GUID_t) (n : Z) : Prop :=
  match op with AckNack _ r _ set _ => below r set g n | _ => False end.

Definition ready s : Prop := winv wanted s ∧ pool_ok s.

Lemma perform_spec op s :
  ready s → admissible s op → ends (perform op s) (λ _ s', ready s' ∧ steady wanted (acks op) s s').
Proof.
  intros [Hi Hp] Had. apply (ends_impl _ (λ _ s', winv wanted s' ∧ steady wanted (acks op) s s')).
  2: { intros [] s' [Hi' Hst]. split; [|done]. split; [done|by apply (sd_pool _ _ _ _ Hst)]. }
  destruct op; simpl in Had |- *.
  - destruct Had as (Hg & Htop & Hlen). eapply ends_bind; [by apply (publish_spec wanted)|].
    intros [o b] s' (Hi' & _ & Hb). apply ends_ret. split; [done|]. destruct b; [|subst; apply speak_steady, acts_refl].
    destruct Hb as (c' & s2 & Hi2 & Hst & _ & _ & _ & _ & _ & _ & Hsh & _).
    eapply steady_trans; [exact Hi2|exact Hst|by apply shrinks_steady, settles_shrinks].
  - eapply ends_bind; [by apply (drop_change_spec wanted)|]. intros b s' (Hi' & Hsh & _). apply ends_ret.
    split; [done|by apply shrinks_steady].
  - destruct Had as (Hf & Hc & Hw). destruct fuel as [|fuel]; [lia|].
    eapply ends_bind; [by apply (deliver_sample_spec wanted)|]. intros code s' (Hi' & s1 & Hi1 & Hr & Hsh). apply ends_ret.
    split; [done|]. eapply steady_trans; [exact Hi1|by eapply rounded_winv|by apply shrinks_steady, settles_shrinks].
  - eapply ends_bind; [by apply (process_acknack_spec wanted)|]. intros b s' H. by apply ends_ret.
  - destruct Had as [Hw Hf]. eapply ends_bind; [by apply (nack_frag_spec wanted)|]. intros b s' H. by apply ends_ret.
  - eapply ends_impl; [by apply (nack_response_spec wanted)|]. intros [] s' (H1 & H2 & _). done.
  - eapply ends_impl; [by apply (nack_supression_spec wanted)|]. intros [] s' (H1 & H2 & _). done.
  - eapply ends_bind; [by apply (periodic_speaks wanted)|]. intros b s' H. apply ends_ret.
    split; [by eapply winv_same|by apply speak_steady].
  - eapply ends_impl; [by apply (tried_speaks wanted), (heartbeat_to_all_talks wanted)|]. intros [] s' H.
    split; [by eapply winv_same|by apply speak_steady].
  - eapply ends_bind; [by apply (matched_add_spec wanted)|]. intros b s' (H1 & H2 & _). by apply ends_ret.
  - eapply ends_bind; [by apply (matched_remove_spec wanted)|]. intros b s' H. by apply ends_ret.
Qed.

Fixpoint perform_all (l : list Op) : stateful (Sys E) unit :=
  match l with [] => mret tt | op :: l => perform op;; perform_all l end.

(** Each step is admissible in the state it is done in. *)
Fixpoint admissible_all s (l : list Op) : Prop :=
  match l with
  | [] => True
  | op :: l => admissible s op ∧ ∀ s1, perform op s = Done (tt, s1) → admissible_all s1 l
  end.

Lemma admissible_step s op s1 l :
  admissible s op → perform op s = Done (tt, s1) → admissible_all s1 l → admissible_all s (op :: l).
Proof. intros Had Ep Hl. split; [done|]. intros s1' Ep'. rewrite Ep in Ep'. by simplify_eq. Qed.

Definition acked_in (l : list Op) (g : Guid.GUID_t) (n : Z) : Prop := Exists (λ op, acks op g n) l.

Lemma run_spec l s :
  ready s → admissible_all s l → ends (perform_all l s) (λ _ s', ready s' ∧ steady wanted (acked_in l) s s').
Proof.
  revert s. induction l as [|op l IH]; intros s Hi Had; cbn [perform_all].
  - apply ends_ret. split; [done|]. apply speak_steady, acts_refl.
  - destruct Had as [Had Hrest]. destruct (perform_spec op s Hi Had) as ([] & s1 & Ep & Hi1 & Hst).
    rewrite (bind_step _ _ _ _ _ Ep). eapply ends_impl; [by apply IH; [|apply Hrest]|]. intros [] s' [Hi' Hst']. split; [done|].
    apply (steady_trans _ _ _ s1); [apply Hi1| |].
    + eapply steady_impl; [exact Hst|]. intros g n H. by left.
    + eapply steady_impl; [exact Hst'|]. intros g n H. by right.
Qed.

(** A writer as it is constructed, before anything was sent.  What a reader wants has to
    be relevant for it. *)
Definition constructed s : Prop :=
  ∃ c allocation us att e, s = fresh c allocation us att e ∧ Guid.wf (c_guid c) ∧ RLV.config_wf allocation ∧
    attributes_ok att ∧ sent e = [] ∧ ∀ g x, wanted g x → relevant c g x = true.

Lemma constructed_ready s : constructed s → ready s.
Proof. intros (c & a & us & att & e & -> & Hg & Ha & Hatt & Hs & Hw). by apply (winv_fresh wanted). Qed.

(** The states a writer gets into. *)
Definition reachable s : Prop :=
  ∃ s0 l, constructed s0 ∧ admissible_all s0 l ∧ perform_all l s0 = Done (tt, s).

Lemma reachable_ready s : reachable s → ready s.
Proof.
  intros (s0 & l & Hc & Hadm & Ep). destruct (run_spec l s0 (constructed_ready s0 Hc) Hadm) as ([] & s' & Ep' & Hr & _).
  rewrite Ep in Ep'. by simplify_eq.
Qed.

(** Nothing is acknowledged in a writer without readers. *)
Lemma acked_since s0 l s p c :
  constructed s0 → ready s → steady wanted (acked_in l) s0 s → p ∈ readers (wr s) → is_reliable_ p = true → c ∈ stored s →
  wanted (guid p) c → number c ∉ num <$> changes p → acked_in l (guid p) (number c).
Proof.
  intros (c0 & a & us & att & e & -> & _) [Hi _] Hst Hp Hrel Hc Hw Hno.
  destruct (sd_low _ _ _ _ Hst p c Hp Hrel Hc Hw) as [(q & Hq & _)|]; [|by apply not_elem_of_nil in Hq|done].
  destruct (Z.le_gt_cases (number c) (SN.val (changes_low_mark_ p))) as [|Hlt]; [done|]. destruct Hno.
  pose proof (v_readers _ _ Hi) as Hr. rewrite Forall_forall in Hr. apply (g_covers _ _ _ _ _ _ (Hr p Hp)); [done|done|lia].
Qed.

(** [is_acked_by_all] tells whether no proxy waits for the change. *)
Lemma acked_by_all_spec s c :
  winv wanted s → c ∈ stored s → ∃ b, is_acked_by_all ndebug (sequenceNumber c) s = Done (b, s) ∧
    (b = true ↔ ∀ p, p ∈ readers (wr s) → number c ∉ num <$> changes p).
Proof.
  intros Hi Hc. pose proof (v_history _ _ Hi) as Hh. destruct (number_range wanted s c Hi Hc) as [Hw Hr].
  destruct (next_seq s Hh) as (Hnw & Hnv & _); [pose proof (v_top _ _ Hi); lia|]. destruct (v_next _ _ Hi) as [Hxw Hx].
  pose proof (v_readers _ _ Hi) as Hg. rewrite Forall_forall in Hg. unfold is_acked_by_all.
  rewrite (bind_step get_state _ _ s s) by done.
  rewrite (bind_step _ _ s tt s).
  2: { unfold lift_outcome, assert_. rewrite SN.gtb_val by done. fold (number c). rewrite (proj2 (Z.ltb_lt _ _)) by lia. by destruct ndebug. }
  rewrite (bind_step writer _ _ (wr s) s) by done. rewrite SN.ltb_val by done. fold (number c) (next_num s).
  destruct (Z.ltb_spec (number c) (next_num s)) as [Hlt|Hge].
  - exists true. split; [done|]. split; [|done]. intros _ p Hp (d & Ed & Hd)%list_elem_of_fmap.
    pose proof (g_next _ _ _ _ _ _ (Hg p Hp)) as Hn. rewrite Forall_forall in Hn. specialize (Hn d Hd). lia.
  - rewrite (bind_step _ _ s (existsb (λ p, negb (acked p (number c))) (readers (wr s))) s).
    2: { apply for_matched_search. intros i p Hp. unfold change_is_acked_by.
         rewrite (bind_step _ _ s (acked p (number c)) s); [done|]. rewrite (bind_step _ _ _ _ _ (the_reader_at s i p Hp)).
         unfold lift_outcome. by rewrite (change_is_acked_spec p) by (done || apply (g_tracks _ _ _ _ _ _ (good_at _ _ _ _ Hi Hp))). }
    eexists. split; [reflexivity|]. rewrite negb_true_iff, <-not_true_iff_false, existsb_exists. split.
    + intros Hno p Hp. apply (acked_settled wanted s); [by apply Hg|]. destruct (acked p (number c)) eqn:Ea; [done|].
      destruct Hno. exists p. by rewrite <-list_elem_of_In, Ea.
    + intros Hall (p & Hp%list_elem_of_In & Ha). apply negb_true_iff in Ha.
      rewrite (proj2 (acked_settled wanted s p (number c) (Hg p Hp))) in Ha by by apply Hall. done.
Qed.


(** A change counts as acknowledged by all exactly when no matched reader's proxy waits
    for it, and then every reliable reader that is matched and wants the change has sent an
    acknowledgement with a base above its number. *)
Theorem acked_by_all_sound s0 l (Hstart : constructed s0) (Hadm : admissible_all s0 l) :
  ends (perform_all l s0) (λ _ s, ∀ c, c ∈ stored s →
    ∃ b, is_acked_by_all ndebug (sequenceNumber c) s = Done (b, s) ∧
      (b = true ↔ ∀ p, p ∈ readers (wr s) → number c ∉ num <$> changes p) ∧
      (b = true → ∀ p, p ∈ readers (wr s) → is_reliable_ p = true → wanted (guid p) c → acked_in l (guid p) (number c))).
Proof.
  eapply ends_impl; [apply run_spec; [by apply constructed_ready|done]|]. intros [] s [Hr Hst] c Hc.
  destruct (acked_by_all_spec s c (proj1 Hr) Hc) as (b & Eb & Hb). exists b. split; [done|]. split; [done|].
  intros Ht p Hp Hrel Hw. eapply acked_since; [exact Hstart|exact Hr|exact Hst|done..|]. by apply Hb.
Qed.

(** An acknowledgement with a new count that names nothing unpublished is taken. *)
Lemma acknack_taken s i p count (set : SequenceNumberSet_t) final :
  winv wanted s → readers (wr s) !! i = Some p → BitmapFacts.exact set → valid_acknack s p set →
  next_expected_acknack_count_ p <= count →
  ends (process_acknack ndebug (c_guid (cfg (wr s))) (guid p) count set final s) (λ b s', b = true ∧
    ∃ s1 p', acts wanted s (<[i := p']> (readers (wr s))) s1 ∧ acked_by (stored s) set p p' ∧ settles s1 s').
Proof.
  intros Hi Hp Hset Hv Hcount. pose proof (v_history _ _ Hi) as Hh. unfold process_acknack.
  rewrite (bind_step get_state _ _ s s) by done. rewrite (bind_step writer _ _ (wr s) s) by done.
  assert (Guid.eqb (WriterHistory.getGuid (wr s)) (c_guid (cfg (wr s))) = true) as ->
    by (apply Guid.guid_eqb_eq; [apply Hh|apply Hh|done]).
  cbn [negb]. cbv zeta. destruct (next_seq s Hh) as (Hnw & Hnv & _); [pose proof (v_top _ _ Hi); lia|].
  assert (SN.leb (if BitmapRange.empty set then BitmapRange.base set else BitmapRange.max set)
    (WriterHistory.next_sequence_number s) = true) as ->.
  { destruct Hv as [Hinv [Hbw Hb] Hmax _]. destruct (BitmapRange.empty set) eqn:Eem.
    - rewrite SN.leb_val by done. apply Z.leb_le. lia.
    - destruct (BitmapFacts.max_spec set Hset Eem) as [Hm _]. apply Hmax in Hm. pose proof (BitmapFacts.inv_num _ Hinv) as Hn.
      unfold BitmapRange.empty in Eem. apply Z.eqb_neq in Eem. destruct (BitmapFacts.max_val set Hinv) as [Hw _]; [lia|].
      rewrite SN.leb_val by done. apply Z.leb_le. change (SN.val (BitmapRange.max set) <= last_num s) in Hm. lia. }
  set (Q s' := ∃ s1 p', acts wanted s (<[i := p']> (readers (wr s))) s1 ∧ acked_by (stored s) set p p' ∧ settles s1 s').
  apply (ends_bind _ _ _ (λ _ s', Q s')); [|intros _ s' HQ; by apply ends_ret].
  apply (ends_bind _ _ _ (λ _ s', Q s')); [|intros _ s' HQ; by apply ends_ret].
  pose proof (t_guid _ _ _ _ (g_tracks _ _ _ _ _ _ (good_at _ _ _ _ Hi Hp))) as Hgw.
  apply (for_reader_ends s (guid p) _ Q).
  - intros j q Hq Eg.
    assert (j = i) as -> by (apply (same_index wanted s j i q p (guid p)); (done || by apply Guid.guid_eqb_eq)).
    simplify_eq. eapply ends_impl; [by apply (fresh_acknack_spec wanted ndebug s i)|].
    intros b s' (-> & _ & s1 & p' & _ & H1 & Hab & Hsh). split; [done|]. by exists s1, p'.
  - intros Hno. specialize (Hno p (list_elem_of_lookup_2 _ _ _ Hp)). rewrite (proj2 (Guid.guid_eqb_eq _ _ Hgw Hgw) eq_refl) in Hno. done.
Qed.

(** C12: an acknowledgement that a matched reader sends with a new count and that names
    only published numbers is taken; one with base zero, which a reader sends first, has to
    come from a volatile reader or while nothing of the history counts as acknowledged by
    the reader.  In the proxy of this reader everything below the base counts as acknowledged
    and the requested changes that were sent are marked to be sent again, and every other
    proxy is as before.  Base zero acknowledges nothing that is in the history.  Nothing leaves the history but changes that every reader has acknowledged,
    and nothing at all unless a listener takes it out. *)
Theorem acknack_processed s i p count (set : SequenceNumberSet_t) final
    (Hs : reachable s) (Hp : readers (wr s) !! i = Some p) (Hset : BitmapFacts.exact set) (Hv : valid_acknack s p set)
    (Hcount : next_expected_acknack_count_ p <= count) :
  ends (process_acknack ndebug (c_guid (cfg (wr s))) (guid p) count set final s) (λ b s', b = true ∧
    (∃ p', acked_by (stored s) set p p' ∧ readers (wr s') = <[i := p']> (readers (wr s))) ∧
    last_num s' = last_num s ∧ sublist (stored s') (stored s) ∧
    (∀ c, c ∈ stored s → c ∈ stored s' ∨ Forall (λ q, number c <= SN.val (changes_low_mark_ q)) (readers (wr s'))) ∧
    (has_listener (cfg (wr s)) = false ∨ takes_nothing (E := E) → stored s' = stored s)).
Proof.
  eapply ends_impl; [apply acknack_taken; [apply (reachable_ready s Hs)|done..]|].
  intros b s' (-> & s1 & p' & H1 & Hab & [[Hsh Hr Hgone] Hq]). split; [done|].
  pose proof (acts_stored _ _ _ _ H1) as (Es & El & _). pose proof (acts_readers _ _ _ _ H1) as Er.
  rewrite Hr. split; [by exists p'|]. rewrite <-Es. split; [by rewrite (sh_last _ _ Hsh)|]. split; [apply Hsh|]. split; [done|].
  intros Ht. apply Hq. by rewrite (a_cfg _ _ _ _ H1).
Qed.


(** C11: when the message group takes every submessage and the transports reach the readers,
    the delivery of a change that is not split sends, to every reader it is due for, a data
    submessage with it.  The proxies of reliable readers then wait for the acknowledgement,
    those of best-effort readers count it as acknowledged. *)
Theorem sample_delivered general fuel s c (Hs : reachable s) (Hc : c ∈ stored s) (Hw : whole c)
    (Hgroup : willing (E := E)) (Hreach : m_separateSendingEnabled (cfg (wr s)) = true ∨ reaches (E := E)) :
  ends (deliver_sample_nts (S fuel) ndebug general c s) (λ code s', code = Some DELIVERED ∧
    (∀ p, p ∈ readers (wr s) → is_unsent c p = true → ∃ d q ms, guid p ∈ d ∧ messages s' = messages s ++ ms ∧ (d, DATA c q) ∈ ms) ∧
    Forall2 (λ p p', if is_unsent c p then was_sent wanted s c (marked c p) p' else p' = marked c p)
      (readers (wr s)) (readers (wr s'))).
Proof.
  apply reachable_ready in Hs as [Hi _]. eapply ends_impl; [by apply (deliver_sample_spec wanted)|].
  intros code s' (_ & s1 & _ & (rs & Ha & _ & Hwill & Hdel) & [[Hsh Hr _] _]). specialize (Hwill Hgroup). split; [done|].
  destruct (Hdel Hwill Hreach) as [HR HD]. split.
  - intros p Hp Hu. destruct (HD p Hp Hu) as (d & q & Hd & ms & Em & Hm). destruct (sh_sent _ _ Hsh) as [ms' Em'].
    exists d, q, (ms ++ ms'). split; [done|]. rewrite Em', Em, app_assoc. split; [done|]. apply elem_of_app. by left.
  - rewrite Hr, (acts_readers _ _ _ _ Ha). rewrite Forall2_fmap_l in HR. exact HR.
Qed.

(** C40: when the transports have no locator for any reader, the delivery of a sample in
    fragments never ends as long as a matched reader waits for one of its fragments: no
    round marks a fragment as sent, and the loop goes on while there are unsent ones.  This
    holds of every reachable writer that does not send to its readers by themselves and
    whose message group takes every submessage. *)
Theorem delivery_never_ends general fuel s c p (Hs : reachable s) (Hc : c ∈ stored s)
    (Hn : 0 < getFragmentCount c < 2 ^ 32 - 1) (Hp : p ∈ readers (wr s)) (Hu : is_unsent c p = true)
    (Hnext : next_fragment c p <= getFragmentCount c) (Hgroup : willing (E := E)) (Hnone : no_locators (E := E))
    (Hsep : m_separateSendingEnabled (cfg (wr s)) = false) :
  deliver_sample_nts fuel ndebug general c s = Unfinished.
Proof.
  apply reachable_ready in Hs as [Hi _]. assert (u32 (getFragmentCount c + 1) = getFragmentCount c + 1) as En
    by (apply u32_small; range_unfold; lia).
  unfold deliver_sample_nts. rewrite (bind_step writer _ _ (wr s) s) by done.
  assert (RLV.empty (matched_remote_readers_ (wr s)) = false) as ->.
  { unfold RLV.empty. fold (readers (wr s)). destruct (readers (wr s)); [by apply not_elem_of_nil in Hp|done]. }
  assert (deliver_rounds fuel ndebug general c (getFragmentCount c) 0 false s = Unfinished) as Eu.
  { apply (rounds_stuck wanted); [done|lia|done| |lia]. split_and!; [done|done|done|]. exists p. split_and!; [done|done|lia]. }
  unfold deliver_sample_to_network, then_, mbind, stateful_bind. by rewrite Eu.
Qed.

End runs.
(** ** A writer on a perfect network *)

Definition Net : Type := list (list Guid.GUID_t * Submessage).

#[local] Instance net_env : WriterEnv Net := {|
  add_submessage e d m := (Added, e ++ [(d, m)]);
  get_current_bytes_processed _ := 0;
  select _ l := (l, Z.of_nat (length l));
  add_new_sample e _ := e;
  add_old_sample e _ := e;
  flow_remove_change e _ := (true, e);
  onWriterChangeReceivedByAll e _ := ([], e);
  release_change e _ := e
|}.

#[local] Instance net_laws : WriterEnvLaws Net.
Proof.
  refine {| sent := id |}; try done; [intros e d m; by left|]. intros e c x Hx. by apply not_elem_of_nil in Hx.
Defined.

Definition net_guid (n : Z) : Guid.GUID_t := Guid.mkGUID (repeat 7 12) (EntityId.of_uint32 n).

Definition net_config : Config :=
  mkConfig (net_guid 0x102) 1000 false TRANSIENT_LOCAL true false false 65536 false false None [] false 4 1.

Definition net_attributes : History.HistoryAttributes :=
  History.mkAttributes Pools.PREALLOCATED_MEMORY_MODE 100 4 8 0.

Definition net_writer : Sys Net := fresh net_config (RLV.mkConfig 0 16 1) 0 net_attributes [].

Definition net_reader (n : Z) (best_effort : bool) : ReaderProxyData :=
  mkReaderData (net_guid n) [] [] best_effort TRANSIENT_LOCAL false false.

Definition net_change : CacheChange_t :=
  with_payload (History.reference_change (net_guid 0x102) SN.default) (Payload.mkPayload 0 4 (Some [1; 2; 3; 4]) 4 0).

Definition everything (g : Guid.GUID_t) (c : CacheChange_t) : Prop := True.

Lemma net_guid_wf n : Guid.wf (net_guid n).
Proof. split; [split; [done|repeat constructor; range_unfold; lia]|apply EntityId.of_uint32_wf]. Qed.

Lemma net_constructed : constructed everything net_writer.
Proof.
  exists net_config, (RLV.mkConfig 0 16 1), 0, net_attributes, []. split; [done|]. split; [apply net_guid_wf|].
  split; [unfold RLV.config_wf; simpl; lia|]. split; [unfold attributes_ok; simpl; lia|]. done.
Qed.

Definition net_publish : Op := Publish net_change WriterHistory.default_params (mkTime 5 0).

Definition net_ack (base : Z) : Op :=
  AckNack (net_guid 0x102) (net_guid 0x204) 1 (BitmapRange.make (SN.mkSN 0 base)) true.

Definition after (l : list Op) : Sys Net :=
  match perform_all false l net_writer with Done (_, s) => s | _ => net_writer end.

(** A reliable reader is matched and a change published. *)
Definition net_begin : list Op := [Match (net_reader 0x204 false) 0; net_publish].

Definition net_sample : CacheChange_t := default net_change (head (stored (after net_begin))).

Lemma net_match_admissible : admissible everything net_writer (Match (net_reader 0x204 false) 0).
Proof.
  split; [split_and!; [apply net_guid_wf|done|apply not_elem_of_nil]|]. split; [done|]. split; [unfold attributes_ok; simpl; lia|].
  split; [by left|]. by intros c Hc%not_elem_of_nil.
Qed.

Lemma net_begin_admissible l :
  admissible_all false everything (after net_begin) l → admissible_all false everything net_writer (net_begin ++ l).
Proof.
  intros Hl. apply (admissible_step _ _ _ _ (after (take 1 net_begin))); [apply net_match_admissible|by vm_compute|].
  apply (admissible_step _ _ _ _ (after net_begin)); [|by vm_compute|done]. split; [apply net_guid_wf|by vm_compute].
Qed.

Lemma net_reachable : reachable false everything (after net_begin).
Proof.
  exists net_writer, net_begin. split; [apply net_constructed|]. split; [by apply (net_begin_admissible [])|by vm_compute].
Qed.

Lemma net_sample_whole : whole net_sample.
Proof. by vm_compute. Qed.

Lemma net_sample_stored : net_sample ∈ stored (after net_begin).
Proof. by left. Qed.

(** The change is sent and acknowledged. *)
Definition net_rest : list Op := [Deliver true 1 net_sample; net_ack 2].

Lemma net_ack_valid p l :
  p ∈ readers (wr (after l)) → last_num (after l) = 1 → valid_acknack (after l) p (BitmapRange.make (SN.mkSN 0 2)).
Proof.
  intros Hp El. destruct (BitmapFacts.make_spec (SN.mkSN 0 2)) as ([Hinv _] & _ & _ & Hnone).
  { split; [split; range_unfold; simpl; lia|vm_compute; congruence]. }
  split; [done| |by intros n []%Hnone|by left]. rewrite El. split; [split; range_unfold; simpl; lia|by vm_compute].
Qed.

Lemma net_run_admissible : admissible_all false everything net_writer (net_begin ++ net_rest).
Proof.
  apply net_begin_admissible. apply (admissible_step _ _ _ _ (after (net_begin ++ take 1 net_rest))); [|by vm_compute|].
  - split; [lia|]. split; [apply net_sample_stored|apply net_sample_whole].
  - apply (admissible_step _ _ _ _ (after (net_begin ++ net_rest))); [|by vm_compute|done].
    intros p Hp _. by apply net_ack_valid.
Qed.


(** The reader of the run and its sample. *)
Definition net_proxy : ReaderProxy :=
  default (create_proxy net_writer 4 1 0 0) (head (readers (wr (after (net_begin ++ net_rest))))).

Lemma acked_by_all_sound_witness :
  ∃ s, perform_all false (net_begin ++ net_rest) net_writer = Done (tt, s) ∧
    is_acked_by_all false (SN.mkSN 0 1) s = Done (true, s) ∧ acked_in (net_begin ++ net_rest) (net_guid 0x204) 1.
Proof.
  destruct (acked_by_all_sound false everything net_writer (net_begin ++ net_rest) net_constructed net_run_admissible)
    as ([] & s & E & Hall).
  exists s. split; [done|]. destruct (Hall net_sample) as (b & Eb & _ & Hb).
  { apply (list_elem_of_lookup_2 _ 0%nat). vm_compute in E. injection E as <-. by vm_compute. }
  assert (sequenceNumber net_sample = SN.mkSN 0 1) as Es by by vm_compute. rewrite Es in Eb.
  assert (b = true) as -> by (vm_compute in E; injection E as <-; vm_compute in Eb; by injection Eb).
  split; [done|]. specialize (Hb eq_refl net_proxy).
  assert (guid net_proxy = net_guid 0x204) as Eg by by vm_compute. assert (number net_sample = 1) as En by by vm_compute.
  rewrite Eg, En in Hb. apply Hb; [|by vm_compute|done].
  apply (list_elem_of_lookup_2 _ 0%nat). vm_compute in E. injection E as <-. by vm_compute.
Defined.

Lemma acknack_processed_witness :
  ∃ p b s', readers (wr (after net_begin)) !! 0%nat = Some p ∧
    process_acknack false (net_guid 0x102) (guid p) 1 (BitmapRange.make (SN.mkSN 0 2)) true (after net_begin) = Done (b, s') ∧ b = true ∧
    stored s' = stored (after net_begin) ∧ length (readers (wr s')) = 1%nat.
Proof.
  destruct (readers (wr (after net_begin)) !! 0%nat) as [p|] eqn:Hp; [|by vm_compute in Hp].
  destruct (acknack_processed false everything (after net_begin) 0 p 1 (BitmapRange.make (SN.mkSN 0 2)) true net_reachable Hp)
    as (b & s' & E & Hb & (p' & _ & Er) & _ & _ & _ & Hq).
  - apply (BitmapFacts.make_spec (SN.mkSN 0 2)). split; [split; range_unfold; simpl; lia|vm_compute; congruence].
  - apply net_ack_valid; [by eapply list_elem_of_lookup_2|by vm_compute].
  - vm_compute in Hp. injection Hp as <-. by vm_compute.
  - assert (c_guid (cfg (wr (after net_begin))) = net_guid 0x102) as Eg by by vm_compute. rewrite Eg in E.
    exists p, b, s'. split; [reflexivity|]. split; [done|]. split; [done|]. split; [by apply Hq; left|].
    rewrite Er, length_insert. by vm_compute.
Defined.


Lemma sample_delivered_witness :
  ∃ s', deliver_sample_nts 1 false true net_sample (after net_begin) = Done (Some DELIVERED, s') ∧
    ∀ p, p ∈ readers (wr (after net_begin)) → is_unsent net_sample p = true →
      ∃ d q ms, guid p ∈ d ∧ messages s' = messages (after net_begin) ++ ms ∧ (d, DATA net_sample q) ∈ ms.
Proof.
  destruct (sample_delivered false everything true 0 (after net_begin) net_sample net_reachable net_sample_stored net_sample_whole)
    as (code & s' & E & -> & Hall & _).
  - done.
  - right. intros e l Hl. split; [|done]. simpl. destruct l; simpl; [done|lia].
  - exists s'. split; [exact E|exact Hall].
Defined.

(** ** What goes wrong *)

(** A network whose transports have no locator for any reader. *)
Record Nowhere := nowhere { heard : list (list Guid.GUID_t * Submessage) }.

#[local] Instance nowhere_env : WriterEnv Nowhere := {|
  add_submessage e d m := (Added, nowhere (heard e ++ [(d, m)]));
  get_current_bytes_processed _ := 0;
  select _ _ := ([], 0);
  add_new_sample e _ := e;
  add_old_sample e _ := e;
  flow_remove_change e _ := (true, e);
  onWriterChangeReceivedByAll e _ := ([], e);
  release_change e _ := e
|}.

#[local] Instance nowhere_laws : WriterEnvLaws Nowhere.
Proof.
  refine {| sent := heard |}; try done; [intros e d m; by left|]. intros e c x Hx. by apply not_elem_of_nil in Hx.
Defined.

(** A writer that sends two octets at a time, with a reader and a sample of four. *)
Definition small_config : Config :=
  mkConfig (net_guid 0x102) 2 false VOLATILE true false false 65536 false false None [] false 4 1.

Definition small_start : Sys Nowhere := fresh small_config (RLV.mkConfig 0 16 1) 0 net_attributes (nowhere []).

Definition small_after (l : list Op) : Sys Nowhere :=
  match perform_all false l small_start with Done (_, s) => s | _ => small_start end.

Definition small_sample : CacheChange_t := default net_change (head (stored (small_after net_begin))).

Lemma small_reachable : reachable false everything (small_after net_begin).
Proof.
  exists small_start, net_begin. split.
  - exists small_config, (RLV.mkConfig 0 16 1), 0, net_attributes, (nowhere []). split; [done|]. split; [apply net_guid_wf|].
    split; [unfold RLV.config_wf; simpl; lia|]. split; [unfold attributes_ok; simpl; lia|]. done.
  - split; [|by vm_compute]. apply (admissible_step _ _ _ _ (small_after (take 1 net_begin))); [|by vm_compute|].
    + split; [split_and!; [apply net_guid_wf|done|apply not_elem_of_nil]|]. split; [done|].
      split; [unfold attributes_ok; simpl; lia|]. split; [by left|]. by intros c Hc%not_elem_of_nil.
    + apply (admissible_step _ _ _ _ (small_after net_begin)); [|by vm_compute|done]. split; [apply net_guid_wf|by vm_compute].
Qed.

(** Its reader. *)
Definition small_proxy : ReaderProxy :=
  default (create_proxy small_start 4 1 0 0) (head (readers (wr (small_after net_begin)))).

Lemma head_at {A} (l : list A) d : length l = 1%nat → default d (head l) ∈ l.
Proof. destruct l; [done|]. intros _. by left. Qed.

Lemma small_facts :
  small_sample ∈ stored (small_after net_begin) ∧ getFragmentCount small_sample = 2 ∧
  small_proxy ∈ readers (wr (small_after net_begin)) ∧ is_unsent small_sample small_proxy = true ∧
  next_fragment small_sample small_proxy = 1 ∧ m_separateSendingEnabled (cfg (wr (small_after net_begin))) = false.
Proof. split_and!; [apply head_at| |apply head_at|..]; vm_compute; reflexivity. Qed.

Lemma delivery_never_ends_witness :
  getFragmentCount small_sample = 2 ∧
  ∀ fuel, deliver_sample_nts fuel false true small_sample (small_after net_begin) = Unfinished.
Proof.
  destruct small_facts as (Hc & Hn & Hp & Hu & Hnext & Hsep). split; [exact Hn|]. intros fuel.
  apply (delivery_never_ends false everything true fuel (small_after net_begin) small_sample small_proxy small_reachable).
  - exact Hc.
  - rewrite Hn. lia.
  - exact Hp.
  - exact Hu.
  - rewrite Hn, Hnext. lia.
  - intros e d m. reflexivity.
  - intros e l. reflexivity.
  - exact Hsep.
Defined.

(** The acknowledgement of the first reader, and then a second one that wants history. *)
Definition late_run : list Op := net_begin ++ net_rest ++ [Match (net_reader 0x304 false) 0].

(** In this run the second reader waits for the change, which was acknowledged by all the
    readers of before, but [is_acked_by_all] still says that it is acknowledged. *)
Example late_joiner_overlooked :
  net_sample ∈ stored (after late_run) ∧
  is_acked_by_all false (sequenceNumber net_sample) (after late_run) = Done (true, after late_run) ∧
  ∃ p, p ∈ readers (wr (after late_run)) ∧ guid p = net_guid 0x304 ∧ is_reliable_ p = true ∧
    change_is_acked p (sequenceNumber net_sample) = Done false ∧ net_sample ∈ change_ <$> changes p.
Proof.
  split; [apply (list_elem_of_lookup_2 _ 0%nat); by vm_compute|]. split; [by vm_compute|].
  set (p := default net_proxy (readers (wr (after late_run)) !! 1%nat)). exists p.
  split; [apply (list_elem_of_lookup_2 _ 1%nat); by vm_compute|]. split; [by vm_compute|]. split; [by vm_compute|].
  split; [by vm_compute|]. apply (list_elem_of_lookup_2 _ 0%nat). by vm_compute.
Qed.

(** The set with the single number [n]. *)
Definition net_request (n : Z) : SequenceNumberSet_t :=
  (BitmapRange.add (BitmapRange.make (SN.mkSN 0 n)) (SN.mkSN 0 n)).2.

(** The reader acknowledges the first change and asks for a second one, which the writer
    publishes only after that. *)
Definition early_run : list Op :=
  net_begin ++ [Deliver true 1 net_sample; AckNack (net_guid 0x102) (net_guid 0x204) 1 (net_request 2) true].

(** An acknowledgement that asks for the number after the last one passes the test
    against inconsistent acknowledgements.  The writer answers with a gap for this number
    and then publishes a change under it that is relevant for the reader. *)
Example unpublished_number_announced :
  last_num (after early_run) = 1 ∧
  (∃ g, ([net_guid 0x204], GAP g) ∈ messages (after early_run) ∧ GapBuilder.announces g 2) ∧
  ∃ c, c ∈ stored (after (early_run ++ [net_publish])) ∧ number c = 2 ∧
    relevant (cfg (wr (after (early_run ++ [net_publish])))) (net_guid 0x204) c = true.
Proof.
  split; [vm_compute; reflexivity|]. split.
  - exists (mkGap (SN.mkSN 0 2) (BitmapRange.make (SN.mkSN 0 3)) None).
    split; [apply (list_elem_of_lookup_2 _ 2%nat); vm_compute; reflexivity|]. left. by vm_compute.
  - exists (default net_change (stored (after (early_run ++ [net_publish])) !! 1%nat)).
    split; [apply (list_elem_of_lookup_2 _ 1%nat); vm_compute; reflexivity|]. by vm_compute.
Qed.

(** Two readers get a change, and then it is sent again to the second of them. *)
Definition resent_run : list Op :=
  [Match (net_reader 0x204 false) 0; Match (net_reader 0x304 false) 0; net_publish; Deliver true 1 net_sample;
   NackSupression (net_guid 0x304);
   AckNack (net_guid 0x102) (net_guid 0x304) 1 (net_request 1) true; NackResponse; Deliver true 1 net_sample].

(** After a change was sent again to one reader, the heartbeat that asserts the
    liveliness of the writer is sent to this reader only, although there is another one. *)
Example liveliness_not_to_all :
  guid <$> readers (wr (after resent_run)) = [net_guid 0x204; net_guid 0x304] ∧
  ∃ first last count,
    messages (after (resent_run ++ [PeriodicHeartbeat true true])) =
    messages (after resent_run) ++ [([net_guid 0x304], HEARTBEAT first last count true true)].
Proof.
  split; [vm_compute; reflexivity|]. exists (SN.mkSN 0 1), (SN.mkSN 0 1), 3. vm_compute. reflexivity.
Qed.

End WriterRuns.
