(* ===== verification/WriterProxy.v ===== *)
(** * Writer proxies

    [WriterProxy] (src/cpp/rtps/reader/WriterProxy.cpp and .h), the state a
    reliable reader keeps for one matched writer: which sequence numbers it has
    received, which are missing, what was notified to the user, and the timers
    that answer heartbeats.

    - [changes_received_], a [std::set], is a list in increasing order.
    - The two timers are [TimedEventImpl.t] values; the operations return the
      effects on the rest of the reader (messages sent, timers handed to the
      event service) as a list.
    - The library setting and the reader's own data are arguments. *)

From S2P Require Import Prelude SeqNum Bitmap Containers Guid Locator LocatorSelector TimedEvent.

Module WriterProxy.
Import Guid Locator LocatorSelector.

Inductive StateCode := IDLE | BUSY | STOPPED.

#[export] Instance StateCode_eq_dec : EqDecision StateCode.
Proof. solve_decision. Defined.

Inductive Timer := heartbeat_timer | initial_acknack_timer.

(** What the operations do outside of the proxy. *)
Inductive Effect :=
  (** [TimedEvent::restart_timer] or [cancel_timer] notified the event service. *)
  | Notify (t : Timer)
  (** [TimedEvent::recreate_timer]: the timer is taken out of the service, which
      waits for a running callback, and put back. *)
  | Recreate (t : Timer)
  (** [reader_->send_acknack(this, sns, this, false)]. *)
  | SendAckNack (sns : BitmapRange.BitmapRange_t SN.SequenceNumber_t)
  (** [reader_->send_acknack(this, this, final)]. *)
  | SendHeartbeatResponse (final : bool)
  (** [writer->process_acknack] on a writer of the same process. *)
  | ProcessLocalAckNack (writer : GUID_t).

Record WriterProxy := mkProxy {
  heartbeat_response_ : TimedEventImpl.t;
  initial_acknack_ : TimedEventImpl.t;
  last_heartbeat_count_ : Z;
  heartbeat_final_flag_ : bool;
  is_alive_ : bool;
  changes_received_ : list SN.SequenceNumber_t;
  changes_from_writer_low_mark_ : SN.SequenceNumber_t;
  max_sequence_number_ : SN.SequenceNumber_t;
  last_notified_ : SN.SequenceNumber_t;
  guid_as_vector_ : RLV.t GUID_t;
  guid_prefix_as_vector_ : RLV.t (list Z);
  is_on_same_process_ : bool;
  ownership_strength_ : Z;
  liveliness_kind_ : Z;
  persistence_guid_ : GUID_t;
  locators_entry_ : LocatorSelectorEntry;
  is_datasharing_writer_ : bool;
  received_at_least_one_heartbeat_ : bool;
  state_ : StateCode
}.

(** The data of the remote writer the proxy reads ([WriterProxyData]). *)
Record WriterProxyData := mkData {
  d_guid : GUID_t;
  d_persistence_guid : GUID_t;
  d_ownership_strength : Z;
  d_liveliness_kind : Z;
  d_unicast : list Locator_t;
  d_multicast : list Locator_t
}.

(** The reader the proxy belongs to. *)
Record ReaderInfo := mkReader {
  r_guid : GUID_t;
  r_heartbeatResponseDelay : Z;
  r_initialAcknackDelay : Z;
  r_external_unicast_locators : ExternalLocators;
  r_ignore_non_matching_locators : bool;
  r_intraprocess : IntraprocessDeliveryType
}.

(** ** Sequence numbers *)

Definition with_changes (w : WriterProxy) (received : list SN.SequenceNumber_t)
    (low max : SN.SequenceNumber_t) : WriterProxy :=
  mkProxy (heartbeat_response_ w) (initial_acknack_ w) (last_heartbeat_count_ w)
    (heartbeat_final_flag_ w) (is_alive_ w) received low max (last_notified_ w)
    (guid_as_vector_ w) (guid_prefix_as_vector_ w) (is_on_same_process_ w)
    (ownership_strength_ w) (liveliness_kind_ w) (persistence_guid_ w) (locators_entry_ w)
    (is_datasharing_writer_ w) (received_at_least_one_heartbeat_ w) (state_ w).

Definition with_notified (w : WriterProxy) (n : SN.SequenceNumber_t) : WriterProxy :=
  mkProxy (heartbeat_response_ w) (initial_acknack_ w) (last_heartbeat_count_ w)
    (heartbeat_final_flag_ w) (is_alive_ w) (changes_received_ w)
    (changes_from_writer_low_mark_ w) (max_sequence_number_ w) n
    (guid_as_vector_ w) (guid_prefix_as_vector_ w) (is_on_same_process_ w)
    (ownership_strength_ w) (liveliness_kind_ w) (persistence_guid_ w) (locators_entry_ w)
    (is_datasharing_writer_ w) (received_at_least_one_heartbeat_ w) (state_ w).

(** [loaded_from_storage]. *)
Definition loaded_from_storage (w : WriterProxy) (seq_num : SN.SequenceNumber_t) : WriterProxy :=
  with_notified (with_changes w (changes_received_ w) seq_num seq_num) seq_num.

(** [std::set::insert] and [find]. *)
Fixpoint set_insert (s : SN.SequenceNumber_t) (l : list SN.SequenceNumber_t)
    : list SN.SequenceNumber_t :=
  match l with
  | [] => [s]
  | x :: t => if SN.ltb s x then s :: l
              else if SN.ltb x s then x :: set_insert s t else l
  end.

Definition set_mem (s : SN.SequenceNumber_t) (l : list SN.SequenceNumber_t) : bool :=
  existsb (λ x, negb (SN.ltb x s) && negb (SN.ltb s x)) l.

(** [std::lower_bound]: how many elements come before the first one not below
    [s]. *)
Fixpoint lower_bound (l : list SN.SequenceNumber_t) (s : SN.SequenceNumber_t) : nat :=
  match l with
  | [] => 0
  | x :: t => if SN.ltb x s then S (lower_bound t s) else 0
  end.

(** [cleanup]: the loop over the received changes that follow the low mark. *)
Fixpoint cleanup_loop (received : list SN.SequenceNumber_t) (low : SN.SequenceNumber_t)
    : list SN.SequenceNumber_t * SN.SequenceNumber_t :=
  match received with
  | [] => ([], low)
  | x :: t => if SN.eqb x (SN.add_u32 low 1) then cleanup_loop t (snd (SN.post_incr low))
              else (received, low)
  end.

Definition cleanup (w : WriterProxy) : WriterProxy :=
  let '(received, low) := cleanup_loop (changes_received_ w) (changes_from_writer_low_mark_ w) in
  with_changes w received low (max_sequence_number_ w).

Definition missing_changes_update (w : WriterProxy) (seq_num : SN.SequenceNumber_t) : WriterProxy :=
  if SN.gtb seq_num (changes_from_writer_low_mark_ w) then
    if SN.gtb seq_num (max_sequence_number_ w) then
      with_changes w (changes_received_ w) (changes_from_writer_low_mark_ w) seq_num
    else w
  else w.

(** The 64-bit count of lost changes, saturated to [int32_t]. *)
Definition saturate (tmp : Z) : Z := if INT32_MAX <? tmp then INT32_MAX else tmp.

Definition lost_count (w : WriterProxy) (seq_num : SN.SequenceNumber_t) (it : nat) : Z :=
  let low := SN.to64long (changes_from_writer_low_mark_ w) in
  match changes_received_ w with
  | first :: _ =>
      let tmp := u64 (SN.to64long first - u64 (low + 1)) in
      let tmp := u64 (tmp + u64 (u64 (SN.to64long seq_num - SN.to64long first) - Z.of_nat it)) in
      saturate tmp
  | [] => saturate (u64 (SN.to64long seq_num - u64 (low + 1)))
  end.

Definition lost_changes_update (w : WriterProxy) (seq_num : SN.SequenceNumber_t)
    : Z * WriterProxy :=
  if SN.gtb seq_num (SN.add_u32 (changes_from_writer_low_mark_ w) 1) then
    let it := lower_bound (changes_received_ w) seq_num in
    let current_sample_lost := lost_count w seq_num it in
    let received := drop it (changes_received_ w) in
    let low := SN.sub_u32 seq_num 1 in
    let max := if SN.gtb low (max_sequence_number_ w) then low else max_sequence_number_ w in
    (current_sample_lost, cleanup (with_changes w received low max))
  else (0, w).

(** [received_change_set]; [irrelevant_change_set] is the same function. *)
Definition received_change_set (w : WriterProxy) (seq_num : SN.SequenceNumber_t)
    : bool * WriterProxy :=
  let low := changes_from_writer_low_mark_ w in
  let max := max_sequence_number_ w in
  if SN.leb seq_num low then (false, w)
  else if SN.gtb seq_num max then
    if SN.eqb seq_num (SN.add_u32 low 1)
    then (true, with_changes w (changes_received_ w) seq_num seq_num)
    else (true, with_changes w (set_insert seq_num (changes_received_ w)) low seq_num)
  else if SN.eqb (SN.add_u32 low 1) seq_num
       then (true, cleanup (with_changes w (changes_received_ w) seq_num max))
       else if set_mem seq_num (changes_received_ w) then (false, w)
            else (true, with_changes w (set_insert seq_num (changes_received_ w)) low max).

Definition irrelevant_change_set (w : WriterProxy) (seq_num : SN.SequenceNumber_t)
    : bool * WriterProxy := received_change_set w seq_num.

(** The loop of [missing_changes] over the received changes. *)
Fixpoint missing_changes_loop (sns : SequenceNumberSet_t) (first_missing max_missing : SN.SequenceNumber_t)
    (received : list SN.SequenceNumber_t) : SequenceNumberSet_t * SN.SequenceNumber_t :=
  match received with
  | [] => (sns, first_missing)
  | x :: t =>
      let seq := SN.min x max_missing in
      let sns := BitmapRange.add_range sns first_missing seq in
      let first_missing := SN.add_u32 seq 1 in
      if SN.geb first_missing max_missing then (sns, first_missing)
      else missing_changes_loop sns first_missing max_missing t
  end.

Definition missing_changes (w : WriterProxy) : SequenceNumberSet_t :=
  let first_missing := SN.add_u32 (changes_from_writer_low_mark_ w) 1 in
  let max_missing := SN.min (SN.add_u32 first_missing 256) (SN.add_u32 (max_sequence_number_ w) 1) in
  let '(sns, first_missing) :=
    missing_changes_loop (BitmapRange.make first_missing) first_missing max_missing
      (changes_received_ w) in
  if SN.ltb first_missing max_missing
  then BitmapRange.add_range sns first_missing max_missing else sns.

Definition change_was_received (w : WriterProxy) (seq_num : SN.SequenceNumber_t) : bool :=
  if SN.leb seq_num (changes_from_writer_low_mark_ w) then true
  else set_mem seq_num (changes_received_ w).

Definition available_changes_max (w : WriterProxy) : SN.SequenceNumber_t :=
  changes_from_writer_low_mark_ w.

Definition are_there_missing_changes (w : WriterProxy) : bool :=
  SN.ltb (changes_from_writer_low_mark_ w) (max_sequence_number_ w).

Fixpoint unknown_missing_loop (returnedValue : Z) (first_missing seq_num : SN.SequenceNumber_t)
    (received : list SN.SequenceNumber_t) : Z * SN.SequenceNumber_t :=
  match received with
  | [] => (returnedValue, first_missing)
  | x :: t =>
      let seq := SN.min x seq_num in
      let returnedValue :=
        if SN.ltb first_missing seq
        then u32 (returnedValue + SN.SequenceNumberDiff seq first_missing) else returnedValue in
      let first_missing := SN.add_u32 seq 1 in
      if SN.geb first_missing seq_num then (returnedValue, first_missing)
      else unknown_missing_loop returnedValue first_missing seq_num t
  end.

Definition unknown_missing_changes_up_to (w : WriterProxy) (seq_num : SN.SequenceNumber_t) : Z :=
  if SN.gtb seq_num (changes_from_writer_low_mark_ w) then
    let '(returnedValue, first_missing) :=
      unknown_missing_loop 0 (SN.add_u32 (changes_from_writer_low_mark_ w) 1) seq_num
        (changes_received_ w) in
    if SN.ltb first_missing seq_num
    then u32 (returnedValue + SN.SequenceNumberDiff seq_num first_missing) else returnedValue
  else 0.

Definition number_of_changes_from_writer (w : WriterProxy) : Z :=
  if SN.gtb (max_sequence_number_ w) (changes_from_writer_low_mark_ w)
  then SN.SequenceNumberDiff (max_sequence_number_ w) (changes_from_writer_low_mark_ w)
  else 0.

Definition next_cache_change_to_be_notified (w : WriterProxy)
    : SN.SequenceNumber_t * WriterProxy :=
  if SN.ltb (last_notified_ w) (changes_from_writer_low_mark_ w)
  then let n := SN.incr (last_notified_ w) in (n, with_notified w n)
  else (SN.unknown, w).

(** ** Timers *)

Definition with_timers (w : WriterProxy) (hb ia : TimedEventImpl.t) : WriterProxy :=
  mkProxy hb ia (last_heartbeat_count_ w)
    (heartbeat_final_flag_ w) (is_alive_ w) (changes_received_ w)
    (changes_from_writer_low_mark_ w) (max_sequence_number_ w) (last_notified_ w)
    (guid_as_vector_ w) (guid_prefix_as_vector_ w) (is_on_same_process_ w)
    (ownership_strength_ w) (liveliness_kind_ w) (persistence_guid_ w) (locators_entry_ w)
    (is_datasharing_writer_ w) (received_at_least_one_heartbeat_ w) (state_ w).

(** [heartbeat_response_->restart_timer()]. *)
Definition restart_heartbeat_response (w : WriterProxy) : list Effect * WriterProxy :=
  let '(notify, t) := TimedEventImpl.go_ready (heartbeat_response_ w) in
  (if notify then [Notify heartbeat_timer] else [], with_timers w t (initial_acknack_ w)).

(** [initial_acknack_->restart_timer()]. *)
Definition restart_initial_acknack (w : WriterProxy) : list Effect * WriterProxy :=
  let '(notify, t) := TimedEventImpl.go_ready (initial_acknack_ w) in
  (if notify then [Notify initial_acknack_timer] else [], with_timers w (heartbeat_response_ w) t).

(** [cancel_timer()] on each of them. *)
Definition cancel_heartbeat_response (w : WriterProxy) : list Effect * WriterProxy :=
  let '(notify, t) := TimedEventImpl.go_cancel (heartbeat_response_ w) in
  (if notify then [Notify heartbeat_timer] else [], with_timers w t (initial_acknack_ w)).

Definition cancel_initial_acknack (w : WriterProxy) : list Effect * WriterProxy :=
  let '(notify, t) := TimedEventImpl.go_cancel (initial_acknack_ w) in
  (if notify then [Notify initial_acknack_timer] else [], with_timers w (heartbeat_response_ w) t).

(** [initial_acknack_->recreate_timer()]. *)
Definition recreate_initial_acknack (w : WriterProxy) : list Effect * WriterProxy :=
  let '(_, t) := TimedEventImpl.go_cancel (initial_acknack_ w) in
  ([Recreate initial_acknack_timer], with_timers w (heartbeat_response_ w) t).

Definition update_heartbeat_response_interval (w : WriterProxy) (us : Z) : WriterProxy :=
  with_timers w (TimedEventImpl.update_interval_us (heartbeat_response_ w) us) (initial_acknack_ w).

(** ** Life cycle *)

Definition with_state (w : WriterProxy) (st : StateCode) : WriterProxy :=
  mkProxy (heartbeat_response_ w) (initial_acknack_ w) (last_heartbeat_count_ w)
    (heartbeat_final_flag_ w) (is_alive_ w) (changes_received_ w)
    (changes_from_writer_low_mark_ w) (max_sequence_number_ w) (last_notified_ w)
    (guid_as_vector_ w) (guid_prefix_as_vector_ w) (is_on_same_process_ w)
    (ownership_strength_ w) (liveliness_kind_ w) (persistence_guid_ w) (locators_entry_ w)
    (is_datasharing_writer_ w) (received_at_least_one_heartbeat_ w) st.

(** The locators of an entry, assigned and filtered. *)
Definition assign_locators (rd : ReaderInfo) (e : LocatorSelectorEntry) (uni multi : list Locator_t)
    : LocatorSelectorEntry :=
  let u := RLV.assign_vector (unicast e) uni in
  let u := RLV.with_items u (filter_remote_locators (RLV.collection_ u)
             (r_external_unicast_locators rd) (r_ignore_non_matching_locators rd)) in
  mkEntry (remote_guid e) u (RLV.assign_vector (multicast e) multi)
    (state_unicast e) (state_multicast e) (enabled e) (transport_should_process e).

Definition set_guid (e : LocatorSelectorEntry) (g : GUID_t) : LocatorSelectorEntry :=
  mkEntry g (unicast e) (multicast e) (state_unicast e) (state_multicast e)
    (enabled e) (transport_should_process e).

Definition clear_locators (e : LocatorSelectorEntry) : LocatorSelectorEntry :=
  mkEntry c_Guid_Unknown (RLV.clear (unicast e)) (RLV.clear (multicast e))
    (state_unicast e) (state_multicast e) (enabled e) (transport_should_process e).

Definition clear (w : WriterProxy) : WriterProxy :=
  loaded_from_storage
    (mkProxy (heartbeat_response_ w) (initial_acknack_ w) 0 false false []
       (changes_from_writer_low_mark_ w) (max_sequence_number_ w) (last_notified_ w)
       (RLV.clear (guid_as_vector_ w)) (RLV.clear (guid_prefix_as_vector_ w)) false
       (ownership_strength_ w) (liveliness_kind_ w) (persistence_guid_ w)
       (clear_locators (locators_entry_ w)) (is_datasharing_writer_ w)
       (received_at_least_one_heartbeat_ w) (state_ w))
    SN.default.

(** The constructor, at time [now]: both timers are created with a zero
    interval. *)
Definition create (max_unicast max_multicast now : Z) : WriterProxy :=
  clear (mkProxy (TimedEventImpl.create true 0 now) (TimedEventImpl.create true 0 now)
    0 false false [] SN.default SN.default SN.default
    (RLV.make (RLV.fixed_size_configuration 1)) (RLV.make (RLV.fixed_size_configuration 1))
    false 0 0 c_Guid_Unknown (make_entry max_unicast max_multicast) false false STOPPED).

Definition start (rd : ReaderInfo) (w : WriterProxy) (attributes : WriterProxyData)
    (initial_sequence : SN.SequenceNumber_t) (is_datasharing : bool) : list Effect * WriterProxy :=
  let hb := TimedEventImpl.update_interval_us (heartbeat_response_ w) (r_heartbeatResponseDelay rd) in
  let ia := TimedEventImpl.update_interval_us (initial_acknack_ w) (r_initialAcknackDelay rd) in
  let e := set_guid (locators_entry_ w) (d_guid attributes) in
  let w := mkProxy hb ia (last_heartbeat_count_ w) (heartbeat_final_flag_ w) true
    (changes_received_ w) (changes_from_writer_low_mark_ w) (max_sequence_number_ w)
    (last_notified_ w)
    (snd (RLV.push_back (guid_as_vector_ w) (d_guid attributes)))
    (snd (RLV.push_back (guid_prefix_as_vector_ w) (guidPrefix (d_guid attributes))))
    (should_intraprocess_between (r_intraprocess rd) (r_guid rd) (d_guid attributes))
    (d_ownership_strength attributes) (d_liveliness_kind attributes)
    (d_persistence_guid attributes)
    (assign_locators rd e (d_unicast attributes) (d_multicast attributes))
    is_datasharing (received_at_least_one_heartbeat_ w) IDLE in
  let '(effects, w) := restart_initial_acknack w in
  let w := loaded_from_storage w initial_sequence in
  (effects, mkProxy (heartbeat_response_ w) (initial_acknack_ w) (last_heartbeat_count_ w)
    (heartbeat_final_flag_ w) (is_alive_ w) (changes_received_ w)
    (changes_from_writer_low_mark_ w) (max_sequence_number_ w) (last_notified_ w)
    (guid_as_vector_ w) (guid_prefix_as_vector_ w) (is_on_same_process_ w)
    (ownership_strength_ w) (liveliness_kind_ w) (persistence_guid_ w) (locators_entry_ w)
    (is_datasharing_writer_ w) false (state_ w)).

Definition update (rd : ReaderInfo) (w : WriterProxy) (attributes : WriterProxyData) : WriterProxy :=
  mkProxy (heartbeat_response_ w) (initial_acknack_ w) (last_heartbeat_count_ w)
    (heartbeat_final_flag_ w) (is_alive_ w) (changes_received_ w)
    (changes_from_writer_low_mark_ w) (max_sequence_number_ w) (last_notified_ w)
    (guid_as_vector_ w) (guid_prefix_as_vector_ w) (is_on_same_process_ w)
    (d_ownership_strength attributes) (liveliness_kind_ w) (persistence_guid_ w)
    (assign_locators rd (locators_entry_ w) (d_unicast attributes) (d_multicast attributes))
    (is_datasharing_writer_ w) (received_at_least_one_heartbeat_ w) (state_ w).

Definition stop (w : WriterProxy) : list Effect * WriterProxy :=
  let prev_code := state_ w in
  let w := with_state w STOPPED in
  let '(eff1, w) :=
    if decide (prev_code = BUSY) then recreate_initial_acknack w else cancel_initial_acknack w in
  let '(eff2, w) := cancel_heartbeat_response w in
  (eff1 ++ eff2, clear w).

(** ** Events

    The two callbacks of the timers run in the event thread: a first
    compare-and-exchange enters the busy state, a last one leaves it, and
    [stop] may run in between. *)

Definition enter_busy (w : WriterProxy) : bool * WriterProxy :=
  if decide (state_ w = IDLE) then (true, with_state w BUSY) else (false, w).

Definition leave_busy (w : WriterProxy) : WriterProxy :=
  if decide (state_ w = BUSY) then with_state w IDLE else w.

Definition max_ms : Z := 60 * 60 * 1000.

(** The body of [perform_initial_ack_nack] between the two exchanges;
    [local_writer] tells whether the writer was found in this process. *)
Definition initial_ack_nack_body (local_writer : bool) (w : WriterProxy)
    : bool * list Effect * WriterProxy :=
  if negb (is_datasharing_writer_ w) then
    if is_on_same_process_ w then
      (false, if local_writer then [ProcessLocalAckNack (remote_guid (locators_entry_ w))] else [], w)
    else if last_heartbeat_count_ w =? 0 then
      let eff := [SendAckNack (BitmapRange.make (SN.mkSN 0 0))] in
      let time_ms := TimedEventImpl.getIntervalMsec (initial_acknack_ w) in
      if time_ms <? max_ms then
        (true, eff, with_timers w (heartbeat_response_ w)
                      (TimedEventImpl.update_interval_millisec (initial_acknack_ w) (time_ms * 2)))
      else (false, eff, w)
    else (false, [], w)
  else (false, [], w).

Definition perform_initial_ack_nack (local_writer : bool) (w : WriterProxy)
    : bool * list Effect * WriterProxy :=
  let '(ok, w) := enter_busy w in
  if ok then
    let '(ret_value, eff, w) := initial_ack_nack_body local_writer w in
    (ret_value, eff, leave_busy w)
  else (false, [], w).

Definition perform_heartbeat_response (w : WriterProxy) : list Effect * WriterProxy :=
  let '(ok, w) := enter_busy w in
  if ok then ([SendHeartbeatResponse (heartbeat_final_flag_ w)], leave_busy w) else ([], w).

(** ** Heartbeats *)

Definition with_heartbeat (w : WriterProxy) (count : Z) (final received : bool) : WriterProxy :=
  mkProxy (heartbeat_response_ w) (initial_acknack_ w) count
    final (is_alive_ w) (changes_received_ w)
    (changes_from_writer_low_mark_ w) (max_sequence_number_ w) (last_notified_ w)
    (guid_as_vector_ w) (guid_prefix_as_vector_ w) (is_on_same_process_ w)
    (ownership_strength_ w) (liveliness_kind_ w) (persistence_guid_ w) (locators_entry_ w)
    (is_datasharing_writer_ w) received (state_ w).

(** The answer to a heartbeat: effects, the proxy, and whether liveliness is
    asserted. *)
Definition heartbeat_answer (w : WriterProxy) (final_flag liveliness_flag disable_positive : bool)
    : list Effect * WriterProxy * bool :=
  if negb (is_on_same_process_ w) then
    if negb final_flag then
      if negb disable_positive || are_there_missing_changes w
      then let '(eff, w) := restart_heartbeat_response w in (eff, w, false)
      else ([], w, false)
    else if final_flag && negb liveliness_flag then
      if are_there_missing_changes w
      then let '(eff, w) := restart_heartbeat_response w in (eff, w, false)
      else ([], w, false)
    else ([], w, liveliness_flag)
  else ([], w, liveliness_flag).

(** The result of [process_heartbeat]: whether it was accepted, the two output
    arguments ([sample_lost] is the value the second one had), the effects and
    the proxy. *)
Record HeartbeatResult := mkHeartbeat {
  hb_accepted : bool;
  hb_assert_liveliness : bool;
  hb_sample_lost : Z;
  hb_effects : list Effect;
  hb_proxy : WriterProxy
}.

Definition process_heartbeat (w : WriterProxy) (count : Z) (first_seq last_seq : SN.SequenceNumber_t)
    (final_flag liveliness_flag disable_positive : bool) (sample_lost : Z) : HeartbeatResult :=
  if negb (bool_decide (state_ w = STOPPED)) && (last_heartbeat_count_ w <? count) then
    let w := with_heartbeat w count (heartbeat_final_flag_ w)
               (received_at_least_one_heartbeat_ w) in
    let '(lost, w) := lost_changes_update w first_seq in
    let w := missing_changes_update w last_seq in
    let w := with_heartbeat w (last_heartbeat_count_ w) final_flag
               (received_at_least_one_heartbeat_ w) in
    let '(eff, w, assert_liveliness) :=
      heartbeat_answer w final_flag liveliness_flag disable_positive in
    if negb (received_at_least_one_heartbeat_ w)
    then mkHeartbeat true assert_liveliness 0 eff
           (with_heartbeat w (last_heartbeat_count_ w) (heartbeat_final_flag_ w) true)
    else mkHeartbeat true assert_liveliness lost eff w
  else mkHeartbeat false false sample_lost [] w.

(** ** Destinations *)

Definition remote_locators_shrinked (w : WriterProxy) : list Locator_t :=
  if RLV.empty (unicast (locators_entry_ w))
  then RLV.collection_ (multicast (locators_entry_ w))
  else RLV.collection_ (unicast (locators_entry_ w)).

(** [send]: the locators the message is sent to, [None] for a writer of the
    same process. *)
Definition send (w : WriterProxy) : option (list Locator_t) :=
  if is_on_same_process_ w then None else Some (remote_locators_shrinked w).

End WriterProxy.
