(* ===== verification/WriterProxyFacts.v ===== *)
(** * Facts about writer proxies

    A proxy implements a set of known sequence numbers: everything up to the low
    mark and the received changes above it.  The operations on the proxy are the
    set operations, the low mark is the end of the initial run of known numbers,
    and what is requested, counted as lost and notified follows from that set. *)

From S2P Require Import Prelude SeqNum Bitmap BitmapFacts Containers Guid Locator LocatorSelector.
From S2P Require Import TimedEvent WriterProxy.

Import WriterProxy.

Abbreviation vals := (map SN.val).

(** Sequence numbers with room for the arithmetic of the proxy above them. *)
Definition ok (s : SN.SequenceNumber_t) : Prop :=
  SN.wf s ∧ 0 <= SN.val s < 2 ^ 63 - 1024.

Lemma ok_wf s : ok s → SN.wf s.
Proof. by intros [? _]. Qed.

Lemma ok_nonneg s : ok s → SN.nonneg s.
Proof. intros [Hw Hv]. apply SN.nonneg_val; [done|lia]. Qed.

Lemma ok_succ s : ok s → SN.wf (SN.add_u32 s 1) ∧ SN.val (SN.add_u32 s 1) = SN.val s + 1.
Proof.
  intros [Hw Hv]. assert (is_u32 1) by (range_unfold; lia). split; [by apply SN.add_u32_wf|].
  apply SN.add_u32_val; [done..|lia].
Qed.

Lemma ok_pred s : ok s → 1 <= SN.val s → ok (SN.sub_u32 s 1) ∧ SN.val (SN.sub_u32 s 1) = SN.val s - 1.
Proof.
  intros Hs H1. assert (is_u32 1) by (range_unfold; lia).
  destruct (SN.sub_u32_val s 1 (ok_nonneg s Hs)) as [Hv _]; [done|lia|].
  split; [|done]. split; [apply SN.sub_u32_wf; [apply Hs|done]|]. destruct Hs. lia.
Qed.

#[export] Hint Resolve ok_wf ok_nonneg : mint.

(** ** Ordered sets *)

Section sets.
Implicit Types l : list SN.SequenceNumber_t.

Definition sorted l : Prop := StronglySorted Z.lt (vals l).

Lemma elem_of_vals l n : n ∈ vals l ↔ ∃ x, x ∈ l ∧ SN.val x = n.
Proof.
  rewrite list_elem_of_fmap. split; intros (x & ? & ?); exists x; auto.
Qed.

Lemma sorted_cons x l : sorted (x :: l) ↔ sorted l ∧ ∀ y, y ∈ vals l → SN.val x < y.
Proof.
  unfold sorted; simpl. split.
  - inversion 1 as [|? ? Hs Hall]; subst. rewrite Forall_forall in Hall. done.
  - intros [Hs Hall]. constructor; [done|]. by apply Forall_forall.
Qed.

Lemma set_mem_spec s l :
  SN.wf s → Forall SN.wf l → set_mem s l = true ↔ SN.val s ∈ vals l.
Proof.
  intros Hs Hl. unfold set_mem. rewrite existsb_exists, elem_of_vals.
  rewrite Forall_forall in Hl.
  split; intros (x & Hx & Heq); exists x; rewrite <- ?list_elem_of_In in *; (split; [done|]).
  - rewrite !SN.ltb_val in Heq by auto.
    destruct (Z.ltb_spec (SN.val x) (SN.val s)), (Z.ltb_spec (SN.val s) (SN.val x)); simpl in Heq;
      [done..|lia].
  - rewrite !SN.ltb_val by auto. by rewrite Heq, Z.ltb_irrefl.
Qed.

Lemma set_insert_spec s l :
  SN.wf s → Forall SN.wf l → sorted l →
  sorted (set_insert s l) ∧ Forall SN.wf (set_insert s l) ∧
  ∀ n, n ∈ vals (set_insert s l) ↔ n = SN.val s ∨ n ∈ vals l.
Proof.
  intros Hs. induction l as [|x l IH]; intros Hl Hsort; simpl.
  { split_and!; [apply sorted_cons; split; [constructor|by intros y ?%elem_of_nil]|by constructor|].
    intros n. rewrite list_elem_of_singleton, elem_of_nil. tauto. }
  apply Forall_cons in Hl as [Hx Hl]. apply sorted_cons in Hsort as [Hsort Hlt].
  rewrite !SN.ltb_val by done.
  destruct (Z.ltb_spec (SN.val s) (SN.val x)); [|destruct (Z.ltb_spec (SN.val x) (SN.val s))].
  - split_and!; [|by rewrite !Forall_cons|intros n; simpl; rewrite !elem_of_cons; tauto].
    apply sorted_cons. split; [by apply sorted_cons|]. intros y. simpl.
    rewrite elem_of_cons. intros [->|Hy]; [done|]. specialize (Hlt y Hy). lia.
  - destruct (IH Hl Hsort) as (Hs' & Hw' & Hmem).
    split_and!; [|by constructor|intros n; simpl; rewrite !elem_of_cons, Hmem; tauto].
    apply sorted_cons. split; [done|]. intros y. rewrite Hmem. intros [->|?]; [done|by apply Hlt].
  - assert (SN.val s = SN.val x) as -> by lia.
    split_and!; [by apply sorted_cons|by constructor|].
    intros n. simpl. rewrite !elem_of_cons. tauto.
Qed.

Lemma lower_bound_spec l s :
  SN.wf s → Forall SN.wf l → sorted l →
  sorted (drop (lower_bound l s) l) ∧ Forall SN.wf (drop (lower_bound l s) l) ∧
  (∀ n, n ∈ vals (drop (lower_bound l s) l) ↔ n ∈ vals l ∧ SN.val s <= n) ∧
  lower_bound l s = length (filter (λ n, n < SN.val s) (vals l)).
Proof.
  intros Hs. induction l as [|x l IH]; intros Hl Hsort.
  { simpl. split_and!; try done. intros n. rewrite elem_of_nil. tauto. }
  apply Forall_cons in Hl as [Hx Hl]. apply sorted_cons in Hsort as [Hsort Hlt].
  cbn [lower_bound]. rewrite SN.ltb_val by done.
  destruct (Z.ltb_spec (SN.val x) (SN.val s)).
  - destruct (IH Hl Hsort) as (? & ? & Hmem & Hlen). cbn [drop map].
    split_and!; [done..| |].
    + intros n. rewrite Hmem, elem_of_cons. split; [tauto|]. intros [[->|?] ?]; [lia|done].
    + rewrite filter_cons_True by done. simpl. by rewrite <- Hlen.
  - cbn [drop]. split_and!; [by apply sorted_cons|by constructor| |].
    + intros n. split; [|by intros [? _]]. intros Hn. split; [done|]. simpl in Hn.
      apply elem_of_cons in Hn as [->|Hn]; [done|]. specialize (Hlt n Hn). lia.
    + rewrite filter_none; [done|]. intros n Hn. simpl in Hn.
      apply elem_of_cons in Hn as [->|Hn]; [lia|]. specialize (Hlt n Hn). lia.
Qed.

(** [cleanup] moves the low mark over the run of received changes. *)
Lemma cleanup_loop_spec l low M :
  ok low → M < 2 ^ 63 - 1024 → Forall SN.wf l → sorted l →
  (∀ n, n ∈ vals l → SN.val low < n <= M) →
  let '(l', low') := cleanup_loop l low in
  ok low' ∧ SN.val low <= SN.val low' ∧ Forall SN.wf l' ∧ sorted l' ∧
  (∀ n, n ∈ vals l' → SN.val low' + 1 < n <= M) ∧
  (∀ n, n <= SN.val low' ∨ n ∈ vals l' ↔ n <= SN.val low ∨ n ∈ vals l) ∧
  (SN.val low' <= M ∨ low' = low).
Proof.
  intros Hlow HM. revert low Hlow. induction l as [|x l IH]; intros low Hlow Hl Hsort Hin.
  { simpl. split_and!; try done; [by intros n ?%elem_of_nil|by right]. }
  apply Forall_cons in Hl as [Hx Hl]. apply sorted_cons in Hsort as [Hsort Hlt].
  cbn [cleanup_loop]. destruct (ok_succ low Hlow) as [Hsw Hsv].
  rewrite SN.eqb_val, Hsv by done.
  pose proof (Hin (SN.val x) ltac:(by left)) as Hxr.
  destruct (Z.eqb_spec (SN.val x) (SN.val low + 1)) as [Heq|Hne].
  - cbn [SN.post_incr snd].
    assert (Hinc : SN.wf (SN.incr low) ∧ SN.val (SN.incr low) = SN.val low + 1)
      by (rewrite SN.incr_add by apply Hlow; done).
    assert (Hok' : ok (SN.incr low)) by (split; [apply Hinc|destruct Hlow; lia]).
    specialize (IH (SN.incr low) Hok' Hl Hsort).
    destruct (cleanup_loop l (SN.incr low)) as [l' low'].
    destruct IH as (? & ? & ? & ? & ? & Hmem & Hm).
    { intros n Hn. destruct Hinc as [_ ->]. specialize (Hlt n Hn).
      specialize (Hin n ltac:(by right)). lia. }
    destruct Hinc as [_ Hiv]. split_and!; [done|lia|done..| |].
    + intros n. rewrite Hmem, Hiv. simpl. rewrite elem_of_cons, Heq.
      assert (n <= SN.val low + 1 ↔ n <= SN.val low ∨ n = SN.val low + 1) as -> by lia. tauto.
    + left. destruct Hm as [?| ->]; lia.
  - split_and!; [done|lia|by constructor|by apply sorted_cons| |done|by right].
    intros n Hn. specialize (Hin n Hn). simpl in Hn. apply elem_of_cons in Hn as [->|Hn]; [lia|].
    specialize (Hlt n Hn). lia.
Qed.

End sets.

(** ** The invariant *)

Record proxy_inv (w : WriterProxy) : Prop := {
  pi_low : ok (changes_from_writer_low_mark_ w);
  pi_max : ok (max_sequence_number_ w);
  pi_notified : ok (last_notified_ w);
  pi_le : SN.val (changes_from_writer_low_mark_ w) <= SN.val (max_sequence_number_ w);
  pi_notified_le : SN.val (last_notified_ w) <= SN.val (changes_from_writer_low_mark_ w);
  pi_wf : Forall SN.wf (changes_received_ w);
  pi_sorted : sorted (changes_received_ w);
  pi_range n : n ∈ vals (changes_received_ w) →
    SN.val (changes_from_writer_low_mark_ w) + 1 < n <= SN.val (max_sequence_number_ w)
}.

(** The sequence numbers the proxy needs no more: received, lost or
    irrelevant. *)
Definition known (w : WriterProxy) (n : Z) : Prop :=
  n <= SN.val (changes_from_writer_low_mark_ w) ∨ n ∈ vals (changes_received_ w).

#[export] Instance known_dec w n : Decision (known w n).
Proof. unfold known. apply _. Defined.

Abbreviation low w := (SN.val (changes_from_writer_low_mark_ w)).
Abbreviation maxv w := (SN.val (max_sequence_number_ w)).

(** The low mark is the end of the initial run of known numbers. *)
Lemma low_mark_first_unknown w :
  proxy_inv w → ¬ known w (low w + 1) ∧ ∀ n, n <= low w → known w n.
Proof.
  intros Hinv. split; [|intros; by left].
  intros [?|Hr%(pi_range w Hinv)]; lia.
Qed.

(** The invariant but for the change next to the low mark, which [cleanup]
    takes care of. *)
Record weak_inv (w : WriterProxy) : Prop := {
  wi_low : ok (changes_from_writer_low_mark_ w);
  wi_max : ok (max_sequence_number_ w);
  wi_notified : ok (last_notified_ w);
  wi_le : low w <= maxv w;
  wi_notified_le : SN.val (last_notified_ w) <= low w;
  wi_wf : Forall SN.wf (changes_received_ w);
  wi_sorted : sorted (changes_received_ w);
  wi_range n : n ∈ vals (changes_received_ w) → low w < n <= maxv w
}.

Lemma proxy_weak w : proxy_inv w → weak_inv w.
Proof. intros []. split; try done. intros n Hn. specialize (pi_range0 n Hn). lia. Qed.

Lemma cleanup_spec w :
  weak_inv w →
  proxy_inv (cleanup w) ∧ (∀ n, known (cleanup w) n ↔ known w n) ∧
  max_sequence_number_ (cleanup w) = max_sequence_number_ w ∧
  last_notified_ (cleanup w) = last_notified_ w ∧ low w <= low (cleanup w).
Proof.
  intros []. unfold cleanup.
  pose proof (cleanup_loop_spec (changes_received_ w) (changes_from_writer_low_mark_ w) (maxv w))
    as Hc.
  destruct (cleanup_loop _ _) as [l' low'].
  destruct Hc as (? & ? & ? & ? & ? & Hmem & Hm); [done|apply wi_max0|done..|].
  split_and!; [|done..]. split; simpl; try done; [destruct Hm as [?| ->]; lia|lia].
Qed.

Lemma gtb_ok a b : SN.wf a → SN.wf b → SN.gtb a b = true ↔ SN.val b < SN.val a.
Proof. intros. rewrite SN.gtb_val by done. apply Z.ltb_lt. Qed.

(** ** The operations on the set *)

Lemma missing_changes_update_spec w s :
  proxy_inv w → ok s →
  let w' := missing_changes_update w s in
  proxy_inv w' ∧ changes_received_ w' = changes_received_ w ∧
  changes_from_writer_low_mark_ w' = changes_from_writer_low_mark_ w ∧
  last_notified_ w' = last_notified_ w ∧ maxv w' = Z.max (maxv w) (SN.val s).
Proof.
  intros Hinv Hs w'. unfold w', missing_changes_update. pose proof Hinv as [].
  rewrite !SN.gtb_val by auto with mint.
  destruct (Z.ltb_spec (low w) (SN.val s)); [|split_and!; [done..|lia]].
  destruct (Z.ltb_spec (maxv w) (SN.val s)); [|split_and!; [done..|lia]].
  split_and!; [|done..|simpl; lia]. split; simpl; try done; [lia|].
  intros n Hn. specialize (pi_range0 n Hn). lia.
Qed.

(** The unknown numbers of [[a, b)]. *)
Definition missing (w : WriterProxy) (a b : Z) : list Z :=
  filter (λ n, ¬ known w n) (seqZ a (b - a)).

Lemma missing_count w b :
  proxy_inv w → low w + 1 <= b →
  Z.of_nat (length (missing w (low w + 1) b)) =
    b - (low w + 1) - Z.of_nat (length (filter (λ n, n < b) (vals (changes_received_ w)))).
Proof.
  intros [] Hb. rewrite <- (count_gaps (vals (changes_received_ w)) (low w + 1) b).
  - do 2 f_equal. apply filter_same. intros n [? _]%elem_of_seqZ. unfold known. split.
    + intros Hn Hin. apply Hn. by right.
    + intros Hn [?|?]; [lia|done].
  - done.
  - done.
  - intros n Hn. specialize (pi_range0 n Hn). lia.
Qed.

Lemma lost_count_spec w s :
  proxy_inv w → ok s → low w + 1 < SN.val s →
  lost_count w s (lower_bound (changes_received_ w) s) =
    Z.min INT32_MAX (Z.of_nat (length (missing w (low w + 1) (SN.val s)))).
Proof.
  intros Hinv Hs Hlt. pose proof Hinv as []. rewrite missing_count by (done || lia).
  destruct (lower_bound_spec (changes_received_ w) s) as (_ & _ & _ & ->); [auto with mint|done..|].
  assert (Hlen : Z.of_nat (length (filter (λ n, n < SN.val s) (vals (changes_received_ w)))) <=
    SN.val s - (low w + 1)).
  { pose proof (missing_count w (SN.val s) Hinv). lia. }
  set (it := Z.of_nat (length _)) in *. assert (0 <= it) by (unfold it; lia).
  unfold lost_count. fold it. destruct pi_low0 as [? ?], Hs as [? ?].
  rewrite !SN.to64long_val, (u64_small (low w)), (u64_small (SN.val s)) by
    (done || (range_unfold; lia)).
  assert (Hsat : ∀ t, saturate t = Z.min INT32_MAX t).
  { intros t. unfold saturate. destruct (Z.ltb_spec INT32_MAX t); lia. }
  destruct (changes_received_ w) as [|x l] eqn:Hr; rewrite Hsat; f_equal.
  - unfold it. simpl length. mlia.
  - assert (Hx : low w + 1 < SN.val x <= maxv w) by (apply pi_range0; by left).
    apply Forall_cons in pi_wf0 as [? _]. destruct pi_max0.
    rewrite !SN.to64long_val by done. mlia.
Qed.

Lemma lost_changes_update_spec w s :
  proxy_inv w → ok s →
  let '(lost, w') := lost_changes_update w s in
  proxy_inv w' ∧ (∀ n, known w' n ↔ known w n ∨ n < SN.val s) ∧
  last_notified_ w' = last_notified_ w ∧ low w <= low w' ∧
  maxv w' = Z.max (maxv w) (SN.val s - 1) ∧
  lost = Z.min INT32_MAX (Z.of_nat (length (missing w (low w + 1) (SN.val s)))).
Proof.
  intros Hinv Hs. pose proof Hinv as []. unfold lost_changes_update.
  destruct (ok_succ _ pi_low0) as [Hsw Hsv]. rewrite !SN.gtb_val, Hsv by auto with mint.
  destruct (Z.ltb_spec (low w + 1) (SN.val s)) as [Hlt|Hge].
  2: { split_and!; [done| |done|lia|lia|].
       - intros n. split; [by left|]. intros [?|?]; [done|left; lia].
       - unfold missing. rewrite filter_none; [done|].
         intros n [? ?]%elem_of_seqZ. lia. }
  destruct (ok_pred s Hs) as [Hpo Hpv]; [destruct pi_low0; lia|].
  rewrite Hpv.
  set (m := if maxv w <? SN.val s - 1 then SN.sub_u32 s 1 else max_sequence_number_ w).
  assert (Hm : ok m ∧ SN.val m = Z.max (maxv w) (SN.val s - 1)).
  { unfold m. destruct (Z.ltb_spec (maxv w) (SN.val s - 1)); (split; [done|lia]). }
  destruct (lower_bound_spec (changes_received_ w) s) as (? & ? & Hmem & _); [auto with mint|done..|].
  set (l := drop _ (changes_received_ w)) in *.
  destruct (cleanup_spec (with_changes w l (SN.sub_u32 s 1) m)) as (Hi & Hk & Hmx & Hn & Hlow).
  { split; simpl; try done; [apply Hm|lia|lia|].
    intros n [Hn ?]%Hmem. specialize (pi_range0 n Hn). lia. }
  simpl in *. split_and!; [done| |done|lia|rewrite Hmx; simpl; lia|by apply lost_count_spec].
  intros n. rewrite Hk. unfold known; simpl. rewrite Hpv, Hmem.
  destruct (decide (n <= SN.val s - 1)); [split; intros _; [right; lia|left; lia]|].
  split.
  - intros [?|[? _]]; [lia|by left; right].
  - intros [[?|?]|?]; [lia|right; split; [done|lia]|lia].
Qed.

(** Inserting a change above the mark that is not next to it. *)
Lemma insert_change_spec w s m :
  proxy_inv w → ok s → ok m → low w + 1 < SN.val s → SN.val m = Z.max (maxv w) (SN.val s) →
  let w' := with_changes w (set_insert s (changes_received_ w)) (changes_from_writer_low_mark_ w) m in
  proxy_inv w' ∧ ∀ n, known w' n ↔ known w n ∨ n = SN.val s.
Proof.
  intros [] Hs Hm Hlt Hmv w'.
  destruct (set_insert_spec s (changes_received_ w)) as (? & ? & Hmem); [auto with mint|done..|].
  split.
  - split; simpl; try done; [lia|]. intros n [->|Hn]%Hmem; [lia|]. specialize (pi_range0 n Hn). lia.
  - intros n. unfold known; simpl. rewrite Hmem. tauto.
Qed.

Lemma received_change_set_spec w s :
  proxy_inv w → ok s →
  let '(new, w') := received_change_set w s in
  proxy_inv w' ∧ (∀ n, known w' n ↔ known w n ∨ n = SN.val s) ∧
  last_notified_ w' = last_notified_ w ∧ low w <= low w' ∧
  maxv w' = Z.max (maxv w) (SN.val s) ∧
  (new = true ↔ ¬ known w (SN.val s)) ∧ (known w (SN.val s) → w' = w).
Proof.
  intros Hinv Hs. pose proof Hinv as []. unfold received_change_set.
  destruct (ok_succ _ pi_low0) as [Hsw Hsv].
  rewrite SN.leb_val, SN.gtb_val, !SN.eqb_val, Hsv by auto with mint.
  assert (Hold : known w (SN.val s) → SN.val s <= maxv w →
    proxy_inv w ∧ (∀ n, known w n ↔ known w n ∨ n = SN.val s) ∧ last_notified_ w = last_notified_ w ∧
    low w <= low w ∧ maxv w = Z.max (maxv w) (SN.val s) ∧
    (false = true ↔ ¬ known w (SN.val s)) ∧ (known w (SN.val s) → w = w)).
  { intros Hk Hle. split_and!; try done; [|lia].
    intros n. split; [by left|]. by intros [?| ->]. }
  assert (Hfresh : low w < SN.val s → ¬ SN.val s ∈ vals (changes_received_ w) → ¬ known w (SN.val s))
    by (intros ? ? [?|?]; [lia|done]).
  destruct (Z.leb_spec (SN.val s) (low w)); [apply Hold; [by left|lia]|].
  destruct (Z.ltb_spec (maxv w) (SN.val s)).
  - assert (Hnew : ¬ known w (SN.val s)) by (apply Hfresh; [lia|intros Hn%pi_range0; lia]).
    destruct (Z.eqb_spec (SN.val s) (low w + 1)).
    + assert (Hnil : ∀ n, ¬ n ∈ vals (changes_received_ w)) by (intros n Hn%pi_range0; lia).
      split_and!; try done; [| |simpl; lia|simpl; lia].
      * split; simpl; try done; [lia|]. by intros n Hn%Hnil.
      * intros n. unfold known; simpl. specialize (Hnil n).
        destruct (decide (n <= SN.val s)); destruct (decide (n <= low w));
          destruct (decide (n = SN.val s)); tauto || lia.
    + destruct (insert_change_spec w s s) as [? ?]; [done..|lia|lia|].
      split_and!; try done. simpl; lia.
  - destruct (Z.eqb_spec (low w + 1) (SN.val s)).
    + destruct (cleanup_spec (with_changes w (changes_received_ w) s (max_sequence_number_ w)))
        as (? & Hk & Hmx & Hn & Hl).
      { split; simpl; try done; [lia|]. intros n Hn%pi_range0. lia. }
      assert (Hnew : ¬ known w (SN.val s)) by (apply Hfresh; [lia|intros Hn'%pi_range0; lia]).
      simpl in *. split_and!; try done; [|lia|rewrite Hmx; simpl; lia].
      intros n. rewrite Hk. unfold known; simpl.
      assert (n <= SN.val s ↔ n <= low w ∨ n = SN.val s) as -> by lia. tauto.
    + destruct (set_mem s (changes_received_ w)) eqn:Hmem.
      * apply set_mem_spec in Hmem; [|auto with mint|done]. apply Hold; [by right|lia].
      * apply not_true_iff_false in Hmem. rewrite set_mem_spec in Hmem by auto with mint.
        assert (Hnew := Hfresh ltac:(lia) Hmem).
        destruct (insert_change_spec w s (max_sequence_number_ w)) as [? ?]; [done..|lia|lia|].
        split_and!; try done. simpl; lia.
Qed.

(** ** What is requested *)

Lemma missing_loop_spec l sns first mx b :
  exact sns → BitmapRange.base_ sns = b → SN.wf first → SN.wf mx → SN.val mx < 2 ^ 63 - 1 →
  SN.val b <= SN.val first <= SN.val mx → SN.val mx <= SN.val b + BitmapRange.NBITS →
  Forall SN.wf l → sorted l → (∀ n, n ∈ vals l → SN.val first <= n) →
  let '(sns', first') := missing_changes_loop sns first mx l in
  exact sns' ∧ BitmapRange.base_ sns' = b ∧
  BitmapRange.range_max_ sns' = BitmapRange.range_max_ sns ∧
  SN.wf first' ∧ SN.val b <= SN.val first' ∧
  ∀ y, mem sns' y ∨ SN.val first' <= y < SN.val mx ↔
       mem sns y ∨ (SN.val first <= y < SN.val mx ∧ y ∉ vals l).
Proof.
  intros Hex Hb Hf Hmx Hroom. revert sns first Hex Hb Hf.
  induction l as [|x l IH]; intros sns first Hex Hb Hf Hbf Hmb Hl Hsort Hge.
  { simpl. split_and!; try done; [lia|]. intros y. rewrite elem_of_nil. tauto. }
  apply Forall_cons in Hl as [Hx Hl]. apply sorted_cons in Hsort as [Hsort Hlt].
  cbn [missing_changes_loop]. set (seq := SN.min x mx).
  assert (Hseqw : SN.wf seq) by (by apply SN.min_wf).
  assert (Hseqv : SN.val seq = Z.min (SN.val x) (SN.val mx)) by (by apply SN.min_val).
  pose proof (Hge (SN.val x) ltac:(by left)) as Hfx.
  destruct (add_range_spec sns first seq (proj1 Hex) Hf Hseqw) as (_ & Hb1 & Hm1 & Hex1 & Hmem1).
  specialize (Hex1 Hex). simpl item_val in *. rewrite Hb in Hb1, Hmem1.
  assert (Hone : is_u32 1) by (range_unfold; lia).
  assert (Hw1 : SN.wf (SN.add_u32 seq 1)) by (by apply SN.add_u32_wf).
  assert (Hv1 : SN.val (SN.add_u32 seq 1) = SN.val seq + 1)
    by (apply SN.add_u32_val; [done..|lia]).
  rewrite SN.geb_val, Hv1, Hseqv by done.
  destruct (Z.leb_spec (SN.val mx) (Z.min (SN.val x) (SN.val mx) + 1)) as [Hbrk|Hcont].
  - split_and!; [done..|lia|]. intros y. rewrite Hv1, Hseqv, Hmem1, Hseqv. simpl.
    rewrite not_elem_of_cons.
    assert (Hout : y < SN.val mx → y ≠ SN.val x → y ∉ vals l)
      by (intros ? ? Hy; specialize (Hlt y Hy); lia).
    destruct (decide (mem sns y)); [tauto|].
    split; [intros [[?|?]|?]; [done|right; split; [lia|split; [lia|apply Hout; lia]]|lia]|].
    intros [?|(? & ? & _)]; [done|left; right; lia].
  - specialize (IH (BitmapRange.add_range sns first seq) (SN.add_u32 seq 1) Hex1 Hb1 Hw1).
    destruct (missing_changes_loop _ _ _ _) as [sns' first'].
    destruct IH as (? & ? & Hm2 & ? & ? & Hmem); [lia|lia|done|done| |].
    { intros n Hn. specialize (Hlt n Hn). lia. }
    split_and!; [done|done|congruence|done|done|]. intros y. rewrite Hmem, Hmem1, Hv1, Hseqv. simpl.
    rewrite not_elem_of_cons. destruct (decide (mem sns y)); [tauto|].
    assert (Hout : y <= SN.val x → y ∉ vals l) by (intros ? Hy; specialize (Hlt y Hy); lia).
    split.
    + intros [[?|?]|[? ?]]; [done|right; split; [lia|split; [lia|apply Hout; lia]]|].
      right. split; [lia|]. split; [lia|done].
    + intros [?|(? & ? & ?)]; [done|]. destruct (decide (y < SN.val x)); [left; right; lia|].
      right. split; [lia|done].
Qed.

Lemma missing_changes_spec w :
  proxy_inv w →
  exact (missing_changes w) ∧ full (missing_changes w) ∧
  SN.val (BitmapRange.base_ (missing_changes w)) = low w + 1 ∧
  ∀ y, mem (missing_changes w) y ↔
       low w < y <= maxv w ∧ y < low w + 1 + BitmapRange.NBITS ∧ ¬ known w y.
Proof.
  intros Hinv. pose proof Hinv as []. unfold missing_changes.
  destruct (ok_succ _ pi_low0) as [Hfw Hfv]. set (first := SN.add_u32 _ 1) in *.
  assert (Hlim : low w + 1 < 2 ^ 63 - 1023) by (destruct pi_low0; lia).
  assert (H256 : is_u32 256) by (range_unfold; lia).
  destruct (SN.add_u32_val first 256 Hfw H256) as [Hv256 _]; [lia|].
  destruct (ok_succ _ pi_max0) as [Hmw Hmv].
  set (mx := SN.min (SN.add_u32 first 256) _).
  assert (Hmxw : SN.wf mx) by (apply SN.min_wf; [by apply SN.add_u32_wf|done]).
  assert (Hmxv : SN.val mx = Z.min (low w + 1 + 256) (maxv w + 1)).
  { unfold mx. rewrite SN.min_val, Hv256, Hmv, Hfv; [done|by apply SN.add_u32_wf|done]. }
  assert (Hroom : room first).
  { split; [done|]. simpl. rewrite Hfv. unfold BitmapRange.NBITS. lia. }
  destruct (make_spec first Hroom) as (Hex & Hb & Hfull & Hnone).
  pose proof (missing_loop_spec (changes_received_ w) (BitmapRange.make first) first mx first) as Hloop.
  destruct (missing_changes_loop _ _ _ _) as [sns first'].
  destruct Hloop as (Hex' & Hb' & Hm' & Hfw' & Hge' & Hmem); try done;
    [unfold BitmapRange.NBITS; lia..| |].
  { intros n Hn%pi_range0. lia. }
  rewrite SN.ltb_val by done.
  assert (Hknown : ∀ y, (SN.val first <= y < SN.val mx ∧ y ∉ vals (changes_received_ w)) ↔
    low w < y <= maxv w ∧ y < low w + 1 + BitmapRange.NBITS ∧ ¬ known w y).
  { intros y. rewrite Hmxv, Hfv. unfold known, BitmapRange.NBITS. split.
    - intros [? ?]. split; [lia|]. split; [lia|]. intros [?|?]; [lia|done].
    - intros (? & ? & Hn). split; [lia|]. intros ?. apply Hn. by right. }
  assert (Hfull' : full sns) by (unfold full in *; rewrite Hm', Hb', Hfull, Hb; done).
  destruct (Z.ltb_spec (SN.val first') (SN.val mx)).
  - destruct (add_range_spec sns first' mx (proj1 Hex') Hfw' Hmxw) as (_ & Hb2 & Hm2 & Hex2 & Hmem2).
    simpl item_val in *. rewrite Hb' in Hb2, Hmem2. split_and!; [auto| |by rewrite Hb2|].
    + unfold full in *. by rewrite Hm2, Hb2, Hfull', Hb'.
    + intros y. rewrite Hmem2, <- Hknown. specialize (Hmem y). specialize (Hnone y).
      assert (Hwin : SN.val first' <= y < SN.val mx →
        SN.val first <= y < SN.val first + BitmapRange.NBITS) by (unfold BitmapRange.NBITS; lia).
      tauto.
  - split_and!; [done|done|by rewrite Hb'|]. intros y. rewrite <- Hknown. specialize (Hmem y).
    specialize (Hnone y). assert (¬ (SN.val first' <= y < SN.val mx)) by lia. tauto.
Qed.

(** ** What is counted *)

Lemma unknown_missing_loop_spec l rv first s :
  SN.wf first → SN.wf s → SN.val s < 2 ^ 63 - 1 → is_u32 rv →
  Forall SN.wf l → sorted l → (∀ n, n ∈ vals l → SN.val first <= n) →
  SN.val first <= SN.val s →
  let '(rv', first') := unknown_missing_loop rv first s l in
  is_u32 rv' ∧ SN.wf first' ∧
  u32 (rv' + Z.max 0 (SN.val s - SN.val first')) =
    u32 (rv + (SN.val s - SN.val first - Z.of_nat (length (filter (λ n, n < SN.val s) (vals l))))).
Proof.
  intros Hf Hs Hroom Hrv. revert rv first Hf Hrv.
  induction l as [|x l IH]; intros rv first Hf Hrv Hl Hsort Hge Hle.
  { simpl. split_and!; [apply Hrv..|done|]. f_equal. lia. }
  apply Forall_cons in Hl as [Hx Hl]. apply sorted_cons in Hsort as [Hsort Hlt].
  cbn [unknown_missing_loop]. set (seq := SN.min x s).
  assert (Hseqw : SN.wf seq) by (by apply SN.min_wf).
  assert (Hseqv : SN.val seq = Z.min (SN.val x) (SN.val s)) by (by apply SN.min_val).
  pose proof (Hge (SN.val x) ltac:(by left)) as Hfx.
  assert (Hone : is_u32 1) by (range_unfold; lia).
  assert (Hw1 : SN.wf (SN.add_u32 seq 1)) by (by apply SN.add_u32_wf).
  assert (Hv1 : SN.val (SN.add_u32 seq 1) = SN.val seq + 1)
    by (apply SN.add_u32_val; [done..|lia]).
  set (rv1 := if SN.ltb first seq then _ else rv).
  assert (Hrv1 : is_u32 rv1 ∧ rv1 = u32 (rv + (SN.val seq - SN.val first))).
  { unfold rv1. rewrite SN.ltb_val, SN.SequenceNumberDiff_val by done.
    destruct (Z.ltb_spec (SN.val first) (SN.val seq)); [split; [auto with mint|mlia]|].
    split; [done|]. replace (SN.val seq - SN.val first) with 0 by lia.
    by rewrite Z.add_0_r, u32_small. }
  destruct Hrv1 as [Hrv1 Hrv1v]. rewrite SN.geb_val, Hv1, Hseqv by done. cbn [map].
  destruct (Z.leb_spec (SN.val s) (Z.min (SN.val x) (SN.val s) + 1)) as [Hbrk|Hcont].
  - split_and!; [apply Hrv1..|done|]. rewrite Hv1, Hrv1v, Hseqv.
    assert (Hnone : filter (λ n, n < SN.val s) (vals l) = [])
      by (apply filter_none; intros n Hn; specialize (Hlt n Hn); lia).
    rewrite filter_cons, Hnone. destruct (decide (SN.val x < SN.val s)); simpl length; mlia.
  - specialize (IH rv1 (SN.add_u32 seq 1) Hw1 Hrv1 Hl Hsort).
    destruct (unknown_missing_loop _ _ _ _) as [rv' first'].
    destruct IH as (? & ? & Heq); [intros n Hn; specialize (Hlt n Hn); lia|lia|].
    split_and!; [done..|]. rewrite Heq, Hrv1v, Hv1, Hseqv, filter_cons_True by lia.
    simpl length. mlia.
Qed.

Lemma unknown_missing_spec w s :
  proxy_inv w → ok s →
  unknown_missing_changes_up_to w s = u32 (Z.of_nat (length (missing w (low w + 1) (SN.val s)))).
Proof.
  intros Hinv Hs. pose proof Hinv as []. unfold unknown_missing_changes_up_to.
  rewrite SN.gtb_val by auto with mint.
  destruct (Z.ltb_spec (low w) (SN.val s)).
  2: { unfold missing. rewrite filter_none; [done|]. intros n [? ?]%elem_of_seqZ. lia. }
  destruct (ok_succ _ pi_low0) as [Hfw Hfv]. rewrite missing_count by (done || lia).
  pose proof (unknown_missing_loop_spec (changes_received_ w) 0
    (SN.add_u32 (changes_from_writer_low_mark_ w) 1) s) as Hloop.
  destruct (unknown_missing_loop _ _ _ _) as [rv first].
  destruct Hloop as (Hrv & Hw & Heq); [done|auto with mint|destruct Hs; lia|range_unfold; lia|done..| |lia|].
  { intros n Hn%pi_range0. lia. }
  rewrite SN.ltb_val, SN.SequenceNumberDiff_val by auto with mint. rewrite Hfv in Heq.
  rewrite Z.add_0_l in Heq. rewrite <- Heq.
  destruct (Z.ltb_spec (SN.val first) (SN.val s)); [mlia|].
  rewrite Z.max_l, Z.add_0_r by lia. by rewrite u32_small.
Qed.

(** ** Notification *)

(** Calls [next_cache_change_to_be_notified] until it answers the unknown
    sequence number, at most [fuel] times. *)
Fixpoint drain (fuel : nat) (w : WriterProxy) : list SN.SequenceNumber_t * WriterProxy :=
  match fuel with
  | O => ([], w)
  | S fuel =>
      let '(s, w') := next_cache_change_to_be_notified w in
      if SN.eqb s SN.unknown then ([], w')
      else let '(l, w'') := drain fuel w' in (s :: l, w'')
  end.

Lemma next_change_spec w :
  proxy_inv w →
  if decide (SN.val (last_notified_ w) < low w) then
    ∃ s, next_cache_change_to_be_notified w = (s, with_notified w s) ∧ ok s ∧
         SN.val s = SN.val (last_notified_ w) + 1 ∧ proxy_inv (with_notified w s)
  else next_cache_change_to_be_notified w = (SN.unknown, w).
Proof.
  intros Hinv. pose proof Hinv as []. unfold next_cache_change_to_be_notified.
  rewrite SN.ltb_val by auto with mint. case_decide as Hlt.
  - rewrite (proj2 (Z.ltb_lt _ _) Hlt). exists (SN.incr (last_notified_ w)).
    rewrite SN.incr_add by auto with mint. destruct (ok_succ _ pi_notified0) as [Hw Hv].
    assert (Hok : ok (SN.add_u32 (last_notified_ w) 1)) by (split; [done|destruct pi_low0, pi_notified0; lia]).
    split_and!; [done|done|done|]. split; simpl; try done. lia.
  - by rewrite (proj2 (Z.ltb_ge _ _)) by lia.
Qed.

Lemma drain_spec n w fuel :
  proxy_inv w → n = Z.to_nat (low w - SN.val (last_notified_ w)) → (n < fuel)%nat →
  vals (fst (drain fuel w)) = seqZ (SN.val (last_notified_ w) + 1) (Z.of_nat n) ∧
  SN.val (last_notified_ (snd (drain fuel w))) = low w ∧
  changes_from_writer_low_mark_ (snd (drain fuel w)) = changes_from_writer_low_mark_ w ∧
  changes_received_ (snd (drain fuel w)) = changes_received_ w.
Proof.
  revert w fuel. induction n as [|n IH]; intros w [|fuel] Hinv Hn Hf; try lia;
    pose proof (next_change_spec w Hinv) as Hnext; pose proof (pi_notified_le w Hinv); cbn [drain].
  - rewrite decide_False in Hnext by lia. rewrite Hnext. cbn [SN.eqb].
    rewrite (proj2 (SN.eqb_eq _ _) eq_refl). simpl. split_and!; [done|lia|done|done].
  - rewrite decide_True in Hnext by lia. destruct Hnext as (s & -> & Hs & Hv & Hinv').
    rewrite (not_true_is_false (SN.eqb s SN.unknown)).
    2: { intros ->%SN.eqb_eq. destruct Hs as [_ Hs]. unfold SN.unknown, SN.val in Hs. simpl in Hs. lia. }
    destruct (IH (with_notified w s) fuel) as (Hl & Hlast & Hlow & Hrec); [done|simpl; lia|lia|].
    destruct (drain fuel (with_notified w s)) as [l w'']. simpl in *.
    split_and!; [|done..]. rewrite Hl, Hv.
    rewrite (seqZ_cons _ (Z.of_nat (S n))) by lia. do 2 f_equal; lia.
Qed.

(** ** Heartbeats *)

Lemma with_heartbeat_inv w c f r : proxy_inv w ↔ proxy_inv (with_heartbeat w c f r).
Proof. split; intros []; split; done. Qed.

Lemma with_timers_inv w hb ia : proxy_inv w → proxy_inv (with_timers w hb ia).
Proof. intros []; split; done. Qed.

Lemma with_state_inv w st : proxy_inv w → proxy_inv (with_state w st).
Proof. intros []; split; done. Qed.

(** The set and the highest number a heartbeat announces. *)
Lemma heartbeat_set_spec w first_seq last_seq :
  proxy_inv w → ok first_seq → ok last_seq →
  let w' := missing_changes_update (snd (lost_changes_update w first_seq)) last_seq in
  proxy_inv w' ∧ (∀ n, known w' n ↔ known w n ∨ n < SN.val first_seq) ∧
  last_notified_ w' = last_notified_ w ∧ low w <= low w' ∧
  maxv w' = Z.max (Z.max (maxv w) (SN.val first_seq - 1)) (SN.val last_seq).
Proof.
  intros Hinv Hf Hl w'. pose proof (lost_changes_update_spec w first_seq Hinv Hf) as H1.
  unfold w'. destruct (lost_changes_update w first_seq) as [lost w1]. simpl.
  destruct H1 as (Hi1 & Hk1 & Hn1 & Hlow1 & Hm1 & _).
  destruct (missing_changes_update_spec w1 last_seq Hi1 Hl) as (Hi2 & Hr2 & Hlow2 & Hn2 & Hm2).
  split_and!; [done| |by rewrite Hn2|by rewrite Hlow2|by rewrite Hm2, Hm1].
  intros n. rewrite <- Hk1. unfold known. by rewrite Hr2, Hlow2.
Qed.

(** The set, mark, count and flags are not changed by answering. *)
Lemma heartbeat_answer_keeps w f l d :
  let '(_, w', _) := heartbeat_answer w f l d in
  ∃ hb, w' = with_timers w hb (initial_acknack_ w).
Proof.
  unfold heartbeat_answer, restart_heartbeat_response.
  destruct (negb (is_on_same_process_ w)); [|by exists (heartbeat_response_ w); destruct w].
  destruct (TimedEventImpl.go_ready (heartbeat_response_ w)) as [b t].
  destruct (negb f); [destruct (negb d || _)|destruct (f && negb l); [destruct (are_there_missing_changes w)|]].
  all: first [by exists t|by exists (heartbeat_response_ w); destruct w].
Qed.

Lemma are_there_missing_iff w :
  proxy_inv w → are_there_missing_changes w = true ↔ ∃ n, n <= maxv w ∧ ¬ known w n.
Proof.
  intros Hinv. pose proof Hinv as []. unfold are_there_missing_changes.
  rewrite SN.ltb_val, Z.ltb_lt by auto with mint. split.
  - intros Hlt. exists (low w + 1). split; [lia|]. by apply low_mark_first_unknown.
  - intros (n & Hn & Hk). destruct (decide (low w < maxv w)); [done|].
    exfalso. apply Hk. left. lia.
Qed.

(** Whether a heartbeat with these flags calls for an answer. *)
Definition answer_due (w : WriterProxy) (final liveliness disable_positive : bool) : Prop :=
  is_on_same_process_ w = false ∧
  (final = false ∧ (disable_positive = false ∨ are_there_missing_changes w = true) ∨
   final = true ∧ liveliness = false ∧ are_there_missing_changes w = true).

Lemma heartbeat_answer_effects w f l d :
  let '(eff, _, _) := heartbeat_answer w f l d in
  Notify heartbeat_timer ∈ eff ↔
  answer_due w f l d ∧ TimedEventImpl.state_ (heartbeat_response_ w) = TimedEventImpl.INACTIVE.
Proof.
  unfold heartbeat_answer, answer_due, restart_heartbeat_response, TimedEventImpl.go_ready,
    TimedEventImpl.compare_exchange.
  destruct (is_on_same_process_ w); simpl; [split; [by intros ?%elem_of_nil|by intros [[? _] _]]|].
  destruct (are_there_missing_changes w), f, l, d, (TimedEventImpl.state_ (heartbeat_response_ w));
    simpl; rewrite ?list_elem_of_singleton, ?elem_of_nil; intuition congruence.
Qed.

(** The set operations keep everything but the set. *)
Lemma lost_with_changes w s : ∃ r lo m, snd (lost_changes_update w s) = with_changes w r lo m.
Proof.
  unfold lost_changes_update, cleanup. destruct (SN.gtb _ _).
  - simpl. destruct (cleanup_loop _ _) as [r lo]. by eexists r, lo, _.
  - exists (changes_received_ w), (changes_from_writer_low_mark_ w), (max_sequence_number_ w).
    by destruct w.
Qed.

Lemma missing_with_changes w s : ∃ m,
  missing_changes_update w s = with_changes w (changes_received_ w) (changes_from_writer_low_mark_ w) m.
Proof.
  unfold missing_changes_update.
  destruct (SN.gtb _ _); [destruct (SN.gtb _ _); [by exists s|]|];
    exists (max_sequence_number_ w); by destruct w.
Qed.

(** ** Reachable proxies *)

(** The operations of the reader on a proxy: a stopped proxy is only started,
    the others apply to a proxy in use. *)
Inductive step (rd : ReaderInfo) (w : WriterProxy) : WriterProxy → Prop :=
  | step_start attributes initial datasharing :
      is_alive_ w = false → ok initial →
      step rd w (snd (start rd w attributes initial datasharing))
  | step_update attributes : step rd w (update rd w attributes)
  | step_stop : step rd w (snd (stop w))
  | step_received s : is_alive_ w = true → ok s → step rd w (snd (received_change_set w s))
  | step_irrelevant s : is_alive_ w = true → ok s → step rd w (snd (irrelevant_change_set w s))
  | step_lost s : is_alive_ w = true → ok s → step rd w (snd (lost_changes_update w s))
  | step_missing s : is_alive_ w = true → ok s → step rd w (missing_changes_update w s)
  | step_heartbeat count first_seq last_seq final liveliness disable lost :
      is_alive_ w = true → ok first_seq → ok last_seq →
      step rd w (hb_proxy (process_heartbeat w count first_seq last_seq final liveliness disable lost))
  | step_notified : step rd w (snd (next_cache_change_to_be_notified w))
  | step_initial_acknack local : step rd w (snd (perform_initial_ack_nack local w))
  | step_response : step rd w (snd (perform_heartbeat_response w))
  | step_interval us : step rd w (update_heartbeat_response_interval w us).

Inductive reachable (rd : ReaderInfo) : WriterProxy → Prop :=
  | reachable_create max_unicast max_multicast now : reachable rd (create max_unicast max_multicast now)
  | reachable_step w w' : reachable rd w → step rd w w' → reachable rd w'.

(** The invariant of reachable proxies: one not in use has no changes. *)
Definition proxy_ok (w : WriterProxy) : Prop :=
  proxy_inv w ∧ (is_alive_ w = false → changes_received_ w = []).

Lemma cleared_inv w : changes_received_ w = [] → ∀ s, ok s → proxy_inv (loaded_from_storage w s).
Proof.
  intros Hnil s Hs. split; simpl; rewrite ?Hnil; try done; [constructor|by intros n ?%elem_of_nil].
Qed.

Lemma ok_default : ok SN.default.
Proof. split; [SN.sn_unfold|unfold SN.val; simpl]; lia. Qed.

Lemma clear_ok w : proxy_ok (clear w).
Proof. split; [|done]. apply cleared_inv; [done|apply ok_default]. Qed.

Lemma lost_keeps_alive w s : is_alive_ (snd (lost_changes_update w s)) = is_alive_ w.
Proof.
  unfold lost_changes_update, cleanup. destruct (SN.gtb _ _); [|done]. simpl.
  by destruct (cleanup_loop _ _).
Qed.

Lemma missing_keeps_alive w s : is_alive_ (missing_changes_update w s) = is_alive_ w.
Proof. unfold missing_changes_update. destruct (SN.gtb _ _); [|done]. by destruct (SN.gtb _ _). Qed.

Lemma received_with_changes w s : ∃ r lo m, snd (received_change_set w s) = with_changes w r lo m.
Proof.
  assert (∃ r lo m, w = with_changes w r lo m) as Hw
    by (exists (changes_received_ w), (changes_from_writer_low_mark_ w), (max_sequence_number_ w); by destruct w).
  unfold received_change_set, cleanup.
  destruct (SN.leb _ _); [exact Hw|]. destruct (SN.gtb _ _); [destruct (SN.eqb _ _); by do 3 eexists|].
  destruct (SN.eqb _ _); [|destruct (set_mem _ _); [exact Hw|by do 3 eexists]].
  simpl. destruct (cleanup_loop _ _). by do 3 eexists.
Qed.

Lemma received_keeps_alive w s : is_alive_ (snd (received_change_set w s)) = is_alive_ w.
Proof. by destruct (received_with_changes w s) as (? & ? & ? & ->). Qed.

(** What a heartbeat leaves as it is, and that it forgets nothing. *)
Lemma process_heartbeat_ok w count first_seq last_seq f l d lost :
  proxy_inv w → ok first_seq → ok last_seq →
  let w' := hb_proxy (process_heartbeat w count first_seq last_seq f l d lost) in
  proxy_inv w' ∧ is_alive_ w' = is_alive_ w ∧ locators_entry_ w' = locators_entry_ w ∧
  last_notified_ w' = last_notified_ w ∧ (∀ n, known w n → known w' n) ∧ guid_as_vector_ w' = guid_as_vector_ w ∧
  (∀ n, known w' n → known w n ∨ n < SN.val first_seq) ∧
  maxv w <= maxv w' <= Z.max (Z.max (maxv w) (SN.val first_seq - 1)) (SN.val last_seq).
Proof.
  intros Hinv Hf Hl w'. unfold w', process_heartbeat.
  destruct (negb _ && _); [|split_and!; try done; [by left|simpl; lia..]].
  set (w0 := with_heartbeat w _ _ _). assert (Hinv0 : proxy_inv w0) by (by apply with_heartbeat_inv).
  pose proof (heartbeat_set_spec w0 first_seq last_seq Hinv0 Hf Hl) as (Hi & Hkn & Hln & _ & Hm).
  destruct (lost_with_changes w0 first_seq) as (r1 & lo1 & m1 & E1).
  destruct (lost_changes_update w0 first_seq) as [lost' w1]. simpl in Hi, Hkn, Hln, Hm, E1.
  destruct (missing_with_changes w1 last_seq) as (m2 & E2).
  set (w2 := missing_changes_update w1 last_seq) in *. set (w3 := with_heartbeat w2 _ _ _).
  pose proof (heartbeat_answer_keeps w3 f l d) as Hk.
  destruct (heartbeat_answer w3 f l d) as [[eff w4] al]. destruct Hk as [hb ->].
  assert (Hi4 : proxy_inv (with_timers w3 hb (initial_acknack_ w3)))
    by (by apply with_timers_inv, with_heartbeat_inv).
  assert (is_alive_ w2 = is_alive_ w ∧ locators_entry_ w2 = locators_entry_ w ∧ guid_as_vector_ w2 = guid_as_vector_ w)
    as (Ha & Hloc & Hvec) by (by rewrite E2, E1).
  assert (∀ n, known w n → known w2 n) as Hkn' by (intros n Hn; apply Hkn; by left).
  assert (∀ n, known w2 n → known w n ∨ n < SN.val first_seq) as Hkn2 by (intros n Hn; by apply Hkn).
  destruct (negb _); simpl; (split_and!; [|done..|lia|lia]); [by apply with_heartbeat_inv|done].
Qed.

Lemma step_keeps_ok rd w w' : step rd w w' → proxy_ok w → proxy_ok w'.
Proof.
  intros Hstep [Hinv Hnil]. destruct Hstep as [a i ds Hal Hi| | |s Hal Hs|s Hal Hs|s Hal Hs|s Hal Hs
    |c fs ls f l d lo Hal Hf Hl| |local| |us].
  - unfold start, restart_initial_acknack. destruct (TimedEventImpl.go_ready _) as [b t]. split; [|done].
    specialize (cleared_inv w (Hnil Hal) i Hi). intros []; split; done.
  - split; [|done]. destruct Hinv; split; done.
  - unfold stop. destruct (if decide _ then _ else _) as [e1 w1].
    destruct (cancel_heartbeat_response w1) as [e2 w2]. apply clear_ok.
  - pose proof (received_change_set_spec w s Hinv Hs) as Hr.
    pose proof (received_keeps_alive w s) as Ha.
    destruct (received_change_set w s) as [b w']. simpl in *. split; [apply Hr|congruence].
  - pose proof (received_change_set_spec w s Hinv Hs) as Hr.
    pose proof (received_keeps_alive w s) as Ha. unfold irrelevant_change_set.
    destruct (received_change_set w s) as [b w']. simpl in *. split; [apply Hr|congruence].
  - pose proof (lost_changes_update_spec w s Hinv Hs) as Hr. pose proof (lost_keeps_alive w s) as Ha.
    destruct (lost_changes_update w s) as [b w']. simpl in *. split; [apply Hr|congruence].
  - split; [by apply missing_changes_update_spec|]. rewrite missing_keeps_alive. congruence.
  - destruct (process_heartbeat_ok w c fs ls f l d lo Hinv Hf Hl) as (? & Ha & _).
    split; [done|]. rewrite Ha. congruence.
  - pose proof (next_change_spec w Hinv) as Hn. case_decide; [|by rewrite Hn].
    destruct Hn as (s & -> & _ & _ & ?). done.
  - unfold perform_initial_ack_nack, enter_busy, initial_ack_nack_body, leave_busy.
    repeat case_match; simplify_eq/=; try done; split; try done;
      repeat (apply with_state_inv || apply with_timers_inv); try done.
  - unfold perform_heartbeat_response, enter_busy, leave_busy.
    repeat case_match; simplify_eq/=; try done; split; try done; by repeat apply with_state_inv.
  - split; [by apply with_timers_inv|done].
Qed.

(** ** Properties *)

(** C14: every proxy reached from the constructor by the operations of the reader
    satisfies the invariant: the received changes are in increasing order, above
    the change next to the low mark and not above the highest announced number;
    the low mark is the last number before the first unknown one, and nothing
    above it has been notified. *)
Theorem reachable_proxies rd w :
  reachable rd w →
  proxy_inv w ∧ ¬ known w (low w + 1) ∧ (∀ n, n <= low w → known w n) ∧
  (is_alive_ w = false → changes_received_ w = []).
Proof.
  intros Hr. assert (Hok : proxy_ok w)
    by (induction Hr as [mu mm now|w1 w2 _ IH Hstep]; [apply clear_ok|by eapply step_keeps_ok]).
  destruct Hok as [Hinv Hnil]. destruct (low_mark_first_unknown w Hinv). split_and!; done.
Qed.

(** Receiving a change adds exactly its number to the known set; it is
    reported as new exactly when it was not known, and a repeated one leaves the
    proxy as it was.  The low mark only grows. *)
Theorem received_change_exact w s :
  proxy_inv w → ok s →
  let '(new, w') := received_change_set w s in
  proxy_inv w' ∧ (∀ n, known w' n ↔ known w n ∨ n = SN.val s) ∧
  (new = true ↔ ¬ known w (SN.val s)) ∧ (new = false → w' = w) ∧
  low w <= low w' ∧ maxv w' = Z.max (maxv w) (SN.val s) ∧
  (∀ x, ok x → change_was_received w' x = true ↔ known w' (SN.val x)).
Proof.
  intros Hinv Hs. pose proof (received_change_set_spec w s Hinv Hs) as Hr.
  destruct (received_change_set w s) as [new w'].
  destruct Hr as (Hinv' & Hk & _ & Hlow & Hm & Hnew & Hsame).
  split_and!; try done.
  - intros ->. apply Hsame. destruct (decide (known w (SN.val s))) as [?|Hn]; [done|].
    by apply Hnew in Hn.
  - intros x Hx. unfold change_was_received. pose proof Hinv' as [].
    rewrite SN.leb_val by auto with mint. unfold known.
    destruct (Z.leb_spec (SN.val x) (low w')); [by split; [left|]|].
    rewrite set_mem_spec by auto with mint. split; [by right|]. intros [?|?]; [lia|done].
Qed.

(** C15: the set sent in an acknowledgement requests exactly the unknown numbers
    up to the highest announced one that fit in its 256-wide window, based just
    above the low mark. *)
Theorem missing_changes_exact w :
  proxy_inv w →
  SN.val (BitmapRange.base_ (missing_changes w)) = low w + 1 ∧
  item_val <$> BitmapRange.for_each (missing_changes w) =
    filter (λ n, ¬ known w n)
      (seqZ (low w + 1) (Z.min BitmapRange.NBITS (maxv w - low w))).
Proof.
  intros Hinv. destruct (missing_changes_spec w Hinv) as (Hex & _ & Hb & Hmem).
  split; [done|]. rewrite for_each_spec by apply Hex. simpl item_val. rewrite Hb.
  pose proof (pi_le w Hinv).
  replace BitmapRange.NBITS with
    (Z.min BitmapRange.NBITS (maxv w - low w) +
     (BitmapRange.NBITS - Z.min BitmapRange.NBITS (maxv w - low w))) at 1 by lia.
  rewrite seqZ_split, filter_app by (unfold BitmapRange.NBITS; lia).
  rewrite (filter_none (mem _) (seqZ (low w + 1 + _) _)), app_nil_r.
  - apply filter_same. intros n Hn%elem_of_seqZ. rewrite Hmem. split; [tauto|].
    intros Hu. split; [lia|]. split; [lia|done].
  - intros n Hn%elem_of_seqZ. rewrite Hmem. lia.
Qed.

(** C17: when a writer announces that nothing below [s] is available, everything
    below [s] becomes known and the number of changes reported as lost is the
    number of unknown ones below [s], saturated at the largest [int32_t]. *)
Theorem lost_changes_exact w s :
  proxy_inv w → ok s →
  let '(lost, w') := lost_changes_update w s in
  proxy_inv w' ∧ (∀ n, known w' n ↔ known w n ∨ n < SN.val s) ∧ low w <= low w' ∧
  lost = Z.min INT32_MAX
           (Z.of_nat (length (filter (λ n, ¬ known w n) (seqZ (low w + 1) (SN.val s - (low w + 1)))))).
Proof.
  intros Hinv Hs. pose proof (lost_changes_update_spec w s Hinv Hs) as Hr.
  destruct (lost_changes_update w s) as [lost w'].
  destruct Hr as (? & ? & _ & ? & _ & ?). split_and!; done.
Qed.

(** [unknown_missing_changes_up_to] is the number of unknown changes below
    the given one, as long as it fits in 32 bits. *)
Theorem unknown_missing_exact w s :
  proxy_inv w → ok s → SN.val s - low w <= 2 ^ 32 →
  unknown_missing_changes_up_to w s =
    Z.of_nat (length (filter (λ n, ¬ known w n) (seqZ (low w + 1) (SN.val s - (low w + 1))))).
Proof.
  intros Hinv Hs Hle. rewrite unknown_missing_spec by done. apply u32_small.
  pose proof (length_filter (λ n, ¬ known w n) (seqZ (low w + 1) (SN.val s - (low w + 1)))) as Hlen.
  rewrite length_seqZ in Hlen. unfold missing. range_unfold. lia.
Qed.

(** Changes are notified in order, without gaps or repetitions: repeated
    calls of [next_cache_change_to_be_notified] return every number after the
    last notified one up to the low mark, and then the unknown number. *)
Theorem notified_in_order w fuel :
  proxy_inv w → (Z.to_nat (low w - SN.val (last_notified_ w)) < fuel)%nat →
  vals (fst (drain fuel w)) =
    seqZ (SN.val (last_notified_ w) + 1) (low w - SN.val (last_notified_ w)) ∧
  SN.val (last_notified_ (snd (drain fuel w))) = low w ∧
  next_cache_change_to_be_notified (snd (drain fuel w)) = (SN.unknown, snd (drain fuel w)).
Proof.
  intros Hinv Hf. pose proof (pi_notified_le w Hinv).
  destruct (drain_spec _ w fuel Hinv eq_refl Hf) as (Hl & Hlast & Hlow & Hrec).
  rewrite Z2Nat.id in Hl by lia. split_and!; [done..|].
  unfold next_cache_change_to_be_notified. rewrite Hlow.
  destruct (SN.ltb _ _) eqn:Hlt; [|done]. exfalso.
  assert (Hd : ∀ fuel w, proxy_inv w → SN.wf (last_notified_ (snd (drain fuel w)))).
  { clear. induction fuel as [|fuel IH]; intros w Hw; cbn [drain]; [apply (pi_notified w Hw)|].
    pose proof (next_change_spec w Hw) as Hn. case_decide.
    - destruct Hn as (s & -> & Hs & _ & Hw'). destruct (SN.eqb s SN.unknown); [apply Hs|].
      specialize (IH _ Hw'). by destruct (drain fuel (with_notified w s)).
    - rewrite Hn. rewrite (proj2 (SN.eqb_eq _ _) eq_refl). apply (pi_notified w Hw). }
  rewrite SN.ltb_val in Hlt; [|by apply Hd|apply Hinv]. apply Z.ltb_lt in Hlt. lia.
Qed.

(** C16: a heartbeat is accepted exactly when the proxy is in use and its count
    is new; otherwise nothing changes.  An accepted one makes everything below
    its first number known, raises the highest announced number, reports the
    changes lost (none on the first heartbeat) and starts the answer timer
    exactly when its flags and the missing changes call for an answer. *)
Theorem heartbeat_contract w count first_seq last_seq f l d lost :
  proxy_inv w → ok first_seq → ok last_seq →
  let r := process_heartbeat w count first_seq last_seq f l d lost in
  let w' := hb_proxy r in
  (hb_accepted r = true ↔ state_ w ≠ STOPPED ∧ last_heartbeat_count_ w < count) ∧
  (hb_accepted r = false →
     w' = w ∧ hb_effects r = [] ∧ hb_sample_lost r = lost ∧ hb_assert_liveliness r = false) ∧
  (hb_accepted r = true →
     proxy_inv w' ∧ last_heartbeat_count_ w' = count ∧
     (∀ n, known w' n ↔ known w n ∨ n < SN.val first_seq) ∧
     maxv w' = Z.max (Z.max (maxv w) (SN.val first_seq - 1)) (SN.val last_seq) ∧
     hb_sample_lost r = (if received_at_least_one_heartbeat_ w
       then Z.min INT32_MAX (Z.of_nat (length (missing w (low w + 1) (SN.val first_seq)))) else 0) ∧
     (Notify heartbeat_timer ∈ hb_effects r ↔
        TimedEventImpl.state_ (heartbeat_response_ w) = TimedEventImpl.INACTIVE ∧
        is_on_same_process_ w = false ∧
        (f = false ∧ (d = false ∨ ∃ n, n <= maxv w' ∧ ¬ known w' n) ∨
         f = true ∧ l = false ∧ ∃ n, n <= maxv w' ∧ ¬ known w' n))).
Proof.
  intros Hinv Hf Hl r w'. subst w' r. unfold process_heartbeat.
  assert (Hcond : negb (bool_decide (state_ w = STOPPED)) && (last_heartbeat_count_ w <? count) = true ↔
    state_ w ≠ STOPPED ∧ last_heartbeat_count_ w < count).
  { rewrite andb_true_iff, negb_true_iff, bool_decide_eq_false, Z.ltb_lt. done. }
  destruct (negb _ && _).
  2: { simpl. split_and!; [by rewrite <- Hcond|done|done]. }
  set (w0 := with_heartbeat w count _ _). assert (Hinv0 : proxy_inv w0) by (by apply with_heartbeat_inv).
  pose proof (heartbeat_set_spec w0 first_seq last_seq Hinv0 Hf Hl) as (Hi & Hk & _ & _ & Hm).
  pose proof (lost_changes_update_spec w0 first_seq Hinv0 Hf) as Hlost.
  destruct (lost_with_changes w0 first_seq) as (r1 & lo1 & m1 & Hw1).
  destruct (lost_changes_update w0 first_seq) as [lost' w1]. simpl in Hw1, Hi, Hk, Hm.
  destruct Hlost as (_ & _ & _ & _ & _ & Hlost).
  destruct (missing_with_changes w1 last_seq) as (m2 & Hw2).
  set (w2 := missing_changes_update w1 last_seq) in *. set (w3 := with_heartbeat w2 _ _ _).
  pose proof (heartbeat_answer_keeps w3 f l d) as Hkeep.
  pose proof (heartbeat_answer_effects w3 f l d) as Heff.
  destruct (heartbeat_answer w3 f l d) as [[eff w4] al]. destruct Hkeep as [hb ->].
  assert (Hinv3 : proxy_inv w3) by (by apply with_heartbeat_inv).
  pose proof (are_there_missing_iff w3 Hinv3) as Hmiss. unfold answer_due in Heff. rewrite Hmiss in Heff.
  assert (Hctl : is_on_same_process_ w3 = is_on_same_process_ w ∧
    heartbeat_response_ w3 = heartbeat_response_ w ∧ last_heartbeat_count_ w3 = count ∧
    received_at_least_one_heartbeat_ w3 = received_at_least_one_heartbeat_ w)
    by (unfold w3; rewrite Hw2, Hw1; done).
  destruct Hctl as (Hsp & Hhb & Hcnt & Hrec). rewrite Hsp, Hhb in Heff.
  change (received_at_least_one_heartbeat_ (with_timers w3 hb (initial_acknack_ w3)))
    with (received_at_least_one_heartbeat_ w3). rewrite Hrec.
  assert (Hiv4 : proxy_inv (with_timers w3 hb (initial_acknack_ w3))) by (by apply with_timers_inv).
  destruct (received_at_least_one_heartbeat_ w); simpl;
    (split; [by rewrite <- Hcond|]); (split; [done|]); intros _;
    (split; [first [done|by apply with_heartbeat_inv]|]);
    (split; [done|]); (split; [exact Hk|]); (split; [exact Hm|]); (split; [done|]);
    (etrans; [exact Heff|]); tauto.
Qed.

(** ** Stopping against the event thread

    The event thread runs the callbacks in two steps, so that the operations of
    the reader, [stop] among them, may come in between. *)

Inductive EventThread := Outside | InInitialAckNack | InHeartbeatResponse.

Inductive cstep (rd : ReaderInfo) : WriterProxy * EventThread → list Effect →
    WriterProxy * EventThread → Prop :=
  | cs_enter w t w' entered :
      t ≠ Outside → enter_busy w = (entered, w') →
      cstep rd (w, Outside) [] (w', if entered then t else Outside)
  | cs_finish_initial local w restart eff w' :
      initial_ack_nack_body local w = (restart, eff, w') →
      cstep rd (w, InInitialAckNack) eff (leave_busy w', Outside)
  | cs_finish_response w :
      cstep rd (w, InHeartbeatResponse) [SendHeartbeatResponse (heartbeat_final_flag_ w)]
        (leave_busy w, Outside)
  | cs_stop w t : cstep rd (w, t) (fst (stop w)) (snd (stop w), t)
  | cs_heartbeat w t count first_seq last_seq f l d lost :
      let r := process_heartbeat w count first_seq last_seq f l d lost in
      cstep rd (w, t) (hb_effects r) (hb_proxy r, t)
  | cs_received w t s : cstep rd (w, t) [] (snd (received_change_set w s), t)
  | cs_lost w t s : cstep rd (w, t) [] (snd (lost_changes_update w s), t)
  | cs_missing w t s : cstep rd (w, t) [] (missing_changes_update w s, t)
  | cs_notified w t : cstep rd (w, t) [] (snd (next_cache_change_to_be_notified w), t)
  | cs_update w t attributes : cstep rd (w, t) [] (update rd w attributes, t).

Inductive csteps (rd : ReaderInfo) : WriterProxy * EventThread → list Effect →
    WriterProxy * EventThread → Prop :=
  | csteps_refl c : csteps rd c [] c
  | csteps_step c1 c2 c3 eff1 eff2 :
      cstep rd c1 eff1 c2 → csteps rd c2 eff2 c3 → csteps rd c1 (eff1 ++ eff2) c3.

Definition is_send (e : Effect) : bool :=
  match e with
  | SendAckNack _ | SendHeartbeatResponse _ | ProcessLocalAckNack _ => true
  | Notify _ | Recreate _ => false
  end.

Lemma stop_spec w :
  state_ (snd (stop w)) = STOPPED ∧ Forall (λ e, is_send e = false) (fst (stop w)).
Proof.
  unfold stop, recreate_initial_acknack, cancel_initial_acknack, cancel_heartbeat_response,
    TimedEventImpl.go_cancel.
  destruct (decide (state_ w = BUSY)); simpl;
    repeat (case_bool_decide; simpl); (split; [done|by repeat constructor]).
Qed.

Lemma received_keeps_state w s : state_ (snd (received_change_set w s)) = state_ w.
Proof.
  unfold received_change_set, cleanup.
  destruct (SN.leb _ _); [done|]. destruct (SN.gtb _ _); [by destruct (SN.eqb _ _)|].
  destruct (SN.eqb _ _); [|by destruct (set_mem _ _)]. simpl. by destruct (cleanup_loop _ _).
Qed.

Lemma stopped_step rd w t eff w' t' :
  cstep rd (w, t) eff (w', t') → state_ w = STOPPED →
  state_ w' = STOPPED ∧ (t = Outside → t' = Outside ∧ Forall (λ e, is_send e = false) eff).
Proof.
  intros Hstep Hst. inversion Hstep; subst; simpl in *.
  - unfold enter_busy in *. rewrite decide_False in * by congruence. simplify_eq. done.
  - split; [|done]. unfold initial_ack_nack_body in *.
    unfold leave_busy. repeat case_match; simplify_eq/=; congruence.
  - split; [|done]. unfold leave_busy. by rewrite decide_False by congruence.
  - destruct (stop_spec w). done.
  - subst r. unfold process_heartbeat. rewrite Hst. done.
  - by rewrite received_keeps_state.
  - destruct (lost_with_changes w s) as (r & lo & m & ->). done.
  - destruct (missing_with_changes w s) as (m & ->). done.
  - unfold next_cache_change_to_be_notified. by destruct (SN.ltb _ _).
  - done.
Qed.

(** Stopping is final: once the proxy is stopped it stays stopped whatever
    the event thread and the reader do until the next start, a callback caught in
    the middle included, and a callback that starts afterwards sends nothing. *)
Theorem stopped_proxies_stay_silent rd w t eff w' t' :
  csteps rd (snd (stop w), t) eff (w', t') →
  state_ w' = STOPPED ∧
  (t = Outside → t' = Outside ∧ Forall (λ e, is_send e = false) eff).
Proof.
  assert (Hgen : ∀ c eff c', csteps rd c eff c' → state_ (fst c) = STOPPED →
    state_ (fst c') = STOPPED ∧
    (snd c = Outside → snd c' = Outside ∧ Forall (λ e, is_send e = false) eff)).
  { induction 1 as [c|[w1 t1] [w2 t2] c3 eff1 eff2 H1 _ IH]; intros Hst; simpl in *; [done|].
    destruct (stopped_step _ _ _ _ _ _ H1 Hst) as [Hst2 Hout]. destruct (IH Hst2) as [Hst3 Hout3].
    split; [done|]. intros Ht. destruct (Hout Ht) as [Ht2 Hf1]. destruct (Hout3 Ht2) as [? Hf2].
    split; [done|]. by apply Forall_app. }
  intros Hc. apply (Hgen _ _ _ Hc). simpl. apply stop_spec.
Qed.

(** ** Witnesses *)

Definition sample_reader : ReaderInfo :=
  mkReader (Guid.mkGUID (GuidPrefix.guid_prefix_create (GuidPrefix.guid_utils_prefix 1 2 3) 1)
              (EntityId.of_uint32 0x104)) 5000 70000 [] false Guid.INTRAPROCESS_OFF.

Definition sample_data : WriterProxyData :=
  mkData (Guid.mkGUID (GuidPrefix.guid_prefix_create (GuidPrefix.guid_utils_prefix 1 9 7) 1)
            (EntityId.of_uint32 0x103)) Guid.c_Guid_Unknown 0 0
    [Locator.mkLocator Locator.LOCATOR_KIND_UDPv4 7411 (replicate 12 0 ++ [10; 0; 0; 1])] [].

Abbreviation sn n := (SN.mkSN 0 n).

(** A proxy in use that has received changes 1, 2, 5 and 6 of a writer that has
    announced 9. *)
Definition started : WriterProxy := snd (start sample_reader (create 4 1 0) sample_data (sn 0) false).
Definition receive (l : list Z) (w : WriterProxy) : WriterProxy :=
  fold_left (λ w n, snd (received_change_set w (sn n))) l w.
Definition sample_proxy : WriterProxy :=
  missing_changes_update (receive [1; 5; 2; 6] started) (sn 9).

Lemma ok_small n : 0 <= n < 2 ^ 32 → ok (sn n).
Proof. intros Hn. split; [by apply small_wf|]. unfold SN.val; simpl. lia. Qed.

Lemma sample_reachable : reachable sample_reader sample_proxy.
Proof.
  eapply reachable_step; [|apply step_missing; [reflexivity|apply ok_small; lia]].
  do 4 (eapply reachable_step; [|apply step_received; [reflexivity|apply ok_small; lia]]).
  eapply reachable_step; [|apply step_start; [reflexivity|apply ok_small; lia]].
  apply reachable_create.
Qed.

Lemma sample_inv : proxy_inv sample_proxy.
Proof.
  enough (proxy_ok sample_proxy) as [? _] by done.
  induction sample_reachable as [mu mm now|w1 w2 _ IH Hstep]; [apply clear_ok|by eapply step_keeps_ok].
Qed.

Lemma reachable_proxies_witness : proxy_inv sample_proxy ∧ ¬ known sample_proxy 3.
Proof.
  destruct (reachable_proxies sample_reader sample_proxy sample_reachable) as (Hinv & Hn & _).
  split; [exact Hinv|exact Hn].
Defined.

Lemma received_change_exact_witness :
  fst (received_change_set sample_proxy (sn 3)) = true ∧
  (∀ n, known (snd (received_change_set sample_proxy (sn 3))) n ↔ known sample_proxy n ∨ n = 3) ∧
  low (snd (received_change_set (snd (received_change_set sample_proxy (sn 3))) (sn 4))) = 6.
Proof.
  pose proof (received_change_exact sample_proxy (sn 3) sample_inv (ok_small 3 ltac:(lia))) as Hr.
  split; [reflexivity|]. split; [|reflexivity].
  destruct (received_change_set sample_proxy (sn 3)) as [new w']. apply Hr.
Defined.

Lemma missing_changes_exact_witness :
  item_val <$> BitmapRange.for_each (missing_changes sample_proxy) =
    filter (λ n, ¬ known sample_proxy n) (seqZ 3 7) ∧
  item_val <$> BitmapRange.for_each (missing_changes sample_proxy) = [3; 4; 7; 8; 9].
Proof.
  split; [|vm_compute; reflexivity].
  destruct (missing_changes_exact sample_proxy sample_inv) as [_ Heq]. exact Heq.
Defined.

Lemma lost_changes_exact_witness :
  fst (lost_changes_update sample_proxy (sn 8)) = 3 ∧
  fst (lost_changes_update sample_proxy (sn 8)) = Z.min INT32_MAX
    (Z.of_nat (length (filter (λ n, ¬ known sample_proxy n) (seqZ 3 5)))).
Proof.
  split; [vm_compute; reflexivity|].
  pose proof (lost_changes_exact sample_proxy (sn 8) sample_inv (ok_small 8 ltac:(lia))) as Hr.
  destruct (lost_changes_update sample_proxy (sn 8)) as [lost w']. apply Hr.
Defined.

Lemma unknown_missing_exact_witness :
  unknown_missing_changes_up_to sample_proxy (sn 8) = 3 ∧
  unknown_missing_changes_up_to sample_proxy (sn 8) =
    Z.of_nat (length (filter (λ n, ¬ known sample_proxy n) (seqZ 3 5))).
Proof.
  split; [vm_compute; reflexivity|].
  apply (unknown_missing_exact sample_proxy (sn 8) sample_inv); [apply ok_small; lia|].
  vm_compute. discriminate.
Defined.

Lemma notified_in_order_witness :
  vals (fst (drain 3 sample_proxy)) = [1; 2].
Proof.
  destruct (notified_in_order sample_proxy 3 sample_inv) as [Hl _]; [vm_compute; lia|].
  exact Hl.
Defined.

Lemma heartbeat_contract_witness :
  let r := process_heartbeat sample_proxy 1 (sn 1) (sn 12) false false false 7 in
  hb_accepted r = true ∧ maxv (hb_proxy r) = 12 ∧ Notify heartbeat_timer ∈ hb_effects r.
Proof.
  destruct (heartbeat_contract sample_proxy 1 (sn 1) (sn 12) false false false 7 sample_inv)
    as (_ & _ & Hacc); [apply ok_small; lia|apply ok_small; lia|].
  destruct Hacc as (_ & _ & _ & Hm & _ & Hn); [reflexivity|].
  split; [reflexivity|]. split; [rewrite Hm; reflexivity|]. apply Hn.
  split; [reflexivity|]. split; [reflexivity|]. left. split; [reflexivity|]. left. reflexivity.
Defined.

Lemma stopped_proxies_stay_silent_witness :
  let w1 := snd (stop (snd (enter_busy sample_proxy))) in
  let w2 := leave_busy w1 in
  state_ w2 = STOPPED ∧ csteps sample_reader (w1, InHeartbeatResponse)
    ([SendHeartbeatResponse false] ++ []) (w2, Outside).
Proof.
  assert (Hs : csteps sample_reader (snd (stop (snd (enter_busy sample_proxy))), InHeartbeatResponse)
    ([SendHeartbeatResponse false] ++ [])
    (leave_busy (snd (stop (snd (enter_busy sample_proxy)))), Outside))
    by (eapply csteps_step; [apply cs_finish_response|apply csteps_refl]).
  split; [|exact Hs].
  apply (stopped_proxies_stay_silent sample_reader _ _ _ _ _ Hs).
Defined.
