(* ===== verification/RTPSReader.v ===== *)
(** * What readers share

    [RTPSReader] (src/cpp/rtps/reader/RTPSReader.cpp), the base class of the
    stateful and stateless readers: which sequence number was last notified for
    each writer, the reservation of changes, and the data filter.

    - The two pools and the listener are other components: the classes [ReaderPools]
      and [ReaderListener] say what a reader asks of them.
    - The maps of ReaderHistoryState.hpp are finite maps over identifiers. *)

From stdpp Require Import gmap.
From S2P Require Import Prelude.
From S2P Require Import SeqNum.
From S2P Require Import Guid.
From S2P Require Import CacheChange.
From S2P Require Import Pools.
From S2P Require Import History.

#[export] Existing Instance Guid.GUID_eq_dec.

#[export] Instance GUID_countable : Countable Guid.GUID_t.
Proof.
  refine (inj_countable' (λ g, (Guid.guidPrefix g, Guid.entityId g)) (λ '(p, e), Guid.mkGUID p e) _).
  by intros [].
Defined.

(** The pool of changes and the pool of payloads of a reader.  A payload is asked
    for by its size ([get_payload(size, change)]) or for the octets of another one
    ([get_payload(data, owner, change)]); [None] when the pool refuses. *)
Class ReaderPools (P : Type) := {
  reserve_cache : P → bool * P;
  release_cache : P → P;
  get_payload : P → Z → option Payload.SerializedPayload_t * P;
  get_payload_for : P → Payload.SerializedPayload_t → option Payload.SerializedPayload_t * P;
  release_payload : P → Payload.SerializedPayload_t → P
}.

(** What the pools promise: room for what was asked, and the same octets. *)
Class ReaderPoolsLaws (P : Type) `{ReaderPools P} := {
  get_payload_room p size pl p' :
    get_payload p size = (Some pl, p') →
    size <= Payload.max_size pl ∧
    Payload.max_size pl <= Z.of_nat (length (from_option id [] (Payload.data pl)));
  get_payload_for_octets p data pl p' :
    get_payload_for p data = (Some pl, p') →
    Payload.length pl = Payload.length data ∧
    take (Z.to_nat (Payload.length data)) (from_option id [] (Payload.data pl)) =
    take (Z.to_nat (Payload.length data)) (from_option id [] (Payload.data data))
}.

Inductive DiscoveryKind := DISCOVERED_WRITER | CHANGED_QOS_WRITER | REMOVED_WRITER.

(** [ReaderListener].  The two calls that make changes available also return the
    changes, by writer and number, that the listener removes from the history of
    the reader while it runs. *)
Class ReaderListener (L : Type) := {
  on_data_available : L → Guid.GUID_t → SN.SequenceNumber_t → SN.SequenceNumber_t →
    bool * list (Guid.GUID_t * SN.SequenceNumber_t) * L;
  onNewCacheChangeAdded : L → CacheChange.CacheChange_t → list (Guid.GUID_t * SN.SequenceNumber_t) * L;
  on_sample_lost : L → Z → L;
  on_writer_discovery : L → DiscoveryKind → Guid.GUID_t → L
}.

Module RTPSReader.
Import CacheChange.

(** [ReaderHistoryState]: the counts are of 16 bits. *)
Record ReaderHistoryState := mkState {
  persistence_guid_map : gmap Guid.GUID_t Guid.GUID_t;
  persistence_guid_count : gmap Guid.GUID_t Z;
  history_record : gmap Guid.GUID_t SN.SequenceNumber_t
}.

Definition empty_state : ReaderHistoryState := mkState ∅ ∅ ∅.

(** [map[key]], which makes the default value for a missing key. *)
Definition count_of (s : ReaderHistoryState) (g : Guid.GUID_t) : Z :=
  default 0 (persistence_guid_count s !! g).

(** The identifier under which the numbers of a writer are recorded. *)
Definition guid_to_look (s : ReaderHistoryState) (g : Guid.GUID_t) : Guid.GUID_t :=
  default g (persistence_guid_map s !! g).

Definition get_last_notified (s : ReaderHistoryState) (g : Guid.GUID_t) : SN.SequenceNumber_t :=
  default SN.default (history_record s !! guid_to_look s g).

Definition set_last_notified (s : ReaderHistoryState) (g : Guid.GUID_t) (seq : SN.SequenceNumber_t)
    : ReaderHistoryState :=
  mkState (persistence_guid_map s) (persistence_guid_count s) (<[g := seq]> (history_record s)).

(** The number before is returned too. *)
Definition update_last_notified (s : ReaderHistoryState) (g : Guid.GUID_t) (seq : SN.SequenceNumber_t)
    : SN.SequenceNumber_t * ReaderHistoryState :=
  let ret_val := get_last_notified s g in
  (ret_val, if SN.ltb ret_val seq then set_last_notified s (guid_to_look s g) seq else s).

Definition add_persistence_guid (s : ReaderHistoryState) (g persistence_guid : Guid.GUID_t)
    : ReaderHistoryState :=
  if Guid.eqb Guid.c_Guid_Unknown persistence_guid || Guid.eqb persistence_guid g then
    mkState (<[g := g]> (persistence_guid_map s))
      (<[g := u16 (count_of s g + 1)]> (persistence_guid_count s)) (history_record s)
  else
    let s := mkState (<[g := persistence_guid]> (persistence_guid_map s))
      (<[persistence_guid := u16 (count_of s persistence_guid + 1)]> (persistence_guid_count s))
      (history_record s) in
    match history_record s !! g with
    | Some spourious_record =>
        let s := (update_last_notified s g spourious_record).2 in
        mkState (persistence_guid_map s) (persistence_guid_count s) (delete g (history_record s))
    | None => s
    end.

Definition may_remove_history_record (removed_by_lease : bool) : bool := negb removed_by_lease.

Definition remove_persistence_guid (s : ReaderHistoryState) (g persistence_guid : Guid.GUID_t)
    (removed_by_lease : bool) : ReaderHistoryState :=
  let stored := if Guid.eqb Guid.c_Guid_Unknown persistence_guid then g else persistence_guid in
  let count := u16 (count_of s stored - 1) in
  let counts := <[stored := count]> (persistence_guid_count s) in
  if (count <=? 0) && may_remove_history_record removed_by_lease
  then mkState (delete g (persistence_guid_map s)) (delete stored counts) (delete stored (history_record s))
  else mkState (delete g (persistence_guid_map s)) counts (history_record s).

(** [change_is_relevant_for_filter]: only changes of samples that are alive are
    shown to the filter. *)
Definition change_is_relevant_for_filter (change : CacheChange_t) (reader_guid : Guid.GUID_t)
    (filter : option (CacheChange_t → Guid.GUID_t → bool)) : bool :=
  match filter with
  | Some is_relevant => negb (bool_decide (kind change = ALIVE) && negb (is_relevant change reader_guid))
  | None => true
  end.

(** [findCacheInFragmentedProcess]: the iterator of the search, and the change
    itself if it misses fragments. *)
Definition findCacheInFragmentedProcess (h : History.History) (sequence_number : SN.SequenceNumber_t)
    (writer_guid : Guid.GUID_t) (hint : nat) : option CacheChange_t * nat :=
  let '(change, it) := History.get_change_nts h sequence_number writer_guid hint in
  (match change with
   | Some c => if is_fully_assembled c then None else Some c
   | None => None
   end, it).

Section pools.
Context {P : Type} `{ReaderPools P}.

(** [reserveCache]: a change without content, with a payload of the size asked for
    or of the fixed size. *)
Definition reserveCache (p : P) (fixed_payload_size_ dataCdrSerializedSize : Z)
    : option CacheChange_t * P :=
  let '(ok, p) := reserve_cache p in
  if ok : bool then
    let size := if fixed_payload_size_ =? 0 then dataCdrSerializedSize else fixed_payload_size_ in
    let '(payload, p) := get_payload p size in
    match payload with
    | Some payload => (Some (with_payload ChangePool.new_change payload), p)
    | None => (None, release_cache p)
    end
  else (None, p).

Definition releaseCache (p : P) (change : CacheChange_t) : P :=
  release_cache (release_payload p (serializedPayload change)).

End pools.
End RTPSReader.
