(* ===== verification/StatefulReader.v ===== *)
(** * The stateful reader

    [StatefulReader] (src/cpp/rtps/reader/StatefulReader.cpp): a reliable reader
    that composes a writer proxy per matched writer with its history.

    - The reader and its history refer to each other.  A state is a [ReaderHistory]
      whose reader is the record [StatefulReader] below; what the history calls when
      it removes a change is the instance [stateful_history_reader].
    - A pointer to a writer proxy is its place in [matched_writers_], a pointer to a
      change of the history its place there.  To follow a pointer to a proxy or a
      change that is gone is undefined; with the PREALLOCATED memory policies the code then
      reads a change that went back to the pool and may be in use for another sample.
    - The history is of the class [ReaderHistory] itself: [received_change] gives no
      reason for a rejection and [completed_change] accepts every change.
    - Data sharing is off, so no proxy is one of a data sharing writer.  Ownership
      strengths are only looked at by other histories and are left out.
    - What goes out of the reader is noted in [log]. *)

From S2P Require Import Prelude.
From S2P Require Import SeqNum.
From S2P Require Import Bitmap.
From S2P Require Import Containers.
From S2P Require Import Guid.
From S2P Require Import CacheChange.
From S2P Require Import Pools.
From S2P Require Import History.
From S2P Require Import Locator.
From S2P Require Import LocatorSelector.
From S2P Require Import WriterProxy.
From S2P Require Import RTPSReader.

Module StatefulReader.
Import CacheChange RTPSReader.
#[export] Existing Instance ReaderHistory.reader_history_impl.

Definition MANUAL_BY_TOPIC_LIVELINESS_QOS : Z := 2.

(** What the reader does outside of itself. *)
Inductive Event :=
  (** What a writer proxy asked for. *)
  | ProxyEffect (writer : Guid.GUID_t) (e : WriterProxy.Effect)
  (** [group.add_acknack] and [group.add_nackfrag]. *)
  | AckNack (writer : Guid.GUID_t) (sns : SequenceNumberSet_t) (count : Z) (final : bool)
  | NackFrag (writer : Guid.GUID_t) (seq : SN.SequenceNumber_t) (fns : FragmentNumberSet_t) (count : Z)
  (** The liveliness manager of the participant. *)
  | LivelinessAsserted (writer : Guid.GUID_t)
  | LivelinessAdded (writer : Guid.GUID_t)
  | LivelinessRemoved (writer : Guid.GUID_t)
  (** [createSenderResources]. *)
  | SenderResource (l : Locator.Locator_t).

(** The attributes that do not change. *)
Record Config := mkConfig {
  liveliness_lease_finite : bool;
  liveliness_kind_ : Z;
  wlp_enabled : bool;
  m_acceptMessagesFromUnkownWriters : bool;
  m_trustedWriterEntityId : EntityId.EntityId_t;
  disable_positive_acks_ : bool;
  fixed_payload_size_ : Z;
  data_filter_ : option (CacheChange_t → Guid.GUID_t → bool);
  max_unicast_locators : Z;
  max_multicast_locators : Z
}.

Definition guid (w : WriterProxy.WriterProxy) : Guid.GUID_t :=
  LocatorSelector.remote_guid (WriterProxy.locators_entry_ w).

Definition with_handle (c : CacheChange_t) (handle : option (list Z)) : CacheChange_t :=
  mkChange (kind c) (writerGUID c) handle (sequenceNumber c) (serializedPayload c) (inline_qos c)
    (isRead c) (sourceTimestamp c) (receptionTimestamp c) (vendor_id c) (write_params c)
    (is_untyped_ c) (fragment_size_ c) (fragment_count_ c) (first_missing_fragment_ c).

Definition with_read (c : CacheChange_t) (read : bool) : CacheChange_t :=
  mkChange (kind c) (writerGUID c) (instanceHandle c) (sequenceNumber c) (serializedPayload c)
    (inline_qos c) read (sourceTimestamp c) (receptionTimestamp c) (vendor_id c) (write_params c)
    (is_untyped_ c) (fragment_size_ c) (fragment_count_ c) (first_missing_fragment_ c).

Definition with_reception (c : CacheChange_t) (t : Time_t) : CacheChange_t :=
  mkChange (kind c) (writerGUID c) (instanceHandle c) (sequenceNumber c) (serializedPayload c)
    (inline_qos c) (isRead c) (sourceTimestamp c) t (vendor_id c) (write_params c)
    (is_untyped_ c) (fragment_size_ c) (fragment_count_ c) (first_missing_fragment_ c).

Definition with_qos (c : CacheChange_t) (qos : Payload.SerializedPayload_t) : CacheChange_t :=
  mkChange (kind c) (writerGUID c) (instanceHandle c) (sequenceNumber c) (serializedPayload c)
    qos (isRead c) (sourceTimestamp c) (receptionTimestamp c) (vendor_id c) (write_params c)
    (is_untyped_ c) (fragment_size_ c) (fragment_count_ c) (first_missing_fragment_ c).

Section reader.
Context {P L : Type} `{!ReaderPools P} `{!ReaderListener L}.

Record StatefulReader := mkStateful {
  info : WriterProxy.ReaderInfo;
  is_alive_ : bool;
  matched_writers_ : RLV.t WriterProxy.WriterProxy;
  matched_writers_pool_ : RLV.t WriterProxy.WriterProxy;
  acknack_count_ : Z;
  nackfrag_count_ : Z;
  total_unread_ : Z;
  history_state_ : ReaderHistoryState;
  pools : P;
  mp_listener : option L;
  log : list Event
}.

Implicit Types r : StatefulReader.

Definition with_writers r (matched pool : RLV.t WriterProxy.WriterProxy) : StatefulReader :=
  mkStateful (info r) (is_alive_ r) matched pool (acknack_count_ r) (nackfrag_count_ r)
    (total_unread_ r) (history_state_ r) (pools r) (mp_listener r) (log r).

Definition with_counts r (acknacks nackfrags : Z) : StatefulReader :=
  mkStateful (info r) (is_alive_ r) (matched_writers_ r) (matched_writers_pool_ r) acknacks nackfrags
    (total_unread_ r) (history_state_ r) (pools r) (mp_listener r) (log r).

Definition with_unread r (n : Z) : StatefulReader :=
  mkStateful (info r) (is_alive_ r) (matched_writers_ r) (matched_writers_pool_ r) (acknack_count_ r)
    (nackfrag_count_ r) n (history_state_ r) (pools r) (mp_listener r) (log r).

Definition with_record r (s : ReaderHistoryState) : StatefulReader :=
  mkStateful (info r) (is_alive_ r) (matched_writers_ r) (matched_writers_pool_ r) (acknack_count_ r)
    (nackfrag_count_ r) (total_unread_ r) s (pools r) (mp_listener r) (log r).

Definition with_pools r (p : P) : StatefulReader :=
  mkStateful (info r) (is_alive_ r) (matched_writers_ r) (matched_writers_pool_ r) (acknack_count_ r)
    (nackfrag_count_ r) (total_unread_ r) (history_state_ r) p (mp_listener r) (log r).

Definition with_listener r (l : option L) : StatefulReader :=
  mkStateful (info r) (is_alive_ r) (matched_writers_ r) (matched_writers_pool_ r) (acknack_count_ r)
    (nackfrag_count_ r) (total_unread_ r) (history_state_ r) (pools r) l (log r).

Definition with_info r (i : WriterProxy.ReaderInfo) : StatefulReader :=
  mkStateful i (is_alive_ r) (matched_writers_ r) (matched_writers_pool_ r) (acknack_count_ r)
    (nackfrag_count_ r) (total_unread_ r) (history_state_ r) (pools r) (mp_listener r) (log r).

Definition emit r (l : list Event) : StatefulReader :=
  mkStateful (info r) (is_alive_ r) (matched_writers_ r) (matched_writers_pool_ r) (acknack_count_ r)
    (nackfrag_count_ r) (total_unread_ r) (history_state_ r) (pools r) (mp_listener r) (log r ++ l).

Definition m_guid r : Guid.GUID_t := WriterProxy.r_guid (info r).

Definition writers r : list WriterProxy.WriterProxy := RLV.collection_ (matched_writers_ r).

Definition set_proxy r (i : nat) (w : WriterProxy.WriterProxy) : StatefulReader :=
  with_writers r (RLV.with_items (matched_writers_ r) (<[i := w]> (writers r))) (matched_writers_pool_ r).

(** ** Matched writers *)

Definition findWriterProxy r (writerGUID : Guid.GUID_t) : option nat :=
  fst <$> list_find (λ w, Guid.eqb (guid w) writerGUID && WriterProxy.is_alive_ w = true) (writers r).

Definition matched_writer_is_matched r (writer_guid : Guid.GUID_t) : bool :=
  is_alive_ r && bool_decide (is_Some (findWriterProxy r writer_guid)).

Definition matched_writer_lookup r (writerGUID : Guid.GUID_t) : option nat :=
  if is_alive_ r then findWriterProxy r writerGUID else None.

(** [None]: not accepted; [Some None]: accepted from a writer without a proxy. *)
Definition acceptMsgFrom (cfg : Config) r (writerId : Guid.GUID_t) : option (option nat) :=
  match findWriterProxy r writerId with
  | Some i => Some (Some i)
  | None =>
      if m_acceptMessagesFromUnkownWriters cfg
        && EntityId.eqb (Guid.entityId writerId) (m_trustedWriterEntityId cfg)
      then Some None else None
  end.

(** ** What the history calls *)

Definition one_read r : StatefulReader :=
  if 0 <? total_unread_ r then with_unread r (total_unread_ r - 1) else r.

Definition irrelevant_change r (i : nat) (seq : SN.SequenceNumber_t) : bool * StatefulReader :=
  match writers r !! i with
  | Some w => let '(changed, w) := WriterProxy.irrelevant_change_set w seq in (changed, set_proxy r i w)
  | None => (false, r)
  end.

Definition change_removed_by_history r (a_change : CacheChange_t) (wp : option nat)
    : bool * StatefulReader :=
  if is_alive_ r then
    if is_fully_assembled a_change then
      let r := if negb (isRead a_change)
                  && SN.geb (get_last_notified (history_state_ r) (writerGUID a_change)) (sequenceNumber a_change)
               then one_read r else r in
      match wp with
      | Some _ => (true, r)
      | None => (bool_decide (is_Some (findWriterProxy r (writerGUID a_change))), r)
      end
    else match wp with
    | Some _ => (true, r)
    | None =>
        match findWriterProxy r (writerGUID a_change) with
        | Some proxy => (true, (irrelevant_change r proxy (sequenceNumber a_change)).2)
        | None => (false, r)
        end
    end
  else (false, r).

#[export] Instance stateful_history_reader : ReaderHistory.HistoryReader StatefulReader := {|
  ReaderHistory.change_removed_by_history r c := (change_removed_by_history r c None).2;
  ReaderHistory.releaseCache r c := with_pools r (releaseCache (pools r) c)
|}.

(** ** The state of the reader with its history *)

Definition Sys : Type := ReaderHistory.ReaderHistory StatefulReader.

Abbreviation M := (stateful Sys).

Definition reader : M StatefulReader := λ s, Done (ReaderHistory.mp_reader s, s).
Definition history : M History.History := λ s, Done (ReaderHistory.hist s, s).
Definition modify (f : StatefulReader → StatefulReader) : M unit :=
  λ s, Done (tt, ReaderHistory.mkReaderHistory (ReaderHistory.hist s) (f (ReaderHistory.mp_reader s))).

Definition set_changes (l : list CacheChange_t) : M unit := λ s,
  let h := ReaderHistory.hist s in
  Done (tt, ReaderHistory.mkReaderHistory
    (History.mkHistory (History.m_att h) l (History.m_isHistoryFull h) (History.attached h))
    (ReaderHistory.mp_reader s)).

(** The proxy behind a pointer, and the change behind one. *)
Definition the_proxy (i : nat) : M WriterProxy.WriterProxy :=
  r ← reader; match writers r !! i with Some w => mret w | None => undefined end.

Definition the_change (k : nat) : M CacheChange_t :=
  h ← history; match History.m_changes h !! k with Some c => mret c | None => undefined end.

Definition set_change (k : nat) (c : CacheChange_t) : M unit :=
  h ← history; set_changes (<[k := c]> (History.m_changes h)).

Definition irrelevant_change_set (i : nat) (seq : SN.SequenceNumber_t) : M bool :=
  _ ← the_proxy i;
  r ← reader;
  let '(changed, r) := irrelevant_change r i seq in
  modify (λ _, r);; mret changed.

Definition received_change_set (i : nat) (seq : SN.SequenceNumber_t) : M bool :=
  w ← the_proxy i;
  let '(changed, w) := WriterProxy.received_change_set w seq in
  modify (λ r, set_proxy r i w);; mret changed.

(** [mp_history->remove_change], of a change with this writer and number. *)
Definition remove_change (g : Guid.GUID_t) (seq : SN.SequenceNumber_t) : M bool := λ s,
  '(s, b) ← History.remove_change s (History.reference_change g seq); Done (b, s).

Fixpoint take_changes (l : list (Guid.GUID_t * SN.SequenceNumber_t)) : M unit :=
  match l with
  | [] => mret tt
  | (g, seq) :: l => remove_change g seq;; take_changes l
  end.

(** ** Notification *)

Definition next_cache_change_to_be_notified (i : nat) : M SN.SequenceNumber_t :=
  w ← the_proxy i;
  let '(n, w) := WriterProxy.next_cache_change_to_be_notified w in
  modify (λ r, set_proxy r i w);; mret n.

(** [do next_seq = ... while (next_seq != unknown && next_seq <= seq)]. *)
Fixpoint skip_notified (fuel : nat) (i : nat) (seq : SN.SequenceNumber_t) : M SN.SequenceNumber_t :=
  match fuel with
  | O => unfinished
  | S fuel =>
      next_seq ← next_cache_change_to_be_notified i;
      if SN.neqb next_seq SN.unknown && SN.leb next_seq seq then skip_notified fuel i seq
      else mret next_seq
  end.

Fixpoint drain_notified (fuel : nat) (i : nat) : M unit :=
  match fuel with
  | O => unfinished
  | S fuel =>
      next_seq ← next_cache_change_to_be_notified i;
      if SN.neqb SN.unknown next_seq then drain_notified fuel i else mret tt
  end.

(** The first loop of [NotifyChanges] counts the new changes; it returns whether
    there were some.  Each round makes at least one number notified, so [fuel] bounds
    both the rounds and the inner loop. *)
Fixpoint notify_loop (ndebug : bool) (fuel : nat) (i : nat) (proxGUID : Guid.GUID_t)
    (max_seq next_seq : SN.SequenceNumber_t) (it : nat) (new_data_available : bool) : M bool :=
  if SN.neqb next_seq SN.unknown then
    h ← history;
    let it := (History.get_change_nts h next_seq proxGUID it).2 in
    match History.m_changes h !! it with
    | Some aux_ch =>
        if SN.leb (sequenceNumber aux_ch) max_seq then
          match fuel with
          | O => unfinished
          | S fuel' =>
              lift_outcome (assert_ ndebug (negb (isRead aux_ch)));;
              modify (λ r, with_unread r (u64 (total_unread_ r + 1)));;
              next_seq ← skip_notified fuel i (sequenceNumber aux_ch);
              notify_loop ndebug fuel' i proxGUID max_seq next_seq (S it) true
          end
        else mret new_data_available
    | None => mret new_data_available
    end
  else mret new_data_available.

(** The second loop tells the listener of each change.  Each round goes past one
    change of the history, and the listener adds none. *)
Fixpoint notify_each (fuel : nat) (proxGUID : Guid.GUID_t) (max_seq next_seq : SN.SequenceNumber_t)
    : M unit :=
  if SN.leb next_seq max_seq then
    h ← history;
    let it := (History.get_change_nts h next_seq proxGUID 0).2 in
    match History.m_changes h !! it with
    | Some aux_ch =>
        if SN.leb (sequenceNumber aux_ch) max_seq then
          match fuel with
          | O => unfinished
          | S fuel =>
              r ← reader;
              match mp_listener r with
              | Some l =>
                  let '(taken, l) := onNewCacheChangeAdded l aux_ch in
                  modify (λ r, with_listener r (Some l));;
                  take_changes taken;;
                  notify_each fuel proxGUID max_seq (SN.add_u32 (sequenceNumber aux_ch) 1)
              | None => undefined
              end
          end
        else mret tt
    | None => mret tt
    end
  else mret tt.

(** How many numbers a proxy has to notify, and one more. *)
Definition to_notify (w : WriterProxy.WriterProxy) : nat :=
  S (Z.to_nat (SN.val (WriterProxy.available_changes_max w) - SN.val (WriterProxy.last_notified_ w))).

(** The end of [NotifyChanges]: the listener is told, if there is new data. *)
Definition tell_available (proxGUID : Guid.GUID_t) (first_seq max_seq : SN.SequenceNumber_t)
    (new_data_available : bool) : M unit :=
  r ← reader;
  match mp_listener r with
  | Some l =>
      if new_data_available then
        let '(notify_individual, taken, l) := on_data_available l proxGUID first_seq max_seq in
        modify (λ r, with_listener r (Some l));;
        take_changes taken;;
        if notify_individual : bool then
          h ← history;
          notify_each (length (History.m_changes h)) proxGUID max_seq first_seq
        else mret tt
      else mret tt
  | None => mret tt
  end.

Definition NotifyChanges (ndebug : bool) (prox : nat) : M unit :=
  w ← the_proxy prox;
  let fuel := to_notify w in
  let proxGUID := guid w in
  let max_seq := WriterProxy.available_changes_max w in
  first_seq ← next_cache_change_to_be_notified prox;
  modify (λ r, with_record r (update_last_notified (history_state_ r) proxGUID max_seq).2);;
  new_data_available ← notify_loop ndebug fuel prox proxGUID max_seq first_seq 0 false;
  drain_notified fuel prox;;
  tell_available proxGUID first_seq max_seq new_data_available.

(** ** Received messages *)

Section messages.
Context (cfg : Config) (ndebug : bool).

Definition assert_writer_liveliness (writer : Guid.GUID_t) : M unit :=
  if liveliness_lease_finite cfg && wlp_enabled cfg
  then modify (λ r, emit r [LivelinessAsserted writer]) else mret tt.

Definition reserve_cache : M bool :=
  r ← reader;
  let '(ok, p) := reserve_cache (pools r) in
  modify (λ r, with_pools r p);; mret ok.

Definition release_cache : M unit := modify (λ r, with_pools r (release_cache (pools r))).

Definition get_payload_for (data : Payload.SerializedPayload_t) : M (option Payload.SerializedPayload_t) :=
  r ← reader;
  let '(payload, p) := get_payload_for (pools r) data in
  modify (λ r, with_pools r p);; mret payload.

Definition reserveCache (size : Z) : M (option CacheChange_t) :=
  r ← reader;
  let '(change, p) := reserveCache (pools r) (fixed_payload_size_ cfg) size in
  modify (λ r, with_pools r p);; mret change.

Definition releaseCache (c : CacheChange_t) : M unit :=
  modify (λ r, with_pools r (releaseCache (pools r) c)).

Definition history_received_change (c : CacheChange_t) (unknown_missing_changes_up_to : Z) : M bool := λ s,
  '(s, b) ← ReaderHistory.received_change s c unknown_missing_changes_up_to; Done (b, s).

(** A change of a writer without a proxy: only for the writers the reader trusts,
    and only if no later number of the writer was made visible.  The number noted
    is 1, whatever the number of the change. *)
Definition framework_change (a_change : CacheChange_t) : M bool :=
  if negb (EntityId.eqb (Guid.entityId (writerGUID a_change)) (m_trustedWriterEntityId cfg)) then mret false
  else if negb (bool_decide (kind a_change = ALIVE)) then mret false
  else
    r ← reader;
    if SN.ltb (get_last_notified (history_state_ r) (writerGUID a_change)) (sequenceNumber a_change) then
      ok ← history_received_change a_change 0;
      if ok : bool then
        modify (λ r, with_record r
          (update_last_notified (history_state_ r) (writerGUID a_change) (SN.mkSN 0 1)).2);;
        r ← reader;
        match mp_listener r with
        | Some l =>
            let seq := sequenceNumber a_change in
            let '(notify_single, taken, l) := on_data_available l (writerGUID a_change) seq seq in
            modify (λ r, with_listener r (Some l));;
            take_changes taken;;
            if notify_single : bool then
              let '(taken, l) := onNewCacheChangeAdded l a_change in
              modify (λ r, with_listener r (Some l));;
              take_changes taken;; mret true
            else mret true
        | None => mret true
        end
      else mret false
    else mret false.

(** The reception time, which the code writes through the pointer once the change is
    stored, is that of the argument: nothing looks at it in between. *)
Definition change_received (a_change : CacheChange_t) (prox : option nat)
    (unknown_missing_changes_up_to : Z) : M bool :=
  r ← reader;
  match match prox with Some i => Some (i, false) | None => (λ i, (i, true)) <$> findWriterProxy r (writerGUID a_change) end with
  | None => framework_change a_change
  | Some (i, found_now) =>
      w ← the_proxy i;
      let unknown := if found_now : bool
        then WriterProxy.unknown_missing_changes_up_to w (sequenceNumber a_change)
        else unknown_missing_changes_up_to in
      ok ← history_received_change a_change unknown;
      if ok : bool then
        ret ← (if is_fully_assembled a_change then received_change_set i (sequenceNumber a_change)
               else
                 s ← get_state;
                 match (k ← History.find_change_nts s a_change; History.m_changes (ReaderHistory.hist s) !! k) with
                 | Some _ => mret true
                 | None => irrelevant_change_set i (sequenceNumber a_change);; mret false
                 end);
        NotifyChanges ndebug i;;
        mret ret
      else mret false
  end.

Definition no_longer_wanted (pWP : option nat) (seq : SN.SequenceNumber_t) : M unit :=
  match pWP with
  | Some i => irrelevant_change_set i seq;; NotifyChanges ndebug i
  | None => mret tt
  end.

(** The body of [processDataMsg] for a change that was not received yet. *)
Definition add_data (change : CacheChange_t) (pWP : option nat) (now : Time_t) : M bool :=
  let seq := sequenceNumber change in
  unknown ← match pWP with
            | Some i => w ← the_proxy i; mret (WriterProxy.unknown_missing_changes_up_to w seq)
            | None => mret 0
            end;
  s ← get_state;
  let '(can_be_added, will_never_be_accepted) := ReaderHistory.can_change_be_added_nts s
    (writerGUID change) (Payload.length (serializedPayload change)) in
  if negb can_be_added then
    (if will_never_be_accepted : bool then no_longer_wanted pWP seq else mret tt);; mret false
  else if negb (change_is_relevant_for_filter change (m_guid (ReaderHistory.mp_reader s)) (data_filter_ cfg))
  then no_longer_wanted pWP seq;; mret true
  else
    reserved ← reserve_cache;
    if negb reserved then mret false
    else
      change_to_add ← lift_outcome (copy_not_memcpy ChangePool.new_change change);
      payload ← get_payload_for (serializedPayload change);
      match payload with
      | None => release_cache;; mret false
      | Some payload =>
          let change_to_add := with_reception (with_payload change_to_add payload) now in
          ok ← change_received change_to_add pWP unknown;
          if ok : bool then mret true
          else releaseCache change_to_add;; mret false
      end.

Definition processDataMsg (change : CacheChange_t) (now : Time_t) : M bool :=
  r ← reader;
  if negb (is_alive_ r) then mret false
  else match acceptMsgFrom cfg r (writerGUID change) with
  | None => mret false
  | Some pWP =>
      received ← match pWP with
                 | Some i => w ← the_proxy i; mret (WriterProxy.change_was_received w (sequenceNumber change))
                 | None => mret false
                 end;
      if received : bool then mret true
      else
        ret ← add_data change pWP now;
        assert_writer_liveliness (writerGUID change);;
        mret ret
  end.

(** ** Fragments *)

(** A new change for a fragmented sample. *)
Definition start_assembly (change : CacheChange_t) (sampleSize : Z) : M (option CacheChange_t) :=
  reserved ← reserveCache sampleSize;
  match reserved with
  | None => mret None
  | Some work_change =>
      if Payload.max_size (serializedPayload work_change) <? sampleSize
      then releaseCache work_change;; mret None
      else
        c ← lift_outcome (copy_not_memcpy work_change change);
        let c := with_handle (with_payload c (Payload.with_length (serializedPayload c) sampleSize)) None in
        c ← lift_outcome (setFragmentSize c (getFragmentSize change) true);
        mret (Some c)
  end.

Definition add_fragments_to (work_change change : CacheChange_t) (fragmentStartingNum fragmentsInSubmessage : Z)
    : M CacheChange_t :=
  let work_change :=
    if bool_decide (instanceHandle work_change = None) && (fragmentStartingNum =? 1)
    then with_handle work_change (instanceHandle change) else work_change in
  '(_, work_change) ← lift_outcome (add_fragments work_change (serializedPayload change)
                              fragmentStartingNum fragmentsInSubmessage);
  mret work_change.

(** Where the change of this writer and number is in the history. *)
Definition find_work (change : CacheChange_t) : M (option nat) :=
  h ← history;
  if History.attached h then
    let '(found, k) := History.get_change_nts h (sequenceNumber change) (writerGUID change) 0 in
    mret (match found with Some _ => Some k | None => None end)
  else mret None.

(** A sample that may be complete: to look at a change that the listener has removed
    and released is undefined. *)
Definition complete_sample (incomingChange : CacheChange_t) (i : nat) : M unit :=
  work ← find_work incomingChange;
  match work with
  | None => undefined
  | Some k =>
      work_change ← the_change k;
      if is_fully_assembled work_change then
        received_change_set i (sequenceNumber work_change);;
        r ← reader;
        let filtered_out := negb (change_is_relevant_for_filter
          (with_qos work_change (inline_qos incomingChange)) (m_guid r) (data_filter_ cfg)) in
        set_change k (with_qos work_change Payload.default_payload);;
        (if filtered_out
         then remove_change (writerGUID work_change) (sequenceNumber work_change);; mret tt else mret tt);;
        NotifyChanges ndebug i
      else mret tt
  end.

(** The body of [processDataFragMsg] for a change that was not received yet. *)
Definition add_data_frag (incomingChange : CacheChange_t) (sampleSize fragmentStartingNum fragmentsInSubmessage : Z)
    (i : nat) (now : Time_t) : M bool :=
  let seq := sequenceNumber incomingChange in
  w ← the_proxy i;
  let changes_up_to := WriterProxy.unknown_missing_changes_up_to w seq in
  s ← get_state;
  let '(can_be_added, will_never_be_accepted) :=
    ReaderHistory.can_change_be_added_nts s (writerGUID incomingChange) sampleSize in
  if negb can_be_added then
    (if will_never_be_accepted : bool then no_longer_wanted (Some i) seq else mret tt);; mret false
  else
    work ← find_work incomingChange;
    match work with
    | Some k =>
        work_change ← the_change k;
        work_change ← add_fragments_to work_change incomingChange fragmentStartingNum fragmentsInSubmessage;
        set_change k work_change;;
        complete_sample incomingChange i;; mret true
    | None =>
        created ← start_assembly incomingChange sampleSize;
        match created with
        | None => mret true
        | Some work_change =>
            work_change ← add_fragments_to work_change incomingChange fragmentStartingNum fragmentsInSubmessage;
            let work_change := with_reception work_change now in
            ok ← change_received work_change (Some i) changes_up_to;
            if ok : bool then complete_sample incomingChange i;; mret true
            else releaseCache work_change;; mret true
        end
    end.

Definition processDataFragMsg (incomingChange : CacheChange_t)
    (sampleSize fragmentStartingNum fragmentsInSubmessage : Z) (now : Time_t) : M bool :=
  r ← reader;
  if negb (is_alive_ r) then mret false
  else match acceptMsgFrom cfg r (writerGUID incomingChange) with
  | Some (Some i) =>
      w ← the_proxy i;
      ret ← (if WriterProxy.change_was_received w (sequenceNumber incomingChange) then mret true
             else add_data_frag incomingChange sampleSize fragmentStartingNum fragmentsInSubmessage i now);
      assert_writer_liveliness (writerGUID incomingChange);;
      mret ret
  | _ => mret true
  end.

(** ** Heartbeats and gaps *)

Definition processHeartbeatMsg (writerGUID : Guid.GUID_t) (hbCount : Z)
    (firstSN lastSN : SN.SequenceNumber_t) (finalFlag livelinessFlag : bool) : M bool :=
  r ← reader;
  if negb (is_alive_ r) then mret false
  else match acceptMsgFrom cfg r writerGUID with
  | Some (Some i) =>
      w ← the_proxy i;
      let hb := WriterProxy.process_heartbeat w hbCount firstSN lastSN finalFlag livelinessFlag
                  (disable_positive_acks_ cfg) 0 in
      modify (λ r, emit (set_proxy r i (WriterProxy.hb_proxy hb))
                     (ProxyEffect writerGUID <$> WriterProxy.hb_effects hb));;
      if WriterProxy.hb_accepted hb then
        (λ s, '(s, _) ← ReaderHistory.remove_fragmented_changes_until s firstSN writerGUID; Done (tt, s));;
        (if 0 <? WriterProxy.hb_sample_lost hb
         then modify (λ r, with_listener r ((λ l, on_sample_lost l (WriterProxy.hb_sample_lost hb)) <$> mp_listener r))
         else mret tt);;
        NotifyChanges ndebug i;;
        w ← the_proxy i;
        (if WriterProxy.hb_assert_liveliness hb && liveliness_lease_finite cfg
            && ((liveliness_kind_ cfg =? MANUAL_BY_TOPIC_LIVELINESS_QOS)
                || (WriterProxy.liveliness_kind_ w =? MANUAL_BY_TOPIC_LIVELINESS_QOS)) && wlp_enabled cfg
         then modify (λ r, emit r [LivelinessAsserted writerGUID]) else mret tt);;
        mret true
      else mret true
  | _ => mret false
  end.

(** [mp_history->History::remove_change_nts]: the reader is not told. *)
Definition remove_untold (k : nat) : M nat := λ s,
  let '(h, it, released) := History.remove_change_nts (ReaderHistory.hist s) k true in
  Done (it, ReaderHistory.mkReaderHistory h
              (foldl ReaderHistory.releaseCache (ReaderHistory.mp_reader s) released)).

(** One number of a gap: [search] is the number the history is searched for, and
    the iterator is where the next search starts. *)
Definition gap_change (i : nat) (writerGUID : Guid.GUID_t) (seq search : SN.SequenceNumber_t)
    (history_iterator : nat) : M nat :=
  changed ← irrelevant_change_set i seq;
  if changed : bool then
    h ← history;
    let '(to_remove, ret_iterator) := findCacheInFragmentedProcess h search writerGUID history_iterator in
    match to_remove with
    | Some _ => remove_untold ret_iterator
    | None =>
        mret (if (ret_iterator <? length (History.m_changes h))%nat then ret_iterator else history_iterator)
    end
  else mret history_iterator.

(** The numbers before the base of the gap's list: [n] of them from [auxSN] on. *)
Fixpoint gap_range (n : nat) (i : nat) (writerGUID : Guid.GUID_t) (auxSN : SN.SequenceNumber_t)
    (history_iterator : nat) : M (SN.SequenceNumber_t * nat) :=
  match n with
  | O => mret (auxSN, history_iterator)
  | S n =>
      it ← gap_change i writerGUID auxSN auxSN history_iterator;
      gap_range n i writerGUID (SN.incr auxSN) it
  end.

(** The numbers of the list.  The code searches the history for [auxSN], the number
    at which the loop above ended, for each of them. *)
Fixpoint gap_list (l : list SN.SequenceNumber_t) (i : nat) (writerGUID : Guid.GUID_t)
    (auxSN : SN.SequenceNumber_t) (history_iterator : nat) : M unit :=
  match l with
  | [] => mret tt
  | it :: l =>
      history_iterator ← gap_change i writerGUID it auxSN history_iterator;
      gap_list l i writerGUID auxSN history_iterator
  end.

Definition processGapMsg (writerGUID : Guid.GUID_t) (gapStart : SN.SequenceNumber_t)
    (gapList : SequenceNumberSet_t) : M bool :=
  r ← reader;
  if negb (is_alive_ r) || SN.ltb gapStart (SN.mkSN 0 1) || SN.leb (BitmapRange.base gapList) gapStart
  then mret false
  else match acceptMsgFrom cfg r writerGUID with
  | Some (Some i) =>
      w ← the_proxy i;
      let finalSN := BitmapRange.base gapList in
      '(auxSN, history_iterator) ←
        gap_range (Z.to_nat (SN.val finalSN - SN.val gapStart)) i (guid w) gapStart 0;
      gap_list (BitmapRange.for_each gapList) i (guid w) auxSN history_iterator;;
      NotifyChanges ndebug i;;
      mret true
  | _ => mret false
  end.

(** ** Acknowledgements *)

(** [send_acknack] with a given set. *)
Definition send_acknack_set (writer : WriterProxy.WriterProxy) (sns : SequenceNumberSet_t) (is_final : bool)
    : M unit :=
  if negb (WriterProxy.is_alive_ writer) then mret tt
  else if WriterProxy.is_on_same_process_ writer then mret tt
  else
    modify (λ r, let count := u32 (acknack_count_ r + 1) in
                 emit (with_counts r count (nackfrag_count_ r)) [AckNack (guid writer) sns count is_final]).

(** The missing changes: those that miss fragments are asked for by their fragments,
    the others are added to the set. *)
Fixpoint ask_missing (l : list SN.SequenceNumber_t) (g : Guid.GUID_t) (sns : SequenceNumberSet_t)
    (history_iterator : nat) : M SequenceNumberSet_t :=
  match l with
  | [] => mret sns
  | seq :: l =>
      h ← history;
      let '(uncomplete_change, ret_iterator) := findCacheInFragmentedProcess h seq g history_iterator in
      let it := if (ret_iterator <? length (History.m_changes h))%nat then ret_iterator else history_iterator in
      match uncomplete_change with
      | None => ask_missing l g (BitmapRange.add sns seq).2 it
      | Some c =>
          frag_sns ← lift_outcome (get_missing_fragments c (BitmapRange.make 0));
          modify (λ r, let count := u32 (nackfrag_count_ r + 1) in
                       emit (with_counts r (acknack_count_ r) count) [NackFrag g seq frag_sns count]);;
          ask_missing l g sns it
      end
  end.

Definition send_acknack (writer : WriterProxy.WriterProxy) (heartbeat_was_final : bool) : M unit :=
  if negb (WriterProxy.is_alive_ writer) then mret tt
  else if WriterProxy.is_datasharing_writer_ writer then mret tt
  else
    let missing_changes := WriterProxy.missing_changes writer in
    if negb (BitmapRange.empty missing_changes) || negb heartbeat_was_final then
      match RLV.collection_ (WriterProxy.guid_as_vector_ writer) with
      | [] => undefined
      | g :: _ =>
          sns ← ask_missing (BitmapRange.for_each missing_changes) g
            (BitmapRange.make (SN.add_u32 (WriterProxy.available_changes_max writer) 1)) 0;
          modify (λ r, let count := u32 (acknack_count_ r + 1) in
            emit (with_counts r count (nackfrag_count_ r)) [AckNack g sns count (BitmapRange.empty sns)])
      end
    else mret tt.

(** The callbacks of the proxy's timers: its state is left before the message is sent,
    which does not look at it. *)
Definition send_for (i : nat) (e : WriterProxy.Effect) : M unit :=
  match e with
  | WriterProxy.SendAckNack sns => w ← the_proxy i; send_acknack_set w sns false
  | WriterProxy.SendHeartbeatResponse final => w ← the_proxy i; send_acknack w final
  | _ => mret tt
  end.

Definition heartbeat_response (i : nat) : M unit :=
  w ← the_proxy i;
  let '(effects, w') := WriterProxy.perform_heartbeat_response w in
  modify (λ r, set_proxy r i w');;
  foldr (λ e k, send_for i e;; k) (mret tt) effects.

Definition initial_acknack (i : nat) : M unit :=
  w ← the_proxy i;
  let '(_, effects, w') := WriterProxy.perform_initial_ack_nack false w in
  modify (λ r, set_proxy r i w');;
  foldr (λ e k, send_for i e;; k) (mret tt) effects.

(** ** Matching *)

Definition create_sender_resources (w : WriterProxy.WriterProxy) (is_same_process : bool) : M unit :=
  if is_same_process then mret tt
  else modify (λ r, emit r (SenderResource <$> WriterProxy.remote_locators_shrinked w)).

Definition tell_listener (k : DiscoveryKind) (g : Guid.GUID_t) : M unit :=
  modify (λ r, with_listener r ((λ l, on_writer_discovery l k g) <$> mp_listener r)).

(** A proxy from the pool of inactive ones, or a new one if allowed. *)
Definition take_proxy (now : Z) : M (option WriterProxy.WriterProxy) :=
  r ← reader;
  match last (RLV.collection_ (matched_writers_pool_ r)) with
  | None =>
      let max_readers := RLV.maximum (RLV.configuration_ (matched_writers_pool_ r)) in
      if RLV.size (matched_writers_ r) + RLV.size (matched_writers_pool_ r) <? max_readers
      then mret (Some (WriterProxy.create (max_unicast_locators cfg) (max_multicast_locators cfg) now))
      else mret None
  | Some wp =>
      modify (λ r, with_writers r (matched_writers_ r) (RLV.pop_back (matched_writers_pool_ r)));;
      mret (Some wp)
  end.

Definition matched_writer_add (wdata : WriterProxy.WriterProxyData) (now : Z) : M bool :=
  let g := WriterProxy.d_guid wdata in
  lift_outcome (assert_ ndebug (Guid.neqb g Guid.c_Guid_Unknown));;
  r ← reader;
  if negb (is_alive_ r) then mret false
  else
    let is_same_process :=
      Guid.should_intraprocess_between (WriterProxy.r_intraprocess (info r)) (m_guid r) g in
    match list_find (λ w, Guid.eqb (guid w) g = true) (writers r) with
    | Some (i, w) =>
        let w := WriterProxy.update (info r) w wdata in
        modify (λ r, set_proxy r i w);;
        create_sender_resources w is_same_process;;
        tell_listener CHANGED_QOS_WRITER g;;
        mret false
    | None =>
        wp ← take_proxy now;
        match wp with
        | None => mret false
        | Some wp =>
            modify (λ r, with_record r
              (add_persistence_guid (history_state_ r) g (WriterProxy.d_persistence_guid wdata)));;
            r ← reader;
            let initial_sequence := get_last_notified (history_state_ r) g in
            let '(effects, wp) := WriterProxy.start (info r) wp wdata initial_sequence false in
            modify (λ r, emit r (ProxyEffect g <$> effects));;
            create_sender_resources wp is_same_process;;
            modify (λ r, with_writers r (RLV.push_back (matched_writers_ r) wp).2 (matched_writers_pool_ r));;
            (if liveliness_lease_finite cfg && wlp_enabled cfg
             then modify (λ r, emit r [LivelinessAdded g]) else mret tt);;
            tell_listener DISCOVERED_WRITER g;;
            mret true
        end
    end.

Definition matched_writer_remove (writer_guid : Guid.GUID_t) (removed_by_lease : bool) : M bool :=
  r ← reader;
  (if is_alive_ r && liveliness_lease_finite cfg && wlp_enabled cfg
   then modify (λ r, emit r [LivelinessRemoved writer_guid]) else mret tt);;
  if negb (is_alive_ r) then mret false
  else
    (λ s, s ← ReaderHistory.writer_unmatched ndebug s writer_guid
                (get_last_notified (history_state_ (ReaderHistory.mp_reader s)) writer_guid); Done (tt, s));;
    r ← reader;
    match list_find (λ w, Guid.eqb (guid w) writer_guid = true) (writers r) with
    | None => mret false
    | Some (i, wproxy) =>
        modify (λ r, with_writers r (RLV.with_items (matched_writers_ r) (delete i (writers r)))
                       (matched_writers_pool_ r));;
        modify (λ r, with_record r (remove_persistence_guid (history_state_ r) (guid wproxy)
                       (WriterProxy.persistence_guid_ wproxy) removed_by_lease));;
        let '(effects, wproxy) := WriterProxy.stop wproxy in
        modify (λ r, emit r (ProxyEffect writer_guid <$> effects));;
        modify (λ r, with_writers r (matched_writers_ r) (RLV.push_back (matched_writers_pool_ r) wproxy).2);;
        tell_listener REMOVED_WRITER writer_guid;;
        mret true
    end.

Definition updateTimes (heartbeatResponseDelay initialAcknackDelay : Z) : M bool :=
  r ← reader;
  (if is_alive_ r && negb (WriterProxy.r_heartbeatResponseDelay (info r) =? heartbeatResponseDelay) then
     let i := info r in
     modify (λ r, with_info r (WriterProxy.mkReader (WriterProxy.r_guid i) heartbeatResponseDelay
       initialAcknackDelay (WriterProxy.r_external_unicast_locators i)
       (WriterProxy.r_ignore_non_matching_locators i) (WriterProxy.r_intraprocess i)));;
     modify (λ r, with_writers r (RLV.with_items (matched_writers_ r)
       ((λ w, WriterProxy.update_heartbeat_response_interval w heartbeatResponseDelay) <$> writers r))
       (matched_writers_pool_ r))
   else mret tt);;
  mret true.

Definition isInCleanState : M bool :=
  r ← reader;
  mret (negb (is_alive_ r)
        || forallb (λ w, WriterProxy.number_of_changes_from_writer w =? 0) (writers r)).

(** ** Access by the user *)

(** [nextUnreadCache], and [nextUntakenCache] when changes that were read count too:
    the places of the change and of its proxy. *)
Fixpoint next_cache (fuel : nat) (skip_read : bool) (it : nat) : M (option (nat * nat)) :=
  s ← get_state;
  match History.m_changes (ReaderHistory.hist s) !! it with
  | None => mret None
  | Some c =>
      match fuel with
      | O => unfinished
      | S fuel =>
          if skip_read && isRead c then next_cache fuel skip_read (S it)
          else match matched_writer_lookup (ReaderHistory.mp_reader s) (writerGUID c) with
          | Some i =>
              wp ← the_proxy i;
              if SN.ltb (WriterProxy.available_changes_max wp) (sequenceNumber c)
              then next_cache fuel skip_read (S it)
              else mret (Some (it, i))
          | None =>
              let '(s, it) := ReaderHistory.remove_nts s it true in
              put_state s;; next_cache fuel skip_read it
          end
      end
  end.

Definition nextUntakenCache : M (option (nat * nat)) :=
  s ← get_state;
  if is_alive_ (ReaderHistory.mp_reader s)
  then next_cache (length (History.m_changes (ReaderHistory.hist s))) false 0 else mret None.

Definition nextUnreadCache : M (option (nat * nat)) :=
  s ← get_state;
  if is_alive_ (ReaderHistory.mp_reader s)
  then next_cache (length (History.m_changes (ReaderHistory.hist s))) true 0 else mret None.

(** The proxy of a change and whether the change is not available yet. *)
Definition begin_sample_access_nts (change : CacheChange_t) : M (option nat * bool) :=
  r ← reader;
  match matched_writer_lookup r (writerGUID change) with
  | Some i => wp ← the_proxy i; mret (Some i, SN.ltb (WriterProxy.available_changes_max wp) (sequenceNumber change))
  | None => mret (None, false)
  end.

Definition change_read_by_user (k : nat) (writer : option nat) (mark_as_read : bool) : M unit :=
  change ← the_change k;
  match writer with
  | Some i => w ← the_proxy i; lift_outcome (assert_ ndebug (Guid.eqb (writerGUID change) (guid w)))
  | None => mret tt
  end;;
  if mark_as_read && negb (isRead change)
  then set_change k (with_read change true);; modify one_read else mret tt.

Definition end_sample_access_nts (k : nat) (wp : option nat) (mark_as_read : bool) : M unit :=
  change_read_by_user k wp mark_as_read.

(** The loop of [get_unread_count(true)] over the history. *)
Fixpoint mark_all_read (k : nat) (l : list CacheChange_t) : M unit :=
  match l with
  | [] => mret tt
  | change :: l =>
      r ← reader;
      if 0 <? total_unread_ r then
        (if negb (isRead change)
            && SN.geb (get_last_notified (history_state_ r) (writerGUID change)) (sequenceNumber change)
         then set_change k (with_read change true);;
              modify (λ r, with_unread r (total_unread_ r - 1))
         else mret tt);;
        mark_all_read (S k) l
      else mret tt
  end.

Definition get_unread_count (mark_as_read : bool) : M Z :=
  r ← reader;
  let ret_val := total_unread_ r in
  (if mark_as_read then
     h ← history;
     mark_all_read 0 (History.m_changes h);;
     r ← reader;
     lift_outcome (assert_ ndebug (0 =? total_unread_ r))
   else mret tt);;
  mret ret_val.

End messages.
End reader.
Arguments StatefulReader : clear implicits.
Arguments Sys : clear implicits.
End StatefulReader.
