(* ===== verification/StatefulReaderFacts.v ===== *)
(** * Facts about the stateful reader

    The reader and its history keep an invariant together; whatever data, heartbeats
    and gaps arrive and whatever the listener removes meanwhile, the reader never
    meets undefined behaviour or a failing assertion, and the changes the listener is
    told of come once, complete, and in the order of each writer's numbers. *)

From stdpp Require Import gmap.
From S2P Require Import Prelude.
From S2P Require Import SeqNum.
From S2P Require Import Bitmap.
From S2P Require Import BitmapFacts.
From S2P Require Import Containers.
From S2P Require Import Guid.
From S2P Require Import CacheChange.
From S2P Require Import Pools.
From S2P Require Import History.
From S2P Require Import HistoryFacts.
From S2P Require Import WriterProxy.
From S2P Require Import WriterProxyFacts.
From S2P Require Import RTPSReader.
From S2P Require Import StatefulReader.

Module StatefulFacts.
Import CacheChange RTPSReader HistorySearch ReaderHistoryFacts.
Import StatefulReader.

(** ** Calls of the listener *)

Inductive Call := Available (g : Guid.GUID_t) (first last : SN.SequenceNumber_t) | New (c : CacheChange_t).

(** Any listener, with the calls it gets. *)
#[export] Instance traced {L} `{ReaderListener L} : ReaderListener (list Call * L) := {|
  on_data_available l g first last :=
    let '(individual, taken, l') := on_data_available l.2 g first last in
    (individual, taken, (l.1 ++ [Available g first last], l'));
  onNewCacheChangeAdded l c :=
    let '(taken, l') := onNewCacheChangeAdded l.2 c in (taken, (l.1 ++ [New c], l'));
  on_sample_lost l n := (l.1, on_sample_lost l.2 n);
  on_writer_discovery l k g := (l.1, on_writer_discovery l.2 k g)
|}.

(** The changes it was told of one by one. *)
Definition news (t : list Call) : list CacheChange_t :=
  omap (λ k, match k with New c => Some c | Available _ _ _ => None end) t.

Lemma news_app t1 t2 : news (t1 ++ t2) = news t1 ++ news t2.
Proof. apply omap_app. Qed.

(** ** Sublists *)

Lemma sublist_delete {A} k (l : list A) : sublist (delete k l) l.
Proof.
  revert k. induction l as [|x l IH]; intros [|k]; simpl; [done..|by apply sublist_cons|].
  by apply sublist_skip.
Qed.

Lemma Forall_sublist {A} (Q : A → Prop) l1 l2 : sublist l1 l2 → Forall Q l2 → Forall Q l1.
Proof. intros Hs. rewrite !Forall_forall. intros HQ x Hx. eapply HQ, elem_of_sublist; done. Qed.

Lemma StronglySorted_sublist {A} (Q : relation A) l1 l2 :
  sublist l1 l2 → StronglySorted Q l2 → StronglySorted Q l1.
Proof.
  induction 1 as [|x l1 l2 Hs IH|x l1 l2 Hs IH]; [done| |]; intros [Hl Hx]%StronglySorted_inv; [|by apply IH].
  constructor; [by apply IH|by eapply Forall_sublist].
Qed.

Lemma fmap_sublist {A B} (f : A → B) l1 l2 : sublist l1 l2 → sublist (f <$> l1) (f <$> l2).
Proof. induction 1; simpl; [constructor|by apply sublist_skip|by apply sublist_cons]. Qed.

Section facts.
Context {P L : Type} `{!ReaderPools P} `{!ReaderListener L}.
Implicit Types s : Sys P (list Call * L).
Implicit Types r : StatefulReader P (list Call * L).

Abbreviation M := (stateful (Sys P (list Call * L))).

Definition changes s : list CacheChange_t := History.m_changes (ReaderHistory.hist s).
Definition rd s : StatefulReader P (list Call * L) := ReaderHistory.mp_reader s.
Definition calls r : list Call := from_option fst [] (mp_listener r).

(** ** The invariant *)

(** When each writer's samples were made: the later number has the later time. *)
Context (time_of : Guid.GUID_t → Z → Z).

Definition timed (c : CacheChange_t) : Prop :=
  wf_change c ∧ wf_stamp c ∧ stamp c = time_of (writerGUID c) (number c).

Definition seen r (c : CacheChange_t) : Prop :=
  number c <= SN.val (get_last_notified (history_state_ r) (writerGUID c)).

Definition unread r (c : CacheChange_t) : Prop := isRead c = false ∧ seen r c.

#[export] Instance unread_dec r c : Decision (unread r c).
Proof. unfold unread, seen. apply _. Defined.

Definition unread_count r (l : list CacheChange_t) : Z := Z.of_nat (length (filter (unread r) l)).

(** A change of the history is complete, known to its writer's proxy, and unread if
    it was not notified. *)
Definition held r (c : CacheChange_t) : Prop :=
  is_fully_assembled c = true ∧ ∃ w, w ∈ writers r ∧ guid w = writerGUID c ∧ known w (number c) ∧
    (SN.val (WriterProxy.last_notified_ w) < number c → isRead c = false).

Record writers_ok r : Prop := {
  wo_alive : is_alive_ r = true;
  wo_proxies : Forall (λ w, proxy_inv w ∧ WriterProxy.is_alive_ w = true ∧ Guid.wf (guid w)) (writers r);
  wo_distinct : NoDup (guid <$> writers r);
  wo_record : ∀ w, w ∈ writers r →
    get_last_notified (history_state_ r) (guid w) = WriterProxy.last_notified_ w;
  wo_lookup : ∀ w1 w2, w1 ∈ writers r → w2 ∈ writers r →
    guid_to_look (history_state_ r) (guid w1) = guid_to_look (history_state_ r) (guid w2) → guid w1 = guid w2
}.

Record inv s : Prop := {
  i_attached : History.attached (ReaderHistory.hist s) = true;
  i_writers : writers_ok (rd s);
  i_timed : Forall timed (changes s);
  i_sorted : StronglySorted (by_key stamp) (changes s);
  i_nodup : NoDup (ident <$> changes s);
  i_held : Forall (held (rd s)) (changes s);
  i_unread : total_unread_ (rd s) = unread_count (rd s) (changes s);
  i_size : Z.of_nat (length (changes s)) < 2 ^ 63
}.

Hypothesis time_mono : ∀ g n m, n < m → time_of g n < time_of g m.

Lemma timed_coherent l : Forall timed l → NoDup (ident <$> l) → coherent l.
Proof.
  intros Ht Hnd. split_and!; [|done|].
  - eapply Forall_impl; [exact Ht|]. by intros c (? & ? & _).
  - rewrite Forall_forall in Ht. intros c d Hc Hd Hg Hn.
    destruct (Ht c Hc) as (_ & _ & ->), (Ht d Hd) as (_ & _ & ->). rewrite Hg. by apply time_mono.
Qed.

Lemma inv_ordered s g : inv s → ordered g (changes s).
Proof. intros []. apply coherent_ordered; [by apply timed_coherent|done]. Qed.

Lemma inv_reader_ok s : inv s → reader_ok s.
Proof. intros []. constructor; [done|by apply timed_coherent|done]. Qed.

(** ** Removals *)

(** [s'] is [s] with fewer changes: the proxies and what was notified stay. *)
Definition quiet s s' : Prop :=
  sublist (changes s') (changes s) ∧
  History.m_att (ReaderHistory.hist s') = History.m_att (ReaderHistory.hist s) ∧
  ∃ u p l, rd s' = with_listener (with_pools (with_unread (rd s) u) p) l.

Lemma quiet_refl s : quiet s s.
Proof.
  split_and!; [done..|]. exists (total_unread_ (rd s)), (pools (rd s)), (mp_listener (rd s)).
  by destruct (rd s).
Qed.

Lemma quiet_trans s1 s2 s3 : quiet s1 s2 → quiet s2 s3 → quiet s1 s3.
Proof.
  intros (Hc & Ha & u & p & l & E) (Hc' & Ha' & u' & p' & l' & E').
  split; [by etrans|]. split; [congruence|]. exists u', p', l'. rewrite E', E. done.
Qed.

Lemma history_remove_change s ch :
  History.attached (ReaderHistory.hist s) = true →
  ∃ s' b, History.remove_change s ch = Done (s', b) ∧
    (s' = s ∨ ∃ k c, changes s !! k = Some c ∧ ReaderHistory.reader_matches s c ch = true ∧
       ReaderHistory.hist s' = History.erase (ReaderHistory.hist s) k ∧
       rd s' = ReaderHistory.releaseCache (ReaderHistory.change_removed_by_history (rd s) c) c).
Proof.
  intros Hatt. unfold History.remove_change, History.find_change_nts. simpl. rewrite Hatt.
  set (it := History.find_if _ _). destruct (History.m_changes _ !! it) as [c|] eqn:E.
  - unfold ReaderHistory.remove_nts. rewrite Hatt, E. cbn [negb]. cbv zeta beta iota.
    simpl. destruct (delete it _ !! it) as [next|]; eexists _, _; (split; [reflexivity|]);
      right; exists it, c; (split_and!; [done|exact (find_if_lt _ _ _ E)|done|done]).
  - exists s, false. split; [done|by left].
Qed.

(** What the reader does when a complete change leaves its history. *)
Lemma removed_complete r c :
  is_alive_ r = true → is_fully_assembled c = true →
  ReaderHistory.releaseCache (ReaderHistory.change_removed_by_history r c) c =
  with_pools (if negb (isRead c) && SN.geb (get_last_notified (history_state_ r) (writerGUID c)) (sequenceNumber c)
              then one_read r else r)
    (RTPSReader.releaseCache (pools r) c).
Proof.
  intros Ha Hc. simpl. unfold change_removed_by_history. rewrite Ha, Hc. simpl. unfold one_read.
  destruct (negb _ && _); [|done]. by destruct (0 <? _).
Qed.

Lemma held_writer s c :
  inv s → c ∈ changes s → ∃ w, w ∈ writers (rd s) ∧ guid w = writerGUID c ∧ ok (WriterProxy.last_notified_ w) ∧
    get_last_notified (history_state_ (rd s)) (writerGUID c) = WriterProxy.last_notified_ w.
Proof.
  intros Hi Hc. pose proof (i_held _ Hi) as Hh. rewrite Forall_forall in Hh.
  destruct (Hh c Hc) as (_ & w & Hw & Hg & _). exists w. split; [done|]. split; [done|].
  destruct (i_writers _ Hi) as [_ Hp _ Hr _]. rewrite Forall_forall in Hp. rewrite <-Hg, Hr by done.
  split; [|done]. apply Hp. done.
Qed.

Lemma unread_iff s c :
  inv s → c ∈ changes s →
  (negb (isRead c) && SN.geb (get_last_notified (history_state_ (rd s)) (writerGUID c)) (sequenceNumber c)) =
  bool_decide (unread (rd s) c).
Proof.
  intros Hi Hc. destruct (held_writer s c Hi Hc) as (w & _ & _ & Hok & E).
  pose proof (i_timed _ Hi) as Ht. rewrite Forall_forall in Ht. destruct (Ht c Hc) as ([Hs _] & _ & _).
  assert (unread (rd s) c ↔ isRead c = false ∧ SN.val (sequenceNumber c) <= SN.val (WriterProxy.last_notified_ w))
    as Hu by (unfold unread, seen, number; by rewrite E).
  rewrite E, SN.geb_val by auto with mint. case_bool_decide as Hd; rewrite Hu in Hd.
  - destruct Hd as [-> Hle]. by rewrite (proj2 (Z.leb_le _ _)).
  - destruct (isRead c); [done|]. simpl. apply Z.leb_gt. destruct (Z.le_gt_cases (SN.val (sequenceNumber c))
      (SN.val (WriterProxy.last_notified_ w))); [destruct Hd; done|done].
Qed.

Lemma unread_count_delete r k l c :
  l !! k = Some c →
  unread_count r (delete k l) = unread_count r l - (if bool_decide (unread r c) then 1 else 0).
Proof.
  intros Hk. unfold unread_count. rewrite delete_take_drop, filter_app, length_app.
  rewrite <-(take_drop_middle l k c Hk) at 3. rewrite filter_app, filter_cons, length_app.
  case_bool_decide; case_decide; try done; simpl; lia.
Qed.

(** A removal keeps the invariant, also a removal from the midst of a loop over the
    history. *)
Lemma removal_inv s k c :
  inv s → changes s !! k = Some c →
  let s' := ReaderHistory.mkReaderHistory (History.erase (ReaderHistory.hist s) k)
    (ReaderHistory.releaseCache (ReaderHistory.change_removed_by_history (rd s) c) c) in
  inv s' ∧ quiet s s' ∧ mp_listener (rd s') = mp_listener (rd s).
Proof.
  intros Hi Hk s'. pose proof (list_elem_of_lookup_2 _ _ _ Hk) as Hc. pose proof Hi as [Hat Hw Ht Hs Hnd Hh Hu Hsz].
  rewrite Forall_forall in Hh. destruct (Hh c Hc) as (Hfull & _).
  pose proof (sublist_delete k (changes s)) as Hsub. pose proof (unread_count_delete (rd s) k (changes s) c Hk) as Hdel.
  pose proof (removed_complete (rd s) c (wo_alive _ Hw) Hfull) as Er. rewrite (unread_iff s c Hi Hc) in Er.
  assert (∃ u, rd s' = with_pools (with_unread (rd s) u) (RTPSReader.releaseCache (pools (rd s)) c) ∧
    u = unread_count (rd s) (delete k (changes s))) as (u & E & Eu).
  { unfold s'. unfold rd at 1. cbn [ReaderHistory.mp_reader]. rewrite Er, Hdel, <-Hu.
    case_bool_decide as Hun; cycle 1.
    { exists (total_unread_ (rd s)). split; [|lia]. by destruct (rd s). }
    unfold one_read. assert (0 < total_unread_ (rd s)).
    { rewrite Hu. unfold unread_count. destruct (filter _ _) as [|] eqn:Ef; [|simpl; lia].
      exfalso. apply (not_elem_of_nil c). rewrite <-Ef. by apply list_elem_of_filter. }
    rewrite (proj2 (Z.ltb_lt _ _)) by done. by exists (total_unread_ (rd s) - 1). }
  assert (changes s' = delete k (changes s)) as Ec by done.
  assert (writers_ok (rd s')) as Hw' by (rewrite E; destruct Hw; by constructor).
  split; [|split].
  - constructor; rewrite ?Ec; [done|done|by eapply Forall_sublist|by eapply StronglySorted_sublist| | | |].
    + eapply sublist_NoDup; [done|by apply fmap_sublist].
    + rewrite E. apply Forall_forall. intros d Hd. apply (Hh d). eapply elem_of_sublist; [exact Hd|done].
    + rewrite E. exact Eu.
    + apply sublist_length in Hsub. lia.
  - split; [by rewrite Ec|]. split; [done|]. exists u, (RTPSReader.releaseCache (pools (rd s)) c), (mp_listener (rd s)).
    rewrite E. done.
  - by rewrite E.
Qed.

(** What the listener removes while it runs. *)
Lemma take_changes_inv l s :
  inv s → ∃ s', take_changes l s = Done (tt, s') ∧ inv s' ∧ quiet s s' ∧
    mp_listener (rd s') = mp_listener (rd s).
Proof.
  revert s. induction l as [|[g seq] l IH]; intros s Hi; simpl.
  { exists s. split_and!; [done|done|apply quiet_refl|done]. }
  unfold mbind, stateful_bind, remove_change.
  destruct (history_remove_change s (History.reference_change g seq) (i_attached _ Hi)) as (s1 & b & -> & Hs1).
  simpl. assert (inv s1 ∧ quiet s s1 ∧ mp_listener (rd s1) = mp_listener (rd s)) as (Hi1 & Hq1 & Hl1).
  { destruct Hs1 as [->|(k & c & Hk & _ & Eh & Er)]; [split_and!; [done|apply quiet_refl|done]|].
    destruct s1 as [h1 r1]. simpl in Eh, Er. unfold rd in Er. simpl in Er. subst. by apply removal_inv. }
  destruct (IH s1 Hi1) as (s2 & -> & Hi2 & Hq2 & Hl2).
  exists s2. split_and!; [done|done|by eapply quiet_trans|congruence].
Qed.

(** ** The first loop of the notification *)

(** The state during the notification of the proxy at [i]: up to [n] the numbers are
    notified. *)
Definition during s (i : nat) (w : WriterProxy.WriterProxy) (n : SN.SequenceNumber_t) (u : Z)
    : Sys P (list Call * L) :=
  ReaderHistory.mkReaderHistory (ReaderHistory.hist s)
    (with_unread (set_proxy (rd s) i (WriterProxy.with_notified w n)) u).

Definition notifying s (i : nat) (w : WriterProxy.WriterProxy) (n : SN.SequenceNumber_t) : Prop :=
  (i < length (writers (rd s)))%nat ∧ proxy_inv (WriterProxy.with_notified w n).

Lemma the_proxy_at s i w : writers (rd s) !! i = Some w → the_proxy i s = Done (w, s).
Proof. intros E. unfold the_proxy, mbind, stateful_bind, reader. simpl. unfold rd in E. by rewrite E. Qed.

Lemma set_during s i w n m u :
  modify (λ r, set_proxy r i (WriterProxy.with_notified w m)) (during s i w n u) = Done (tt, during s i w m u).
Proof.
  unfold modify, during. f_equal. f_equal. f_equal. unfold with_unread, set_proxy, with_writers. simpl. f_equal.
  unfold RLV.with_items, writers. simpl. by rewrite list_insert_insert_eq.
Qed.

Lemma next_during s i w n u :
  notifying s i w n →
  if decide (SN.val n < low w) then
    ∃ m, next_cache_change_to_be_notified i (during s i w n u) = Done (m, during s i w m u) ∧
      ok m ∧ SN.val m = SN.val n + 1 ∧ notifying s i w m
  else next_cache_change_to_be_notified i (during s i w n u) = Done (SN.unknown, during s i w n u).
Proof.
  intros [Hlt Hp]. pose proof (next_change_spec _ Hp) as Hn. simpl in Hn.
  unfold next_cache_change_to_be_notified. rewrite (bind_step _ _ _ _ _
    (the_proxy_at (during s i w n u) i (WriterProxy.with_notified w n) (list_lookup_insert_eq _ _ _ Hlt))).
  destruct (decide (SN.val n < low w)) as [Hlt'|Hge].
  - destruct Hn as (m & -> & Hok & Hm & Hp'). exists m. split; [|done].
    etransitivity; [apply bind_step; exact (set_during s i w n m u)|done].
  - rewrite Hn. etransitivity; [apply bind_step; exact (set_during s i w n n u)|done].
Qed.

Lemma ok_not_unknown n : ok n → SN.neqb n SN.unknown = true.
Proof.
  intros [Hw Hn]. rewrite SN.neqb_negb. apply negb_true_iff. destruct (SN.eqb _ _) eqn:E; [|done].
  apply SN.eqb_eq in E as ->. unfold SN.unknown, SN.val in Hn. simpl in Hn. lia.
Qed.

(** The inner loop stops at the number after [seq], or when all are notified. *)
Lemma skip_notified_spec fuel s i w n seq u :
  notifying s i w n → ok seq → SN.val n <= SN.val seq <= low w → (Z.to_nat (low w - SN.val n) < fuel)%nat →
  ∃ next m, skip_notified fuel i seq (during s i w n u) = Done (next, during s i w m u) ∧
    notifying s i w m ∧ SN.val n <= SN.val m ∧
    (if decide (SN.val seq < low w) then next = m ∧ SN.val m = SN.val seq + 1 else next = SN.unknown).
Proof.
  revert n. induction fuel as [|fuel IH]; intros n Hn Hseq Hle Hf; [lia|]. simpl. unfold mbind at 1, stateful_bind at 1.
  pose proof (next_during s i w n u Hn) as Hnext. destruct (decide (SN.val n < low w)) as [Hlt|Hge].
  - destruct Hnext as (m & -> & Hokm & Em & Hm). simpl. rewrite (ok_not_unknown m Hokm). simpl.
    rewrite SN.leb_val by auto with mint. destruct (Z.leb_spec (SN.val m) (SN.val seq)) as [Hms|Hms].
    + destruct (IH m) as (next & m' & E' & Hm' & Hle' & Hnx); [done..|lia|lia|].
      exists next, m'. split_and!; [done|done|lia|done].
    + exists m, m. split; [done|]. split; [done|]. split; [lia|]. rewrite decide_True by lia. split; [done|lia].
  - rewrite Hnext. simpl. exists SN.unknown, n. split_and!; [done..|]. by rewrite decide_False by lia.
Qed.

Lemma drain_notified_spec fuel s i w n u :
  notifying s i w n → (Z.to_nat (low w - SN.val n) < fuel)%nat →
  ∃ m, drain_notified fuel i (during s i w n u) = Done (tt, during s i w m u) ∧
    notifying s i w m ∧ SN.val m = low w.
Proof.
  revert n. induction fuel as [|fuel IH]; intros n Hn Hf; [lia|]. simpl. unfold mbind at 1, stateful_bind at 1.
  pose proof (next_during s i w n u Hn) as Hnext. destruct (decide (SN.val n < low w)) as [Hlt|Hge].
  - destruct Hnext as (m & -> & Hokm & Em & Hm). simpl. replace (SN.neqb SN.unknown m) with true.
    + apply IH; [done|lia].
    + symmetry. pose proof (ok_not_unknown m Hokm) as E. rewrite SN.neqb_negb, negb_true_iff in E |- *.
      destruct (SN.eqb SN.unknown m) eqn:E'; [|done]. apply SN.eqb_eq in E' as <-. done.
  - rewrite Hnext. simpl. exists n. split; [done|]. split; [done|].
    pose proof (pi_notified_le _ (proj2 Hn)) as Hle. simpl in Hle. lia.
Qed.

(** The changes of a writer with numbers in a range. *)
Definition window (g : Guid.GUID_t) (a b : Z) (c : CacheChange_t) : Prop :=
  writerGUID c = g ∧ a <= number c <= b.

#[export] Instance window_dec g a b c : Decision (window g a b c).
Proof. unfold window. apply _. Defined.

(** Where the search for a number ends, the rest of the range begins. *)
Lemma window_search g next b l :
  Guid.wf g → SN.wf next → Forall wf_change l → ordered g l →
  let j := History.find_if (at_or_past g next) l in
  match l !! j with
  | None => filter (window g (SN.val next) b) l = []
  | Some c => c ∈ l ∧ writerGUID c = g ∧ SN.val next <= number c ∧
      filter (window g (SN.val next) b) l =
        if decide (number c <= b) then c :: filter (window g (number c + 1) b) (drop (S j) l) else []
  end.
Proof.
  intros Hg Hn Hwf Hord j. subst j. induction l as [|c l IH]; [done|].
  apply Forall_cons in Hwf as [Hc Hwf]. apply ordered_cons in Hord as [Hord Hlater]. cbn [History.find_if].
  pose proof (at_or_past_iff g next c Hg Hn Hc) as Hat. destruct (at_or_past g next c) eqn:E; simpl.
  - destruct (proj1 Hat eq_refl) as [Hcg Hle]. specialize (Hlater Hcg). rewrite Forall_forall in Hlater.
    split; [left|]. split; [done|]. split; [done|]. rewrite drop_0. rewrite filter_cons. case_decide as Hw.
    + rewrite decide_True by apply Hw. f_equal. apply filter_same. intros d Hd. unfold window.
      specialize (Hlater d Hd). split; [intros [Ed Hr]; specialize (Hlater Ed); split; [done|lia]|].
      intros [Ed Hr]. split; [done|lia].
    + rewrite decide_False by (intros Hb; apply Hw; done). apply filter_none.
      intros d Hd [Ed Hr]. specialize (Hlater d Hd Ed). apply Hw. split; [done|lia].
  - assert (¬ window g (SN.val next) b c) as Hnot
      by (intros [Hcg [Hle _]]; assert (false = true) by (apply Hat; done); done).
    specialize (IH Hwf Hord). rewrite filter_cons_False by done.
    destruct (l !! _) as [d|]; [|exact IH]. destruct IH as (Hd & Hrest). split; [by right|exact Hrest].
Qed.

Lemma ordered_drop g k l : ordered g l → ordered g (drop k l).
Proof.
  revert l. induction k as [|k IH]; intros l Hl; [done|]. destruct l as [|c l]; [done|].
  simpl. apply IH. by apply ordered_cons in Hl as [? _].
Qed.

Lemma notify_loop_unknown ndebug fuel i g max it new s :
  notify_loop ndebug fuel i g max SN.unknown it new s = Done (new, s).
Proof. by destruct fuel. Qed.

Lemma notify_loop_spec ndebug fuel s i w n it new u :
  notifying s i w n → ok n → Guid.wf (guid w) → Forall wf_change (changes s) → ordered (guid w) (changes s) →
  (Z.to_nat (low w - SN.val n) < fuel)%nat →
  Forall (λ c, window (guid w) (SN.val n) (low w) c → isRead c = false) (drop it (changes s)) →
  0 <= u → u + Z.of_nat (length (drop it (changes s))) < 2 ^ 64 →
  let l := filter (window (guid w) (SN.val n) (low w)) (drop it (changes s)) in
  ∃ m, notify_loop ndebug fuel i (guid w) (WriterProxy.available_changes_max w) n it new (during s i w n u) =
      Done (match l with [] => new | _ => true end, during s i w m (u + Z.of_nat (length l))) ∧
    notifying s i w m ∧ SN.val n <= SN.val m.
Proof.
  intros Hn Hok Hg Hwf Hord. assert (ok (WriterProxy.changes_from_writer_low_mark_ w)) as Hlow by apply Hn.
  set (l := changes s) in *. revert n it new u Hn Hok.
  induction fuel as [|fuel IH]; intros n it new u Hn Hok Hf Hread Hu Hsz; [lia|].
  cbn [notify_loop]. rewrite (ok_not_unknown n Hok).
  rewrite (bind_step history _ _ (ReaderHistory.hist s) (during s i w n u)) by done.
  unfold History.get_change_nts. fold (changes s). fold l. rewrite search_change_stop. cbn [snd].
  pose proof (window_search (guid w) n (low w) (drop it l) Hg (proj1 Hok) (Forall_drop _ _ _ Hwf)
    (ordered_drop _ _ _ Hord)) as Hw. cbv zeta in Hw. rewrite lookup_drop in Hw.
  set (j := History.find_if (at_or_past (guid w) n) (drop it l)) in *.
  destruct (l !! (it + j)%nat) as [c|] eqn:Ec; cycle 1.
  { exists n. rewrite Hw. split; [|split; [done|lia]]. simpl. by rewrite Z.add_0_r. }
  destruct Hw as (Hcl & Hcg & Hle & ->).
  assert (wf_change c) as [Hcs _] by (rewrite Forall_forall in Hwf; eapply Hwf, list_elem_of_lookup_2, Ec).
  rewrite SN.leb_val by (done || apply Hlow). fold (number c). unfold WriterProxy.available_changes_max at 1.
  destruct (Z.leb_spec (number c) (low w)) as [Hcl'|Hcl']; cycle 1.
  { exists n. rewrite decide_False by lia. split; [|split; [done|lia]]. simpl. by rewrite Z.add_0_r. }
  rewrite decide_True by done. rewrite Forall_forall in Hread. rewrite (Hread c Hcl) by done. cbn [negb].
  rewrite (bind_step (lift_outcome _) _ _ tt (during s i w n u)) by (unfold lift_outcome; by rewrite assert_true).
  assert (ok (sequenceNumber c)) as Hokc by (split; [done|]; unfold number in *; destruct Hok, Hlow; lia).
  destruct (skip_notified_spec (S fuel) s i w n (sequenceNumber c) (u + 1)) as (next & m & Es & Hm & Hnm & Hnx);
    [done..|].
  assert (drop (S (it + j)) l = drop (S j) (drop it l)) as Edrop by (rewrite drop_drop; f_equal; lia).
  assert (Z.of_nat (length (drop (S (it + j)) l)) + 1 <= Z.of_nat (length (drop it l))) as Hlen
    by (pose proof (lookup_lt_Some _ _ _ Ec); rewrite !length_drop; lia).
  rewrite (bind_step _ _ _ tt (during s i w n (u + 1)))
    by (unfold modify, during; simpl; do 4 f_equal; unfold u64; rewrite Z.mod_small by lia; done).
  rewrite (bind_step _ _ _ _ _ Es), <-Edrop. cbn [length]. case_decide as Hlt; cycle 1.
  - subst next. rewrite notify_loop_unknown. exists m. split; [|done]. do 3 f_equal.
    rewrite (filter_none (window _ (number c + 1) _)); [simpl; lia|].
    intros d _ [_ Hd]. unfold number in *. lia.
  - destruct Hnx as [-> Em]. fold (number c) in Em. rewrite <-Em.
    destruct (IH m (S (it + j)) true (u + 1) Hm) as (m' & -> & Hm' & Hmm); [apply (pi_notified _ (proj2 Hm))|unfold number in *; lia| |lia|lia|].
    + apply Forall_forall. intros d Hd [Hdg Hdr]. apply Hread; [|split; [done|lia]].
      rewrite Edrop in Hd. by eapply subseteq_drop.
    + exists m'. split; [|split; [done|lia]]. destruct (filter _ _); do 3 f_equal; simpl; lia.
Qed.

(** ** The second loop *)

(** The invariant only looks at some parts of the reader. *)
Lemma inv_frame s s' :
  inv s → ReaderHistory.hist s' = ReaderHistory.hist s → is_alive_ (rd s') = is_alive_ (rd s) →
  writers (rd s') = writers (rd s) → history_state_ (rd s') = history_state_ (rd s) →
  total_unread_ (rd s') = total_unread_ (rd s) → inv s'.
Proof.
  intros [Hat Hw Ht Hs Hnd Hh Hu Hsz] Eh Ea Ew Er Eu.
  assert (changes s' = changes s) as Ec by (unfold changes; by rewrite Eh).
  constructor; rewrite ?Eh, ?Ec, ?Eu; [done| |done|done|done| | |done].
  - destruct Hw. by constructor; rewrite ?Ea, ?Ew, ?Er.
  - eapply Forall_impl; [exact Hh|]. intros c. unfold held. by rewrite Ew.
  - rewrite Hu. unfold unread_count. f_equal. f_equal. apply filter_same.
    intros c _. unfold unread, seen. by rewrite Er.
Qed.

Lemma filter_sublist {A} (Q : A → Prop) `{!∀ x, Decision (Q x)} l1 l2 :
  sublist l1 l2 → sublist (filter Q l1) (filter Q l2).
Proof.
  induction 1 as [|x l1 l2 _ IH|x l1 l2 _ IH]; [done| |]; rewrite !filter_cons; repeat case_decide; try done.
  - by apply sublist_skip.
  - by apply sublist_cons.
Qed.

Lemma filter_narrow {A} (Q R : A → Prop) `{!∀ x, Decision (Q x)} `{!∀ x, Decision (R x)} (l : list A) :
  (∀ x, R x → Q x) → filter R l = filter R (filter Q l).
Proof.
  intros HRQ. induction l as [|x l IH]; [done|]. rewrite !filter_cons. repeat case_decide; rewrite ?filter_cons.
  - rewrite decide_True by done. by f_equal.
  - naive_solver.
  - by rewrite decide_False.
  - done.
Qed.

Definition heard s (g : Guid.GUID_t) (a b : Z) (t : list CacheChange_t) : Prop :=
  StronglySorted Z.lt (number <$> t) ∧
  Forall (λ c, c ∈ changes s ∧ window g a b c ∧ is_fully_assembled c = true) t.

Lemma heard_cons s s' g a b c t :
  inv s → c ∈ changes s → window g a b c → sublist (changes s') (changes s) →
  heard s' g (number c + 1) b t → heard s g a b (c :: t).
Proof.
  intros Hi Hc Hw Hsub [Hs Hf]. pose proof (i_held _ Hi) as Hh. rewrite Forall_forall in Hh, Hf.
  split.
  - simpl. constructor; [done|]. apply Forall_fmap, Forall_forall. intros d Hd.
    destruct (Hf d Hd) as (_ & [_ Hr] & _). simpl. lia.
  - constructor; [split_and!; [done|done|apply (Hh c Hc)]|]. apply Forall_forall. intros d Hd.
    destruct (Hf d Hd) as (Hin & [Hg Hr] & Hfull). split; [by eapply elem_of_sublist|]. split; [|done].
    split; [done|]. destruct Hw. lia.
Qed.

(** A listener that wants to know each change and removes none. *)
Definition patient : Prop :=
  (∀ (l : L) g first last, (on_data_available l g first last).1 = (true, [])) ∧
  (∀ (l : L) c, (onNewCacheChangeAdded l c).1 = []).

(** It is told of all of [all], and the history stays. *)
Definition told s s' (all t : list CacheChange_t) : Prop := patient → t = all ∧ changes s' = changes s.

Lemma window_step s g next b c l :
  filter (window g next b) (changes s) = c :: l → next <= number c → Forall (window g (number c + 1) b) l →
  filter (window g (number c + 1) b) (changes s) = l.
Proof.
  intros E Hle Hl. rewrite (filter_narrow (window g next b) (window g (number c + 1) b)), E
    by (unfold window; intros; destruct_and?; split; [done|lia]).
  rewrite filter_cons_False by (unfold window; intros; destruct_and?; lia). by apply filter_all.
Qed.

Lemma notify_each_spec fuel g max next s :
  inv s → Guid.wf g → SN.wf next → 0 <= SN.val next → ok max → is_Some (mp_listener (rd s)) →
  (length (filter (window g (SN.val next) (SN.val max)) (changes s)) <= fuel)%nat →
  ∃ s' t, notify_each fuel g max next s = Done (tt, s') ∧ inv s' ∧ quiet s s' ∧ is_Some (mp_listener (rd s')) ∧
    calls (rd s') = calls (rd s) ++ (New <$> t) ∧ heard s g (SN.val next) (SN.val max) t ∧
    told s s' (filter (window g (SN.val next) (SN.val max)) (changes s)) t.
Proof.
  intros Hi Hg. revert next s Hi. induction fuel as [|fuel IH]; intros next s Hi Hn Hpos Hmax Hl Hf.
  all: cbn [notify_each]; rewrite SN.leb_val by (done || apply Hmax).
  all: set (all := filter (window g (SN.val next) (SN.val max)) (changes s)) in *.
  all: assert (all = [] → ∃ s' t, Done (tt, s) = Done (tt, s') ∧ inv s' ∧ quiet s s' ∧ is_Some (mp_listener (rd s')) ∧
    calls (rd s') = calls (rd s) ++ (New <$> t) ∧ heard s g (SN.val next) (SN.val max) t ∧ told s s' all t) as Hend
    by (intros ->; exists s, []; split_and!; [done|done|apply quiet_refl|done|by rewrite app_nil_r|split; constructor|done]).
  all: destruct (Z.leb_spec (SN.val next) (SN.val max)) as [Hle|];
    [|apply Hend, filter_none; intros c _ [_ Hc]; lia].
  all: rewrite (bind_step history _ _ (ReaderHistory.hist s) s) by done.
  all: unfold History.get_change_nts; fold (changes s); rewrite drop_0, search_change_stop; cbn [snd]; rewrite Nat.add_0_l.
  all: assert (Forall wf_change (changes s)) as Hwf
    by (eapply Forall_impl; [apply (i_timed _ Hi)|]; by intros c (? & _)).
  all: pose proof (window_search g next (SN.val max) (changes s) Hg Hn Hwf (inv_ordered s g Hi)) as Hw;
    cbv zeta in Hw; set (j := History.find_if (at_or_past g next) (changes s)) in *; fold all in Hw.
  all: destruct (changes s !! j) as [c|] eqn:Ec; [|by apply Hend]; destruct Hw as (Hc & Hcg & Hnc & Hwin).
  all: assert (wf_change c) as [Hcs _] by (rewrite Forall_forall in Hwf; by apply Hwf).
  all: rewrite SN.leb_val by (done || apply Hmax); fold (number c).
  all: destruct (Z.leb_spec (number c) (SN.val max)) as [Hcm|];
    [|apply Hend; rewrite Hwin, decide_False by lia; done].
  all: rewrite decide_True in Hwin by done; rewrite Hwin in Hf; simpl in Hf.
  { lia. }
  assert (filter (window g (number c + 1) (SN.val max)) (changes s) =
    filter (window g (number c + 1) (SN.val max)) (drop (S j) (changes s))) as Erest.
  { eapply window_step; [exact Hwin|done|]. apply Forall_forall. by intros d [Hd _]%list_elem_of_filter. }
  rewrite (bind_step reader _ _ (rd s) s) by done. destruct Hl as [l Hl]. rewrite Hl.
  destruct (onNewCacheChangeAdded l c) as [taken l'] eqn:El.
  set (s1 := ReaderHistory.mkReaderHistory (ReaderHistory.hist s) (with_listener (rd s) (Some l'))).
  rewrite (bind_step (modify _) _ _ tt s1) by done.
  assert (inv s1) as Hi1 by by apply (inv_frame s).
  destruct (take_changes_inv taken s1 Hi1) as (s2 & E2 & Hi2 & Hq2 & Hl2).
  rewrite (bind_step _ _ _ _ _ E2).
  assert (ok (sequenceNumber c)) as Hokc by (split; [done|]; unfold number in *; destruct Hmax; lia).
  destruct (ok_succ _ Hokc) as [Hwn Evn]. fold (number c) in Evn.
  destruct (IH (SN.add_u32 (sequenceNumber c) 1) s2 Hi2) as (s3 & t & E3 & Hi3 & Hq3 & Hl3 & Hcalls & Ht & Htold).
  - done.
  - lia.
  - done.
  - rewrite Hl2. by exists l'.
  - rewrite Evn. assert (sublist (changes s2) (changes s)) as Hsub by apply Hq2.
    pose proof (sublist_length _ _ (filter_sublist (window g (number c + 1) (SN.val max)) _ _ Hsub)) as Hlen.
    rewrite Erest in Hlen. lia.
  - exists s3, (c :: t). split; [exact E3|]. split; [done|].
    split; [eapply quiet_trans; [|exact Hq3]|].
    + eapply quiet_trans; [|exact Hq2]. split_and!; [done..|]. exists (total_unread_ (rd s)), (pools (rd s)), (Some l').
      unfold s1, rd. simpl. by destruct (ReaderHistory.mp_reader s).
    + split; [done|]. split; [|split].
      * assert (calls (rd s2) = calls (rd s) ++ [New c]) as Hc2; [|by rewrite Hcalls, Hc2, <-app_assoc].
        unfold calls. rewrite Hl2, Hl. simpl. simpl in El. destruct (onNewCacheChangeAdded l.2 c).
        by injection El as _ <-.
      * rewrite Evn in Ht. eapply heard_cons; [done|done|done| |exact Ht]. apply Hq2.
      * intros Hpat. destruct (Htold Hpat) as [-> ->]. pose proof (proj2 Hpat l.2 c) as Hnone. simpl in El.
        destruct (onNewCacheChangeAdded l.2 c) as [tk lc]. simpl in Hnone. subst tk. injection El as <- <-.
        injection E2 as <-. change (changes s1) with (changes s). rewrite Evn, Erest. by rewrite Hwin.
Qed.

(** ** [NotifyChanges] *)

Lemma same_writer r w1 w2 :
  writers_ok r → w1 ∈ writers r → w2 ∈ writers r → guid w1 = guid w2 → w1 = w2.
Proof.
  intros [_ _ Hnd _ _] [i Hi]%list_elem_of_lookup [j Hj]%list_elem_of_lookup Hg.
  assert (i = j) as ->; [|congruence].
  apply (NoDup_lookup _ i j (guid w1) Hnd); rewrite list_lookup_fmap; [by rewrite Hi|rewrite Hj; simpl; by rewrite Hg].
Qed.

Lemma during_start s i w :
  writers (rd s) !! i = Some w → during s i w (WriterProxy.last_notified_ w) (total_unread_ (rd s)) = s.
Proof.
  intros Hi. unfold during. destruct s as [h r]. unfold rd in *. simpl in *. f_equal.
  replace (WriterProxy.with_notified w (WriterProxy.last_notified_ w)) with w by by destruct w.
  unfold set_proxy. rewrite list_insert_id by done. destruct r as [? ? [] ? ? ? ? ? ? ? ?]. done.
Qed.

(** The changes a notification makes available. *)
Definition fresh s (w : WriterProxy.WriterProxy) : list CacheChange_t :=
  filter (window (guid w) (SN.val (WriterProxy.last_notified_ w) + 1) (low w)) (changes s).

Definition recorded s (w : WriterProxy.WriterProxy) : Sys P (list Call * L) :=
  ReaderHistory.mkReaderHistory (ReaderHistory.hist s) (with_record (rd s)
    (update_last_notified (history_state_ (rd s)) (guid w) (WriterProxy.available_changes_max w)).2).

Lemma notify_count ndebug s i w {A} (k : SN.SequenceNumber_t → bool → M A) :
  inv s → writers (rd s) !! i = Some w →
  ∃ first m,
    (first_seq ← next_cache_change_to_be_notified i;
     modify (λ r, with_record r (update_last_notified (history_state_ r) (guid w)
       (WriterProxy.available_changes_max w)).2);;
     new ← notify_loop ndebug (to_notify w) i (guid w) (WriterProxy.available_changes_max w) first_seq 0 false;
     drain_notified (to_notify w) i;;
     k first_seq new) s =
    k first (match fresh s w with [] => false | _ => true end)
      (during (recorded s w) i w m (total_unread_ (rd s) + Z.of_nat (length (fresh s w)))) ∧
    notifying s i w m ∧ SN.val m = low w ∧
    (fresh s w ≠ [] → ok first ∧ SN.val first = SN.val (WriterProxy.last_notified_ w) + 1).
Proof.
  intros Hi Hw. pose proof (list_elem_of_lookup_2 _ _ _ Hw) as Hin.
  destruct (i_writers _ Hi) as [_ Hp _ _ _]. rewrite Forall_forall in Hp. destruct (Hp w Hin) as (Hpi & _ & Hg).
  set (n0 := WriterProxy.last_notified_ w). set (u := total_unread_ (rd s)).
  assert (notifying s i w n0) as Hn0.
  { split; [by eapply lookup_lt_Some|]. replace (WriterProxy.with_notified w n0) with w by by destruct w. done. }
  pose proof (during_start s i w Hw) as Hs. fold n0 u in Hs.
  pose proof (next_during s i w n0 u Hn0) as Hnext. rewrite Hs in Hnext.
  assert (Forall wf_change (changes s)) as Hwf
    by (eapply Forall_impl; [apply (i_timed _ Hi)|]; by intros c (? & _)).
  assert (∀ c, c ∈ changes s → window (guid w) (SN.val n0 + 1) (low w) c → isRead c = false) as Hread.
  { intros c Hc [Hcg Hcr]. pose proof (i_held _ Hi) as Hh. rewrite Forall_forall in Hh.
    destruct (Hh c Hc) as (_ & w' & Hw' & Hg' & _ & Hr). apply Hr.
    assert (w' = w) as ->; [|unfold n0 in Hcr; lia].
    apply (same_writer (rd s)); [apply Hi|done|done|congruence]. }
  destruct (decide (SN.val n0 < low w)) as [Hlt|Hge].
  - destruct Hnext as (first & E & Hokf & Ef & Hnf). exists first. rewrite (bind_step _ _ _ _ _ E).
    rewrite (bind_step (modify _) _ _ tt (during (recorded s w) i w first u)) by done.
    destruct (notify_loop_spec ndebug (to_notify w) (recorded s w) i w first 0 false u) as (m1 & E1 & Hm1 & Hle1);
      [exact Hnf|done|done|done|apply (inv_ordered s _ Hi)| | | | |].
    + unfold to_notify. fold n0. unfold WriterProxy.available_changes_max. lia.
    + rewrite drop_0, Ef. apply Forall_forall. exact Hread.
    + unfold u. rewrite (i_unread _ Hi). unfold unread_count. lia.
    + rewrite drop_0. change (changes (recorded s w)) with (changes s). unfold u.
      rewrite (i_unread _ Hi). unfold unread_count. pose proof (length_filter (unread (rd s)) (changes s)).
      pose proof (i_size _ Hi). lia.
    + rewrite drop_0, Ef in E1. change (changes (recorded s w)) with (changes s) in E1. fold n0 in E1.
      change (filter _ (changes s)) with (fresh s w) in E1. rewrite (bind_step _ _ _ _ _ E1).
      destruct (drain_notified_spec (to_notify w) (recorded s w) i w m1 (u + Z.of_nat (length (fresh s w))))
        as (m & E2 & Hm & Em); [done| |].
      { unfold to_notify. fold n0. unfold WriterProxy.available_changes_max. lia. }
      rewrite (bind_step _ _ _ _ _ E2). exists m. split_and!; [done|done|done|done].
  - exists SN.unknown. rewrite (bind_step _ _ _ _ _ Hnext).
    rewrite (bind_step (modify _) _ _ tt (during (recorded s w) i w n0 u))
      by (rewrite <-Hs at 1; done).
    rewrite (bind_step _ _ _ _ _ (notify_loop_unknown _ _ _ _ _ _ _ _)).
    destruct (drain_notified_spec (to_notify w) (recorded s w) i w n0 u) as (m & E2 & Hm & Em); [done| |].
    { unfold to_notify. fold n0. unfold WriterProxy.available_changes_max. lia. }
    rewrite (bind_step _ _ _ _ _ E2). exists m.
    assert (fresh s w = []) as ->.
    { apply filter_none. intros c _ [_ Hc]. fold n0 in Hc. lia. }
    rewrite Z.add_0_r. split_and!; [done|done|done|done].
Qed.

Lemma update_keeps_lookup st g seq g' :
  guid_to_look (update_last_notified st g seq).2 g' = guid_to_look st g'.
Proof. unfold update_last_notified. simpl. by destruct (SN.ltb _ _). Qed.

Lemma get_updated st g seq g' :
  get_last_notified (update_last_notified st g seq).2 g' =
  if decide (guid_to_look st g' = guid_to_look st g)
  then (if SN.ltb (get_last_notified st g) seq then seq else get_last_notified st g)
  else get_last_notified st g'.
Proof.
  unfold get_last_notified at 1. rewrite update_keeps_lookup. unfold update_last_notified. simpl.
  case_decide as E.
  - rewrite E. fold (get_last_notified st g). destruct (SN.ltb _ _); [|done]. simpl. by rewrite lookup_insert_eq.
  - destruct (SN.ltb _ _); [|done]. simpl. by rewrite lookup_insert_ne.
Qed.

Lemma filter_split {A} (Q R S : A → Prop) `{!∀ x, Decision (Q x)} `{!∀ x, Decision (R x)}
    `{!∀ x, Decision (S x)} (l : list A) :
  (∀ x, x ∈ l → (Q x ↔ R x ∨ S x) ∧ ¬ (R x ∧ S x)) →
  length (filter Q l) = (length (filter R l) + length (filter S l))%nat.
Proof.
  induction l as [|x l IH]; intros Hx; [done|]. specialize (IH (λ y Hy, Hx y (list_elem_of_further _ _ _ Hy))).
  destruct (Hx x (list_elem_of_here _ _)) as [Hiff Hno]. rewrite !filter_cons.
  repeat case_decide; simpl; rewrite ?IH; first [lia|exfalso; tauto].
Qed.

Lemma writers_insert r i w w' :
  writers r !! i = Some w → guid w' = guid w → ∀ x, x ∈ <[i := w']> (writers r) →
  x = w' ∨ (x ∈ writers r ∧ (NoDup (guid <$> writers r) → guid x ≠ guid w)).
Proof.
  intros Hi Hg x [j Hj]%list_elem_of_lookup. destruct (decide (i = j)) as [<-|Hne].
  - rewrite list_lookup_insert_eq in Hj by by eapply lookup_lt_Some. left. congruence.
  - rewrite list_lookup_insert_ne in Hj by done. right. split; [by eapply list_elem_of_lookup_2|].
    intros Hnd E. apply Hne. apply (NoDup_lookup _ i j (guid w) Hnd);
      rewrite list_lookup_fmap; [by rewrite Hi|rewrite Hj; simpl; by rewrite E].
Qed.

Lemma fmap_insert_same {A B} (f : A → B) i x x' (l : list A) :
  l !! i = Some x → f x' = f x → f <$> <[i := x']> l = f <$> l.
Proof. intros Hi Hf. rewrite list_fmap_insert, Hf. apply list_insert_id. by rewrite list_lookup_fmap, Hi. Qed.

Lemma recorded_state s w :
  history_state_ (rd (recorded s w)) =
  (update_last_notified (history_state_ (rd s)) (guid w) (WriterProxy.available_changes_max w)).2.
Proof. done. Qed.

(** When the numbers up to the low mark have been notified, the changes they make
    available are the new unread ones. *)
Lemma notified_writers s i w m :
  inv s → writers (rd s) !! i = Some w → notifying s i w m → SN.val m = low w →
  writers_ok (rd (during (recorded s w) i w m (total_unread_ (rd s) + Z.of_nat (length (fresh s w))))) ∧
  get_last_notified (history_state_ (rd (recorded s w))) (guid w) = m.
Proof.
  intros Hi Hw [Hlt Hp] Em. pose proof (i_writers _ Hi) as Hwo. pose proof Hwo as [Ha Hpr Hnd Hr Hl].
  pose proof (list_elem_of_lookup_2 _ _ _ Hw) as Hin. rewrite Forall_forall in Hpr.
  destruct (Hpr w Hin) as (Hpw & Haw & Hgw).
  assert (get_last_notified (history_state_ (rd (recorded s w))) (guid w) = m) as Hrec.
  { rewrite recorded_state, get_updated, decide_True, (Hr w Hin) by done.
    unfold WriterProxy.available_changes_max. rewrite SN.ltb_val by (apply (pi_notified _ Hpw) || apply (pi_low _ Hpw)).
    pose proof (pi_notified_le _ Hpw). pose proof (pi_notified _ Hp) as [Hm _]. simpl in Hm.
    destruct (Z.ltb_spec (SN.val (WriterProxy.last_notified_ w)) (low w));
      apply SN.val_inj; (done || lia || apply (pi_low _ Hpw) || apply (pi_notified _ Hpw)). }
  split; [|done]. set (w' := WriterProxy.with_notified w m).
  assert (∀ x, x ∈ <[i := w']> (writers (rd s)) → x = w' ∨ (x ∈ writers (rd s) ∧ guid x ≠ guid w)) as Hins.
  { intros x Hx. destruct (writers_insert (rd s) i w w' Hw eq_refl x Hx) as [|[Hx' Hne]]; [by left|right; auto]. }
  set (s' := during _ _ _ _ _). assert (writers (rd s') = <[i := w']> (writers (rd s))) as Ew by done.
  assert (history_state_ (rd s') = history_state_ (rd (recorded s w))) as Es by done.
  constructor; rewrite ?Ew, ?Es.
  - done.
  - apply Forall_forall. intros x [->|[Hx _]]%Hins; [split_and!; [exact Hp|exact Haw|exact Hgw]|by apply Hpr].
  - by rewrite (fmap_insert_same guid i w).
  - intros x [->|[Hx Hne]]%Hins; [exact Hrec|].
    rewrite recorded_state, get_updated, decide_False; [by apply Hr|].
    intros E. by apply Hne, Hl.
  - intros x1 x2 [->|[Hx1 _]]%Hins [->|[Hx2 _]]%Hins; rewrite recorded_state, !update_keeps_lookup;
      [done|..]; intros E.
    + change (guid w') with (guid w). by apply Hl.
    + change (guid w') with (guid w) in *. by apply Hl.
    + by apply Hl.
Qed.

Lemma notified_inv s i w m :
  inv s → writers (rd s) !! i = Some w → notifying s i w m → SN.val m = low w →
  inv (during (recorded s w) i w m (total_unread_ (rd s) + Z.of_nat (length (fresh s w)))).
Proof.
  intros Hi Hw Hn Em. destruct (notified_writers s i w m Hi Hw Hn Em) as [Hwo Hrec].
  pose proof Hi as [Hat Hwo0 Ht Hs Hnd Hh Hu Hsz]. pose proof (list_elem_of_lookup_2 _ _ _ Hw) as Hin.
  pose proof Hwo0 as [_ Hpr Hnd0 Hr Hl]. rewrite Forall_forall in Hpr. rewrite Forall_forall in Hh. destruct (Hpr w Hin) as (Hpw & _ & _).
  pose proof (pi_notified_le _ Hpw) as Hle. set (w' := WriterProxy.with_notified w m).
  constructor; [done|done|done|done|done| | |done].
  - apply Forall_forall. intros c Hc. destruct (Hh c Hc) as (Hfull & x & Hx & Hg & Hk & Hread).
    split; [done|]. destruct (decide (guid x = guid w)) as [E|E].
    + assert (x = w) as -> by by apply (same_writer (rd s)). exists w'. split_and!; [|done|exact Hk|].
      * change (w' ∈ <[i := w']> (writers (rd s))). eapply list_elem_of_lookup_2, list_lookup_insert_eq, Hn.
      * simpl. intros Hlt. apply Hread. lia.
    + exists x. split_and!; [|done|done|done]. change (x ∈ <[i := w']> (writers (rd s))).
      apply list_elem_of_lookup in Hx as [j Hj]. apply (list_elem_of_lookup_2 _ j).
      rewrite list_lookup_insert_ne; [done|]. intros <-. congruence.
  - set (s' := during _ _ _ _ _) at 2. change (total_unread_ (rd s) + Z.of_nat (length (fresh s w)) =
      unread_count (rd s') (changes s)). rewrite Hu. unfold unread_count. rewrite <-Nat2Z.inj_add. f_equal. symmetry.
    assert (history_state_ (rd s') = history_state_ (rd (recorded s w))) as Es by done.
    apply filter_split. intros c Hc. destruct (Hh c Hc) as (_ & x & Hx & Hg & _ & Hread).
    unfold unread, seen, window. rewrite <-Hg, (Hr x Hx), Es.
    destruct (decide (guid x = guid w)) as [E|E].
    + assert (x = w) as -> by by apply (same_writer (rd s)). rewrite Hrec, Em. split; [|lia].
      split; [intros [Hrd Hn']|].
      * destruct (decide (number c <= SN.val (WriterProxy.last_notified_ w))); [left; done|right; split; [done|lia]].
      * intros [[Hrd Hn']|[_ Hn']]; [split; [done|lia]|]. split; [apply Hread; lia|lia].
    + rewrite recorded_state, get_updated, decide_False by (intros E'; by apply E, Hl).
      rewrite (Hr x Hx). split; [|by intros [_ [E' _]]; apply E]. split; [by left|]. intros [|[E' _]]; [done|by destruct E].
Qed.

(** [s'] is [s] after notifications: the proxy at [i] is [w'], and the history may have
    lost changes to the listener. *)
Definition evolves s s' (i : nat) (w' : WriterProxy.WriterProxy) : Prop :=
  sublist (changes s') (changes s) ∧
  History.m_att (ReaderHistory.hist s') = History.m_att (ReaderHistory.hist s) ∧
  ∃ st u p l, rd s' = with_listener (with_pools (with_unread (with_record (set_proxy (rd s) i w') st) u) p) l.

Lemma quiet_evolves s s1 s2 i w' : evolves s s1 i w' → quiet s1 s2 → evolves s s2 i w'.
Proof.
  intros (Hc & Ha & st & u & p & l & E) (Hc' & Ha' & u' & p' & l' & E').
  split; [by etrans|]. split; [congruence|]. exists st, u', p', l'. by rewrite E', E.
Qed.

(** What the listener hears in a notification of the proxy [w]. *)
Definition announced s (w : WriterProxy.WriterProxy) (tr : list Call) : Prop :=
  (tr = [] ∨ ∃ first, SN.val first = SN.val (WriterProxy.last_notified_ w) + 1 ∧ fresh s w ≠ [] ∧
     tr = Available (guid w) first (WriterProxy.available_changes_max w) :: (New <$> news tr)) ∧
  heard s (guid w) (SN.val (WriterProxy.last_notified_ w) + 1) (low w) (news tr).

Lemma news_new (t : list CacheChange_t) : news (New <$> t) = t.
Proof. induction t as [|c t IH]; [done|]. simpl. by f_equal. Qed.

Lemma announced_nil s w : announced s w [].
Proof. split; [by left|]. split; constructor. Qed.

Lemma tell_available_spec s g first max new :
  inv s → Guid.wf g → ok first → ok max →
  ∃ s' tr, tell_available g first max new s = Done (tt, s') ∧ inv s' ∧ quiet s s' ∧
    calls (rd s') = calls (rd s) ++ tr ∧
    (tr = [] ∨ new = true ∧ tr = Available g first max :: (New <$> news tr)) ∧
    heard s g (SN.val first) (SN.val max) (news tr) ∧
    (new = true → is_Some (mp_listener (rd s)) →
      told s s' (filter (window g (SN.val first) (SN.val max)) (changes s)) (news tr)) ∧
    (is_Some (mp_listener (rd s)) → is_Some (mp_listener (rd s'))).
Proof.
  intros Hi Hg Hf Hm. unfold tell_available. rewrite (bind_step reader _ _ (rd s) s) by done.
  assert (∃ s' tr, Done (tt, s) = Done (tt, s') ∧ inv s' ∧ quiet s s' ∧ calls (rd s') = calls (rd s) ++ tr ∧
    (tr = [] ∨ new = true ∧ tr = Available g first max :: (New <$> news tr)) ∧
    heard s g (SN.val first) (SN.val max) (news tr) ∧
    mp_listener (rd s') = mp_listener (rd s)) as (s' & tr & Hend).
  { exists s, []. split_and!; [done|done|apply quiet_refl|by rewrite app_nil_r|by left|split; constructor|done]. }
  destruct (mp_listener (rd s)) as [l|] eqn:El.
  2: { exists s', tr. destruct Hend as (? & ? & ? & ? & ? & ? & Hl). rewrite Hl. by split_and!. }
  destruct new; cycle 1.
  { exists s', tr. destruct Hend as (? & ? & ? & ? & ? & ? & Hl). rewrite Hl. by split_and!. }
  clear s' tr Hend.
  destruct (on_data_available l g first max) as [[individual taken] l'] eqn:Eo.
  set (s1 := ReaderHistory.mkReaderHistory (ReaderHistory.hist s) (with_listener (rd s) (Some l'))).
  rewrite (bind_step (modify _) _ _ tt s1) by done. assert (inv s1) as Hi1 by by apply (inv_frame s).
  destruct (take_changes_inv taken s1 Hi1) as (s2 & E2 & Hi2 & Hq2 & Hl2). rewrite (bind_step _ _ _ _ _ E2).
  assert (calls (rd s2) = calls (rd s) ++ [Available g first max]) as Hc2.
  { unfold calls. rewrite Hl2, El. simpl. simpl in Eo. destruct (on_data_available l.2 g first max) as [[? ?] ?].
    by injection Eo as _ _ <-. }
  assert (quiet s s2) as Hq.
  { eapply quiet_trans; [|exact Hq2]. split_and!; [done..|]. exists (total_unread_ (rd s)), (pools (rd s)), (Some l').
    unfold s1, rd. simpl. by destruct (ReaderHistory.mp_reader s). }
  assert (patient → individual = true ∧ changes s2 = changes s) as Hpat.
  { intros [Hp _]. specialize (Hp l.2 g first max). simpl in Eo.
    destruct (on_data_available l.2 g first max) as [[? ?] ?]. simpl in Hp. injection Hp as -> ->.
    injection Eo as <- <- <-. split; [done|]. by injection E2 as <-. }
  destruct individual; cycle 1.
  { exists s2, [Available g first max]. split_and!; [done..|by right|split; constructor| |rewrite Hl2; by exists l'].
    intros _ _ Hp. by destruct (Hpat Hp). }
  rewrite (bind_step history _ _ (ReaderHistory.hist s2) s2) by done.
  destruct (notify_each_spec (length (changes s2)) g max first s2) as (s3 & t & E3 & Hi3 & Hq3 & Hl3 & Hc3 & Ht & Htold);
    [done|done|apply Hf|apply Hf|done|rewrite Hl2; by exists l'|apply length_filter|].
  exists s3, (Available g first max :: (New <$> t)).
  assert (news (Available g first max :: (New <$> t)) = t) as -> by apply news_new.
  split_and!; [exact E3|done|by eapply quiet_trans|by rewrite Hc3, Hc2, <-app_assoc|by right| | |done].
  - destruct Ht as [Hs Hall]. split; [done|]. eapply Forall_impl; [exact Hall|].
    intros c (Hc & Hrest). split; [|done]. eapply elem_of_sublist; [exact Hc|apply Hq].
  - intros _ _ Hp. destruct (Hpat Hp) as [_ Ec]. destruct (Htold Hp) as [-> ->]. by rewrite Ec.
Qed.

Lemma NotifyChanges_spec ndebug s i w :
  inv s → writers (rd s) !! i = Some w →
  ∃ s' m tr, NotifyChanges ndebug i s = Done (tt, s') ∧ inv s' ∧
    evolves s s' i (WriterProxy.with_notified w m) ∧ proxy_inv (WriterProxy.with_notified w m) ∧ SN.val m = low w ∧
    calls (rd s') = calls (rd s) ++ tr ∧ announced s w tr ∧
    (is_Some (mp_listener (rd s)) → told s s' (fresh s w) (news tr)) ∧
    (is_Some (mp_listener (rd s)) → is_Some (mp_listener (rd s'))).
Proof.
  intros Hi Hw. unfold NotifyChanges. rewrite (bind_step _ _ _ _ _ (the_proxy_at s i w Hw)). cbv zeta.
  destruct (notify_count ndebug s i w (λ first_seq new, tell_available (guid w) first_seq
    (WriterProxy.available_changes_max w) new) Hi Hw) as (first & m & -> & Hn & Em & Hfirst).
  pose proof (notified_inv s i w m Hi Hw Hn Em) as Hi1. set (s1 := during _ _ _ _ _) in *.
  assert (evolves s s1 i (WriterProxy.with_notified w m)) as He.
  { split_and!; [done..|]. exists (history_state_ (rd s1)), (total_unread_ (rd s1)), (pools (rd s)), (mp_listener (rd s)).
    done. }
  assert (calls (rd s1) = calls (rd s)) as Hc1 by done.
  pose proof (i_writers _ Hi) as [_ Hp _ _ _]. rewrite Forall_forall in Hp.
  destruct (Hp w (list_elem_of_lookup_2 _ _ _ Hw)) as (Hpw & _ & Hg).
  destruct (fresh s w) as [|c l] eqn:Ef.
  - exists s1, m, []. split_and!; [|done|done|apply Hn|done|by rewrite app_nil_r|apply announced_nil|done|done].
    unfold tell_available. rewrite (bind_step reader _ _ (rd s1) s1) by done. by destruct (mp_listener _).
  - destruct (Hfirst ltac:(done)) as [Hokf Evf].
    destruct (tell_available_spec s1 (guid w) first (WriterProxy.available_changes_max w) true)
      as (s' & tr & -> & Hi' & Hq & Hc & Htr & Hh & Htold & Hls); [done|done|done|apply (pi_low _ Hpw)|].
    exists s', m, tr. split_and!; [done|done|by eapply quiet_evolves|apply Hn|done|by rewrite Hc, Hc1| | |exact Hls].
    + split; [|by rewrite <-Evf].
      destruct Htr as [->|[_ Htr]]; [by left|]. right. exists first. by rewrite Ef.
    + intros Hl Hpat. destruct (Htold eq_refl Hl Hpat) as [-> ->]. split; [|done].
      rewrite <-Ef, Evf. done.
Qed.

(** ** What an operation delivers *)

(** The invariant is kept, no proxy forgets a number, and the changes the listener is
    told of by [tr] are complete, between what was notified before and after, and in
    the order of each writer. *)
Record delivers s s' (tr : list Call) : Prop := {
  d_inv : inv s';
  d_guids : guid <$> writers (rd s') = guid <$> writers (rd s);
  d_writers : ∀ w', w' ∈ writers (rd s') → ∃ w, w ∈ writers (rd s) ∧ guid w = guid w' ∧
    SN.val (WriterProxy.last_notified_ w) <= SN.val (WriterProxy.last_notified_ w') ∧ (∀ n, known w n → known w' n);
  d_calls : calls (rd s') = calls (rd s) ++ tr;
  d_news : Forall (λ c, is_fully_assembled c = true ∧ ∃ w w', w ∈ writers (rd s) ∧ w' ∈ writers (rd s') ∧
    guid w = writerGUID c ∧ guid w' = writerGUID c ∧
    SN.val (WriterProxy.last_notified_ w) < number c <= SN.val (WriterProxy.last_notified_ w')) (news tr);
  d_ordered : ∀ g, ordered g (news tr)
}.

Lemma ordered_app g l1 l2 :
  ordered g l1 → ordered g l2 →
  (∀ c d, c ∈ l1 → d ∈ l2 → writerGUID c = g → writerGUID d = g → number c < number d) → ordered g (l1 ++ l2).
Proof.
  intros H1 H2 H12. unfold ordered in *. rewrite filter_app, fmap_app. apply StronglySorted_app_2; [|done|done].
  intros x y (c & -> & [Hcg Hc]%list_elem_of_filter)%list_elem_of_fmap
    (d & -> & [Hdg Hd]%list_elem_of_filter)%list_elem_of_fmap. by apply H12.
Qed.

(** A step without calls. *)
Lemma delivers_silent s s' :
  inv s' → guid <$> writers (rd s') = guid <$> writers (rd s) → calls (rd s') = calls (rd s) →
  (∀ w', w' ∈ writers (rd s') → ∃ w, w ∈ writers (rd s) ∧ guid w = guid w' ∧
    SN.val (WriterProxy.last_notified_ w) <= SN.val (WriterProxy.last_notified_ w') ∧
    (∀ n, known w n → known w' n)) →
  delivers s s' [].
Proof.
  intros Hi Hg Hc Hw. split; [done|done|done|by rewrite app_nil_r|constructor|intros g; constructor].
Qed.

Lemma delivers_same s s' :
  inv s' → writers (rd s') = writers (rd s) → calls (rd s') = calls (rd s) → delivers s s' [].
Proof.
  intros Hi Hw Hc. apply delivers_silent; [done|by rewrite Hw|done|].
  rewrite Hw. intros w Hin. exists w. split_and!; [done|done|lia|done].
Qed.

Lemma delivers_refl s : inv s → delivers s s [].
Proof. intros Hi. by apply delivers_same. Qed.

Lemma delivers_trans s1 s2 s3 tr1 tr2 :
  inv s1 → delivers s1 s2 tr1 → delivers s2 s3 tr2 → delivers s1 s3 (tr1 ++ tr2).
Proof.
  intros Hi1 [Hi2 Hg12 Hw12 Hc12 Hn12 Ho12] [Hi3 Hg23 Hw23 Hc23 Hn23 Ho23].
  pose proof (i_writers _ Hi2) as Hwo2. rewrite Forall_forall in Hn12. rewrite Forall_forall in Hn23. split.
  - done.
  - congruence.
  - intros w3 (w2 & Hw2 & Eg2 & Hle2 & Hk2)%Hw23. destruct (Hw12 w2 Hw2) as (w1 & Hw1 & Eg1 & Hle1 & Hk1).
    exists w1. split_and!; [done|congruence|lia|auto].
  - by rewrite Hc23, Hc12, app_assoc.
  - rewrite news_app. apply Forall_app. split; apply Forall_forall; intros c Hc.
    + destruct (Hn12 c Hc) as (Hf & w1 & w2 & Hw1 & Hw2 & Eg1 & Eg2 & Hr). split; [done|].
      assert (writerGUID c ∈ guid <$> writers (rd s3)) as (w3 & Eg3 & Hw3)%list_elem_of_fmap
        by (rewrite Hg23; apply list_elem_of_fmap; by exists w2).
      destruct (Hw23 w3 Hw3) as (w2' & Hw2' & Eg2' & Hle & _).
      assert (w2' = w2) as -> by (apply (same_writer (rd s2)); (done || congruence)).
      exists w1, w3. split_and!; (done || lia).
    + destruct (Hn23 c Hc) as (Hf & w2 & w3 & Hw2 & Hw3 & Eg2 & Eg3 & Hr). split; [done|].
      destruct (Hw12 w2 Hw2) as (w1 & Hw1 & Eg1 & Hle & _). exists w1, w3. split_and!; (done || congruence || lia).
  - intros g. rewrite news_app. apply ordered_app; [done|done|]. intros c d Hc Hd Ecg Edg.
    destruct (Hn12 c Hc) as (_ & w1 & w2 & _ & Hw2 & _ & Eg2 & Hr).
    destruct (Hn23 d Hd) as (_ & w2' & w3 & Hw2' & _ & Eg2' & _ & Hr').
    assert (w2' = w2) as -> by (apply (same_writer (rd s2)); (done || congruence)). lia.
Qed.

Lemma insert_writers r i w w' (Q : WriterProxy.WriterProxy → WriterProxy.WriterProxy → Prop) :
  writers r !! i = Some w → Q w w' → (∀ x, x ∈ writers r → Q x x) →
  ∀ x', x' ∈ <[i := w']> (writers r) → ∃ x, x ∈ writers r ∧ Q x x'.
Proof.
  intros Hi Hw Hrefl x' [j Hj]%list_elem_of_lookup. destruct (decide (i = j)) as [<-|Hne].
  - rewrite list_lookup_insert_eq in Hj by by eapply lookup_lt_Some. injection Hj as <-.
    exists w. split; [by eapply list_elem_of_lookup_2|done].
  - rewrite list_lookup_insert_ne in Hj by done. exists x'. split; [by eapply list_elem_of_lookup_2|].
    apply Hrefl. by eapply list_elem_of_lookup_2.
Qed.

Lemma heard_ordered s g a b t g' : heard s g a b t → ordered g' t.
Proof.
  intros [Hs Hf]. unfold ordered. eapply StronglySorted_sublist; [|exact Hs].
  apply fmap_sublist. clear. induction t as [|c t IH]; [done|]. rewrite filter_cons.
  case_decide; [by apply sublist_skip|by apply sublist_cons].
Qed.

Lemma NotifyChanges_delivers ndebug s i w :
  inv s → writers (rd s) !! i = Some w →
  ∃ s' m tr, NotifyChanges ndebug i s = Done (tt, s') ∧ delivers s s' tr ∧
    sublist (changes s') (changes s) ∧ writers (rd s') !! i = Some (WriterProxy.with_notified w m) ∧
    SN.val m = low w ∧ announced s w tr ∧
    (is_Some (mp_listener (rd s)) → told s s' (fresh s w) (news tr)).
Proof.
  intros Hi Hw. destruct (NotifyChanges_spec ndebug s i w Hi Hw) as (s' & m & tr & E & Hi' & He & Hp & Em & Hc & Ha & Ht & _).
  exists s', m, tr. destruct He as (Hsub & _ & st & u & p & l & Er). split; [done|].
  set (w' := WriterProxy.with_notified w m) in *.
  assert (writers (rd s') = <[i := w']> (writers (rd s))) as Ew by by rewrite Er.
  pose proof (lookup_lt_Some _ _ _ Hw) as Hlt.
  pose proof (i_writers _ Hi) as [_ Hpr _ _ _]. rewrite Forall_forall in Hpr.
  destruct (Hpr w (list_elem_of_lookup_2 _ _ _ Hw)) as (Hpw & _ & _). pose proof (pi_notified_le _ Hpw) as Hle.
  assert (writers (rd s') !! i = Some w') as Hw' by (rewrite Ew; by apply list_lookup_insert_eq).
  split_and!; [|done|done|done|done|done]. split; [done| | |done| |].
  - rewrite Ew. by apply fmap_insert_same with w.
  - rewrite Ew. apply (insert_writers _ _ w _ (λ x x', guid x = guid x' ∧ _)); [done| |].
    + split; [done|]. simpl. split; [lia|done].
    + intros x _. split; [done|]. split; [lia|done].
  - destruct Ha as [_ [_ Hf]]. eapply Forall_impl; [exact Hf|]. intros c (_ & [Hg Hr] & Hfull). split; [done|].
    exists w, w'. split_and!; [by eapply list_elem_of_lookup_2|by eapply list_elem_of_lookup_2|done|done|lia|].
    simpl. lia.
  - intros g. eapply heard_ordered, Ha.
Qed.

(** ** Steps of the operations *)

(** A proxy may learn numbers. *)
Definition learns (w w' : WriterProxy.WriterProxy) : Prop :=
  guid w' = guid w ∧ WriterProxy.is_alive_ w' = WriterProxy.is_alive_ w ∧
  WriterProxy.last_notified_ w' = WriterProxy.last_notified_ w ∧ (∀ n, known w n → known w' n).

Definition with_proxy s (i : nat) (w' : WriterProxy.WriterProxy) : Sys P (list Call * L) :=
  ReaderHistory.mkReaderHistory (ReaderHistory.hist s) (set_proxy (rd s) i w').

Lemma learns_held r i w w' c :
  writers r !! i = Some w → learns w w' → held r c → held (set_proxy r i w') c.
Proof.
  intros Hw (Hg & _ & Hn & Hk) (Hf & x & Hx & Eg & Hkx & Hr). split; [done|].
  change (writers (set_proxy r i w')) with (<[i := w']> (writers r)).
  apply list_elem_of_lookup in Hx as [j Hj]. destruct (decide (i = j)) as [<-|Hne].
  - assert (x = w) as -> by congruence. exists w'. split_and!; [|congruence|by apply Hk|by rewrite Hn].
    eapply list_elem_of_lookup_2, list_lookup_insert_eq, lookup_lt_Some, Hw.
  - exists x. split_and!; [|done|done|done]. apply (list_elem_of_lookup_2 _ j). by rewrite list_lookup_insert_ne.
Qed.

Lemma learns_writers r i w w' :
  writers_ok r → writers r !! i = Some w → proxy_inv w' → learns w w' → writers_ok (set_proxy r i w').
Proof.
  intros [Ha Hp Hnd Hr Hl] Hw Hp' (Hg & Hal & Hn & Hk).
  assert (∀ x', x' ∈ <[i := w']> (writers r) → ∃ x, x ∈ writers r ∧ guid x = guid x' ∧
    WriterProxy.last_notified_ x = WriterProxy.last_notified_ x') as Hins.
  { apply (insert_writers r i w); [done|done|done]. }
  constructor; change (writers (set_proxy r i w')) with (<[i := w']> (writers r)); simpl.
  - done.
  - apply Forall_insert; [done|]. rewrite Forall_forall in Hp.
    destruct (Hp w (list_elem_of_lookup_2 _ _ _ Hw)) as (_ & ? & ?). split_and!; [done|congruence|congruence].
  - by rewrite (fmap_insert_same guid i w).
  - intros x' (x & Hx & <- & <-)%Hins. by apply Hr.
  - intros x1' x2' (x1 & Hx1 & <- & _)%Hins (x2 & Hx2 & <- & _)%Hins. by apply Hl.
Qed.

Lemma with_proxy_delivers s i w w' :
  inv s → writers (rd s) !! i = Some w → proxy_inv w' → learns w w' → delivers s (with_proxy s i w') [].
Proof.
  intros Hi Hw Hp Hlearn. pose proof Hi as [Hat Hwo Ht Hs Hnd Hh Hu Hsz].
  pose proof Hlearn as (Hg & _ & Hn & Hk). apply delivers_silent.
  - constructor; [done|by eapply learns_writers|done|done|done| |done|done].
    eapply Forall_impl; [exact Hh|]. intros c. by apply learns_held with w.
  - change (guid <$> <[i := w']> (writers (rd s)) = guid <$> writers (rd s)). by apply fmap_insert_same with w.
  - done.
  - apply (insert_writers (rd s) i w _ (λ x x', guid x = guid x' ∧ _)); [done| |].
    + split; [done|]. rewrite Hn. split; [lia|done].
    + intros x _. split; [done|]. split; [lia|done].
Qed.

Lemma received_learns w seq :
  proxy_inv w → ok seq → proxy_inv (WriterProxy.received_change_set w seq).2 ∧
  learns w (WriterProxy.received_change_set w seq).2.
Proof.
  intros Hp Hs. pose proof (received_change_set_spec w seq Hp Hs) as H.
  destruct (received_with_changes w seq) as (r & lo & m & E).
  destruct (WriterProxy.received_change_set w seq) as [b w'] eqn:Er. simpl in *. destruct H as (Hi & Hk & Hn & _).
  split; [done|]. unfold learns. rewrite E in *. split_and!; [done|done|done|]. intros n Hkn. apply Hk. by left.
Qed.

Lemma proxy_at_inv s i w : inv s → writers (rd s) !! i = Some w → proxy_inv w.
Proof.
  intros Hi Hw. pose proof (i_writers _ Hi) as [_ Hp _ _ _]. rewrite Forall_forall in Hp.
  apply (Hp w (list_elem_of_lookup_2 _ _ _ Hw)).
Qed.

Lemma with_proxy_at s i w w' : writers (rd s) !! i = Some w → writers (rd (with_proxy s i w')) !! i = Some w'.
Proof. intros Hw. apply list_lookup_insert_eq. by eapply lookup_lt_Some. Qed.

Lemma irrelevant_step s i w seq :
  writers (rd s) !! i = Some w →
  irrelevant_change_set i seq s =
  Done ((WriterProxy.received_change_set w seq).1, with_proxy s i (WriterProxy.received_change_set w seq).2).
Proof.
  intros Hw. unfold irrelevant_change_set. rewrite (bind_step _ _ _ _ _ (the_proxy_at s i w Hw)).
  rewrite (bind_step reader _ _ (rd s) s) by done. unfold irrelevant_change. rewrite Hw.
  unfold WriterProxy.irrelevant_change_set. by destruct (WriterProxy.received_change_set w seq).
Qed.

Lemma received_step s i w seq :
  writers (rd s) !! i = Some w →
  received_change_set i seq s =
  Done ((WriterProxy.received_change_set w seq).1, with_proxy s i (WriterProxy.received_change_set w seq).2).
Proof.
  intros Hw. unfold received_change_set. rewrite (bind_step _ _ _ _ _ (the_proxy_at s i w Hw)).
  by destruct (WriterProxy.received_change_set w seq).
Qed.

(** The end of every operation: what is delivered, and how much the history grew. *)
Definition finishes s {A} (o : outcome (A * Sys P (list Call * L))) : Prop :=
  ∃ a s' tr, o = Done (a, s') ∧ delivers s s' tr ∧ (length (changes s') <= S (length (changes s)))%nat.

Lemma no_longer_wanted_finishes ndebug s i w seq :
  inv s → writers (rd s) !! i = Some w → ok seq → finishes s (no_longer_wanted ndebug (Some i) seq s).
Proof.
  intros Hi Hw Hs. unfold no_longer_wanted. rewrite (bind_step _ _ _ _ _ (irrelevant_step s i w seq Hw)).
  destruct (received_learns w seq (proxy_at_inv _ _ _ Hi Hw) Hs) as [Hp Hl].
  pose proof (with_proxy_delivers s i w _ Hi Hw Hp Hl) as Hd. set (s1 := with_proxy s i _) in *.
  destruct (NotifyChanges_delivers ndebug s1 i _ (d_inv _ _ _ Hd) (with_proxy_at s i w _ Hw))
    as (s2 & m & tr & -> & Hd2 & Hsub & _).
  exists tt, s2, tr. split; [done|]. split; [by apply (delivers_trans _ _ _ [] tr Hi Hd)|].
  apply sublist_length in Hsub. change (changes s1) with (changes s) in Hsub. lia.
Qed.

(** ** Data *)

Definition with_list s (l : list CacheChange_t) : Sys P (list Call * L) :=
  let h := ReaderHistory.hist s in
  ReaderHistory.mkReaderHistory
    (History.mkHistory (History.m_att h) l (History.m_isHistoryFull h) (History.attached h)) (rd s).

(** A change that can be stored: complete, unread and unknown to its writer's proxy. *)
Record storable s (w : WriterProxy.WriterProxy) (c : CacheChange_t) : Prop := {
  st_timed : timed c;
  st_ok : ok (sequenceNumber c);
  st_full : is_fully_assembled c = true;
  st_unread : isRead c = false;
  st_guid : guid w = writerGUID c;
  st_new : ¬ known w (number c);
  st_room : Z.of_nat (length (changes s)) + 1 < 2 ^ 63
}.

Lemma storable_nodup s i w c :
  inv s → writers (rd s) !! i = Some w → storable s w c → NoDup (ident <$> c :: changes s).
Proof.
  intros Hi Hw Hc. simpl. constructor; [|apply Hi].
  intros (d & Ed & Hd)%list_elem_of_fmap. pose proof (i_held _ Hi) as Hh. rewrite Forall_forall in Hh.
  destruct (Hh d Hd) as (_ & x & Hx & Eg & Hk & _). unfold ident in Ed. injection Ed as Egd End.
  assert (x = w) as ->.
  { apply (same_writer (rd s)); [apply Hi|done|by eapply list_elem_of_lookup_2|]. rewrite (st_guid _ _ _ Hc). congruence. }
  apply (st_new _ _ _ Hc). by rewrite End.
Qed.

Lemma unread_count_perm r l1 l2 : l1 ≡ₚ l2 → unread_count r l1 = unread_count r l2.
Proof. intros E. unfold unread_count. by rewrite E. Qed.

Lemma store_delivers s i w c l :
  inv s → writers (rd s) !! i = Some w → storable s w c → l ≡ₚ c :: changes s → StronglySorted (by_key stamp) l →
  delivers s (with_proxy (with_list s l) i (WriterProxy.received_change_set w (sequenceNumber c)).2) [].
Proof.
  intros Hi Hw Hc Hl Hs. pose proof (storable_nodup s i w c Hi Hw Hc) as Hnd.
  pose proof (proxy_at_inv _ _ _ Hi Hw) as Hp. pose proof (st_ok _ _ _ Hc) as Hok.
  destruct (received_learns w _ Hp Hok) as [Hp' Hlearn]. pose proof Hlearn as (Hg & _ & Hn & Hk).
  pose proof (received_change_set_spec w _ Hp Hok) as Hspec.
  set (w' := (WriterProxy.received_change_set w (sequenceNumber c)).2) in *.
  assert (known w' (number c)) as Hknown.
  { unfold w'. destruct (WriterProxy.received_change_set w _) as [b w'']. destruct Hspec as (_ & Hk' & _).
    apply Hk'. by right. }
  pose proof (list_elem_of_lookup_2 _ _ _ Hw) as Hin.
  assert (w' ∈ <[i := w']> (writers (rd s))) as Hin'
    by (eapply list_elem_of_lookup_2, list_lookup_insert_eq, lookup_lt_Some, Hw).
  pose proof Hi as [Hat Hwo Ht Hso Hnd0 Hh Hu Hsz]. apply delivers_silent.
  - constructor; [done|by eapply learns_writers| |done| | | |].
    + change (Forall timed l). rewrite Hl. constructor; [apply Hc|done].
    + change (NoDup (ident <$> l)). by rewrite Hl.
    + change (Forall (held (set_proxy (rd s) i w')) l). rewrite Hl. constructor.
      * split; [apply Hc|]. exists w'. split_and!; [exact Hin'|rewrite Hg; apply Hc|done|]. intros _. apply Hc.
      * eapply Forall_impl; [exact Hh|]. intros d. by apply learns_held with w.
    + change (total_unread_ (rd s) = unread_count (rd s) l). rewrite Hu, (unread_count_perm _ _ _ Hl).
      unfold unread_count. rewrite filter_cons_False; [done|]. intros [_ Hseen]. unfold seen in Hseen.
      rewrite <-(st_guid _ _ _ Hc), (wo_record _ Hwo w Hin) in Hseen. apply (st_new _ _ _ Hc). left.
      pose proof (pi_notified_le _ Hp). lia.
    + change (Z.of_nat (length l) < 2 ^ 63). rewrite Hl. simpl. pose proof (st_room _ _ _ Hc). lia.
  - change (guid <$> <[i := w']> (writers (rd s)) = guid <$> writers (rd s)). by apply fmap_insert_same with w.
  - done.
  - apply (insert_writers (rd s) i w _ (λ x x', guid x = guid x' ∧ _)); [done| |].
    + split; [done|]. rewrite Hn. split; [lia|done].
    + intros x _. split; [done|]. split; [lia|done].
Qed.

(** The fixed size of the payloads of the history does not suffice. *)
Definition too_large s (len : Z) : Prop :=
  let att := History.m_att (ReaderHistory.hist s) in
  History.memoryPolicy att = PREALLOCATED_MEMORY_MODE ∧ History.payloadMaxSize att < len.

#[export] Instance too_large_dec s len : Decision (too_large s len).
Proof. unfold too_large. apply _. Defined.

Lemma add_change_cases s i w c :
  inv s → writers (rd s) !! i = Some w → storable s w c →
  (too_large s (Payload.length (serializedPayload c)) ∧ ReaderHistory.add_change s c = Done (s, false)) ∨
  ∃ l, ReaderHistory.add_change s c = Done (with_list s l, true) ∧
    l ≡ₚ c :: changes s ∧ StronglySorted (by_key stamp) l.
Proof.
  intros Hi Hw Hc. pose proof (inv_reader_ok s Hi) as Hok. set (att := History.m_att (ReaderHistory.hist s)).
  destruct (decide (too_large s (Payload.length (serializedPayload c)))) as [[Hm Hlt]|Hfits].
  - left. split; [done|]. unfold ReaderHistory.add_change. rewrite (r_attached _ Hok). cbn [negb]. cbv zeta. fold att.
    fold att in Hm, Hlt. rewrite (bool_decide_true _ Hm). by rewrite (proj2 (Z.ltb_lt _ _) Hlt).
  - right. destruct (add_change_sorted s c Hok) as (l & E & Hl).
    + apply timed_coherent; [constructor; [apply Hc|apply Hi]|]. by apply (storable_nodup s i w c).
    + intros Hm. apply Z.le_ngt. intros Hlt. by apply Hfits.
    + by exists l.
Qed.

Lemma change_received_cases cfg ndebug s i w c u :
  inv s → writers (rd s) !! i = Some w → storable s w c →
  (too_large s (Payload.length (serializedPayload c)) ∧
   change_received cfg ndebug c (Some i) u s = Done (false, s)) ∨
  ∃ l s' m tr, change_received cfg ndebug c (Some i) u s = Done (true, s') ∧ delivers s s' tr ∧
    l ≡ₚ c :: changes s ∧ sublist (changes s') l ∧
    let w' := (WriterProxy.received_change_set w (sequenceNumber c)).2 in
    writers (rd s') !! i = Some (WriterProxy.with_notified w' m) ∧ SN.val m = low w' ∧
    announced (with_list s l) w' tr ∧
    (is_Some (mp_listener (rd s)) → told (with_list s l) s' (fresh (with_list s l) w') (news tr)).
Proof.
  intros Hi Hw Hc. unfold change_received. rewrite (bind_step reader _ _ (rd s) s) by done.
  rewrite (bind_step _ _ _ _ _ (the_proxy_at s i w Hw)). cbv zeta.
  destruct (add_change_cases s i w c Hi Hw Hc) as [[Hbig E]|(l & E & Hl & Hs)].
  - left. split; [done|]. rewrite (bind_step _ _ _ false s); [done|]. unfold history_received_change, ReaderHistory.received_change.
    by rewrite E.
  - right. rewrite (bind_step _ _ _ true (with_list s l)).
    2: { unfold history_received_change, ReaderHistory.received_change. by rewrite E. }
    rewrite (st_full _ _ _ Hc). rewrite (bind_step _ _ _ _ _ (received_step (with_list s l) i w _ Hw)).
    pose proof (store_delivers s i w c l Hi Hw Hc Hl Hs) as Hd.
    pose proof (received_change_set_spec w _ (proxy_at_inv _ _ _ Hi Hw) (st_ok _ _ _ Hc)) as Hspec.
    set (w' := (WriterProxy.received_change_set w (sequenceNumber c)).2) in *.
    set (s1 := with_proxy (with_list s l) i w') in *.
    destruct (NotifyChanges_delivers ndebug s1 i w' (d_inv _ _ _ Hd) (with_proxy_at (with_list s l) i w w' Hw))
      as (s2 & m & tr & E2 & Hd2 & Hsub & Hw2 & Em & Ha & Ht).
    rewrite (bind_step _ _ _ _ _ E2). exists l, s2, m, tr. split_and!; [|by apply (delivers_trans _ _ _ [] tr Hi Hd)|
      done|done|done|done|exact Ha|exact Ht].
    destruct (WriterProxy.received_change_set w _) as [b w'']. destruct Hspec as (_ & _ & _ & _ & _ & Hb & _).
    simpl. by rewrite (proj2 Hb (st_new _ _ _ Hc)).
Qed.

(** The change that is stored for a received one. *)
Definition stored (c : CacheChange_t) (payload : Payload.SerializedPayload_t) (now : Time_t) : CacheChange_t :=
  mkChange (kind c) (writerGUID c) (instanceHandle c) (sequenceNumber c) payload
    (inline_qos ChangePool.new_change) (isRead c) (sourceTimestamp c) now (vendor_id c) (write_params c)
    (is_untyped_ ChangePool.new_change) 0 0 0.

(** A data message that is not fragmented. *)
Definition valid_data (c : CacheChange_t) : Prop :=
  timed c ∧ ok (sequenceNumber c) ∧ isRead c = false ∧ fragment_size_ c = 0.

Lemma copied c payload now :
  fragment_size_ c = 0 →
  ∃ c', copy_not_memcpy ChangePool.new_change c = Done c' ∧
    with_reception (with_payload c' payload) now = stored c payload now.
Proof. intros E. unfold copy_not_memcpy, setFragmentSize. rewrite E. simpl. eexists. split; [reflexivity|]. done. Qed.

Lemma stored_storable s w c payload now :
  valid_data c → guid w = writerGUID c → ¬ known w (number c) → Z.of_nat (length (changes s)) + 1 < 2 ^ 63 →
  storable s w (stored c payload now).
Proof. intros (Ht & Hok & Hr & _) Hg Hk Hsz. by constructor. Qed.

Lemma pools_delivers s p : inv s → delivers s (ReaderHistory.mkReaderHistory (ReaderHistory.hist s) (with_pools (rd s) p)) [].
Proof. intros Hi. apply delivers_same; [by apply (inv_frame s)|done|done]. Qed.

(** An operation may go on from a state that was delivered. *)
Lemma finishes_after {A} s s1 tr1 (o : outcome (A * Sys P (list Call * L))) :
  inv s → delivers s s1 tr1 → length (changes s1) = length (changes s) → finishes s1 o → finishes s o.
Proof.
  intros Hi Hd Hlen (a & s' & tr & E & Hd' & Hl). exists a, s', (tr1 ++ tr).
  split_and!; [done|by eapply delivers_trans|lia].
Qed.

Lemma finishes_here {A} s s1 (a : A) : delivers s s1 [] → length (changes s1) = length (changes s) → finishes s (Done (a, s1)).
Proof. intros Hd Hl. exists a, s1, []. split_and!; [done|done|lia]. Qed.

(** What comes after a step of the operation. *)
Lemma finishes_bind {A B} s (p : M A) (k : A → M B) :
  finishes s (p s) → (∀ a s' tr, p s = Done (a, s') → delivers s s' tr →
    ∃ b s'' , k a s' = Done (b, s'') ∧ delivers s' s'' [] ∧ length (changes s'') = length (changes s')) →
  inv s → finishes s ((p ≫= k) s).
Proof.
  intros (a & s' & tr & E & Hd & Hl) Hk Hi. destruct (Hk a s' tr E Hd) as (b & s'' & E' & Hd' & Hl').
  exists b, s'', (tr ++ []). rewrite (bind_step _ _ _ _ _ E). split_and!; [done|by eapply delivers_trans|lia].
Qed.

Definition pooled s (p : P) : Sys P (list Call * L) :=
  ReaderHistory.mkReaderHistory (ReaderHistory.hist s) (with_pools (rd s) p).

(** With a change and a payload from the pools, the data goes to [change_received]. *)
Lemma add_data_pools cfg ndebug s i w c now reserved p1 :
  writers (rd s) !! i = Some w → fragment_size_ c = 0 →
  (ReaderHistory.can_change_be_added_nts s (writerGUID c) (Payload.length (serializedPayload c))).1 = true →
  change_is_relevant_for_filter c (m_guid (rd s)) (data_filter_ cfg) = true →
  RTPSReader.reserve_cache (pools (rd s)) = (reserved, p1) →
  add_data cfg ndebug c (Some i) now s =
  if negb reserved then Done (false, pooled s p1)
  else match RTPSReader.get_payload_for p1 (serializedPayload c) with
  | (Some payload, p2) =>
      (ok ← change_received cfg ndebug (stored c payload now) (Some i)
              (WriterProxy.unknown_missing_changes_up_to w (sequenceNumber c));
       if ok : bool then mret true else releaseCache (stored c payload now);; mret false) (pooled s p2)
  | (None, p2) => Done (false, pooled s (RTPSReader.release_cache p2))
  end.
Proof.
  intros Hw Hfs Hcan Hrel Er. unfold add_data. cbv zeta.
  rewrite (bind_step _ _ _ (WriterProxy.unknown_missing_changes_up_to w (sequenceNumber c)) s)
    by (by rewrite (bind_step _ _ _ _ _ (the_proxy_at s i w Hw))).
  rewrite (bind_step get_state _ _ s s) by done.
  destruct (ReaderHistory.can_change_be_added_nts _ _ _) as [can never]. simpl in Hcan. subst can. cbn [negb].
  fold (rd s). rewrite Hrel. cbn [negb]. unfold reserve_cache.
  rewrite (bind_step _ _ _ reserved (pooled s p1)) by (rewrite (bind_step reader _ _ (rd s) s) by done; by rewrite Er).
  destruct reserved; cbn [negb]; [|done].
  destruct (copied c Payload.default_payload now Hfs) as (c' & Ec & _).
  rewrite (bind_step _ _ _ c' (pooled s p1)) by (unfold lift_outcome; by rewrite Ec).
  unfold get_payload_for. destruct (RTPSReader.get_payload_for p1 (serializedPayload c)) as [payload p2] eqn:Ep.
  rewrite (bind_step _ _ _ payload (pooled s p2)).
  2: { rewrite (bind_step reader _ _ (rd (pooled s p1)) (pooled s p1)) by done. simpl. by rewrite Ep. }
  destruct payload as [payload|]; [|done].
  destruct (copied c payload now Hfs) as (c'' & Ec' & Est). assert (c'' = c') as -> by congruence. by rewrite Est.
Qed.

Lemma add_data_finishes cfg ndebug s i w c now :
  inv s → writers (rd s) !! i = Some w → valid_data c → guid w = writerGUID c → ¬ known w (number c) →
  Z.of_nat (length (changes s)) + 1 < 2 ^ 63 → finishes s (add_data cfg ndebug c (Some i) now s).
Proof.
  intros Hi Hw Hc Hg Hk Hsz. pose proof Hc as (_ & Hok & _ & Hfs).
  assert (∀ b : bool, finishes s ((no_longer_wanted ndebug (Some i) (sequenceNumber c) ;; mret b) s)) as Hnot.
  { intros b. apply finishes_bind; [by eapply no_longer_wanted_finishes| |done].
    intros [] s' tr _ Hd. exists b, s'. split_and!; [done|apply delivers_refl, Hd|done]. }
  destruct (ReaderHistory.can_change_be_added_nts s (writerGUID c) (Payload.length (serializedPayload c)))
    as [can never] eqn:Ecan.
  destruct (change_is_relevant_for_filter c (m_guid (rd s)) (data_filter_ cfg)) eqn:Erel; [destruct can|].
  2, 3: unfold add_data; cbv zeta;
    rewrite (bind_step _ _ _ (WriterProxy.unknown_missing_changes_up_to w (sequenceNumber c)) s)
      by (by rewrite (bind_step _ _ _ _ _ (the_proxy_at s i w Hw)));
    rewrite (bind_step get_state _ _ s s) by done; rewrite Ecan; fold (rd s); rewrite Erel; cbn [negb].
  2: { destruct never; [apply Hnot|]. apply finishes_here; [by apply delivers_refl|done]. }
  2: { destruct can; cbn [negb]; [apply Hnot|]. destruct never; [apply Hnot|].
       apply finishes_here; [by apply delivers_refl|done]. }
  destruct (RTPSReader.reserve_cache (pools (rd s))) as [reserved p1] eqn:Er.
  rewrite (add_data_pools cfg ndebug s i w c now reserved p1 Hw Hfs ltac:(by rewrite Ecan) Erel Er).
  destruct reserved; cbn [negb]; [|apply finishes_here; [by apply pools_delivers|done]].
  destruct (RTPSReader.get_payload_for p1 (serializedPayload c)) as [[payload|] p2] eqn:Ep;
    [|apply finishes_here; [by apply pools_delivers|done]].
  pose proof (pools_delivers s p2 Hi) as Hd2. apply (finishes_after s (pooled s p2) []); [done|done|done|].
  destruct (change_received_cases cfg ndebug (pooled s p2) i w (stored c payload now)
    (WriterProxy.unknown_missing_changes_up_to w (sequenceNumber c)) (d_inv _ _ _ Hd2) Hw)
    as [[_ E]|(l & s3 & m & tr & E & Hd3 & Hl & Hsub & _)].
  - by apply stored_storable.
  - rewrite (bind_step _ _ _ _ _ E). apply finishes_here; [apply (pools_delivers (pooled s p2)), Hd2|done].
  - rewrite (bind_step _ _ _ _ _ E). exists true, s3, tr. split_and!; [done|done|].
    apply sublist_length in Hsub. rewrite Hl in Hsub. exact Hsub.
Qed.

Lemma emit_delivers s evs :
  inv s → delivers s (ReaderHistory.mkReaderHistory (ReaderHistory.hist s) (emit (rd s) evs)) [].
Proof. intros Hi. apply delivers_same; [by apply (inv_frame s)|done|done]. Qed.

Lemma assert_liveliness_step cfg g s :
  inv s → ∃ s', assert_writer_liveliness cfg g s = Done (tt, s') ∧ delivers s s' [] ∧
    length (changes s') = length (changes s).
Proof.
  intros Hi. unfold assert_writer_liveliness. destruct (_ && _); eexists; (split; [reflexivity|]);
    (split; [|done]); [by apply emit_delivers|by apply delivers_refl].
Qed.

Lemma find_writer s g i :
  inv s → Guid.wf g → findWriterProxy (rd s) g = Some i →
  ∃ w, writers (rd s) !! i = Some w ∧ guid w = g.
Proof.
  intros Hi Hg Hf. unfold findWriterProxy in Hf.
  destruct (list_find _ _) as [[j w]|] eqn:E; [|done]. injection Hf as <-.
  apply list_find_Some in E as (Hw & [Ew _]%andb_true_iff & _). exists w. split; [done|].
  pose proof (i_writers _ Hi) as [_ Hp _ _ _]. rewrite Forall_forall in Hp.
  destruct (Hp w (list_elem_of_lookup_2 _ _ _ Hw)) as (_ & _ & Hgw). by apply Guid.guid_eqb_eq in Ew.
Qed.

Context (cfg : Config) (ndebug : bool).
Hypothesis untrusting : m_acceptMessagesFromUnkownWriters cfg = false.

Lemma accept_cases s g :
  inv s → Guid.wf g → acceptMsgFrom cfg (rd s) g = None ∨
  ∃ i w, acceptMsgFrom cfg (rd s) g = Some (Some i) ∧ writers (rd s) !! i = Some w ∧ guid w = g.
Proof.
  intros Hi Hg. unfold acceptMsgFrom. rewrite untrusting. destruct (findWriterProxy (rd s) g) as [i|] eqn:E; [|by left].
  right. destruct (find_writer s g i Hi Hg E) as (w & Hw & Eg). by exists i, w.
Qed.

Lemma was_received_known w seq :
  proxy_inv w → ok seq → WriterProxy.change_was_received w seq = true ↔ known w (SN.val seq).
Proof.
  intros Hp Hs. unfold WriterProxy.change_was_received, known.
  rewrite SN.leb_val by (apply Hs || apply (pi_low _ Hp)).
  destruct (Z.leb_spec (SN.val seq) (low w)); [split; [by left|done]|].
  rewrite set_mem_spec by (apply Hs || apply (pi_wf _ Hp)). split; [by right|]. intros [|]; [lia|done].
Qed.

Lemma processDataMsg_finishes s c now :
  inv s → valid_data c → Z.of_nat (length (changes s)) + 1 < 2 ^ 63 →
  finishes s (processDataMsg cfg ndebug c now s).
Proof.
  intros Hi Hc Hsz. unfold processDataMsg. rewrite (bind_step reader _ _ (rd s) s) by done.
  rewrite (wo_alive _ (i_writers _ Hi)). cbn [negb]. pose proof Hc as (((Hs & Hg) & _) & Hok & _).
  assert (∀ b : bool, finishes s (Done (b, s))) as Hend
    by (intros b; apply finishes_here; [by apply delivers_refl|done]).
  destruct (accept_cases s (writerGUID c) Hi Hg) as [->|(i & w & -> & Hw & Eg)]; [apply Hend|].
  rewrite (bind_step _ _ _ (WriterProxy.change_was_received w (sequenceNumber c)) s)
    by (by rewrite (bind_step _ _ _ _ _ (the_proxy_at s i w Hw))).
  pose proof (was_received_known w _ (proxy_at_inv _ _ _ Hi Hw) Hok) as Hkn. fold (number c) in Hkn.
  destruct (WriterProxy.change_was_received w (sequenceNumber c)); [apply Hend|].
  apply finishes_bind; [|intros ret s' tr _ Hd|done].
  - eapply add_data_finishes; [done|done|done|done| |done]. intros Hk. by apply Hkn in Hk.
  - destruct (assert_liveliness_step cfg (writerGUID c) s' (d_inv _ _ _ Hd)) as (s'' & E & Hd'' & Hl).
    exists ret, s''. by rewrite (bind_step _ _ _ _ _ E).
Qed.

(** ** Heartbeats *)

Lemma remove_fragmented_complete fuel seq g s k :
  Forall (λ c, is_fully_assembled c = true) (drop k (changes s)) → (length (drop k (changes s)) <= fuel)%nat →
  ReaderHistory.remove_fragmented fuel seq g s k = Done s.
Proof.
  revert k. induction fuel as [|fuel IH]; intros k Hall Hlen; cbn [ReaderHistory.remove_fragmented];
    fold (changes s); destruct (changes s !! k) as [c|] eqn:E; try done;
    rewrite (drop_S _ c) in Hall, Hlen by done; simpl in Hlen; [lia|].
  apply Forall_cons in Hall as [-> Hall]. assert (ReaderHistory.remove_fragmented fuel seq g s (S k) = Done s) as Hnext
    by (apply IH; [done|lia]).
  destruct (Guid.eqb _ _); [|exact Hnext]. destruct (SN.ltb _ _); [exact Hnext|done].
Qed.

Lemma held_complete s : inv s → Forall (λ c, is_fully_assembled c = true) (changes s).
Proof. intros Hi. eapply Forall_impl; [apply (i_held _ Hi)|]. by intros c []. Qed.

Lemma heartbeat_learns w count first last f l d lost :
  proxy_inv w → ok first → ok last →
  let w' := WriterProxy.hb_proxy (WriterProxy.process_heartbeat w count first last f l d lost) in
  proxy_inv w' ∧ learns w w'.
Proof.
  intros Hp Hf Hl w'. destruct (process_heartbeat_ok w count first last f l d lost Hp Hf Hl) as (Hi & Ha & He & Hn & Hk & _).
  split; [exact Hi|]. split_and!; [|done|done|done]. unfold guid, w'. by rewrite He.
Qed.

Lemma processHeartbeatMsg_finishes s g count first last final live :
  inv s → Guid.wf g → ok first → ok last →
  finishes s (processHeartbeatMsg cfg ndebug g count first last final live s).
Proof.
  intros Hi Hg Hf Hl. unfold processHeartbeatMsg. rewrite (bind_step reader _ _ (rd s) s) by done.
  rewrite (wo_alive _ (i_writers _ Hi)). cbn [negb].
  destruct (accept_cases s g Hi Hg) as [->|(i & w & -> & Hw & Eg)];
    [apply finishes_here; [by apply delivers_refl|done]|].
  rewrite (bind_step _ _ _ _ _ (the_proxy_at s i w Hw)). cbv zeta.
  destruct (heartbeat_learns w count first last final live (disable_positive_acks_ cfg) 0
    (proxy_at_inv _ _ _ Hi Hw) Hf Hl) as [Hp' Hlearn].
  set (hb := WriterProxy.process_heartbeat w count first last final live (disable_positive_acks_ cfg) 0) in *.
  pose proof (with_proxy_delivers s i w _ Hi Hw Hp' Hlearn) as Hd1. set (s1 := with_proxy s i _) in *.
  set (evs := ProxyEffect g <$> WriterProxy.hb_effects hb).
  pose proof (emit_delivers s1 evs (d_inv _ _ _ Hd1)) as Hd2.
  set (s2 := ReaderHistory.mkReaderHistory (ReaderHistory.hist s1) (emit (rd s1) evs)) in *.
  rewrite (bind_step (modify _) _ _ tt s2) by done.
  pose proof (delivers_trans _ _ _ [] [] Hi Hd1 Hd2) as Hd. pose proof (d_inv _ _ _ Hd2) as Hi2.
  destruct (WriterProxy.hb_accepted hb); [|by apply finishes_here].
  apply (finishes_after s s2 []); [done|done|done|].
  rewrite (bind_step _ _ _ tt s2).
  2: { unfold ReaderHistory.remove_fragmented_changes_until. rewrite (i_attached _ Hi2). cbn [negb].
       rewrite remove_fragmented_complete; [done|rewrite drop_0; by apply held_complete|by rewrite drop_0]. }
  set (lost := if 0 <? WriterProxy.hb_sample_lost hb then _ else _).
  assert (∃ l', lost s2 = Done (tt, ReaderHistory.mkReaderHistory (ReaderHistory.hist s2) (with_listener (rd s2) l')) ∧
    from_option fst [] l' = calls (rd s2)) as (l' & El & Hcalls).
  { unfold lost. destruct (0 <? _).
    { exists ((λ l, on_sample_lost l (WriterProxy.hb_sample_lost hb)) <$> mp_listener (rd s2)).
      split; [done|]. unfold calls. by destruct (mp_listener (rd s2)). }
    exists (mp_listener (rd s2)). split; [|done]. by destruct s2 as [? []]. }
  rewrite (bind_step _ _ _ _ _ El). set (s3 := ReaderHistory.mkReaderHistory (ReaderHistory.hist s2) (with_listener (rd s2) l')).
  assert (delivers s2 s3 []) as Hd3 by (apply delivers_same; [by apply (inv_frame s2)|done|done]).
  apply (finishes_after s2 s3 []); [done|done|done|]. pose proof (d_inv _ _ _ Hd3) as Hi3.
  assert (writers (rd s3) !! i = Some (WriterProxy.hb_proxy hb)) as Hw3 by exact (with_proxy_at s i w _ Hw).
  destruct (NotifyChanges_delivers ndebug s3 i _ Hi3 Hw3) as (s4 & m & tr & E4 & Hd4 & Hsub & Hw4 & _).
  apply finishes_bind; [|intros [] s' tr' E' Hd'|done].
  { exists tt, s4, tr. split_and!; [done|done|]. apply sublist_length in Hsub. lia. }
  assert (s' = s4) as -> by congruence. rewrite (bind_step _ _ _ _ _ (the_proxy_at s4 i _ Hw4)).
  exists true. destruct (_ && _ && _ && _).
  - eexists. split; [reflexivity|]. split; [apply emit_delivers, Hd4|done].
  - exists s4. split_and!; [done|apply delivers_refl, Hd4|done].
Qed.

(** ** Gaps *)

(** Steps that only teach numbers to the proxy at [i]. *)
Definition teaches s (i : nat) {A} (o : outcome (A * Sys P (list Call * L))) : Prop :=
  ∃ a s' w', o = Done (a, s') ∧ delivers s s' [] ∧ changes s' = changes s ∧ writers (rd s') !! i = Some w'.

Lemma teaches_bind {A B} s i (p : M A) (k : A → M B) :
  inv s → teaches s i (p s) →
  (∀ a s' w', inv s' → changes s' = changes s → writers (rd s') !! i = Some w' → teaches s' i (k a s')) →
  teaches s i ((p ≫= k) s).
Proof.
  intros Hi (a & s' & w' & E & Hd & Hc & Hw) Hk. rewrite (bind_step _ _ _ _ _ E).
  destruct (Hk a s' w' (d_inv _ _ _ Hd) Hc Hw) as (b & s'' & w'' & E' & Hd' & Hc' & Hw').
  exists b, s'', w''. split_and!; [done|by apply (delivers_trans _ _ _ [] [] Hi Hd)|congruence|done].
Qed.

Lemma gap_change_teaches s i w g seq search it :
  inv s → writers (rd s) !! i = Some w → ok seq → teaches s i (gap_change i g seq search it s).
Proof.
  intros Hi Hw Hs. unfold gap_change. rewrite (bind_step _ _ _ _ _ (irrelevant_step s i w seq Hw)).
  destruct (received_learns w seq (proxy_at_inv _ _ _ Hi Hw) Hs) as [Hp Hl].
  pose proof (with_proxy_delivers s i w _ Hi Hw Hp Hl) as Hd.
  set (w' := (WriterProxy.received_change_set w seq).2) in *. set (s1 := with_proxy s i w') in *.
  assert (∀ it' : nat, teaches s i (Done (it', s1))) as Hend.
  { intros it'. exists it', s1, w'. split_and!; [done|done|done|by eapply with_proxy_at]. }
  destruct (WriterProxy.received_change_set w seq).1; [|apply Hend].
  rewrite (bind_step history _ _ (ReaderHistory.hist s) s1) by done.
  unfold findCacheInFragmentedProcess.
  destruct (History.get_change_nts _ _ _ _) as [found it1] eqn:E. destruct found as [c|]; [|apply Hend].
  assert (is_fully_assembled c = true) as ->; [|apply Hend].
  pose proof (held_complete s Hi) as Hf. rewrite Forall_forall in Hf. apply Hf.
  unfold History.get_change_nts in E. rewrite search_change_stop in E.
  destruct (drop it _ !! _) as [d|] eqn:Ed; [|done]. simpl in E. destruct (SN.eqb _ _); [|done]. injection E as <- _.
  rewrite lookup_drop in Ed. by eapply list_elem_of_lookup_2.
Qed.

Lemma ok_incr n : ok n → SN.val n + 1 < 2 ^ 63 - 1024 → ok (SN.incr n) ∧ SN.val (SN.incr n) = SN.val n + 1.
Proof.
  intros Hs Hlt. rewrite SN.incr_add by apply Hs. destruct (ok_succ n Hs) as [Hw Hv].
  split; [|done]. split; [done|]. destruct Hs. lia.
Qed.

Lemma gap_range_teaches n s i w g seq it :
  inv s → writers (rd s) !! i = Some w → ok seq → SN.val seq + Z.of_nat n < 2 ^ 63 - 1024 →
  teaches s i (gap_range n i g seq it s).
Proof.
  revert s w seq it. induction n as [|n IH]; intros s w seq it Hi Hw Hs Hlt; cbn [gap_range].
  { exists (seq, it), s, w. split_and!; [done|by apply delivers_refl|done|done]. }
  apply teaches_bind; [done|by eapply gap_change_teaches|]. intros it' s' w' Hi' _ Hw'.
  destruct (ok_incr seq Hs) as [Hs' Ev]; [lia|]. eapply IH; [done|done|done|lia].
Qed.

Lemma gap_list_teaches l s i w g aux it :
  inv s → writers (rd s) !! i = Some w → Forall ok l → teaches s i (gap_list l i g aux it s).
Proof.
  revert s w it. induction l as [|x l IH]; intros s w it Hi Hw Hl; cbn [gap_list].
  { exists tt, s, w. split_and!; [done|by apply delivers_refl|done|done]. }
  apply Forall_cons in Hl as [Hx Hl]. apply teaches_bind; [done|by eapply gap_change_teaches|].
  intros it' s' w' Hi' _ Hw'. by eapply IH.
Qed.

(** A gap message as a gap builder makes it. *)
Definition valid_gap (start : SN.SequenceNumber_t) (gl : SequenceNumberSet_t) : Prop :=
  SN.wf start ∧ ok (BitmapRange.base gl) ∧ Forall ok (BitmapRange.for_each gl).

Lemma processGapMsg_finishes s g start gl :
  inv s → Guid.wf g → valid_gap start gl → finishes s (processGapMsg cfg ndebug g start gl s).
Proof.
  intros Hi Hg (Hst & Hb & Hl). unfold processGapMsg. rewrite (bind_step reader _ _ (rd s) s) by done.
  rewrite (wo_alive _ (i_writers _ Hi)). cbn [negb orb].
  assert (∀ b : bool, finishes s (Done (b, s))) as Hend
    by (intros b; apply finishes_here; [by apply delivers_refl|done]).
  rewrite SN.ltb_val, SN.leb_val by (done || apply Hb || (split; range_unfold; simpl; lia)).
  destruct (Z.ltb_spec (SN.val start) (SN.val (SN.mkSN 0 1))) as [|H1]; [apply Hend|].
  destruct (Z.leb_spec (SN.val (BitmapRange.base gl)) (SN.val start)) as [|H2]; [apply Hend|]. cbn [orb].
  change (SN.val (SN.mkSN 0 1)) with 1 in H1.
  destruct (accept_cases s g Hi Hg) as [->|(i & w & -> & Hw & Eg)]; [apply Hend|].
  rewrite (bind_step _ _ _ _ _ (the_proxy_at s i w Hw)). cbv zeta.
  destruct (gap_range_teaches (Z.to_nat (SN.val (BitmapRange.base gl) - SN.val start)) s i w (guid w) start 0 Hi Hw)
    as ([aux it] & s1 & w1 & E1 & Hd1 & Hc1 & Hw1).
  { split; [done|]. destruct Hb. lia. }
  { destruct Hb. lia. }
  rewrite (bind_step _ _ _ _ _ E1). pose proof (d_inv _ _ _ Hd1) as Hi1.
  destruct (gap_list_teaches (BitmapRange.for_each gl) s1 i w1 (guid w) aux it Hi1 Hw1 Hl)
    as ([] & s2 & w2 & E2 & Hd2 & Hc2 & Hw2).
  rewrite (bind_step _ _ _ _ _ E2). pose proof (d_inv _ _ _ Hd2) as Hi2.
  apply (finishes_after s s2 []); [done|by apply (delivers_trans _ _ _ [] [] Hi Hd1)|by rewrite Hc2, Hc1|].
  destruct (NotifyChanges_delivers ndebug s2 i w2 Hi2 Hw2) as (s3 & m & tr & E3 & Hd3 & Hsub & _).
  rewrite (bind_step _ _ _ _ _ E3). exists true, s3, tr. split_and!; [done|done|].
  apply sublist_length in Hsub. lia.
Qed.

(** ** Reading *)

Definition mark r (c : CacheChange_t) : CacheChange_t :=
  if bool_decide (unread r c) then with_read c true else c.

Lemma unread_count_cons r c l :
  unread_count r (c :: l) = (if bool_decide (unread r c) then 1 else 0) + unread_count r l.
Proof. unfold unread_count. rewrite filter_cons. case_bool_decide; case_decide; try done; simpl; lia. Qed.

Lemma unread_count_nonneg r l : 0 <= unread_count r l.
Proof. unfold unread_count. lia. Qed.

Lemma mark_nothing r l : unread_count r l = 0 → mark r <$> l = l.
Proof.
  induction l as [|c l IH]; [done|]. rewrite unread_count_cons. pose proof (unread_count_nonneg r l).
  intros E. cbn [fmap list_fmap]. unfold mark at 1. case_bool_decide; [lia|]. f_equal. apply IH. lia.
Qed.

(** The count only decides how far the loop goes, not which changes are unread. *)
Definition at_count s r (l : list CacheChange_t) (u : Z) : Sys P (list Call * L) :=
  ReaderHistory.mkReaderHistory (ReaderHistory.hist (with_list s l)) (with_unread r u).

Lemma mark_all_read_spec s r pre l u :
  Forall (λ c, (negb (isRead c) && SN.geb (get_last_notified (history_state_ r) (writerGUID c)) (sequenceNumber c)) =
    bool_decide (unread r c)) l → u = unread_count r l →
  mark_all_read (length pre) l (at_count s r (pre ++ l) u) = Done (tt, at_count s r (pre ++ (mark r <$> l)) 0).
Proof.
  revert pre u. induction l as [|c l IH]; intros pre u Hl Hu; [by rewrite Hu|].
  cbn [mark_all_read]. rewrite (bind_step reader _ _ (with_unread r u) (at_count s r (pre ++ c :: l) u)) by done.
  change (total_unread_ (with_unread r u)) with u. pose proof (unread_count_nonneg r (c :: l)) as Hnn.
  destruct (Z.ltb_spec 0 u) as [Hpos|Hle]; cycle 1.
  { rewrite mark_nothing by lia. by replace u with 0 by lia. }
  apply Forall_cons in Hl as [Hc Hl]. change (history_state_ (with_unread r u)) with (history_state_ r). rewrite Hc.
  rewrite unread_count_cons in Hu.
  assert (∀ x (k : list CacheChange_t), (pre ++ [x]) ++ k = pre ++ x :: k) as Eapp by (intros; by rewrite <-app_assoc).
  assert (∀ x : CacheChange_t, length (pre ++ [x]) = S (length pre)) as Elen by (intros; rewrite length_app; simpl; lia).
  replace (mark r <$> c :: l) with ((if bool_decide (unread r c) then with_read c true else c) :: (mark r <$> l)) by done.
  destruct (bool_decide (unread r c)).
  - specialize (IH (pre ++ [with_read c true]) (u - 1) Hl ltac:(lia)). rewrite !Eapp, Elen in IH.
    rewrite (bind_step _ _ _ tt (at_count s r (pre ++ with_read c true :: l) (u - 1))); [exact IH|].
    unfold set_change. unfold mbind, stateful_bind. simpl. unfold set_changes, at_count. simpl. do 4 f_equal.
    by rewrite insert_app_r_alt, Nat.sub_diag by lia.
  - specialize (IH (pre ++ [c]) u Hl ltac:(lia)). rewrite !Eapp, Elen in IH.
    by rewrite (bind_step _ _ _ tt (at_count s r (pre ++ c :: l) u)).
Qed.

Lemma by_key_fmap {A} (f : A → Z) l : StronglySorted (by_key f) l ↔ StronglySorted Z.le (f <$> l).
Proof.
  induction l as [|x l IH]; [split; constructor|]. simpl. split; intros [Hl Hx]%StronglySorted_inv.
  - constructor; [by apply IH|by apply Forall_fmap].
  - constructor; [by apply IH|]. rewrite Forall_fmap in Hx. exact Hx.
Qed.

Lemma marked_inv s :
  inv s → inv (at_count s (rd s) (mark (rd s) <$> changes s) 0).
Proof.
  intros Hi. pose proof Hi as [Hat Hwo Ht Hs Hnd Hh Hu Hsz]. set (l := mark (rd s) <$> changes s).
  assert (∀ {A} (f : CacheChange_t → A), (∀ c, f (with_read c true) = f c) → f <$> l = f <$> changes s) as Hsame.
  { intros A f Hf. unfold l. rewrite <-list_fmap_compose. apply list_fmap_ext. intros _ c _. simpl.
    unfold mark. by case_bool_decide. }
  constructor; [done|by destruct Hwo; constructor| | | | | |].
  - change (Forall timed l). apply Forall_fmap. eapply Forall_impl; [exact Ht|]. intros c Hc. simpl.
    unfold mark. by case_bool_decide.
  - change (StronglySorted (by_key stamp) l). rewrite by_key_fmap in Hs |- *.
    by rewrite (Hsame _ stamp).
  - change (NoDup (ident <$> l)). by rewrite (Hsame _ ident).
  - change (Forall (held (rd s)) l). apply Forall_fmap. rewrite Forall_forall in Hh. apply Forall_forall.
    intros c Hc. pose proof (Hh c Hc) as (Hf & w & Hw & Hg & Hk & Hr). unfold compose, mark.
    case_bool_decide as Hun; [|by apply Hh]. split; [done|]. exists w. split_and!; [done|done|done|]. intros Hlt. exfalso.
    destruct Hun as [_ Hseen]. unfold seen in Hseen. rewrite <-Hg, (wo_record _ Hwo w Hw) in Hseen.
    change (number (with_read c true)) with (number c) in Hlt. lia.
  - change (0 = unread_count (with_unread (rd s) 0) l). unfold unread_count. rewrite filter_none; [done|].
    intros d (c & -> & _)%list_elem_of_fmap [Hr Hseen]. simpl in Hr, Hseen. unfold mark in Hr, Hseen.
    case_bool_decide as Hun; [done|]. by apply Hun.
  - change (Z.of_nat (length l) < 2 ^ 63). unfold l. by rewrite length_fmap.
Qed.

Lemma get_unread_count_spec s :
  inv s → get_unread_count ndebug true s =
    Done (unread_count (rd s) (changes s), at_count s (rd s) (mark (rd s) <$> changes s) 0).
Proof.
  intros Hi. unfold get_unread_count. rewrite (bind_step reader _ _ (rd s) s) by done. cbv zeta.
  rewrite (bind_step _ _ _ tt (at_count s (rd s) (mark (rd s) <$> changes s) 0)); [by rewrite (i_unread _ Hi)|].
  rewrite (bind_step history _ _ (ReaderHistory.hist s) s) by done.
  assert (s = at_count s (rd s) ([] ++ changes s) (total_unread_ (rd s))) as Es.
  { unfold at_count, rd, changes. destruct s as [[] []]. done. }
  rewrite (bind_step _ _ _ tt (at_count s (rd s) ([] ++ (mark (rd s) <$> changes s)) 0)).
  - rewrite (bind_step reader _ _ (with_unread (rd s) 0) (at_count s (rd s) (mark (rd s) <$> changes s) 0)) by done.
    unfold lift_outcome. by rewrite assert_true.
  - rewrite Es at 2. apply (mark_all_read_spec s (rd s) []); [|apply Hi].
    apply Forall_forall. intros c Hc. by apply unread_iff.
Qed.

(** ** Runs *)

(** The messages a reader gets and what its user does. *)
Inductive Op :=
  | OpData (c : CacheChange_t) (now : Time_t)
  | OpHeartbeat (g : Guid.GUID_t) (count : Z) (first last : SN.SequenceNumber_t) (final live : bool)
  | OpGap (g : Guid.GUID_t) (start : SN.SequenceNumber_t) (gl : SequenceNumberSet_t)
  | OpTake (g : Guid.GUID_t) (seq : SN.SequenceNumber_t)
  | OpReadAll.

Definition perform (o : Op) : M unit :=
  match o with
  | OpData c now => processDataMsg cfg ndebug c now;; mret tt
  | OpHeartbeat g count first last final live => processHeartbeatMsg cfg ndebug g count first last final live;; mret tt
  | OpGap g start gl => processGapMsg cfg ndebug g start gl;; mret tt
  | OpTake g seq => remove_change g seq;; mret tt
  | OpReadAll => get_unread_count ndebug true;; mret tt
  end.

Fixpoint perform_all (l : list Op) : M unit :=
  match l with [] => mret tt | o :: l => perform o;; perform_all l end.

Definition valid (o : Op) : Prop :=
  match o with
  | OpData c _ => valid_data c
  | OpHeartbeat g _ first last _ _ => Guid.wf g ∧ ok first ∧ ok last
  | OpGap g start gl => Guid.wf g ∧ valid_gap start gl
  | OpTake _ _ | OpReadAll => True
  end.

Lemma finishes_unit {A} s (p : M A) : inv s → finishes s (p s) → finishes s ((p ;; mret tt) s).
Proof.
  intros Hi (a & s' & tr & E & Hd & Hl). exists tt, s', tr. split; [by rewrite (bind_step _ _ _ _ _ E)|done].
Qed.

Lemma perform_finishes s o :
  inv s → valid o → Z.of_nat (length (changes s)) + 1 < 2 ^ 63 → finishes s (perform o s).
Proof.
  intros Hi Hv Hsz. destruct o as [c now|g count first last final live|g start gl|g seq|]; simpl in Hv |- *;
    apply finishes_unit; try done.
  - by apply processDataMsg_finishes.
  - destruct Hv as (? & ? & ?). by apply processHeartbeatMsg_finishes.
  - destruct Hv as [? ?]. by apply processGapMsg_finishes.
  - unfold remove_change.
    destruct (history_remove_change s (History.reference_change g seq) (i_attached _ Hi)) as (s1 & b & -> & Hs1).
    exists b, s1, []. split; [done|]. destruct Hs1 as [->|(k & c & Hk & _ & Eh & Er)]; [split; [by apply delivers_refl|lia]|].
    destruct (removal_inv s k c Hi Hk) as (Hi1 & Hq & Hl). set (s' := ReaderHistory.mkReaderHistory _ _) in Hi1, Hq, Hl.
    assert (s1 = s') as -> by (unfold s'; rewrite <-Eh, <-Er; by destruct s1). split.
    + apply delivers_same; [done| |unfold calls; by rewrite Hl].
      destruct Hq as (_ & _ & u & p & l & E). by rewrite E.
    + destruct Hq as [Hsub%sublist_length _]. lia.
  - rewrite get_unread_count_spec by done. eexists _, _, []. split; [reflexivity|]. split.
    + apply delivers_same; [by apply marked_inv|done|done].
    + change (length (mark (rd s) <$> changes s) <= S (length (changes s)))%nat. rewrite length_fmap. lia.
Qed.

Lemma perform_all_delivers l s :
  inv s → Forall valid l → Z.of_nat (length (changes s) + length l) < 2 ^ 63 →
  ∃ s' tr, perform_all l s = Done (tt, s') ∧ delivers s s' tr.
Proof.
  revert s. induction l as [|o l IH]; intros s Hi Hl Hsz; cbn [perform_all].
  { exists s, []. split; [done|by apply delivers_refl]. }
  apply Forall_cons in Hl as [Ho Hl]. simpl in Hsz.
  destruct (perform_finishes s o Hi Ho) as ([] & s1 & tr1 & E1 & Hd1 & Hlen); [lia|].
  rewrite (bind_step _ _ _ _ _ E1). destruct (IH s1 (d_inv _ _ _ Hd1) Hl) as (s2 & tr2 & E2 & Hd2); [lia|].
  exists s2, (tr1 ++ tr2). split; [exact E2|by eapply delivers_trans].
Qed.

(** ** What the reader guarantees *)

(** C6: a reader that takes messages of matched writers only, and whose writers' source
    times rise strictly with their numbers, gets any sequence of unfragmented data,
    heartbeats and gaps, while its user reads and takes changes and its listener removes
    what it likes when it is called.  It ends without undefined behaviour and without a
    failing assertion.  The listener is told of the changes of each writer in the order of
    their numbers, of none twice and of none notified before, and of a change only when
    every earlier number of its writer was received or declared lost or irrelevant. *)
Theorem delivery_in_order l s :
  inv s → Forall valid l → Z.of_nat (length (changes s) + length l) < 2 ^ 63 →
  ∃ s' tr, perform_all l s = Done (tt, s') ∧ inv s' ∧ calls (rd s') = calls (rd s) ++ tr ∧
    (∀ g, StronglySorted Z.lt (number <$> filter (λ c, writerGUID c = g) (news tr))) ∧
    Forall (λ c, ∃ w w', w ∈ writers (rd s) ∧ w' ∈ writers (rd s') ∧ guid w = writerGUID c ∧ guid w' = writerGUID c ∧
      SN.val (WriterProxy.last_notified_ w) < number c ∧ ∀ n, n <= number c → known w' n) (news tr).
Proof.
  intros Hi Hl Hsz. destruct (perform_all_delivers l s Hi Hl Hsz) as (s' & tr & E & Hd).
  exists s', tr. split_and!; [done|apply Hd|apply Hd|apply Hd|].
  eapply Forall_impl; [apply (d_news _ _ _ Hd)|]. intros c (_ & w & w' & Hw & Hw' & Hg & Hg' & Hr).
  exists w, w'. split_and!; [done|done|done|done|lia|]. intros n Hn. left.
  pose proof (wo_proxies _ (i_writers _ (d_inv _ _ _ Hd))) as Hp. rewrite Forall_forall in Hp.
  destruct (Hp w' Hw') as (Hp' & _). pose proof (pi_notified_le _ Hp'). lia.
Qed.

(** C10: an unfragmented data message of a matched writer, at a reader all of whose changes
    are unfragmented and whose writers' source times rise strictly with their numbers.  If
    its number is known nothing changes.  If it is new, and the history, the filter and the pools accept it, its number and
    no other becomes known, a change with its octets is added to the history, and
    everything up to the new low mark counts as notified; a listener that wants to
    know each change and removes none is told of exactly the changes of this writer
    between the number notified last and the new low mark, in their order. *)
Theorem data_stored_and_announced `{!ReaderPoolsLaws P} s i w c now payload p1 p2 :
  inv s → valid_data c → Z.of_nat (length (changes s)) + 1 < 2 ^ 63 →
  findWriterProxy (rd s) (writerGUID c) = Some i → writers (rd s) !! i = Some w →
  (ReaderHistory.can_change_be_added_nts s (writerGUID c) (Payload.length (serializedPayload c))).1 = true →
  change_is_relevant_for_filter c (m_guid (rd s)) (data_filter_ cfg) = true →
  RTPSReader.reserve_cache (pools (rd s)) = (true, p1) →
  RTPSReader.get_payload_for p1 (serializedPayload c) = (Some payload, p2) →
  ∃ s', processDataMsg cfg ndebug c now s = Done (true, s') ∧
    (known w (number c) → s' = s) ∧
    (¬ known w (number c) → ∃ w' l tr,
      writers (rd s') !! i = Some w' ∧ (∀ n, known w' n ↔ known w n ∨ n = number c) ∧
      SN.val (WriterProxy.last_notified_ w') = low w' ∧
      l ≡ₚ stored c payload now :: changes s ∧ sublist (changes s') l ∧
      take (Z.to_nat (Payload.length (serializedPayload c))) (octets_of (stored c payload now)) =
        take (Z.to_nat (Payload.length (serializedPayload c))) (octets_of c) ∧
      calls (rd s') = calls (rd s) ++ tr ∧
      (is_Some (mp_listener (rd s)) → patient → changes s' = l ∧
        news tr = filter (window (guid w) (SN.val (WriterProxy.last_notified_ w) + 1) (low w')) l)).
Proof.
  intros Hi Hc Hsz Hfind Hw Hcan Hrel Er Ep. pose proof Hc as (((Hs & Hg) & _) & Hok & _ & Hfs).
  destruct (find_writer s _ i Hi Hg Hfind) as (w0 & Hw0 & Eg). assert (w0 = w) as -> by congruence. clear Hw0.
  pose proof (proxy_at_inv _ _ _ Hi Hw) as Hp.
  pose proof (was_received_known w _ Hp Hok) as Hkn. fold (number c) in Hkn.
  unfold processDataMsg. rewrite (bind_step reader _ _ (rd s) s) by done.
  rewrite (wo_alive _ (i_writers _ Hi)). cbn [negb]. unfold acceptMsgFrom. rewrite Hfind.
  rewrite (bind_step _ _ _ (WriterProxy.change_was_received w (sequenceNumber c)) s)
    by (by rewrite (bind_step _ _ _ _ _ (the_proxy_at s i w Hw))).
  destruct (WriterProxy.change_was_received w (sequenceNumber c)).
  { exists s. split; [done|]. split; [done|]. intros []. by apply Hkn. }
  assert (¬ known w (number c)) as Hnew by (intros Hk; by apply Hkn in Hk).
  pose proof (pools_delivers s p2 Hi) as Hd2. fold (pooled s p2) in Hd2.
  destruct (change_received_cases cfg ndebug (pooled s p2) i w (stored c payload now)
    (WriterProxy.unknown_missing_changes_up_to w (sequenceNumber c)) (d_inv _ _ _ Hd2) Hw)
    as [[Hbig _]|(l & s3 & m & tr & E & Hd3 & Hl & Hsub & Hw3 & Em & Ha & Htold)].
  { by apply stored_storable. }
  { exfalso. destruct (get_payload_for_octets _ _ _ _ Ep) as [Hlen _]. destruct Hbig as [Hm Hlt]. simpl in Hm, Hlt.
    rewrite Hlen in Hlt. unfold ReaderHistory.can_change_be_added_nts in Hcan.
    by rewrite (bool_decide_true _ Hm), (proj2 (Z.ltb_lt _ _) Hlt) in Hcan. }
  rewrite (bind_step _ _ _ true s3).
  2: { rewrite (add_data_pools cfg ndebug s i w c now true p1 Hw Hfs Hcan Hrel Er). cbn [negb]. rewrite Ep.
       by rewrite (bind_step _ _ _ _ _ E). }
  destruct (assert_liveliness_step cfg (writerGUID c) s3 (d_inv _ _ _ Hd3)) as (s4 & E4 & Hd4 & _).
  assert (changes s4 = changes s3 ∧ writers (rd s4) = writers (rd s3)) as [Ec4 Ew4].
  { unfold assert_writer_liveliness in E4. destruct (_ && _); by injection E4 as <-. }
  rewrite (bind_step _ _ _ _ _ E4). exists s4. split; [done|]. split; [done|]. intros _.
  pose proof (received_change_set_spec w _ Hp Hok) as Hspec.
  change (sequenceNumber (stored c payload now)) with (sequenceNumber c) in *.
  set (w' := (WriterProxy.received_change_set w (sequenceNumber c)).2) in *.
  assert ((∀ n, known w' n ↔ known w n ∨ n = number c) ∧ WriterProxy.last_notified_ w' = WriterProxy.last_notified_ w)
    as [Hk' Hn'] by (unfold w'; destruct (WriterProxy.received_change_set w (sequenceNumber c)); destruct_and! Hspec; done).
  destruct (received_learns w _ Hp Hok) as [_ (Hg' & _)]. fold w' in Hg'.
  exists (WriterProxy.with_notified w' m), l, tr. rewrite Ec4, Ew4. split_and!; [done|done|done|done|done| | |].
  - by destruct (get_payload_for_octets _ _ _ _ Ep).
  - rewrite (d_calls _ _ _ Hd4), app_nil_r, (d_calls _ _ _ Hd3). by rewrite (d_calls _ _ _ Hd2), app_nil_r.
  - intros Hls Hpat. destruct (Htold Hls Hpat) as [-> ->]. split; [done|].
    unfold fresh. by rewrite Hg', Hn'.
Qed.

(** The number of unread changes is exact: [get_unread_count] returns how many changes
    of the history were notified and not read, its assertion holds, and afterwards
    just these are marked as read and none is unread. *)
Theorem unread_count_exact s :
  inv s → ∃ s', get_unread_count ndebug true s =
      Done (Z.of_nat (length (filter (λ c, isRead c = false ∧
        number c <= SN.val (get_last_notified (history_state_ (rd s)) (writerGUID c))) (changes s))), s') ∧
    inv s' ∧ total_unread_ (rd s') = 0 ∧
    changes s' = (λ c, if bool_decide (isRead c = false ∧
        number c <= SN.val (get_last_notified (history_state_ (rd s)) (writerGUID c)))
      then with_read c true else c) <$> changes s.
Proof.
  intros Hi. exists (at_count s (rd s) (mark (rd s) <$> changes s) 0). rewrite get_unread_count_spec by done.
  split; [|split; [by apply marked_inv|split; [done|]]].
  - by do 2 f_equal.
  - change (mark (rd s) <$> changes s = (λ c, if bool_decide (isRead c = false ∧
        number c <= SN.val (get_last_notified (history_state_ (rd s)) (writerGUID c)))
      then with_read c true else c) <$> changes s).
    apply list_fmap_ext. intros _ c _. unfold mark. by do 2 case_bool_decide.
Qed.

End facts.

(** ** A reader with one writer *)

(** Pools that give what is asked for. *)
Inductive Plenty := plenty.

#[export] Instance plenty_pools : ReaderPools Plenty := {|
  RTPSReader.reserve_cache p := (true, p);
  RTPSReader.release_cache p := p;
  RTPSReader.get_payload p size :=
    (Some (Payload.mkPayload Payload.CDR_BE 0 (Some (replicate (Z.to_nat size) 0)) size 0), p);
  RTPSReader.get_payload_for p data := (Some data, p);
  RTPSReader.release_payload p _ := p
|}.

#[export] Instance plenty_laws : ReaderPoolsLaws Plenty.
Proof.
  constructor; intros p size pl p' Heq; injection Heq as <-; [|done].
  cbn [Payload.max_size Payload.data from_option id]. rewrite length_replicate. lia.
Qed.

(** A listener that wants to know each change and takes nothing, and one that takes
    each change when it is told of it. *)
#[export] Instance watching : ReaderListener unit := {|
  on_data_available l _ _ _ := (true, [], l);
  onNewCacheChangeAdded l _ := ([], l);
  on_sample_lost l _ := l;
  on_writer_discovery l _ _ := l
|}.

Inductive Taker := taker.

#[export] Instance taking : ReaderListener Taker := {|
  on_data_available l _ _ _ := (true, [], l);
  onNewCacheChangeAdded l c := ([(writerGUID c, sequenceNumber c)], l);
  on_sample_lost l _ := l;
  on_writer_discovery l _ _ := l
|}.

Lemma watching_patient : patient (L:=unit).
Proof. done. Qed.

Definition sample_config : Config :=
  mkConfig false 0 false false (replicate 4 0) false 0 None 4 1.

Definition sample_writer : Guid.GUID_t := WriterProxy.d_guid sample_data.

Definition no_writers {A} : RLV.t A := RLV.mk (RLV.mkConfig 0 10 1) 0 [].

Definition unmatched {L} (l : L) : Sys Plenty (list Call * L) :=
  ReaderHistory.mkReaderHistory
    (History.mkHistory (History.mkAttributes PREALLOCATED_WITH_REALLOC_MEMORY_MODE 500 10 0 1) [] false true)
    (mkStateful sample_reader true no_writers no_writers 0 0 0 empty_state plenty (Some ([], l)) []).

Definition matched {L} `{ReaderListener L} (l : L) : Sys Plenty (list Call * L) :=
  match matched_writer_add sample_config false sample_data 0 (unmatched l) with
  | Done (_, s) => s
  | _ => unmatched l
  end.

(** A sample of 8 octets, [n] seconds after the start. *)
Definition sample_change (n fragment_size : Z) : CacheChange_t :=
  mkChange ALIVE sample_writer None (sn n)
    (Payload.mkPayload Payload.CDR_BE 8 (Some [n; 2; 3; 4; 5; 6; 7; 8]) 8 0) Payload.default_payload
    false (mkTime n 0) (mkTime 0 0) [0; 0] WriterHistory.default_params false fragment_size
    (if fragment_size =? 0 then 0 else 8 `div` fragment_size) 0.

Definition second (_ : Guid.GUID_t) (n : Z) : Z := n * 2 ^ 32.

Lemma second_mono g n m : n < m → second g n < second g m.
Proof. unfold second. lia. Qed.

Lemma sample_writer_wf : Guid.wf sample_writer.
Proof. repeat split; try (vm_compute; reflexivity); repeat constructor; vm_compute; discriminate. Qed.

Lemma matched_inv {L} `{!ReaderListener L} (l : L) : inv second (matched l).
Proof.
  assert (writers (rd (matched l)) = [started]) as Hw by (vm_compute; reflexivity).
  assert (proxy_inv started) as Hp.
  { apply (step_keeps_ok sample_reader (WriterProxy.create 4 1 0) started); [|apply clear_ok].
    apply step_start; [reflexivity|apply ok_small; lia]. }
  assert (changes (matched l) = []) as Hc by (vm_compute; reflexivity).
  constructor; rewrite ?Hc; try constructor; rewrite ?Hw; try (vm_compute; reflexivity).
  - constructor; [|constructor]. split_and!; [done|vm_compute; reflexivity|exact sample_writer_wf].
  - apply NoDup_singleton.
  - intros w ->%list_elem_of_singleton. vm_compute; reflexivity.
  - by intros w1 w2 ->%list_elem_of_singleton ->%list_elem_of_singleton.
Qed.

Lemma sample_change_valid n : 0 < n < 2 ^ 31 → valid_data second (sample_change n 0).
Proof.
  intros Hn. split_and!; [|apply ok_small; lia|done|done].
  split_and!; [split; [apply ok_small; lia|exact sample_writer_wf]|split; simpl; range_unfold; lia|].
  unfold stamp, number, second, SN.val. simpl. lia.
Qed.

Definition sample_set (base : Z) (l : list Z) : SequenceNumberSet_t :=
  fold_left (λ b n, (BitmapRange.add b (sn n)).2) l (BitmapRange.make (sn base)).

(** Data 2 arrives before data 1; 3 and 5 are declared gaps after 4 has arrived. *)
Definition sample_run : list Op :=
  [OpData (sample_change 2 0) (mkTime 9 0); OpData (sample_change 1 0) (mkTime 9 1); OpReadAll;
   OpHeartbeat sample_writer 1 (sn 1) (sn 4) false false; OpData (sample_change 4 0) (mkTime 9 2);
   OpGap sample_writer (sn 3) (sample_set 4 [5]); OpTake sample_writer (sn 1)].

Lemma sample_run_valid : Forall (valid second) sample_run.
Proof.
  assert (BitmapRange.for_each (sample_set 4 [5]) = [sn 5]) as Hg by (vm_compute; reflexivity).
  assert (valid_gap (sn 3) (sample_set 4 [5])) as Hgap.
  { split_and!; [apply ok_small; lia|apply (ok_small 4); lia|]. rewrite Hg. constructor; [apply ok_small; lia|done]. }
  assert (∀ n, 0 < n < 100 → valid_data second (sample_change n 0)) as Hd
    by (intros n Hn; apply sample_change_valid; lia).
  constructor; [apply Hd; lia|]. constructor; [apply Hd; lia|]. constructor; [exact I|].
  constructor; [split_and!; [exact sample_writer_wf|apply ok_small; lia..]|]. constructor; [apply Hd; lia|].
  constructor; [split; [exact sample_writer_wf|exact Hgap]|]. constructor; [exact I|constructor].
Qed.

Lemma delivery_in_order_witness :
  ∃ s' tr, perform_all sample_config false sample_run (matched taker) = Done (tt, s') ∧
    calls (rd s') = tr ∧ (sequenceNumber <$> news tr) = [sn 1; sn 2; sn 4].
Proof.
  destruct (delivery_in_order second second_mono sample_config false eq_refl sample_run (matched taker)
    (matched_inv taker)) as (s' & tr & E & _ & Hc & _).
  - exact sample_run_valid.
  - vm_compute. reflexivity.
  - exists s', tr. split; [exact E|]. vm_compute in E. injection E as <-. simpl in Hc. rewrite <-Hc. done.
Defined.

Lemma data_stored_and_announced_witness :
  ∃ s' tr, processDataMsg sample_config false (sample_change 1 0) (mkTime 9 0) (matched tt) = Done (true, s') ∧
    calls (rd s') = tr ∧ news tr = [stored (sample_change 1 0) (serializedPayload (sample_change 1 0)) (mkTime 9 0)].
Proof.
  destruct (data_stored_and_announced second second_mono sample_config false (matched tt) 0 started
    (sample_change 1 0) (mkTime 9 0) (serializedPayload (sample_change 1 0)) plenty plenty (matched_inv tt))
    as (s' & E & _ & Hnew); [by apply sample_change_valid|by vm_compute..|].
  destruct Hnew as (w' & l & tr & _ & _ & _ & _ & _ & _ & Hc & _).
  { intros [Hlow|Hin]; [by vm_compute in Hlow|by apply elem_of_nil in Hin]. }
  exists s', tr. split_and!; [exact E|exact Hc|]. vm_compute in E. injection E as <-. simpl in Hc. rewrite <-Hc. done.
Defined.

Lemma unread_count_exact_witness : ∃ s', get_unread_count false true (matched tt) = Done (0, s').
Proof.
  destruct (unread_count_exact second false (matched tt) (matched_inv tt)) as (s' & E & _).
  exists s'. exact E.
Defined.

(** Fragment 1 of 2 of sample 3 arrives, then a gap from 1 to 3 whose list, based at
    2, is 2 and 3: sample 3 is announced to the listener although half of it is
    missing, because [processGapMsg] searches the history for 2, where its first loop
    ended, and not for the numbers of the list. *)
Example gap_announces_incomplete_change :
  ∃ s1 s2 c,
    processDataFragMsg sample_config false (sample_change 3 4) 8 1 1 (mkTime 9 0) (matched tt) = Done (true, s1) ∧
    processGapMsg sample_config false sample_writer (sn 1) (sample_set 2 [2; 3]) s1 = Done (true, s2) ∧
    news (calls (rd s2)) = [c] ∧ sequenceNumber c = sn 3 ∧ is_fully_assembled c = false.
Proof.
  eexists _, _, _. split; [vm_compute; reflexivity|]. split; [vm_compute; reflexivity|].
  vm_compute. by split_and!.
Qed.

(** Both fragments of sample 1 arrive in one message and the listener takes the sample as
    soon as it is told of it: [processDataFragMsg] then looks at the change that was
    released.  With a listener that leaves the sample it ends well. *)
Example fragments_used_after_release :
  processDataFragMsg sample_config false (sample_change 1 4) 8 1 2 (mkTime 9 0) (matched taker) = Undefined ∧
  ∃ s, processDataFragMsg sample_config false (sample_change 1 4) 8 1 2 (mkTime 9 0) (matched tt) = Done (true, s) ∧
    (sequenceNumber <$> news (calls (rd s))) = [sn 1].
Proof.
  split; [vm_compute; reflexivity|]. eexists. split; [vm_compute; reflexivity|]. by vm_compute.
Qed.

End StatefulFacts.
