(* ===== verification/L2.v ===== *)
(** * The user-space layer-2 transports: addressing

    What the XDP and DPDK transports share: the ethertypes that carry the ports
    (ddsi_UserspaceL2Utils.h), the filter loaded into the kernel
    (ddsi_xdp_l2_kern.c), the locators of the transports (ddsi_l2_transport.cpp)
    and the well-known ports (PortParameters.h).

    All of it is modelled for a little-endian host.  Octets are the integers of
    [[0, 256)].  [ndebug] tells whether the assertions are compiled out. *)

From S2P Require Import Prelude Containers Guid Locator LocatorSelector.
From stdpp Require Import gmap.

#[local] Open Scope Z_scope.

(** ** Well-known ports *)

Module PortParameters.

Record PortParameters := mkPorts {
  portBase : Z;
  domainIDGain : Z;
  participantIDGain : Z;
  offsetd0 : Z;
  offsetd1 : Z;
  offsetd2 : Z;
  offsetd3 : Z
}.

Definition default_ports : PortParameters := mkPorts 7400 250 2 0 10 1 11.

Definition ports_eqb (a b : PortParameters) : bool :=
  (portBase a =? portBase b) && (domainIDGain a =? domainIDGain b) &&
  (participantIDGain a =? participantIDGain b) && (offsetd0 a =? offsetd0 b) &&
  (offsetd1 a =? offsetd1 b) && (offsetd2 a =? offsetd2 b) && (offsetd3 a =? offsetd3 b).

(** The sums are of 32-bit unsigned integers; the process exits on a port that
    is too high. *)
Definition getMulticastPort (p : PortParameters) (domainId : Z) : outcome Z :=
  let port := u32 (portBase p + domainIDGain p * domainId + offsetd0 p) in
  if 65535 <? port then Exited else Done port.

Definition getUnicastPort (p : PortParameters) (domainId RTPSParticipantID : Z) : outcome Z :=
  let port := u32 (portBase p + domainIDGain p * domainId + offsetd1 p +
                   participantIDGain p * RTPSParticipantID) in
  if 65535 <? port then Exited else Done port.

End PortParameters.

Module L2.
Import Locator LocatorSelector PortParameters.

Definition DPDK_TRANSPORT_KIND : Z := 64.
Definition XDP_TRANSPORT_KIND : Z := 128.
Definition ETHER_TYPE_BASE : Z := 0xA000.
Definition ETHER_TYPE_MAX : Z := 0xBFFF.

(** The size of an Ethernet header, the offset of the payload. *)
Definition HEADER_SIZE : Z := 14.

Section utils.
Variable ndebug : bool.

Definition get_ethertype_for_port (port : Z) : outcome Z :=
  assert_ ndebug (port <? ETHER_TYPE_MAX);;
  Done (u16 (port + ETHER_TYPE_BASE)).

Definition is_valid_ethertype (ethertype : Z) : bool :=
  (ETHER_TYPE_BASE <=? ethertype) && (ethertype <=? ETHER_TYPE_MAX).

Definition get_port_for_ethertype (ethertype : Z) : outcome Z :=
  assert_ ndebug (is_valid_ethertype ethertype);;
  Done (u16 (ethertype - ETHER_TYPE_BASE)).

Definition get_payload_size (packetSize payloadOffset : Z) : Z :=
  if (packetSize <? payloadOffset) || (UINT16_MAX <? payloadOffset) || (UINT16_MAX <? packetSize)
  then 0 else u16 (packetSize - payloadOffset).

(** The octets of [dest] after the call: [addr] behind [offset] zeros. *)
Definition copy_mac_address_and_zero (offset : nat) (addr : list Z) : list Z :=
  replicate offset 0 ++ take 6 addr.

Definition get_packet_size (dataSize payloadOffset : Z) : Z :=
  if UINT16_MAX <? u64 (dataSize + payloadOffset) then 0 else u16 (dataSize + payloadOffset).

End utils.

(** ** The kernel filter *)

Inductive verdict := XDP_PASS | XDP_REDIRECT.

(** A 16-bit field of a packet, as the host reads it. *)
Definition read_u16 (packet : list Z) (offset : nat) : Z := le_val (take 2 (drop offset packet)).

(** [xdp_sock_prog]: [bound] tells whether a socket is entered in [xsks_map]. *)
Definition xdp_sock_prog (packet : list Z) (bound : bool) : verdict :=
  if Z.of_nat (length packet) <=? HEADER_SIZE then XDP_PASS
  else if is_valid_ethertype (read_u16 packet 12) then
    if bound then XDP_REDIRECT else XDP_PASS
  else XDP_PASS.

(** ** The transport *)

Record l2_transport := mkTransport {
  transport_kind_ : Z;
  localLoc : Locator_t;
  localMacAddress : list Z
}.

(** The constructor: the local locator is set by [init]. *)
Definition make_transport (transportKind : Z) : l2_transport :=
  mkTransport transportKind Locator.default (replicate 6 0).

(** What [init] of both transports does once it knows the address of the
    interface. *)
Definition set_local_address (t : l2_transport) (mac : list Z) : l2_transport :=
  mkTransport (transport_kind_ t)
    (set_octets (of_kind_port (transport_kind_ t) 0) (copy_mac_address_and_zero 10 mac))
    mac.

Definition bcastAddress : list Z := replicate 10 0 ++ replicate 6 0xFF.
Definition anyAddress : list Z := replicate 16 0.

(** [LocatorList::push_back]. *)
Definition list_push_back (ls : list Locator_t) (l : Locator_t) : list Locator_t :=
  if existsb (Locator.eqb l) ls then ls else ls ++ [l].

Definition IsLocatorSupported (t : l2_transport) (locator : Locator_t) : bool :=
  kind locator =? transport_kind_ t.

(** A locator of another kind gives [return false], which is the locator of port
    zero. *)
Definition RemoteToMainLocal (t : l2_transport) (remote : Locator_t) : Locator_t :=
  if IsLocatorSupported t remote then set_Invalid_Address remote else of_port 0.

Definition DoInputLocatorsMatch (t : l2_transport) (locator locator1 : Locator_t) : bool :=
  (kind locator =? kind locator1) && (kind locator1 =? transport_kind_ t).

Definition NormalizeLocator (t : l2_transport) (locator : Locator_t) : list Locator_t :=
  if memcmp 16 (address locator) anyAddress =? 0
  then list_push_back [] (set_address locator (localLoc t))
  else list_push_back [] locator.

Definition setLocatorBroadcastAddress (locator : Locator_t) : Locator_t :=
  set_octets locator (replicate 10 0 ++ replicate 6 0xFF).

Definition fill_port (locator : Locator_t) (p : Z) : bool * Locator_t :=
  (true, if port locator =? 0 then set_port locator p else locator).

Definition fillMetatrafficMulticastLocator := fill_port.
Definition fillMetatrafficUnicastLocator := fill_port.
Definition fillUnicastLocator := fill_port.

Section transport.
Variable ndebug : bool.
Variable t : l2_transport.

Definition is_locator_allowed (locator : Locator_t) : outcome bool :=
  assert_ ndebug (kind locator =? transport_kind_ t);;
  Done (IsLocatorSupported t locator).

Definition is_local_locator (locator : Locator_t) : outcome bool :=
  assert_ ndebug (kind locator =? transport_kind_ t);;
  Done (memcmp 16 (address locator) (address (localLoc t)) =? 0).

Definition AddDefaultOutputLocator (defaultList : list Locator_t) : outcome (list Locator_t) :=
  assert_ ndebug (bool_decide (defaultList = []));;
  Done (list_push_back defaultList
          (setLocatorBroadcastAddress (of_kind_port (transport_kind_ t) 1))).

Definition getDefaultMetatrafficMulticastLocators (locators : list Locator_t) (p : Z)
    : outcome (list Locator_t) :=
  assert_ ndebug (bool_decide (locators = []));;
  Done (list_push_back locators (setLocatorBroadcastAddress (of_kind_port (transport_kind_ t) p))).

Definition getDefaultMetatrafficUnicastLocators (locators : list Locator_t) (p : Z)
    : outcome (list Locator_t) :=
  assert_ ndebug (bool_decide (locators = []));;
  Done (list_push_back locators (set_Invalid_Address (of_kind_port (transport_kind_ t) p))).

Definition getDefaultUnicastLocators (locators : list Locator_t) (p : Z)
    : outcome (list Locator_t) :=
  assert_ ndebug (bool_decide (locators = []));;
  Done (list_push_back locators (set_Invalid_Address (of_kind_port (transport_kind_ t) p))).

Definition configureInitialPeerLocator (locator : Locator_t) (port_params : PortParameters)
    (domainId : Z) (peers : list Locator_t) : outcome (list Locator_t) :=
  if port locator =? 0 then
    assert_ ndebug (memcmp 16 (address locator) bcastAddress =? 0);;
    p ← getMulticastPort port_params domainId;
    Done (list_push_back peers (set_port locator p))
  else Done (list_push_back peers locator).

(** [select_locators]: the first locator of the first entry. *)
Definition l2_select_locators (s : LocatorSelector) : outcome LocatorSelector :=
  let s := transport_starts s in
  match RLV.collection_ (entries_ s) with
  | [] => Done s
  | p :: _ =>
      assert_ ndebug (selected_size s =? 0);;
      assert_ ndebug (RLV.size (entries_ s) =? 1);;
      assert_ ndebug (RLV.size (multicast (entry_at s p)) =? 0);;
      assert_ ndebug (RLV.size (unicast (entry_at s p)) =? 1);;
      let s := update_entry s p (λ e, select_unicast e 0) in
      let s := select s 0 in
      assert_ ndebug (selected_size s =? 1);;
      Done s
  end.

End transport.

End L2.
