(* ===== verification/L2Facts.v ===== *)
(** * Properties of the layer-2 addressing

    Which ports survive the way through an ethertype and the kernel filter, where the
    participants of a domain announce themselves, and how the locators of the transports
    are normalised and selected. *)

From S2P Require Import Prelude Containers Guid Locator LocatorSelector LocatorSelectorFacts L2.
From stdpp Require Import gmap.

#[local] Open Scope Z_scope.

Import L2 PortParameters.

(** The highest port that has an ethertype of its own. *)
Definition LAST_PORT : Z := ETHER_TYPE_MAX - ETHER_TYPE_BASE.

Lemma valid_ethertype_spec e :
  is_valid_ethertype e = true ↔ ETHER_TYPE_BASE <= e <= ETHER_TYPE_MAX.
Proof. unfold is_valid_ethertype. rewrite andb_true_iff, !Z.leb_le. done. Qed.

Lemma ethertype_for_port ndebug p :
  0 <= p < ETHER_TYPE_MAX → get_ethertype_for_port ndebug p = Done (u16 (p + ETHER_TYPE_BASE)).
Proof. intros Hp. unfold get_ethertype_for_port. rewrite assert_true by (apply Z.ltb_lt; lia). done. Qed.

Lemma ethertype_valid p :
  0 <= p <= UINT16_MAX → is_valid_ethertype (u16 (p + ETHER_TYPE_BASE)) = true ↔ p <= LAST_PORT.
Proof.
  intros Hp. rewrite valid_ethertype_spec.
  unfold LAST_PORT, ETHER_TYPE_BASE, ETHER_TYPE_MAX in *. mlia.
Qed.

Lemma port_of_ethertype ndebug p :
  0 <= p <= LAST_PORT →
  get_port_for_ethertype ndebug (u16 (p + ETHER_TYPE_BASE)) = Done p.
Proof.
  intros Hp. unfold get_port_for_ethertype.
  rewrite assert_true by (apply ethertype_valid; unfold LAST_PORT, ETHER_TYPE_MAX, ETHER_TYPE_BASE in *;
    range_unfold; lia).
  cbn. f_equal. unfold LAST_PORT, ETHER_TYPE_BASE, ETHER_TYPE_MAX in *. mlia.
Qed.

(** The filter looks at the two octets behind the addresses. *)
Lemma filter_spec packet :
  HEADER_SIZE < Z.of_nat (length packet) →
  xdp_sock_prog packet true = XDP_REDIRECT ↔ is_valid_ethertype (read_u16 packet 12) = true.
Proof.
  intros Hlen. unfold xdp_sock_prog. destruct (Z.leb_spec (Z.of_nat (length packet)) HEADER_SIZE); [lia|].
  by destruct (is_valid_ethertype _).
Qed.

(** Every port the code accepts gets an ethertype, and the port is recovered
    from it and passes the filter of the receiver exactly when it is at most
    0x1FFF; the ethertypes of the higher ports that are accepted are outside the
    range the receiver looks at. *)
Theorem ports_on_the_wire ndebug p packet :
  0 <= p < ETHER_TYPE_MAX → HEADER_SIZE < Z.of_nat (length packet) →
  get_ethertype_for_port ndebug p = Done (read_u16 packet 12) →
  (p <= 0x1FFF → get_port_for_ethertype ndebug (read_u16 packet 12) = Done p) ∧
  (xdp_sock_prog packet true = XDP_REDIRECT ↔ p <= 0x1FFF).
Proof.
  intros Hp Hlen. rewrite ethertype_for_port by done. intros [= He]. rewrite <- He. split.
  - intros Hle. apply port_of_ethertype. unfold LAST_PORT, ETHER_TYPE_MAX, ETHER_TYPE_BASE. lia.
  - rewrite filter_spec, <- He by done.
    apply ethertype_valid. unfold ETHER_TYPE_MAX in Hp. range_unfold. lia.
Qed.

(** A frame of the given ethertype. *)
Definition sample_frame (ethertype : Z) : list Z :=
  replicate 12 0 ++ le_bytes 2 ethertype ++ [1; 2; 3].

Lemma ports_on_the_wire_witness :
  (7410 <= 0x1FFF → get_port_for_ethertype false (read_u16 (sample_frame 48370) 12) = Done 7410) ∧
  (xdp_sock_prog (sample_frame 48370) true = XDP_REDIRECT ↔ 7410 <= 0x1FFF).
Proof.
  apply (ports_on_the_wire false 7410 (sample_frame 48370)).
  - unfold ETHER_TYPE_MAX. lia.
  - vm_compute. done.
  - vm_compute. reflexivity.
Defined.

(** With the default port parameters the announcements of a participant go to the port
    7400 + 250 * domain. *)
Lemma initial_peer d :
  0 <= d <= 232 →
  configureInitialPeerLocator false
    (setLocatorBroadcastAddress (Locator.of_kind_port XDP_TRANSPORT_KIND 0)) default_ports d []
  = Done [setLocatorBroadcastAddress (Locator.of_kind_port XDP_TRANSPORT_KIND (7400 + 250 * d))].
Proof.
  intros Hd. unfold configureInitialPeerLocator, getMulticastPort. cbn -[u32 Z.mul Z.add Z.ltb].
  rewrite u32_small by (range_unfold; lia). destruct (Z.ltb_spec 65535 (7400 + 250 * d + 0)); [lia|].
  cbn -[Z.mul Z.add]. by rewrite Z.add_0_r.
Qed.

(** The filter compares the ethertype in the byte order of the host: of the
    two octets of the ethertype on the wire it looks at the second one only, and
    takes every frame in which it is between 0xA0 and 0xBF, whatever the first
    one is. *)
Theorem filter_byte_order addresses hi lo payload :
  length addresses = 12%nat → is_u8 hi → is_u8 lo → payload ≠ [] →
  xdp_sock_prog (addresses ++ hi :: lo :: payload) true = XDP_REDIRECT ↔ 0xA0 <= lo <= 0xBF.
Proof.
  intros Hl Hhi Hlo Hp. unfold xdp_sock_prog.
  destruct payload as [|x payload]; [done|].
  rewrite length_app, Hl. cbn [length]. unfold HEADER_SIZE.
  destruct (Z.leb_spec (Z.of_nat (12 + S (S (S (length payload))))) 14); [lia|].
  unfold read_u16. rewrite drop_app_length' by done. cbn [take le_val].
  destruct (is_valid_ethertype _) eqn:Hv.
  - apply valid_ethertype_spec in Hv. unfold ETHER_TYPE_BASE, ETHER_TYPE_MAX in *. split; [|done].
    intros _. range_unfold. lia.
  - split; [done|]. intros Hlo'. exfalso. rewrite <- not_true_iff_false, valid_ethertype_spec in Hv.
    apply Hv. unfold ETHER_TYPE_BASE, ETHER_TYPE_MAX. range_unfold. lia.
Qed.

(** A frame with a provider VLAN tag, ethertype 0x88A8. *)
Lemma filter_byte_order_witness :
  xdp_sock_prog (replicate 12 7 ++ 0x88 :: 0xA8 :: [1; 2]) true = XDP_REDIRECT ↔ 0xA0 <= 0xA8 <= 0xBF.
Proof.
  apply (filter_byte_order (replicate 12 7) 0x88 0xA8 [1; 2]); [reflexivity|range_unfold; lia..|done].
Defined.

(** ** Locators *)

Lemma mac_address_length (mac : list Z) :
  length mac = 6%nat → length (copy_mac_address_and_zero 10 mac) = 16%nat.
Proof. intros Hm. unfold copy_mac_address_and_zero. rewrite length_app, length_replicate, length_take. lia. Qed.

Lemma address_memcmp (a b : list Z) :
  length a = 16%nat → length b = 16%nat → (memcmp 16 a b =? 0) = true ↔ a = b.
Proof.
  intros Ha Hb. rewrite Z.eqb_eq, memcmp_eq, !firstn_all2 by lia. done.
Qed.

(** The transport on an interface with the given address. *)
Lemma is_local_spec ndebug kind mac l :
  length mac = 6%nat → length (Locator.address l) = 16%nat → Locator.kind l = kind →
  is_local_locator ndebug (set_local_address (make_transport kind) mac) l
  = Done (bool_decide (Locator.address l = replicate 10 0 ++ mac)).
Proof.
  intros Hm Hl Hk. unfold is_local_locator. rewrite assert_true by (rewrite Hk; apply Z.eqb_refl).
  change (Done (memcmp 16 (Locator.address l) (copy_mac_address_and_zero 10 mac) =? 0) =
    Done (bool_decide (Locator.address l = replicate 10 0 ++ mac))).
  f_equal. apply eq_true_iff_eq. rewrite address_memcmp, bool_decide_eq_true by (done || by apply mac_address_length).
  unfold copy_mac_address_and_zero. by rewrite firstn_all2 by lia.
Qed.

(** Once the address of the interface is known, the default unicast locators
    become the local locator with their own port when they are normalised, and
    are recognised as local; the multicast ones keep the broadcast address and are
    local only on an interface that has that address. *)
Theorem local_locators ndebug kind mac p :
  length mac = 6%nat →
  let t := set_local_address (make_transport kind) mac in
  let l := Locator.mkLocator kind p (replicate 10 0 ++ mac) in
  let m := Locator.mkLocator kind p bcastAddress in
  ((ls ← getDefaultUnicastLocators ndebug t [] p; Done (mjoin (NormalizeLocator t <$> ls))) = Done [l]) ∧
  is_local_locator ndebug t l = Done true ∧
  RemoteToMainLocal t l = Locator.mkLocator kind p anyAddress ∧
  ((ls ← getDefaultMetatrafficMulticastLocators ndebug t [] p;
    Done (mjoin (NormalizeLocator t <$> ls))) = Done [m]) ∧
  (is_local_locator ndebug t m = Done true ↔ mac = replicate 6 0xFF).
Proof.
  intros Hm t l m.
  assert (Hlen : length (replicate 10 0 ++ mac) = 16%nat) by (rewrite length_app, length_replicate; lia).
  split_and!.
  - unfold getDefaultUnicastLocators. rewrite assert_true by done. cbn -[set_local_address].
    unfold l. f_equal. f_equal. unfold Locator.set_octets. cbn.
    unfold copy_mac_address_and_zero. by rewrite firstn_all2 by lia.
  - unfold t. rewrite is_local_spec by done. by rewrite bool_decide_eq_true_2.
  - unfold RemoteToMainLocal, IsLocatorSupported. cbn. by rewrite Z.eqb_refl.
  - unfold getDefaultMetatrafficMulticastLocators. by rewrite assert_true.
  - unfold t. rewrite is_local_spec by done. split.
    + intros H. assert (Hb : bool_decide (Locator.address m = replicate 10 0 ++ mac) = true) by congruence.
      apply bool_decide_eq_true in Hb. by apply app_inv_head in Hb.
    + intros ->. by rewrite bool_decide_eq_true_2.
Qed.

Lemma local_locators_witness :
  let t := set_local_address (make_transport XDP_TRANSPORT_KIND) [2; 0; 0; 0; 0; 7] in
  is_local_locator false t (Locator.mkLocator XDP_TRANSPORT_KIND 7410 (replicate 10 0 ++ [2; 0; 0; 0; 0; 7]))
  = Done true.
Proof. apply (local_locators false XDP_TRANSPORT_KIND [2; 0; 0; 0; 0; 7] 7410). reflexivity. Defined.

(** ** Selection *)

Section selection.
Context (s : LocatorSelector.LocatorSelector) (p : Z) (ps : list Z).
Context (l : Locator.Locator_t) (ls : list Locator.Locator_t).
Import LocatorSelector.LocatorSelector.
Context (Hwf : selector_wf s) (Hp : RLV.collection_ (entries_ s) = p :: ps).
Context (Hl : RLV.collection_ (unicast (entry_at s p)) = l :: ls).

Lemma started_entry :
  is_Some (store (transport_starts (selection_start s)) !! p) ∧
  entry_at (transport_starts (selection_start s)) p
  = set_process (entry_reset (entry_at s p)) (enabled (entry_at s p)).
Proof using Hwf Hp. apply started_spec; [done|]. rewrite Hp. by left. Qed.

(** The selector once the first locator of the first entry is picked. *)
Definition first_picked : LocatorSelector :=
  select (update_entry (transport_starts (selection_start s)) p (λ e, select_unicast e 0)) 0.

Lemma first_picked_spec :
  RLV.collection_ (selections_ first_picked) = [0%nat] ∧
  for_each first_picked = [l] ∧ selected_size first_picked = 1.
Proof using Hwf Hp Hl.
  destruct (started_spec s Hwf) as (Hent & Hsel & _). destruct started_entry as [Hlive He].
  set (s2 := transport_starts (selection_start s)) in *.
  set (s3 := update_entry s2 p (λ e, select_unicast e 0)).
  assert (Hsize : RLV.size (entries_ s) = Z.of_nat (S (length ps))) by (unfold RLV.size; by rewrite Hp).
  destruct (sw_entry s Hwf p) as (Hwu & _ & Hnu & Hnm & Hmax & _); [rewrite Hp; by left|].
  assert (Hs4 : ∃ cap, selections_ first_picked =
      RLV.mk (RLV.configuration_ (selections_ s)) cap [0%nat] ∧
      entries_ first_picked = entries_ s ∧ store first_picked = store s3).
  { unfold first_picked. fold s2 s3. unfold select.
    change (entries_ s3) with (entries_ s2). change (selections_ s3) with (selections_ s2).
    rewrite Hent, Hsel, Hp. cbn [length]. simpl.
    destruct (RLV.push_back_room (RLV.clear (selections_ s)) 0%nat) as (_ & cap & -> & _).
    - apply RLV.clear_wf, Hwf.
    - pose proof (sw_room s Hwf). unfold RLV.size in *. simpl. lia.
    - exists cap. by rewrite <- Hent. }
  destruct Hs4 as (cap & Es & Ee & Est).
  assert (Hpick : entry first_picked 0 = select_unicast (entry_at s2 p) 0).
  { unfold entry. rewrite Ee, Hp. simpl. unfold entry_at. rewrite Est.
    change (entry_at s3 p = select_unicast (entry_at s2 p) 0). unfold s3.
    by rewrite entry_at_update, decide_True. }
  destruct (RLV.push_back_room (state_unicast (entry_reset (entry_at s p))) 0%nat Hwu) as (_ & cap' & Epb & _).
  { change (unicast (entry_reset (entry_at s p))) with (unicast (entry_at s p)) in Hmax.
    unfold RLV.size in *. rewrite Hnu. rewrite Hl in Hmax. cbn [length] in *. lia. }
  split; [by rewrite Es|]. unfold for_each, selected_size. rewrite Es. cbn [RLV.collection_ map fold_left].
  rewrite Hpick, He. unfold picked_multicast, picked_unicast, select_unicast, set_state.
  cbn [state_unicast state_multicast unicast multicast set_process].
  change (unicast (entry_reset (entry_at s p))) with (unicast (entry_at s p)).
  rewrite Epb, Hnm, Hnu. unfold RLV.size. rewrite Hnm.
  cbn [snd RLV.collection_ app omap list_omap length]. unfold RLV.at_. rewrite Hl. split; reflexivity.
Qed.
End selection.

(** The selection of these transports picks the first unicast locator of the
    first entry and nothing else, enabled or not.  A build with assertions accepts
    it exactly when there is one entry with one unicast locator and no multicast
    one; a build without them leaves out every other destination. *)
Theorem l2_selection s p ps l ls :
  selector_wf s →
  RLV.collection_ (LocatorSelector.entries_ s) = p :: ps →
  RLV.collection_ (LocatorSelector.unicast (LocatorSelector.entry_at s p)) = l :: ls →
  ∃ s', l2_select_locators true (LocatorSelector.selection_start s) = Done s' ∧
    LocatorSelector.for_each s' = [l] ∧
    l2_select_locators false (LocatorSelector.selection_start s) =
      (if bool_decide (ps = [] ∧ ls = [] ∧
           RLV.collection_ (LocatorSelector.multicast (LocatorSelector.entry_at s p)) = [])
       then Done s' else AssertFailed).
Proof.
  intros Hwf Hp Hl. destruct (first_picked_spec s p ps l ls Hwf Hp Hl) as (_ & Hfor & Hsize).
  destruct (started_spec s Hwf) as (Hent & Hsel & _). destruct (started_entry s p ps Hwf Hp) as [_ He].
  exists (first_picked s p). unfold l2_select_locators.
  rewrite Hent, Hp, He. split_and!; [done|done|].
  assert (Hzero : LocatorSelector.selected_size
    (LocatorSelector.transport_starts (LocatorSelector.selection_start s)) = 0)
    by (unfold LocatorSelector.selected_size; by rewrite Hsel).
  change (LocatorSelector.select _ 0) with (first_picked s p). rewrite Hzero, Hsize.
  unfold assert_, RLV.size. cbn [LocatorSelector.unicast LocatorSelector.multicast LocatorSelector.set_process].
  change (LocatorSelector.unicast (LocatorSelector.entry_reset ?e)) with (LocatorSelector.unicast e).
  change (LocatorSelector.multicast (LocatorSelector.entry_reset ?e)) with (LocatorSelector.multicast e).
  rewrite Hp, Hl.
  destruct ps as [|q ps].
  2: { rewrite (proj2 (Z.eqb_neq (Z.of_nat (length (p :: q :: ps))) 1)) by (cbn [length]; lia).
       rewrite bool_decide_eq_false_2 by (intros (? & _); done). done. }
  destruct (RLV.collection_ (LocatorSelector.multicast (LocatorSelector.entry_at s p))) as [|x xs].
  2: { rewrite bool_decide_eq_false_2 by (intros (_ & _ & ?); done). done. }
  destruct ls as [|y ls]; [by rewrite bool_decide_eq_true_2|].
  rewrite (proj2 (Z.eqb_neq (Z.of_nat (length (l :: y :: ls))) 1)) by (cbn [length]; lia).
  rewrite bool_decide_eq_false_2 by (intros (_ & ? & _); done). done.
Qed.

(** Three destinations: in a build without assertions only the first is used. *)
Lemma l2_selection_witness :
  ∃ s', l2_select_locators true (LocatorSelector.selection_start sample_selector) = Done s' ∧
    LocatorSelector.for_each s' = [loc 1] ∧
    l2_select_locators false (LocatorSelector.selection_start sample_selector) = AssertFailed.
Proof.
  apply (l2_selection sample_selector 100 [200; 300] (loc 1) []);
    [apply sample_selector_wf|reflexivity|reflexivity].
Defined.
