(* ===== verification/XskRing.v ===== *)
(** * The rings of an AF_XDP socket

    The interface of libxdp's rings that the XDP transport uses
    ([xsk_ring_prod__reserve], [xsk_ring_prod__submit], [xsk_ring_cons__peek],
    [xsk_ring_cons__release] and the accesses to their slots).  The library is not
    part of the repository: the transport is modelled over the operations of
    [ProdRing] and [ConsRing], and its properties are proved from their documented
    behaviour, [ProdLaws] and [ConsLaws].  Indices are 32-bit and wrap around.

    [Lists] implements both interfaces, so the laws can hold. *)

From S2P Require Import Prelude.

(** ** Producer rings *)

Class ProdRing (R A : Type) := {
  (** Number of slots reserved (all that were asked for, or none), index of the
      first one. *)
  reserve : R → Z → Z * Z * R;
  (** Storing through the pointer to a slot. *)
  write : R → Z → A → R;
  submit : R → Z → R
}.

(** A ring holds the entries submitted to the kernel and not yet consumed, and
    behind them the slots that are reserved and not submitted; [base] is the index
    of the first reserved slot.  A reserved slot holds an old entry until it is
    written. *)
Class ProdLaws (R A : Type) (ops : ProdRing R A) := {
  queue : R → list A;
  reserved : R → list A;
  base : R → Z;
  room : R → Z;
  reserve_ok r n : 0 <= n <= room r →
    ∃ r' old, reserve r n = (n, u32 (base r + Z.of_nat (length (reserved r))), r') ∧
      Z.of_nat (length old) = n ∧ queue r' = queue r ∧ reserved r' = reserved r ++ old ∧
      base r' = base r ∧ room r' = room r - n;
  reserve_full r n : room r < n →
    ∃ i r', reserve r n = (0, i, r') ∧ queue r' = queue r ∧ reserved r' = reserved r ∧
      base r' = base r ∧ room r' = room r;
  write_reserved r k a : (k < length (reserved r))%nat → Z.of_nat k < 2 ^ 32 →
    reserved (write r (u32 (base r + Z.of_nat k)) a) = <[k := a]> (reserved r);
  write_keeps r i a :
    queue (write r i a) = queue r ∧ base (write r i a) = base r ∧ room (write r i a) = room r;
  submit_queue r n : 0 <= n <= Z.of_nat (length (reserved r)) →
    queue (submit r n) = queue r ++ take (Z.to_nat n) (reserved r) ∧
    reserved (submit r n) = drop (Z.to_nat n) (reserved r) ∧
    base (submit r n) = u32 (base r + n) ∧ room (submit r n) = room r
}.

(** ** Consumer rings *)

Class ConsRing (R A : Type) := {
  (** Number of entries, at most as many as asked for, and index of the first. *)
  peek : R → Z → Z * Z * R;
  read : R → Z → A;
  release : R → Z → R
}.

(** A ring holds the entries that were peeked and not released, the first of them
    at the index [first], and behind them those still to be peeked. *)
Class ConsLaws (R A : Type) (ops : ConsRing R A) := {
  held : R → list A;
  waiting : R → list A;
  first : R → Z;
  peek_some r n : 0 <= n →
    ∃ m i r', peek r n = (m, i, r') ∧ 0 <= m <= n ∧ m <= Z.of_nat (length (waiting r)) ∧
      (0 < m → i = u32 (first r + Z.of_nat (length (held r)))) ∧
      held r' = held r ++ take (Z.to_nat m) (waiting r) ∧
      waiting r' = drop (Z.to_nat m) (waiting r) ∧ first r' = first r;
  read_held r k a : held r !! k = Some a → Z.of_nat k < 2 ^ 32 → read r (u32 (first r + Z.of_nat k)) = a;
  release_held r n : 0 <= n <= Z.of_nat (length (held r)) →
    held (release r n) = drop (Z.to_nat n) (held r) ∧ waiting (release r n) = waiting r ∧
    first (release r n) = u32 (first r + n)
}.

(** ** An implementation over lists *)

Module Lists.
Section lists.
Context {A : Type} (dummy : A).

Record prod := mkProd { p_queue : list A; p_reserved : list A; p_base : Z; p_room : Z }.

#[export] Instance prod_ops : ProdRing prod A := {
  reserve r n :=
    if n <=? p_room r then
      (n, u32 (p_base r + Z.of_nat (length (p_reserved r))),
       mkProd (p_queue r) (p_reserved r ++ replicate (Z.to_nat n) dummy) (p_base r) (p_room r - n))
    else (0, 0, r);
  write r i a :=
    mkProd (p_queue r) (<[Z.to_nat (u32 (i - p_base r)) := a]> (p_reserved r)) (p_base r) (p_room r);
  submit r n :=
    mkProd (p_queue r ++ take (Z.to_nat n) (p_reserved r)) (drop (Z.to_nat n) (p_reserved r))
      (u32 (p_base r + n)) (p_room r)
}.

Record cons := mkCons { c_held : list A; c_waiting : list A; c_first : Z }.

#[export] Instance cons_ops : ConsRing cons A := {
  peek r n :=
    let m := Z.min n (Z.of_nat (length (c_waiting r))) in
    (m, u32 (c_first r + Z.of_nat (length (c_held r))),
     mkCons (c_held r ++ take (Z.to_nat m) (c_waiting r)) (drop (Z.to_nat m) (c_waiting r)) (c_first r));
  read r i := default dummy (c_held r !! Z.to_nat (u32 (i - c_first r)));
  release r n := mkCons (drop (Z.to_nat n) (c_held r)) (c_waiting r) (u32 (c_first r + n))
}.

Lemma index_back b k : Z.of_nat k < 2 ^ 32 → Z.to_nat (u32 (u32 (b + Z.of_nat k) - b)) = k.
Proof using.
  intros Hk. unfold u32. rewrite Zminus_mod_idemp_l. replace (b + Z.of_nat k - b) with (Z.of_nat k) by lia.
  rewrite Z.mod_small by lia. apply Nat2Z.id.
Qed.

#[export] Program Instance prod_laws : ProdLaws prod A prod_ops := {
  queue := p_queue; reserved := p_reserved; base := p_base; room := p_room
}.
Next Obligation.
  intros r n Hn. cbn. destruct (Z.leb_spec n (p_room r)); [|lia].
  eexists _, (replicate (Z.to_nat n) dummy). split; [done|].
  rewrite length_replicate. split_and!; [lia|done..].
Qed.
Next Obligation.
  intros r n Hn. cbn. destruct (Z.leb_spec n (p_room r)); [lia|]. by exists 0, r.
Qed.
Next Obligation. intros r k a Hk Hb. cbn. by rewrite index_back. Qed.
Next Obligation. done. Qed.
Next Obligation. done. Qed.

#[export] Program Instance cons_laws : ConsLaws cons A cons_ops := {
  held := c_held; waiting := c_waiting; first := c_first
}.
Next Obligation.
  intros r n Hn. cbn. do 3 eexists. split; [done|]. split_and!; [lia..|done|done|done|done].
Qed.
Next Obligation. intros r k a Hk Hb. cbn. rewrite index_back by done. by rewrite Hk. Qed.
Next Obligation. done. Qed.

End lists.
End Lists.
