(* ===== verification/XDP.v ===== *)
(** * The XDP transport

    Frames of the packet buffer, sending and receiving of the XDP transport
    (ddsi_XDPTransport.cpp and .h, ddsi_XDPSenderResource.cpp), over the rings of
    [XskRing].  The frame and ring sizes are libxdp's constants and are parameters.

    The packet buffer is a map from the address of a packet to its octets from
    there on; the packets of different frames do not overlap.  Waking the kernel up
    ([sendto], [recvfrom]) changes no state of the program and is left out.  The
    receive thread polls: one round of its loop is [receive_round], which is [None]
    while the thread waits for slots of the fill ring. *)

From S2P Require Import Prelude Containers Guid Locator LocatorSelector L2 XskRing.
From stdpp Require Import gmap.

#[local] Open Scope Z_scope.

Module XDP.
Import Locator L2.

Definition NUM_FRAMES : Z := 4096.
Definition RX_BATCH_SIZE : Z := 64.
Definition INVALID_UMEM_FRAME : Z := UINT64_MAX.

(** [umem_free_frame_stack]. *)
Record umem_free_frame_stack := mkStack {
  umem_frame_addr : list Z;
  umem_frame_free : Z
}.

Record xdp_desc := mkDesc { addr : Z; len : Z }.

(** A call of [OnDataReceived]. *)
Record delivery := mkDelivery {
  payload : list Z;
  size : Z;
  local_locator : Locator_t;
  remote_locator : Locator_t
}.

Section xdp.
Context {TXR FR RXR CR : Type}.
Context `{!ProdRing TXR xdp_desc, !ProdRing FR Z, !ConsRing RXR xdp_desc, !ConsRing CR Z}.
Variable ndebug : bool.
(** [XSK_UMEM__DEFAULT_FRAME_SIZE] and [XSK_RING_PROD__DEFAULT_NUM_DESCS], also the
    number of descriptors of a consumer ring. *)
Variables FRAME_SIZE NUM_DESCS : Z.

Record xsk_socket_info := mkSocket {
  rxCompletionRing : RXR;
  txFillRing : TXR;
  rxFillRing : FR;
  txCompletionRing : CR;
  buffer : gmap Z (list Z);
  umem_frames_tx : umem_free_frame_stack;
  umem_frames_rx : umem_free_frame_stack;
  pendingTransmits : Z
}.

Definition with_rings (x : xsk_socket_info) (rx : RXR) (tx : TXR) (fill : FR) (comp : CR)
    : xsk_socket_info :=
  mkSocket rx tx fill comp (buffer x) (umem_frames_tx x) (umem_frames_rx x) (pendingTransmits x).

Definition with_rx (x : xsk_socket_info) (r : RXR) : xsk_socket_info :=
  with_rings x r (txFillRing x) (rxFillRing x) (txCompletionRing x).
Definition with_tx (x : xsk_socket_info) (r : TXR) : xsk_socket_info :=
  with_rings x (rxCompletionRing x) r (rxFillRing x) (txCompletionRing x).
Definition with_fill (x : xsk_socket_info) (r : FR) : xsk_socket_info :=
  with_rings x (rxCompletionRing x) (txFillRing x) r (txCompletionRing x).
Definition with_comp (x : xsk_socket_info) (r : CR) : xsk_socket_info :=
  with_rings x (rxCompletionRing x) (txFillRing x) (rxFillRing x) r.

Definition with_pending (x : xsk_socket_info) (n : Z) : xsk_socket_info :=
  mkSocket (rxCompletionRing x) (txFillRing x) (rxFillRing x) (txCompletionRing x) (buffer x)
    (umem_frames_tx x) (umem_frames_rx x) n.

Definition frame_stack (x : xsk_socket_info) (is_tx : bool) : umem_free_frame_stack :=
  if is_tx then umem_frames_tx x else umem_frames_rx x.

Definition with_stack (x : xsk_socket_info) (is_tx : bool) (s : umem_free_frame_stack)
    : xsk_socket_info :=
  mkSocket (rxCompletionRing x) (txFillRing x) (rxFillRing x) (txCompletionRing x) (buffer x)
    (if is_tx then s else umem_frames_tx x) (if is_tx then umem_frames_rx x else s)
    (pendingTransmits x).

Definition xsk_umem_free_frames (x : xsk_socket_info) (is_tx : bool) : Z :=
  umem_frame_free (frame_stack x is_tx).

(** [xsk_umem__get_data]: the octets at an address. *)
Definition frame_at (x : xsk_socket_info) (a : Z) : list Z := from_option id [] (buffer x !! a).

(** Writing [data] at the start of a packet. *)
Definition store (x : xsk_socket_info) (a : Z) (data : list Z) : xsk_socket_info :=
  mkSocket (rxCompletionRing x) (txFillRing x) (rxFillRing x) (txCompletionRing x)
    (<[a := data ++ drop (length data) (frame_at x a)]> (buffer x))
    (umem_frames_tx x) (umem_frames_rx x) (pendingTransmits x).

(** ** Frames *)

Definition frame_in_range (frame : Z) : bool := frame <? NUM_FRAMES * FRAME_SIZE.

Definition xsk_alloc_umem_frame (x : xsk_socket_info) (is_tx : bool)
    : outcome (Z * xsk_socket_info) :=
  let s := frame_stack x is_tx in
  if umem_frame_free s =? 0 then Done (INVALID_UMEM_FRAME, x)
  else
    let free := umem_frame_free s - 1 in
    match umem_frame_addr s !! Z.to_nat free with
    | None => Undefined
    | Some frame =>
        let s := mkStack (<[Z.to_nat free := INVALID_UMEM_FRAME]> (umem_frame_addr s)) free in
        assert_ ndebug (frame_in_range frame);;
        Done (frame, with_stack x is_tx s)
    end.

Definition xsk_free_umem_frame (x : xsk_socket_info) (frame : Z) (is_tx : bool)
    : outcome xsk_socket_info :=
  let s := frame_stack x is_tx in
  let fits := umem_frame_free s <? Z.of_nat (length (umem_frame_addr s)) in
  assert_ ndebug fits;;
  if fits then
    let s := mkStack (<[Z.to_nat (umem_frame_free s) := frame]> (umem_frame_addr s))
               (u32 (umem_frame_free s + 1)) in
    assert_ ndebug (frame_in_range frame);;
    Done (with_stack x is_tx s)
  else Undefined.

(** ** Sending *)

Definition FRAME_DATA_SIZE : Z := FRAME_SIZE - HEADER_SIZE.

Fixpoint collect_loop (completed : nat) (x : xsk_socket_info) (i : Z) : outcome xsk_socket_info :=
  match completed with
  | O => Done x
  | S completed =>
      x ← xsk_free_umem_frame x (read (txCompletionRing x) i) true;
      collect_loop completed x (u32 (i + 1))
  end.

(** The collection of the completed transmissions. *)
Definition collect_completed (x : xsk_socket_info) : outcome xsk_socket_info :=
  let '(completed, i, r) := peek (txCompletionRing x) NUM_DESCS in
  let x := with_comp x r in
  if 0 <? completed then
    x ← collect_loop (Z.to_nat completed) x i;
    let x := with_comp x (release (txCompletionRing x) completed) in
    Done (with_pending x (s32 (pendingTransmits x - completed)))
  else Done x.

(** The header of a frame to [dst]. *)
Definition ethernet_header (dst : Locator_t) (mac : list Z) (h_proto : Z) : list Z :=
  take 6 (drop 10 (address dst)) ++ take 6 mac ++ le_bytes 2 h_proto.

(** The lambda of the sender resource, on the locators of the iterator range. *)
Definition send (x : xsk_socket_info) (localMacAddress : list Z) (destinations : list Locator_t)
    (data : list Z) : outcome (bool * xsk_socket_info) :=
  match destinations with
  | [] => Undefined
  | dst :: rest =>
      assert_ ndebug (bool_decide (rest = []));;
      '(frame, x) ← xsk_alloc_umem_frame x true;
      if frame =? INVALID_UMEM_FRAME then assert_ ndebug false;; Done (false, x)
      else
        let '(ret, tx_idx, r) := reserve (txFillRing x) 1 in
        let x := with_tx x r in
        if negb (ret =? 1) then
          x ← xsk_free_umem_frame x frame true;
          Done (false, x)
        else
          assert_ ndebug (port dst <? UINT16_MAX);;
          h_proto ← get_ethertype_for_port ndebug (u16 (port dst));
          assert_ ndebug (is_valid_ethertype h_proto);;
          let header := ethernet_header dst localMacAddress h_proto in
          let x := store x frame header in
          let total_bytes := Z.of_nat (length data) in
          if FRAME_DATA_SIZE <=? total_bytes then Done (false, x)
          else
            let x := store x frame (header ++ data) in
            let txDescriptor := mkDesc frame (get_packet_size total_bytes HEADER_SIZE) in
            let x := with_tx x (submit (write (txFillRing x) tx_idx txDescriptor) 1) in
            let x := with_pending x (s32 (pendingTransmits x + 1)) in
            x ← collect_completed x;
            Done (true, x)
  end.

(** ** Receiving *)

Definition l2_locator (p : Z) (mac : list Z) : Locator_t :=
  set_octets (of_kind_port XDP_TRANSPORT_KIND p) (copy_mac_address_and_zero 10 mac).

(** What the receiver is given for a packet, if its ethertype is one of ours. *)
Definition process_packet (packet : list Z) (length : Z) : outcome (option delivery) :=
  let h_proto := read_u16 packet 12 in
  if is_valid_ethertype h_proto then
    p ← get_port_for_ethertype ndebug h_proto;
    let bytes_received := get_payload_size length HEADER_SIZE in
    Done (Some (mkDelivery (take (Z.to_nat bytes_received) (drop 14 packet)) bytes_received
      (l2_locator p (take 6 packet)) (l2_locator p (take 6 (drop 6 packet)))))
  else Done None.

Fixpoint process_loop (packets : nat) (x : xsk_socket_info) (idx_rx : Z)
    : outcome (list delivery * xsk_socket_info) :=
  match packets with
  | O => Done ([], x)
  | S packets =>
      let rxDescriptor := read (rxCompletionRing x) idx_rx in
      d ← process_packet (frame_at x (addr rxDescriptor)) (len rxDescriptor);
      x ← xsk_free_umem_frame x (addr rxDescriptor) false;
      let x := with_rx x (release (rxCompletionRing x) 1) in
      '(ds, x) ← process_loop packets x (u32 (idx_rx + 1));
      Done (match d with Some d => d :: ds | None => ds end, x)
  end.

Fixpoint fill_loop (stock_frames : nat) (x : xsk_socket_info) (idx_fq : Z)
    : outcome xsk_socket_info :=
  match stock_frames with
  | O => Done x
  | S stock_frames =>
      '(frame, x) ← xsk_alloc_umem_frame x false;
      fill_loop stock_frames (with_fill x (write (rxFillRing x) idx_fq frame)) (u32 (idx_fq + 1))
  end.

(** Giving [stock_frames] frames to the kernel; [None] when there are not as many
    slots, where the thread tries again. *)
Definition restock (x : xsk_socket_info) (stock_frames : Z) : outcome (option xsk_socket_info) :=
  let '(ret, idx_fq, r) := reserve (rxFillRing x) stock_frames in
  if ret =? stock_frames then
    x ← fill_loop (Z.to_nat stock_frames) (with_fill x r) idx_fq;
    Done (Some (with_fill x (submit (rxFillRing x) stock_frames)))
  else Done None.

Definition receive_round (x : xsk_socket_info)
    : outcome (option (list delivery * xsk_socket_info)) :=
  let '(packetsReceived, idx_rx, r) := peek (rxCompletionRing x) RX_BATCH_SIZE in
  let x := with_rx x r in
  if 0 <? packetsReceived then
    '(ds, x) ← process_loop (Z.to_nat packetsReceived) x idx_rx;
    x ← restock x packetsReceived;
    Done (x ← x; Some (ds, x))
  else Done (Some ([], x)).

(** ** Configuration *)

Definition initial_stack (first_frame : Z) : umem_free_frame_stack :=
  mkStack ((λ i, (first_frame + i) * FRAME_SIZE) <$> seqZ 0 (NUM_FRAMES / 2)) (NUM_FRAMES / 2).

(** [xsk_configure_socket] on the rings of a socket; [created] and [entered] tell
    whether libxdp could create the socket and enter it in the map of the filter.
    The receive path is given its frames by the same steps as in [restock]; here
    the failure to reserve the slots is returned. *)
Definition xsk_configure_socket (created entered : bool) (rx : RXR) (tx : TXR) (fill : FR)
    (comp : CR) : outcome (option xsk_socket_info) :=
  if negb created || negb entered then Done None
  else
    restock (mkSocket rx tx fill comp ∅ (initial_stack 0) (initial_stack (NUM_FRAMES / 2)) 0)
      (NUM_DESCS - 1).

End xdp.
Arguments xsk_socket_info : clear implicits.

(** ** Channels *)

Record xdp_transport := mkXDP {
  l2 : l2_transport;
  (** Whether a receiver is registered. *)
  receiverInterface : bool;
  output_channels_open : Z
}.

Definition make_xdp_transport : xdp_transport := mkXDP (make_transport XDP_TRANSPORT_KIND) false 0.

(** The transport and whether a sender resource is added to the list. *)
Definition OpenOutputChannel (ndebug : bool) (t : xdp_transport) (locator : Locator_t)
    : outcome (bool * xdp_transport) :=
  assert_ ndebug (kind locator =? transport_kind_ (l2 t));;
  Done (output_channels_open t =? 0,
        mkXDP (l2 t) (receiverInterface t) (s32 (output_channels_open t + 1))).

Definition OpenOutputChannels (ndebug : bool) (t : xdp_transport) (unicast multicast : list Locator_t)
    : outcome (bool * xdp_transport) :=
  assert_ ndebug (Z.of_nat (length unicast) + Z.of_nat (length multicast) =? 1);;
  match unicast, multicast with
  | l :: _, _ => OpenOutputChannel ndebug t l
  | [], l :: _ => OpenOutputChannel ndebug t l
  | [], [] => Undefined
  end.

(** A second receiver aborts the process. *)
Definition OpenInputChannel (t : xdp_transport) : outcome xdp_transport :=
  if receiverInterface t then Exited else Done (mkXDP (l2 t) true (output_channels_open t)).

Definition IsInputChannelOpen (ndebug : bool) (t : xdp_transport) (locator : Locator_t) : outcome bool :=
  assert_ ndebug (kind locator =? transport_kind_ (l2 t));;
  Done (receiverInterface t).

Definition CloseInputChannel (t : xdp_transport) (locator : Locator_t) : bool := false.

Definition max_recv_buffer_size : Z := 4096.

End XDP.
