(* ===== verification/XDPFacts.v ===== *)
(** * Properties of the XDP transport

    The frames of the packet buffer are conserved: every frame is in exactly one
    place, and sending and receiving move frames without losing or duplicating
    any, for every implementation of the rings that obeys their laws.  A packet
    that is sent is delivered with its payload and addresses.  The exception, a
    message that is too big, is stated as well. *)

From S2P Require Import Prelude Containers Guid Locator LocatorSelector LocatorSelectorFacts.
From S2P Require Import L2 L2Facts XskRing XDP.
From stdpp Require Import gmap.

#[local] Open Scope Z_scope.

Import L2 XDP.

(** ** Stacks of free frames *)

Definition free_frames (s : umem_free_frame_stack) : list Z :=
  take (Z.to_nat (umem_frame_free s)) (umem_frame_addr s).

Definition stack_wf (s : umem_free_frame_stack) : Prop :=
  Z.of_nat (length (umem_frame_addr s)) = NUM_FRAMES / 2 ∧ 0 <= umem_frame_free s <= NUM_FRAMES / 2.

Lemma length_free_frames s : stack_wf s → Z.of_nat (length (free_frames s)) = umem_frame_free s.
Proof. intros [Hl Hf]. unfold free_frames. rewrite length_take. lia. Qed.

Lemma half_frames : NUM_FRAMES / 2 = 2048.
Proof. reflexivity. Qed.

Lemma u32_succ b k : u32 (u32 (b + Z.of_nat k) + 1) = u32 (b + Z.of_nat (S k)).
Proof. unfold u32. rewrite Zplus_mod_idemp_l. f_equal. lia. Qed.

(** Moving a segment to the end of the list. *)
Lemma perm_move {A} (l t q k d : list A) : (l ++ t) ++ q ++ k ++ d ≡ₚ l ++ q ++ k ++ t ++ d.
Proof.
  rewrite <- app_assoc. f_equiv. rewrite (Permutation_app_swap_app t q). f_equiv.
  apply Permutation_app_swap_app.
Qed.

Lemma perm_send {A} (f : A) (d q k w : list A) : d ++ q ++ f :: k ++ w ≡ₚ f :: q ++ k ++ d ++ w.
Proof.
  rewrite <- (Permutation_middle q), <- (Permutation_middle d). constructor.
  rewrite (Permutation_app_swap_app d q). f_equiv. apply Permutation_app_swap_app.
Qed.

Lemma perm_restock {A} (f q t r : list A) : f ++ (q ++ t) ++ r ≡ₚ (t ++ f) ++ q ++ r.
Proof.
  rewrite <- !app_assoc, (Permutation_app_swap_app q t r). apply Permutation_app_swap_app.
Qed.

Section xdp.
Context {TXR FR RXR CR : Type}.
Context {tx_ops : ProdRing TXR xdp_desc} {fill_ops : ProdRing FR Z}.
Context {rx_ops : ConsRing RXR xdp_desc} {comp_ops : ConsRing CR Z}.
Context {tx_laws : ProdLaws TXR xdp_desc tx_ops} {fill_laws : ProdLaws FR Z fill_ops}.
Context {rx_laws : ConsLaws RXR xdp_desc rx_ops} {comp_laws : ConsLaws CR Z comp_ops}.
Context (ndebug : bool) (FRAME_SIZE NUM_DESCS : Z).
Context (Hfs : HEADER_SIZE < FRAME_SIZE <= UINT16_MAX) (Hnd : 0 < NUM_DESCS <= NUM_FRAMES / 2).

Abbreviation socket := (xsk_socket_info TXR FR RXR CR).

(** The socket with other stacks of frames only. *)
Implicit Types x : socket.

Definition in_range (a : Z) : Prop := 0 <= a < NUM_FRAMES * FRAME_SIZE.

Lemma in_range_true a : in_range a → frame_in_range FRAME_SIZE a = true.
Proof using Hfs Hnd. intros [_ H]. by apply Z.ltb_lt. Qed.

Lemma in_range_valid a : in_range a → (a =? INVALID_UMEM_FRAME) = false.
Proof using Hfs Hnd.
  intros [? H]. apply Z.eqb_neq. unfold INVALID_UMEM_FRAME, NUM_FRAMES in *. range_unfold. lia.
Qed.

Lemma alloc_frame x is_tx :
  stack_wf (frame_stack x is_tx) → 0 < umem_frame_free (frame_stack x is_tx) →
  Forall in_range (free_frames (frame_stack x is_tx)) →
  ∃ frame s, xsk_alloc_umem_frame ndebug FRAME_SIZE x is_tx = Done (frame, with_stack x is_tx s) ∧
    stack_wf s ∧ free_frames (frame_stack x is_tx) = free_frames s ++ [frame] ∧ in_range frame.
Proof using Hfs Hnd.
  set (s := frame_stack x is_tx). intros [Hlen Hfree] Hpos Hall. unfold xsk_alloc_umem_frame. fold s.
  destruct (Z.eqb_spec (umem_frame_free s) 0) as [|Hne]; [lia|].
  set (n := Z.to_nat (umem_frame_free s - 1)).
  destruct (lookup_lt_is_Some_2 (umem_frame_addr s) n) as [frame Hframe]; [lia|]. rewrite Hframe.
  assert (Hff : free_frames s = take n (umem_frame_addr s) ++ [frame]).
  { unfold free_frames. replace (Z.to_nat (umem_frame_free s)) with (S n) by lia.
    by apply take_S_r. }
  assert (Hin : in_range frame) by (rewrite Hff, Forall_app, Forall_singleton in Hall; tauto).
  rewrite assert_true by by apply in_range_true. cbn.
  eexists frame, _. split_and!; [done| | |done].
  - unfold stack_wf; cbn. rewrite length_insert. lia.
  - rewrite Hff. unfold free_frames; cbn. fold n. by rewrite take_insert_ge by lia.
Qed.

Lemma alloc_empty x is_tx :
  umem_frame_free (frame_stack x is_tx) = 0 →
  xsk_alloc_umem_frame ndebug FRAME_SIZE x is_tx = Done (INVALID_UMEM_FRAME, x).
Proof using Hfs Hnd. intros H. unfold xsk_alloc_umem_frame. by rewrite H. Qed.

Lemma free_frame x frame is_tx :
  stack_wf (frame_stack x is_tx) → umem_frame_free (frame_stack x is_tx) < NUM_FRAMES / 2 →
  in_range frame →
  ∃ s, xsk_free_umem_frame ndebug FRAME_SIZE x frame is_tx = Done (with_stack x is_tx s) ∧
    stack_wf s ∧ free_frames s = free_frames (frame_stack x is_tx) ++ [frame].
Proof using Hfs Hnd.
  set (s := frame_stack x is_tx). intros [Hlen Hfree] Hlt Hin. unfold xsk_free_umem_frame. fold s.
  assert (Hfit : (umem_frame_free s <? Z.of_nat (length (umem_frame_addr s))) = true)
    by (apply Z.ltb_lt; lia).
  cbv zeta. rewrite Hfit, !assert_true by (done || by apply in_range_true). cbn. eexists. split_and!; [done| |].
  - unfold stack_wf; cbn. rewrite length_insert, u32_small by (rewrite half_frames in *; range_unfold; lia). lia.
  - unfold free_frames; cbn. rewrite u32_small by (rewrite half_frames in *; range_unfold; lia).
    replace (Z.to_nat (umem_frame_free s + 1)) with (S (Z.to_nat (umem_frame_free s))) by lia.
    rewrite (take_S_r _ _ frame); [by rewrite take_insert_ge by lia|].
    apply list_lookup_insert_eq. lia.
Qed.
(** ** Sending *)

(** The frames of the sending half. *)
Definition tx_addresses : list Z := (λ i, i * FRAME_SIZE) <$> seqZ 0 (NUM_FRAMES / 2).

(** Every frame of the sending half is free, in the hands of the kernel, or between
    the two in a ring; [kernel] lists those the kernel has consumed and not yet
    completed. *)
Record tx_inv x (kernel : list Z) : Prop := {
  tx_stack : stack_wf (umem_frames_tx x);
  tx_conserved :
    free_frames (umem_frames_tx x) ++ (addr <$> queue (txFillRing x)) ++ kernel ++
      waiting (txCompletionRing x) ≡ₚ tx_addresses;
  tx_reserved : reserved (txFillRing x) = [];
  tx_held : held (txCompletionRing x) = []
}.

Lemma tx_addresses_range : Forall in_range tx_addresses.
Proof using Hfs Hnd.
  apply Forall_forall. intros a Ha. apply list_elem_of_fmap in Ha as (i & -> & Hi).
  apply elem_of_seqZ in Hi. unfold in_range, NUM_FRAMES in *. change (4096 / 2) with 2048 in Hi.
  unfold HEADER_SIZE in Hfs. nia.
Qed.

Lemma length_tx_addresses : Z.of_nat (length tx_addresses) = NUM_FRAMES / 2.
Proof using Hfs Hnd. unfold tx_addresses. rewrite length_fmap, length_seqZ. reflexivity. Qed.

(** The frames in the four places add up, and are frames of the buffer. *)
Lemma tx_inv_range x kernel :
  tx_inv x kernel →
  Forall in_range (free_frames (umem_frames_tx x)) ∧ Forall in_range (waiting (txCompletionRing x)) ∧
  umem_frame_free (umem_frames_tx x) + Z.of_nat (length (queue (txFillRing x))) +
    Z.of_nat (length kernel) + Z.of_nat (length (waiting (txCompletionRing x))) = NUM_FRAMES / 2.
Proof using Hfs Hnd.
  intros [Hst Hc _ _]. pose proof tx_addresses_range as Hr. rewrite <- Hc, !Forall_app in Hr.
  pose proof length_tx_addresses as Hl. rewrite <- Hc, !length_app, length_fmap in Hl.
  rewrite <- (length_free_frames _ Hst). split_and!; [tauto|tauto|lia].
Qed.

Lemma collect_loop_ok n k x :
  stack_wf (umem_frames_tx x) → umem_frame_free (umem_frames_tx x) + Z.of_nat n <= NUM_FRAMES / 2 →
  (k + n <= length (held (txCompletionRing x)))%nat → Z.of_nat (k + n) <= 2 ^ 32 →
  Forall in_range (held (txCompletionRing x)) →
  ∃ s, collect_loop ndebug FRAME_SIZE n x (u32 (first (txCompletionRing x) + Z.of_nat k))
      = Done (with_stack x true s) ∧ stack_wf s ∧
    free_frames s = free_frames (umem_frames_tx x) ++ take n (drop k (held (txCompletionRing x))).
Proof using Hfs Hnd.
  revert k x. induction n as [|n IH]; intros k x Hst Hfree Hk Hb Hr; cbn [collect_loop].
  { exists (umem_frames_tx x). rewrite take_0, app_nil_r. split_and!; [by destruct x|done|done]. }
  destruct (lookup_lt_is_Some_2 (held (txCompletionRing x)) k) as [a Ha]; [lia|].
  rewrite (read_held _ k a Ha) by lia.
  assert (Hra : in_range a) by (rewrite Forall_forall in Hr; apply Hr; by eapply list_elem_of_lookup_2).
  destruct (free_frame x a true) as (s1 & -> & Hs1 & Hf1); [done|cbn; lia|done|]. cbn [mbind outcome_bind].
  rewrite u32_succ.
  pose proof (length_free_frames _ Hs1) as Hl1. rewrite Hf1, length_app in Hl1. cbn in Hl1.
  pose proof (length_free_frames _ Hst) as Hl.
  destruct (IH (S k) (with_stack x true s1)) as (s2 & E2 & Hs2 & Hf2); cbn; [done|lia|lia|lia|done|].
  cbn in E2. rewrite E2.
  exists s2. split_and!; [done|done|].
  rewrite Hf2. cbn. rewrite Hf1, <- app_assoc. f_equal.
  by rewrite (drop_S _ a k Ha).
Qed.

(** What the collection of completions relies on. *)
Record collectable x : Prop := {
  col_stack : stack_wf (umem_frames_tx x);
  col_held : held (txCompletionRing x) = [];
  col_range : Forall in_range (waiting (txCompletionRing x));
  col_fits : umem_frame_free (umem_frames_tx x) + Z.of_nat (length (waiting (txCompletionRing x)))
               <= NUM_FRAMES / 2
}.

(** [x'] is [x] with the completions [done_] back on the stack of free frames. *)
Record collected x (done_ : list Z) x' : Prop := {
  cd_stack : stack_wf (umem_frames_tx x');
  cd_free : free_frames (umem_frames_tx x') = free_frames (umem_frames_tx x) ++ done_;
  cd_waiting : waiting (txCompletionRing x) = done_ ++ waiting (txCompletionRing x');
  cd_held : held (txCompletionRing x') = [];
  cd_tx : txFillRing x' = txFillRing x;
  cd_buffer : buffer x' = buffer x
}.

Lemma collect_completed_ok x :
  collectable x →
  ∃ x' done_, collect_completed ndebug FRAME_SIZE NUM_DESCS x = Done x' ∧ collected x done_ x'.
Proof using Hfs Hnd.
  intros [Hst Hheld Hrw Hsum]. unfold collect_completed.
  destruct (peek_some (txCompletionRing x) NUM_DESCS) as (m & i & r & -> & Hm & Hmw & Hi & Hh & Hw & Hfirst); [lia|].
  rewrite Hheld in Hh, Hi. cbn in Hh, Hi.
  destruct (Z.ltb_spec 0 m) as [Hpos|Hzero]; cycle 1.
  { assert (m = 0) as -> by lia. exists (with_comp x r), []. split; [done|].
    split; cbn; [done|by rewrite app_nil_r|by rewrite Hw|by rewrite Hh|done|done]. }
  assert (Hlen : Z.of_nat (length (held r)) = m) by (rewrite Hh, length_take; lia).
  specialize (Hi Hpos). rewrite Z.add_0_r, <- Hfirst in Hi.
  destruct (collect_loop_ok (Z.to_nat m) 0 (with_comp x r)) as (st & E & Hst' & Hf').
  { done. } { cbn. lia. } { cbn. lia. } { cbn. change (2 ^ 32) with 4294967296. pose proof half_frames. lia. }
  { cbn. rewrite Hh. by apply Forall_take. }
  cbn in E, Hf'. rewrite Z.add_0_r in E. subst i. rewrite E. cbn [mbind outcome_bind].
  destruct (release_held r m) as (Rh & Rw & _); [lia|].
  rewrite Hh, drop_0, take_take, Nat.min_id in Hf'.
  eexists _, _. split; [done|]. split; cbn; [done|exact Hf'| | |done|done].
  - by rewrite Rw, Hw, take_drop.
  - rewrite Rh. apply drop_ge. lia.
Qed.

Lemma tx_collectable x kernel : tx_inv x kernel → collectable x.
Proof using Hfs Hnd.
  intros Hinv. pose proof (tx_inv_range x kernel Hinv) as (_ & Hrw & Hsum).
  destruct Hinv. split; [done|done|done|lia].
Qed.

(** What is sent to [dst]: the header, and behind it the data. *)
Definition packet_for (mac : list Z) (dst : Locator.Locator_t) (data : list Z) : list Z :=
  ethernet_header dst mac (u16 (Locator.port dst + ETHER_TYPE_BASE)) ++ data.

(** A port that [send] takes: with assertions its ethertype has to be one the receiver
    looks at. *)
Definition sendable (p : Z) : Prop := 0 <= p <= LAST_PORT ∨ ndebug = true ∧ 0 <= p <= UINT16_MAX.

(** The path of [send] up to the size check, once a frame and a slot are there. *)
Lemma header_steps {A} (dst : Locator.Locator_t) (k : Z → outcome A) :
  sendable (Locator.port dst) →
  (assert_ ndebug (Locator.port dst <? UINT16_MAX);;
   h ← get_ethertype_for_port ndebug (u16 (Locator.port dst));
   assert_ ndebug (is_valid_ethertype h);; k h)
  = k (u16 (Locator.port dst + ETHER_TYPE_BASE)).
Proof using Hfs Hnd.
  intros [Hp|[-> Hp]]; [|by rewrite (u16_small (Locator.port dst)) by (range_unfold; lia)].
  unfold LAST_PORT, ETHER_TYPE_MAX, ETHER_TYPE_BASE in Hp.
  rewrite assert_true by (apply Z.ltb_lt; range_unfold; lia). cbn [mbind outcome_bind].
  rewrite (u16_small (Locator.port dst)) by (range_unfold; lia).
  rewrite ethertype_for_port by (unfold ETHER_TYPE_MAX; lia). cbn [mbind outcome_bind].
  rewrite assert_true; [done|].
  apply ethertype_valid; unfold LAST_PORT, ETHER_TYPE_MAX, ETHER_TYPE_BASE; range_unfold; lia.
Qed.

(** With assertions the other ports stop it. *)
Lemma header_stops {A} (dst : Locator.Locator_t) (k : Z → outcome A) :
  ndebug = false → LAST_PORT < Locator.port dst <= UINT16_MAX →
  (assert_ ndebug (Locator.port dst <? UINT16_MAX);;
   h ← get_ethertype_for_port ndebug (u16 (Locator.port dst));
   assert_ ndebug (is_valid_ethertype h);; k h) = AssertFailed.
Proof using Hfs Hnd.
  intros -> Hp. unfold assert_ at 1. cbn [orb]. destruct (Locator.port dst <? UINT16_MAX); [cbn [mbind outcome_bind]|done].
  assert (0 <= Locator.port dst) as H0 by (unfold LAST_PORT, ETHER_TYPE_MAX, ETHER_TYPE_BASE in Hp; lia).
  rewrite (u16_small (Locator.port dst)) by (range_unfold; lia). unfold get_ethertype_for_port, assert_ at 1. cbn [orb].
  destruct (Locator.port dst <? ETHER_TYPE_MAX); [cbn [mbind outcome_bind]|done].
  destruct (is_valid_ethertype _) eqn:Hv; [|done]. apply ethertype_valid in Hv; lia.
Qed.

(** Taking a frame off the stack before it is used. *)
Lemma tx_alloc x kernel :
  tx_inv x kernel → 0 < umem_frame_free (umem_frames_tx x) →
  ∃ frame st, xsk_alloc_umem_frame ndebug FRAME_SIZE x true = Done (frame, with_stack x true st) ∧
    stack_wf st ∧ free_frames (umem_frames_tx x) = free_frames st ++ [frame] ∧ in_range frame.
Proof using Hfs Hnd.
  intros Hinv Hpos. apply (alloc_frame x true); [apply Hinv|done|]. by apply (tx_inv_range x kernel).
Qed.

Lemma send_no_slot x kernel mac dst data :
  tx_inv x kernel → 0 < umem_frame_free (umem_frames_tx x) → room (txFillRing x) < 1 →
  ∃ x', send ndebug FRAME_SIZE NUM_DESCS x mac [dst] data = Done (false, x') ∧ tx_inv x' kernel ∧
    queue (txFillRing x') = queue (txFillRing x).
Proof using Hfs Hnd.
  intros Hinv Hpos Hroom. destruct (tx_alloc x kernel Hinv Hpos) as (frame & st & Ea & Hst & Hf & Hr).
  destruct Hinv as [Hst0 Hc Hres Hheld].
  unfold send. rewrite (assert_true ndebug (bool_decide (@nil Locator.Locator_t = []))) by done.
  cbn [mbind outcome_bind].
  rewrite Ea. cbn [mbind outcome_bind]. rewrite in_range_valid by done.
  destruct (reserve_full (txFillRing x) 1 Hroom) as (i & r & Er & Rq & Rr & _).
  cbn [txFillRing with_stack]. rewrite Er. cbn [negb Z.eqb].
  pose proof (length_free_frames _ Hst0) as Hl0. pose proof (length_free_frames _ Hst) as Hl1.
  rewrite Hf, length_app in Hl0. cbn in Hl0. destruct Hst0 as [_ Hb0].
  destruct (free_frame (with_tx (with_stack x true st) r) frame true) as (st' & Ef & Hst' & Hf');
    [done|cbn; lia|done|].
  rewrite Ef. cbn. eexists. split; [done|]. split; [|done].
  split; cbn; [done|by rewrite Hf', Rq; cbn; rewrite <- Hf|by rewrite Rr|done].
Qed.

(** Sending a message that fits, whatever slots are reserved already: the first
    reserved slot is submitted, and the message is in the last one. *)
Lemma send_steps x mac dst data frame st :
  xsk_alloc_umem_frame ndebug FRAME_SIZE x true = Done (frame, with_stack x true st) →
  in_range frame → collectable (with_stack x true st) →
  1 <= room (txFillRing x) → Z.of_nat (length (reserved (txFillRing x))) < 2 ^ 32 →
  sendable (Locator.port dst) → Z.of_nat (length data) < FRAME_DATA_SIZE FRAME_SIZE →
  let d := mkDesc frame (HEADER_SIZE + Z.of_nat (length data)) in
  ∃ x2 x3 done_, send ndebug FRAME_SIZE NUM_DESCS x mac [dst] data = Done (true, x3) ∧
    collected x2 done_ x3 ∧ umem_frames_tx x2 = st ∧ txCompletionRing x2 = txCompletionRing x ∧
    queue (txFillRing x3) = queue (txFillRing x) ++ take 1 (reserved (txFillRing x) ++ [d]) ∧
    reserved (txFillRing x3) = drop 1 (reserved (txFillRing x) ++ [d]) ∧
    ∃ rest, frame_at x3 frame = packet_for mac dst data ++ rest.
Proof using Hfs Hnd.
  intros Ea Hr Hcol Hroom Hshort Hp Hsize d0.
  unfold send. rewrite (assert_true ndebug (bool_decide (@nil Locator.Locator_t = []))) by done.
  cbn [mbind outcome_bind]. rewrite Ea. cbn [mbind outcome_bind]. rewrite in_range_valid by done.
  destruct (reserve_ok (txFillRing x) 1) as (r & old & Er & Hold & Rq & Rr & Rb & _); [lia|].
  cbn [txFillRing with_stack]. rewrite Er. cbn [negb Z.eqb Pos.eqb]. rewrite header_steps by done.
  destruct (Z.leb_spec (FRAME_DATA_SIZE FRAME_SIZE) (Z.of_nat (length data))); [lia|].
  assert (Hd : mkDesc frame (get_packet_size (Z.of_nat (length data)) HEADER_SIZE) = d0).
  { unfold d0, get_packet_size, FRAME_DATA_SIZE, HEADER_SIZE in *. f_equal.
    rewrite u64_small, u16_small by (range_unfold; lia).
    destruct (Z.ltb_spec UINT16_MAX (Z.of_nat (length data) + 14)); [range_unfold; lia|lia]. }
  rewrite Hd. set (i := u32 (base (txFillRing x) + Z.of_nat (length (reserved (txFillRing x))))) in *.
  set (w := write r i d0). destruct old as [|o [|]]; cbn in Hold; [lia| |lia].
  assert (Hw : reserved w = reserved (txFillRing x) ++ [d0]).
  { unfold w, i. rewrite <- Rb, write_reserved by (rewrite ?Rr, ?length_app; cbn; lia).
    rewrite Rr, insert_app_r_alt by lia. by rewrite Nat.sub_diag. }
  destruct (write_keeps r i d0) as (Wq & _). fold w in Wq.
  destruct (submit_queue w 1) as (Sq & Sr & _); [rewrite Hw, length_app; cbn; lia|].
  rewrite Hw in Sq, Sr. change (Z.to_nat 1) with 1%nat in Sq, Sr.
  match goal with |- context [collect_completed ndebug FRAME_SIZE NUM_DESCS ?y] => set (x2 := y) end.
  destruct (collect_completed_ok x2) as (x3 & done_ & Ec & Hcd); [destruct Hcol; by split|].
  rewrite Ec. cbn [mbind outcome_bind]. exists x2, x3, done_. pose proof Hcd as [_ _ _ _ Etx Ebuf].
  split_and!; [done|done|done|done| | |].
  - rewrite Etx. cbn. fold w. by rewrite Sq, Wq, Rq.
  - rewrite Etx. cbn. fold w. by rewrite Sr.
  - eexists. unfold frame_at. rewrite Ebuf. cbn. rewrite lookup_insert_eq. cbn. unfold packet_for. done.
Qed.

(** Taking the frame leaves the rest collectable. *)
Lemma alloc_collectable x st frame :
  collectable x → stack_wf st → free_frames (umem_frames_tx x) = free_frames st ++ [frame] →
  collectable (with_stack x true st).
Proof using Hfs Hnd.
  intros [Hst Hh Hr Hsum] Hst' Hf. pose proof (length_free_frames _ Hst) as Hl.
  pose proof (length_free_frames _ Hst') as Hl'. rewrite Hf, length_app in Hl. cbn in Hl.
  split; cbn; [done|done|done|lia].
Qed.

Lemma send_ok x kernel mac dst data :
  tx_inv x kernel → 0 < umem_frame_free (umem_frames_tx x) → 1 <= room (txFillRing x) →
  sendable (Locator.port dst) → Z.of_nat (length data) < FRAME_DATA_SIZE FRAME_SIZE →
  ∃ x' frame rest, send ndebug FRAME_SIZE NUM_DESCS x mac [dst] data = Done (true, x') ∧
    tx_inv x' kernel ∧
    queue (txFillRing x') = queue (txFillRing x) ++ [mkDesc frame (HEADER_SIZE + Z.of_nat (length data))] ∧
    frame_at x' frame = packet_for mac dst data ++ rest.
Proof using Hfs Hnd.
  intros Hinv Hpos Hroom Hp Hsize.
  destruct (tx_alloc x kernel Hinv Hpos) as (frame & st & Ea & Hst & Hf & Hr).
  pose proof (alloc_collectable x st frame (tx_collectable x kernel Hinv) Hst Hf) as Hcol.
  destruct Hinv as [Hst0 Hc Hres Hheld].
  destruct (send_steps x mac dst data frame st Ea Hr Hcol Hroom) as
    (x2 & x3 & done_ & E & [Cs Cf Cw Ch _ _] & Es & Ecr & Hq & Hrs & rest & Hfr);
    [rewrite Hres; cbn; lia|done|done|].
  rewrite Hres in Hq, Hrs. cbn in Hq, Hrs.
  exists x3, frame, rest. split_and!; [done| |done|done]. split; [done| |done|done].
  rewrite Hq, Cf, Es, fmap_app. rewrite Ecr in Cw. rewrite <- Hc, Hf, Cw. cbn.
  rewrite <- !app_assoc. f_equiv. cbn. etrans; [apply perm_send|done].
Qed.

(** A message that is too big: the frame and the slot taken for it are kept. *)
Lemma send_too_big x mac dst data frame st :
  xsk_alloc_umem_frame ndebug FRAME_SIZE x true = Done (frame, with_stack x true st) →
  in_range frame → 1 <= room (txFillRing x) →
  sendable (Locator.port dst) → FRAME_DATA_SIZE FRAME_SIZE <= Z.of_nat (length data) →
  ∃ x' old, send ndebug FRAME_SIZE NUM_DESCS x mac [dst] data = Done (false, x') ∧
    umem_frames_tx x' = st ∧ txCompletionRing x' = txCompletionRing x ∧
    queue (txFillRing x') = queue (txFillRing x) ∧
    reserved (txFillRing x') = reserved (txFillRing x) ++ [old] ∧
    room (txFillRing x') = room (txFillRing x) - 1.
Proof using Hfs Hnd.
  intros Ea Hr Hroom Hp Hsize.
  unfold send. rewrite (assert_true ndebug (bool_decide (@nil Locator.Locator_t = []))) by done.
  cbn [mbind outcome_bind]. rewrite Ea. cbn [mbind outcome_bind]. rewrite in_range_valid by done.
  destruct (reserve_ok (txFillRing x) 1) as (r & old & Er & Hold & Rq & Rr & Rb & Rm); [lia|].
  cbn [txFillRing with_stack]. rewrite Er. cbn [negb Z.eqb Pos.eqb]. rewrite header_steps by done.
  destruct (Z.leb_spec (FRAME_DATA_SIZE FRAME_SIZE) (Z.of_nat (length data))); [|lia].
  destruct old as [|o [|]]; cbn in Hold; [lia| |lia].
  eexists _, o. split; [done|]. cbn. by split_and!.
Qed.

(** ** Receiving *)

(** The frame an address lies in; the kernel may leave room in front of a packet. *)
Definition chunk (a : Z) : Z := a / FRAME_SIZE.

(** Every frame of the receiving half is free, in the fill ring, in the hands of the
    kernel ([kernel]), or in a packet to be received.  All of them but
    [NUM_FRAMES / 2 - NUM_DESCS + 1] are in use, one less than the fill ring has
    slots. *)
Record rx_inv x (kernel : list Z) : Prop := {
  rx_stack : stack_wf (umem_frames_rx x);
  rx_conserved :
    chunk <$> (free_frames (umem_frames_rx x) ++ queue (rxFillRing x) ++ kernel ++
                 (addr <$> waiting (rxCompletionRing x)))
      ≡ₚ seqZ (NUM_FRAMES / 2) (NUM_FRAMES / 2);
  rx_free : umem_frame_free (umem_frames_rx x) = NUM_FRAMES / 2 - (NUM_DESCS - 1);
  rx_reserved : reserved (rxFillRing x) = [];
  rx_held : held (rxCompletionRing x) = [];
  rx_room : room (rxFillRing x) = NUM_DESCS - Z.of_nat (length (queue (rxFillRing x)))
}.

Lemma chunk_range a : NUM_FRAMES / 2 <= chunk a < NUM_FRAMES → in_range a.
Proof using Hfs Hnd.
  unfold chunk, in_range, HEADER_SIZE in *. intros [H1 H2]. change (NUM_FRAMES / 2) with 2048 in H1.
  pose proof (Z.mul_div_le a FRAME_SIZE). pose proof (Z.mul_succ_div_gt a FRAME_SIZE).
  unfold NUM_FRAMES in *. nia.
Qed.

Lemma rx_inv_range x kernel :
  rx_inv x kernel →
  Forall in_range (free_frames (umem_frames_rx x)) ∧
  Forall in_range (addr <$> waiting (rxCompletionRing x)) ∧
  umem_frame_free (umem_frames_rx x) + Z.of_nat (length (queue (rxFillRing x))) +
    Z.of_nat (length kernel) + Z.of_nat (length (waiting (rxCompletionRing x))) = NUM_FRAMES / 2.
Proof using Hfs Hnd.
  intros [Hst Hc _ _ _ _].
  assert (Hr : Forall (λ c, NUM_FRAMES / 2 <= c < NUM_FRAMES) (seqZ (NUM_FRAMES / 2) (NUM_FRAMES / 2))).
  { apply Forall_forall. intros c Hin. apply elem_of_seqZ in Hin. change (NUM_FRAMES / 2) with 2048 in *.
    unfold NUM_FRAMES. lia. }
  pose proof (length_seqZ (NUM_FRAMES / 2) (NUM_FRAMES / 2)) as Hl.
  rewrite <- Hc in Hr, Hl. rewrite Forall_fmap, !Forall_app in Hr.
  rewrite !fmap_app, !length_app, !length_fmap in Hl. pose proof (length_free_frames _ Hst).
  destruct Hr as (H1 & _ & _ & H2). split_and!; [..|pose proof half_frames; lia];
    (eapply Forall_impl; [eassumption|]); intros a; apply chunk_range.
Qed.

(** What the receiver is given for the packets described by [ds]. *)
Definition delivered x (ds : list xdp_desc) : list delivery :=
  omap (λ d, let packet := frame_at x (addr d) in
    let h_proto := read_u16 packet 12 in
    if is_valid_ethertype h_proto then
      let bytes := get_payload_size (len d) HEADER_SIZE in
      let p := u16 (h_proto - ETHER_TYPE_BASE) in
      Some (mkDelivery (take (Z.to_nat bytes) (drop 14 packet)) bytes
              (l2_locator p (take 6 packet)) (l2_locator p (take 6 (drop 6 packet))))
    else None) ds.

(** Processing a packet does not fail: the ethertype is checked before the port is
    taken from it. *)
Lemma process_packet_total packet n :
  process_packet ndebug packet n = Done
    (if is_valid_ethertype (read_u16 packet 12) then
       let bytes := get_payload_size n HEADER_SIZE in
       let p := u16 (read_u16 packet 12 - ETHER_TYPE_BASE) in
       Some (mkDelivery (take (Z.to_nat bytes) (drop 14 packet)) bytes
              (l2_locator p (take 6 packet)) (l2_locator p (take 6 (drop 6 packet))))
     else None).
Proof using Hfs Hnd.
  unfold process_packet. destruct (is_valid_ethertype (read_u16 packet 12)) eqn:E; [|done].
  unfold get_port_for_ethertype. by rewrite assert_true.
Qed.

Lemma process_loop_ok n x :
  stack_wf (umem_frames_rx x) → umem_frame_free (umem_frames_rx x) + Z.of_nat n <= NUM_FRAMES / 2 →
  (n <= length (held (rxCompletionRing x)))%nat →
  Forall in_range (addr <$> held (rxCompletionRing x)) →
  ∃ st r, process_loop ndebug FRAME_SIZE n x (u32 (first (rxCompletionRing x)))
      = Done (delivered x (take n (held (rxCompletionRing x))), with_rx (with_stack x false st) r) ∧
    stack_wf st ∧
    free_frames st = free_frames (umem_frames_rx x) ++ (addr <$> take n (held (rxCompletionRing x))) ∧
    held r = drop n (held (rxCompletionRing x)) ∧ waiting r = waiting (rxCompletionRing x).
Proof using Hfs Hnd.
  revert x. induction n as [|n IH]; intros x Hst Hfree Hn Hr; cbn [process_loop].
  { exists (umem_frames_rx x), (rxCompletionRing x). rewrite app_nil_r.
    split_and!; [by destruct x|done|done|done|done]. }
  destruct (held (rxCompletionRing x)) as [|d ds] eqn:Hh; cbn in Hn; [lia|].
  assert (Hread : read (rxCompletionRing x) (u32 (first (rxCompletionRing x))) = d).
  { rewrite <- (Z.add_0_r (first _)). apply (read_held _ 0); [by rewrite Hh|done]. }
  rewrite Hread, process_packet_total. cbn [mbind outcome_bind].
  rewrite fmap_cons, Forall_cons in Hr. destruct Hr as [Hrd Hr].
  destruct (free_frame x (addr d) false) as (s1 & E1 & Hs1 & Hf1); [done|cbn; lia|done|].
  rewrite E1. cbn [mbind outcome_bind].
  destruct (release_held (rxCompletionRing x) 1) as (Rh & Rw & Rf); [rewrite Hh; cbn; lia|].
  rewrite Hh in Rh. change (drop (Z.to_nat 1) (d :: ds)) with ds in Rh.
  pose proof (length_free_frames _ Hs1) as Hl1. rewrite Hf1, length_app in Hl1. cbn in Hl1.
  pose proof (length_free_frames _ Hst) as Hl.
  destruct (IH (with_rx (with_stack x false s1) (release (rxCompletionRing x) 1)))
    as (s2 & r2 & E2 & Hs2 & Hf2 & Hh2 & Hw2); cbn; [done|lia|rewrite Rh; lia|by rewrite Rh|].
  exists s2, r2. cbn in E2, Hf2, Hh2, Hw2. rewrite Rf in E2.
  replace (u32 (u32 (first (rxCompletionRing x)) + 1)) with (u32 (u32 (first (rxCompletionRing x) + 1)))
    by (unfold u32; rewrite Zplus_mod_idemp_l, Z.mod_mod by done; done).
  cbn. rewrite E2. rewrite Rh in *. cbn. split_and!; [|done| |done|congruence].
  - unfold delivered. cbn. by destruct (is_valid_ethertype _).
  - rewrite Hf2, Hf1, <- app_assoc. done.
Qed.

Lemma fill_loop_ok n k x :
  stack_wf (umem_frames_rx x) → Z.of_nat n <= umem_frame_free (umem_frames_rx x) →
  Forall in_range (free_frames (umem_frames_rx x)) →
  length (reserved (rxFillRing x)) = (k + n)%nat → Z.of_nat (k + n) < 2 ^ 32 →
  ∃ st fs r, fill_loop ndebug FRAME_SIZE n x (u32 (base (rxFillRing x) + Z.of_nat k))
      = Done (with_fill (with_stack x false st) r) ∧ stack_wf st ∧ length fs = n ∧
    free_frames (umem_frames_rx x) ≡ₚ fs ++ free_frames st ∧
    queue r = queue (rxFillRing x) ∧ room r = room (rxFillRing x) ∧
    reserved r = take k (reserved (rxFillRing x)) ++ fs.
Proof using Hfs Hnd.
  revert k x. induction n as [|n IH]; intros k x Hst Hn Hr Hlen Hb; cbn [fill_loop].
  { exists (umem_frames_rx x), [], (rxFillRing x). rewrite app_nil_r, take_ge by lia.
    split_and!; try done. by destruct x. }
  destruct (alloc_frame x false) as (f & s1 & E1 & Hs1 & Hf1 & Hrf); [done|cbn; lia|done|].
  rewrite E1. cbn [mbind outcome_bind]. rewrite u32_succ. cbn in Hf1.
  set (w := write (rxFillRing x) (u32 (base (rxFillRing x) + Z.of_nat k)) f).
  assert (Hw : reserved w = <[k := f]> (reserved (rxFillRing x))) by (apply write_reserved; lia).
  destruct (write_keeps (rxFillRing x) (u32 (base (rxFillRing x) + Z.of_nat k)) f) as (Wq & Wb & Wr).
  fold w in Wq, Wb, Wr.
  pose proof (length_free_frames _ Hst) as Hl. pose proof (length_free_frames _ Hs1) as Hl1.
  rewrite Hf1 in Hr, Hl. rewrite Forall_app in Hr. rewrite length_app in Hl. cbn in Hl.
  destruct (IH (S k) (with_fill (with_stack x false s1) w)) as (s2 & fs & r & E2 & Hs2 & Hlf & Hp & Hq & Hm & Hres);
    cbn; [done|lia|tauto|rewrite Hw, length_insert; lia|lia|].
  cbn in E2, Hp, Hq, Hm, Hres. rewrite Wb in E2. cbn. fold w. rewrite E2.
  exists s2, (f :: fs), r. split_and!; [done|done|cbn; lia| |congruence|congruence|].
  - rewrite Hf1, Hp. rewrite <- Permutation_cons_append. done.
  - rewrite Hres, Hw, (take_S_r _ k f) by (apply list_lookup_insert_eq; lia).
    rewrite take_insert_ge, <- app_assoc by lia. done.
Qed.

Lemma restock_ok n x :
  stack_wf (umem_frames_rx x) → 0 <= n <= umem_frame_free (umem_frames_rx x) →
  Forall in_range (free_frames (umem_frames_rx x)) →
  reserved (rxFillRing x) = [] → n <= room (rxFillRing x) →
  ∃ st fs r, restock ndebug FRAME_SIZE x n = Done (Some (with_fill (with_stack x false st) r)) ∧
    stack_wf st ∧ Z.of_nat (length fs) = n ∧
    free_frames (umem_frames_rx x) ≡ₚ fs ++ free_frames st ∧
    queue r = queue (rxFillRing x) ++ fs ∧ reserved r = [] ∧ room r = room (rxFillRing x) - n.
Proof using Hfs Hnd.
  intros Hst Hn Hr Hres Hroom. pose proof (proj2 Hst) as Hb. unfold restock.
  destruct (reserve_ok (rxFillRing x) n) as (r & old & -> & Hold & Rq & Rr & Rb & Rm); [lia|].
  rewrite Z.eqb_refl, Hres in *. cbn [length app] in *. rewrite <- Rb.
  destruct (fill_loop_ok (Z.to_nat n) 0 (with_fill x r)) as (st & fs & r2 & E & Hs & Hl & Hp & Hq & Hm & Hres2).
  { done. } { cbn. lia. } { done. } { cbn. rewrite Rr. lia. }
  { change (2 ^ 32) with 4294967296. pose proof half_frames. cbn. lia. }
  cbn in E, Hp, Hq, Hm, Hres2. rewrite take_0 in Hres2. cbn [app] in Hres2. rewrite E. cbn [mbind outcome_bind].
  destruct (submit_queue r2 n) as (Sq & Sr & _ & Sm); [rewrite Hres2; lia|].
  rewrite Hres2 in Sq, Sr. cbn [app] in Sq, Sr. rewrite take_ge in Sq by lia. rewrite drop_ge in Sr by lia.
  exists st, fs, (submit r2 n). split_and!; [done|done|lia|done| |done|]; cbn; congruence.
Qed.

(** C28: a round of the receive thread conserves the frames, whatever the packets
    are: it hands the packets with one of our ethertypes to the receiver in the
    order of the ring, gives every frame back to the kernel, and never waits for a
    slot or runs out of frames. *)
Theorem receive_conserves_frames x kernel :
  rx_inv x kernel →
  ∃ ds m x', receive_round ndebug FRAME_SIZE x = Done (Some (ds, x')) ∧ rx_inv x' kernel ∧
    ds = delivered x (take m (waiting (rxCompletionRing x))) ∧
    waiting (rxCompletionRing x') = drop m (waiting (rxCompletionRing x)).
Proof using Hfs Hnd.
  intros Hinv. pose proof (rx_inv_range x kernel Hinv) as (Hrf & Hrw & Hsum).
  destruct Hinv as [Hst Hc Hfree Hres Hheld Hroom]. unfold receive_round.
  destruct (peek_some (rxCompletionRing x) RX_BATCH_SIZE) as (m & i & r & -> & Hm & Hmw & Hi & Hh & Hw & Hfirst);
    [unfold RX_BATCH_SIZE; lia|].
  rewrite Hheld in Hh, Hi. cbn [app length] in Hh, Hi.
  destruct (Z.ltb_spec 0 m) as [Hpos|Hzero]; cycle 1.
  { assert (m = 0) as -> by lia. exists [], 0%nat, (with_rx x r).
    split_and!; [done| |done|exact Hw]. split; cbn; rewrite ?Hw, ?Hh; done. }
  specialize (Hi Hpos). rewrite Z.add_0_r, <- Hfirst in Hi. subst i.
  assert (Hlen : length (held r) = Z.to_nat m) by (rewrite Hh, length_take; lia).
  destruct (process_loop_ok (Z.to_nat m) (with_rx x r)) as (s1 & r1 & E1 & Hs1 & Hf1 & Hh1 & Hw1).
  { done. } { cbn. lia. } { cbn. lia. } { cbn. rewrite Hh, fmap_take. by apply Forall_take. }
  cbn in E1, Hf1, Hh1, Hw1. rewrite take_ge in E1, Hf1 by lia. rewrite drop_ge in Hh1 by lia.
  rewrite E1. cbn [mbind outcome_bind].
  pose proof (length_free_frames _ Hs1) as Hl1. pose proof (length_free_frames _ Hst) as Hl.
  rewrite Hf1, length_app, length_fmap in Hl1.
  set (x1 := with_rx (with_stack (with_rx x r) false s1) r1).
  destruct (restock_ok m x1) as (s2 & fs & f & E2 & Hs2 & Hlf & Hp & Hq & Hr2 & Hm2).
  { done. } { cbn. lia. } { cbn. rewrite Hf1, Hh, fmap_take. apply Forall_app. split; [done|by apply Forall_take]. }
  { done. } { cbn. lia. }
  rewrite E2. cbn [mbind outcome_bind option_bind]. cbn in Hp, Hq, Hm2.
  eexists _, (Z.to_nat m), _. split; [done|]. cbn. rewrite Hw1, Hw. split_and!; [|by rewrite Hh|done].
  pose proof (length_free_frames _ Hs2) as Hl2. apply Permutation_length in Hp as Hpl.
  rewrite Hf1, !length_app, length_fmap in Hpl.
  split; cbn; [done| |lia|done|done|rewrite Hm2, Hq, length_app; lia].
  rewrite <- Hc, Hq, Hw1, Hw. apply fmap_Permutation.
  rewrite <- (take_drop (Z.to_nat m) (waiting (rxCompletionRing x))) at 2.
  rewrite fmap_app, <- perm_move, <- Hh, <- Hf1, Hp.
  apply perm_restock.
Qed.

(** ** Packets *)

Lemma header_parts mac dst h :
  length (Locator.address dst) = 16%nat → length mac = 6%nat →
  ethernet_header dst mac h = drop 10 (Locator.address dst) ++ mac ++ le_bytes 2 h.
Proof using Hfs Hnd.
  intros Ha Hm. unfold ethernet_header. by rewrite !firstn_all2 by (rewrite ?length_drop; lia).
Qed.

(** A packet read back by the receiver. *)
Lemma packet_read mac dst data :
  length (Locator.address dst) = 16%nat → length mac = 6%nat →
  let packet := packet_for mac dst data in
  length packet = (14 + length data)%nat ∧ take 6 packet = drop 10 (Locator.address dst) ∧
  take 6 (drop 6 packet) = mac ∧ drop 14 packet = data ∧
  read_u16 packet 12 = u16 (Locator.port dst + ETHER_TYPE_BASE).
Proof using Hfs Hnd.
  intros Ha Hm packet. unfold packet, packet_for, read_u16. rewrite header_parts by done.
  set (h := u16 (Locator.port dst + ETHER_TYPE_BASE)). set (to := drop 10 (Locator.address dst)).
  assert (Hto : length to = 6%nat) by (unfold to; rewrite length_drop; lia).
  pose proof (length_le_bytes 2 h) as Hl. rewrite <- !app_assoc. split_and!.
  - rewrite !length_app. lia.
  - by rewrite take_app_length'.
  - by rewrite drop_app_length', take_app_length' by done.
  - rewrite (drop_app_ge to), Hto by lia. rewrite drop_app_ge, Hm by lia. by rewrite drop_app_length' by lia.
  - rewrite (drop_app_ge to), Hto by lia. rewrite drop_app_length' by lia. rewrite take_app_length' by lia.
    apply le_val_bytes. pose proof (u16_range (Locator.port dst + ETHER_TYPE_BASE)). fold h in H.
    change (256 ^ Z.of_nat 2) with (2 ^ 16). done.
Qed.

(** ** The properties *)

(** A configured socket has all its frames: the sending half is free, and the
    receiving half is with the kernel but for the frames the fill ring has no
    slot for. *)
Theorem configured_socket rx tx fill comp :
  queue tx = [] → reserved tx = [] → queue fill = [] → reserved fill = [] → room fill = NUM_DESCS →
  held rx = [] → waiting rx = [] → held comp = [] → waiting comp = [] →
  ∃ x : socket, xsk_configure_socket ndebug FRAME_SIZE NUM_DESCS true true rx tx fill comp
      = Done (Some x) ∧
    tx_inv x [] ∧ rx_inv x [] ∧ Z.of_nat (length (queue (rxFillRing x))) = NUM_DESCS - 1.
Proof using Hfs Hnd.
  intros Hqt Hrt Hqf Hrf Hroom Hhr Hwr Hhc Hwc. unfold xsk_configure_socket. cbn [negb orb].
  assert (Hwf : ∀ k, stack_wf (initial_stack FRAME_SIZE k) ∧
    free_frames (initial_stack FRAME_SIZE k) = (λ i, (k + i) * FRAME_SIZE) <$> seqZ 0 (NUM_FRAMES / 2)).
  { intros k. split; [split; cbn; [by rewrite length_fmap, length_seqZ|pose proof half_frames; lia]|].
    unfold free_frames; cbn. apply take_ge. rewrite length_fmap, length_seqZ. lia. }
  set (x0 := mkSocket _ _ _ _ _ _ _ _). destruct (Hwf (NUM_FRAMES / 2)) as [Hw2 Hf2]. destruct (Hwf 0) as [Hw1 Hf1].
  assert (Hch : chunk <$> free_frames (umem_frames_rx x0) = seqZ (NUM_FRAMES / 2) (NUM_FRAMES / 2)).
  { cbn. rewrite Hf2, <- list_fmap_compose.
    transitivity (Z.add (NUM_FRAMES / 2) <$> seqZ 0 (NUM_FRAMES / 2)); [|by rewrite fmap_add_seqZ, Z.add_0_r].
    apply list_fmap_ext. intros _ i _. unfold chunk; cbn. unfold HEADER_SIZE in Hfs. by rewrite Z.div_mul by lia. }
  destruct (restock_ok (NUM_DESCS - 1) x0) as (st & fs & r & E & Hs & Hl & Hp & Hq & Hr & Hm).
  { done. } { cbn. lia. }
  { apply Forall_forall. intros a Ha. apply chunk_range.
    assert (Hin : chunk a ∈ chunk <$> free_frames (umem_frames_rx x0)) by (apply list_elem_of_fmap; eauto).
    rewrite Hch in Hin. apply elem_of_seqZ in Hin. pose proof half_frames. unfold NUM_FRAMES in *. lia. }
  { done. } { cbn. lia. }
  exists (with_fill (with_stack x0 false st) r). split; [exact E|]. cbn in Hq. rewrite Hqf in Hq. cbn in Hq, Hm.
  split_and!; [| |cbn; rewrite Hq; lia].
  - split; cbn; [done| |done|done]. rewrite Hqt, Hwc, Hf1. by rewrite app_nil_r.
  - pose proof (length_free_frames _ Hs). apply Permutation_length in Hp as Hpl.
    pose proof (length_free_frames _ Hw2). rewrite length_app in Hpl. cbn in *.
    split; cbn; [done| |lia|done|done|rewrite Hq; lia].
    rewrite Hq, Hwr. cbn. rewrite !app_nil_r, <- Hch, Hp. apply fmap_Permutation, Permutation_app_comm.
Qed.

(** C27: sending a message that fits conserves the frames.  It succeeds exactly when
    a slot of the ring is free; without a slot the frame goes back and nothing is
    queued; without a free frame a build with assertions stops and another one
    reports the failure. *)
Theorem send_conserves_frames x kernel mac dst data :
  tx_inv x kernel → 0 <= Locator.port dst <= LAST_PORT →
  Z.of_nat (length data) < FRAME_DATA_SIZE FRAME_SIZE →
  (umem_frame_free (umem_frames_tx x) = 0 →
   send ndebug FRAME_SIZE NUM_DESCS x mac [dst] data = if ndebug then Done (false, x) else AssertFailed) ∧
  (0 < umem_frame_free (umem_frames_tx x) →
   ∃ sent x', send ndebug FRAME_SIZE NUM_DESCS x mac [dst] data = Done (sent, x') ∧
     tx_inv x' kernel ∧ (sent = true ↔ 1 <= room (txFillRing x)) ∧
     length (queue (txFillRing x')) = (length (queue (txFillRing x)) + if sent then 1 else 0)%nat).
Proof using Hfs Hnd.
  intros Hinv Hp Hsize. split.
  - intros H0. unfold send. rewrite (assert_true ndebug (bool_decide (@nil Locator.Locator_t = []))) by done.
    cbn [mbind outcome_bind]. rewrite (alloc_empty x true H0). cbn. by destruct ndebug.
  - intros Hpos. destruct (Z_le_gt_dec 1 (room (txFillRing x))) as [Hroom|Hroom].
    + destruct (send_ok x kernel mac dst data) as (x' & frame & rest & E & Hinv' & Hq & _); [done|done|done|by left|done|].
      exists true, x'. rewrite Hq, length_app. by split_and!.
    + destruct (send_no_slot x kernel mac dst data) as (x' & E & Hinv' & Hq); [done|done|lia|].
      exists false, x'. rewrite Hq, Nat.add_0_r. split_and!; [done|done|split; [done|lia]|done].
Qed.

(** C29: a message that was queued is delivered unchanged: the packet passes the
    filter of the kernel, and the receiver is given the data with the port and the
    hardware addresses of both sides. *)
Theorem sent_is_received x kernel mac dst data :
  tx_inv x kernel → 0 < umem_frame_free (umem_frames_tx x) → 1 <= room (txFillRing x) →
  0 <= Locator.port dst <= LAST_PORT → Z.of_nat (length data) < FRAME_DATA_SIZE FRAME_SIZE →
  length (Locator.address dst) = 16%nat → length mac = 6%nat →
  ∃ x' d, send ndebug FRAME_SIZE NUM_DESCS x mac [dst] data = Done (true, x') ∧
    queue (txFillRing x') = queue (txFillRing x) ++ [d] ∧
    let packet := take (Z.to_nat (len d)) (frame_at x' (addr d)) in
    (data ≠ [] → xdp_sock_prog packet true = XDP_REDIRECT) ∧
    process_packet ndebug packet (len d) = Done (Some
      (mkDelivery data (Z.of_nat (length data))
        (l2_locator (Locator.port dst) (drop 10 (Locator.address dst)))
        (l2_locator (Locator.port dst) mac))).
Proof using Hfs Hnd.
  intros Hinv Hpos Hroom Hp Hsize Ha Hm.
  destruct (send_ok x kernel mac dst data) as (x' & frame & rest & E & _ & Hq & Hfr); [done|done|done|by left|done|].
  destruct (packet_read mac dst data Ha Hm) as (Hlen & Hto & Hfrom & Hdata & Hproto).
  exists x', (mkDesc frame (HEADER_SIZE + Z.of_nat (length data))). split_and!; [done|done|]. cbn.
  rewrite Hfr, take_app_length' by (rewrite Hlen; unfold HEADER_SIZE; lia).
  assert (Hv : is_valid_ethertype (read_u16 (packet_for mac dst data) 12) = true).
  { rewrite Hproto. apply ethertype_valid; unfold LAST_PORT, ETHER_TYPE_MAX, ETHER_TYPE_BASE in *;
      range_unfold; lia. }
  split.
  - intros Hne. apply filter_spec; [|done]. rewrite Hlen. unfold HEADER_SIZE.
    destruct data; [done|]. cbn [length]. lia.
  - rewrite process_packet_total, Hv, Hto, Hfrom, Hdata, Hproto. cbv zeta.
    unfold get_payload_size, FRAME_DATA_SIZE, HEADER_SIZE in *.
    destruct (Z.ltb_spec (14 + Z.of_nat (length data)) 14); [lia|].
    destruct (Z.ltb_spec UINT16_MAX 14); [range_unfold; lia|].
    destruct (Z.ltb_spec UINT16_MAX (14 + Z.of_nat (length data))); [lia|]. cbn [orb].
    replace (u16 (14 + Z.of_nat (length data) - 14)) with (Z.of_nat (length data))
      by (rewrite u16_small; range_unfold; lia).
    rewrite Nat2Z.id, firstn_all2 by done.
    replace (u16 (u16 (Locator.port dst + ETHER_TYPE_BASE) - ETHER_TYPE_BASE)) with (Locator.port dst); [done|].
    unfold LAST_PORT, ETHER_TYPE_MAX, ETHER_TYPE_BASE in *. clear - Hp. mlia.
Qed.

(** The frame is taken and the slot reserved before the port is looked at. *)
Lemma send_stops x kernel mac dst data :
  tx_inv x kernel → 0 < umem_frame_free (umem_frames_tx x) → 1 <= room (txFillRing x) →
  ndebug = false → LAST_PORT < Locator.port dst <= UINT16_MAX →
  send ndebug FRAME_SIZE NUM_DESCS x mac [dst] data = AssertFailed.
Proof using Hfs Hnd.
  intros Hinv Hpos Hroom Hdebug Hp. destruct (tx_alloc x kernel Hinv Hpos) as (frame & st & Ea & _ & _ & Hr).
  unfold send. rewrite (assert_true ndebug (bool_decide (@nil Locator.Locator_t = []))) by done.
  cbn [mbind outcome_bind]. rewrite Ea. cbn [mbind outcome_bind]. rewrite in_range_valid by done.
  destruct (reserve_ok (txFillRing x) 1) as (r & old & Er & _); [lia|].
  cbn [txFillRing with_stack]. rewrite Er. cbn [negb Z.eqb Pos.eqb]. by apply header_stops.
Qed.

(** Where the participants of a domain announce themselves. *)
Definition announced (d : Z) : Locator.Locator_t :=
  setLocatorBroadcastAddress (Locator.of_kind_port XDP_TRANSPORT_KIND (7400 + 250 * d)).

Lemma announced_port d : 0 <= d <= 232 → Locator.port (announced d) = 7400 + 250 * d ∧ (7400 + 250 * d <= LAST_PORT ↔ d <= 3).
Proof using. intros Hd. split; [done|]. unfold LAST_PORT, ETHER_TYPE_MAX, ETHER_TYPE_BASE. lia. Qed.

(** C36: with the default port parameters the announcements of a participant are sent over
    XDP to the port 7400 + 250 * domain.  They get through only in the domains 0 to 3: from
    domain 4 on a build with assertions stops when it sends one, and another build sends a
    frame that the filter of the receiver leaves to its kernel. *)
Theorem discovery_domains x kernel mac data d :
  tx_inv x kernel → 0 < umem_frame_free (umem_frames_tx x) → 1 <= room (txFillRing x) → length mac = 6%nat →
  data ≠ [] → Z.of_nat (length data) < FRAME_DATA_SIZE FRAME_SIZE → 0 <= d <= 232 →
  configureInitialPeerLocator false (setLocatorBroadcastAddress (Locator.of_kind_port XDP_TRANSPORT_KIND 0))
    PortParameters.default_ports d [] = Done [announced d] ∧
  (ndebug = false → 4 <= d → send ndebug FRAME_SIZE NUM_DESCS x mac [announced d] data = AssertFailed) ∧
  (ndebug = true ∨ d <= 3 → ∃ x' t, send ndebug FRAME_SIZE NUM_DESCS x mac [announced d] data = Done (true, x') ∧
    queue (txFillRing x') = queue (txFillRing x) ++ [t] ∧
    (xdp_sock_prog (take (Z.to_nat (len t)) (frame_at x' (addr t))) true = XDP_REDIRECT ↔ d <= 3)).
Proof using Hfs Hnd.
  intros Hinv Hpos Hroom Hm Hne Hsize Hd. destruct (announced_port d Hd) as [Ep Hlast]. split; [by apply initial_peer|]. split.
  - intros Hdebug Hd4. apply (send_stops x kernel); [done..|]. rewrite Ep. range_unfold. lia.
  - intros Hok. destruct (send_ok x kernel mac (announced d) data) as (x' & frame & rest & E & _ & Hq & Hfr); [done|done|done| |done|].
    { unfold sendable. rewrite Ep. destruct Hok; [right; split; [done|range_unfold; lia]|left; lia]. }
    exists x', (mkDesc frame (HEADER_SIZE + Z.of_nat (length data))). split; [done|]. split; [done|]. cbn [addr len].
    destruct (packet_read mac (announced d) data eq_refl Hm) as (Hlen & _ & _ & _ & Hproto).
    rewrite Hfr, take_app_length' by (rewrite Hlen; unfold HEADER_SIZE; lia). rewrite filter_spec, Hproto, Ep.
    + rewrite ethertype_valid by (range_unfold; lia). done.
    + rewrite Hlen. unfold HEADER_SIZE. destruct data; [done|]. cbn [length]. lia.
Qed.

Lemma tx_addresses_nodup : NoDup tx_addresses.
Proof using Hfs Hnd.
  apply NoDup_fmap_2; [|apply NoDup_seqZ]. intros i j Hij. unfold HEADER_SIZE in Hfs. nia.
Qed.

(** C39: a message that is too big is refused, but the frame and the ring slot taken
    for it are not given back: the frame is in none of the four places any more,
    and the next message submits the slot that was never filled, while its own
    descriptor stays behind in the ring. *)
Theorem oversized_message_shifts_ring x kernel mac dst big data :
  tx_inv x kernel → 2 <= umem_frame_free (umem_frames_tx x) → 2 <= room (txFillRing x) →
  0 <= Locator.port dst <= LAST_PORT →
  FRAME_DATA_SIZE FRAME_SIZE <= Z.of_nat (length big) →
  Z.of_nat (length data) < FRAME_DATA_SIZE FRAME_SIZE →
  ∃ x1 x2 lost old d rest,
    send ndebug FRAME_SIZE NUM_DESCS x mac [dst] big = Done (false, x1) ∧
    lost ∈ tx_addresses ∧
    (lost ∉ free_frames (umem_frames_tx x1) ++ (addr <$> queue (txFillRing x1)) ++ kernel ++
              waiting (txCompletionRing x1)) ∧
    reserved (txFillRing x1) = [old] ∧
    send ndebug FRAME_SIZE NUM_DESCS x1 mac [dst] data = Done (true, x2) ∧
    queue (txFillRing x2) = queue (txFillRing x) ++ [old] ∧
    reserved (txFillRing x2) = [d] ∧ frame_at x2 (addr d) = packet_for mac dst data ++ rest.
Proof using Hfs Hnd.
  intros Hinv Hfree Hroom Hp Hbig Hsize.
  pose proof (tx_collectable x kernel Hinv) as Hcol. pose proof (tx_inv_range x kernel Hinv) as (Hrf & _ & _).
  destruct (tx_alloc x kernel Hinv) as (lost & st & Ea & Hst & Hf & Hr); [lia|].
  destruct (send_too_big x mac dst big lost st Ea Hr) as (x1 & old & E1 & Est & Ecr & Hq1 & Hres1 & Hroom1);
    [lia|by left|done|].
  pose proof (alloc_collectable x st lost Hcol Hst Hf) as Hcol1.
  destruct Hinv as [Hst0 Hc Hres Hheld]. rewrite Hres in Hres1. cbn in Hres1.
  assert (Hcol2 : collectable x1) by (destruct Hcol1; split; rewrite ?Est, ?Ecr; done).
  pose proof (length_free_frames _ Hst0) as Hl0. pose proof (length_free_frames _ Hst) as Hl1.
  rewrite Hf in Hl0, Hrf. rewrite length_app in Hl0. rewrite Forall_app in Hrf. cbn in Hl0.
  destruct (alloc_frame x1 true) as (f2 & st2 & Ea2 & Hst2 & Hf2 & Hr2);
    cbn; rewrite ?Est; [done|lia|tauto|]. cbn in Hf2.
  destruct (send_steps x1 mac dst data f2 st2 Ea2 Hr2 (alloc_collectable x1 st2 f2 Hcol2 Hst2 Hf2))
    as (y & x2 & done_ & E2 & _ & _ & _ & Hq2 & Hres2 & rest & Hfr2); [lia|rewrite Hres1; cbn; lia|by left|done|].
  rewrite Hres1 in Hq2, Hres2. cbn in Hq2, Hres2. rewrite Hq1 in Hq2.
  eexists x1, x2, lost, old, _, rest. split_and!; [done| | |done|done|done|exact Hres2|done].
  - rewrite <- Hc, Hf. rewrite !elem_of_app, list_elem_of_singleton. tauto.
  - pose proof tx_addresses_nodup as Hn. rewrite <- Hc, Hf, <- app_assoc in Hn.
    rewrite Est, Hq1, Ecr. cbn [app] in Hn. rewrite <- Permutation_middle in Hn. by apply NoDup_cons in Hn as [Hn _].
Qed.
End xdp.

(** ** Witnesses *)

Definition desc0 : xdp_desc := mkDesc 0 0.

Abbreviation list_socket := (xsk_socket_info (@Lists.prod xdp_desc) (@Lists.prod Z)
  (@Lists.cons xdp_desc) (@Lists.cons Z)).

(** The rings over lists, with the sizes of libxdp. *)
#[local] Instance tx_list : ProdRing (@Lists.prod xdp_desc) xdp_desc := Lists.prod_ops desc0.
#[local] Instance fill_list : ProdRing (@Lists.prod Z) Z := Lists.prod_ops 0.
#[local] Instance rx_list : ConsRing (@Lists.cons xdp_desc) xdp_desc := Lists.cons_ops desc0.
#[local] Instance comp_list : ConsRing (@Lists.cons Z) Z := Lists.cons_ops 0.
#[local] Instance tx_list_laws : ProdLaws _ _ tx_list := Lists.prod_laws desc0.
#[local] Instance fill_list_laws : ProdLaws _ _ fill_list := Lists.prod_laws 0.
#[local] Instance rx_list_laws : ConsLaws _ _ rx_list := Lists.cons_laws desc0.
#[local] Instance comp_list_laws : ConsLaws _ _ comp_list := Lists.cons_laws 0.

Lemma frame_size_ok : HEADER_SIZE < 4096 <= UINT16_MAX.
Proof. unfold HEADER_SIZE. range_unfold. lia. Qed.

Lemma descs_ok : 0 < 2048 <= NUM_FRAMES / 2.
Proof. rewrite half_frames. lia. Qed.

Lemma configured_socket_witness :
  ∃ x : list_socket, xsk_configure_socket false 4096 2048 true true (Lists.mkCons [] [] 0)
      (Lists.mkProd [] [] 0 2048) (Lists.mkProd [] [] 0 2048) (Lists.mkCons [] [] 0) = Done (Some x) ∧
    tx_inv 4096 x [] ∧ rx_inv 4096 2048 x [] ∧
    Z.of_nat (length (queue (rxFillRing x))) = 2048 - 1.
Proof. apply (configured_socket false 4096 2048 frame_size_ok descs_ok); reflexivity. Defined.

(** A socket with the sending half free and nothing received, and one with a packet
    waiting in the last frame. *)
Definition sample_socket (packets : list xdp_desc) (kernel : list Z) : list_socket :=
  mkSocket (Lists.mkCons [] packets 0) (Lists.mkProd [] [] 0 2048) (Lists.mkProd kernel [] 0 (2048 - Z.of_nat (length kernel)))
    (Lists.mkCons [] [] 0) {[ 2049 * 4096 + 256 := sample_frame 48370 ]}
    (initial_stack 4096 0)
    (mkStack (2048 * 4096 :: replicate 2047 INVALID_UMEM_FRAME) 1) 0.

Lemma sample_tx_inv packets kernel : tx_inv 4096 (sample_socket packets kernel) [].
Proof.
  split; [split; [vm_compute; reflexivity|vm_compute; done]| |reflexivity|reflexivity].
  cbn. rewrite app_nil_r. unfold free_frames, tx_addresses. cbn -[seqZ]. apply reflexive_eq.
  vm_compute. reflexivity.
Qed.

Definition sample_destination : Locator.Locator_t :=
  Locator.mkLocator XDP_TRANSPORT_KIND 7410 (replicate 10 0 ++ [2; 0; 0; 0; 0; 9]).

Definition sample_mac : list Z := [2; 0; 0; 0; 0; 7].

Lemma sample_port : 0 <= Locator.port sample_destination <= LAST_PORT.
Proof. vm_compute. done. Qed.

Lemma send_conserves_frames_witness :
  ∃ sent x', send false 4096 2048 (sample_socket [] []) sample_mac [sample_destination] [1; 2; 3]
      = Done (sent, x') ∧
    tx_inv 4096 x' [] ∧ (sent = true ↔ 1 <= 2048) ∧
    length (queue (txFillRing x')) = (0 + if sent then 1 else 0)%nat.
Proof.
  refine (proj2 (send_conserves_frames false 4096 2048 frame_size_ok descs_ok (sample_socket [] []) []
    sample_mac sample_destination [1; 2; 3] _ _ _) _);
    [apply sample_tx_inv|apply sample_port|vm_compute; done|vm_compute; done].
Defined.

Lemma sent_is_received_witness :
  ∃ x' d, send false 4096 2048 (sample_socket [] []) sample_mac [sample_destination] [1; 2; 3]
      = Done (true, x') ∧
    queue (txFillRing x') = queue (txFillRing (sample_socket [] [])) ++ [d] ∧
    let packet := take (Z.to_nat (len d)) (frame_at x' (addr d)) in
    ([1; 2; 3] ≠ [] → xdp_sock_prog packet true = XDP_REDIRECT) ∧
    process_packet false packet (len d) = Done (Some
      (mkDelivery [1; 2; 3] (Z.of_nat (length [1; 2; 3]))
        (l2_locator (Locator.port sample_destination) (drop 10 (Locator.address sample_destination)))
        (l2_locator (Locator.port sample_destination) sample_mac))).
Proof.
  apply (sent_is_received false 4096 2048 frame_size_ok descs_ok (sample_socket [] []) []
    sample_mac sample_destination [1; 2; 3]);
    [apply sample_tx_inv|vm_compute; done|vm_compute; done|apply sample_port|vm_compute; done|reflexivity|reflexivity].
Defined.

Lemma discovery_domains_witness :
  configureInitialPeerLocator false (setLocatorBroadcastAddress (Locator.of_kind_port XDP_TRANSPORT_KIND 0))
    PortParameters.default_ports 4 [] = Done [announced 4] ∧
  send false 4096 2048 (sample_socket [] []) sample_mac [announced 4] [1; 2; 3] = AssertFailed.
Proof.
  destruct (discovery_domains false 4096 2048 frame_size_ok descs_ok (sample_socket [] []) [] sample_mac [1; 2; 3] 4)
    as (Hpeer & Hstop & _); [apply sample_tx_inv|vm_compute; done|vm_compute; done|reflexivity|done|vm_compute; done|lia|].
  split; [exact Hpeer|]. apply Hstop; [reflexivity|lia].
Defined.

Lemma oversized_message_shifts_ring_witness :
  ∃ x1 x2 lost old d rest,
    send true 4096 2048 (sample_socket [] []) sample_mac [sample_destination] (replicate 4082 1)
      = Done (false, x1) ∧
    lost ∈ tx_addresses 4096 ∧
    (lost ∉ free_frames (umem_frames_tx x1) ++ (addr <$> queue (txFillRing x1)) ++ [] ++
              waiting (txCompletionRing x1)) ∧
    reserved (txFillRing x1) = [old] ∧
    send true 4096 2048 x1 sample_mac [sample_destination] [1; 2; 3] = Done (true, x2) ∧
    queue (txFillRing x2) = queue (txFillRing (sample_socket [] [])) ++ [old] ∧
    reserved (txFillRing x2) = [d] ∧
    frame_at x2 (addr d) = packet_for sample_mac sample_destination [1; 2; 3] ++ rest.
Proof.
  apply (oversized_message_shifts_ring true 4096 2048 frame_size_ok descs_ok (sample_socket [] []) []
    sample_mac sample_destination (replicate 4082 1) [1; 2; 3]);
    [apply sample_tx_inv|vm_compute; done|vm_compute; done|apply sample_port|vm_compute; done|vm_compute; done].
Defined.

(** The receiving half with one packet waiting. *)
Definition receiving_socket : list_socket :=
  sample_socket [mkDesc (2049 * 4096 + 256) 17] ((λ i, i * 4096) <$> seqZ 2050 2046).

Lemma receiving_inv : rx_inv 4096 2048 receiving_socket [].
Proof.
  split; [split; [vm_compute; reflexivity|vm_compute; done]| |reflexivity..].
  transitivity (2048 :: seqZ 2050 2046 ++ [2049]); [apply reflexive_eq; vm_compute; reflexivity|].
  rewrite <- Permutation_cons_append. apply reflexive_eq. vm_compute. reflexivity.
Qed.

Lemma receive_conserves_frames_witness :
  ∃ ds m x', receive_round false 4096 receiving_socket = Done (Some (ds, x')) ∧ rx_inv 4096 2048 x' [] ∧
    ds = delivered receiving_socket (take m (waiting (rxCompletionRing receiving_socket))) ∧
    waiting (rxCompletionRing x') = drop m (waiting (rxCompletionRing receiving_socket)).
Proof.
  apply (receive_conserves_frames false 4096 2048 frame_size_ok descs_ok receiving_socket []).
  apply receiving_inv.
Defined.
