(* ===== verification/DPDK.v ===== *)
(** * The DPDK transport

    Sending and receiving of the DPDK transport (ddsi_DPDKTransport.cpp and .h,
    ddsi_DPDKSenderResource.cpp).  DPDK is not part of the repository: its packet
    buffers (mbufs) and queues are an environment with the operations of [Dpdk],
    and [DpdkLaws] is the documented behaviour of the operations as far as the
    ownership of the buffers goes: a buffer the driver accepted for transmission
    belongs to the driver, and only the owner may free a buffer. *)

From S2P Require Import Prelude Containers Guid Locator LocatorSelector L2.

Module DPDK.
Import Locator L2.

Inductive owner := Pool | Application | Driver.

#[export] Instance owner_eq_dec : EqDecision owner.
Proof. solve_decision. Defined.

Class Dpdk (E : Type) := {
  (** [rte_pktmbuf_alloc] on the sending pool. *)
  pktmbuf_alloc : E → option Z * E;
  (** [rte_pktmbuf_append]: whether there is room for that many octets. *)
  pktmbuf_append : E → Z → Z → bool * E;
  (** Writing the octets of the packet. *)
  pktmbuf_write : E → Z → list Z → E;
  (** [rte_eth_tx_burst] on one packet: the number of packets accepted. *)
  eth_tx_burst : E → Z → Z * E;
  (** [rte_pktmbuf_free]. *)
  pktmbuf_free : E → Z → E
}.

Class DpdkLaws (E : Type) (ops : Dpdk E) := {
  owned_by : E → Z → owner;
  contents : E → Z → list Z;
  alloc_owned e m e' : pktmbuf_alloc e = (Some m, e') → owned_by e' m = Application;
  append_owned e m n ok e' : pktmbuf_append e m n = (ok, e') → owned_by e' m = owned_by e m;
  write_owned e m data :
    owned_by (pktmbuf_write e m data) m = owned_by e m ∧ contents (pktmbuf_write e m data) m = data;
  tx_burst_owned e m n e' : eth_tx_burst e m = (n, e') → owned_by e m = Application →
    contents e' m = contents e m ∧
    owned_by e' m = if n =? 0 then Application else Driver
}.

Section dpdk.
Context {E : Type} `{!Dpdk E}.
Variable ndebug : bool.

(** ** Sending *)

Definition dpdk_header (mac : list Z) (ether_type : Z) : list Z :=
  replicate 6 0xFF ++ take 6 mac ++ le_bytes 2 ether_type.

(** The lambda of the sender resource up to the transmission: the number of
    packets transmitted, the buffer, and the environment. *)
Definition dpdk_submit (e : E) (mac : list Z) (destinations : list Locator_t) (data : list Z)
    : outcome (Z * Z * E) :=
  match destinations with
  | [] => Undefined
  | dst :: rest =>
      assert_ ndebug (bool_decide (rest = []));;
      let total_iov_size := Z.of_nat (length data) in
      match pktmbuf_alloc e with
      | (None, _) => Undefined
      | (Some buf, e) =>
          assert_ ndebug (total_iov_size <? UINT16_MAX - HEADER_SIZE);;
          let '(data_loc, e) := pktmbuf_append e buf (u16 (HEADER_SIZE + u16 total_iov_size)) in
          assert_ ndebug data_loc;;
          if data_loc then
            assert_ ndebug (port dst <? UINT16_MAX);;
            ether_type ← get_ethertype_for_port ndebug (u16 (port dst));
            let e := pktmbuf_write e buf (dpdk_header mac ether_type ++ data) in
            let '(transmitted, e) := eth_tx_burst e buf in
            Done (transmitted, buf, e)
          else Undefined
      end
  end.

(** The whole of it: the buffer is freed in every case, and more than one packet
    aborts the process. *)
Definition dpdk_send (e : E) (mac : list Z) (destinations : list Locator_t) (data : list Z)
    : outcome (bool * E) :=
  '(transmitted, buf, e) ← dpdk_submit e mac destinations data;
  let e := pktmbuf_free e buf in
  if transmitted =? 0 then Done (false, e)
  else if 1 <? transmitted then Exited
  else Done (true, e).

End dpdk.

(** ** Receiving *)

Definition calculate_payload_size (ndebug : bool) (data_len : Z) : outcome Z :=
  if data_len =? 0 then Done 0
  else
    assert_ ndebug (HEADER_SIZE <? data_len);;
    Done (u16 (data_len - HEADER_SIZE)).

(** What the receiver is given for a packet: payload, size and source. *)
Definition dpdk_process_packet (ndebug : bool) (packet : list Z)
    : outcome (list Z * Z * Locator_t) :=
  payload_size ← calculate_payload_size ndebug (Z.of_nat (length packet));
  p ← get_port_for_ethertype ndebug (read_u16 packet 12);
  Done (take (Z.to_nat payload_size) (drop 14 packet), payload_size,
        set_octets (of_kind_port DPDK_TRANSPORT_KIND p)
          (copy_mac_address_and_zero 10 (take 6 (drop 6 packet)))).

(** ** Configuration *)

(** The results of the DPDK calls of [dpdk_port_init]. *)
Record port_results := mkPortResults {
  is_valid_port : bool;
  dev_info_get : Z;
  dev_configure : Z;
  adjust_nb_rx_tx_desc : Z;
  rx_queue_setup : Z;
  tx_queue_setup : Z;
  dev_start : Z
}.

Definition dpdk_port_init (r : port_results) : Z :=
  if negb (is_valid_port r) then -1
  else if negb (dev_info_get r =? 0) then dev_info_get r
  else if negb (dev_configure r =? 0) then dev_configure r
  else if negb (adjust_nb_rx_tx_desc r =? 0) then adjust_nb_rx_tx_desc r
  else if rx_queue_setup r <? 0 then rx_queue_setup r
  else if tx_queue_setup r <? 0 then tx_queue_setup r
  else if dev_start r <? 0 then dev_start r
  else 0.

(** ** Channels *)

Record dpdk_transport := mkDPDK {
  l2 : l2_transport;
  receiverInterface : bool;
  output_channels_open : Z
}.

Definition make_dpdk_transport : dpdk_transport := mkDPDK (make_transport DPDK_TRANSPORT_KIND) false 0.

(** [init]: [eal] is the result of [rte_eal_init], [tx_pool] and [rx_pool] tell
    whether the pools were created, and [mac] is the address of the interface. *)
Definition init (t : dpdk_transport) (eal : Z) (tx_pool rx_pool : bool) (r : port_results)
    (mac : list Z) : outcome (bool * dpdk_transport) :=
  if negb (eal =? 0) then Done (false, t)
  else if negb tx_pool then Done (false, t)
  else if negb rx_pool then Done (false, t)
  else if negb (dpdk_port_init r =? 0) then Exited
  else Done (true, mkDPDK (set_local_address (l2 t) mac) (receiverInterface t) (output_channels_open t)).

Definition OpenOutputChannel (ndebug : bool) (t : dpdk_transport) (locator : Locator_t)
    : outcome (bool * dpdk_transport) :=
  assert_ ndebug (kind locator =? transport_kind_ (l2 t));;
  Done (output_channels_open t =? 0,
        mkDPDK (l2 t) (receiverInterface t) (s32 (output_channels_open t + 1))).

Definition OpenInputChannel (t : dpdk_transport) : outcome dpdk_transport :=
  if receiverInterface t then Exited else Done (mkDPDK (l2 t) true (output_channels_open t)).

Definition IsInputChannelOpen (ndebug : bool) (t : dpdk_transport) (locator : Locator_t) : outcome bool :=
  assert_ ndebug (kind locator =? transport_kind_ (l2 t));;
  Done (receiverInterface t).

Definition CloseInputChannel (t : dpdk_transport) (locator : Locator_t) : bool := false.

Definition max_recv_buffer_size : Z := 0.

(** ** The buffer of a message *)

Section ownership.
Context {E : Type} {ops : Dpdk E} {laws : DpdkLaws E ops}.

(** The buffer of a message is freed whether or not it was transmitted.  When
    the driver took the packet, it owns the buffer at that point, so the buffer is
    freed by somebody who does not own it; only when the packet was refused is it
    the sender's to free. *)
Theorem transmitted_buffer_freed ndebug e mac dst data n buf e' :
  dpdk_submit ndebug e mac [dst] data = Done (n, buf, e') → 0 <= n <= 1 →
  dpdk_send ndebug e mac [dst] data = Done (n =? 1, pktmbuf_free e' buf) ∧
  owned_by e' buf = (if n =? 1 then Driver else Application) ∧
  contents e' buf = dpdk_header mac (u16 (u16 (port dst) + ETHER_TYPE_BASE)) ++ data.
Proof using laws.
  intros Hs Hn. split.
  - unfold dpdk_send. rewrite Hs. cbn [mbind outcome_bind].
    assert (n = 0 ∨ n = 1) as [-> | ->] by lia; done.
  - unfold dpdk_submit in Hs. destruct (assert_ ndebug (bool_decide _)); cbn [mbind outcome_bind] in Hs; try done.
    destruct (pktmbuf_alloc e) as [[m|] e1] eqn:Ea; [|done].
    destruct (assert_ ndebug (_ <? UINT16_MAX - _)); cbn [mbind outcome_bind] in Hs; try done.
    destruct (pktmbuf_append e1 m _) as [ok e2] eqn:Ep.
    destruct (assert_ ndebug ok); cbn [mbind outcome_bind] in Hs; try done. destruct ok; [|done].
    destruct (assert_ ndebug (_ <? UINT16_MAX)); cbn [mbind outcome_bind] in Hs; try done.
    unfold get_ethertype_for_port in Hs. destruct (assert_ ndebug (_ <? ETHER_TYPE_MAX)); cbn [mbind outcome_bind] in Hs; try done.
    set (packet := dpdk_header mac _ ++ data) in *.
    destruct (write_owned e2 m packet) as [Wo Wc].
    destruct (eth_tx_burst (pktmbuf_write e2 m packet) m) as [k e3] eqn:Et. injection Hs as -> -> ->.
    destruct (tx_burst_owned _ _ _ _ Et) as [Tc To].
    { rewrite Wo, (append_owned _ _ _ _ _ Ep). by eapply alloc_owned. }
    rewrite Tc, Wc, To. split; [|done]. by assert (n = 0 ∨ n = 1) as [-> | ->] by lia.
Qed.
End ownership.

(** ** Witness *)

(** One buffer, and a driver that takes every packet. *)
Record one_buffer := mkOne { one_owner : owner; one_contents : list Z }.

#[local] Instance one_ops : Dpdk one_buffer := {
  pktmbuf_alloc e :=
    if decide (one_owner e = Pool) then (Some 0, mkOne Application []) else (None, e);
  pktmbuf_append e _ n := (n <=? 2176, e);
  pktmbuf_write e _ data := mkOne (one_owner e) data;
  eth_tx_burst e _ := (1, mkOne Driver (one_contents e));
  pktmbuf_free e _ := mkOne Pool (one_contents e)
}.

#[local] Instance one_laws : DpdkLaws one_buffer one_ops.
Proof.
  refine {| owned_by := λ e _, one_owner e; contents := λ e _, one_contents e |}; cbn.
  - intros e m e'. case_decide; [|done]. by intros [= <- <-].
  - intros e m n ok e'. by intros [= <- <-].
  - done.
  - intros e m n e'. by intros [= <- <-].
Defined.

Definition dpdk_destination : Locator_t :=
  mkLocator DPDK_TRANSPORT_KIND 7410 (replicate 10 0 ++ replicate 6 0xFF).

Definition dpdk_packet : list Z := dpdk_header [2; 0; 0; 0; 0; 7] 48370 ++ [1; 2; 3].

Lemma transmitted_buffer_freed_witness :
  dpdk_send false (mkOne Pool []) [2; 0; 0; 0; 0; 7] [dpdk_destination] [1; 2; 3]
    = Done (1 =? 1, pktmbuf_free (mkOne Driver dpdk_packet) 0) ∧
  owned_by (mkOne Driver dpdk_packet) 0 = (if 1 =? 1 then Driver else Application) ∧
  contents (mkOne Driver dpdk_packet) 0 =
    dpdk_header [2; 0; 0; 0; 0; 7] (u16 (u16 (port dpdk_destination) + ETHER_TYPE_BASE)) ++ [1; 2; 3].
Proof.
  apply (transmitted_buffer_freed false (mkOne Pool []) [2; 0; 0; 0; 0; 7] dpdk_destination [1; 2; 3]
    1 0 (mkOne Driver dpdk_packet)); [vm_compute; reflexivity|lia].
Defined.

End DPDK.
