(* ===== verification/CDRMessage.v ===== *)
(** * Messages in CDR

    [CDRMessage_t] (include/fastdds/rtps/common/CDRMessage_t.h) and the functions
    that read and write its fields (include/fastdds/rtps/messages/CDRMessage.hpp).
    A message is the octets allocated for it, a position, a length and a byte
    order; code that moves the position is a program of the state monad [M], and
    reading or writing outside the octets is [Undefined].  The byte order of the
    target the code is built for is the class [Target]: integers are copied as
    they lie in memory, and reversed if the message has the other order. *)

From S2P Require Import Prelude.
From S2P Require Import SeqNum.
From S2P Require Import Bitmap.
From S2P Require Import Guid.
From S2P Require Import CacheChange.

Module CDR.
Import CacheChange.

Inductive Endianness_t := BIGEND | LITTLEEND.

#[export] Instance Endianness_eq_dec : EqDecision Endianness_t.
Proof. solve_decision. Defined.

Class Target := DEFAULT_ENDIAN : Endianness_t.

Definition RTPSMESSAGE_HEADER_SIZE : Z := 20.

(** [buffer] are the allocated octets. *)
Record CDRMessage_t := mkMsg {
  buffer : list Z;
  pos : Z;
  max_size : Z;
  length : Z;
  msg_endian : Endianness_t
}.

Definition with_pos (m : CDRMessage_t) (p : Z) : CDRMessage_t :=
  mkMsg (buffer m) p (max_size m) (length m) (msg_endian m).
Definition with_length (m : CDRMessage_t) (l : Z) : CDRMessage_t :=
  mkMsg (buffer m) (pos m) (max_size m) l (msg_endian m).
Definition with_endian (m : CDRMessage_t) (e : Endianness_t) : CDRMessage_t :=
  mkMsg (buffer m) (pos m) (max_size m) (length m) e.
Definition with_buffer (m : CDRMessage_t) (b : list Z) : CDRMessage_t :=
  mkMsg b (pos m) (max_size m) (length m) (msg_endian m).

(** ** Programs on a message *)

Definition M (A : Type) : Type := CDRMessage_t → outcome (A * CDRMessage_t).

#[export] Instance M_ret : MRet M := λ A a m, Done (a, m).
#[export] Instance M_bind : MBind M := λ A B f p m, '(a, m) ← p m; f a m.

Definition get : M CDRMessage_t := λ m, Done (m, m).
Definition modify (f : CDRMessage_t → CDRMessage_t) : M unit := λ m, Done (tt, f m).
Definition with_msg {A} (f : CDRMessage_t → M A) : M A := λ m, f m m.
Definition lift {A} (o : outcome A) : M A := λ m, a ← o; Done (a, m).

Definition set_pos (p : Z) : M unit := modify (λ m, with_pos m p).
Definition set_length (l : Z) : M unit := modify (λ m, with_length m l).
Definition set_endian (e : Endianness_t) : M unit := modify (λ m, with_endian m e).
Definition skip (n : Z) : M unit := modify (λ m, with_pos m (u32 (pos m + n))).

(** The [n] octets from an index of the buffer on. *)
Definition load (m : CDRMessage_t) (at_ n : Z) : outcome (list Z) :=
  if (0 <=? at_) && (0 <=? n) && (at_ + n <=? Z.of_nat (List.length (buffer m)))
  then Done (take (Z.to_nat n) (drop (Z.to_nat at_) (buffer m))) else Undefined.

Definition store (at_ : Z) (bs : list Z) : M unit :=
  m ← get; b ← lift (Payload.memcpy (buffer m) at_ bs); modify (λ m, with_buffer m b).

(** [reserve] on a message that owns its octets, and [initCDRMsg]. *)
Definition reserve (m : CDRMessage_t) (size : Z) : CDRMessage_t :=
  mkMsg (if Z.of_nat (List.length (buffer m)) <? size then Payload.resize_to (buffer m) size else buffer m)
    (pos m) size (length m) (msg_endian m).

Section target.
Context `{Target}.

Definition initCDRMsg : M unit := modify (λ m, with_endian (with_length (with_pos m 0) 0) DEFAULT_ENDIAN).

(** An integer of [n] octets in memory. *)
Definition native (n : nat) (x : Z) : list Z :=
  if decide (DEFAULT_ENDIAN = LITTLEEND) then le_bytes n x else rev (le_bytes n x).

Definition of_native (bs : list Z) : Z :=
  le_val (if decide (DEFAULT_ENDIAN = LITTLEEND) then bs else rev bs).

(** ** Reading

    A reader gets the value its destination has before, which it leaves when the
    message is too short, and returns whether it succeeded and the value after. *)

Definition too_short (m : CDRMessage_t) (n : Z) : bool := length m <? u32 (pos m + n).

(** The octets of an integer, as they are put into memory. *)
Definition read_native (n : Z) : M (list Z) :=
  m ← get;
  bs ← lift (load m (pos m) n);
  skip n;;
  mret (if decide (msg_endian m = DEFAULT_ENDIAN) then bs else rev bs).

Definition read_integer {A} (n : Z) (value : Z → A) (old : A) : M (bool * A) :=
  m ← get;
  if too_short m n then mret (false, old)
  else bs ← read_native n; mret (true, value (of_native bs)).

Definition s16 (x : Z) : Z := (x + 2 ^ 15) mod 2 ^ 16 - 2 ^ 15.

Definition readInt32 : Z → M (bool * Z) := read_integer 4 s32.
Definition readUInt32 : Z → M (bool * Z) := read_integer 4 id.
Definition readInt16 : Z → M (bool * Z) := read_integer 2 s16.
Definition readUInt16 : Z → M (bool * Z) := read_integer 2 id.

Definition readOctet (old : Z) : M (bool * Z) :=
  m ← get;
  if too_short m 1 then mret (false, old)
  else bs ← lift (load m (pos m) 1); skip 1;; mret (true, nth 0 bs 0).

Definition readData (old : list Z) (n : Z) : M (bool * list Z) :=
  m ← get;
  if too_short m n then mret (false, old)
  else if 0 <? n then bs ← lift (load m (pos m) n); skip n;; mret (true, bs)
  else mret (true, old).

Definition readEntityId (old : EntityId.EntityId_t) : M (bool * EntityId.EntityId_t) :=
  m ← get;
  if too_short m 4 then mret (false, old)
  else bs ← lift (load m (pos m) 4); skip 4;; mret (true, bs).

Definition readSequenceNumber (old : SN.SequenceNumber_t) : M (bool * SN.SequenceNumber_t) :=
  m ← get;
  if too_short m 8 then mret (false, old)
  else
    '(v1, hi) ← readInt32 (SN.high old);
    '(v2, lo) ← readUInt32 (SN.low old);
    mret (v1 && v2, SN.mkSN hi lo).

(** The words of a set; [valid] stops the loop. *)
Fixpoint read_words (n : nat) (valid : bool) : M (bool * list Z) :=
  match n with
  | O => mret (valid, [])
  | S n =>
      if valid then
        '(v, w) ← readUInt32 0;
        '(valid, ws) ← read_words n v;
        mret (valid, w :: ws)
      else mret (false, [])
  end.

Definition readSequenceNumberSet : M SequenceNumberSet_t :=
  '(v1, seqNum) ← readSequenceNumber SN.default;
  '(v2, numBits) ← readUInt32 0;
  let valid := v1 && v2 && (numBits <=? 256) && (0 <=? SN.high seqNum) in
  let numBits := if valid && (SN.high seqNum =? INT32_MAX)
                 then Z.min numBits (UINT32_MAX - SN.low seqNum) else numBits in
  '(valid, bitmap) ← (if valid then read_words (BitmapRange.n_longs numBits) true else mret (false, []));
  mret (if valid : bool then BitmapRange.bitmap_set (BitmapRange.make_max seqNum numBits) numBits bitmap
        else BitmapRange.make SN.c_SequenceNumber_Unknown).

Definition readFragmentNumberSet (fns : FragmentNumberSet_t) : M (bool * FragmentNumberSet_t) :=
  '(v1, base) ← readUInt32 0;
  '(v2, numBits) ← readUInt32 0;
  let valid := v1 && v2 && (numBits <=? 256) in
  '(valid, bitmap) ← (if valid then read_words (BitmapRange.n_longs numBits) true else mret (false, []));
  mret (valid, if valid : bool
               then BitmapRange.bitmap_set (BitmapRange.set_base fns (base : FragmentNumber_t)) numBits bitmap else fns).

Definition readTimestamp (ts : Time_t) : M (bool * Time_t) :=
  '(v1, secs) ← readInt32 (seconds ts);
  '(v2, frac) ← readUInt32 0;
  mret (v1 && v2, mkTime secs frac).

(** ** Writing *)

Definition hasSpace (m : CDRMessage_t) (n : Z) : bool := u32 (pos m + n) <=? max_size m.

Definition copyToBuffer (data : list Z) (reverse : bool) : M unit :=
  m ← get;
  store (pos m) (if reverse then rev data else data);;
  let n := Z.of_nat (List.length data) in
  modify (λ m, with_length (with_pos m (u32 (pos m + n))) (u32 (length m + n))).

(** [addData] from a pointer that is not null. *)
Definition addData (data : list Z) : M bool :=
  m ← get;
  if hasSpace m (Z.of_nat (List.length data)) then copyToBuffer data false;; mret true else mret false.

Definition addPrimitive (n : nat) (value : Z) : M bool :=
  m ← get;
  if hasSpace m (Z.of_nat n) then
    copyToBuffer (native n value) (bool_decide (msg_endian m ≠ DEFAULT_ENDIAN));; mret true
  else mret false.

Definition addOctet (value : Z) : M bool := addPrimitive 1 (u8 value).
Definition addUInt16 (value : Z) : M bool := addPrimitive 2 (u16 value).
Definition addInt32 (value : Z) : M bool := addPrimitive 4 (u32 value).
Definition addUInt32 (value : Z) : M bool := addPrimitive 4 (u32 value).

(** [addEntityId] wants one octet more than it writes. *)
Definition addEntityId (value : EntityId.EntityId_t) : M bool :=
  m ← get;
  if max_size m <=? u32 (pos m + 4) then mret false
  else
    store (pos m) value;;
    modify (λ m, with_length (with_pos m (u32 (pos m + 4))) (u32 (length m + 4)));;
    mret true.

Definition addSequenceNumber (sn : SN.SequenceNumber_t) : M bool :=
  addInt32 (SN.high sn);; addUInt32 (SN.low sn);; mret true.

Definition add_words (words : list Z) : M unit :=
  foldr (λ w rest, addUInt32 w;; rest) (mret tt) words.

(** The number of bits and the words of a set. *)
Definition add_bitmap {T} (s : BitmapRange.BitmapRange_t T) : M unit :=
  if BitmapRange.empty s then addUInt32 0;; mret tt
  else
    let '(numBits, bitmap, n_longs) := BitmapRange.bitmap_get s in
    addUInt32 numBits;; add_words (take n_longs bitmap).

Definition addSequenceNumberSet (sns : SequenceNumberSet_t) : M bool :=
  addSequenceNumber (BitmapRange.base sns);; add_bitmap sns;; mret true.

Definition addFragmentNumberSet (fns : FragmentNumberSet_t) : M bool :=
  if (BitmapRange.base fns : Z) =? 0 then mret false
  else addUInt32 (BitmapRange.base fns : Z);; add_bitmap fns;; mret true.

End target.
End CDR.
