(* ===== verification/CDRFacts.v ===== *)
(** * Facts about messages in CDR

    What a program writes and what a program reads, as lists of octets: [writes]
    says that a program appends certain octets, [reads] that it consumes them, and
    both compose along the monad.  [safe] says that a program is defined on any
    octets.  The round trips of integers, numbers and sets follow for every pair of
    targets. *)

From S2P Require Import Prelude.
From S2P Require Import SeqNum.
From S2P Require Import Bitmap.
From S2P Require Import BitmapFacts.
From S2P Require Import Guid.
From S2P Require Import CacheChange.
From S2P Require Import CacheChangeFacts.
From S2P Require Import CDRMessage.

Create HintDb wire.

Module CDRFacts.
Import CDR.

Abbreviation size l := (Z.of_nat (List.length l)).

(** An integer of [n] octets in a message of a byte order. *)
Definition enc (e : Endianness_t) (n : nat) (x : Z) : list Z :=
  if decide (e = LITTLEEND) then le_bytes n x else rev (le_bytes n x).

Definition dec (e : Endianness_t) (bs : list Z) : Z :=
  le_val (if decide (e = LITTLEEND) then bs else rev bs).

Lemma length_enc e n x : List.length (enc e n x) = n.
Proof. unfold enc. case_decide; rewrite ?length_rev; apply length_le_bytes. Qed.

Lemma enc_u8 e n x : Forall is_u8 (enc e n x).
Proof. unfold enc. case_decide; [|apply Forall_rev]; apply le_bytes_u8. Qed.

Lemma dec_enc e n x : 0 <= x < 256 ^ Z.of_nat n → dec e (enc e n x) = x.
Proof. intros. unfold dec, enc. case_decide; rewrite ?rev_involutive; by apply le_val_bytes. Qed.

Lemma dec_range e bs : Forall is_u8 bs → 0 <= dec e bs < 256 ^ size bs.
Proof.
  intros. unfold dec. case_decide; [by apply le_val_range|].
  rewrite <-(length_rev bs). apply le_val_range. by apply Forall_rev.
Qed.

(** Which order the target has does not matter. *)
Lemma native_enc `{Target} e n x :
  (if bool_decide (e ≠ DEFAULT_ENDIAN) then rev (native n x) else native n x) = enc e n x.
Proof.
  unfold native, enc. destruct DEFAULT_ENDIAN eqn:E, e; repeat case_decide; try done;
    case_bool_decide; try done; by rewrite rev_involutive.
Qed.

Lemma native_dec `{Target} e bs :
  of_native (if decide (e = DEFAULT_ENDIAN) then bs else rev bs) = dec e bs.
Proof.
  unfold of_native, dec. destruct DEFAULT_ENDIAN eqn:E, e; repeat case_decide; try done;
    by rewrite rev_involutive.
Qed.

(** ** Appending *)

(** A message under construction: [pre] has been written, nothing behind it. *)
Record appending (m : CDRMessage_t) (pre : list Z) : Prop := {
  ap_buffer : take (List.length pre) (buffer m) = pre;
  ap_pos : pos m = size pre;
  ap_length : length m = size pre;
  ap_room : max_size m <= size (buffer m) ∧ max_size m < 2 ^ 32
}.

(** In a message of order [e] with a spare octet, [p] returns [a] and appends
    [bs]. *)
Definition writes {A} (e : Endianness_t) (p : M A) (a : A) (bs : list Z) : Prop :=
  ∀ m pre, appending m pre → msg_endian m = e → size pre + size bs < max_size m →
    ∃ m', p m = Done (a, m') ∧ appending m' (pre ++ bs) ∧
          max_size m' = max_size m ∧ msg_endian m' = e.

Lemma writes_ret {A} e (a : A) : writes e (mret a) a [].
Proof. intros m pre Hm He _. exists m. rewrite app_nil_r. done. Qed.

Lemma writes_bind {A B} e (p : M A) (k : A → M B) a b bs1 bs2 :
  writes e p a bs1 → writes e (k a) b bs2 → writes e (p ≫= k) b (bs1 ++ bs2).
Proof.
  intros Hp Hk m pre Hm He Hroom. rewrite length_app in Hroom.
  destruct (Hp m pre Hm He) as (m1 & E1 & Hm1 & Hmax1 & He1); [lia|].
  destruct (Hk m1 (pre ++ bs1) Hm1 He1) as (m2 & E2 & Hm2 & Hmax2 & He2); [rewrite length_app; lia|].
  exists m2. unfold mbind, M_bind. rewrite E1. simpl. rewrite E2, app_assoc. split_and!; [done..|lia|done].
Qed.

Lemma writes_fmap {A} e (p : M A) a a' bs bs' : writes e p a bs → a = a' → bs = bs' → writes e p a' bs'.
Proof. by intros ? <- <-. Qed.

(** The octets [bs] stored behind what is written. *)
Lemma append_octets m pre bs :
  appending m pre → size pre + size bs <= max_size m →
  Payload.memcpy (buffer m) (pos m) bs = Done (list_inserts (List.length pre) bs (buffer m)) ∧
  ∀ e, appending (mkMsg (list_inserts (List.length pre) bs (buffer m)) (u32 (pos m + size bs)) (max_size m)
         (u32 (length m + size bs)) e) (pre ++ bs).
Proof.
  intros [Hb Hp Hl [Hmax H32]] Hroom. rewrite Hp, Hl. split.
  - rewrite Assembly.memcpy_done by lia. by rewrite Nat2Z.id.
  - intros e. constructor; simpl; rewrite ?length_app, ?length_inserts.
    + assert (∀ i, (i < List.length pre)%nat → buffer m !! i = pre !! i) as Hpre
        by (intros i Hi; rewrite <-(lookup_take_lt (buffer m) (List.length pre)), Hb by lia; done).
      apply list_eq. intros i. destruct (decide (i < List.length pre)%nat).
      * rewrite lookup_take_lt, lookup_app_l, list_lookup_inserts_lt by lia. by apply Hpre.
      * destruct (decide (i < List.length pre + List.length bs)%nat).
        -- rewrite lookup_take_lt, lookup_app_r, list_lookup_inserts by lia. done.
        -- rewrite lookup_take_ge, lookup_app_r by lia. symmetry. apply lookup_ge_None. lia.
    + rewrite u32_small by (range_unfold; lia). lia.
    + rewrite u32_small by (range_unfold; lia). lia.
    + lia.
Qed.

Section target.
Context `{Target}.

Lemma copy_writes e bs reverse_ m pre :
  appending m pre → msg_endian m = e → size pre + size bs <= max_size m →
  ∃ m', copyToBuffer bs reverse_ m = Done (tt, m') ∧
    appending m' (pre ++ if reverse_ then rev bs else bs) ∧ max_size m' = max_size m ∧ msg_endian m' = e.
Proof.
  intros Hm He Hroom. assert (List.length (if reverse_ : bool then rev bs else bs) = List.length bs) as Hlen
    by (destruct reverse_; rewrite ?length_rev; done).
  destruct (append_octets m pre (if reverse_ then rev bs else bs) Hm) as [E Happ]; [rewrite Hlen; lia|].
  unfold copyToBuffer, store. unfold mbind at 1, M_bind at 1, get at 1. simpl.
  unfold mbind, M_bind, get, lift, modify. simpl. rewrite E. simpl. eexists. split; [reflexivity|].
  split; [|done]. rewrite <-Hlen. apply Happ.
Qed.

Lemma addData_writes e bs : writes e (addData bs) true bs.
Proof.
  intros m pre Hm He Hroom. pose proof Hm as [_ Hp _ [_ H32]].
  unfold addData, hasSpace. unfold mbind at 1, M_bind at 1, get at 1. simpl.
  rewrite Hp, u32_small by (range_unfold; lia). rewrite (proj2 (Z.leb_le _ _)) by lia.
  destruct (copy_writes e bs false m pre Hm He) as (m' & E & ? & ? & ?); [lia|].
  exists m'. unfold mbind, M_bind. rewrite E. done.
Qed.

Lemma addPrimitive_writes e n x : writes e (addPrimitive n x) true (enc e n x).
Proof.
  intros m pre Hm He Hroom. rewrite length_enc in Hroom. pose proof Hm as [_ Hp _ [_ H32]].
  unfold addPrimitive, hasSpace. unfold mbind at 1, M_bind at 1, get at 1. simpl.
  rewrite Hp, u32_small by (range_unfold; lia). rewrite (proj2 (Z.leb_le _ _)) by lia. rewrite He.
  assert (List.length (native n x) = n) as Hn by (unfold native; case_decide; rewrite ?length_rev; apply length_le_bytes).
  destruct (copy_writes e (native n x) (bool_decide (e ≠ DEFAULT_ENDIAN)) m pre Hm He) as (m' & E & ? & ? & ?); [lia|].
  exists m'. unfold mbind, M_bind. rewrite E. rewrite <-native_enc. done.
Qed.

Lemma addEntityId_writes e id : EntityId.wf id → writes e (addEntityId id) true id.
Proof.
  intros [Hlen _] m pre Hm He Hroom. unfold EntityId.size in Hlen. pose proof Hm as [_ Hp _ [_ H32]].
  unfold addEntityId. unfold mbind at 1, M_bind at 1, get at 1. simpl.
  rewrite Hp, u32_small by (range_unfold; lia). rewrite (proj2 (Z.leb_gt _ _)) by lia.
  destruct (append_octets m pre id Hm) as [E Happ]; [lia|].
  unfold store. unfold mbind, M_bind, get, lift, modify. simpl. rewrite <-Hp, E. simpl.
  eexists. split; [reflexivity|]. split; [|done]. specialize (Happ e). rewrite Hlen in Happ. subst e. exact Happ.
Qed.

(** The octets of numbers and sets. *)
Definition sn_octets (e : Endianness_t) (s : SN.SequenceNumber_t) : list Z :=
  enc e 4 (u32 (SN.high s)) ++ enc e 4 (u32 (SN.low s)).

Definition words_octets (e : Endianness_t) (ws : list Z) : list Z := ws ≫= λ w, enc e 4 (u32 w).

Definition bitmap_octets {T} (e : Endianness_t) (s : BitmapRange.BitmapRange_t T) : list Z :=
  if BitmapRange.empty s then enc e 4 0
  else enc e 4 (u32 (BitmapRange.num_bits_ s)) ++
    words_octets e (take (BitmapRange.n_longs (BitmapRange.num_bits_ s)) (BitmapRange.bitmap_ s)).

Lemma length_words_octets e ws : List.length (words_octets e ws) = (4 * List.length ws)%nat.
Proof. induction ws as [|w ws IH]; [done|]. simpl. rewrite length_app, length_enc, IH. lia. Qed.

Lemma writes_seq {A B} e (p : M A) (q : M B) a b bs1 bs2 :
  writes e p a bs1 → writes e q b bs2 → writes e (p;; q) b (bs1 ++ bs2).
Proof. intros Hp Hq. eapply writes_bind; [exact Hp|exact Hq]. Qed.

Lemma writes_last {A B} e (p : M A) a (b : B) bs : writes e p a bs → writes e (p;; mret b) b bs.
Proof. intros Hp. rewrite <-(app_nil_r bs). eapply writes_seq; [exact Hp|apply writes_ret]. Qed.

Lemma addSequenceNumber_writes e s : writes e (addSequenceNumber s) true (sn_octets e s).
Proof. eapply writes_seq; [apply addPrimitive_writes|]. eapply writes_last, addPrimitive_writes. Qed.

Lemma add_words_writes e ws : writes e (add_words ws) tt (words_octets e ws).
Proof.
  induction ws as [|w ws IH]; [apply writes_ret|]. eapply writes_seq; [apply addPrimitive_writes|apply IH].
Qed.

Lemma add_bitmap_writes {T} e (s : BitmapRange.BitmapRange_t T) : writes e (add_bitmap s) tt (bitmap_octets e s).
Proof.
  unfold add_bitmap, bitmap_octets. destruct (BitmapRange.empty s).
  - eapply writes_last, addPrimitive_writes.
  - simpl. eapply writes_seq; [apply addPrimitive_writes|apply add_words_writes].
Qed.

Lemma addSequenceNumberSet_writes e (s : SequenceNumberSet_t) :
  writes e (addSequenceNumberSet s) true (sn_octets e (BitmapRange.base_ s) ++ bitmap_octets e s).
Proof. eapply writes_seq; [apply addSequenceNumber_writes|]. eapply writes_last, add_bitmap_writes. Qed.

Lemma addFragmentNumberSet_writes e (s : FragmentNumberSet_t) :
  (BitmapRange.base_ s : Z) ≠ 0 →
  writes e (addFragmentNumberSet s) true (enc e 4 (u32 (BitmapRange.base_ s : Z)) ++ bitmap_octets e s).
Proof.
  intros Hne. unfold addFragmentNumberSet, BitmapRange.base. rewrite (proj2 (Z.eqb_neq _ _)) by done.
  eapply writes_seq; [apply addPrimitive_writes|]. eapply writes_last, add_bitmap_writes.
Qed.

(** ** Reading *)

(** What is left to read. *)
Record ready (m : CDRMessage_t) (l : list Z) : Prop := {
  rd_rest : take (Z.to_nat (length m - pos m)) (drop (Z.to_nat (pos m)) (buffer m)) = l;
  rd_pos : 0 <= pos m <= length m;
  rd_length : length m <= size (buffer m) ∧ length m < 2 ^ 32 - 2 ^ 18
}.

(** In a message of order [e], [p] consumes [bs] and returns [a]. *)
Definition reads {A} (e : Endianness_t) (p : M A) (a : A) (bs : list Z) : Prop :=
  ∀ m rest, ready m (bs ++ rest) → msg_endian m = e →
    p m = Done (a, with_pos m (pos m + size bs)).

Lemma ready_size m l : ready m l → size l = length m - pos m.
Proof. intros [<- Hp [Hl _]]. rewrite length_take, length_drop. lia. Qed.

Lemma ready_advance m bs rest : ready m (bs ++ rest) → ready (with_pos m (pos m + size bs)) rest.
Proof.
  intros Hm. pose proof (ready_size _ _ Hm) as Hs. rewrite length_app in Hs. destruct Hm as [Hr Hp Hl].
  constructor; simpl; [|lia|done].
  replace (Z.to_nat (pos m + size bs)) with (Z.to_nat (pos m) + List.length bs)%nat by lia.
  rewrite <-drop_drop. rewrite <-(drop_app_length bs rest), <-Hr.
  rewrite skipn_firstn_comm. f_equal. lia.
Qed.

Lemma reads_ret {A} e (a : A) : reads e (mret a) a [].
Proof. intros m rest _ _. simpl. rewrite Z.add_0_r. by destruct m. Qed.

Lemma reads_bind {A B} e (p : M A) (k : A → M B) a b bs1 bs2 :
  reads e p a bs1 → reads e (k a) b bs2 → reads e (p ≫= k) b (bs1 ++ bs2).
Proof.
  intros Hp Hk m rest Hm He. rewrite <-app_assoc in Hm. unfold mbind, M_bind. rewrite (Hp m _ Hm He). simpl.
  rewrite (Hk _ rest (ready_advance _ _ _ Hm) He). simpl. rewrite length_app. do 3 f_equal. lia.
Qed.

Lemma ready_load m bs rest : ready m (bs ++ rest) → load m (pos m) (size bs) = Done bs.
Proof.
  intros Hm. pose proof (ready_size _ _ Hm) as Hs. rewrite length_app in Hs. destruct Hm as [Hr Hp [Hl _]].
  unfold load. rewrite !(proj2 (Z.leb_le _ _)) by lia. simpl. f_equal.
  rewrite Nat2Z.id. rewrite <-(take_app_length bs rest) at 2. rewrite <-Hr, take_take. f_equal. lia.
Qed.

Lemma ready_enough m bs rest n : ready m (bs ++ rest) → 0 <= n <= size bs → too_short m n = false.
Proof.
  intros Hm Hn. pose proof (ready_size _ _ Hm) as Hs. rewrite length_app in Hs. destruct Hm as [_ Hp [_ Hl]].
  unfold too_short. rewrite u32_small by (range_unfold; lia). apply Z.ltb_ge. lia.
Qed.

Lemma ready_next m bs rest : ready m (bs ++ rest) → u32 (pos m + size bs) = pos m + size bs.
Proof.
  intros Hm. pose proof (ready_size _ _ Hm) as Hs. rewrite length_app in Hs. destruct Hm as [_ Hp [_ Hl]].
  apply u32_small. range_unfold. lia.
Qed.

Lemma skip_reads e bs : reads e (skip (size bs)) tt bs.
Proof. intros m rest Hm _. unfold skip, modify. by rewrite (ready_next m bs rest). Qed.

Lemma read_integer_reads {A} e n (value : Z → A) old bs :
  size bs = n → reads e (read_integer n value old) (true, value (dec e bs)) bs.
Proof.
  intros <- m rest Hm He. unfold read_integer, read_native. unfold mbind at 1, M_bind at 1, get at 1. simpl.
  rewrite (ready_enough m bs rest) by (done || lia). unfold mbind, M_bind, get, lift. simpl.
  rewrite (ready_load m bs rest Hm). simpl. unfold skip, modify. rewrite (ready_next m bs rest Hm), He, native_dec. done.
Qed.

Lemma readUInt32_reads e old x : is_u32 x → reads e (readUInt32 old) (true, x) (enc e 4 x).
Proof.
  intros Hx. replace (true, x) with (true, id (dec e (enc e 4 x))) by (rewrite dec_enc; [done|range_unfold; simpl; lia]).
  apply read_integer_reads. by rewrite length_enc.
Qed.

Lemma s32_u32 x : is_s32 x → s32 (u32 x) = x.
Proof. intros. mlia. Qed.

Lemma readInt32_reads e old x : is_s32 x → reads e (readInt32 old) (true, x) (enc e 4 (u32 x)).
Proof.
  intros Hx. pose proof (u32_range x). replace (true, x) with (true, s32 (dec e (enc e 4 (u32 x))))
    by (rewrite dec_enc by (range_unfold; simpl; lia); by rewrite s32_u32).
  apply read_integer_reads. by rewrite length_enc.
Qed.

Lemma readUInt16_reads e old x : is_u16 x → reads e (readUInt16 old) (true, x) (enc e 2 x).
Proof.
  intros Hx. replace (true, x) with (true, id (dec e (enc e 2 x))) by (rewrite dec_enc; [done|range_unfold; simpl; lia]).
  apply read_integer_reads. by rewrite length_enc.
Qed.

Lemma readInt16_reads e old x : 0 <= x < 2 ^ 15 → reads e (readInt16 old) (true, x) (enc e 2 x).
Proof.
  intros Hx. change (2 ^ 15) with 32768 in Hx. replace (true, x) with (true, s16 (dec e (enc e 2 x))).
  - apply read_integer_reads. by rewrite length_enc.
  - rewrite dec_enc by (simpl; lia). unfold s16. change (2 ^ 15) with 32768. change (2 ^ 16) with 65536. f_equal.
    rewrite Z.mod_small by lia. lia.
Qed.

Lemma readOctet_reads e old x : reads e (readOctet old) (true, x) [x].
Proof.
  intros m rest Hm He. unfold readOctet. unfold mbind at 1, M_bind at 1, get at 1. simpl.
  rewrite (ready_enough m [x] rest) by (done || (simpl; lia)). unfold mbind, M_bind, lift. simpl.
  rewrite (ready_load m [x] rest Hm : load m (pos m) 1 = _). simpl. unfold skip, modify.
  by rewrite (ready_next m [x] rest Hm : u32 (pos m + 1) = _).
Qed.

Lemma readData_reads e old bs : bs ≠ [] → reads e (readData old (size bs)) (true, bs) bs.
Proof.
  intros Hne m rest Hm He. unfold readData. unfold mbind at 1, M_bind at 1, get at 1. simpl.
  rewrite (ready_enough m bs rest) by (done || lia). rewrite (proj2 (Z.ltb_lt _ _)) by (destruct bs; [done|simpl; lia]).
  unfold mbind, M_bind, lift. simpl. rewrite (ready_load m bs rest Hm). simpl. unfold skip, modify. by rewrite (ready_next m bs rest Hm).
Qed.

Lemma readEntityId_reads e old id : EntityId.wf id → reads e (readEntityId old) (true, id) id.
Proof.
  intros [Hlen _] m rest Hm He. unfold readEntityId. unfold mbind at 1, M_bind at 1, get at 1. simpl.
  assert (4 = size id) as -> by (rewrite Hlen; done).
  rewrite (ready_enough m id rest) by (done || lia).
  unfold mbind, M_bind, lift. simpl. rewrite (ready_load m id rest Hm). simpl. unfold skip, modify. by rewrite (ready_next m id rest Hm).
Qed.

Lemma readSequenceNumber_reads e old s : SN.wf s → reads e (readSequenceNumber old) (true, s) (sn_octets e s).
Proof.
  intros [Hhi Hlo] m rest Hm He. unfold readSequenceNumber. unfold mbind at 1, M_bind at 1, get at 1. simpl.
  rewrite (ready_enough m (sn_octets e s) rest) by (done || (unfold sn_octets; rewrite length_app, !length_enc; lia)).
  revert m rest Hm He. change (reads e (v ← readInt32 (SN.high old); (let '(v1, hi) := v in
    w ← readUInt32 (SN.low old); (let '(v2, lo) := w in mret (v1 && v2, SN.mkSN hi lo)))) (true, s) (sn_octets e s)).
  unfold sn_octets. eapply reads_bind; [by apply readInt32_reads|].
  rewrite <-(app_nil_r (enc e 4 (u32 (SN.low s)))). rewrite u32_small by done.
  eapply reads_bind; [by apply readUInt32_reads|]. destruct s. apply reads_ret.
Qed.

Lemma reads_step {A B} e (p : M A) (k : A → M B) a b bs :
  reads e p a bs → reads e (k a) b [] → reads e (p ≫= k) b bs.
Proof. intros Hp Hk. rewrite <-(app_nil_r bs). by eapply reads_bind. Qed.

Lemma read_words_reads e ws :
  Forall is_u32 ws → reads e (read_words (List.length ws) true) (true, ws) (words_octets e ws).
Proof.
  induction 1 as [|w ws Hw _ IH]; [apply reads_ret|]. simpl. rewrite u32_small by done.
  eapply reads_bind; [by apply readUInt32_reads|]. eapply reads_step; [apply IH|]. apply reads_ret.
Qed.

(** *** Sets *)

(** The set with the range a receiver gives it: up to the number of bits. *)
Definition ranged {T} `{RangeItem T} (r : BitmapRange.BitmapRange_t T) : BitmapRange.BitmapRange_t T :=
  BitmapRange.mkBR (BitmapRange.base_ r)
    (item_add (BitmapRange.base_ r) (Z.min (BitmapRange.num_bits_ r) (BitmapRange.NBITS - 1)))
    (BitmapRange.bitmap_ r) (BitmapRange.num_bits_ r).

(** The set with the range it has when it is made. *)
Definition widened {T} `{RangeItem T} (r : BitmapRange.BitmapRange_t T) : BitmapRange.BitmapRange_t T :=
  BitmapRange.mkBR (BitmapRange.base_ r) (item_add (BitmapRange.base_ r) (BitmapRange.NBITS - 1))
    (BitmapRange.bitmap_ r) (BitmapRange.num_bits_ r).

Lemma ranged_range {T} `{RangeItemLaws T} (r : BitmapRange.BitmapRange_t T) n :
  BitmapFacts.inv r → 0 <= n < BitmapRange.NBITS →
  item_wf (item_add (BitmapRange.base_ r) n) ∧
  item_val (item_add (BitmapRange.base_ r) n) = item_val (BitmapRange.base_ r) + n.
Proof. intros [Hroom _ _ _ _ _] Hn. apply BitmapFacts.room_add; [done|lia]. Qed.

Lemma rerange_exact {T} `{RangeItemLaws T} (r : BitmapRange.BitmapRange_t T) n :
  BitmapFacts.exact r → 0 <= n < BitmapRange.NBITS →
  BitmapFacts.exact (BitmapRange.mkBR (BitmapRange.base_ r) (item_add (BitmapRange.base_ r) n)
    (BitmapRange.bitmap_ r) (BitmapRange.num_bits_ r)).
Proof.
  intros [Hinv Htop] Hn. destruct (ranged_range r n Hinv Hn) as [Hw Hv]. destruct Hinv as [? ? ? ? ? ?].
  split; [|done]. constructor; simpl; try done. lia.
Qed.

(** The same members, whatever the range. *)
Lemma ranged_same {T} `{RangeItemLaws T} (r : BitmapRange.BitmapRange_t T) :
  BitmapFacts.exact r → BitmapFacts.exact (ranged r) ∧ ∀ x, BitmapFacts.mem (ranged r) x ↔ BitmapFacts.mem r x.
Proof.
  intros Hex. split; [|intros x; by rewrite !BitmapFacts.mem_iff].
  apply rerange_exact; [done|]. destruct Hex as [[_ _ _ _ Hn _] _]. unfold BitmapRange.NBITS in *. lia.
Qed.

Lemma bitmap_words {T} `{RangeItemLaws T} (r s : BitmapRange.BitmapRange_t T) :
  BitmapFacts.exact r →
  let n := BitmapRange.num_bits_ r in
  BitmapRange.bitmap_set s n (take (BitmapRange.n_longs n) (BitmapRange.bitmap_ r)) =
    BitmapRange.mkBR (BitmapRange.base_ s) (BitmapRange.range_max_ s) (BitmapRange.bitmap_ r) n.
Proof.
  intros Hex n. assert (BitmapFacts.exact (widened r)) as Hw by (apply rerange_exact; [done|unfold BitmapRange.NBITS; lia]).
  pose proof (BitmapFacts.bitmap_get_set (widened r) Hw) as Hrt.
  assert (BitmapFacts.full (widened r)) as Hfull.
  { unfold BitmapFacts.full. simpl. destruct Hex as [Hinv _].
    rewrite (proj2 (ranged_range r (BitmapRange.NBITS - 1) Hinv ltac:(unfold BitmapRange.NBITS; lia))). lia. }
  specialize (Hrt Hfull). simpl in Hrt. unfold BitmapRange.bitmap_set in *. simpl in *. fold n in Hrt |- *.
  injection Hrt as E1 E2. f_equal; [exact E1|exact E2].
Qed.

Lemma n_longs_words {T} `{RangeItemLaws T} (r : BitmapRange.BitmapRange_t T) :
  BitmapFacts.inv r →
  let ws := take (BitmapRange.n_longs (BitmapRange.num_bits_ r)) (BitmapRange.bitmap_ r) in
  Forall is_u32 ws ∧ List.length ws = BitmapRange.n_longs (BitmapRange.num_bits_ r).
Proof.
  intros [_ _ _ [Hlen Hall] Hn _]. destruct (BitmapFacts.n_longs_bound _ Hn) as [Hle _]. simpl.
  split; [by apply Forall_take|]. rewrite length_take. lia.
Qed.

(** The octets of the bits of a set are read back as its words. *)
Lemma bitmap_reads {T} `{RangeItemLaws T} {A} e (r : BitmapRange.BitmapRange_t T) (k : bool * Z → M A) a :
  BitmapFacts.exact r →
  (let n := BitmapRange.num_bits_ r in
   reads e (k (true, n)) a (words_octets e (take (BitmapRange.n_longs n) (BitmapRange.bitmap_ r)))) →
  reads e (readUInt32 0 ≫= k) a (bitmap_octets e r).
Proof.
  intros [Hinv _] Hk. pose proof Hinv as [_ _ _ _ Hn _]. unfold bitmap_octets, BitmapRange.empty.
  destruct (Z.eqb_spec (BitmapRange.num_bits_ r) 0) as [E|_].
  - rewrite E in Hk. eapply reads_step; [by apply readUInt32_reads|]. exact Hk.
  - assert (is_u32 (BitmapRange.num_bits_ r)) by (unfold BitmapRange.NBITS in *; range_unfold; lia). rewrite u32_small by done.
    eapply reads_bind; [by apply readUInt32_reads|exact Hk].
Qed.

Lemma readSequenceNumberSet_reads e (s : SequenceNumberSet_t) :
  BitmapFacts.exact s → 0 <= SN.high (BitmapRange.base_ s) →
  reads e readSequenceNumberSet (ranged s) (sn_octets e (BitmapRange.base_ s) ++ bitmap_octets e s).
Proof.
  intros Hex Hhi. pose proof Hex as [Hinv _]. pose proof Hinv as [[Hwf Hroom] _ _ _ Hn _].
  unfold readSequenceNumberSet. eapply reads_bind; [by apply readSequenceNumber_reads|].
  apply (bitmap_reads e s); [done|]. simpl. set (n := BitmapRange.num_bits_ s) in *.
  rewrite (proj2 (Z.leb_le n 256)), (proj2 (Z.leb_le 0 _)) by (unfold BitmapRange.NBITS in *; lia). simpl.
  assert ((if SN.high (BitmapRange.base_ s) =? INT32_MAX
           then Z.min n (UINT32_MAX - SN.low (BitmapRange.base_ s)) else n) = n) as ->.
  { destruct (Z.eqb_spec (SN.high (BitmapRange.base_ s)) INT32_MAX) as [E|]; [|done].
    apply Z.min_l. simpl in Hroom, Hwf. unfold SN.val, BitmapRange.NBITS in *. rewrite E in Hroom. destruct Hwf.
    range_unfold. lia. }
  destruct (n_longs_words s Hinv) as [Hws Hlen]. fold n in Hws, Hlen.
  pose proof (read_words_reads e _ Hws) as Hrd. rewrite Hlen in Hrd. eapply reads_step; [exact Hrd|]. simpl. fold n.
  rewrite (bitmap_words s (BitmapRange.make_max (BitmapRange.base_ s) n) Hex : BitmapRange.bitmap_set _ n _ = _).
  apply reads_ret.
Qed.

Lemma readFragmentNumberSet_reads e (old s : FragmentNumberSet_t) :
  BitmapFacts.exact s →
  reads e (readFragmentNumberSet old) (true, widened s) (enc e 4 (u32 (BitmapRange.base_ s : Z)) ++ bitmap_octets e s).
Proof.
  intros Hex. pose proof Hex as [Hinv _]. pose proof Hinv as [[Hwf _] _ _ _ Hn _]. simpl in Hwf.
  unfold readFragmentNumberSet. rewrite u32_small by exact Hwf.
  eapply reads_bind; [by apply readUInt32_reads|].
  apply (bitmap_reads e s); [done|]. simpl. set (n := BitmapRange.num_bits_ s) in *.
  rewrite (proj2 (Z.leb_le n 256)) by (unfold BitmapRange.NBITS in *; lia). simpl.
  destruct (n_longs_words s Hinv) as [Hws Hlen]. fold n in Hws, Hlen.
  pose proof (read_words_reads e _ Hws) as Hrd. rewrite Hlen in Hrd. eapply reads_step; [exact Hrd|]. simpl. fold n.
  rewrite (bitmap_words s (BitmapRange.set_base old (BitmapRange.base_ s)) Hex : BitmapRange.bitmap_set _ n _ = _).
  apply reads_ret.
Qed.

(** ** Any octets *)

Definition sane (m : CDRMessage_t) : Prop :=
  0 <= pos m <= length m + 2 ^ 17 ∧ length m <= size (buffer m) ∧ length m < 2 ^ 32 - 2 ^ 18.

(** [p] is defined and moves the position forward, not past the end. *)
Definition safe {A} (p : M A) : Prop :=
  ∀ m, sane m → ∃ a q, p m = Done (a, with_pos m q) ∧ pos m <= q <= Z.max (pos m) (length m).

Lemma safe_ret {A} (a : A) : safe (mret a).
Proof. intros m _. exists a, (pos m). split; [by destruct m|lia]. Qed.

Lemma sane_pos m q : sane m → pos m <= q <= Z.max (pos m) (length m) → sane (with_pos m q).
Proof. unfold sane. simpl. intros. lia. Qed.

Lemma safe_bind {A B} (p : M A) (k : A → M B) : safe p → (∀ a, safe (k a)) → safe (p ≫= k).
Proof.
  intros Hp Hk m Hm. destruct (Hp m Hm) as (a & q & E & Hq).
  destruct (Hk a (with_pos m q)) as (b & q' & E' & Hq'); [by apply sane_pos|]. simpl in *.
  exists b, q'. unfold mbind, M_bind. rewrite E. simpl. rewrite E'. split; [done|lia].
Qed.

Lemma safe_load {A} n (k : list Z → M A) m :
  sane m → 0 <= n < 2 ^ 17 → too_short m n = false →
  (∀ bs, List.length bs = Z.to_nat n → safe (k bs)) →
  ∃ a q, (bs ← lift (load m (pos m) n); skip n;; k bs) m = Done (a, with_pos m q) ∧
    pos m <= q <= Z.max (pos m) (length m).
Proof.
  intros Hm Hn Hs Hk. pose proof Hm as (Hp & Hl & H32). unfold too_short in Hs.
  rewrite u32_small in Hs by (range_unfold; lia). apply Z.ltb_ge in Hs.
  unfold mbind, M_bind, lift, skip, modify, load. rewrite !(proj2 (Z.leb_le _ _)) by lia. simpl.
  rewrite u32_small by (range_unfold; lia).
  destruct (Hk (take (Z.to_nat n) (drop (Z.to_nat (pos m)) (buffer m)))) with (with_pos m (pos m + n))
    as (a & q & E & Hq); [rewrite length_take, length_drop; lia|apply sane_pos; [done|lia]|].
  exists a, q. rewrite E. simpl in *. split; [done|lia].
Qed.

Lemma read_integer_safe {A} n (value : Z → A) old : 0 <= n < 2 ^ 17 → safe (read_integer n value old).
Proof.
  intros Hn m Hm. unfold read_integer, read_native. unfold mbind at 1, M_bind at 1, get at 1. simpl.
  destruct (too_short m n) eqn:Hs; [by apply safe_ret|].
  destruct (safe_load n (λ bs, mret (true, value (of_native (if decide (msg_endian m = DEFAULT_ENDIAN) then bs else rev bs))))
    m Hm Hn Hs) as (a & q & E & Hq); [intros; apply safe_ret|]. exists a, q. split; [|done]. rewrite <-E.
  unfold mbind, M_bind, get, lift. simpl. by destruct (load _ _ _).
Qed.

Lemma readOctet_safe old : safe (readOctet old).
Proof.
  intros m Hm. unfold readOctet. unfold mbind at 1, M_bind at 1, get at 1. simpl.
  destruct (too_short m 1) eqn:Hs; [by apply safe_ret|].
  apply (safe_load 1 (λ bs, mret (true, nth 0 bs 0)) m Hm); [lia|done|]. intros. apply safe_ret.
Qed.

Lemma readData_safe old n : 0 <= n < 2 ^ 17 → safe (readData old n).
Proof.
  intros Hn m Hm. unfold readData. unfold mbind at 1, M_bind at 1, get at 1. simpl.
  destruct (too_short m n) eqn:Hs; [by apply safe_ret|]. destruct (0 <? n); [|by apply safe_ret].
  apply (safe_load n (λ bs, mret (true, bs)) m Hm Hn Hs). intros. apply safe_ret.
Qed.

Lemma readEntityId_safe old : safe (readEntityId old).
Proof.
  intros m Hm. unfold readEntityId. unfold mbind at 1, M_bind at 1, get at 1. simpl.
  destruct (too_short m 4) eqn:Hs; [by apply safe_ret|].
  apply (safe_load 4 (λ bs, mret (true, bs)) m Hm); [lia|done|]. intros. apply safe_ret.
Qed.

Lemma readSequenceNumber_safe old : safe (readSequenceNumber old).
Proof.
  intros m Hm. unfold readSequenceNumber. unfold mbind at 1, M_bind at 1, get at 1. simpl.
  destruct (too_short m 8); [by apply safe_ret|]. revert m Hm.
  change (safe (v ← readInt32 (SN.high old); (let '(v1, hi) := v in
    w ← readUInt32 (SN.low old); (let '(v2, lo) := w in mret (v1 && v2, SN.mkSN hi lo))))).
  apply safe_bind; [by apply read_integer_safe|]. intros [v1 hi].
  apply safe_bind; [by apply read_integer_safe|]. intros [v2 lo]. apply safe_ret.
Qed.

Lemma read_words_safe n v : safe (read_words n v).
Proof.
  revert v. induction n as [|n IH]; intros v; [apply safe_ret|]. simpl. destruct v; [|apply safe_ret].
  apply safe_bind; [by apply read_integer_safe|]. intros [v w].
  apply safe_bind; [apply IH|]. intros [v' ws]. apply safe_ret.
Qed.

Lemma readSequenceNumberSet_safe : safe readSequenceNumberSet.
Proof.
  apply safe_bind; [apply readSequenceNumber_safe|]. intros [v1 s].
  apply safe_bind; [by apply read_integer_safe|]. intros [v2 n]. cbv zeta.
  apply safe_bind; [destruct (_ && _); [apply read_words_safe|apply safe_ret]|]. intros [v3 ws]. apply safe_ret.
Qed.

Lemma readFragmentNumberSet_safe s : safe (readFragmentNumberSet s).
Proof.
  apply safe_bind; [by apply read_integer_safe|]. intros [v1 b].
  apply safe_bind; [by apply read_integer_safe|]. intros [v2 n]. cbv zeta.
  apply safe_bind; [destruct (_ && _); [apply read_words_safe|apply safe_ret]|]. intros [v3 ws]. apply safe_ret.
Qed.

Lemma readTimestamp_safe ts : safe (readTimestamp ts).
Proof.
  apply safe_bind; [by apply read_integer_safe|]. intros [v1 b].
  apply safe_bind; [by apply read_integer_safe|]. intros [v2 n]. apply safe_ret.
Qed.

End target.

#[export] Hint Resolve safe_ret readOctet_safe readEntityId_safe readSequenceNumber_safe readSequenceNumberSet_safe
  readFragmentNumberSet_safe readTimestamp_safe : wire.
#[export] Hint Extern 1 (safe (readInt32 _)) => by apply read_integer_safe : wire.
#[export] Hint Extern 1 (safe (readUInt32 _)) => by apply read_integer_safe : wire.
#[export] Hint Extern 1 (safe (readInt16 _)) => by apply read_integer_safe : wire.
#[export] Hint Extern 1 (safe (readUInt16 _)) => by apply read_integer_safe : wire.
#[export] Hint Extern 1 (safe (readData _ _)) => apply readData_safe; lia : wire.

End CDRFacts.
