(* ===== verification/Messages.v ===== *)
(** * Building messages

    RTPSMessageCreator (src/cpp/rtps/messages/RTPSMessageCreator.cpp and the files
    of src/cpp/rtps/messages/submessages) writes the header and the submessages of
    an RTPS message, with the parameters of ParameterSerializer.hpp in the inline
    QoS of data.  Each function is a program on the message it appends to.  The
    build is one without security. *)

From S2P Require Import Prelude.
From S2P Require Import SeqNum.
From S2P Require Import Bitmap.
From S2P Require Import Guid.
From S2P Require Import CacheChange.
From S2P Require Import CDRMessage.

(** ** Constants of the protocol *)

Module RTPS.

Definition PAD : Z := 0x01.
Definition ACKNACK : Z := 0x06.
Definition HEARTBEAT : Z := 0x07.
Definition GAP : Z := 0x08.
Definition INFO_TS : Z := 0x09.
Definition INFO_SRC : Z := 0x0c.
Definition INFO_DST : Z := 0x0e.
Definition NACK_FRAG : Z := 0x12.
Definition HEARTBEAT_FRAG : Z := 0x13.
Definition DATA : Z := 0x15.
Definition DATA_FRAG : Z := 0x16.

Definition PID_SENTINEL : Z := 0x0001.
Definition PID_KEY_HASH : Z := 0x0070.
Definition PID_STATUS_INFO : Z := 0x0071.
Definition PID_RELATED_SAMPLE_IDENTITY : Z := 0x0083.
Definition PID_CUSTOM_RELATED_SAMPLE_IDENTITY : Z := 0x800f.

Definition RTPSMESSAGE_OCTETSTOINLINEQOS_DATASUBMSG : Z := 16.
Definition RTPSMESSAGE_OCTETSTOINLINEQOS_DATAFRAGSUBMSG : Z := 28.

Record ProtocolVersion_t := mkVersion { m_major : Z; m_minor : Z }.
Definition c_ProtocolVersion : ProtocolVersion_t := mkVersion 2 2.

Definition c_VendorId_Unknown : list Z := [0x00; 0x00].
Definition c_VendorId_eProsima : list Z := [0x01; 0x0F].
Definition c_VendorId_rti_connext : list Z := [0x01; 0x01].

Definition PL_CDR_BE : Z := 2.
Definition PL_CDR_LE : Z := 3.

End RTPS.

Module MessageCreator.
Import CDR CacheChange RTPS.

Section target.
Context `{Target}.

(** The flag of the byte order, and a program run in the order of the target. *)
Definition endian_flag : Z := if decide (DEFAULT_ENDIAN = LITTLEEND) then 1 else 0.

Definition flag (i : Z) (b : bool) : Z := if b then Z.shiftl 1 i else 0.

Definition in_target {A} (p : M A) : M A :=
  m ← get; set_endian DEFAULT_ENDIAN;; a ← p; set_endian (msg_endian m);; mret a.

Definition at_pos : M Z := m ← get; mret (pos m).

(** The length behind the header of a submessage, written over. *)
Definition patch_size (size_pos size : Z) : M unit :=
  m ← get; store size_pos (if decide (msg_endian m = DEFAULT_ENDIAN) then native 2 size else rev (native 2 size)).

(** ** Header and information *)

Definition addHeader (guidPrefix : GuidPrefix.GuidPrefix_t) (version : ProtocolVersion_t) (vendorId : list Z) : M bool :=
  addOctet 0x52;; addOctet 0x54;; addOctet 0x50;; addOctet 0x53;;
  addOctet (m_major version);; addOctet (m_minor version);;
  addOctet (nth 0 vendorId 0);; addOctet (nth 1 vendorId 0);;
  addData guidPrefix;;
  m ← get; set_length (pos m);; mret true.

Definition addSubmessageInfoTS (time : Time_t) (invalidateFlag : bool) : M bool :=
  set_endian DEFAULT_ENDIAN;;
  addOctet INFO_TS;;
  addOctet (Z.lor endian_flag (flag 1 invalidateFlag));;
  addUInt16 (if invalidateFlag then 0 else 8);;
  (if invalidateFlag then mret true else addInt32 (seconds time);; addUInt32 (fraction time));;
  mret true.

Definition addSubmessageInfoSRC (version : ProtocolVersion_t) (vendorId : list Z) (guidPrefix : GuidPrefix.GuidPrefix_t)
    : M bool :=
  set_endian DEFAULT_ENDIAN;;
  addOctet INFO_SRC;; addOctet endian_flag;; addUInt16 20;; addUInt32 0;;
  addOctet (m_major version);; addOctet (m_minor version);;
  addOctet (nth 0 vendorId 0);; addOctet (nth 1 vendorId 0);;
  addData guidPrefix;;
  mret true.

Definition addSubmessageInfoDST (guidP : GuidPrefix.GuidPrefix_t) : M bool :=
  set_endian DEFAULT_ENDIAN;;
  addOctet INFO_DST;; addOctet endian_flag;; addUInt16 12;; addData guidP;; mret true.

(** ** Submessages of the protocol *)

(** The header with a length of zero; where the length is, and where it counts
    from. *)
Definition open_submessage (id flags : Z) : M (Z * Z) :=
  addOctet id;; addOctet flags;;
  submessage_size_pos ← at_pos;
  addUInt16 0;;
  position_size_count_size ← at_pos;
  mret (submessage_size_pos, position_size_count_size).

Definition submessage (id flags : Z) (content : M bool) : M bool :=
  in_target (
    '(submessage_size_pos, position_size_count_size) ← open_submessage id flags;
    content;;
    p ← at_pos;
    patch_size submessage_size_pos (u16 (u32 (p - position_size_count_size)));;
    mret true).

Definition addSubmessageAcknack (readerId writerId : EntityId.EntityId_t) (SNSet : SequenceNumberSet_t)
    (count : Z) (finalFlag : bool) : M bool :=
  submessage ACKNACK (Z.lor endian_flag (flag 1 finalFlag))
    (addEntityId readerId;; addEntityId writerId;; addSequenceNumberSet SNSet;; addInt32 count).

Definition addSubmessageNackFrag (readerId writerId : EntityId.EntityId_t) (writerSN : SN.SequenceNumber_t)
    (fnState : FragmentNumberSet_t) (count : Z) : M bool :=
  submessage NACK_FRAG endian_flag
    (addEntityId readerId;; addEntityId writerId;; addSequenceNumber writerSN;;
     addFragmentNumberSet fnState;; addUInt32 count).

Definition addSubmessageGap (seqNumFirst : SN.SequenceNumber_t) (seqNumList : SequenceNumberSet_t)
    (readerId writerId : EntityId.EntityId_t) : M bool :=
  submessage GAP endian_flag
    (addEntityId readerId;; addEntityId writerId;; addSequenceNumber seqNumFirst;; addSequenceNumberSet seqNumList).

Definition addSubmessageHeartbeat (readerId writerId : EntityId.EntityId_t) (firstSN lastSN : SN.SequenceNumber_t)
    (count : Z) (isFinal livelinessFlag : bool) : M bool :=
  submessage HEARTBEAT (Z.lor (Z.lor endian_flag (flag 1 isFinal)) (flag 2 livelinessFlag))
    (addEntityId readerId;; addEntityId writerId;; addSequenceNumber firstSN;; addSequenceNumber lastSN;; addInt32 count).

Definition addSubmessageHeartbeatFrag (readerId writerId : EntityId.EntityId_t) (firstSN : SN.SequenceNumber_t)
    (lastFN count : Z) : M bool :=
  submessage HEARTBEAT_FRAG endian_flag
    (addEntityId readerId;; addEntityId writerId;; addSequenceNumber firstSN;; addUInt32 lastFN;; addInt32 count).

(** ** Parameters *)

Definition add_parameter_status (status : Z) : M bool :=
  m ← get;
  if max_size m <=? u32 (pos m + 8) then mret false
  else
    addUInt16 PID_STATUS_INFO;; addUInt16 4;;
    addOctet 0;; addOctet 0;; addOctet 0;; addOctet status;; mret true.

(** An instance handle that has not been set is all zeros. *)
Definition add_parameter_key (iHandle : option (list Z)) : M bool :=
  m ← get;
  if max_size m <=? u32 (pos m + 20) then mret false
  else addUInt16 PID_KEY_HASH;; addUInt16 16;; addData (default (replicate 16 0) iHandle);; mret true.

Definition add_parameter_sentinel : M bool :=
  m ← get;
  if max_size m <? u32 (pos m + 4) then mret false
  else addUInt16 PID_SENTINEL;; addUInt16 0;; mret true.

(** [add_parameter_sample_identity] and [add_parameter_custom_related_sample_identity]
    differ in the identifier. *)
Definition add_parameter_identity (pid : Z) (sample_id : SampleIdentity) : M bool :=
  m ← get;
  if max_size m <? u32 (pos m + 28) then mret false
  else
    addUInt16 pid;; addUInt16 24;;
    addData (Guid.guidPrefix (writer_guid sample_id));; addData (Guid.entityId (writer_guid sample_id));;
    addInt32 (SN.high (sequence_number sample_id));; addUInt32 (SN.low (sequence_number sample_id));;
    mret true.

Definition add_parameter_sample_identity : SampleIdentity → M bool :=
  add_parameter_identity PID_RELATED_SAMPLE_IDENTITY.
Definition add_parameter_custom_related_sample_identity : SampleIdentity → M bool :=
  add_parameter_identity PID_CUSTOM_RELATED_SAMPLE_IDENTITY.

(** ** Data *)

(** [addData] from a payload. *)
Definition addPayload (p : Payload.SerializedPayload_t) : M bool :=
  m ← get;
  if negb (hasSpace m (Payload.length p)) then mret false
  else match Payload.data p with
  | None => if 0 <? Payload.length p then mret false else mret true
  | Some d => bs ← lift (Payload.octets d (Payload.length p)); copyToBuffer bs false;; mret true
  end.

(** Which parts a change has: inline QoS, data, key, and its status. *)
Record SubmessageFlags := mkFlags { inlineQosFlag : bool; dataFlag : bool; keyFlag : bool; status : Z }.

Definition is_builtin (g : Guid.GUID_t) : bool := 0xC0 <=? nth 3 (Guid.entityId g) 0.

Definition is_alive (c : CacheChange_t) : bool := bool_decide (kind c = ALIVE).

(** The key goes into the inline QoS. *)
Definition key_in_qos (c : CacheChange_t) (with_key expectsInlineQos : bool) : bool :=
  with_key && (negb (is_builtin (writerGUID c)) || expectsInlineQos || negb (is_alive c)).

Definition related_known (c : CacheChange_t) : bool :=
  negb (identity_eqb (related_sample_identity (write_params c)) unknown_identity).

Definition present {A} (o : option A) : bool := match o with Some _ => true | None => false end.

Definition has_data (p : Payload.SerializedPayload_t) : bool :=
  (0 <? Payload.length p) && present (Payload.data p).

Definition change_status (k : ChangeKind_t) : Z :=
  match k with
  | ALIVE => 0
  | NOT_ALIVE_DISPOSED => 1
  | NOT_ALIVE_UNREGISTERED => 2
  | NOT_ALIVE_DISPOSED_UNREGISTERED => 3
  end.

Definition prepare_submessage_flags (c : CacheChange_t) (with_key expectsInlineQos : bool)
    (inlineQos : option Payload.SerializedPayload_t) : SubmessageFlags :=
  let inline := present inlineQos || key_in_qos c with_key expectsInlineQos || related_known c in
  let data := is_alive c && has_data (serializedPayload c) in
  mkFlags inline data (negb data && negb inline && with_key) (change_status (kind c)).

(** The fields behind the header, those of a fragment included. *)
Definition serialize_fields (fragment_number : Z) (c : CacheChange_t) (readerId : EntityId.EntityId_t) : M bool :=
  let is_fragment := 0 <? fragment_number in
  ok1 ← addUInt16 0;
  ok2 ← addUInt16 (if is_fragment then RTPSMESSAGE_OCTETSTOINLINEQOS_DATAFRAGSUBMSG
                   else RTPSMESSAGE_OCTETSTOINLINEQOS_DATASUBMSG);
  ok3 ← addEntityId readerId;
  ok4 ← addEntityId (Guid.entityId (writerGUID c));
  ok5 ← addSequenceNumber (sequenceNumber c);
  ok6 ← (if is_fragment then
           f1 ← addUInt32 fragment_number;
           f2 ← addUInt16 1;
           f3 ← addUInt16 (getFragmentSize c);
           f4 ← addUInt32 (Payload.length (serializedPayload c));
           mret (f1 && f2 && f3 && f4)
         else mret true);
  mret (ok1 && ok2 && ok3 && ok4 && ok5 && ok6).

Definition serialize_header (fragment_number : Z) (c : CacheChange_t) (readerId : EntityId.EntityId_t) (flags : Z)
    : M (bool * (Z * Z)) :=
  places ← open_submessage (if 0 <? fragment_number then DATA_FRAG else DATA) flags;
  ok ← serialize_fields fragment_number c readerId;
  mret (ok, places).

Definition serialize_inline_qos (c : CacheChange_t) (with_key expectsInlineQos : bool)
    (inlineQos : option Payload.SerializedPayload_t) (status : Z) : M unit :=
  (if related_known c then
     add_parameter_sample_identity (related_sample_identity (write_params c));;
     add_parameter_custom_related_sample_identity (related_sample_identity (write_params c))
   else mret true);;
  (if key_in_qos c with_key expectsInlineQos then
     add_parameter_key (instanceHandle c);;
     if is_alive c then mret true else add_parameter_status status
   else mret true);;
  (match inlineQos with Some q => addPayload q | None => mret true end);;
  add_parameter_sentinel;;
  mret tt.

Fixpoint add_zeros (n : nat) : M bool :=
  match n with
  | O => mret true
  | S n => ok ← addOctet 0; rest ← add_zeros n; mret (ok && rest)
  end.

(** The key as a parameter list of its own. *)
Definition serialize_key (c : CacheChange_t) (status : Z) : M bool :=
  k1 ← addOctet 0;
  m ← get;
  k2 ← addOctet (if decide (msg_endian m = BIGEND) then PL_CDR_BE else PL_CDR_LE);
  k3 ← addUInt16 0;
  k4 ← add_parameter_key (instanceHandle c);
  k5 ← add_parameter_status status;
  k6 ← add_parameter_sentinel;
  mret (k1 && k2 && k3 && k4 && k5 && k6).

(** [addSubmessageData]: whether everything fitted, and whether the submessage is
    too long for its length field. *)
Definition addSubmessageData (c : CacheChange_t) (with_key : bool) (readerId : EntityId.EntityId_t)
    (expectsInlineQos : bool) (inlineQos : option Payload.SerializedPayload_t) : M (bool * bool) :=
  let f := prepare_submessage_flags c with_key expectsInlineQos inlineQos in
  let flags := Z.lor (Z.lor (Z.lor endian_flag (flag 1 (inlineQosFlag f))) (flag 2 (dataFlag f))) (flag 3 (keyFlag f)) in
  in_target (
    '(ok, (size_pos, start)) ← serialize_header 0 c readerId flags;
    (if inlineQosFlag f then serialize_inline_qos c with_key expectsInlineQos inlineQos (status f) else mret tt);;
    ok1 ← (if dataFlag f then addPayload (serializedPayload c) else mret true);
    ok2 ← (if keyFlag f then serialize_key c (status f) else mret true);
    p ← at_pos;
    ok3 ← add_zeros (Z.to_nat (Z.land (4 - p mod 4) 3));
    p ← at_pos;
    let size32 := u32 (p - start) in
    let is_big := negb (size32 <=? UINT16_MAX) in
    (if is_big then mret tt else patch_size size_pos size32);;
    mret (ok && ok1 && ok2 && ok3, is_big)).

(** [addSubmessageDataFrag]: a change with a key only is refused after its header
    has been written. *)
Definition addSubmessageDataFrag (c : CacheChange_t) (fragment_number : Z) (payload : Payload.SerializedPayload_t)
    (with_key : bool) (readerId : EntityId.EntityId_t) (expectsInlineQos : bool)
    (inlineQos : option Payload.SerializedPayload_t) : M bool :=
  let f := prepare_submessage_flags c with_key expectsInlineQos inlineQos in
  let flags := Z.lor (Z.lor endian_flag (flag 1 (inlineQosFlag f))) (flag 2 (keyFlag f)) in
  in_target (
    '(ok, (size_pos, start)) ← serialize_header fragment_number c readerId flags;
    (if inlineQosFlag f then serialize_inline_qos c with_key expectsInlineQos inlineQos (status f) else mret tt);;
    if keyFlag f then mret false
    else
      ok1 ← addPayload payload;
      p ← at_pos;
      let size := u16 (u32 (p - start)) in
      let padding := (4 - size mod 4) mod 4 in
      ok2 ← add_zeros (Z.to_nat padding);
      patch_size size_pos (u16 (size + padding));;
      mret (ok && ok1 && ok2)).

End target.

(** The place of a fragment in its sample: where it starts, and its size. *)
Definition fragment_place (c : CacheChange_t) (fragment_number : Z) : Z * Z :=
  let fragment_start := u32 (getFragmentSize c * u32 (fragment_number - 1)) in
  (fragment_start, if fragment_number <? getFragmentCount c then getFragmentSize c
                   else u32 (Payload.length (serializedPayload c) - fragment_start)).

(** The payload of a fragment, which points into that of the sample. *)
Definition fragment_payload (c : CacheChange_t) (fragment_number : Z) : Payload.SerializedPayload_t :=
  let '(fragment_start, fragment_size) := fragment_place c fragment_number in
  Payload.mkPayload (Payload.encapsulation (serializedPayload c)) fragment_size
    (drop (Z.to_nat fragment_start) <$> Payload.data (serializedPayload c)) 0 0.

End MessageCreator.
