(* ===== verification/MessageReceiver.v ===== *)
(** * Receiving messages

    MessageReceiver (src/cpp/rtps/messages/MessageReceiver.cpp) takes an RTPS
    message apart and hands its submessages to the readers and writers of the
    participant, with the inline QoS parsed by ParameterList
    (src/cpp/fastdds/core/policy/ParameterList.cpp and .hpp) and
    ParameterSerializer.hpp.  The participant and its endpoints are the class
    [Endpoints], with one operation per call the receiver makes.  The build is one
    without security and without the statistics module. *)

From S2P Require Import Prelude.
From S2P Require Import SeqNum.
From S2P Require Import Bitmap.
From S2P Require Import Guid.
From S2P Require Import CacheChange.
From S2P Require Import CDRMessage.
From S2P Require Import Messages.

(** The participant and its endpoints; readers and writers are named by
    numbers.  [process_acknack] and [process_nack_frag] say whether the writer is
    the one meant, and then with which result. *)
Class Endpoints (E : Type) := {
  own_prefix : E → GuidPrefix.GuidPrefix_t;
  is_participant_ignored : E → GuidPrefix.GuidPrefix_t → bool;
  assert_remote_participant_liveliness : E → GuidPrefix.GuidPrefix_t → E;
  accepts_unknown : E → nat → bool;
  processDataMsg : E → nat → CacheChange.CacheChange_t → E;
  processDataFragMsg : E → nat → CacheChange.CacheChange_t → Z → Z → Z → E;
  processHeartbeatMsg : E → nat → Guid.GUID_t → Z → SN.SequenceNumber_t → SN.SequenceNumber_t → bool → bool → list Z → E;
  processGapMsg : E → nat → Guid.GUID_t → SN.SequenceNumber_t → SequenceNumberSet_t → list Z → E;
  process_acknack : E → nat → Guid.GUID_t → Guid.GUID_t → Z → SequenceNumberSet_t → bool → list Z → option bool * E;
  process_nack_frag : E → nat → Guid.GUID_t → Guid.GUID_t → Z → SN.SequenceNumber_t → FragmentNumberSet_t → list Z →
    option bool * E
}.

(** ** Parameter lists *)

Module ParameterList.
Import CDR CacheChange RTPS.

Section target.
Context `{Target}.

Definition with_key (c : CacheChange_t) (k : list Z) : CacheChange_t :=
  mkChange (kind c) (writerGUID c) (Some k) (sequenceNumber c) (serializedPayload c)
    (inline_qos c) (isRead c) (sourceTimestamp c) (receptionTimestamp c) (vendor_id c)
    (write_params c) (is_untyped_ c) (fragment_size_ c) (fragment_count_ c) (first_missing_fragment_ c).

Definition with_kind (c : CacheChange_t) (k : ChangeKind_t) : CacheChange_t :=
  mkChange k (writerGUID c) (instanceHandle c) (sequenceNumber c) (serializedPayload c)
    (inline_qos c) (isRead c) (sourceTimestamp c) (receptionTimestamp c) (vendor_id c)
    (write_params c) (is_untyped_ c) (fragment_size_ c) (fragment_count_ c) (first_missing_fragment_ c).

Definition with_identity (c : CacheChange_t) (i : SampleIdentity) : CacheChange_t :=
  mkChange (kind c) (writerGUID c) (instanceHandle c) (sequenceNumber c) (serializedPayload c)
    (inline_qos c) (isRead c) (sourceTimestamp c) (receptionTimestamp c) (vendor_id c)
    (mkParams i (related_sample_identity (write_params c)) (source_timestamp (write_params c)))
    (is_untyped_ c) (fragment_size_ c) (fragment_count_ c) (first_missing_fragment_ c).

(** The contents of the parameters: [None] when they cannot be read. *)
Definition read_key (plength : Z) : M (option (list Z)) :=
  if plength =? 16 then '(valid, key) ← readData (replicate 16 0) 16; mret (if valid : bool then Some key else None)
  else mret None.

Definition read_sample_identity (plength : Z) : M (option SampleIdentity) :=
  if plength =? 24 then
    '(v1, prefix) ← readData GuidPrefix.unknown 12;
    '(v2, entity) ← readData EntityId.unknown 4;
    '(v3, hi) ← readInt32 (SN.high SN.unknown);
    '(v4, lo) ← readUInt32 (SN.low SN.unknown);
    mret (if v1 && v2 && v3 && v4 then Some (mkIdentity (Guid.mkGUID prefix entity) (SN.mkSN hi lo)) else None)
  else mret None.

Definition read_status_info (plength : Z) : M (option Z) :=
  if plength =? 4 then
    '(v1, _) ← readOctet 0;
    '(v2, _) ← readOctet 0;
    '(v3, _) ← readOctet 0;
    '(v4, st) ← readOctet 0;
    mret (if v1 && v2 && v3 && v4 then Some st else None)
  else mret None.

Definition status_kind (old : ChangeKind_t) (st : Z) : ChangeKind_t :=
  if st =? 1 then NOT_ALIVE_DISPOSED
  else if st =? 2 then NOT_ALIVE_UNREGISTERED
  else if st =? 3 then NOT_ALIVE_DISPOSED_UNREGISTERED
  else old.

(** A parameter of the inline QoS: [false] ends the list with an error. *)
Definition parameter_process (c : CacheChange_t) (pid plength : Z) : M (bool * CacheChange_t) :=
  if pid =? PID_KEY_HASH then
    k ← read_key plength;
    mret (match k with Some key => (true, with_key c key) | None => (false, c) end)
  else if (pid =? PID_CUSTOM_RELATED_SAMPLE_IDENTITY) || (pid =? PID_RELATED_SAMPLE_IDENTITY) then
    if (pid =? PID_CUSTOM_RELATED_SAMPLE_IDENTITY) &&
       bool_decide (c_VendorId_eProsima ≠ vendor_id c) && bool_decide (c_VendorId_rti_connext ≠ vendor_id c)
    then mret (true, c)
    else if 24 <=? plength then
      i ← read_sample_identity plength;
      mret (match i with Some sample_id => (true, with_identity c sample_id) | None => (false, c) end)
    else mret (true, c)
  else if pid =? PID_STATUS_INFO then
    s ← read_status_info plength;
    mret (match s with Some st => (true, with_kind c (status_kind (kind c) st)) | None => (false, c) end)
  else mret (true, c).

(** [readParameterListfromCDRMsg] without encapsulation: parameters from
    [original_pos + qos_size] on, up to the sentinel. *)
Fixpoint read_parameters (fuel : nat) (original_pos qos_size : Z) (c : CacheChange_t)
    : M (bool * CacheChange_t * Z) :=
  match fuel with
  | O => λ _, Unfinished
  | S fuel =>
      set_pos (u32 (original_pos + qos_size));;
      '(v1, pid) ← readUInt16 PID_SENTINEL;
      '(v2, plength) ← readUInt16 0;
      let is_sentinel := pid =? PID_SENTINEL in
      let plength := if is_sentinel then 0 else plength in
      let qos_size := u32 (qos_size + (4 + plength)) in
      let qos_size := Z.land (u32 (qos_size + 3)) (UINT32_MAX - 3) in
      m ← get;
      if negb (v1 && v2) || (length m <? u32 (pos m + plength)) then mret (false, c, qos_size)
      else if is_sentinel then mret (true, c, qos_size)
      else
        '(ok, c) ← parameter_process c pid plength;
        if ok : bool then read_parameters fuel original_pos qos_size c else mret (false, c, qos_size)
  end.

(** The loop reads four octets in each round. *)
Definition updateCacheChangeFromInlineQos (c : CacheChange_t) : M (bool * CacheChange_t * Z) :=
  m ← get; read_parameters (S (Z.to_nat (length m))) (pos m) 0 c.

End target.
End ParameterList.

Module MessageReceiver.
Import CDR CacheChange RTPS ParameterList.

Record MessageReceiver := mkReceiver {
  associated_writers_ : list nat;
  associated_readers_ : list (EntityId.EntityId_t * list nat);
  source_version_ : ProtocolVersion_t;
  source_vendor_id_ : list Z;
  source_guid_prefix_ : GuidPrefix.GuidPrefix_t;
  dest_guid_prefix_ : GuidPrefix.GuidPrefix_t;
  have_timestamp_ : bool;
  timestamp_ : Time_t
}.

Definition c_TimeInvalid : Time_t := mkTime (-1) UINT32_MAX.

Definition make_receiver : MessageReceiver :=
  mkReceiver [] [] c_ProtocolVersion c_VendorId_Unknown GuidPrefix.unknown GuidPrefix.unknown false c_TimeInvalid.

Definition reset (r : MessageReceiver) : MessageReceiver :=
  mkReceiver (associated_writers_ r) (associated_readers_ r) c_ProtocolVersion c_VendorId_Unknown
    GuidPrefix.unknown GuidPrefix.unknown false c_TimeInvalid.

Definition with_dest (r : MessageReceiver) (p : GuidPrefix.GuidPrefix_t) : MessageReceiver :=
  mkReceiver (associated_writers_ r) (associated_readers_ r) (source_version_ r) (source_vendor_id_ r)
    (source_guid_prefix_ r) p (have_timestamp_ r) (timestamp_ r).

Definition with_source (r : MessageReceiver) (v : ProtocolVersion_t) (vendor : list Z)
    (p : GuidPrefix.GuidPrefix_t) : MessageReceiver :=
  mkReceiver (associated_writers_ r) (associated_readers_ r) v vendor p (dest_guid_prefix_ r)
    (have_timestamp_ r) (timestamp_ r).

Definition with_timestamp (r : MessageReceiver) (have : bool) (t : Time_t) : MessageReceiver :=
  mkReceiver (associated_writers_ r) (associated_readers_ r) (source_version_ r) (source_vendor_id_ r)
    (source_guid_prefix_ r) (dest_guid_prefix_ r) have t.

Definition with_endpoints (r : MessageReceiver) (ws : list nat) (rs : list (EntityId.EntityId_t * list nat))
    : MessageReceiver :=
  mkReceiver ws rs (source_version_ r) (source_vendor_id_ r) (source_guid_prefix_ r) (dest_guid_prefix_ r)
    (have_timestamp_ r) (timestamp_ r).

(** ** The endpoints of the receiver *)

Definition readers_map : Type := list (EntityId.EntityId_t * list nat).

Fixpoint find_readers (id : EntityId.EntityId_t) (l : readers_map) : option (list nat) :=
  match l with
  | [] => None
  | (k, rs) :: l => if EntityId.eqb k id then Some rs else find_readers id l
  end.

(** The entry of an identifier replaced, [None] erasing it. *)
Fixpoint set_readers (id : EntityId.EntityId_t) (rs : option (list nat)) (l : readers_map) : readers_map :=
  match l with
  | [] => []
  | (k, old) :: l =>
      if EntityId.eqb k id then match rs with Some rs => (k, rs) :: l | None => l end
      else (k, old) :: set_readers id rs l
  end.

Definition associate_writer (r : MessageReceiver) (w : nat) : MessageReceiver :=
  if bool_decide (w ∈ associated_writers_ r) then r
  else with_endpoints r (associated_writers_ r ++ [w]) (associated_readers_ r).

Definition associate_reader (r : MessageReceiver) (id : EntityId.EntityId_t) (x : nat) : MessageReceiver :=
  match find_readers id (associated_readers_ r) with
  | None => with_endpoints r (associated_writers_ r) (associated_readers_ r ++ [(id, [x])])
  | Some rs =>
      if bool_decide (x ∈ rs) then r
      else with_endpoints r (associated_writers_ r) (set_readers id (Some (rs ++ [x])) (associated_readers_ r))
  end.

(** The first occurrence erased. *)
Fixpoint erase_first (x : nat) (l : list nat) : list nat :=
  match l with
  | [] => []
  | y :: l => if Nat.eqb x y then l else y :: erase_first x l
  end.

Definition remove_writer (r : MessageReceiver) (w : nat) : MessageReceiver :=
  with_endpoints r (erase_first w (associated_writers_ r)) (associated_readers_ r).

Definition remove_reader (r : MessageReceiver) (id : EntityId.EntityId_t) (x : nat) : MessageReceiver :=
  match find_readers id (associated_readers_ r) with
  | None => r
  | Some rs =>
      if bool_decide (x ∈ rs) then
        let rs := erase_first x rs in
        with_endpoints r (associated_writers_ r)
          (set_readers id (if bool_decide (rs = []) then None else Some rs) (associated_readers_ r))
      else r
  end.

Section endpoints.
Context `{Target} {E : Type} `{Endpoints E}.

Definition willAReaderAcceptMsgDirectedTo (r : MessageReceiver) (e : E) (readerID : EntityId.EntityId_t) : bool :=
  if negb (EntityId.eqb readerID EntityId.unknown)
  then match find_readers readerID (associated_readers_ r) with Some _ => true | None => false end
  else existsb (λ x, existsb (accepts_unknown e) x.2) (associated_readers_ r).

(** The readers a message for [readerID] goes to, in the order of the calls.  The code keeps
    them in an unordered map, whose order is not specified; here the entity ids come in the
    order in which they were added.  It also hands the same change object to one reader
    after the other; here each is given the change as it was received. *)
Definition findAllReaders (r : MessageReceiver) (readerID : EntityId.EntityId_t) (callback : E → nat → E) (e : E) : E :=
  if negb (EntityId.eqb readerID EntityId.unknown)
  then match find_readers readerID (associated_readers_ r) with
       | Some rs => foldl callback e rs
       | None => e
       end
  else foldl (λ e x, if accepts_unknown e x then callback e x else e) e (associated_readers_ r ≫= snd).

(** The first writer that takes a message decides. *)
Fixpoint ask_writers (ask : E → nat → option bool * E) (ws : list nat) (e : E) : bool * E :=
  match ws with
  | [] => (false, e)
  | w :: ws =>
      match ask e w with
      | (Some result, e) => (result, e)
      | (None, e) => ask_writers ask ws e
      end
  end.

(** ** Headers *)

Record SubmessageHeader_t := mkHeader { submessageId : Z; submessageLength : Z; flags : Z; is_last : bool }.

Definition bit (smh : SubmessageHeader_t) (i : Z) : bool := negb (Z.land (flags smh) (Z.shiftl 1 i) =? 0).

Definition set_endianness (smh : SubmessageHeader_t) : M unit :=
  set_endian (if bit smh 0 then LITTLEEND else BIGEND).

(** An octet of the buffer, which the header checks read without a bound. *)
Definition octet_at (i : Z) : M Z := m ← get; bs ← lift (load m i 1); mret (nth 0 bs 0).

Definition next_octet : M Z := m ← get; x ← octet_at (pos m); skip 1;; mret x.

Definition checkRTPSHeader (r : MessageReceiver) : M (bool * MessageReceiver) :=
  b0 ← octet_at 0; b1 ← octet_at 1; b2 ← octet_at 2; b3 ← octet_at 3;
  if negb ((b0 =? 0x52) && (b1 =? 0x54) && (b2 =? 0x50) && (b3 =? 0x53)) then mret (false, r)
  else
    skip 4;;
    m ← get; major ← octet_at (pos m);
    if major =? m_major c_ProtocolVersion then
      skip 1;;
      minor ← next_octet;
      v0 ← next_octet;
      v1 ← next_octet;
      '(_, prefix) ← readData (source_guid_prefix_ r) (Z.of_nat GuidPrefix.size);
      mret (true, with_timestamp (with_source r (mkVersion major minor) [v0; v1] prefix) false (timestamp_ r))
    else mret (false, r).

Definition readSubmessageHeader : M (bool * SubmessageHeader_t) :=
  m ← get;
  if u32 (length m - pos m) <? 4 then mret (false, mkHeader 0 0 0 false)
  else
    id ← next_octet;
    fl ← next_octet;
    set_endian (if negb (Z.land fl 1 =? 0) then LITTLEEND else BIGEND);;
    '(_, len) ← readUInt16 0;
    m ← get;
    if length m <? u32 (pos m + len) then mret (false, mkHeader id 0 fl false)
    else if (len =? 0) && negb (id =? INFO_TS) && negb (id =? PAD)
    then mret (true, mkHeader id (u32 (length m - pos m)) fl true)
    else mret (true, mkHeader id len fl false).

(** ** Data *)

(** A change as its constructor leaves it. *)
Definition new_change : CacheChange_t :=
  mkChange ALIVE Guid.c_Guid_Unknown None SN.default Payload.default_payload
    (Payload.with_encapsulation Payload.default_payload
       (if decide (DEFAULT_ENDIAN = LITTLEEND) then PL_CDR_LE else PL_CDR_BE))
    false (mkTime 0 0) (mkTime 0 0) c_VendorId_Unknown
    (mkParams unknown_identity unknown_identity (mkTime (-1) UINT32_MAX)) true 0 0 0.

Definition with_writer (c : CacheChange_t) (g : Guid.GUID_t) (s : SN.SequenceNumber_t) : CacheChange_t :=
  mkChange (kind c) g (instanceHandle c) s (serializedPayload c)
    (inline_qos c) (isRead c) (sourceTimestamp c) (receptionTimestamp c) (vendor_id c)
    (write_params c) (is_untyped_ c) (fragment_size_ c) (fragment_count_ c) (first_missing_fragment_ c).

Definition with_inline_qos (c : CacheChange_t) (q : Payload.SerializedPayload_t) : CacheChange_t :=
  mkChange (kind c) (writerGUID c) (instanceHandle c) (sequenceNumber c) (serializedPayload c)
    q (isRead c) (sourceTimestamp c) (receptionTimestamp c) (vendor_id c)
    (write_params c) (is_untyped_ c) (fragment_size_ c) (fragment_count_ c) (first_missing_fragment_ c).

Definition with_source_time (c : CacheChange_t) (t : Time_t) : CacheChange_t :=
  mkChange (kind c) (writerGUID c) (instanceHandle c) (sequenceNumber c) (serializedPayload c)
    (inline_qos c) (isRead c) t (receptionTimestamp c) (vendor_id c)
    (write_params c) (is_untyped_ c) (fragment_size_ c) (fragment_count_ c) (first_missing_fragment_ c).

Definition stamp (r : MessageReceiver) (c : CacheChange_t) : CacheChange_t :=
  if have_timestamp_ r then with_source_time c (timestamp_ r) else c.

(** A payload that points into the message: [data] is what is allocated from
    there on. *)
Definition payload_at (m : CDRMessage_t) (at_ size : Z) (p : Payload.SerializedPayload_t) : Payload.SerializedPayload_t :=
  Payload.mkPayload (Payload.encapsulation p) size (Some (drop (Z.to_nat at_) (buffer m))) size (Payload.pos p).

(** The jump over what comes before the inline QoS, [false] when it leads out of
    the message. *)
Definition jump_to_qos (octetsToInlineQos expected : Z) : M bool :=
  if expected <? octetsToInlineQos then
    skip (octetsToInlineQos - expected);;
    m ← get; mret (negb (length m <? pos m))
  else mret true.

(** The inline QoS, if there is one: whether it was read, and its size. *)
Definition read_inline_qos (smh : SubmessageHeader_t) (c : CacheChange_t) : M (bool * CacheChange_t * Z) :=
  if bit smh 1 then
    '(ok, c, qos_size) ← updateCacheChangeFromInlineQos c;
    m ← get;
    let q := payload_at m (u32 (pos m - qos_size)) qos_size (inline_qos c) in
    mret (ok, with_inline_qos c (Payload.mkPayload (if bit smh 0 then PL_CDR_LE else PL_CDR_BE)
                (Payload.length q) (Payload.data q) (Payload.max_size q) 0), qos_size)
  else mret (true, c, 0).

Definition RTPSMESSAGE_DATA_MIN_LENGTH : Z := 24.
Definition RTPSMESSAGE_DATA_EXTRA_INLINEQOS_SIZE : Z := 4.
Definition PARAMETER_KEY_HASH_LENGTH : Z := 16.

(** The octets of a key copied over the handle. *)
Definition overwrite_key (old : option (list Z)) (bs : list Z) : list Z :=
  bs ++ drop (List.length bs) (default (replicate 16 0) old).

(** The payload of a data submessage, [None] when it is refused. *)
Definition read_payload (smh : SubmessageHeader_t) (octetsToInlineQos inlineQosSize : Z) (c : CacheChange_t)
    : M (option CacheChange_t) :=
  let dataFlag := bit smh 2 in
  if dataFlag || bit smh 3 then
    let no_payload := u32 (RTPSMESSAGE_DATA_EXTRA_INLINEQOS_SIZE + octetsToInlineQos + inlineQosSize) in
    if submessageLength smh <? no_payload then mret None
    else
      let payload_size := submessageLength smh - no_payload in
      m ← get;
      if dataFlag then
        let next_pos := u32 (pos m + payload_size) in
        if (next_pos <=? length m) && (0 <? payload_size) then
          set_pos next_pos;;
          mret (Some (with_payload c (payload_at m (pos m) payload_size (serializedPayload c))))
        else mret None
      else if payload_size <=? 0 then mret None
      else
        c ← (if payload_size <=? PARAMETER_KEY_HASH_LENGTH then
               bs ← lift (load m (pos m) payload_size);
               mret (with_key c (overwrite_key (instanceHandle c) bs))
             else mret c);
        skip payload_size;;
        mret (Some c)
  else mret (Some c).

(** [proc_Submsg_Data]: whether the message goes on, and the entity of the
    writer. *)
Definition proc_Submsg_Data (r : MessageReceiver) (smh : SubmessageHeader_t) (e : E)
    : M (bool * EntityId.EntityId_t * E) :=
  let refused (w : EntityId.EntityId_t) := (mret (false, w, e) : M (bool * EntityId.EntityId_t * E)) in
  if (submessageLength smh <? RTPSMESSAGE_DATA_MIN_LENGTH) || (bit smh 3 && bit smh 2) then refused EntityId.unknown
  else
    set_endianness smh;;
    skip 2;;
    '(v1, octetsToInlineQos) ← readInt16 0;
    '(v2, readerID) ← readEntityId EntityId.unknown;
    if negb (willAReaderAcceptMsgDirectedTo r e readerID) then refused EntityId.unknown
    else
      '(v3, writerID) ← readEntityId EntityId.unknown;
      '(v4, sn) ← readSequenceNumber SN.default;
      if negb (v1 && v2 && v3 && v4) || SN.leb sn SN.default then refused writerID
      else
        let c := with_writer new_change (Guid.mkGUID (source_guid_prefix_ r) writerID) sn in
        inside ← jump_to_qos octetsToInlineQos RTPSMESSAGE_OCTETSTOINLINEQOS_DATASUBMSG;
        if negb inside then refused writerID
        else
          '(ok, c, inlineQosSize) ← read_inline_qos smh c;
          if negb ok then refused writerID
          else
            found ← read_payload smh octetsToInlineQos inlineQosSize c;
            match found with
            | None => refused writerID
            | Some c => mret (true, writerID, findAllReaders r readerID (λ e x, processDataMsg e x (stamp r c)) e)
            end.

(** The payload of a fragment; its size is not checked against the parts of the
    submessage before it. *)
Definition read_fragment (smh : SubmessageHeader_t) (octetsToInlineQos inlineQosSize fragmentSize : Z) (c : CacheChange_t)
    : M (option CacheChange_t) :=
  if bit smh 2 then mret (Some c)
  else
    let payload_size := u32 (submessageLength smh -
      (RTPSMESSAGE_DATA_EXTRA_INLINEQOS_SIZE + octetsToInlineQos + inlineQosSize)) in
    m ← get;
    let next_pos := u32 (pos m + payload_size) in
    if (next_pos <=? length m) && (0 <? payload_size) then
      let c := with_payload (with_kind c ALIVE) (payload_at m (pos m) payload_size (serializedPayload c)) in
      c ← lift (setFragmentSize c fragmentSize false);
      set_pos next_pos;;
      mret (Some c)
    else mret None.

Definition proc_Submsg_DataFrag (r : MessageReceiver) (smh : SubmessageHeader_t) (e : E) : M (bool * E) :=
  let refused := (mret (false, e) : M (bool * E)) in
  if submessageLength smh <? RTPSMESSAGE_DATA_MIN_LENGTH then refused
  else
    set_endianness smh;;
    skip 2;;
    '(v1, octetsToInlineQos) ← readInt16 0;
    '(v2, readerID) ← readEntityId EntityId.unknown;
    if negb (willAReaderAcceptMsgDirectedTo r e readerID) then refused
    else
      '(v3, writerID) ← readEntityId EntityId.unknown;
      '(v4, sn) ← readSequenceNumber SN.default;
      if SN.leb sn SN.default then refused
      else
        '(v5, fragmentStartingNum) ← readUInt32 0;
        '(v6, fragmentsInSubmessage) ← readUInt16 0;
        '(v7, fragmentSize) ← readUInt16 0;
        '(v8, sampleSize) ← readUInt32 0;
        if negb (v1 && v2 && v3 && v4 && v5 && v6 && v7 && v8) then refused
        else
          let c := with_writer new_change (Guid.mkGUID (source_guid_prefix_ r) writerID) sn in
          inside ← jump_to_qos octetsToInlineQos RTPSMESSAGE_OCTETSTOINLINEQOS_DATAFRAGSUBMSG;
          if negb inside then refused
          else
            '(ok, c, inlineQosSize) ← read_inline_qos smh c;
            if negb ok then refused
            else
              found ← read_fragment smh octetsToInlineQos inlineQosSize fragmentSize c;
              match found with
              | None => refused
              | Some c =>
                  mret (true, findAllReaders r readerID
                    (λ e x, processDataFragMsg e x (stamp r c) sampleSize fragmentStartingNum fragmentsInSubmessage) e)
              end.

(** ** The other submessages *)

Definition proc_Submsg_Heartbeat (r : MessageReceiver) (smh : SubmessageHeader_t) (e : E) : M (bool * E) :=
  set_endianness smh;;
  '(_, readerId) ← readEntityId EntityId.unknown;
  '(_, writerId) ← readEntityId EntityId.unknown;
  '(_, firstSN) ← readSequenceNumber SN.default;
  '(_, lastSN) ← readSequenceNumber SN.default;
  if SN.leb firstSN SN.default || (SN.ltb lastSN firstSN && SN.neqb lastSN (SN.sub_u32 firstSN 1)) then mret (false, e)
  else
    '(ok, HBCount) ← readUInt32 0;
    if negb ok then mret (false, e)
    else
      mret (true, findAllReaders r readerId
        (λ e x, processHeartbeatMsg e x (Guid.mkGUID (source_guid_prefix_ r) writerId) HBCount firstSN lastSN
                  (bit smh 1) (bit smh 2) (source_vendor_id_ r)) e).

Definition proc_Submsg_Acknack (r : MessageReceiver) (smh : SubmessageHeader_t) (e : E) : M (bool * E) :=
  set_endianness smh;;
  '(_, readerId) ← readEntityId EntityId.unknown;
  '(_, writerId) ← readEntityId EntityId.unknown;
  SNSet ← readSequenceNumberSet;
  '(ok, Ackcount) ← readUInt32 0;
  if negb ok then mret (false, e)
  else
    mret (ask_writers
      (λ e w, process_acknack e w (Guid.mkGUID (dest_guid_prefix_ r) writerId) (Guid.mkGUID (source_guid_prefix_ r) readerId)
                Ackcount SNSet (bit smh 1) (source_vendor_id_ r)) (associated_writers_ r) e).

Definition proc_Submsg_Gap (r : MessageReceiver) (smh : SubmessageHeader_t) (e : E) : M (bool * E) :=
  set_endianness smh;;
  '(_, readerId) ← readEntityId EntityId.unknown;
  '(_, writerId) ← readEntityId EntityId.unknown;
  '(_, gapStart) ← readSequenceNumber SN.default;
  gapList ← readSequenceNumberSet;
  if SN.leb gapStart (SN.mkSN 0 0) then mret (false, e)
  else
    mret (true, findAllReaders r readerId
      (λ e x, processGapMsg e x (Guid.mkGUID (source_guid_prefix_ r) writerId) gapStart gapList (source_vendor_id_ r)) e).

Definition proc_Submsg_InfoTS (r : MessageReceiver) (smh : SubmessageHeader_t) : M (bool * MessageReceiver) :=
  set_endianness smh;;
  if negb (bit smh 1) then
    '(_, ts) ← readTimestamp (timestamp_ r);
    mret (true, with_timestamp r true ts)
  else mret (true, with_timestamp r false (timestamp_ r)).

Definition proc_Submsg_InfoDST (r : MessageReceiver) (smh : SubmessageHeader_t) : M (bool * MessageReceiver) :=
  set_endianness smh;;
  '(_, guidP) ← readData GuidPrefix.unknown (Z.of_nat GuidPrefix.size);
  mret (true, if negb (GuidPrefix.eqb guidP GuidPrefix.unknown) then with_dest r guidP else r).

Definition INFO_SRC_SUBMSG_LENGTH : Z := 20.

Definition proc_Submsg_InfoSRC (r : MessageReceiver) (smh : SubmessageHeader_t) : M (bool * MessageReceiver) :=
  set_endianness smh;;
  if submessageLength smh =? INFO_SRC_SUBMSG_LENGTH then
    skip 4;;
    '(_, major) ← readOctet (m_major (source_version_ r));
    '(_, minor) ← readOctet (m_minor (source_version_ r));
    '(_, vendor) ← readData (source_vendor_id_ r) 2;
    '(_, prefix) ← readData (source_guid_prefix_ r) (Z.of_nat GuidPrefix.size);
    mret (true, with_source r (mkVersion major minor) vendor prefix)
  else mret (false, r).

Definition proc_Submsg_NackFrag (r : MessageReceiver) (smh : SubmessageHeader_t) (e : E) : M (bool * E) :=
  set_endianness smh;;
  '(_, readerId) ← readEntityId EntityId.unknown;
  '(_, writerId) ← readEntityId EntityId.unknown;
  '(_, writerSN) ← readSequenceNumber SN.default;
  '(_, fnState) ← readFragmentNumberSet BitmapRange.default_range;
  '(ok, Ackcount) ← readUInt32 0;
  if negb ok then mret (false, e)
  else
    mret (ask_writers
      (λ e w, process_nack_frag e w (Guid.mkGUID (dest_guid_prefix_ r) writerId)
                (Guid.mkGUID (source_guid_prefix_ r) readerId) Ackcount writerSN fnState (source_vendor_id_ r))
      (associated_writers_ r) e).

(** [proc_Submsg_HeartbeatFrag] reads its fields and uses none. *)
Definition proc_Submsg_HeartbeatFrag (smh : SubmessageHeader_t) : M bool :=
  set_endianness smh;;
  readEntityId EntityId.unknown;; readEntityId EntityId.unknown;; readSequenceNumber SN.default;;
  readUInt32 0;; readUInt32 0;; mret true.

(** ** The message *)

(** What a submessage does: whether the message goes on, whether its source is
    ignored from here on, and the receiver and the endpoints after it. *)
Definition process_submessage (r : MessageReceiver) (smh : SubmessageHeader_t) (ignored : bool) (e : E)
    : M (bool * bool * MessageReceiver * E) :=
  let id := submessageId smh in
  let for_us := GuidPrefix.eqb (dest_guid_prefix_ r) (own_prefix e) in
  let endpoint (p : M (bool * E)) : M (bool * bool * MessageReceiver * E) :=
    if for_us then '(valid, e) ← p; mret (valid, ignored, r, e) else mret (true, ignored, r, e) in
  if id =? DATA then
    if for_us then
      '(valid, writerId, e) ← proc_Submsg_Data r smh e;
      mret (valid, if valid && EntityId.eqb writerId EntityId.c_EntityId_SPDPWriter
                   then is_participant_ignored e (source_guid_prefix_ r) else ignored, r, e)
    else mret (true, ignored, r, e)
  else if id =? DATA_FRAG then endpoint (proc_Submsg_DataFrag r smh e)
  else if id =? GAP then endpoint (proc_Submsg_Gap r smh e)
  else if id =? ACKNACK then endpoint (proc_Submsg_Acknack r smh e)
  else if id =? NACK_FRAG then endpoint (proc_Submsg_NackFrag r smh e)
  else if id =? HEARTBEAT then endpoint (proc_Submsg_Heartbeat r smh e)
  else if id =? HEARTBEAT_FRAG then endpoint (valid ← proc_Submsg_HeartbeatFrag smh; mret (valid, e))
  else if id =? INFO_DST then '(valid, r) ← proc_Submsg_InfoDST r smh; mret (valid, ignored, r, e)
  else if id =? INFO_SRC then
    '(valid, r) ← proc_Submsg_InfoSRC r smh;
    mret (valid, is_participant_ignored e (source_guid_prefix_ r), r, e)
  else if id =? INFO_TS then '(valid, r) ← proc_Submsg_InfoTS r smh; mret (valid, ignored, r, e)
  else mret (true, ignored, r, e).

(** The loop over the submessages; the boolean says whether it came to its end,
    rather than returning at a header it could not read. *)
Fixpoint process_submessages (fuel : nat) (ignored : bool) (r : MessageReceiver) (e : E)
    : M (bool * MessageReceiver * E) :=
  with_msg (λ m,
  if pos m <? length m then
    match fuel with
    | O => λ _, Unfinished
    | S fuel =>
        '(ok, smh) ← readSubmessageHeader;
        if negb ok then mret (false, r, e)
        else
          m ← get;
          let next_msg_pos := u32 (pos m + Z.land (u32 (submessageLength smh + 3)) (UINT32_MAX - 3)) in
          '(valid, ignored, r, e) ←
            (if ignored && negb (submessageId smh =? INFO_SRC) then mret (true, ignored, r, e)
             else process_submessage r smh ignored e);
          if negb valid || is_last smh then mret (true, r, e)
          else set_pos next_msg_pos;; process_submessages fuel ignored r e
    end
  else mret (true, r, e)).

(** Each round of the loop takes at least the four octets of a header. *)
Definition processCDRMsg (r : MessageReceiver) (e : E) : M (MessageReceiver * E) :=
  m ← get;
  if length m <? RTPSMESSAGE_HEADER_SIZE then mret (r, e)
  else
    let r := with_dest (reset r) (own_prefix e) in
    set_pos 0;;
    '(ok, r) ← checkRTPSHeader r;
    if negb ok then mret (r, e)
    else
      '(finished, r, e) ← process_submessages (Z.to_nat (length m)) (is_participant_ignored e (source_guid_prefix_ r)) r e;
      mret (r, if finished : bool then assert_remote_participant_liveliness e (source_guid_prefix_ r) else e).

End endpoints.
End MessageReceiver.
