(* ===== verification/MessageFacts.v ===== *)
(** * Messages arrive as they are sent

    The submessages of the protocol as data, with the octets the creator writes
    for them and the effect they have at the receiver.  The round trip holds for
    any two targets.  On any octets the receiver ends and stays inside the
    message. *)

From S2P Require Import Prelude.
From S2P Require Import SeqNum.
From S2P Require Import Bitmap.
From S2P Require Import BitmapFacts.
From S2P Require Import Guid.
From S2P Require Import CacheChange.
From S2P Require Import CacheChangeFacts.
From S2P Require Import CDRMessage.
From S2P Require Import CDRFacts.
From S2P Require Import Messages.
From S2P Require Import MessageReceiver.

Module Wire.
Import CDR CDRFacts CacheChange RTPS MessageCreator.

(** ** The creator *)

Section creator.
Context `{Target}.

Abbreviation D := DEFAULT_ENDIAN.

Lemma set_endian_writes : writes D (set_endian D) tt [].
Proof.
  intros m pre Hm He _. rewrite app_nil_r. exists m. unfold set_endian, modify.
  split; [|done]. destruct m. simpl in *. by subst.
Qed.

Lemma in_target_at {A} (p : M A) a m m' :
  msg_endian m = D → msg_endian m' = D → p m = Done (a, m') → in_target p m = Done (a, m').
Proof.
  intros He He' E. unfold in_target. unfold mbind at 1, M_bind at 1, get at 1. simpl.
  unfold mbind, M_bind, set_endian, modify. simpl.
  assert (with_endian m DEFAULT_ENDIAN = m) as -> by (destruct m; simpl in *; by subst).
  rewrite E. simpl. assert (with_endian m' (msg_endian m) = m') as -> by (rewrite He, <-He'; by destruct m'). done.
Qed.

Lemma in_target_writes {A} (p : M A) a bs : writes D p a bs → writes D (in_target p) a bs.
Proof.
  intros Hp m pre Hm He Hroom. destruct (Hp m pre Hm He Hroom) as (m' & E & Hm' & Hmax & He').
  exists m'. split; [by apply in_target_at|done].
Qed.

Lemma octet_writes x : is_u8 x → writes D (addOctet x) true [x].
Proof.
  intros Hx. eapply writes_fmap; [apply addPrimitive_writes|done|].
  rewrite u8_small by done. unfold enc. simpl. rewrite Z.mod_small by (range_unfold; lia). by case_decide.
Qed.

(** The octets of a field replaced. *)
Lemma patch_writes m pre x post v :
  appending m (pre ++ x ++ post) → msg_endian m = D → List.length x = 2%nat →
  ∃ m', patch_size (size pre) v m = Done (tt, m') ∧ appending m' (pre ++ enc D 2 v ++ post) ∧
    max_size m' = max_size m ∧ msg_endian m' = D.
Proof.
  intros Hm He Hx. pose proof Hm as [Hb Hp Hl Hmax]. unfold patch_size, store.
  assert ((if decide (msg_endian m = D) then native 2 v else rev (native 2 v)) = enc D 2 v) as Henc.
  { rewrite He, <-native_enc. rewrite decide_True by done. by rewrite bool_decide_false by naive_solver. }
  assert (size (pre ++ x ++ post) <= size (buffer m)) as Hfit
    by (rewrite <-Hb, length_take; lia). rewrite !length_app in Hfit.
  unfold mbind, M_bind, get, lift, modify. simpl. rewrite Henc.
  rewrite Assembly.memcpy_done by (rewrite ?length_enc; lia). simpl. eexists. split; [reflexivity|]. split; [|done].
  rewrite Nat2Z.id. rewrite !length_app in *. constructor; simpl; rewrite ?length_inserts, ?length_app, ?length_enc, ?Hx; [|lia|lia|done].
  apply list_eq. intros i.
  assert (∀ j, (j < List.length pre + (List.length x + List.length post))%nat → buffer m !! j = (pre ++ x ++ post) !! j) as Hpre
    by (intros j Hj; rewrite <-Hb, lookup_take_lt by (rewrite ?length_app; lia); done).
  destruct (decide (i < List.length pre + (2 + List.length post))%nat) as [Hi|Hi]; cycle 1.
  { rewrite lookup_take_ge by lia. symmetry. apply lookup_ge_None. rewrite !length_app, length_enc. lia. }
  rewrite lookup_take_lt by lia. destruct (decide (i < List.length pre)%nat).
  { rewrite list_lookup_inserts_lt, lookup_app_l by lia. rewrite Hpre by lia. by rewrite lookup_app_l by lia. }
  rewrite lookup_app_r by lia. destruct (decide (i < List.length pre + 2)%nat).
  - rewrite list_lookup_inserts by (rewrite ?length_enc; lia). by rewrite lookup_app_l by (rewrite length_enc; lia).
  - rewrite list_lookup_inserts_ge by (rewrite length_enc; lia). rewrite Hpre by lia.
    rewrite !lookup_app_r by (rewrite ?length_enc; lia). f_equal. rewrite length_enc. lia.
Qed.

Definition header (e : Endianness_t) (id fl len : Z) : list Z := id :: fl :: enc e 2 len.

Lemma length_header e id fl len : List.length (header e id fl len) = 4%nat.
Proof. unfold header. simpl. by rewrite length_enc. Qed.

Lemma header_split e id fl len bs : header e id fl len ++ bs = [id] ++ [fl] ++ enc e 2 len ++ bs.
Proof. done. Qed.

Lemma open_writes id fl m pre :
  is_u8 id → is_u8 fl → appending m pre → msg_endian m = D → size pre + 4 < max_size m →
  ∃ m', open_submessage id fl m = Done ((size pre + 2, size pre + 4), m') ∧
    appending m' (pre ++ header D id fl 0) ∧ max_size m' = max_size m ∧ msg_endian m' = D.
Proof.
  intros Hid Hfl Hm He Hroom. unfold open_submessage.
  destruct (octet_writes id Hid m pre Hm He) as (m1 & E1 & Hm1 & Hx1 & He1); [simpl; lia|].
  destruct (octet_writes fl Hfl m1 _ Hm1 He1) as (m2 & E2 & Hm2 & Hx2 & He2); [rewrite length_app; simpl; lia|].
  destruct (addPrimitive_writes D 2 (u16 0) m2 _ Hm2 He2) as (m3 & E3 & Hm3 & Hx3 & He3);
    [rewrite !length_app, length_enc; simpl; lia|].
  exists m3. unfold mbind, M_bind, at_pos, get. rewrite E1. simpl. rewrite E2. simpl. unfold mbind, M_bind, addUInt16.
  rewrite E3. simpl. split; [|split; [|split; [lia|done]]].
  - destruct Hm2 as [_ -> _ _], Hm3 as [_ -> _ _]. rewrite !length_app, length_enc.
    unfold mret, M_ret. simpl. do 3 f_equal; lia.
  - unfold header. rewrite <-!app_assoc in Hm3. exact Hm3.
Qed.

Lemma submessage_writes id fl content b bs :
  is_u8 id → is_u8 fl → size bs < 2 ^ 16 → writes D content b bs →
  writes D (submessage id fl content) true (header D id fl (size bs) ++ bs).
Proof.
  intros Hid Hfl Hs Hc. apply in_target_writes. intros m pre Hm He Hroom.
  rewrite length_app, length_header in Hroom.
  destruct (open_writes id fl m pre Hid Hfl Hm He) as (m1 & E1 & Hm1 & Hx1 & He1); [lia|].
  destruct (Hc m1 _ Hm1 He1) as (m2 & E2 & Hm2 & Hx2 & He2); [rewrite length_app, length_header; lia|].
  destruct (patch_writes m2 (pre ++ [id; fl]) (enc D 2 0) bs (size bs)) as (m3 & E3 & Hm3 & Hx3 & He3).
  { unfold header in Hm2. rewrite <-!app_assoc in *. exact Hm2. } { done. } { by rewrite length_enc. }
  exists m3. unfold mbind, M_bind. rewrite E1. simpl. rewrite E2. unfold at_pos, mbind, M_bind, get. simpl.
  assert (u16 (u32 (pos m2 - (size pre + 4))) = size bs) as ->.
  { destruct Hm2 as [_ -> _ _]. rewrite !length_app, length_header.
    replace (_ - _) with (size bs) by lia. rewrite u32_small, u16_small by (range_unfold; lia). done. }
  replace (size pre + 2) with (size (pre ++ [id; fl])) by (rewrite length_app; simpl; lia).
  rewrite E3. split; [done|]. split; [|split; [lia|done]]. unfold header. rewrite <-app_assoc in Hm3. exact Hm3.
Qed.

(** ** Submessages as data *)

(** What a creator is asked to write.  [Data] and [DataFrag] have the change, the
    kind of the topic, the reader they are for and whether it expects inline QoS;
    [DataFrag] has the number of its fragment. *)
Inductive Submessage :=
  | InfoTS (t : option Time_t)
  | InfoDST (prefix : GuidPrefix.GuidPrefix_t)
  | Heartbeat (reader writer : EntityId.EntityId_t) (first last : SN.SequenceNumber_t) (count : Z) (final liveliness : bool)
  | Acknack (reader writer : EntityId.EntityId_t) (set : SequenceNumberSet_t) (count : Z) (final : bool)
  | Gap (reader writer : EntityId.EntityId_t) (start : SN.SequenceNumber_t) (set : SequenceNumberSet_t)
  | NackFrag (reader writer : EntityId.EntityId_t) (sn : SN.SequenceNumber_t) (set : FragmentNumberSet_t) (count : Z)
  | Data (c : CacheChange_t) (with_key : bool) (reader : EntityId.EntityId_t) (expects : bool)
  | DataFrag (c : CacheChange_t) (n : Z) (with_key : bool) (reader : EntityId.EntityId_t) (expects : bool).

Definition add_submessage (s : Submessage) : M bool :=
  match s with
  | InfoTS t => addSubmessageInfoTS (default (mkTime 0 0) t) (negb (present t))
  | InfoDST prefix => addSubmessageInfoDST prefix
  | Heartbeat rd wr first last count final live => addSubmessageHeartbeat rd wr first last count final live
  | Acknack rd wr set count final => addSubmessageAcknack rd wr set count final
  | Gap rd wr start set => addSubmessageGap start set rd wr
  | NackFrag rd wr sn set count => addSubmessageNackFrag rd wr sn set count
  | Data c with_key rd expects => '(ok, _) ← addSubmessageData c with_key rd expects None; mret ok
  | DataFrag c n with_key rd expects => addSubmessageDataFrag c n (fragment_payload c n) with_key rd expects None
  end.

(** ** Their octets *)

Definition eflag (e : Endianness_t) : Z := if decide (e = LITTLEEND) then 1 else 0.

Definition sub_id (s : Submessage) : Z :=
  match s with
  | InfoTS _ => INFO_TS | InfoDST _ => INFO_DST | Heartbeat _ _ _ _ _ _ _ => HEARTBEAT | Acknack _ _ _ _ _ => ACKNACK
  | Gap _ _ _ _ => GAP | NackFrag _ _ _ _ _ => NACK_FRAG | Data _ _ _ _ => DATA | DataFrag _ _ _ _ _ => DATA_FRAG
  end.

Definition parts (c : CacheChange_t) (with_key expects : bool) : SubmessageFlags :=
  prepare_submessage_flags c with_key expects None.
#[local] Arguments parts : simpl never.

Definition sub_flags (e : Endianness_t) (s : Submessage) : Z :=
  match s with
  | InfoTS t => Z.lor (eflag e) (flag 1 (negb (present t)))
  | Heartbeat _ _ _ _ _ final live => Z.lor (Z.lor (eflag e) (flag 1 final)) (flag 2 live)
  | Acknack _ _ _ _ final => Z.lor (eflag e) (flag 1 final)
  | Data c k _ x =>
      Z.lor (Z.lor (Z.lor (eflag e) (flag 1 (inlineQosFlag (parts c k x)))) (flag 2 (dataFlag (parts c k x))))
        (flag 3 (keyFlag (parts c k x)))
  | DataFrag c _ k _ x => Z.lor (Z.lor (eflag e) (flag 1 (inlineQosFlag (parts c k x)))) (flag 2 (keyFlag (parts c k x)))
  | _ => eflag e
  end.

Definition parameter (e : Endianness_t) (pid : Z) (bs : list Z) : list Z := enc e 2 pid ++ enc e 2 (size bs) ++ bs.

Definition identity_octets (e : Endianness_t) (i : SampleIdentity) : list Z :=
  Guid.guidPrefix (writer_guid i) ++ Guid.entityId (writer_guid i) ++ sn_octets e (sequence_number i).

Definition key_octets (c : CacheChange_t) : list Z := default (replicate 16 0) (instanceHandle c).

(** The parameters of a change, without the sentinel. *)
Definition parameters (e : Endianness_t) (c : CacheChange_t) (with_key expects : bool) : list (Z * list Z) :=
  (if related_known c then
     [(PID_RELATED_SAMPLE_IDENTITY, identity_octets e (related_sample_identity (write_params c)));
      (PID_CUSTOM_RELATED_SAMPLE_IDENTITY, identity_octets e (related_sample_identity (write_params c)))] else []) ++
  (if key_in_qos c with_key expects then
     (PID_KEY_HASH, key_octets c) ::
     (if is_alive c then [] else [(PID_STATUS_INFO, [0; 0; 0; change_status (kind c)])]) else []).

Definition parameters_octets (e : Endianness_t) (ps : list (Z * list Z)) : list Z :=
  (ps ≫= λ p, parameter e p.1 p.2) ++ enc e 2 PID_SENTINEL ++ enc e 2 0.

Definition qos_octets (e : Endianness_t) (c : CacheChange_t) (with_key expects : bool) : list Z :=
  if inlineQosFlag (parts c with_key expects) then parameters_octets e (parameters e c with_key expects) else [].

(** The octets of a payload, with the zeros up to a multiple of four. *)
Definition payload_octets (p : Payload.SerializedPayload_t) : list Z :=
  take (Z.to_nat (Payload.length p)) (default [] (Payload.data p)).

Definition padded (bs : list Z) : list Z := bs ++ replicate (Z.to_nat ((4 - size bs mod 4) mod 4)) 0.

Definition change_octets (e : Endianness_t) (c : CacheChange_t) (reader : EntityId.EntityId_t) : list Z :=
  reader ++ Guid.entityId (writerGUID c) ++ sn_octets e (sequenceNumber c).

Definition content (e : Endianness_t) (s : Submessage) : list Z :=
  match s with
  | InfoTS None => []
  | InfoTS (Some t) => enc e 4 (u32 (seconds t)) ++ enc e 4 (u32 (fraction t))
  | InfoDST prefix => prefix
  | Heartbeat rd wr first last count _ _ => rd ++ wr ++ sn_octets e first ++ sn_octets e last ++ enc e 4 (u32 count)
  | Acknack rd wr set count _ =>
      rd ++ wr ++ (sn_octets e (BitmapRange.base_ set) ++ bitmap_octets e set) ++ enc e 4 (u32 count)
  | Gap rd wr start set => rd ++ wr ++ sn_octets e start ++ sn_octets e (BitmapRange.base_ set) ++ bitmap_octets e set
  | NackFrag rd wr sn set count =>
      rd ++ wr ++ sn_octets e sn ++ (enc e 4 (u32 (BitmapRange.base_ set : Z)) ++ bitmap_octets e set) ++ enc e 4 (u32 count)
  | Data c k rd x =>
      enc e 2 0 ++ enc e 2 16 ++ change_octets e c rd ++ qos_octets e c k x ++
      (if dataFlag (parts c k x) then padded (payload_octets (serializedPayload c)) else [])
  | DataFrag c n k rd x =>
      enc e 2 0 ++ enc e 2 28 ++ change_octets e c rd ++
      (enc e 4 (u32 n) ++ enc e 2 1 ++ enc e 2 (u16 (getFragmentSize c)) ++ enc e 4 (u32 (Payload.length (serializedPayload c)))) ++
      qos_octets e c k x ++ padded (payload_octets (fragment_payload c n))
  end.

Definition octets (e : Endianness_t) (s : Submessage) : list Z :=
  header e (sub_id s) (sub_flags e s) (size (content e s)) ++ content e s.

(** ** What can be written *)

Record wf_identity (i : SampleIdentity) : Prop := {
  wf_writer : Guid.wf (writer_guid i);
  wf_number : SN.wf (sequence_number i)
}.

(** A change with something to send, and not a bare key. *)
Record wf_change (c : CacheChange_t) (with_key expects : bool) : Prop := {
  wf_entity : EntityId.wf (Guid.entityId (writerGUID c));
  wf_sequence : SN.wf (sequenceNumber c) ∧ 0 < SN.val (sequenceNumber c);
  wf_key : List.length (key_octets c) = 16%nat;
  wf_related : wf_identity (related_sample_identity (write_params c));
  wf_parts : keyFlag (parts c with_key expects) = false;
  wf_some : inlineQosFlag (parts c with_key expects) || dataFlag (parts c with_key expects) = true
}.

Definition wf_payload (p : Payload.SerializedPayload_t) : Prop :=
  0 <= Payload.length p ∧ ∃ d, Payload.data p = Some d ∧ Payload.length p <= size d.

Definition wf_set (s : SequenceNumberSet_t) : Prop := BitmapFacts.exact s ∧ 0 <= SN.high (BitmapRange.base_ s).

Definition wf (e : Endianness_t) (s : Submessage) : Prop :=
  match s with
  | InfoTS None => True
  | InfoTS (Some t) => is_s32 (seconds t) ∧ is_u32 (fraction t)
  | InfoDST prefix => GuidPrefix.wf prefix
  | Heartbeat rd wr first last count _ _ =>
      EntityId.wf rd ∧ EntityId.wf wr ∧ SN.wf first ∧ SN.wf last ∧
      0 < SN.val first ∧ SN.val first - 1 <= SN.val last
  | Acknack rd wr set count _ => EntityId.wf rd ∧ EntityId.wf wr ∧ wf_set set
  | Gap rd wr start set => EntityId.wf rd ∧ EntityId.wf wr ∧ SN.wf start ∧ 0 < SN.val start ∧ wf_set set
  | NackFrag rd wr sn set count =>
      EntityId.wf rd ∧ EntityId.wf wr ∧ SN.wf sn ∧ BitmapFacts.exact set ∧ (BitmapRange.base_ set : Z) ≠ 0
  | Data c k rd x =>
      EntityId.wf rd ∧ wf_change c k x ∧ (dataFlag (parts c k x) = true → wf_payload (serializedPayload c)) ∧
      size (content e s) < 2 ^ 16
  | DataFrag c n k rd x =>
      EntityId.wf rd ∧ wf_change c k x ∧ 0 < n < 2 ^ 32 ∧ wf_payload (fragment_payload c n) ∧ 0 < Payload.length (fragment_payload c n) ∧
      is_u16 (getFragmentSize c) ∧ is_u32 (Payload.length (serializedPayload c)) ∧
      size (content e s) < 2 ^ 16
  end.

(** ** The octets of a submessage are what its creator writes *)

Lemma writes_checked {A} (cond : CDRMessage_t → bool) (q p : M A) a bs :
  (∀ m pre, appending m pre → size pre + size bs < max_size m → cond m = false) →
  writes D p a bs → writes D (m ← get; if cond m then q else p) a bs.
Proof.
  intros Hc Hp m pre Hm He Hroom. unfold mbind, M_bind, get. simpl. rewrite (Hc m pre Hm Hroom). by apply Hp.
Qed.

Lemma fits m pre (bs : list Z) n :
  appending m pre → size pre + size bs < max_size m → 0 <= n <= size bs →
  (max_size m <=? u32 (pos m + n)) = false ∧ (max_size m <? u32 (pos m + n)) = false ∧ hasSpace m n = true.
Proof.
  intros [_ Hp _ [_ H32]] Hroom Hn. unfold hasSpace. rewrite Hp, u32_small by (range_unfold; lia).
  split_and!; [apply Z.leb_gt|apply Z.ltb_ge|apply Z.leb_le]; lia.
Qed.

Lemma length_parameter e pid bs : List.length (parameter e pid bs) = (4 + List.length bs)%nat.
Proof. unfold parameter. rewrite !length_app, !length_enc. lia. Qed.

Lemma zero_octets x : is_u8 x → [0; 0; 0; x] = [0] ++ [0] ++ [0] ++ [x].
Proof. done. Qed.

Lemma add_parameter_status_writes st :
  is_u8 st → writes D (add_parameter_status st) true (parameter D PID_STATUS_INFO [0; 0; 0; st]).
Proof.
  intros Hst. apply writes_checked.
  - intros m pre Hm Hroom. apply (fits m pre _ 8 Hm Hroom). rewrite length_parameter. simpl. lia.
  - unfold parameter. eapply writes_seq; [apply addPrimitive_writes|]. eapply writes_seq; [apply addPrimitive_writes|].
    rewrite zero_octets by done. do 3 (eapply writes_seq; [by apply octet_writes|]). eapply writes_last. by apply octet_writes.
Qed.

Lemma add_parameter_key_writes c :
  List.length (key_octets c) = 16%nat →
  writes D (add_parameter_key (instanceHandle c)) true (parameter D PID_KEY_HASH (key_octets c)).
Proof.
  intros Hk. apply writes_checked.
  - intros m pre Hm Hroom. apply (fits m pre _ 20 Hm Hroom). rewrite length_parameter, Hk. lia.
  - unfold parameter. rewrite Hk. eapply writes_seq; [apply addPrimitive_writes|].
    eapply writes_seq; [apply addPrimitive_writes|]. eapply writes_last, addData_writes.
Qed.

Lemma length_identity e i : wf_identity i → List.length (identity_octets e i) = 24%nat.
Proof.
  intros [[[Hp _] [He _]] _]. unfold identity_octets, sn_octets. rewrite !length_app, !length_enc, Hp, He. done.
Qed.

Lemma add_parameter_identity_writes pid i :
  is_u16 pid → wf_identity i → writes D (add_parameter_identity pid i) true (parameter D pid (identity_octets D i)).
Proof.
  intros Hpid Hi. pose proof (length_identity D i Hi) as Hl. apply writes_checked.
  - intros m pre Hm Hroom. apply (fits m pre _ 28 Hm Hroom). rewrite length_parameter, Hl. lia.
  - unfold parameter. rewrite Hl. unfold identity_octets, sn_octets.
    eapply writes_seq; [eapply writes_fmap; [apply addPrimitive_writes|done|by rewrite u16_small]|].
    eapply writes_seq; [apply addPrimitive_writes|]. do 2 (eapply writes_seq; [apply addData_writes|]).
    eapply writes_seq; [apply addPrimitive_writes|]. eapply writes_last, addPrimitive_writes.
Qed.

Lemma add_parameter_sentinel_writes : writes D add_parameter_sentinel true (enc D 2 PID_SENTINEL ++ enc D 2 0).
Proof.
  apply writes_checked.
  - intros m pre Hm Hroom. apply (fits m pre _ 4 Hm Hroom). rewrite length_app, !length_enc. lia.
  - eapply writes_seq; [apply addPrimitive_writes|]. eapply writes_last, addPrimitive_writes.
Qed.

Lemma addPayload_writes p : wf_payload p → writes D (addPayload p) true (payload_octets p).
Proof.
  intros [Hp (d & Hd & Hlen)]. assert (size (payload_octets p) = Payload.length p) as Hs
    by (unfold payload_octets; rewrite Hd; simpl; rewrite length_take; lia).
  apply (writes_checked (λ m, negb (hasSpace m (Payload.length p)))).
  - intros m pre Hm Hroom. destruct (fits m pre _ (Payload.length p) Hm Hroom) as (_ & _ & ->); [lia|done].
  - rewrite Hd. intros m pre Hm He Hroom. unfold mbind, M_bind, lift.
    rewrite Assembly.octets_done by lia. simpl.
    assert (take (Z.to_nat (Payload.length p)) d = payload_octets p) as -> by (unfold payload_octets; by rewrite Hd).
    destruct (copy_writes D (payload_octets p) false m pre Hm He) as (m' & E & ? & ? & ?); [lia|].
    exists m'. unfold mbind, M_bind. rewrite E. done.
Qed.

Lemma change_status_u8 k : is_u8 (change_status k).
Proof. destruct k; range_unfold; simpl; lia. Qed.

Lemma writes_if {A} (b : bool) (p q : M A) a bs1 bs2 :
  (b = true → writes D p a bs1) → (b = false → writes D q a bs2) →
  writes D (if b then p else q) a (if b then bs1 else bs2).
Proof. destruct b; auto. Qed.

Lemma serialize_inline_qos_writes c k x :
  wf_change c k x →
  writes D (serialize_inline_qos c k x None (change_status (kind c))) tt (parameters_octets D (parameters D c k x)).
Proof.
  intros [_ _ Hkey Hrel _ _]. unfold serialize_inline_qos, parameters_octets, parameters. rewrite bind_app.
  rewrite <-app_assoc. eapply (writes_seq _ _ _ true).
  { destruct (related_known c); [|apply writes_ret]. simpl. rewrite app_nil_r.
    eapply writes_seq; by apply add_parameter_identity_writes. }
  eapply (writes_seq _ _ _ true).
  { destruct (key_in_qos c k x); [|apply writes_ret]. simpl. eapply writes_seq; [by apply add_parameter_key_writes|].
    destruct (is_alive c); [apply writes_ret|]. simpl. rewrite app_nil_r.
    apply add_parameter_status_writes, change_status_u8. }
  change (enc D 2 PID_SENTINEL ++ enc D 2 0) with ([] ++ enc D 2 PID_SENTINEL ++ enc D 2 0).
  eapply writes_seq; [apply writes_ret|]. eapply writes_last, add_parameter_sentinel_writes.
Qed.

(** The fields of a change, and of a fragment, behind the header. *)
Definition fields (e : Endianness_t) (c : CacheChange_t) (n : Z) (rd : EntityId.EntityId_t) : list Z :=
  enc e 2 0 ++ enc e 2 (if 0 <? n then 28 else 16) ++ change_octets e c rd ++
  (if 0 <? n then enc e 4 (u32 n) ++ enc e 2 1 ++ enc e 2 (u16 (getFragmentSize c)) ++
                  enc e 4 (u32 (Payload.length (serializedPayload c))) else []).

Lemma fields_writes c n rd :
  EntityId.wf rd → EntityId.wf (Guid.entityId (writerGUID c)) →
  writes D (serialize_fields n c rd) true (fields D c n rd).
Proof.
  intros Hrd Hwr. unfold fields, change_octets. rewrite <-!app_assoc.
  eapply writes_bind; [apply addPrimitive_writes|].
  eapply writes_bind; [eapply writes_fmap; [apply addPrimitive_writes|done|by destruct (0 <? n)]|].
  eapply writes_bind; [by apply addEntityId_writes|]. eapply writes_bind; [by apply addEntityId_writes|].
  eapply writes_bind; [apply addSequenceNumber_writes|]. rewrite <-(app_nil_r (if 0 <? n then _ else _)).
  eapply writes_bind; [|apply writes_ret]. destruct (0 <? n); [|apply writes_ret].
  do 3 (eapply writes_bind; [apply addPrimitive_writes|]). rewrite <-(app_nil_r (enc D 4 _)).
  eapply writes_bind; [apply addPrimitive_writes|apply writes_ret].
Qed.

Lemma serialize_header_writes n c rd fl m pre :
  is_u8 fl → EntityId.wf rd → EntityId.wf (Guid.entityId (writerGUID c)) →
  appending m pre → msg_endian m = D → size pre + 4 + size (fields D c n rd) < max_size m →
  ∃ m', serialize_header n c rd fl m = Done ((true, (size pre + 2, size pre + 4)), m') ∧
    appending m' (pre ++ header D (if 0 <? n then DATA_FRAG else DATA) fl 0 ++ fields D c n rd) ∧
    max_size m' = max_size m ∧ msg_endian m' = D.
Proof.
  intros Hfl Hrd Hwr Hm He Hroom. unfold serialize_header.
  destruct (open_writes (if 0 <? n then DATA_FRAG else DATA) fl m pre) as (m1 & E1 & Hm1 & Hx1 & He1); try done;
    [destruct (0 <? n); unfold DATA, DATA_FRAG; range_unfold; lia|lia|].
  destruct (fields_writes c n rd Hrd Hwr m1 _ Hm1 He1) as (m2 & E2 & Hm2 & Hx2 & He2);
    [rewrite length_app, length_header; lia|].
  exists m2. rewrite <-app_assoc in Hm2. split; [|split; [done|split; [lia|done]]].
  unfold mbind, M_bind. rewrite E1. simpl. unfold mbind, M_bind. by rewrite E2.
Qed.

Lemma add_zeros_writes n : writes D (add_zeros n) true (replicate n 0).
Proof.
  induction n as [|n IH]; [apply writes_ret|]. simpl. change (0 :: replicate n 0) with ([0] ++ replicate n 0).
  eapply writes_bind; [by apply octet_writes|]. rewrite <-(app_nil_r (replicate n 0)).
  eapply writes_bind; [apply IH|apply writes_ret].
Qed.

Lemma length_change_octets e c rd :
  EntityId.wf rd → EntityId.wf (Guid.entityId (writerGUID c)) → List.length (change_octets e c rd) = 16%nat.
Proof. intros [H1 _] [H2 _]. unfold change_octets, sn_octets. rewrite !length_app, !length_enc, H1, H2. done. Qed.

Lemma length_fields e c n rd :
  EntityId.wf rd → EntityId.wf (Guid.entityId (writerGUID c)) →
  List.length (fields e c n rd) = (if (0 <? n)%Z then 32 else 20)%nat.
Proof.
  intros. unfold fields. rewrite !length_app, length_change_octets, !length_enc by done.
  destruct (0 <? n); simpl; rewrite ?length_app, ?length_enc; done.
Qed.

(** Parameters keep the alignment. *)
Lemma parameters_aligned e c k x :
  wf_change c k x → size (parameters_octets e (parameters e c k x)) mod 4 = 0.
Proof.
  intros [_ _ Hkey Hrel _ _]. unfold parameters_octets, parameters.
  rewrite bind_app, !length_app, !length_enc. pose proof (length_identity e _ Hrel) as Hid.
  assert (∀ b : bool, size ((if b then [(PID_RELATED_SAMPLE_IDENTITY, identity_octets e (related_sample_identity (write_params c)));
      (PID_CUSTOM_RELATED_SAMPLE_IDENTITY, identity_octets e (related_sample_identity (write_params c)))] else [])
      ≫= λ p, parameter e p.1 p.2) mod 4 = 0) as H1.
  { intros []; [|done]. simpl. rewrite !length_app, !length_parameter, !Hid. done. }
  assert (∀ b a : bool, size ((if b then (PID_KEY_HASH, key_octets c) ::
      (if a then [] else [(PID_STATUS_INFO, [0; 0; 0; change_status (kind c)])]) else [])
      ≫= λ p, parameter e p.1 p.2) mod 4 = 0) as H2.
  { intros [] []; [..|done|done]; simpl; rewrite ?length_app, ?length_parameter, ?Hkey; done. }
  specialize (H1 (related_known c)). specialize (H2 (key_in_qos c k x) (is_alive c)).
  Z.to_euclidean_division_equations; lia.
Qed.

Lemma qos_aligned e c k x : wf_change c k x → size (qos_octets e c k x) mod 4 = 0.
Proof. intros. unfold qos_octets. destruct (inlineQosFlag _); [by apply parameters_aligned|done]. Qed.

Lemma qos_writes c k x :
  wf_change c k x →
  writes D (if inlineQosFlag (parts c k x) then serialize_inline_qos c k x None (status (parts c k x)) else mret tt) tt
    (qos_octets D c k x).
Proof.
  intros Hc. unfold qos_octets. apply writes_if; intros _; [by apply serialize_inline_qos_writes|apply writes_ret].
Qed.

Lemma padding_mod p q : p mod 4 = q mod 4 → Z.land (4 - p mod 4) 3 = (4 - q mod 4) mod 4.
Proof. intros <-. change 3 with (Z.ones 2). rewrite Z.land_ones by lia. done. Qed.

Lemma padded_aligned bs : size (padded bs) mod 4 = 0.
Proof. unfold padded. rewrite length_app, length_replicate. Z.to_euclidean_division_equations; lia. Qed.

(** The length written over the header of a submessage that is complete. *)
Lemma close_writes m pre id fl bs :
  appending m (pre ++ header D id fl 0 ++ bs) → msg_endian m = D →
  ∃ m', patch_size (size pre + 2) (size bs) m = Done (tt, m') ∧
    appending m' (pre ++ header D id fl (size bs) ++ bs) ∧ max_size m' = max_size m ∧ msg_endian m' = D.
Proof.
  intros Hm He. destruct (patch_writes m (pre ++ [id; fl]) (enc D 2 0) bs (size bs)) as (m' & E & Hm' & ? & ?).
  { unfold header in Hm. rewrite <-!app_assoc in *. exact Hm. } { done. } { by rewrite length_enc. }
  exists m'. replace (size pre + 2) with (size (pre ++ [id; fl])) by (rewrite length_app; simpl; lia).
  rewrite E. split; [done|]. split; [|done]. unfold header. rewrite <-app_assoc in Hm'. exact Hm'.
Qed.

Lemma size_written m pre id fl bs :
  appending m (pre ++ header D id fl 0 ++ bs) → size bs < 2 ^ 32 → u32 (pos m - (size pre + 4)) = size bs.
Proof.
  intros [_ -> _ _] Hb. rewrite !length_app, length_header. replace (_ - _) with (size bs) by lia.
  apply u32_small. range_unfold. lia.
Qed.

Lemma sub_flags_u8 e s : is_u8 (sub_flags e s).
Proof.
  assert (∀ a b c, is_u8 (eflag e) ∧ is_u8 (Z.lor (eflag e) (flag 1 a)) ∧ is_u8 (Z.lor (Z.lor (eflag e) (flag 1 a)) (flag 2 b)) ∧
    is_u8 (Z.lor (Z.lor (Z.lor (eflag e) (flag 1 a)) (flag 2 b)) (flag 3 c))) as Hall
    by (intros [] [] []; destruct e; vm_compute; repeat split; congruence).
  destruct s; cbn [sub_flags];
    first [exact (proj1 (Hall true true true)) | exact (proj1 (proj2 (Hall _ true true)))
          | exact (proj1 (proj2 (proj2 (Hall _ _ true)))) | exact (proj2 (proj2 (proj2 (Hall _ _ _))))].
Qed.

Lemma data_writes c k rd x m pre :
  let s := Data c k rd x in
  wf D s → size pre mod 4 = 0 → appending m pre → msg_endian m = D → size pre + size (octets D s) < max_size m →
  ∃ m', addSubmessageData c k rd x None m = Done ((true, false), m') ∧ appending m' (pre ++ octets D s) ∧
    max_size m' = max_size m ∧ msg_endian m' = D.
Proof.
  intros s (Hrd & Hc & Hp & Hs) Hal Hm He Hroom. pose proof Hc as [Hwr _ _ _ Hkf _].
  unfold octets in Hroom. rewrite length_app, length_header in Hroom.
  set (f := parts c k x) in *. set (pay := if dataFlag f then payload_octets (serializedPayload c) else []).
  assert ((if dataFlag f then padded (payload_octets (serializedPayload c)) else []) = padded pay) as Epay
    by (subst pay; by destruct (dataFlag f)).
  assert (content D s = fields D c 0 rd ++ qos_octets D c k x ++ padded pay) as Econt.
  { cbn [content s]. fold f. rewrite Epay. unfold fields. simpl. rewrite app_nil_r, <-!app_assoc. done. }
  rewrite Econt in Hs, Hroom. unfold padded in Hs, Hroom. rewrite !length_app, length_fields in Hs, Hroom by done. simpl in Hs, Hroom.
  pose proof (qos_aligned D c k x Hc) as Hq.
  destruct (serialize_header_writes 0 c rd (sub_flags D s) m pre) as (m1 & E1 & Hm1 & Hx1 & He1); try done;
    [apply sub_flags_u8|rewrite length_fields by done; simpl; lia|].
  destruct (qos_writes c k x Hc m1 _ Hm1 He1) as (m2 & E2 & Hm2 & Hx2 & He2);
    [rewrite !length_app, length_header, length_fields by done; simpl; lia|].
  assert (writes D (if dataFlag f then addPayload (serializedPayload c) else mret true) true pay) as Hw3
    by (apply writes_if; [intros Hd; by apply addPayload_writes, Hp|intros _; apply writes_ret]).
  destruct (Hw3 m2 _ Hm2 He2) as (m3 & E3 & Hm3 & Hx3 & He3);
    [rewrite !length_app, length_header, length_fields by done; simpl; lia|].
  assert (Z.land (4 - pos m3 mod 4) 3 = (4 - size pay mod 4) mod 4) as Hpad.
  { apply padding_mod. pose proof Hm3 as [_ -> _ _]. rewrite !length_app, length_header, length_fields by done. simpl.
    Z.to_euclidean_division_equations; lia. }
  destruct (add_zeros_writes (Z.to_nat ((4 - size pay mod 4) mod 4)) m3 _ Hm3 He3) as (m4 & E4 & Hm4 & Hx4 & He4);
    [rewrite !length_app, length_header, length_fields by done; simpl; lia|].
  assert (appending m4 (pre ++ header D DATA (sub_flags D s) 0 ++ content D s)) as Hm4'
    by (rewrite Econt; unfold padded; rewrite <-!app_assoc in *; exact Hm4).
  destruct (close_writes m4 pre DATA (sub_flags D s) _ Hm4' He4) as (m5 & E5 & Hm5 & Hx5 & He5).
  exists m5. split; [|split; [exact Hm5|split; [lia|done]]]. apply in_target_at; [done..|].
  change (prepare_submessage_flags c k x None) with f. change (Z.lor _ (flag 3 (keyFlag f))) with (sub_flags D s).
  fold f in E2. clearbody f.
  unfold mbind, M_bind, at_pos, get. rewrite E1. simpl. unfold mbind, M_bind. rewrite E2. simpl. rewrite E3. simpl. rewrite Hkf. simpl.
  unfold mbind, M_bind. simpl. rewrite Hpad, E4. simpl.
  rewrite (size_written m4 pre _ _ _ Hm4') by (rewrite Econt; unfold padded; rewrite !length_app, length_fields by done; simpl; lia).
  rewrite (proj2 (Z.leb_le _ UINT16_MAX)) by (rewrite Econt; unfold padded; rewrite !length_app, length_fields by done; range_unfold; simpl; lia).
  cbn [negb]. rewrite E5. done.
Qed.

Lemma data_frag_writes c n k rd x m pre :
  let s := DataFrag c n k rd x in
  wf D s → appending m pre → msg_endian m = D → size pre + size (octets D s) < max_size m →
  ∃ m', addSubmessageDataFrag c n (fragment_payload c n) k rd x None m = Done (true, m') ∧
    appending m' (pre ++ octets D s) ∧ max_size m' = max_size m ∧ msg_endian m' = D.
Proof.
  intros s (Hrd & Hc & Hn & Hp & _ & _ & _ & Hs) Hm He Hroom. pose proof Hc as [Hwr _ _ _ Hkf _].
  unfold octets in Hroom. rewrite length_app, length_header in Hroom.
  set (f := parts c k x) in *. set (pay := payload_octets (fragment_payload c n)).
  assert ((0 <? n) = true) as Epos by (apply Z.ltb_lt; lia).
  assert (content D s = fields D c n rd ++ qos_octets D c k x ++ padded pay) as Econt
    by (cbn [content s]; unfold fields; rewrite Epos, <-!app_assoc; done).
  assert (List.length (fields D c n rd) = 32%nat) as Hlf by (rewrite length_fields by done; by rewrite Epos).
  rewrite Econt in Hs, Hroom. unfold padded in Hs, Hroom. rewrite !length_app, Hlf in Hs, Hroom.
  pose proof (qos_aligned D c k x Hc) as Hq.
  destruct (serialize_header_writes n c rd (sub_flags D s) m pre) as (m1 & E1 & Hm1 & Hx1 & He1); try done;
    [apply sub_flags_u8|lia|]. rewrite Epos in Hm1.
  destruct (qos_writes c k x Hc m1 _ Hm1 He1) as (m2 & E2 & Hm2 & Hx2 & He2);
    [rewrite !length_app, length_header, Hlf; lia|].
  destruct (addPayload_writes _ Hp m2 _ Hm2 He2) as (m3 & E3 & Hm3 & Hx3 & He3);
    [fold pay; rewrite !length_app, length_header, Hlf; lia|]. fold pay in Hm3.
  destruct (add_zeros_writes (Z.to_nat ((4 - size pay mod 4) mod 4)) m3 _ Hm3 He3) as (m4 & E4 & Hm4 & Hx4 & He4);
    [rewrite !length_app, length_header, Hlf; lia|].
  assert (appending m4 (pre ++ header D DATA_FRAG (sub_flags D s) 0 ++ content D s)) as Hm4'
    by (rewrite Econt; unfold padded; rewrite <-!app_assoc in *; exact Hm4).
  destruct (close_writes m4 pre DATA_FRAG (sub_flags D s) _ Hm4' He4) as (m5 & E5 & Hm5 & Hx5 & He5).
  exists m5. split; [|split; [exact Hm5|split; [lia|done]]]. apply in_target_at; [done..|].
  change (prepare_submessage_flags c k x None) with f. change (Z.lor _ (flag 2 (keyFlag f))) with (sub_flags D s).
  fold f in E2. clearbody f.
  set (n3 := size (fields D c n rd ++ qos_octets D c k x ++ pay)).
  assert (u16 (u32 (pos m3 - (size pre + 4))) = n3) as E16.
  { pose proof Hm3 as [_ -> _ _]. subst n3. rewrite !length_app, length_header, Hlf in *.
    rewrite u32_small, u16_small by (range_unfold; lia). lia. }
  assert ((4 - n3 mod 4) mod 4 = (4 - size pay mod 4) mod 4) as Hpad
    by (subst n3; rewrite !length_app, Hlf; Z.to_euclidean_division_equations; lia).
  unfold mbind, M_bind, at_pos, get. rewrite E1. simpl. unfold mbind, M_bind. rewrite E2. simpl. rewrite Hkf. simpl.
  unfold mbind, M_bind. rewrite E3. simpl. rewrite E16, Hpad, E4. cbn [outcome_bind mbind].
  assert (u16 (n3 + (4 - size pay mod 4) mod 4) = size (content D s)) as ->.
  { rewrite Econt. subst n3. unfold padded. rewrite !length_app, Hlf in *.
    rewrite length_replicate in *. pose proof (Z.mod_pos_bound (4 - size pay mod 4) 4 ltac:(lia)). rewrite u16_small by (range_unfold; lia). lia. }
  rewrite E5. done.
Qed.

Lemma length_bitmap {T} `{RangeItemLaws T} e (r : BitmapRange.BitmapRange_t T) :
  BitmapFacts.inv r → size (bitmap_octets e r) mod 4 = 0 ∧ 4 <= size (bitmap_octets e r) <= 36.
Proof.
  intros Hinv. pose proof Hinv as [_ _ _ _ Hn _]. destruct (n_longs_words r Hinv) as [_ Hlen].
  destruct (BitmapFacts.n_longs_bound _ Hn) as [Hle _]. change BitmapRange.NITEMS with 8%nat in Hle. unfold bitmap_octets.
  destruct (BitmapRange.empty r); rewrite ?length_app, length_enc, ?length_words_octets; [done|]. rewrite Hlen.
  split; [|lia]. apply Z.mod_divide; [lia|]. exists (1 + Z.of_nat (BitmapRange.n_longs (BitmapRange.num_bits_ r))). lia.
Qed.

Lemma length_sn e s : List.length (sn_octets e s) = 8%nat.
Proof. unfold sn_octets. by rewrite length_app, !length_enc. Qed.

(** Submessages keep the alignment, and their lengths fit their field. *)
Lemma content_size e s : wf e s → size (content e s) mod 4 = 0 ∧ size (content e s) < 2 ^ 16.
Proof.
  assert (∀ id, EntityId.wf id → List.length id = 4%nat) as Hent by (by intros id [? _]).
  assert (∀ id, GuidPrefix.wf id → List.length id = 12%nat) as Hpre by (by intros id [? _]).
  destruct s as [[t|]|p|rd wr first last n fin live|rd wr set n fin|rd wr start set|rd wr sn set n|c k rd x|c n k rd x];
    cbn [wf content]; intros Hwf.
  - rewrite length_app, !length_enc. done.
  - done.
  - by rewrite (Hpre p).
  - destruct Hwf as (Hrd & Hwr & _). rewrite !length_app, !length_sn, length_enc, (Hent rd), (Hent wr) by done. done.
  - destruct Hwf as (Hrd & Hwr & [[Hinv _] _]). destruct (length_bitmap e set Hinv).
    rewrite !length_app, !length_sn, length_enc, (Hent rd), (Hent wr) by done. Z.to_euclidean_division_equations; lia.
  - destruct Hwf as (Hrd & Hwr & _ & _ & [[Hinv _] _]). destruct (length_bitmap e set Hinv).
    rewrite !length_app, !length_sn, (Hent rd), (Hent wr) by done. Z.to_euclidean_division_equations; lia.
  - destruct Hwf as (Hrd & Hwr & _ & [Hinv _] & _). destruct (length_bitmap e set Hinv).
    rewrite !length_app, !length_sn, !length_enc, (Hent rd), (Hent wr) by done. Z.to_euclidean_division_equations; lia.
  - destruct Hwf as (Hrd & Hc & _ & Hs). split; [|exact Hs]. pose proof (qos_aligned e c k x Hc) as Hq.
    pose proof Hc as [Hwr _ _ _ _ _].
    rewrite !length_app, length_change_octets, !length_enc by done. destruct (dataFlag _); [|simpl; Z.to_euclidean_division_equations; lia].
    pose proof (padded_aligned (payload_octets (serializedPayload c))). Z.to_euclidean_division_equations; lia.
  - destruct Hwf as (Hrd & Hc & _ & _ & _ & _ & _ & Hs). split; [|exact Hs]. pose proof (qos_aligned e c k x Hc) as Hq.
    pose proof (padded_aligned (payload_octets (fragment_payload c n))). pose proof Hc as [Hwr _ _ _ _ _].
    rewrite !length_app, length_change_octets, !length_enc by done. Z.to_euclidean_division_equations; lia.
Qed.

Lemma sub_id_u8 s : is_u8 (sub_id s).
Proof. destruct s; vm_compute; split; congruence. Qed.

Lemma eflag_target : eflag D = endian_flag.
Proof. reflexivity. Qed.

Lemma entity_writes {A} id (q : M A) a bs : EntityId.wf id → writes D q a bs → writes D (addEntityId id;; q) a (id ++ bs).
Proof. intros Hid Hq. eapply writes_seq; [by apply addEntityId_writes|exact Hq]. Qed.

Lemma info_ts_writes t : writes D (addSubmessageInfoTS (default (mkTime 0 0) t) (negb (present t))) true (octets D (InfoTS t)).
Proof.
  rewrite <-(app_nil_l (octets D _)). eapply writes_seq; [apply set_endian_writes|]. unfold octets. rewrite header_split.
  eapply writes_seq; [apply octet_writes, (sub_id_u8 (InfoTS t))|].
  eapply writes_seq; [apply octet_writes, sub_flags_u8|].
  eapply writes_seq; [eapply writes_fmap; [apply addPrimitive_writes|done|]|].
  { destruct t; cbn [content present negb]; rewrite ?length_app, ?length_enc; done. }
  eapply writes_last. destruct t; cbn [content present negb]; [|apply writes_ret].
  eapply writes_seq; apply addPrimitive_writes.
Qed.

Lemma info_dst_writes p : GuidPrefix.wf p → writes D (addSubmessageInfoDST p) true (octets D (InfoDST p)).
Proof.
  intros [Hp _]. rewrite <-(app_nil_l (octets D _)). eapply writes_seq; [apply set_endian_writes|].
  unfold octets. rewrite header_split. cbn [content]. rewrite Hp.
  eapply writes_seq; [apply octet_writes, (sub_id_u8 (InfoDST p))|].
  eapply writes_seq; [apply octet_writes, sub_flags_u8|].
  eapply writes_seq; [apply addPrimitive_writes|]. eapply writes_last, addData_writes.
Qed.

(** A submessage is written behind aligned octets. *)
Definition appends {A} (p : M A) (a : A) (bs : list Z) : Prop :=
  ∀ m pre, size pre mod 4 = 0 → appending m pre → msg_endian m = D → size pre + size bs < max_size m →
    ∃ m', p m = Done (a, m') ∧ appending m' (pre ++ bs) ∧ max_size m' = max_size m ∧ msg_endian m' = D.

Lemma writes_appends {A} (p : M A) a bs : writes D p a bs → appends p a bs.
Proof. intros Hp m pre _. apply Hp. Qed.

Lemma add_submessage_writes s : wf D s → appends (add_submessage s) true (octets D s).
Proof.
  intros Hwf. pose proof (content_size D s Hwf) as [_ Hs].
  pose proof (sub_flags_u8 D s) as Hfl. unfold octets.
  destruct s as [t|p|rd wr first last n fin live|rd wr set n fin|rd wr start set|rd wr sn set n|c k rd x|c n k rd x].
  - apply writes_appends, info_ts_writes.
  - by apply writes_appends, info_dst_writes.
  - destruct Hwf as (Hrd & Hwr & _). apply writes_appends.
    eapply submessage_writes; [apply sub_id_u8|done..|]. cbn [content].
    apply entity_writes, entity_writes; [done..|]. do 2 (eapply writes_seq; [apply addSequenceNumber_writes|]).
    apply addPrimitive_writes.
  - destruct Hwf as (Hrd & Hwr & _). apply writes_appends.
    eapply submessage_writes; [apply sub_id_u8|done..|]. cbn [content].
    apply entity_writes, entity_writes; [done..|]. eapply writes_seq; [apply addSequenceNumberSet_writes|].
    apply addPrimitive_writes.
  - destruct Hwf as (Hrd & Hwr & _). apply writes_appends.
    eapply submessage_writes; [apply sub_id_u8|done..|]. cbn [content].
    apply entity_writes, entity_writes; [done..|]. eapply writes_seq; [apply addSequenceNumber_writes|].
    apply addSequenceNumberSet_writes.
  - destruct Hwf as (Hrd & Hwr & _ & _ & Hb). apply writes_appends.
    eapply submessage_writes; [apply sub_id_u8|done..|]. cbn [content].
    apply entity_writes, entity_writes; [done..|]. eapply writes_seq; [apply addSequenceNumber_writes|].
    eapply writes_seq; [by apply addFragmentNumberSet_writes|]. apply addPrimitive_writes.
  - intros m pre Hal Hm He Hroom. destruct (data_writes c k rd x m pre Hwf Hal Hm He Hroom) as (m' & E & Hm' & ? & ?).
    exists m'. split; [|done]. unfold add_submessage, mbind, M_bind. rewrite E. done.
  - intros m pre _ Hm He Hroom. by apply data_frag_writes.
Qed.

(** ** Messages *)

Definition rtps_header (prefix : GuidPrefix.GuidPrefix_t) (v : ProtocolVersion_t) (vendor : list Z) : list Z :=
  [0x52; 0x54; 0x50; 0x53; m_major v; m_minor v; nth 0 vendor 0; nth 1 vendor 0] ++ prefix.

Definition message_octets (e : Endianness_t) (subs : list Submessage) : list Z := subs ≫= octets e.

Fixpoint add_submessages (subs : list Submessage) : M bool :=
  match subs with
  | [] => mret true
  | s :: subs => ok ← add_submessage s; oks ← add_submessages subs; mret (ok && oks)
  end.

Definition write_message (prefix : GuidPrefix.GuidPrefix_t) (v : ProtocolVersion_t) (vendor : list Z)
    (subs : list Submessage) : M bool :=
  set_endian DEFAULT_ENDIAN;; addHeader prefix v vendor;; add_submessages subs.

Lemma size_octets e s : size (octets e s) = 4 + size (content e s).
Proof. unfold octets. rewrite length_app, length_header. lia. Qed.

Lemma add_submessages_writes subs : Forall (wf D) subs → appends (add_submessages subs) true (message_octets D subs).
Proof.
  induction 1 as [|s subs Hs _ IH]; [apply writes_appends, writes_ret|].
  intros m pre Hal Hm He Hroom. change (message_octets D (s :: subs)) with (octets D s ++ message_octets D subs) in *. rewrite length_app in Hroom.
  destruct (content_size D s Hs) as [Hmod _]. pose proof (size_octets D s) as Hlen.
  destruct (add_submessage_writes s Hs m pre Hal Hm He) as (m1 & E1 & Hm1 & Hx1 & He1); [lia|].
  destruct (IH m1 (pre ++ octets D s)) as (m2 & E2 & Hm2 & Hx2 & He2); try done.
  { rewrite length_app. Z.to_euclidean_division_equations; lia. } { rewrite length_app. lia. }
  exists m2. simpl. unfold mbind, M_bind. rewrite E1. simpl. unfold mbind, M_bind. rewrite E2. simpl. rewrite <-app_assoc in Hm2.
  split; [done|]. split; [exact Hm2|split; [lia|done]].
Qed.

Lemma header_writes prefix v vendor :
  is_u8 (m_major v) → is_u8 (m_minor v) → Forall is_u8 vendor →
  writes D (addHeader prefix v vendor) true (rtps_header prefix v vendor).
Proof.
  intros H1 H2 H3. assert (∀ i, is_u8 (nth i vendor 0)) as Hv.
  { intros i. destruct (nth_in_or_default i vendor 0) as [Hin| ->]; [|range_unfold; lia].
    by apply (proj1 (Forall_forall _ _) H3), list_elem_of_In. }
  unfold rtps_header.
  change ([0x52; 0x54; 0x50; 0x53; m_major v; m_minor v; nth 0 vendor 0; nth 1 vendor 0] ++ prefix)
    with ([0x52] ++ [0x54] ++ [0x50] ++ [0x53] ++ [m_major v] ++ [m_minor v] ++ [nth 0 vendor 0] ++ [nth 1 vendor 0] ++ prefix).
  do 8 (eapply writes_seq; [apply octet_writes; first [done|apply Hv|range_unfold; lia]|]).
  eapply (writes_fmap _ _ _ _ (prefix ++ [])); [|done|apply app_nil_r]. eapply writes_seq; [apply addData_writes|].
  intros m pre Hm He _. exists m. rewrite app_nil_r. split; [|done].
  unfold mbind, M_bind, get, set_length, modify. simpl. unfold mret, M_ret. destruct Hm as [_ Hp Hl _]. destruct m. simpl in *.
  by subst.
Qed.

(** What is in a message that has been written. *)
Lemma write_message_octets prefix v vendor subs m :
  GuidPrefix.wf prefix → is_u8 (m_major v) → is_u8 (m_minor v) → Forall is_u8 vendor → Forall (wf D) subs →
  appending m [] → 20 + size (message_octets D subs) < max_size m →
  ∃ m', write_message prefix v vendor subs m = Done (true, m') ∧
    appending m' (rtps_header prefix v vendor ++ message_octets D subs).
Proof.
  intros [Hp _] H1 H2 H3 Hs Hm Hroom.
  assert (size (rtps_header prefix v vendor) = 20) as Hlen by (unfold rtps_header; rewrite length_app, Hp; done).
  assert (appending (with_endian m D) []) as Hm0 by (destruct Hm; by constructor).
  destruct (header_writes prefix v vendor H1 H2 H3 _ [] Hm0 eq_refl) as (m1 & E1 & Hm1 & Hx1 & He1).
  { rewrite Hlen. simpl. lia. }
  destruct (add_submessages_writes subs Hs m1 (rtps_header prefix v vendor)) as (m2 & E2 & Hm2 & Hx2 & He2); try done.
  { by rewrite Hlen. } { simpl in *. rewrite Hlen, Hx1. lia. }
  exists m2. split; [|exact Hm2]. unfold write_message, set_endian, modify. unfold mbind, M_bind. simpl. by rewrite E1.
Qed.

End creator.
End Wire.
