(* ===== verification/ReceiverFacts.v ===== *)
(** * The receiver understands what the creator writes

    The effect of each submessage at the receiver, proved of the octets the creator
    writes for it; the round trip of whole messages between any two targets; and the
    behaviour of the receiver on any octets. *)

From S2P Require Import Prelude.
From S2P Require Import SeqNum.
From S2P Require Import Bitmap.
From S2P Require Import BitmapFacts.
From S2P Require Import Guid.
From S2P Require Import CacheChange.
From S2P Require Import CacheChangeFacts.
From S2P Require Import CDRMessage.
From S2P Require Import CDRFacts.
From S2P Require Import Messages.
From S2P Require Import MessageReceiver.
From S2P Require Import MessageFacts.

Module Receive.
Import CDR CDRFacts CacheChange RTPS MessageCreator Wire ParameterList MessageReceiver.

(** ** Running a program to its result, wherever it leaves the position *)

Definition gives {A} (p : M A) (m : CDRMessage_t) (a : A) : Prop := ∃ q, p m = Done (a, with_pos m q).

Lemma gives_ret {A} (a : A) m : gives (mret a) m a.
Proof. exists (pos m). by destruct m. Qed.

Lemma gives_bind {A B} (p : M A) (k : A → M B) m q a b :
  p m = Done (a, with_pos m q) → gives (k a) (with_pos m q) b → gives (p ≫= k) m b.
Proof. intros Hp [q' Hk]. exists q'. unfold mbind, M_bind. rewrite Hp. simpl. by rewrite Hk. Qed.

Lemma reads_gives {A} e (p : M A) a bs m rest : reads e p a bs → ready m (bs ++ rest) → msg_endian m = e → gives p m a.
Proof. intros Hp Hm He. eexists. by eapply Hp. Qed.

Lemma gives_reads {A B} e (p : M A) (k : A → M B) a b bs m rest :
  reads e p a bs → ready m (bs ++ rest) → msg_endian m = e →
  (∀ m', m' = with_pos m (pos m + size bs) → ready m' rest → msg_endian m' = e → gives (k a) m' b) →
  gives (p ≫= k) m b.
Proof.
  intros Hp Hm He Hk. eapply gives_bind; [by eapply Hp|]. apply Hk; [done|by apply ready_advance|done].
Qed.

(** ** Flags and headers *)

Lemma eflag_bits e a b c id len l :
  let h f := mkHeader id len f l in
  let f1 := Z.lor (eflag e) (flag 1 a) in let f2 := Z.lor f1 (flag 2 b) in let f3 := Z.lor f2 (flag 3 c) in
  (∀ f, f = eflag e ∨ f = f1 ∨ f = f2 ∨ f = f3 → bit (h f) 0 = bool_decide (e = LITTLEEND)) ∧
  (∀ f, f = f1 ∨ f = f2 ∨ f = f3 → bit (h f) 1 = a) ∧ (∀ f, f = f2 ∨ f = f3 → bit (h f) 2 = b) ∧ bit (h f3) 3 = c.
Proof.
  cbv zeta. split_and!; [intros f Hf..|]; destruct e, a, b, c; repeat (destruct Hf as [->|Hf] || subst f); reflexivity.
Qed.

Definition header_of (e : Endianness_t) (s : Submessage) : SubmessageHeader_t :=
  mkHeader (sub_id s) (size (content e s)) (sub_flags e s) false.

Lemma order_bit e s : bit (header_of e s) 0 = bool_decide (e = LITTLEEND).
Proof.
  destruct s; unfold header_of; cbn [sub_flags];
    first [apply (eflag_bits e true true true); tauto
          |eapply (proj1 (eflag_bits e _ true true _ _ _)); right; left; reflexivity
          |eapply (proj1 (eflag_bits e _ _ true _ _ _)); right; right; left; reflexivity
          |eapply (proj1 (eflag_bits e _ _ _ _ _ _)); right; right; right; reflexivity].
Qed.

Section receiver.
Context `{Target} {E : Type} `{Endpoints E}.

Lemma set_endianness_reads e s : reads e (set_endianness (header_of e s)) tt [].
Proof.
  intros m rest _ He. unfold set_endianness. rewrite order_bit. simpl. rewrite Z.add_0_r.
  unfold set_endian, modify. by destruct m, e; simpl in *; subst.
Qed.

Lemma next_octet_spec m x rest : ready m ([x] ++ rest) → next_octet m = Done (x, with_pos m (pos m + 1)).
Proof.
  intros Hm. unfold next_octet, octet_at, skip, modify, lift, get, mbind, M_bind. simpl.
  pose proof (ready_load m [x] rest Hm) as Hl. change (size [x]) with 1 in Hl. rewrite Hl. simpl. unfold mret, M_ret.
  do 3 f_equal. exact (ready_next m [x] rest Hm).
Qed.

(** The header in front of a submessage is read as it was written. *)
Lemma readSubmessageHeader_spec e s m rest :
  wf e s → ready m (octets e s ++ rest) →
  ∃ m', readSubmessageHeader m = Done ((true, header_of e s), m') ∧ m' = with_endian (with_pos m (pos m + 4)) e ∧
    ready m' (content e s ++ rest).
Proof.
  intros Hwf Hm. destruct (content_size e s Hwf) as [_ Hsz]. pose proof (ready_size _ _ Hm) as Hlen.
  pose proof (sub_id_u8 s) as Hid. rewrite length_app, Nat2Z.inj_add, size_octets in Hlen.
  pose proof Hm as [_ Hp [_ H32]]. unfold octets in Hm. rewrite header_split, <-!app_assoc in Hm.
  unfold readSubmessageHeader. unfold mbind at 1, M_bind at 1, get at 1. simpl.
  rewrite u32_small by (range_unfold; lia). rewrite (proj2 (Z.ltb_ge _ _)) by lia.
  assert (ready (with_pos m (pos m + 1)) ([sub_flags e s] ++ enc e 2 (size (content e s)) ++ content e s ++ rest)) as Hm1
    by (exact (ready_advance m _ _ Hm)).
  assert (ready (with_endian (with_pos m (pos m + 1 + 1)) e) (enc e 2 (size (content e s)) ++ content e s ++ rest)) as Hm2
    by (destruct (ready_advance _ _ _ Hm1); by constructor).
  pose proof (ready_advance _ _ _ Hm2) as Hm3. rewrite length_enc in Hm3. simpl in Hm3.
  assert (is_u16 (size (content e s))) as Hu by (range_unfold; lia).
  exists (with_endian (with_pos m (pos m + 4)) e). split; [|split; [done|]].
  - unfold mbind at 1, M_bind at 1. rewrite (next_octet_spec _ _ _ Hm). simpl.
    unfold mbind at 1, M_bind at 1. rewrite (next_octet_spec _ _ _ Hm1). simpl.
    pose proof (order_bit e s) as Hbit. unfold bit in Hbit. change (Z.shiftl 1 0) with 1 in Hbit. simpl in Hbit. rewrite Hbit.
    assert ((if bool_decide (e = LITTLEEND) then LITTLEEND else BIGEND) = e) as -> by (by destruct e).
    unfold mbind at 1, M_bind at 1, set_endian at 1, modify at 1. simpl.
    unfold mbind at 1, M_bind at 1. rewrite (readUInt16_reads e 0 _ Hu _ _ Hm2 eq_refl). simpl.
    unfold mbind, M_bind, get. simpl. rewrite length_enc. simpl.
    rewrite u32_small by (range_unfold; lia). rewrite (proj2 (Z.ltb_ge _ _)) by lia.
    assert ((size (content e s) =? 0) && negb (sub_id s =? INFO_TS) && negb (sub_id s =? PAD) = false) as ->.
    { destruct (Z.eqb_spec (size (content e s)) 0) as [E0|]; [|done]. destruct s; try done; exfalso.
      all: cbn [content] in E0; rewrite ?length_app, ?length_sn, ?length_enc in E0; try lia.
      - destruct Hwf as [Hl _]. unfold GuidPrefix.size in Hl. lia. }
    unfold header_of. unfold mret, M_ret. do 3 f_equal. unfold with_endian, with_pos. simpl. f_equal. lia.
  - destruct Hm3 as [Hr3 Hp3 Hl3]. simpl in *. replace (pos m + 4) with (pos m + 1 + 1 + 2) by lia. by constructor.
Qed.

(** ** Parameter lists *)

(** The parameters of a list take a change to another. *)
Inductive listed (e : Endianness_t) : CacheChange_t → list (Z * list Z) → CacheChange_t → Prop :=
  | listed_nil c : listed e c [] c
  | listed_cons c pid bs c1 ps c2 :
      is_u16 pid → pid ≠ PID_SENTINEL → size bs mod 4 = 0 → size bs < 2 ^ 16 →
      (∀ m rest, ready m (bs ++ rest) → msg_endian m = e → gives (parameter_process c pid (size bs)) m (true, c1)) →
      listed e c1 ps c2 → listed e c ((pid, bs) :: ps) c2.

Lemma align_same n : 0 <= n < 2 ^ 31 → n mod 4 = 0 → Z.land (u32 (n + 3)) (UINT32_MAX - 3) = n.
Proof.
  intros Hn Hmod. rewrite u32_small by (range_unfold; lia).
  change (UINT32_MAX - 3) with (Z.ldiff (Z.ones 32) (Z.ones 2)).
  assert (Z.land (n + 3) (Z.ldiff (Z.ones 32) (Z.ones 2)) = Z.ldiff (Z.land (n + 3) (Z.ones 32)) (Z.ones 2)) as ->
    by (apply Z.bits_inj'; intros i Hi; rewrite !Z.ldiff_spec, !Z.land_spec, Z.ldiff_spec; apply andb_assoc).
  rewrite Z.ldiff_ones_r by lia.
  rewrite Z.land_ones by lia. rewrite Z.mod_small by lia. rewrite Z.shiftl_mul_pow2, Z.shiftr_div_pow2 by lia.
  Z.to_euclidean_division_equations; lia.
Qed.

(** The identifier and the length of a parameter, with the sum the loop keeps. *)
Lemma parameter_header_reads e pid len m rest :
  is_u16 pid → is_u16 len → ready m (enc e 2 pid ++ enc e 2 len ++ rest) → msg_endian m = e →
  readUInt16 PID_SENTINEL m = Done ((true, pid), with_pos m (pos m + 2)) ∧
  readUInt16 0 (with_pos m (pos m + 2)) = Done ((true, len), with_pos m (pos m + 4)) ∧ ready (with_pos m (pos m + 4)) rest.
Proof.
  intros Hpid Hlen Hm He. pose proof (ready_advance _ _ _ Hm) as Hm1. rewrite length_enc in Hm1.
  pose proof (ready_advance _ _ _ Hm1) as Hm2. rewrite length_enc in Hm2. simpl in Hm2.
  pose proof (readUInt16_reads e PID_SENTINEL _ Hpid _ _ Hm He) as E1.
  pose proof (readUInt16_reads e 0 _ Hlen _ _ Hm1 He) as E2. rewrite length_enc in E1, E2.
  split; [exact E1|]. replace (pos m + 4) with (pos m + Z.of_nat 2 + Z.of_nat 2) by lia. split; [exact E2|exact Hm2].
Qed.

Lemma parameters_cons e pid bs ps :
  parameters_octets e ((pid, bs) :: ps) = enc e 2 pid ++ enc e 2 (size bs) ++ bs ++ parameters_octets e ps.
Proof. unfold parameters_octets. simpl. unfold parameter. by rewrite <-!app_assoc. Qed.

Lemma read_parameters_spec e ps c c' fuel o qs m rest :
  listed e c ps c' → (List.length ps < fuel)%nat → qs mod 4 = 0 → 0 <= qs → 0 <= o →
  qs + size (parameters_octets e ps) < 2 ^ 31 → ready (with_pos m (o + qs)) (parameters_octets e ps ++ rest) →
  msg_endian m = e →
  read_parameters fuel o qs c m =
    Done ((true, c', qs + size (parameters_octets e ps)), with_pos m (o + qs + size (parameters_octets e ps))).
Proof.
  intros Hl. revert fuel qs m. induction Hl as [c|c pid bs c1 ps c2 Hpid Hne Hal H16 Hstep Hl IH];
    intros fuel qs m Hfuel Hmod Hqs Ho Hsz Hm He; (destruct fuel as [|fuel]; [simpl in Hfuel; lia|]); cbn [read_parameters];
    unfold mbind at 1, M_bind at 1, set_pos, modify; cbn [outcome_bind mbind]; pose proof (ready_size _ _ Hm) as Hlen;
    pose proof Hm as [_ Hp [_ H32]]; simpl in Hlen, Hp, H32; rewrite (u32_small (o + qs)) by (range_unfold; lia).
  - unfold parameters_octets in *. simpl in *. rewrite <-app_assoc in Hm. rewrite !length_app, !length_enc in *.
    destruct (parameter_header_reads e PID_SENTINEL 0 _ _ ltac:(done) ltac:(done) Hm He) as (E1 & E2 & _).
    unfold mbind, M_bind, get. rewrite E1. simpl in *. unfold mbind, M_bind. rewrite E2. simpl. rewrite Z.add_0_r, u32_small by (range_unfold; lia).
    rewrite (proj2 (Z.ltb_ge _ _)) by lia. simpl. rewrite (u32_small (qs + _)), align_same by (range_unfold; Z.to_euclidean_division_equations; lia).
    unfold mret, M_ret. do 3 f_equal.
  - rewrite parameters_cons in *. rewrite <-!app_assoc in Hm. rewrite !length_app, !length_enc in *.
    assert (is_u16 (size bs)) as Hu by (range_unfold; lia).
    destruct (parameter_header_reads e pid (size bs) _ _ Hpid Hu Hm He) as (E1 & E2 & Hm4). simpl in E1, E2, Hm4.
    unfold mbind at 1, M_bind at 1. rewrite E1. simpl. unfold mbind at 1, M_bind at 1. rewrite E2. simpl.
    rewrite (proj2 (Z.eqb_neq _ _)) by done. unfold mbind at 1, M_bind at 1, get. simpl. rewrite (u32_small (o + qs + 4 + _)) by (range_unfold; lia).
    rewrite (proj2 (Z.ltb_ge _ _)) by lia. simpl.
    rewrite (u32_small (qs + _)), align_same by (range_unfold; Z.to_euclidean_division_equations; lia).
    pose proof (ready_advance _ _ _ Hm4) as Hm5.
    destruct (Hstep _ _ Hm4) as [q Eq]; [done|]. unfold mbind, M_bind. rewrite Eq. simpl.
    rewrite IH; simpl; try done; try (simpl in Hfuel; lia); try (Z.to_euclidean_division_equations; lia).
    + do 2 f_equal; [f_equal; lia|unfold with_pos; simpl; f_equal; lia].
    + simpl in Hm5. replace (o + (qs + _)) with (o + qs + 4 + size bs) by lia. exact Hm5.
Qed.

Lemma data_reads e old bs n :
  List.length bs = S n → reads e (readData old (Z.of_nat (S n))) (true, bs) bs.
Proof. intros Hl. rewrite <-Hl. apply readData_reads. by intros ->. Qed.

Lemma read_key_reads e key : List.length key = 16%nat → reads e (read_key 16) (Some key) key.
Proof.
  intros Hk. eapply reads_step; [exact (data_reads e _ key 15 Hk)|]. apply reads_ret.
Qed.

Lemma read_status_info_reads e a b c st : reads e (read_status_info 4) (Some st) [a; b; c; st].
Proof.
  unfold read_status_info. simpl. change [a; b; c; st] with ([a] ++ [b] ++ [c] ++ [st]).
  do 3 (eapply reads_bind; [apply readOctet_reads|]). eapply reads_step; [apply readOctet_reads|]. apply reads_ret.
Qed.

Lemma read_sample_identity_reads e i : wf_identity i → reads e (read_sample_identity 24) (Some i) (identity_octets e i).
Proof.
  intros [[[Hp _] [He _]] [Hhi Hlo]]. unfold read_sample_identity, identity_octets, sn_octets. simpl.
  destruct i as [[prefix entity] [hi lo]]. simpl in *.
  eapply reads_bind; [exact (data_reads e _ prefix 11 Hp)|]. simpl.
  eapply reads_bind; [exact (data_reads e _ entity 3 He)|]. simpl.
  eapply reads_bind; [by apply readInt32_reads|]. rewrite (u32_small lo) by done.
  eapply reads_step; [by apply readUInt32_reads|]. apply reads_ret.
Qed.

(** What the inline QoS of a change tells about it. *)
Definition noted (c0 c : CacheChange_t) (k x : bool) : CacheChange_t :=
  let c1 := if related_known c then with_identity c0 (related_sample_identity (write_params c)) else c0 in
  if key_in_qos c k x then
    let c2 := ParameterList.with_key c1 (key_octets c) in if is_alive c then c2 else with_kind c2 (kind c)
  else c1.

Lemma listed_key e c0 c ps c2 :
  List.length (key_octets c) = 16%nat → listed e (ParameterList.with_key c0 (key_octets c)) ps c2 →
  listed e c0 ((PID_KEY_HASH, key_octets c) :: ps) c2.
Proof.
  intros Hk Hl. eapply listed_cons; [done|done|by rewrite Hk..| |exact Hl]. intros m rest Hm He. rewrite Hk. simpl.
  unfold parameter_process. simpl. eapply reads_gives; [|exact Hm|exact He].
  eapply reads_step; [by apply read_key_reads|]. apply reads_ret.
Qed.

Lemma listed_status e c0 k :
  k ≠ ALIVE → listed e c0 [(PID_STATUS_INFO, [0; 0; 0; change_status k])] (with_kind c0 k).
Proof.
  intros Hk. eapply listed_cons; [done..| |apply listed_nil]. intros m rest Hm He. simpl.
  unfold parameter_process. simpl. eapply reads_gives; [|exact Hm|exact He].
  eapply reads_step; [apply read_status_info_reads|]. by destruct k; [|apply reads_ret..].
Qed.

(** The second identity is skipped: the change does not know its vendor. *)
Lemma listed_identity e c0 i ps c2 :
  wf_identity i → vendor_id c0 = c_VendorId_Unknown → listed e (with_identity c0 i) ps c2 →
  listed e c0 ((PID_RELATED_SAMPLE_IDENTITY, identity_octets e i) ::
               (PID_CUSTOM_RELATED_SAMPLE_IDENTITY, identity_octets e i) :: ps) c2.
Proof.
  intros Hi Hv Hl. pose proof (length_identity e i Hi) as Hlen.
  eapply listed_cons; [done|done|by rewrite Hlen..| |]; [|eapply listed_cons; [done|done|by rewrite Hlen..| |exact Hl]].
  - intros m rest Hm He. rewrite Hlen. unfold parameter_process. simpl. eapply reads_gives; [|exact Hm|exact He].
    eapply reads_step; [by apply read_sample_identity_reads|]. apply reads_ret.
  - intros m rest Hm He. rewrite Hlen. unfold parameter_process. simpl. rewrite Hv. apply gives_ret.
Qed.

Lemma parameters_listed e c0 c k x :
  wf_change c k x → vendor_id c0 = c_VendorId_Unknown → listed e c0 (parameters e c k x) (noted c0 c k x).
Proof.
  intros [_ _ Hkey Hrel _ _] Hv. unfold parameters, noted.
  assert (∀ c1, listed e c1 (if key_in_qos c k x then (PID_KEY_HASH, key_octets c) ::
    (if is_alive c then [] else [(PID_STATUS_INFO, [0; 0; 0; change_status (kind c)])]) else [])
    (if key_in_qos c k x then let c2 := ParameterList.with_key c1 (key_octets c) in
       if is_alive c then c2 else with_kind c2 (kind c) else c1)) as Hrest.
  { intros c1. destruct (key_in_qos c k x); [|apply listed_nil]. apply listed_key; [done|].
    unfold is_alive. case_bool_decide; [apply listed_nil|by apply listed_status]. }
  destruct (related_known c); [|apply Hrest]. simpl. apply listed_identity; [done..|]. apply Hrest.
Qed.

Lemma parameters_many e ps : (List.length ps <= List.length (parameters_octets e ps))%nat.
Proof.
  induction ps as [|[pid bs] ps IH]; [simpl; lia|]. rewrite parameters_cons, !length_app, length_enc. simpl. lia.
Qed.

(** A change as its inline QoS leaves it, which is kept where it stands in the
    message. *)
Definition with_qos (e : Endianness_t) (buf : list Z) (at_ : Z) (c0 c : CacheChange_t) (k x : bool) : CacheChange_t :=
  let n := size (qos_octets e c k x) in
  if inlineQosFlag (parts c k x) then
    with_inline_qos (noted c0 c k x)
      (Payload.mkPayload (if decide (e = LITTLEEND) then PL_CDR_LE else PL_CDR_BE) n
         (Some (drop (Z.to_nat at_) buf)) n 0)
  else c0.

Lemma read_inline_qos_spec e smh c0 c k x m rest :
  wf_change c k x → vendor_id c0 = c_VendorId_Unknown →
  bit smh 0 = bool_decide (e = LITTLEEND) → bit smh 1 = inlineQosFlag (parts c k x) →
  ready m (qos_octets e c k x ++ rest) → msg_endian m = e → size (qos_octets e c k x) < 2 ^ 16 →
  read_inline_qos smh c0 m = Done ((true, with_qos e (buffer m) (pos m) c0 c k x, size (qos_octets e c k x)),
                                   with_pos m (pos m + size (qos_octets e c k x))).
Proof.
  intros Hc Hv Hb0 Hb1 Hm He Hsz. unfold read_inline_qos, with_qos. rewrite Hb1.
  unfold qos_octets in *. destruct (inlineQosFlag (parts c k x)); [|simpl; rewrite Z.add_0_r; by destruct m].
  pose proof (ready_size _ _ Hm) as Hlen. rewrite length_app in Hlen. pose proof Hm as [_ Hp [_ H32]].
  pose proof (parameters_many e (parameters e c k x)) as Hmany.
  assert (updateCacheChangeFromInlineQos c0 m = Done ((true, noted c0 c k x, size (parameters_octets e (parameters e c k x))),
    with_pos m (pos m + size (parameters_octets e (parameters e c k x))))) as Hupd.
  { change (read_parameters (S (Z.to_nat (length m))) (pos m) 0 c0 m = Done ((true, noted c0 c k x,
      0 + size (parameters_octets e (parameters e c k x))), with_pos m (pos m + size (parameters_octets e (parameters e c k x))))).
    rewrite <-(Z.add_0_r (pos m)) at 2. eapply read_parameters_spec; try done; try lia; [by apply parameters_listed|].
    rewrite Z.add_0_r. destruct m. exact Hm. }
  unfold mbind, M_bind. rewrite Hupd. simpl. unfold mbind, M_bind, get. simpl. unfold mret, M_ret. rewrite Hb0.
  rewrite u32_small by (range_unfold; lia).
  replace (pos m + _ - _) with (pos m) by lia. by destruct e.
Qed.

(** ** The effect of submessages *)

Definition from_writer (r : MessageReceiver) (c : CacheChange_t) : CacheChange_t :=
  with_writer new_change (Guid.mkGUID (source_guid_prefix_ r) (Guid.entityId (writerGUID c))) (sequenceNumber c).

(** A payload of [n] octets at a place of the message. *)
Definition pointing (buf : list Z) (at_ n : Z) (p : Payload.SerializedPayload_t) : Payload.SerializedPayload_t :=
  Payload.mkPayload (Payload.encapsulation p) n (Some (drop (Z.to_nat at_) buf)) n (Payload.pos p).

(** The change the readers get, of a submessage whose content is at [at_]. *)
Definition received (e : Endianness_t) (buf : list Z) (at_ : Z) (r : MessageReceiver) (c : CacheChange_t) (k x : bool)
    : CacheChange_t :=
  let c1 := with_qos e buf (at_ + 20) (from_writer r c) c k x in
  if dataFlag (parts c k x) then
    with_payload c1 (pointing buf (at_ + 20 + size (qos_octets e c k x))
      (size (padded (payload_octets (serializedPayload c)))) (serializedPayload c1))
  else c1.

Definition received_fragment (e : Endianness_t) (buf : list Z) (at_ : Z) (r : MessageReceiver) (c : CacheChange_t)
    (n : Z) (k x : bool) : CacheChange_t :=
  let c1 := with_qos e buf (at_ + 32) (from_writer r c) c k x in
  let len := size (padded (payload_octets (fragment_payload c n))) in
  let fs := getFragmentSize c in
  let count := if 0 <? fs then u32 (len + fs - 1) / fs else 0 in
  with_fragments (with_payload (with_kind c1 ALIVE)
    (pointing buf (at_ + 32 + size (qos_octets e c k x)) len (serializedPayload c1))) fs count count.

(** What a submessage does to the receiver and its endpoints: whether the message
    goes on, and whether its source is ignored from here on. *)
Definition effect (e : Endianness_t) (buf : list Z) (at_ : Z) (s : Submessage) (ig : bool) (r : MessageReceiver) (ep : E)
    : bool * bool * MessageReceiver * E :=
  let for_us := GuidPrefix.eqb (dest_guid_prefix_ r) (own_prefix ep) in
  let from id := Guid.mkGUID (source_guid_prefix_ r) id in
  let to id := Guid.mkGUID (dest_guid_prefix_ r) id in
  let vendor := source_vendor_id_ r in
  match s with
  | InfoTS None => (true, ig, with_timestamp r false (timestamp_ r), ep)
  | InfoTS (Some t) => (true, ig, with_timestamp r true t, ep)
  | InfoDST p => (true, ig, if GuidPrefix.eqb p GuidPrefix.unknown then r else with_dest r p, ep)
  | Heartbeat rd wr first last n final live =>
      if for_us then (true, ig, r, findAllReaders r rd
        (λ ep i, processHeartbeatMsg ep i (from wr) (u32 n) first last final live vendor) ep)
      else (true, ig, r, ep)
  | Acknack rd wr set n final =>
      if for_us then let '(valid, ep) := ask_writers
        (λ ep i, process_acknack ep i (to wr) (from rd) (u32 n) (ranged set) final vendor) (associated_writers_ r) ep in
        (valid, ig, r, ep)
      else (true, ig, r, ep)
  | Gap rd wr start set =>
      if for_us then (true, ig, r, findAllReaders r rd
        (λ ep i, processGapMsg ep i (from wr) start (ranged set) vendor) ep)
      else (true, ig, r, ep)
  | NackFrag rd wr sn set n =>
      if for_us then let '(valid, ep) := ask_writers
        (λ ep i, process_nack_frag ep i (to wr) (from rd) (u32 n) sn (widened set) vendor) (associated_writers_ r) ep in
        (valid, ig, r, ep)
      else (true, ig, r, ep)
  | Data c k rd x =>
      if for_us then
        if willAReaderAcceptMsgDirectedTo r ep rd then
          let ep := findAllReaders r rd (λ ep i, processDataMsg ep i (stamp r (received e buf at_ r c k x))) ep in
          (true, if EntityId.eqb (Guid.entityId (writerGUID c)) EntityId.c_EntityId_SPDPWriter
                 then is_participant_ignored ep (source_guid_prefix_ r) else ig, r, ep)
        else (false, ig, r, ep)
      else (true, ig, r, ep)
  | DataFrag c n k rd x =>
      if for_us then
        if willAReaderAcceptMsgDirectedTo r ep rd then
          (true, ig, r, findAllReaders r rd
             (λ ep i, processDataFragMsg ep i (stamp r (received_fragment e buf at_ r c n k x))
                        (Payload.length (serializedPayload c)) n 1) ep)
        else (false, ig, r, ep)
      else (true, ig, r, ep)
  end.

Lemma positive_number sn : SN.wf sn → 0 < SN.val sn → SN.leb sn SN.default = false.
Proof. intros Hw Hp. rewrite SN.leb_val by done. by apply Z.leb_gt. Qed.

(** The range check of heartbeats. *)
Lemma heartbeat_range first last :
  SN.wf first → SN.wf last → 0 < SN.val first → SN.val first - 1 <= SN.val last →
  SN.ltb last first && SN.neqb last (SN.sub_u32 first 1) = false.
Proof.
  intros Hf Hl Hpos Hle. rewrite SN.ltb_val by done. destruct (Z.ltb_spec (SN.val last) (SN.val first)); [|done].
  assert (SN.nonneg first) as Hnn by (clear - Hf Hpos; SN.sn_unfold; lia).
  destruct (SN.sub_u32_val first 1 Hnn) as [Hv _]; [range_unfold; lia|lia|].
  assert (last = SN.sub_u32 first 1) as <- by (apply SN.val_inj; [done|apply SN.sub_u32_wf; [done|range_unfold; lia]|lia]).
  simpl. rewrite SN.neqb_negb. by rewrite (proj2 (SN.eqb_eq last last)).
Qed.

(** Reading the identifiers of the endpoints first. *)
Lemma endpoints_reads {A} e s (k : EntityId.EntityId_t → EntityId.EntityId_t → M A) a rd wr bs :
  EntityId.wf rd → EntityId.wf wr → reads e (k rd wr) a bs →
  reads e (set_endianness (header_of e s);; '(_, rd) ← readEntityId EntityId.unknown;
           '(_, wr) ← readEntityId EntityId.unknown; k rd wr) a (rd ++ wr ++ bs).
Proof.
  intros Hrd Hwr Hk. rewrite <-(app_nil_l (rd ++ _)). eapply reads_bind; [apply set_endianness_reads|].
  eapply reads_bind; [by apply readEntityId_reads|]. eapply reads_bind; [by apply readEntityId_reads|exact Hk].
Qed.

Lemma heartbeat_reads e r ep rd wr first last n final live :
  let s := Heartbeat rd wr first last n final live in
  wf e s →
  reads e (proc_Submsg_Heartbeat r (header_of e s) ep)
    (true, findAllReaders r rd (λ ep i, processHeartbeatMsg ep i (Guid.mkGUID (source_guid_prefix_ r) wr) (u32 n) first last
       final live (source_vendor_id_ r)) ep) (content e s).
Proof.
  intros s (Hrd & Hwr & Hf & Hl & Hpos & Hle). apply endpoints_reads; [done..|].
  eapply reads_bind; [by apply readSequenceNumber_reads|]. eapply reads_bind; [by apply readSequenceNumber_reads|].
  cbv beta iota. rewrite positive_number, heartbeat_range by done. simpl.
  destruct (eflag_bits e final live true HEARTBEAT (size (content e s)) false) as (_ & H1 & H2 & _).
  rewrite (H1 _ (or_intror (or_introl eq_refl)) : bit (header_of e s) 1 = final).
  rewrite (H2 _ (or_introl eq_refl) : bit (header_of e s) 2 = live).
  eapply reads_step; [apply readUInt32_reads, u32_range|]. apply reads_ret.
Qed.

Lemma acknack_reads e r ep rd wr set n final :
  let s := Acknack rd wr set n final in
  wf e s →
  reads e (proc_Submsg_Acknack r (header_of e s) ep)
    (ask_writers (λ ep i, process_acknack ep i (Guid.mkGUID (dest_guid_prefix_ r) wr) (Guid.mkGUID (source_guid_prefix_ r) rd)
       (u32 n) (ranged set) final (source_vendor_id_ r)) (associated_writers_ r) ep) (content e s).
Proof.
  intros s (Hrd & Hwr & [Hset Hhi]). apply endpoints_reads; [done..|].
  eapply reads_bind; [by apply readSequenceNumberSet_reads|].
  destruct (eflag_bits e final true true ACKNACK (size (content e s)) false) as (_ & H1 & _).
  rewrite (H1 _ (or_introl eq_refl) : bit (header_of e s) 1 = final).
  eapply reads_step; [apply readUInt32_reads, u32_range|]. apply reads_ret.
Qed.

Lemma gap_reads e r ep rd wr start set :
  let s := Gap rd wr start set in
  wf e s →
  reads e (proc_Submsg_Gap r (header_of e s) ep)
    (true, findAllReaders r rd (λ ep i, processGapMsg ep i (Guid.mkGUID (source_guid_prefix_ r) wr) start (ranged set)
       (source_vendor_id_ r)) ep) (content e s).
Proof.
  intros s (Hrd & Hwr & Hst & Hpos & [Hset Hhi]). apply endpoints_reads; [done..|].
  eapply reads_bind; [by apply readSequenceNumber_reads|]. eapply reads_step; [by apply readSequenceNumberSet_reads|].
  cbv beta iota. rewrite (positive_number start Hst Hpos : SN.leb start (SN.mkSN 0 0) = false). apply reads_ret.
Qed.

Lemma nack_frag_reads e r ep rd wr sn set n :
  let s := NackFrag rd wr sn set n in
  wf e s →
  reads e (proc_Submsg_NackFrag r (header_of e s) ep)
    (ask_writers (λ ep i, process_nack_frag ep i (Guid.mkGUID (dest_guid_prefix_ r) wr) (Guid.mkGUID (source_guid_prefix_ r) rd)
       (u32 n) sn (widened set) (source_vendor_id_ r)) (associated_writers_ r) ep) (content e s).
Proof.
  intros s (Hrd & Hwr & Hsn & Hset & _). apply endpoints_reads; [done..|].
  eapply reads_bind; [by apply readSequenceNumber_reads|]. eapply reads_bind; [by apply readFragmentNumberSet_reads|].
  eapply reads_step; [apply readUInt32_reads, u32_range|]. apply reads_ret.
Qed.

Lemma info_ts_reads e r t :
  let s := InfoTS t in
  wf e s →
  reads e (proc_Submsg_InfoTS r (header_of e s))
    (true, match t with Some t => with_timestamp r true t | None => with_timestamp r false (timestamp_ r) end) (content e s).
Proof.
  intros s Hwf. rewrite <-(app_nil_l (content e s)). eapply reads_bind; [apply set_endianness_reads|].
  destruct (eflag_bits e (negb (present t)) true true INFO_TS (size (content e s)) false) as (_ & H1 & _).
  rewrite (H1 _ (or_introl eq_refl) : bit (header_of e s) 1 = negb (present t)). subst s.
  destruct t as [[sec frac]|]; simpl; [|apply reads_ret]. destruct Hwf as [Hs Hf]. simpl in Hs, Hf.
  rewrite (u32_small frac) by done. eapply (reads_step e (readTimestamp (timestamp_ r)) _ (true, mkTime sec frac)).
  - eapply reads_bind; [by apply readInt32_reads|]. eapply reads_step; [by apply readUInt32_reads|]. apply reads_ret.
  - apply reads_ret.
Qed.

Lemma info_dst_reads e r p :
  let s := InfoDST p in
  wf e s →
  reads e (proc_Submsg_InfoDST r (header_of e s))
    (true, if GuidPrefix.eqb p GuidPrefix.unknown then r else with_dest r p) (content e s).
Proof.
  intros s [Hp _]. rewrite <-(app_nil_l (content e s)). eapply reads_bind; [apply set_endianness_reads|].
  eapply reads_step; [exact (data_reads e _ p 11 Hp)|]. simpl.
  by destruct (GuidPrefix.eqb p GuidPrefix.unknown); apply reads_ret.
Qed.

Lemma padded_pos bs : 0 < size bs → 4 <= size (padded bs).
Proof. intros Hb. pose proof (padded_aligned bs). unfold padded in *. rewrite length_app in *. Z.to_euclidean_division_equations; lia. Qed.

Lemma data_octets_pos c k x :
  dataFlag (parts c k x) = true → wf_payload (serializedPayload c) → 0 < size (payload_octets (serializedPayload c)).
Proof.
  intros Hd (Hl & d & Ed & Hle). unfold parts, prepare_submessage_flags in Hd. simpl in Hd.
  apply andb_true_iff in Hd as [_ Hd]. apply andb_true_iff in Hd as [Hd _]. apply Z.ltb_lt in Hd.
  unfold payload_octets. rewrite Ed. simpl. rewrite length_take. lia.
Qed.

(** A data submessage is longer than its fixed part. *)
Lemma data_size e c k rd x :
  wf e (Data c k rd x) →
  size (content e (Data c k rd x)) =
    20 + size (qos_octets e c k x) + size (if dataFlag (parts c k x) then padded (payload_octets (serializedPayload c)) else []) ∧
  24 <= size (content e (Data c k rd x)).
Proof.
  intros (Hrd & Hc & Hp & _). pose proof Hc as [Hwr _ _ _ _ Hsome]. cbn [content].
  rewrite !length_app, !length_enc, length_change_octets by done. split; [lia|].
  destruct (dataFlag (parts c k x)) eqn:Ed.
  - pose proof (padded_pos _ (data_octets_pos c k x Ed (Hp eq_refl))). lia.
  - rewrite orb_false_r in Hsome. unfold qos_octets. rewrite Hsome. unfold parameters_octets.
    rewrite !length_app, !length_enc. lia.
Qed.

(** The payload, behind the inline QoS. *)
Lemma read_payload_spec e c k rd x m rest c1 :
  let s := Data c k rd x in
  let q := size (qos_octets e c k x) in
  wf e s → ready m ((if dataFlag (parts c k x) then padded (payload_octets (serializedPayload c)) else []) ++ rest) →
  gives (read_payload (header_of e s) 16 q c1) m
    (Some (if dataFlag (parts c k x) then with_payload c1 (pointing (buffer m) (pos m)
       (size (padded (payload_octets (serializedPayload c)))) (serializedPayload c1)) else c1)).
Proof.
  intros s q Hwf Hm. destruct (data_size e c k rd x Hwf) as [Hsz _]. fold s in Hsz.
  pose proof (ready_size _ _ Hm) as Hlen. pose proof Hm as [_ Hp [_ H32]].
  destruct Hwf as (Hrd & Hc & Hpay & H16). pose proof Hc as [_ _ _ _ Hkf _].
  destruct (eflag_bits e (inlineQosFlag (parts c k x)) (dataFlag (parts c k x)) (keyFlag (parts c k x))
    DATA (size (content e s)) false) as (_ & _ & H2 & H3).
  unfold read_payload. rewrite (H2 _ (or_intror eq_refl) : bit (header_of e s) 2 = _).
  rewrite (H3 : bit (header_of e s) 3 = _), Hkf. destruct (dataFlag (parts c k x)) eqn:Ed; [|apply gives_ret].
  pose proof (padded_pos _ (data_octets_pos c k x Ed (Hpay eq_refl))) as Hpos. rewrite length_app in Hlen. simpl orb. cbv iota.
  change (submessageLength (header_of e s)) with (size (content e s)). fold s in H16.
  unfold RTPSMESSAGE_DATA_EXTRA_INLINEQOS_SIZE. rewrite (u32_small (4 + 16 + q)) by (range_unfold; lia).
  rewrite (proj2 (Z.ltb_ge _ _)) by lia. replace (size (content e s) - (4 + 16 + q))
    with (size (padded (payload_octets (serializedPayload c)))) by lia.
  exists (pos m + size (padded (payload_octets (serializedPayload c)))). unfold mbind, M_bind, get. simpl.
  rewrite u32_small by (range_unfold; lia). rewrite (proj2 (Z.leb_le _ _)), (proj2 (Z.ltb_lt _ _)) by lia. done.
Qed.

(** The start of a data submessage. *)
Lemma data_start {A} e s (k : bool * Z → M A) n m rest a :
  0 <= n < 2 ^ 15 → ready m (enc e 2 0 ++ enc e 2 n ++ rest) → msg_endian m = e →
  (∀ m', m' = with_pos m (pos m + 4) → ready m' rest → msg_endian m' = e → gives (k (true, n)) m' a) →
  gives (set_endianness (header_of e s);; skip 2;; readInt16 0 ≫= k) m a.
Proof.
  intros Hn Hm He Hk.
  eapply (gives_reads e _ _ _ _ []); [apply set_endianness_reads|exact Hm|done|]. intros m1 E1 Hm1 He1.
  eapply (gives_reads e _ _ _ _ (enc e 2 0)); [|exact Hm1|done|].
  { pose proof (skip_reads e (enc e 2 0)) as Hs. rewrite length_enc in Hs. exact Hs. }
  intros m2 E2 Hm2 He2. eapply gives_reads; [by apply readInt16_reads|exact Hm2|done|]. intros m3 E3 Hm3 He3.
  apply Hk; [|done..]. rewrite E3, E2, E1, !length_enc. unfold with_pos. simpl. f_equal. lia.
Qed.

Lemma data_gives e r ep c k rd x m rest :
  let s := Data c k rd x in
  let wr := Guid.entityId (writerGUID c) in
  wf e s → ready m (content e s ++ rest) → msg_endian m = e →
  gives (proc_Submsg_Data r (header_of e s) ep) m
    (if willAReaderAcceptMsgDirectedTo r ep rd
     then (true, wr, findAllReaders r rd (λ ep i, processDataMsg ep i (stamp r (received e (buffer m) (pos m) r c k x))) ep)
     else (false, EntityId.unknown, ep)).
Proof.
  intros s wr Hwf Hm He. destruct (data_size e c k rd x Hwf) as [Hsz Hmin]. pose proof Hwf as (Hrd & Hc & _ & H16).
  fold s in Hsz, Hmin, H16. pose proof Hc as [Hwr [Hsn Hpos] _ _ Hkf _].
  destruct (eflag_bits e (inlineQosFlag (parts c k x)) (dataFlag (parts c k x)) (keyFlag (parts c k x))
    DATA (size (content e s)) false) as (_ & H1 & _ & H3).
  unfold proc_Submsg_Data. change (submessageLength (header_of e s)) with (size (content e s)).
  rewrite (proj2 (Z.ltb_ge _ RTPSMESSAGE_DATA_MIN_LENGTH)) by exact Hmin.
  rewrite (H3 : bit (header_of e s) 3 = _), Hkf. simpl orb. cbv iota.
  cbn [content s] in Hm. unfold change_octets in Hm. rewrite <-!app_assoc in Hm.
  eapply data_start; [|exact Hm|done|]; [lia|]. intros m1 E1 Hm1 He1. cbv beta iota.
  eapply gives_reads; [exact (readEntityId_reads e _ rd Hrd)|exact Hm1|done|]. intros m2 E2 Hm2 He2. cbv beta iota.
  destruct (willAReaderAcceptMsgDirectedTo r ep rd); [|apply gives_ret]. simpl negb. cbv iota.
  eapply gives_reads; [exact (readEntityId_reads e _ wr Hwr)|exact Hm2|done|]. intros m3 E3 Hm3 He3. cbv beta iota.
  eapply gives_reads; [exact (readSequenceNumber_reads e _ _ Hsn)|exact Hm3|done|]. intros m4 E4 Hm4 He4. cbv beta iota.
  rewrite positive_number by done. simpl orb. cbv iota zeta. fold wr. fold (from_writer r c).
  assert (m4 = with_pos m (pos m + 20)) as E5.
  { rewrite E4, E3, E2, E1, length_sn, (proj1 Hrd), (proj1 Hwr : List.length wr = _). unfold with_pos, EntityId.size. simpl. f_equal. lia. }
  eapply gives_bind; [exact (reads_ret e true m4 _ Hm4 He4)|]. simpl negb. cbv iota.
  assert (with_pos m4 (pos m4 + size (@nil Z)) = m4) as -> by (simpl; rewrite Z.add_0_r; by destruct m4).
  eapply gives_bind.
  { eapply (read_inline_qos_spec e); [exact Hc|done|apply order_bit|apply (H1 _ (or_intror (or_intror eq_refl)))|
      exact Hm4|done|lia]. }
  simpl negb. cbv iota. pose proof (ready_advance _ _ _ Hm4) as Hm6.
  destruct (read_payload_spec e c k rd x _ _ (with_qos e (buffer m4) (pos m4) (from_writer r c) c k x) Hwf Hm6) as [q Eq].
  eapply gives_bind; [exact Eq|]. cbv iota. clear E4. subst m4. apply gives_ret.
Qed.

Lemma fragment_size e c n k rd x :
  wf e (DataFrag c n k rd x) →
  size (content e (DataFrag c n k rd x)) =
    32 + size (qos_octets e c k x) + size (padded (payload_octets (fragment_payload c n))) ∧
  4 <= size (padded (payload_octets (fragment_payload c n))).
Proof.
  intros (Hrd & Hc & _ & (Hl & d & Ed & Hle) & Hpos & _). pose proof Hc as [Hwr _ _ _ _ _]. cbn [content].
  rewrite !length_app, !length_enc, length_change_octets by done. split; [lia|].
  apply padded_pos. unfold payload_octets. rewrite Ed. change (default [] (Some d)) with d. rewrite length_take. lia.
Qed.

Lemma read_fragment_spec e c n k rd x m rest c1 :
  let s := DataFrag c n k rd x in
  let q := size (qos_octets e c k x) in
  let len := size (padded (payload_octets (fragment_payload c n))) in
  let fs := getFragmentSize c in
  let count := if 0 <? fs then u32 (len + fs - 1) / fs else 0 in
  wf e s → ready m (padded (payload_octets (fragment_payload c n)) ++ rest) →
  gives (read_fragment (header_of e s) 28 q fs c1) m
    (Some (with_fragments (with_payload (with_kind c1 ALIVE) (pointing (buffer m) (pos m) len (serializedPayload c1)))
       fs count count)).
Proof.
  intros s q len fs count Hwf Hm. destruct (fragment_size e c n k rd x Hwf) as [Hsz Hpos]. fold s q len in Hsz, Hpos.
  pose proof (ready_size _ _ Hm) as Hlen. rewrite length_app in Hlen. pose proof Hm as [_ Hp [_ H32]].
  destruct Hwf as (Hrd & Hc & _ & _ & _ & _ & _ & H16). fold s in H16. pose proof Hc as [_ _ _ _ Hkf _].
  destruct (eflag_bits e (inlineQosFlag (parts c k x)) (keyFlag (parts c k x)) true
    DATA_FRAG (size (content e s)) false) as (_ & _ & H2 & _).
  unfold read_fragment. rewrite (H2 _ (or_introl eq_refl) : bit (header_of e s) 2 = _), Hkf.
  change (submessageLength (header_of e s)) with (size (content e s)). unfold RTPSMESSAGE_DATA_EXTRA_INLINEQOS_SIZE.
  replace (size (content e s) - (4 + 28 + q)) with len by lia. rewrite (u32_small len) by (range_unfold; lia).
  exists (pos m + len). unfold mbind at 1, M_bind at 1, get. simpl.
  rewrite u32_small by (range_unfold; lia). rewrite (proj2 (Z.leb_le _ _)), (proj2 (Z.ltb_lt _ _)) by lia. simpl.
  unfold mbind at 1, M_bind at 1, lift, setFragmentSize. simpl. fold fs. subst count. by destruct (0 <? fs).
Qed.

Lemma data_frag_gives e r ep c n k rd x m rest :
  let s := DataFrag c n k rd x in
  wf e s → ready m (content e s ++ rest) → msg_endian m = e →
  gives (proc_Submsg_DataFrag r (header_of e s) ep) m
    (if willAReaderAcceptMsgDirectedTo r ep rd
     then (true, findAllReaders r rd (λ ep i, processDataFragMsg ep i
             (stamp r (received_fragment e (buffer m) (pos m) r c n k x)) (Payload.length (serializedPayload c)) n 1) ep)
     else (false, ep)).
Proof.
  intros s Hwf Hm He. destruct (fragment_size e c n k rd x Hwf) as [Hsz Hmin].
  pose proof Hwf as (Hrd & Hc & Hn & _ & _ & Hfs & Hss & H16).
  fold s in Hsz, H16. pose proof Hc as [Hwr [Hsn Hpos] _ _ _ _]. set (wr := Guid.entityId (writerGUID c)) in *.
  destruct (eflag_bits e (inlineQosFlag (parts c k x)) (keyFlag (parts c k x)) true
    DATA_FRAG (size (content e s)) false) as (_ & H1 & _ & _).
  unfold proc_Submsg_DataFrag. change (submessageLength (header_of e s)) with (size (content e s)).
  rewrite (proj2 (Z.ltb_ge _ RTPSMESSAGE_DATA_MIN_LENGTH)) by (unfold RTPSMESSAGE_DATA_MIN_LENGTH; lia).
  cbn [content s] in Hm. unfold change_octets in Hm. rewrite <-!app_assoc in Hm.
  rewrite (u32_small n), (u16_small (getFragmentSize c)), (u32_small (Payload.length _)) in Hm by (done || range_unfold; lia).
  eapply data_start; [|exact Hm|done|]; [lia|]. intros m1 E1 Hm1 He1. cbv beta iota.
  eapply gives_reads; [exact (readEntityId_reads e _ rd Hrd)|exact Hm1|done|]. intros m2 E2 Hm2 He2. cbv beta iota.
  destruct (willAReaderAcceptMsgDirectedTo r ep rd); [|apply gives_ret]. simpl negb. cbv iota.
  eapply gives_reads; [exact (readEntityId_reads e _ wr Hwr)|exact Hm2|done|]. intros m3 E3 Hm3 He3. cbv beta iota.
  eapply gives_reads; [exact (readSequenceNumber_reads e _ _ Hsn)|exact Hm3|done|]. intros m4 E4 Hm4 He4. cbv beta iota.
  rewrite positive_number by done. cbv iota.
  eapply gives_reads; [apply (readUInt32_reads e _ n); range_unfold; lia|exact Hm4|done|]. intros m5 E5 Hm5 He5. cbv beta iota.
  eapply gives_reads; [by apply (readUInt16_reads e _ 1)|exact Hm5|done|]. intros m6 E6 Hm6 He6. cbv beta iota.
  eapply gives_reads; [exact (readUInt16_reads e _ _ Hfs)|exact Hm6|done|]. intros m7 E7 Hm7 He7. cbv beta iota.
  eapply gives_reads; [exact (readUInt32_reads e _ _ Hss)|exact Hm7|done|]. intros m8 E8 Hm8 He8. simpl negb. cbv beta iota zeta.
  assert (m8 = with_pos m (pos m + 32)) as E9.
  { rewrite E8, E7, E6, E5, E4, E3, E2, E1, length_sn, !length_enc, (proj1 Hrd), (proj1 Hwr : List.length wr = _).
    unfold with_pos, EntityId.size. simpl. f_equal. lia. }
  eapply gives_bind; [exact (reads_ret e true m8 _ Hm8 He8)|]. simpl negb. cbv iota.
  assert (with_pos m8 (pos m8 + size (@nil Z)) = m8) as -> by (simpl; rewrite Z.add_0_r; by destruct m8).
  fold (from_writer r c). eapply gives_bind.
  { eapply (read_inline_qos_spec e); [exact Hc|done|apply order_bit|apply (H1 _ (or_intror (or_introl eq_refl)))|
      exact Hm8|done|lia]. }
  simpl negb. cbv iota. pose proof (ready_advance _ _ _ Hm8) as Hm9.
  destruct (read_fragment_spec e c n k rd x _ _ (with_qos e (buffer m8) (pos m8) (from_writer r c) c k x) Hwf Hm9) as [q Eq].
  eapply gives_bind; [exact Eq|]. cbv iota. clear E8. subst m8. apply gives_ret.
Qed.

(** The tests of the identifier of a submessage. *)
Ltac compare_ids :=
  repeat match goal with
  | |- context [?a =? ?b] => let v := eval vm_compute in (a =? b) in progress change (a =? b) with v
  end; cbv iota.

Lemma process_submessage_spec e s ig r ep m rest :
  wf e s → ready m (content e s ++ rest) → msg_endian m = e →
  gives (process_submessage r (header_of e s) ig ep) m (effect e (buffer m) (pos m) s ig r ep).
Proof.
  intros Hwf Hm He. unfold process_submessage. change (submessageId (header_of e s)) with (sub_id s).
  destruct s as [t|p|rd wr first last n fin live|rd wr set n fin|rd wr start set|rd wr sn set n|c k rd x|c n k rd x];
    cbn [sub_id effect]; cbv zeta; compare_ids.
  - eapply gives_bind; [by eapply info_ts_reads|]. destruct t; apply gives_ret.
  - eapply gives_bind; [by eapply info_dst_reads|]. apply gives_ret.
  - destruct (GuidPrefix.eqb _ _); [|apply gives_ret]. eapply gives_bind; [by eapply heartbeat_reads|]. apply gives_ret.
  - destruct (GuidPrefix.eqb _ _); [|apply gives_ret]. eapply gives_bind; [by eapply acknack_reads|].
    destruct (ask_writers _ _ _). apply gives_ret.
  - destruct (GuidPrefix.eqb _ _); [|apply gives_ret]. eapply gives_bind; [by eapply gap_reads|]. apply gives_ret.
  - destruct (GuidPrefix.eqb _ _); [|apply gives_ret]. eapply gives_bind; [by eapply nack_frag_reads|].
    destruct (ask_writers _ _ _). apply gives_ret.
  - destruct (GuidPrefix.eqb _ _); [|apply gives_ret]. destruct (data_gives e r ep c k rd x m rest Hwf Hm He) as [q Eq].
    eapply gives_bind; [exact Eq|]. destruct (willAReaderAcceptMsgDirectedTo _ _ _); apply gives_ret.
  - destruct (GuidPrefix.eqb _ _); [|apply gives_ret]. destruct (data_frag_gives e r ep c n k rd x m rest Hwf Hm He) as [q Eq].
    eapply gives_bind; [exact Eq|]. destruct (willAReaderAcceptMsgDirectedTo _ _ _); apply gives_ret.
Qed.

(** ** Whole messages *)

(** The submessages of a message one after the other, from [at_] on, until one ends
    it. *)
Fixpoint effects (e : Endianness_t) (buf : list Z) (at_ : Z) (subs : list Submessage) (ig : bool) (r : MessageReceiver)
    (ep : E) : MessageReceiver * E :=
  match subs with
  | [] => (r, ep)
  | s :: subs =>
      let '(valid, ig, r, ep) := if ig then (true, ig, r, ep) else effect e buf (at_ + 4) s ig r ep in
      if valid : bool then effects e buf (at_ + size (octets e s)) subs ig r ep else (r, ep)
  end.

Lemma ready_cursor m1 m2 l :
  buffer m1 = buffer m2 → length m1 = length m2 → pos m1 = pos m2 → ready m1 l → ready m2 l.
Proof. intros Hb Hl Hp [H1 H2 H3]. rewrite Hb, Hl, Hp in *. by constructor. Qed.

Lemma round_step e s ig r ep m rest :
  wf e s → ready m (content e s ++ rest) → msg_endian m = e →
  gives (if ig && negb (submessageId (header_of e s) =? INFO_SRC) then mret (true, ig, r, ep)
         else process_submessage r (header_of e s) ig ep) m
    (if ig then (true, ig, r, ep) else effect e (buffer m) (pos m) s ig r ep).
Proof.
  intros Hwf Hm He. assert ((submessageId (header_of e s) =? INFO_SRC) = false) as -> by (by destruct s).
  destruct ig; [apply gives_ret|]. by eapply process_submessage_spec.
Qed.

Lemma process_submessages_spec e subs fuel ig r ep m :
  Forall (wf e) subs → (List.length subs <= fuel)%nat → ready m (message_octets e subs) →
  ∃ m', process_submessages fuel ig r ep m = 
    Done ((true, (effects e (buffer m) (pos m) subs ig r ep).1, (effects e (buffer m) (pos m) subs ig r ep).2), m').
Proof.
  intros Hwf. revert fuel ig r ep m. induction Hwf as [|s subs Hs _ IH]; intros fuel ig r ep m Hfuel Hm.
  - pose proof (ready_size _ _ Hm) as Hsz. exists m. unfold message_octets in Hsz. simpl in Hsz.
    destruct fuel; simpl; unfold with_msg; by rewrite (proj2 (Z.ltb_ge _ _)) by lia.
  - destruct fuel as [|fuel]; [simpl in Hfuel; lia|].
    change (message_octets e (s :: subs)) with (octets e s ++ message_octets e subs) in Hm.
    pose proof (ready_size _ _ Hm) as Hsz. pose proof (size_octets e s) as Hlen. rewrite length_app in Hsz.
    destruct (content_size e s Hs) as [Hmod H16]. pose proof Hm as [_ Hp [_ H32]].
    destruct (readSubmessageHeader_spec e s m _ Hs Hm) as (m1 & E1 & Em1 & Hm1).
    assert (pos m1 = pos m + 4 ∧ buffer m1 = buffer m ∧ length m1 = length m ∧ msg_endian m1 = e) as (Hp1 & Hb1 & Hl1 & He1)
      by (by subst m1).
    destruct (round_step e s ig r ep m1 _ Hs Hm1 He1) as [q Eq]. rewrite Hp1, Hb1 in Eq.
    simpl. unfold with_msg. rewrite (proj2 (Z.ltb_lt _ _)) by lia. unfold mbind at 1, M_bind at 1. rewrite E1. simpl negb. cbv iota.
    simpl. unfold mbind at 1, M_bind at 1, get at 1. simpl. rewrite (align_same (size (content e s))) by (done || lia). rewrite Hp1, u32_small by (range_unfold; lia).
    unfold mbind at 1, M_bind at 1. simpl in Eq. rewrite Eq. simpl.
    destruct (if ig then _ else _) as [[[valid ig'] r'] ep']. destruct valid; [|by eexists]. simpl.
    unfold mbind at 1, M_bind at 1, set_pos, modify. simpl.
    destruct (IH fuel ig' r' ep' (with_pos (with_pos m1 q) (pos m + 4 + size (content e s)))) as [m' E'].
    { simpl in Hfuel. lia. } 
    { pose proof (ready_advance _ _ _ Hm) as Hadv. eapply ready_cursor; [..|exact Hadv]; cbn [pos buffer length with_pos]; [done..|lia]. }
    exists m'. rewrite E'. simpl. rewrite Hb1. replace (pos m + 4 + size (content e s)) with (pos m + size (octets e s)) by lia.
    done.
Qed.

Lemma octet_at_spec m pre x rest :
  ready m (pre ++ x :: rest) → octet_at (pos m + size pre) m = Done (x, m).
Proof.
  intros Hm. pose proof (ready_advance _ _ _ Hm) as Hm1. pose proof (ready_load _ [x] rest Hm1) as Hl.
  change (size [x]) with 1 in Hl. cbn [pos with_pos] in Hl.
  unfold octet_at, mbind, M_bind, get, lift. simpl. change (load (with_pos m _)) with (load m) in Hl. by rewrite Hl.
Qed.

Lemma checkRTPSHeader_spec r prefix v vendor m rest :
  GuidPrefix.wf prefix → List.length vendor = 2%nat → m_major v = m_major c_ProtocolVersion →
  ready m (rtps_header prefix v vendor ++ rest) → pos m = 0 →
  checkRTPSHeader r m =
    Done ((true, with_timestamp (with_source r v vendor prefix) false (timestamp_ r)), with_pos m 20).
Proof.
  intros [Hp _] Hv Hmaj Hm Hz. destruct vendor as [|v0 [|v1 [|]]]; try done. unfold rtps_header in Hm. simpl in Hm.
  destruct v as [major minor]. simpl in Hmaj. subst major. simpl in Hm.
  assert (∀ i x, (0x52 :: 0x54 :: 0x50 :: 0x53 :: 2 :: minor :: v0 :: v1 :: prefix ++ rest) !! i = Some x →
    octet_at (Z.of_nat i) m = Done (x, m)) as Hat.
  { intros i x Hi. rewrite <-(take_drop_middle _ _ _ Hi) in Hm. pose proof (octet_at_spec _ _ _ _ Hm) as Ho.
    apply lookup_lt_Some in Hi. rewrite length_take, Hz, Nat.min_l in Ho by lia. exact Ho. }
  unfold checkRTPSHeader. unfold mbind, M_bind.
  rewrite (Hat 0%nat _ eq_refl : octet_at 0 m = _). simpl. unfold mbind, M_bind.
  rewrite (Hat 1%nat _ eq_refl : octet_at 1 m = _). simpl. unfold mbind, M_bind.
  rewrite (Hat 2%nat _ eq_refl : octet_at 2 m = _). simpl. unfold mbind, M_bind.
  rewrite (Hat 3%nat _ eq_refl : octet_at 3 m = _). simpl.
  pose proof (ready_advance m [0x52; 0x54; 0x50; 0x53] _ Hm) as Hm4. pose proof (ready_advance _ [2] _ Hm4) as Hm5.
  pose proof (ready_advance _ [minor] _ Hm5) as Hm6. pose proof (ready_advance _ [v0] _ Hm6) as Hm7.
  pose proof (ready_advance _ [v1] _ Hm7) as Hm8. pose proof (octet_at_spec _ [] _ _ Hm4) as E4.
  pose proof (next_octet_spec _ _ _ Hm5) as E5. pose proof (next_octet_spec _ _ _ Hm6) as E6.
  pose proof (next_octet_spec _ _ _ Hm7) as E7.
  pose proof (data_reads _ (source_guid_prefix_ r) prefix 11 Hp _ _ Hm8 eq_refl) as E8.
  destruct m as [b p mx l en]. cbn [pos] in Hz. subst p. unfold with_pos in *. cbn [buffer pos max_size length msg_endian] in *.
  change (octet_at 4 (mkMsg b 4 mx l en) = Done (2, mkMsg b 4 mx l en)) in E4.
  change (next_octet (mkMsg b 5 mx l en) = Done (minor, mkMsg b 6 mx l en)) in E5.
  change (next_octet (mkMsg b 6 mx l en) = Done (v0, mkMsg b 7 mx l en)) in E6.
  change (next_octet (mkMsg b 7 mx l en) = Done (v1, mkMsg b 8 mx l en)) in E7. rewrite Hp in E8.
  change (readData (source_guid_prefix_ r) 12 (mkMsg b 8 mx l en) = Done (true, prefix, mkMsg b 20 mx l en)) in E8.
  change (u32 (0 + 4)) with 4. rewrite E4. simpl. change (u32 (4 + 1)) with 5.
  rewrite E5. simpl. unfold mbind, M_bind. rewrite E6. simpl. rewrite E7. simpl. change (Z.of_nat GuidPrefix.size) with 12. by rewrite E8.
Qed.

(** The receiver once it has read the header of a message. *)
Definition from_header (r : MessageReceiver) (ep : E) (prefix : GuidPrefix.GuidPrefix_t) (v : ProtocolVersion_t)
    (vendor : list Z) : MessageReceiver :=
  with_timestamp (with_source (with_dest (reset r) (own_prefix ep)) v vendor prefix) false c_TimeInvalid.

Lemma message_many e subs : (4 * List.length subs <= List.length (message_octets e subs))%nat.
Proof.
  induction subs as [|s subs IH]; [simpl; lia|]. pose proof (size_octets e s).
  change (message_octets e (s :: subs)) with (octets e s ++ message_octets e subs). rewrite length_app. cbn [List.length]. lia.
Qed.

Lemma processCDRMsg_spec e r ep prefix v vendor subs m :
  GuidPrefix.wf prefix → List.length vendor = 2%nat → m_major v = m_major c_ProtocolVersion → Forall (wf e) subs →
  ready (with_pos m 0) (rtps_header prefix v vendor ++ message_octets e subs) →
  let after := effects e (buffer m) 20 subs (is_participant_ignored ep prefix) (from_header r ep prefix v vendor) ep in
  ∃ m', processCDRMsg r ep m =
    Done ((after.1, assert_remote_participant_liveliness after.2 (source_guid_prefix_ after.1)), m').
Proof.
  intros Hp Hv Hmaj Hwf Hm after.
  assert (size (rtps_header prefix v vendor) = 20) as Hlen by (unfold rtps_header; rewrite length_app, (proj1 Hp); done).
  pose proof (ready_size _ _ Hm) as Hsz. rewrite length_app, Nat2Z.inj_add, Hlen in Hsz. cbn [pos with_pos length] in Hsz.
  pose proof (message_many e subs) as Hmany.
  pose proof (checkRTPSHeader_spec (with_dest (reset r) (own_prefix ep)) prefix v vendor _ _ Hp Hv Hmaj Hm eq_refl) as Ec.
  pose proof (ready_advance _ _ _ Hm) as Hm1. rewrite Hlen in Hm1. cbn [pos with_pos] in Hm1.
  destruct (process_submessages_spec e subs (Z.to_nat (length m)) (is_participant_ignored ep prefix)
    (from_header r ep prefix v vendor) ep (with_pos m 20) Hwf) as [m' E']; [lia| |].
  { eapply ready_cursor; [..|exact Hm1]; done. }
  exists m'. unfold processCDRMsg. unfold mbind at 1, M_bind at 1, get at 1. simpl.
  rewrite (proj2 (Z.ltb_ge _ _)) by (unfold RTPSMESSAGE_HEADER_SIZE; lia).
  unfold mbind at 1, M_bind at 1, set_pos, modify. simpl. unfold mbind at 1, M_bind at 1. rewrite Ec. simpl.
  unfold mbind at 1, M_bind at 1. 
  match goal with |- context [process_submessages ?f ?i ?r0 ?e0 ?m0] => change (process_submessages f i r0 e0 m0)
    with (process_submessages (Z.to_nat (length m)) (is_participant_ignored ep prefix) (from_header r ep prefix v vendor) ep
            (with_pos m 20)) end. rewrite E'. done.
Qed.

(** The payload the readers get is that of the sample, filled up. *)
Lemma received_octets e buf r c k x rd pre rest :
  wf e (Data c k rd x) → dataFlag (parts c k x) = true → 
  take (List.length (pre ++ content e (Data c k rd x) ++ rest)) buf = pre ++ content e (Data c k rd x) ++ rest →
  payload_octets (serializedPayload (received e buf (size pre) r c k x)) = padded (payload_octets (serializedPayload c)).
Proof.
  intros (Hrd & Hc & _) Hd Hbuf. pose proof Hc as [Hwr _ _ _ _ _]. unfold received. rewrite Hd.
  cbn [content] in Hbuf. rewrite Hd in Hbuf. unfold payload_octets at 1. simpl.
  set (pay := padded (payload_octets (serializedPayload c))) in *. set (q := qos_octets e c k x) in *.
  replace (Z.to_nat (size pre + 20 + size q)) with (List.length pre + (20 + List.length q))%nat by lia. rewrite Nat2Z.id.
  set (f := enc e 2 0 ++ enc e 2 16 ++ change_octets e c rd).
  assert (List.length f = 20%nat) as Hf by (unfold f; rewrite !length_app, !length_enc, length_change_octets by done; done).
  rewrite <-Hf. assert (take (List.length ((pre ++ f ++ q) ++ pay ++ rest)) buf = (pre ++ f ++ q) ++ pay ++ rest) as Hb.
  { unfold f. rewrite <-!app_assoc in *. exact Hbuf. }
  rewrite <-!length_app. rewrite <-(take_drop (List.length ((pre ++ f ++ q) ++ pay ++ rest)) buf), Hb, <-(app_assoc (pre ++ f ++ q)).
  by rewrite drop_app_length, <-app_assoc, take_app_length.
Qed.

End receiver.
(** The octets of [m1], received into [m2]. *)
Definition arrives (m1 m2 : CDRMessage_t) : Prop :=
  length m2 = length m1 ∧ take (Z.to_nat (length m1)) (buffer m2) = take (Z.to_nat (length m1)) (buffer m1).

Lemma arrives_ready m1 m2 l : appending m1 l → arrives m1 m2 → size l < 2 ^ 32 - 2 ^ 18 → ready (with_pos m2 0) l.
Proof.
  intros [Hb _ Hl _] [Hlen Htake] Hsz. rewrite Hl, Nat2Z.id, Hb in Htake. constructor; simpl.
  - rewrite drop_0, Z.sub_0_r, Hlen, Hl, Nat2Z.id. exact Htake.
  - lia.
  - apply (f_equal List.length) in Htake. rewrite length_take in Htake. lia.
Qed.

(** C4: a message written by the creator on one target is understood by the
    receiver on another, whatever the byte orders of the two: the receiver ends,
    every submessage has its effect, in order, until one ends the message, and the
    payload that a reader gets for a data submessage is the octets of the sample,
    filled up with zeros to a multiple of four. *)
Theorem message_roundtrip (t1 t2 : Target) {E} `{Endpoints E} prefix v vendor subs m r ep :
  let e := @DEFAULT_ENDIAN t1 in
  GuidPrefix.wf prefix → m_major v = m_major c_ProtocolVersion → is_u8 (m_minor v) →
  List.length vendor = 2%nat → Forall is_u8 vendor → Forall (wf e) subs →
  appending m [] → 20 + size (message_octets e subs) < max_size m → max_size m < 2 ^ 32 - 2 ^ 18 →
  ∃ m1, @write_message t1 prefix v vendor subs m = Done (true, m1) ∧
    ∀ m2, arrives m1 m2 →
      let after := @effects t2 E _ e (buffer m2) 20 subs (is_participant_ignored ep prefix)
                     (from_header r ep prefix v vendor) ep in
      (∃ m3, @processCDRMsg t2 E _ r ep m2 =
         Done ((after.1, assert_remote_participant_liveliness after.2 (source_guid_prefix_ after.1)), m3)) ∧
      ∀ l1 c k rd x l2 r', subs = l1 ++ Data c k rd x :: l2 → dataFlag (parts c k x) = true →
        payload_octets (serializedPayload
          (@received t2 e (buffer m2) (20 + size (message_octets e l1) + 4) r' c k x)) =
        padded (payload_octets (serializedPayload c)).
Proof.
  intros e Hp Hmaj Hmin Hv Hvu Hwf Hm Hroom Hmax.
  destruct (@write_message_octets t1 prefix v vendor subs m) as (m1 & E1 & Hm1); try done.
  { rewrite Hmaj. by vm_compute. }
  assert (size (rtps_header prefix v vendor) = 20) as Hlen by (unfold rtps_header; rewrite length_app, (proj1 Hp); done).
  exists m1. split; [exact E1|]. intros m2 Harr after. pose proof Harr as [Hl2 Htake]. split.
  - apply processCDRMsg_spec; try done. eapply arrives_ready; [exact Hm1|exact Harr|].
    rewrite length_app, Nat2Z.inj_add, Hlen. fold e. lia.
  - intros l1 c k rd x l2 r' -> Hd. destruct Hm1 as [Hb _ Hl _].
    rewrite Hl, Nat2Z.id, Hb in Htake. fold e in Htake.
    assert (wf e (Data c k rd x)) as Hs by (apply Forall_app in Hwf as [_ Hwf]; by inversion Hwf).
    set (hd := header e (sub_id (Data c k rd x)) (sub_flags e (Data c k rd x)) (size (content e (Data c k rd x)))).
    assert (message_octets e (l1 ++ Data c k rd x :: l2) = message_octets e l1 ++ hd ++ content e (Data c k rd x) ++ (l2 ≫= octets e))
      as Es by (unfold message_octets; rewrite bind_app; f_equal; apply (eq_sym (app_assoc _ _ _))).
    rewrite Es in Htake. rewrite <-(received_octets e (buffer m2) r' c k x rd (rtps_header prefix v vendor ++ message_octets e l1 ++ hd)
      (l2 ≫= octets e) Hs Hd).
    + do 3 f_equal. rewrite !length_app, !Nat2Z.inj_add, Hlen. unfold hd. rewrite length_header. lia.
    + rewrite <-!app_assoc in *. exact Htake.
Qed.

(** ** Endpoints that keep a log *)

Inductive event :=
  | Data_event (reader : nat) (sn : Z) (k : ChangeKind_t) (key : option (list Z)) (bs : list Z)
  | Fragment_event (reader : nat) (sn first count sample : Z) (bs : list Z)
  | Heartbeat_event (reader : nat) (first last count : Z)
  | Gap_event (reader : nat) (start : Z)
  | Acknack_event (writer : nat) (count : Z)
  | Nack_frag_event (writer : nat) (sn : Z)
  | Alive_event (prefix : list Z).

Definition logging : Endpoints (list event) := {|
  own_prefix _ := replicate 12 7;
  is_participant_ignored _ _ := false;
  assert_remote_participant_liveliness l p := l ++ [Alive_event p];
  accepts_unknown _ _ := true;
  processDataMsg l i c := l ++ [Data_event i (SN.val (sequenceNumber c)) (kind c) (instanceHandle c)
                                  (payload_octets (serializedPayload c))];
  processDataFragMsg l i c sample first count :=
    l ++ [Fragment_event i (SN.val (sequenceNumber c)) first count sample (payload_octets (serializedPayload c))];
  processHeartbeatMsg l i _ n first last _ _ _ := l ++ [Heartbeat_event i (SN.val first) (SN.val last) n];
  processGapMsg l i _ start _ _ := l ++ [Gap_event i (SN.val start)];
  process_acknack l i _ _ n _ _ _ := (Some true, l ++ [Acknack_event i n]);
  process_nack_frag l i _ _ _ sn _ _ := (Some true, l ++ [Nack_frag_event i (SN.val sn)])
|}.

Definition big : Target := BIGEND.
Definition little : Target := LITTLEEND.

Definition sample_writer : EntityId.EntityId_t := [0; 0; 1; 2].
Definition sample_reader : EntityId.EntityId_t := [0; 0; 2; 7].

(** A change of a keyed topic with five octets. *)
Definition sample_change : CacheChange_t :=
  mkChange ALIVE (Guid.mkGUID (replicate 12 3) sample_writer) (Some (replicate 16 9)) (SN.mkSN 0 4)
    (Payload.mkPayload 1 5 (Some [10; 20; 30; 40; 50]) 5 0) Payload.default_payload false (mkTime 0 0) (mkTime 0 0)
    c_VendorId_Unknown (mkParams unknown_identity unknown_identity (mkTime 0 0)) true 0 0 0.

Definition sample_message : list Submessage :=
  [InfoTS (Some (mkTime 5 6)); InfoDST (replicate 12 7); Data sample_change true sample_reader false;
   Heartbeat sample_reader sample_writer (SN.mkSN 0 1) (SN.mkSN 0 4) 3 false false].

Definition sample_buffer : CDRMessage_t := mkMsg (replicate 256 0) 0 256 0 LITTLEEND.

Definition sample_receiver : MessageReceiver := associate_reader make_receiver sample_reader 1.

Lemma sample_wf : Forall (wf LITTLEEND) sample_message.
Proof.
  assert (EntityId.wf sample_writer ∧ EntityId.wf sample_reader) as [Hw Hr] by (by repeat split; repeat constructor).
  assert (Guid.wf Guid.c_Guid_Unknown) by (by repeat split; repeat constructor).
  unfold sample_message. constructor; [|constructor; [|constructor; [|constructor; [|constructor]]]].
  - by repeat split.
  - by split; [|repeat constructor].
  - split_and!; [done|constructor; try done; by repeat split|intros _; split; [done|by eexists]|done].
  - do 2 (split; [done|]). vm_compute. repeat split; congruence.
Qed.

Lemma message_roundtrip_witness :
  ∃ m1, @write_message little (replicate 12 3) c_ProtocolVersion c_VendorId_eProsima sample_message sample_buffer =
          Done (true, m1) ∧
    (∀ m2, arrives m1 m2 → ∃ m3 r l, @processCDRMsg big _ logging sample_receiver [] m2 = Done ((r, l), m3)) ∧
    (m3 ← @processCDRMsg big _ logging sample_receiver [] (with_endian m1 BIGEND); Done m3.1.2) =
      Done [Data_event 1 4 ALIVE (Some (replicate 16 9)) [10; 20; 30; 40; 50; 0; 0; 0]; Heartbeat_event 1 1 4 3;
            Alive_event (replicate 12 3)].
Proof.
  destruct (@message_roundtrip little big _ logging (replicate 12 3) c_ProtocolVersion c_VendorId_eProsima sample_message
    sample_buffer sample_receiver []) as (m1 & E1 & Hrecv).
  - split; [done|by repeat constructor].
  - done.
  - done.
  - done.
  - by repeat constructor.
  - exact sample_wf.
  - by constructor.
  - vm_compute. reflexivity.
  - done.
  - exists m1. split; [exact E1|split].
    + intros m2 Hm2. destruct (Hrecv m2 Hm2) as [[m3 E3] _]. rewrite E3. eauto.
    + vm_compute in E1. injection E1 as <-. vm_compute. reflexivity.
Defined.

End Receive.
