(* ===== verification/ReceiverSafety.v ===== *)
(** * The receiver on any octets

    Whatever is in a message, the receiver ends and its reads stay inside the
    buffer, provided that sixteen octets are allocated behind the message: the key
    of a data submessage is copied without a check.  The proof is in a small logic
    of total correctness for the programs on messages. *)

From S2P Require Import Prelude.
From S2P Require Import SeqNum.
From S2P Require Import Bitmap.
From S2P Require Import Guid.
From S2P Require Import CacheChange.
From S2P Require Import CDRMessage.
From S2P Require Import CDRFacts.
From S2P Require Import Messages.
From S2P Require Import MessageReceiver.
From S2P Require Import MessageFacts.
From S2P Require Import ReceiverFacts.

Module Robust.
Import CDR CDRFacts CacheChange RTPS ParameterList MessageReceiver Receive.

Create HintDb robust.

(** ** Total correctness *)

(** The octets of a message do not change. *)
Definition kept (m m' : CDRMessage_t) : Prop := buffer m' = buffer m ∧ length m' = length m.

(** From a message with [P], [p] ends with a result and a message with [Q]. *)
Definition holds {A} (P : CDRMessage_t → Prop) (p : M A) (Q : A → CDRMessage_t → Prop) : Prop :=
  ∀ m, P m → ∃ a m', p m = Done (a, m') ∧ kept m m' ∧ Q a m'.

Lemma kept_trans m1 m2 m3 : kept m1 m2 → kept m2 m3 → kept m1 m3.
Proof. intros [H1 H2] [H3 H4]. split; congruence. Qed.

Lemma holds_ret {A} P (a : A) Q : (∀ m, P m → Q a m) → holds P (mret a) Q.
Proof. intros H m Hm. exists a, m. by split_and!; [|split|apply H]. Qed.

Lemma holds_bind {A B} P (p : M A) R (k : A → M B) Q :
  holds P p R → (∀ a, holds (R a) (k a) Q) → holds P (p ≫= k) Q.
Proof.
  intros Hp Hk m Hm. destruct (Hp m Hm) as (a & m1 & E1 & K1 & H1).
  destruct (Hk a m1 H1) as (b & m2 & E2 & K2 & H2). exists b, m2. unfold mbind, M_bind. rewrite E1. simpl.
  split; [exact E2|split; [by eapply kept_trans|exact H2]].
Qed.

Lemma holds_weaken {A} (P P' : CDRMessage_t → Prop) (p : M A) (Q Q' : A → CDRMessage_t → Prop) :
  holds P' p Q' → (∀ m, P m → P' m) → (∀ a m, Q' a m → Q a m) → holds P p Q.
Proof.
  intros Hp HP HQ m Hm. destruct (Hp m (HP m Hm)) as (a & m' & ? & ? & ?). exists a, m'. auto.
Qed.

(** A property of the message as it is before. *)
Lemma holds_get {A} P (k : CDRMessage_t → M A) Q :
  (∀ m0, P m0 → holds (λ m, m = m0) (k m0) Q) → holds P (get ≫= k) Q.
Proof. intros Hk m Hm. destruct (Hk m Hm m eq_refl) as (a & m' & ? & ? & ?). by exists a, m'. Qed.

Lemma holds_at {A} P (p : M A) Q : (∀ m0, P m0 → holds (λ m, m = m0) p Q) → holds P p Q.
Proof. intros Hp m Hm. by apply (Hp m Hm). Qed.

Lemma holds_is {A} (P : CDRMessage_t → Prop) (p : M A) Q m0 :
  P m0 → holds P p Q → holds (λ m, m = m0) p (λ a m, kept m0 m ∧ Q a m).
Proof. intros Hm0 Hp m ->. destruct (Hp m0 Hm0) as (a & m' & ? & ? & ?). by exists a, m'. Qed.

(** ** Positions *)

(** A message of octets whose position is at most [d] behind its end, with sixteen
    octets to spare. *)
Definition inside (d : Z) (m : CDRMessage_t) : Prop :=
  0 <= pos m <= length m + d ∧ length m + 16 <= size (buffer m) ∧ length m < 2 ^ 32 - 2 ^ 18 ∧ Forall is_u8 (buffer m).

Lemma inside_le d d' m : inside d m → d <= d' → inside d' m.
Proof. unfold inside. intuition lia. Qed.

Lemma inside_pos d m q : inside d m → 0 <= q <= length m + d → inside d (with_pos m q).
Proof. unfold inside. simpl. intuition lia. Qed.

Lemma inside_kept d d' m m' : inside d m → kept m m' → 0 <= pos m' <= length m + d' → inside d' m'.
Proof. unfold inside, kept. intros (? & ? & ? & ?) [Hb Hl] Hp. rewrite Hb, Hl. auto. Qed.

Lemma safe_holds {A} (p : M A) d : 0 <= d <= 2 ^ 17 → safe p → holds (inside d) p (λ _, inside d).
Proof.
  intros Hd Hp m Hm. pose proof Hm as (H1 & H2 & H3 & H4). destruct (Hp m) as (a & q & E & Hq); [unfold sane; lia|].
  exists a, (with_pos m q). split; [done|]. split; [done|]. apply inside_pos; [done|lia].
Qed.

Lemma set_endian_holds e d : holds (inside d) (set_endian e) (λ _, inside d).
Proof. intros m Hm. by exists tt, (with_endian m e). Qed.

Lemma skip_holds n d : 0 <= n → 0 <= d + n <= 2 ^ 17 → holds (inside d) (skip n) (λ _, inside (d + n)).
Proof.
  intros Hn Hd m Hm. pose proof Hm as (H1 & H2 & H3 & _). exists tt, (with_pos m (u32 (pos m + n))).
  split; [done|]. split; [done|]. rewrite u32_small by (range_unfold; lia). eapply inside_kept; [exact Hm|done|simpl; lia].
Qed.

Section target.
Context `{Target}.

(** An integer that is read: where the position is after it, and its range. *)
Lemma read_integer_holds {A} n (value : Z → A) old d m0 (Q : bool * A → CDRMessage_t → Prop) :
  0 < n <= 8 → inside d m0 → 0 <= d <= 2 ^ 16 →
  (∀ m, inside d m → pos m = pos m0 → kept m0 m → length m < pos m + n → Q (false, old) m) →
  (∀ m x, inside d m → pos m = pos m0 + n → pos m <= length m → kept m0 m → 0 <= x < 256 ^ n → Q (true, value x) m) →
  holds (λ m, m = m0) (read_integer n value old) Q.
Proof.
  intros Hn Hm Hd HF HT m ->. pose proof Hm as (H1 & H2 & H3 & H4). unfold read_integer, read_native, too_short.
  unfold mbind at 1, M_bind at 1, get at 1. simpl. rewrite u32_small by (range_unfold; lia).
  destruct (Z.ltb_spec (length m0) (pos m0 + n)).
  - exists (false, old), m0. split; [done|]. split; [done|]. by apply HF.
  - unfold mbind, M_bind, get, lift, skip, modify, load. simpl. rewrite !(proj2 (Z.leb_le _ _)) by lia. simpl.
    rewrite u32_small by (range_unfold; lia). eexists _, _. split; [reflexivity|]. split; [done|].
    rewrite native_dec. apply HT; [apply inside_pos; [done|lia]|done|simpl; lia|done|].
    set (bs := take _ _). assert (size bs = n) as Hbs by (subst bs; rewrite length_take, length_drop; lia).
    rewrite <-Hbs. apply dec_range. by apply Forall_take, Forall_drop.
Qed.

Lemma readUInt16_holds old d m0 (Q : bool * Z → CDRMessage_t → Prop) :
  inside d m0 → 0 <= d <= 2 ^ 16 →
  (∀ m, inside d m → pos m = pos m0 → kept m0 m → length m < pos m + 2 → Q (false, old) m) →
  (∀ m x, inside d m → pos m = pos m0 + 2 → pos m <= length m → kept m0 m → is_u16 x → Q (true, x) m) →
  holds (λ m, m = m0) (readUInt16 old) Q.
Proof.
  intros Hm Hd HF HT. apply (read_integer_holds 2 id old d); [lia|done..|].
  intros m x ? ? ? ? Hx. apply HT; [done..|]. unfold id. range_unfold. change (256 ^ 2) with 65536 in Hx. lia.
Qed.

(** The range of a signed length. *)
Lemma readInt16_holds old d :
  0 <= d <= 2 ^ 16 → - 2 ^ 15 <= old < 2 ^ 15 →
  holds (inside d) (readInt16 old) (λ r m, inside d m ∧ - 2 ^ 15 <= r.2 < 2 ^ 15).
Proof.
  intros Hd Hold. apply holds_at. intros m0 Hm0. eapply (read_integer_holds 2 s16 old d); [lia|done..|].
  intros m x ? _ _ _ _. split; [done|]. simpl. unfold s16. pose proof (Z.mod_pos_bound (x + 2 ^ 15) (2 ^ 16) ltac:(lia)). lia.
Qed.

(** What was read is inside the message. *)
Lemma read_integer_in {A} n (value : Z → A) old d :
  0 < n <= 8 → 0 <= d <= 2 ^ 16 →
  holds (inside d) (read_integer n value old) (λ r m, inside d m ∧ (r.1 = true → inside 0 m)).
Proof.
  intros Hn Hd. apply holds_at. intros m0 Hm0. apply (read_integer_holds n value _ d); [done|done|done|by intros|].
  intros m x Hm _ Hle _ _. split; [done|]. intros _. destruct Hm as (? & ? & ? & ?). unfold inside. intuition lia.
Qed.

Lemma readSequenceNumber_holds old d :
  0 <= d <= 2 ^ 16 →
  holds (inside d) (readSequenceNumber old) (λ r m, inside d m ∧ (r.1 = true → inside 0 m)).
Proof.
  intros Hd. apply holds_get. intros m0 Hm0. destruct (too_short m0 8); [apply holds_ret; by intros m ->|].
  eapply holds_bind; [apply (holds_is (inside d) _ (λ _, inside d)); [done|apply safe_holds; [lia|by apply (read_integer_safe 4 s32)]]|].
  intros [v1 hi]. eapply holds_bind; [eapply holds_weaken; [apply (read_integer_in 4 id _ d); lia|by intros m [_ ?]|]|].
  { intros a m Ha. exact Ha. }
  intros [v2 lo]. apply holds_ret. intros m [Hm Hv]. split; [done|]. simpl in *. intros Hb. apply Hv.
  by apply andb_true_iff in Hb as [_ ?].
Qed.

(** ** Parameters *)

Lemma align_eq n : 0 <= n < 2 ^ 32 - 3 → Z.land (u32 (n + 3)) (UINT32_MAX - 3) = (n + 3) / 4 * 4.
Proof.
  intros Hn. rewrite u32_small by (range_unfold; lia).
  change (UINT32_MAX - 3) with (Z.ldiff (Z.ones 32) (Z.ones 2)).
  assert (Z.land (n + 3) (Z.ldiff (Z.ones 32) (Z.ones 2)) = Z.ldiff (Z.land (n + 3) (Z.ones 32)) (Z.ones 2)) as ->
    by (apply Z.bits_inj'; intros i Hi; rewrite !Z.ldiff_spec, !Z.land_spec, Z.ldiff_spec; apply andb_assoc).
  rewrite Z.ldiff_ones_r by lia. rewrite Z.land_ones by lia. rewrite Z.mod_small by lia.
  rewrite Z.shiftl_mul_pow2, Z.shiftr_div_pow2 by lia. done.
Qed.

(** Programs made of checked reads. *)
Ltac safe_solve :=
  repeat lazymatch goal with
  | |- safe (mret _) => apply safe_ret
  | |- safe (readOctet _) => apply readOctet_safe
  | |- safe (readData _ _) => apply readData_safe; first [lia|split; vm_compute; congruence]
  | |- safe (readEntityId _) => apply readEntityId_safe
  | |- safe (readSequenceNumber _) => apply readSequenceNumber_safe
  | |- safe readSequenceNumberSet => apply readSequenceNumberSet_safe
  | |- safe (readFragmentNumberSet _) => apply readFragmentNumberSet_safe
  | |- safe (readTimestamp _) => apply readTimestamp_safe
  | |- safe (readInt32 ?x) => apply (read_integer_safe 4 s32 x); lia
  | |- safe (readUInt32 ?x) => apply (read_integer_safe 4 id x); lia
  | |- safe (readUInt16 ?x) => apply (read_integer_safe 2 id x); lia
  | |- safe (_ ≫= _) => apply safe_bind; [|intros]
  | |- safe (match ?x with _ => _ end) => destruct x
  end.

Lemma parameter_process_safe c pid plength : safe (parameter_process c pid plength).
Proof. unfold parameter_process, read_key, read_sample_identity, read_status_info. safe_solve. Qed.

(** The loop over the parameters ends, and a list that was read is inside the
    message. *)
Lemma read_parameters_holds fuel o qs c m0 :
  inside (2 ^ 16) m0 → 0 <= o → 0 <= qs → o + qs <= length m0 + 3 → length m0 + 4 - (o + qs) <= 4 * Z.of_nat fuel →
  holds (λ m, m = m0) (read_parameters fuel o qs c) (λ r m, r.1.1 = true → inside 0 m).
Proof.
  revert qs c m0. induction fuel as [|fuel IH]; intros qs c m0 Hm0 Ho Hqs Hle Hfuel; [lia|].
  pose proof Hm0 as (_ & Hbuf & H32 & Hall). cbn [read_parameters].
  eapply (holds_bind _ _ (λ _ m, m = with_pos m0 (o + qs))).
  { intros m ->. eexists tt, _. split; [unfold set_pos, modify; rewrite u32_small by (range_unfold; lia); reflexivity|]. done. }
  intros _. assert (inside 3 (with_pos m0 (o + qs))) as Hm1 by (unfold inside; simpl; intuition lia).
  eapply holds_bind.
  { apply (readUInt16_holds _ 3 _ (λ r m, inside 3 m ∧ kept m0 m ∧ is_u16 r.2 ∧ (r.1 = true → pos m = o + qs + 2))); [exact Hm1|lia|..].
    - intros m Hm _ Hk _. simpl. split_and!; [done..|range_unfold; vm_compute; intuition congruence|done].
    - intros m x Hm Hp _ Hk Hx. by split_and!. }
  intros [v1 pid]. eapply holds_bind.
  { apply holds_at. intros m1 (Hm & Hk & Hpid & Hv1). apply (readUInt16_holds _ 3 _ (λ r m, inside 3 m ∧ kept m0 m ∧ is_u16 r.2 ∧
      (v1 && r.1 = true → pos m = o + qs + 4 ∧ pos m <= length m))); [exact Hm|lia|..].
    - intros m Hm' _ Hk' _. split_and!; [done|by eapply kept_trans|range_unfold; simpl; lia|]. simpl. by rewrite andb_false_r.
    - intros m x Hm' Hp' Hle' Hk' Hx. split_and!; [done|by eapply kept_trans|done|]. simpl. rewrite andb_true_r. intros Hv.
      specialize (Hv1 Hv). split; [lia|done]. }
  intros [v2 plength]. cbv zeta. apply holds_get. intros m2 (Hm2 & [Hb2 Hl2] & Hpl & Hv2). simpl in Hpl, Hv2.
  destruct (v1 && v2); [|apply holds_ret; done]. destruct (Hv2 eq_refl) as [Hp2 Hin2]. simpl negb. simpl orb.
  set (pl := if pid =? PID_SENTINEL then 0 else plength).
  assert (0 <= pl < 2 ^ 16) as Hpl' by (subst pl; range_unfold; destruct (_ =? _); lia).
  rewrite (u32_small (pos m2 + pl)) by (range_unfold; lia). destruct (Z.ltb_spec (length m2) (pos m2 + pl)); [by apply holds_ret|].
  destruct (pid =? PID_SENTINEL).
  { apply holds_ret. intros m ->. intros _. destruct Hm2 as (? & ? & ? & ?). unfold inside. intuition lia. }
  rewrite (u32_small (qs + _)), align_eq by (range_unfold; lia).
  eapply holds_bind; [apply (holds_is (inside 3) _ (λ _, inside 3)); [done|by apply safe_holds, parameter_process_safe]|].
  intros [ok c']. destruct ok; [|by apply holds_ret]. apply holds_at. intros m3 [[Hb3 Hl3] Hm3].
  apply IH; [by eapply inside_le|lia|..]; rewrite ?Hl3; Z.to_euclidean_division_equations; lia.
Qed.

Lemma read_inline_qos_holds smh c :
  holds (inside 0) (read_inline_qos smh c) (λ r m, r.1.1 = true → inside 0 m).
Proof.
  unfold read_inline_qos. destruct (bit smh 1); [|by apply holds_ret].
  eapply (holds_bind _ _ (λ r m, r.1.1 = true → inside 0 m)).
  - apply holds_get. intros m0 Hm0. pose proof Hm0 as (Hp & _). apply read_parameters_holds; [by eapply inside_le|lia..].
  - intros [[ok c'] n]. apply holds_get. intros m0 Hm0. apply holds_ret. intros m ->. exact Hm0.
Qed.

(** ** Submessages *)

Definition any {A} (_ : A) (_ : CDRMessage_t) : Prop := True.

Lemma any_ret {A} P (a : A) : holds P (mret a) any.
Proof. by apply holds_ret. Qed.

Lemma any_bind {A B} P (p : M A) (k : A → M B) : holds P p any → (∀ a, holds (λ _, True) (k a) any) → holds P (p ≫= k) any.
Proof. apply holds_bind. Qed.

Lemma safe_then {A B} d (p : M A) (k : A → M B) Q :
  0 <= d <= 2 ^ 17 → safe p → (∀ a, holds (inside d) (k a) Q) → holds (inside d) (p ≫= k) Q.
Proof. intros Hd Hp. by apply holds_bind, safe_holds. Qed.

Lemma skip_any n P : holds P (skip n) any.
Proof. intros m _. by exists tt, (with_pos m (u32 (pos m + n))). Qed.

Lemma set_pos_any n P : holds P (set_pos n) any.
Proof. intros m _. by exists tt, (with_pos m n). Qed.

(** The key is the only part that is copied without a check. *)
Lemma read_payload_holds smh o n c : holds (inside 0) (read_payload smh o n c) any.
Proof.
  unfold read_payload. destruct (bit smh 2 || bit smh 3); [|apply any_ret].
  pose proof (u32_range (RTPSMESSAGE_DATA_EXTRA_INLINEQOS_SIZE + o + n)) as Hu. set (np := u32 _) in *.
  destruct (Z.ltb_spec (submessageLength smh) np); [apply any_ret|]. apply holds_get. intros m0 Hm0. destruct (bit smh 2).
  - destruct (_ && _); [|apply any_ret]. apply any_bind; [apply set_pos_any|intros; apply any_ret].
  - destruct (Z.leb_spec (submessageLength smh - np) 0); [apply any_ret|].
    apply any_bind; [|intros; apply any_bind; [apply skip_any|intros; apply any_ret]].
    destruct (Z.leb_spec (submessageLength smh - np) PARAMETER_KEY_HASH_LENGTH) as [Hle|]; [|apply any_ret].
    intros m ->. unfold PARAMETER_KEY_HASH_LENGTH in Hle. destruct Hm0 as (Hp & Hb & _).
    unfold mbind, M_bind, lift, load. rewrite !(proj2 (Z.leb_le _ _)) by lia. simpl. eexists _, m0. done.
Qed.

Lemma read_fragment_holds smh o n fs c : holds (inside 0) (read_fragment smh o n fs c) any.
Proof.
  unfold read_fragment. destruct (bit smh 2); [apply any_ret|]. apply holds_get. intros m0 _. cbv zeta.
  destruct (_ && _); [|apply any_ret]. apply any_bind.
  - unfold setFragmentSize. intros m _. destruct (0 <? fs); by eexists _, m.
  - intros c'. apply any_bind; [apply set_pos_any|intros; apply any_ret].
Qed.

(** Over the octets before the inline QoS. *)
Lemma jump_to_qos_holds o x d :
  0 <= d <= 2 ^ 15 → 0 <= x → o < 2 ^ 15 →
  holds (λ m, inside d m ∧ inside 0 m) (jump_to_qos o x) (λ r m, r = true → inside 0 m).
Proof.
  intros Hd Hx Ho. unfold jump_to_qos. destruct (Z.ltb_spec x o); [|apply holds_ret; by intros m [_ ?]].
  apply (holds_bind _ _ (λ _, inside (0 + (o - x)))).
  - eapply holds_weaken; [apply (skip_holds (o - x) 0); lia|by intros m [_ ?]|done].
  - intros []. apply holds_get. intros m0 Hm0. apply holds_ret. intros m -> Hb. apply negb_true_iff, Z.ltb_ge in Hb.
    destruct Hm0 as (? & ? & ? & ?). unfold inside. intuition lia.
Qed.

Section endpoints.
Context {E : Type} `{Endpoints E}.

Lemma set_endianness_holds smh d : holds (inside d) (set_endianness smh) (λ _, inside d).
Proof. apply set_endian_holds. Qed.

Lemma proc_Submsg_Data_holds r smh ep : holds (inside 0) (proc_Submsg_Data r smh ep) any.
Proof.
  unfold proc_Submsg_Data. destruct (_ || _); [apply any_ret|].
  eapply holds_bind; [apply set_endianness_holds|]. intros [].
  eapply holds_bind; [apply (skip_holds 2 0); lia|]. intros [].
  eapply holds_bind; [apply readInt16_holds; lia|]. intros [v1 o]. apply holds_at. intros m0 [Hm0 Ho].
  eapply holds_weaken with (P' := inside 2) (Q' := any); [|by intros m ->|done]. simpl in Ho.
  apply safe_then; [lia|apply readEntityId_safe|]. intros [v2 rd].
  destruct (negb _); [apply any_ret|]. apply safe_then; [lia|apply readEntityId_safe|]. intros [v3 wr].
  eapply holds_bind; [apply readSequenceNumber_holds; lia|]. intros [v4 sn].
  destruct (v1 && v2 && v3 && v4) eqn:Ev; [|apply any_ret]. simpl. destruct (SN.leb sn SN.default); [apply any_ret|].
  apply andb_true_iff in Ev as [_ ->]. cbv zeta.
  eapply holds_bind; [eapply holds_weaken; [apply (jump_to_qos_holds o _ 2); [lia|vm_compute; congruence|lia]| |]|].
  { intros m [Hm Hv]. split; [done|]. by apply Hv. } { intros a m Ha. exact Ha. }
  intros [|]; [|apply any_ret]. simpl.
  eapply holds_bind; [eapply holds_weaken; [apply read_inline_qos_holds|intros m Hm; by apply Hm|intros a m Ha; exact Ha]|].
  intros [[ok c] n]. destruct ok; [|apply any_ret]. simpl. apply any_bind.
  - eapply holds_weaken; [apply read_payload_holds|intros m Hm; by apply Hm|done].
  - intros [c'|]; apply any_ret.
Qed.

Lemma proc_Submsg_DataFrag_holds r smh ep : holds (inside 0) (proc_Submsg_DataFrag r smh ep) any.
Proof.
  unfold proc_Submsg_DataFrag. destruct (_ <? _); [apply any_ret|].
  eapply holds_bind; [apply set_endianness_holds|]. intros [].
  eapply holds_bind; [apply (skip_holds 2 0); lia|]. intros [].
  eapply holds_bind; [apply readInt16_holds; lia|]. intros [v1 o]. apply holds_at. intros m0 [Hm0 Ho].
  eapply holds_weaken with (P' := inside 2) (Q' := any); [|by intros m ->|done]. simpl in Ho.
  apply safe_then; [lia|apply readEntityId_safe|]. intros [v2 rd].
  destruct (negb _); [apply any_ret|]. apply safe_then; [lia|apply readEntityId_safe|]. intros [v3 wr].
  apply safe_then; [lia|apply readSequenceNumber_safe|]. intros [v4 sn]. destruct (SN.leb sn SN.default); [apply any_ret|].
  apply safe_then; [lia|by apply (read_integer_safe 4 id)|]. intros [v5 first].
  apply safe_then; [lia|by apply (read_integer_safe 2 id)|]. intros [v6 count].
  apply safe_then; [lia|by apply (read_integer_safe 2 id)|]. intros [v7 fs].
  eapply holds_bind; [apply (read_integer_in 4 id); lia|]. intros [v8 sample].
  destruct (v1 && v2 && v3 && v4 && v5 && v6 && v7 && v8) eqn:Ev; [|apply any_ret]. simpl.
  apply andb_true_iff in Ev as [_ ->].
  eapply holds_bind; [eapply holds_weaken; [apply (jump_to_qos_holds o _ 2); [lia|vm_compute; congruence|lia]| |]|].
  { intros m [Hm Hv]. split; [done|]. by apply Hv. } { intros a m Ha. exact Ha. }
  intros [|]; [|apply any_ret]. simpl.
  eapply holds_bind; [eapply holds_weaken; [apply read_inline_qos_holds|intros m Hm; by apply Hm|intros a m Ha; exact Ha]|].
  intros [[ok c] n]. destruct ok; [|apply any_ret]. simpl. apply any_bind.
  - eapply holds_weaken; [apply read_fragment_holds|intros m Hm; by apply Hm|done].
  - intros [c'|]; apply any_ret.
Qed.

(** The other submessages are read with checks only. *)
Lemma endianness_then {A} smh (p : M A) : safe p → holds (inside 0) (set_endianness smh;; p) any.
Proof.
  intros Hp. eapply holds_bind; [apply set_endianness_holds|]. intros [].
  eapply holds_weaken; [by apply (safe_holds p 0)|done|done].
Qed.

Lemma proc_Submsg_InfoSRC_holds r smh : holds (inside 0) (proc_Submsg_InfoSRC r smh) any.
Proof.
  eapply holds_bind; [apply set_endianness_holds|]. intros []. destruct (_ =? _); [|apply any_ret].
  eapply holds_bind; [apply (skip_holds 4 0); lia|]. intros [].
  eapply holds_weaken; [apply (safe_holds _ (0 + 4)); [lia|safe_solve]|done|done].
Qed.

Lemma process_submessage_holds r smh ig ep : holds (inside 0) (process_submessage r smh ig ep) any.
Proof.
  unfold process_submessage. cbv zeta.
  repeat lazymatch goal with
  | |- holds _ (mret _) any => apply any_ret
  | |- holds _ (if ?b then _ else _) any => destruct b
  | |- holds _ (_ ≫= _) any => apply any_bind; [|intros; repeat case_match; apply any_ret]
  end; first [apply proc_Submsg_Data_holds|apply proc_Submsg_DataFrag_holds|apply proc_Submsg_InfoSRC_holds
             |apply endianness_then; safe_solve].
Qed.

(** ** The message *)

(** A header that was read stands before as many octets as it says. *)
Lemma readSubmessageHeader_holds m0 :
  inside 0 m0 → pos m0 < length m0 →
  holds (λ m, m = m0) readSubmessageHeader
    (λ r m, r.1 = true → inside 0 m ∧ kept m0 m ∧ pos m = pos m0 + 4 ∧ 0 <= submessageLength r.2 <= length m - pos m).
Proof.
  intros Hm0 Hlt. pose proof Hm0 as (Hp & Hbuf & H32 & Hall). apply holds_get. intros m ->.
  rewrite u32_small by (range_unfold; lia). destruct (Z.ltb_spec (length m0 - pos m0) 4); [by apply holds_ret|].
  assert (∀ q, 0 <= q < length m0 → ∃ x, next_octet (with_pos m0 q) = Done (x, with_pos m0 (q + 1))) as Hnext.
  { intros q Hq. unfold next_octet, octet_at, skip, modify, lift, get, mbind, M_bind, load. simpl.
    rewrite !(proj2 (Z.leb_le _ _)) by lia. simpl. eexists. unfold mret, M_ret, with_pos. simpl.
    rewrite u32_small by (range_unfold; lia). reflexivity. }
  eapply (holds_bind _ _ (λ _ m, m = with_pos m0 (pos m0 + 1))).
  { intros m ->. destruct (Hnext (pos m0)) as [x Ex]; [lia|]. exists x, (with_pos m0 (pos m0 + 1)).
    split; [rewrite <-Ex; by destruct m0|done]. }
  intros id. eapply (holds_bind _ _ (λ _ m, m = with_pos m0 (pos m0 + 2))).
  { intros m ->. destruct (Hnext (pos m0 + 1)) as [x Ex]; [lia|]. exists x, (with_pos m0 (pos m0 + 2)).
    split; [rewrite Ex; do 3 f_equal; lia|done]. }
  intros fl. set (e := if negb _ then LITTLEEND else BIGEND).
  eapply (holds_bind _ _ (λ _ m, m = with_endian (with_pos m0 (pos m0 + 2)) e)); [by intros m ->; eexists tt, _|]. intros [].
  eapply holds_bind.
  { apply (readUInt16_holds _ 0 _ (λ r m, inside 0 m ∧ kept m0 m ∧ pos m = pos m0 + 4 ∧ 0 <= r.2 < 2 ^ 16)).
    - unfold inside. simpl. intuition lia.
    - lia.
    - intros m _ Hpm [_ Hl] Hs. simpl in *. lia.
    - intros m x Hm Hpm _ Hk Hx. simpl in *. range_unfold. split_and!; done || lia. }
  intros [v len]. apply holds_get. intros m (Hm & [Hb Hl] & Hpm & Hlen). simpl in Hlen.
  rewrite u32_small by (range_unfold; lia). destruct (Z.ltb_spec (length m) (pos m + len)); [by apply holds_ret|].
  destruct (_ && _ && _); apply holds_ret; intros ? -> _; simpl; rewrite ?u32_small by (range_unfold; lia); split_and!; done || lia.
Qed.

Lemma process_submessages_holds fuel ig r ep m0 :
  inside 3 m0 → length m0 - pos m0 <= Z.of_nat fuel → holds (λ m, m = m0) (process_submessages fuel ig r ep) any.
Proof.
  revert ig r ep m0. induction fuel as [|fuel IH]; intros ig r ep m0 Hm0 Hfuel m ->; cbn [process_submessages];
    unfold with_msg; (destruct (Z.ltb_spec (pos m0) (length m0)) as [Hlt|]; [|by apply (any_ret (λ _, True))]); [lia|].
  assert (inside 0 m0) as Hin by (destruct Hm0 as (? & ? & ? & ?); unfold inside; intuition lia).
  revert m0 Hm0 Hfuel Hlt Hin. intros m0 _ Hfuel Hlt Hin. match goal with |- context [?p m0] => enough (holds (λ m, m = m0) p any) as Hp
    by (by apply Hp) end.
  eapply holds_bind; [by apply readSubmessageHeader_holds|]. intros [[|] smh]; [|apply any_ret]. simpl negb. cbv iota.
  apply holds_get. intros m1 Hm1. destruct (Hm1 eq_refl) as (Hin1 & [Hb1 Hl1] & Hp1 & Hlen). clear Hm1. simpl in Hlen.
  pose proof Hin1 as (Hpos1 & Hbuf & H32 & Hall).
  rewrite align_eq, u32_small by (range_unfold; Z.to_euclidean_division_equations; lia).
  set (next := pos m1 + _). assert (pos m1 <= next <= length m1 + 3) as Hnext by (subst next; Z.to_euclidean_division_equations; lia).
  eapply holds_bind.
  { apply (holds_is (inside 0) _ any); [exact Hin1|]. destruct (_ && _); [apply any_ret|apply process_submessage_holds]. }
  intros [[[valid ig'] r'] ep']. destruct (_ || _); [apply any_ret|].
  eapply (holds_bind _ _ (λ _ m, inside 3 m ∧ pos m = next ∧ length m = length m1)).
  { intros m [[Hb Hl] _]. exists tt, (with_pos m next). split; [done|]. split; [done|]. split; [|done].
    unfold inside. simpl. rewrite Hb, Hl. intuition lia. }
  intros []. apply holds_at. intros m2 (Hin2 & Hp2 & Hl2). apply IH; [done|lia].
Qed.

(** The header of the message is read at fixed places. *)
Lemma octet_at_holds i m0 : 0 <= i < length m0 → inside 4 m0 → holds (λ m, m = m0) (octet_at i) (λ _ m, m = m0).
Proof.
  intros Hi (_ & Hbuf & _) m ->. unfold octet_at, mbind, M_bind, get, lift, load. simpl.
  rewrite !(proj2 (Z.leb_le _ _)) by lia. simpl. eexists _, m0. split; [reflexivity|done].
Qed.

Lemma next_octet_holds m0 :
  inside 0 m0 → pos m0 < length m0 → holds (λ m, m = m0) next_octet (λ _ m, m = with_pos m0 (pos m0 + 1)).
Proof.
  intros Hm0 Hlt m ->. destruct Hm0 as (Hp & Hbuf & H32 & _).
  unfold next_octet, octet_at, skip, modify, lift, get, mbind, M_bind, load. simpl.
  rewrite !(proj2 (Z.leb_le _ _)) by lia. simpl. eexists _, _. split; [reflexivity|].
  rewrite u32_small by (range_unfold; lia). done.
Qed.

Lemma checkRTPSHeader_holds r m0 :
  inside 0 m0 → pos m0 = 0 → RTPSMESSAGE_HEADER_SIZE <= length m0 →
  holds (λ m, m = m0) (checkRTPSHeader r) (λ _ m, inside 0 m ∧ kept m0 m).
Proof.
  intros Hm0 Hp Hlen. unfold RTPSMESSAGE_HEADER_SIZE in Hlen. pose proof Hm0 as (_ & Hbuf & H32 & Hall).
  assert (∀ q, 0 <= q <= length m0 → inside 0 (with_pos m0 q)) as Hin by (intros q Hq; apply inside_pos; [done|lia]).
  unfold checkRTPSHeader. do 4 (eapply holds_bind; [apply octet_at_holds; [lia|by eapply inside_le]|intros]).
  destruct (negb _); [apply holds_ret; by intros m ->|].
  eapply (holds_bind _ _ (λ _ m, m = with_pos m0 4)).
  { intros m ->. eexists tt, _. split; [unfold skip, modify; rewrite Hp; reflexivity|done]. }
  intros []. apply holds_get. intros m ->. cbn [pos with_pos].
  eapply holds_bind; [apply octet_at_holds; [simpl; lia|eapply inside_le; [apply Hin; lia|lia]]|]. intros major.
  destruct (_ =? _); [|apply holds_ret; intros m ->; split; [apply Hin; lia|done]].
  eapply (holds_bind _ _ (λ _ m, m = with_pos m0 5)); [by intros m ->; eexists tt, _|]. intros [].
  do 3 (eapply holds_bind; [apply next_octet_holds; [apply Hin; simpl; lia|simpl; lia]|intros ?]).
  cbn [pos with_pos]. eapply holds_bind.
  - apply (holds_is (inside 0) _ (λ _, inside 0)); [apply (Hin 8); lia|].
    apply safe_holds; [lia|apply readData_safe; split; vm_compute; congruence].
  - intros [v prefix]. apply holds_ret. intros m [Hk Hm]. by split.
Qed.

(** C5: on any octets the receiver ends, and nothing it reads is outside of the
    buffer, if sixteen octets are allocated behind the message. *)
Theorem receiver_total r ep m :
  Forall is_u8 (buffer m) → 0 <= length m < 2 ^ 32 - 2 ^ 18 → length m + 16 <= size (buffer m) →
  ∃ r' ep' m', processCDRMsg r ep m = Done ((r', ep'), m') ∧ buffer m' = buffer m ∧ length m' = length m.
Proof.
  intros Hall Hlen Hbuf. enough (holds (λ m', m' = m) (processCDRMsg r ep) any) as Hp.
  { destruct (Hp m eq_refl) as ([r' ep'] & m' & E' & [Hb Hl] & _). by exists r', ep', m'. }
  apply holds_get. intros ? ->. destruct (Z.ltb_spec (length m) RTPSMESSAGE_HEADER_SIZE); [apply any_ret|]. cbv zeta.
  assert (inside 0 (with_pos m 0)) as Hin by (unfold inside; simpl; intuition lia).
  eapply (holds_bind _ _ (λ _ m', m' = with_pos m 0)); [by intros ? ->; eexists tt, _|]. intros [].
  eapply holds_bind; [by apply checkRTPSHeader_holds|]. intros [ok r1]. destruct ok; [|apply any_ret]. simpl negb. cbv iota.
  apply any_bind; [|intros [[finished r2] ep2]; apply any_ret]. apply holds_at. intros m1 [Hin1 [_ Hl1]]. simpl in Hl1.
  apply process_submessages_holds; [by eapply inside_le|]. destruct Hin1 as (? & _). lia.
Qed.

End endpoints.

(** The size of the payload of a fragment is not checked: when a submessage is
    shorter than its own fixed part and inline QoS, by no more than what comes
    before, the size wraps around and a fragment of almost 4 GiB is handed to the
    readers. *)
Theorem short_fragment_accepted smh o n fs c m :
  bit smh 2 = false → 0 <= submessageLength smh < 4 + o + n → 4 + o + n - submessageLength smh <= pos m →
  0 <= pos m <= length m → length m < 2 ^ 32 →
  ∃ c' m', read_fragment smh o n fs c m = Done (Some c', m') ∧
    Payload.length (serializedPayload c') = 2 ^ 32 - (4 + o + n - submessageLength smh).
Proof.
  intros Hb Hs Hle Hp H32. unfold read_fragment, RTPSMESSAGE_DATA_EXTRA_INLINEQOS_SIZE. rewrite Hb.
  assert (u32 (submessageLength smh - (4 + o + n)) = 2 ^ 32 - (4 + o + n - submessageLength smh)) as ->.
  { wrap_unfold. rewrite <-(Z_mod_plus_full _ 1), Z.mod_small by lia. lia. }
  set (sz := 2 ^ 32 - _). unfold mbind at 1, M_bind at 1, get at 1. simpl.
  assert (u32 (pos m + sz) = pos m - (4 + o + n - submessageLength smh)) as ->.
  { subst sz. wrap_unfold. rewrite <-(Z_mod_plus_full _ (-1)), Z.mod_small by lia. lia. }
  rewrite (proj2 (Z.leb_le _ _)), (proj2 (Z.ltb_lt _ sz)) by (subst sz; lia). simpl.
  unfold setFragmentSize. destruct (0 <? fs); eexists _, _; (split; [reflexivity|done]).
Qed.

End target.

(** A message with one data submessage of 24 octets that has a key only, and says
    that the inline QoS begins four octets on. *)
Definition bare_key_octets : list Z :=
  [0x52; 0x54; 0x50; 0x53; 2; 2; 1; 15] ++ replicate 12 3 ++
  [DATA; 9; 24; 0] ++ [0; 0; 4; 0] ++ sample_reader ++ sample_writer ++ [0; 0; 0; 0; 4; 0; 0; 0] ++ [1; 2; 3; 4].

(** The key of a data submessage is copied without looking at where the message
    ends: twelve octets behind it are read here, which is undefined when they are not
    allocated. *)
Theorem bare_key_overread :
  let m := mkMsg bare_key_octets 0 48 48 LITTLEEND in
  @processCDRMsg little _ logging sample_receiver [] m = Undefined ∧
  (m3 ← @processCDRMsg little _ logging sample_receiver [] (with_buffer m (bare_key_octets ++ replicate 12 99)); Done m3.1.2) =
    Done [Data_event 1 4 ALIVE (Some ([1; 2; 3; 4] ++ replicate 12 99)) []; Alive_event (replicate 12 3)].
Proof. split; vm_compute; reflexivity. Qed.

Lemma receiver_total_witness :
  ∃ r' l m', @processCDRMsg little _ logging sample_receiver [] (mkMsg (bare_key_octets ++ replicate 16 0) 0 64 48 LITTLEEND) =
    Done ((r', l), m') ∧ buffer m' = bare_key_octets ++ replicate 16 0 ∧ length m' = 48.
Proof.
  apply (@receiver_total little _ logging sample_receiver [] (mkMsg (bare_key_octets ++ replicate 16 0) 0 64 48 LITTLEEND)).
  - vm_compute. repeat constructor; congruence.
  - done.
  - vm_compute. congruence.
Defined.

Lemma short_fragment_accepted_witness :
  ∃ c' m', read_fragment (mkHeader DATA_FRAG 24 1 false) 28 0 8 sample_change
      (mkMsg (replicate 64 0) 56 64 56 LITTLEEND) = Done (Some c', m') ∧
    Payload.length (serializedPayload c') = 2 ^ 32 - 8.
Proof.
  apply (short_fragment_accepted (mkHeader DATA_FRAG 24 1 false) 28 0 8 sample_change
    (mkMsg (replicate 64 0) 56 64 56 LITTLEEND)); done.
Defined.

End Robust.
