(* ===== verification/ReaderKnowledge.v ===== *)
(** * What a stateful reader knows of one writer

    A reader that hears of one writer's samples through data, gaps and heartbeats: each
    number it counts as known is one whose sample it has, or one that a gap or a heartbeat
    explained away; what it has up to its low mark its listener was told of; and what it
    acknowledges it knows. *)

From S2P Require Import Prelude.
From S2P Require Import SeqNum.
From S2P Require Import Bitmap.
From S2P Require Import BitmapFacts.
From S2P Require Import Containers.
From S2P Require Import Guid.
From S2P Require Import CacheChange.
From S2P Require Import Pools.
From S2P Require Import GapBuilder.
From S2P Require Import History.
From S2P Require Import HistoryFacts.
From S2P Require Import WriterProxy.
From S2P Require Import WriterProxyFacts.
From S2P Require Import RTPSReader.
From S2P Require Import StatefulReader.
From S2P Require Import StatefulReaderFacts.

Module ReaderKnowledge.
Import CacheChange RTPSReader HistorySearch ReaderHistoryFacts.
Import StatefulReader StatefulFacts.

(** What the writer has said: the numbers that need no sample, what a sample of a number
    looks like at the reader, and the highest number there is; and the number up to which
    the reader knew everything. *)
Record Story := mkStory {
  explained : Z → Prop;
  sample : CacheChange_t → Prop;
  top : Z;
  floor : Z
}.

Record goes_on (K K' : Story) : Prop := {
  go_explained n : explained K n → explained K' n;
  go_sample c : sample K c → sample K' c;
  go_top : top K <= top K';
  go_floor : floor K' <= floor K
}.

Lemma list_elem_of_delete_other {A} k j (l : list A) x : l !! j = Some x → j ≠ k → x ∈ delete k l.
Proof.
  intros Hj Hne. rewrite delete_take_drop. apply elem_of_app. destruct (decide (j < k)%nat) as [Hlt|Hge].
  - left. apply (list_elem_of_lookup_2 _ j). by rewrite lookup_take_lt.
  - right. apply (list_elem_of_lookup_2 _ (j - S k)). rewrite lookup_drop. rewrite <-Hj. f_equal. lia.
Qed.

Section knowledge.
Context {P L : Type} `{!ReaderPools P} `{!ReaderPoolsLaws P} `{!ReaderListener L}.
Context (time_of : Guid.GUID_t → Z → Z).
Hypothesis time_mono : ∀ g n m, n < m → time_of g n < time_of g m.
Context (cfg : Config) (ndebug : bool).
Hypothesis listens : patient (L := L).
Context (g : Guid.GUID_t).
Implicit Types s : Sys P (list Call * L).
Implicit Types K : Story.

Abbreviation inv := (inv time_of).
Abbreviation M := (stateful (Sys P (list Call * L))).

(** An acknowledgement of what the proxy [w] knows. *)
Record covered (w : WriterProxy.WriterProxy) (sns : SequenceNumberSet_t) : Prop := {
  cv_inv : BitmapFacts.inv sns;
  cv_base : SN.wf (BitmapRange.base sns) ∧ 0 <= SN.val (BitmapRange.base sns);
  cv_known n : n < SN.val (BitmapRange.base sns) → n <= low w;
  cv_max n : BitmapFacts.mem sns n → n <= maxv w
}.

Definition has s (c : CacheChange_t) : Prop := c ∈ changes s ∨ c ∈ news (calls (rd s)).

(** The proxy at [i] is the writer's, and nothing is lost that it knows. *)
Record informed K s (i : nat) (w : WriterProxy.WriterProxy) : Prop := {
  in_inv : inv s;
  in_at : writers (rd s) !! i = Some w;
  in_guid : guid w = g;
  in_vector : head (RLV.collection_ (WriterProxy.guid_as_vector_ w)) = Some g;
  in_listener : is_Some (mp_listener (rd s));
  in_told c : c ∈ changes s → writerGUID c = g → number c <= SN.val (WriterProxy.last_notified_ w) →
    with_read c false ∈ news (calls (rd s));
  in_known n : known w n → explained K n ∨ ∃ c, has s c ∧ writerGUID c = g ∧ number c = n;
  in_sample c : has s c → writerGUID c = g → sample K (with_read c false);
  in_order : ordered g (news (calls (rd s)));
  in_before c : c ∈ news (calls (rd s)) → writerGUID c = g → number c <= SN.val (WriterProxy.last_notified_ w);
  in_max : maxv w <= top K;
  in_floor : floor K <= low w;
  in_acks sns count final : AckNack g sns count final ∈ log (rd s) → covered w sns
}.

Definition caught_up K s (i : nat) (w : WriterProxy.WriterProxy) : Prop :=
  informed K s i w ∧ SN.val (WriterProxy.last_notified_ w) = low w.

Lemma informed_on K K' s i w : goes_on K K' → informed K s i w → informed K' s i w.
Proof.
  intros [He Hs Ht Hf] [Hi Hw Hg Hv Hl Htold Hk Hsa Hor Hbe Hm Hlow Ha]. split; try done; [| |lia..].
  - intros n [|]%Hk; [left; by apply He|by right].
  - intros c Hc Ec. by apply Hs, Hsa.
Qed.

(** Everything up to the low mark was told of or explained. *)
Lemma caught_up_told K s i w n :
  caught_up K s i w → n <= low w →
  explained K n ∨ ∃ c, c ∈ news (calls (rd s)) ∧ writerGUID c = g ∧ number c = n ∧ sample K (with_read c false).
Proof.
  intros [[Hi Hw Hg Hv Hl Htold Hk Hsa Hor Hbe Hm Hlow Ha] En] Hn.
  destruct (Hk n) as [|(c & [Hc|Hc] & Ec & Enc)]; [by left|by left| |].
  - right. exists (with_read c false). split_and!; [|done|done|apply (Hsa c); [by left|done]]. apply Htold; [done|done|lia].
  - right. exists c. split_and!; [done|done|done|apply Hsa; [by right|done]].
Qed.

Lemma covered_more w w' sns : low w <= low w' → maxv w <= maxv w' → covered w sns → covered w' sns.
Proof.
  intros Hl Hm [Hi Hb Hk Hmx]. split; [done|done|intros n Hn|intros n Hn]; [apply Hk in Hn|apply Hmx in Hn]; lia.
Qed.

(** ** Learning *)

Lemma received_vector w seq :
  WriterProxy.guid_as_vector_ (WriterProxy.received_change_set w seq).2 = WriterProxy.guid_as_vector_ w.
Proof. by destruct (received_with_changes w seq) as (r & lo & m & ->). Qed.

(** The low mark follows what is known. *)
Lemma low_grows w w' : proxy_inv w → proxy_inv w' → (∀ n, known w n → known w' n) → low w <= low w'.
Proof.
  intros Hp Hp' Hk. destruct (low_mark_first_unknown w Hp) as [_ Hall]. destruct (low_mark_first_unknown w' Hp') as [Hno _].
  destruct (Z.le_gt_cases (low w) (low w')) as [|Hlt]; [done|]. destruct Hno. apply Hk, Hall. lia.
Qed.

(** When the first unknown number becomes known the low mark passes it. *)
Lemma next_known_low w w' n :
  proxy_inv w → proxy_inv w' → (∀ m, known w m → known w' m) → n = low w + 1 → known w' n → n <= low w'.
Proof.
  intros Hp Hp' Hk -> Hn. pose proof (low_grows w w' Hp Hp' Hk) as Hle.
  destruct (Z.le_gt_cases (low w + 1) (low w')) as [|Hlt]; [done|]. destruct (low_mark_first_unknown w' Hp') as [Hno _].
  destruct Hno. by replace (low w' + 1) with (low w + 1) by lia.
Qed.

Definition no_ack (e : Event) : Prop := match e with AckNack _ _ _ _ => False | _ => True end.

(** The reader's state after the proxy [w] became [w'], before its listener hears of it. *)
Record follows K s s' (i : nat) (w w' : WriterProxy.WriterProxy) : Prop := {
  fo_inv : inv s';
  fo_at : writers (rd s') !! i = Some w';
  fo_learns : learns w w';
  fo_vector : WriterProxy.guid_as_vector_ w' = WriterProxy.guid_as_vector_ w;
  fo_proxy : proxy_inv w';
  fo_listener : is_Some (mp_listener (rd s)) → is_Some (mp_listener (rd s'));
  fo_calls : calls (rd s') = calls (rd s);
  fo_kept c : c ∈ changes s → c ∈ changes s';
  fo_new c : c ∈ changes s' → c ∈ changes s ∨
    (writerGUID c = g → SN.val (WriterProxy.last_notified_ w) < number c ∧ sample K (with_read c false));
  fo_known n : known w' n → known w n ∨ explained K n ∨ ∃ c, c ∈ changes s' ∧ writerGUID c = g ∧ number c = n;
  fo_max : maxv w <= maxv w' <= top K;
  fo_log : ∃ es, log (rd s') = log (rd s) ++ es ∧ Forall no_ack es
}.

Lemma follows_informed K s s' i w w' : informed K s i w → follows K s s' i w w' → informed K s' i w'.
Proof.
  intros [Hi Hw Hg Hv Hl Htold Hk Hsa Hor Hbe Hm Hlow Ha] [Hi' Hw' (Hg' & _ & Hn' & Hkn) Hv' Hp' Hl' Hc Hkept Hnew Hk' Hm' (es & El & Hes)].
  assert (low w <= low w') as Hgrow by (apply low_grows; [by apply (proxy_at_inv time_of s i)|done|done]).
  split; [done|done|congruence|congruence|auto| | | |by rewrite Hc| |lia|lia|].
  - intros c [Hin|Hlt]%Hnew Ec Hle; rewrite Hn' in Hle; rewrite Hc; [by apply Htold|]. destruct (Hlt Ec). lia.
  - intros n [Hn|[|(c & Hin & Hrest)]]%Hk'; [|by left|right; exists c; split; [by left|done]].
    apply Hk in Hn as [|(c & [Hin|Hin] & Hrest)]; [by left|right..]; exists c; (split; [|done]);
      [left; by apply Hkept|right; by rewrite Hc].
  - intros c [[Hin|Hsc]%Hnew|Hin] Ec; [apply Hsa; [by left|done]|by apply Hsc|]. rewrite Hc in Hin. apply Hsa; [by right|done].
  - intros c Hin Ec. rewrite Hc in Hin. rewrite Hn'. by apply Hbe.
  - intros sns count final. rewrite El. intros [Hin|Hin]%elem_of_app.
    + eapply covered_more; [exact Hgrow|apply Hm'|by eapply Ha].
    + rewrite Forall_forall in Hes. by destruct (Hes _ Hin).
Qed.

(** A proxy that learns explained numbers. *)
Lemma explained_follows K s i w w' :
  inv s → writers (rd s) !! i = Some w → proxy_inv w' → learns w w' →
  WriterProxy.guid_as_vector_ w' = WriterProxy.guid_as_vector_ w →
  (∀ n, known w' n → known w n ∨ explained K n) → maxv w <= maxv w' <= top K →
  follows K s (with_proxy s i w') i w w'.
Proof.
  intros Hi Hw Hp Hl Hv Hk Hm. pose proof (with_proxy_delivers time_of s i w w' Hi Hw Hp Hl) as Hd.
  split; try done; [apply Hd|by eapply with_proxy_at|by left| |].
  - intros n [|]%Hk; [by left|right; by left].
  - exists []. by rewrite app_nil_r.
Qed.

Lemma explained_informed K s i w w' :
  informed K s i w → proxy_inv w' → learns w w' → WriterProxy.guid_as_vector_ w' = WriterProxy.guid_as_vector_ w →
  (∀ n, known w' n → known w n ∨ explained K n) →
  maxv w <= maxv w' <= top K → informed K (with_proxy s i w') i w'.
Proof.
  intros Hin Hp Hl Hv Hk Hm. eapply follows_informed; [exact Hin|]. by apply explained_follows; [apply Hin|apply Hin|..].
Qed.

(** ** Notification *)

Lemma NotifyChanges_catches_up K s i w :
  informed K s i w → ∃ s' w', NotifyChanges ndebug i s = Done (tt, s') ∧ caught_up K s' i w' ∧ changes s' = changes s ∧
    log (rd s') = log (rd s) ∧ low w' = low w.
Proof.
  intros [Hi Hw Hg Hv Hl Htold Hk Hsa Hor Hbe Hm Hlow Ha].
  destruct (NotifyChanges_spec time_of time_mono ndebug s i w Hi Hw)
    as (s' & m & tr & E & Hi' & (_ & _ & st & u & p & l & Er) & Hp & Em & Hc & [_ Hheard] & Ht & Hl').
  destruct (Ht Hl listens) as [Hnews Hch]. set (w' := WriterProxy.with_notified w m) in *.
  assert (writers (rd s') = <[i := w']> (writers (rd s))) as Ew by by rewrite Er.
  assert (log (rd s') = log (rd s)) as Elog by by rewrite Er.
  exists s', w'. split; [done|]. split; [|done]. split; [|done]. split; [done| |done|done|auto| | | | | |done|done|].
  - rewrite Ew. apply list_lookup_insert_eq. by eapply lookup_lt_Some.
  - intros c Hin Ec Hle. rewrite Hch in Hin. rewrite Hc, news_app, elem_of_app.
    destruct (Z.le_gt_cases (number c) (SN.val (WriterProxy.last_notified_ w))) as [|Hlt]; [left; by apply Htold|right].
    simpl in Hle. rewrite Hnews. apply list_elem_of_filter.
    assert (isRead c = false) as Hr.
    { pose proof (i_held _ _ Hi) as Hh. rewrite Forall_forall in Hh. destruct (Hh c Hin) as (_ & x & Hx & Eg & _ & Hr).
      apply Hr. assert (x = w) as ->; [|lia]. apply (same_writer (rd s)); [apply Hi|done|by eapply list_elem_of_lookup_2|congruence]. }
    replace (with_read c false) with c by (destruct c; simpl in Hr; by subst). split; [|done]. split; [congruence|lia].
  - intros n Hn. destruct (Hk n Hn) as [|(c & Hin & Hrest)]; [by left|right]. exists c. split; [|done].
    destruct Hin as [Hin|Hin]; [left; by rewrite Hch|right]. rewrite Hc, news_app. apply elem_of_app. by left.
  - intros c [Hin|Hin] Ec; [apply Hsa; [left; by rewrite <-Hch|done]|]. rewrite Hc, news_app in Hin.
    apply elem_of_app in Hin as [Hin|Hin]; [apply Hsa; [by right|done]|]. rewrite Hnews in Hin.
    apply list_elem_of_filter in Hin as [_ Hin]. apply Hsa; [by left|done].
  - rewrite Hc, news_app. apply ordered_app; [done|by eapply heard_ordered|]. intros c d Hin Hd Ec Ed. specialize (Hbe c Hin Ec).
    rewrite Hnews in Hd. apply list_elem_of_filter in Hd as [[_ Hd] _]. lia.
  - intros c Hin Ec. rewrite Hc, news_app in Hin. simpl. rewrite Em. pose proof (pi_notified_le _ Hp) as Hle. simpl in Hle.
    apply elem_of_app in Hin as [Hin|Hin].
    + specialize (Hbe c Hin Ec). pose proof (pi_notified_le _ (proxy_at_inv time_of s i w Hi Hw)). lia.
    + rewrite Hnews in Hin. apply list_elem_of_filter in Hin as [[_ Hd] _]. lia.
  - intros sns count final. rewrite Elog. intros Hin. apply (covered_more w); [simpl; lia..|by eapply Ha].
Qed.

(** How an operation of the reader goes on: it ends, and the reader is up to date again. *)
Definition keeps_up K s (i : nat) {A} (o : outcome (A * Sys P (list Call * L))) : Prop :=
  ∃ a s' w', o = Done (a, s') ∧ caught_up K s' i w' ∧ (length (changes s') <= S (length (changes s)))%nat.

Lemma keeps_up_here K s i w {A} (a : A) : caught_up K s i w → keeps_up K s i (Done (a, s)).
Proof. intros H. exists a, s, w. split_and!; [done|done|lia]. Qed.

(** The pools and the log are of no concern. *)
Lemma informed_frame K s s' i w :
  informed K s i w → inv s' → writers (rd s') = writers (rd s) → calls (rd s') = calls (rd s) →
  (is_Some (mp_listener (rd s)) → is_Some (mp_listener (rd s'))) → changes s' = changes s →
  (∃ es, log (rd s') = log (rd s) ++ es ∧ Forall no_ack es) → informed K s' i w.
Proof.
  intros Hin Hi' Ew Ec Hl Ech Hes. eapply follows_informed; [exact Hin|].
  pose proof (proxy_at_inv time_of s i w (in_inv _ _ _ _ Hin) (in_at _ _ _ _ Hin)) as Hp.
  split; try done; [by rewrite Ew; apply Hin|by rewrite Ech|by rewrite Ech; left|by left|].
  pose proof (in_max _ _ _ _ Hin). lia.
Qed.

(** ** Data *)

Lemma change_received_keeps_up K s i w c u :
  informed K s i w → storable time_of s w c → number c <= top K → sample K (with_read c false) →
  (too_large s (Payload.length (serializedPayload c)) ∧
   change_received cfg ndebug c (Some i) u s = Done (false, s)) ∨
  ∃ s' w', change_received cfg ndebug c (Some i) u s = Done (true, s') ∧ caught_up K s' i w' ∧
    length (changes s') = S (length (changes s)) ∧ (number c = low w + 1 → number c <= low w').
Proof.
  intros Hin Hc Htop Hsc. pose proof (in_inv _ _ _ _ Hin) as Hi. pose proof (in_at _ _ _ _ Hin) as Hw.
  pose proof (proxy_at_inv time_of s i w Hi Hw) as Hp. unfold change_received.
  rewrite (bind_step reader _ _ (rd s) s) by done. rewrite (bind_step _ _ _ _ _ (the_proxy_at s i w Hw)). cbv zeta.
  destruct (add_change_cases time_of time_mono s i w c Hi Hw Hc) as [[Hbig E]|(l & E & Hl & Hs)].
  - left. split; [done|]. rewrite (bind_step _ _ _ false s); [done|].
    unfold history_received_change, ReaderHistory.received_change. by rewrite E.
  - right. rewrite (bind_step _ _ _ true (with_list s l)).
    2: { unfold history_received_change, ReaderHistory.received_change. by rewrite E. }
    rewrite (st_full _ _ _ _ Hc). rewrite (bind_step _ _ _ _ _ (received_step (with_list s l) i w _ Hw)).
    pose proof (store_delivers time_of s i w c l Hi Hw Hc Hl Hs) as Hd.
    pose proof (received_change_set_spec w _ Hp (st_ok _ _ _ _ Hc)) as Hspec.
    destruct (received_learns w _ Hp (st_ok _ _ _ _ Hc)) as [Hp' Hlearn]. pose proof (received_vector w (sequenceNumber c)) as Hvec.
    destruct (WriterProxy.received_change_set w (sequenceNumber c)) as [b w'] eqn:Er. cbn [fst snd] in *.
    destruct Hspec as (_ & Hk & Hn & _ & Hm & Hb & _). fold (number c) in Hk, Hm.
    assert (follows K s (with_proxy (with_list s l) i w') i w w') as Hf.
    { split; try done; [apply Hd|by apply (with_proxy_at (with_list s l) i w)|..].
      - intros x Hx. change (x ∈ l). rewrite Hl. by right.
      - intros x Hx. change (x ∈ l) in Hx. rewrite Hl in Hx. apply elem_of_cons in Hx as [->|Hx]; [|by left].
        right. intros _. split; [|done]. pose proof (st_new _ _ _ _ Hc) as Hnew. pose proof (pi_notified_le _ Hp).
        destruct (Z.lt_ge_cases (low w) (number c)); [lia|]. destruct Hnew. by left.
      - intros n [Hkn| ->]%Hk; [by left|right; right]. exists c. split_and!; [|by rewrite <-(st_guid _ _ _ _ Hc); apply Hin|done].
        change (c ∈ l). rewrite Hl. by left.
      - pose proof (in_max _ _ _ _ Hin). lia.
      - exists []. by rewrite app_nil_r. }
    destruct (NotifyChanges_catches_up K _ i w' (follows_informed _ _ _ _ _ _ Hin Hf)) as (s2 & w2 & E2 & Hcu & Hch & _ & Elow).
    rewrite (bind_step _ _ _ _ _ E2). exists s2, w2. split_and!; [by rewrite (proj2 Hb (st_new _ _ _ _ Hc))|done| |].
    + rewrite Hch. change (length l = S (length (changes s))). by rewrite Hl.
    + intros En. rewrite Elow. apply (next_known_low w w'); [done|done|apply Hlearn|done|]. rewrite Hk. by right.
Qed.

(** Data that arrives: of a sample of the story, whatever the pools keep its octets in. *)
Record acceptable K s (c : CacheChange_t) (now : Time_t) : Prop := {
  ac_valid : valid_data time_of c;
  ac_writer : writerGUID c = g;
  ac_top : number c <= top K;
  ac_fits : ¬ too_large s (Payload.length (serializedPayload c));
  ac_filter : change_is_relevant_for_filter c (m_guid (rd s)) (data_filter_ cfg) = true;
  ac_room : Z.of_nat (length (changes s)) + 1 < 2 ^ 63;
  ac_sample payload :
    Payload.length payload = Payload.length (serializedPayload c) →
    take (Z.to_nat (Payload.length (serializedPayload c))) (from_option id [] (Payload.data payload)) =
    take (Z.to_nat (Payload.length (serializedPayload c))) (octets_of c) →
    sample K (with_read (stored c payload now) false)
}.

Hypothesis known_writer : Guid.eqb g Guid.c_Guid_Unknown = false.

(** Pools that never run out. *)
Definition generous : Prop :=
  (∀ p, (RTPSReader.reserve_cache p).1 = true) ∧ ∀ p data, is_Some (RTPSReader.get_payload_for p data).1.

(** [keeps_up], and the low mark passes [n] if that was next. *)
Definition advances K s (i : nat) (w : WriterProxy.WriterProxy) (n : Z) {A} (o : outcome (A * Sys P (list Call * L))) : Prop :=
  ∃ a s' w', o = Done (a, s') ∧ caught_up K s' i w' ∧ (length (changes s') <= S (length (changes s)))%nat ∧
    (generous → n <= low w + 1 → n <= low w').

Lemma advances_keeps_up K s i w n {A} (o : outcome (A * Sys P (list Call * L))) : advances K s i w n o → keeps_up K s i o.
Proof. intros (a & s' & w' & E & Hcu & Hl & _). by exists a, s', w'. Qed.

Lemma add_data_advances K s i w c now :
  caught_up K s i w → acceptable K s c now → ¬ known w (number c) →
  advances K s i w (number c) (add_data cfg ndebug c (Some i) now s).
Proof.
  intros [Hin En] [Hv Hg Htop Hfit Hrel Hroom Hsc] Hnew. pose proof (in_inv _ _ _ _ Hin) as Hi. pose proof (in_at _ _ _ _ Hin) as Hw.
  pose proof Hv as (_ & _ & _ & Hfs).
  assert (ReaderHistory.can_change_be_added_nts s (writerGUID c) (Payload.length (serializedPayload c)) = (true, false)) as Ecan.
  { unfold ReaderHistory.can_change_be_added_nts. rewrite Hg, known_writer. unfold too_large in Hfit.
    case_bool_decide as Em; [|done]. cbn [andb]. destruct (Z.ltb_spec (History.payloadMaxSize (History.m_att (ReaderHistory.hist s)))
      (Payload.length (serializedPayload c))); [|done]. by destruct Hfit. }
  assert (∀ p, caught_up K (pooled s p) i w) as Hpool.
  { intros p. split; [|done]. apply (informed_frame K s); try done; [apply (pools_delivers time_of s p Hi)|].
    exists []. by rewrite app_nil_r. }
  destruct (RTPSReader.reserve_cache (pools (rd s))) as [reserved p1] eqn:Er.
  rewrite (add_data_pools cfg ndebug s i w c now reserved p1 Hw Hfs ltac:(by rewrite Ecan) Hrel Er).
  destruct reserved; cbn [negb]; cycle 1.
  { exists false, (pooled s p1), w. split_and!; [done|apply Hpool|apply Nat.le_succ_diag_r|].
    intros [Hres _]. specialize (Hres (pools (rd s))). by rewrite Er in Hres. }
  destruct (RTPSReader.get_payload_for p1 (serializedPayload c)) as [[payload|] p2] eqn:Ep; cycle 1.
  { eexists false, (pooled s _), w. split_and!; [done|apply Hpool|apply Nat.le_succ_diag_r|].
    intros [_ Hget]. specialize (Hget p1 (serializedPayload c)). rewrite Ep in Hget. by destruct Hget. }
  destruct (get_payload_for_octets _ _ _ _ Ep) as [Hlen Hoct].
  destruct (change_received_keeps_up K (pooled s p2) i w (stored c payload now)
    (WriterProxy.unknown_missing_changes_up_to w (sequenceNumber c))) as [[Hbig _]|(s3 & w3 & E & Hcu & Hl & Hnext)].
  - apply Hpool.
  - apply stored_storable; [done|rewrite Hg; apply Hin|done|done].
  - done.
  - by apply Hsc.
  - destruct Hfit. rewrite <-Hlen. exact Hbig.
  - rewrite (bind_step _ _ _ _ _ E). exists true, s3, w3. split_and!; [done|done|rewrite Hl; done|].
    intros _ Hle. apply Hnext. destruct (Z.le_gt_cases (number c) (low w)); [destruct Hnew; by left|].
    change (number c = low w + 1). lia.
Qed.

(** A message of the writer meets its proxy. *)
Lemma accept_here K s i w : informed K s i w → acceptMsgFrom cfg (rd s) g = Some (Some i).
Proof.
  intros Hin. pose proof (in_inv _ _ _ _ Hin) as Hi. pose proof (in_at _ _ _ _ Hin) as Hw. pose proof (in_guid _ _ _ _ Hin) as Hg.
  pose proof (i_writers _ _ Hi) as [_ Hp Hnd _ _]. rewrite Forall_forall in Hp.
  destruct (Hp w (list_elem_of_lookup_2 _ _ _ Hw)) as (_ & Ha & Hwf). rewrite Hg in Hwf. unfold acceptMsgFrom.
  destruct (findWriterProxy (rd s) g) as [j|] eqn:E.
  - destruct (find_writer time_of s g j Hi Hwf E) as (w' & Hw' & Eg). do 2 f_equal.
    apply (NoDup_lookup _ j i g Hnd); rewrite list_lookup_fmap; [rewrite Hw'; simpl; by rewrite Eg|rewrite Hw; simpl; by rewrite Hg].
  - exfalso. unfold findWriterProxy in E. apply fmap_None, list_find_None in E. rewrite Forall_forall in E.
    apply (E w (list_elem_of_lookup_2 _ _ _ Hw)). rewrite Hg, Ha, (proj2 (Guid.guid_eqb_eq g g Hwf Hwf) eq_refl). done.
Qed.

Lemma emit_informed K s i w es :
  informed K s i w → Forall no_ack es →
  informed K (ReaderHistory.mkReaderHistory (ReaderHistory.hist s) (emit (rd s) es)) i w.
Proof.
  intros Hin Hes. apply (informed_frame K s); try done; [apply (emit_delivers time_of s es), Hin|]. by exists es.
Qed.

Lemma processDataMsg_advances K s i w c now :
  caught_up K s i w → acceptable K s c now → advances K s i w (number c) (processDataMsg cfg ndebug c now s).
Proof.
  intros Hcu Hac. pose proof Hcu as [Hin _]. pose proof (in_inv _ _ _ _ Hin) as Hi. pose proof (in_at _ _ _ _ Hin) as Hw.
  unfold processDataMsg. rewrite (bind_step reader _ _ (rd s) s) by done. rewrite (wo_alive _ (i_writers _ _ Hi)). cbn [negb].
  rewrite (ac_writer _ _ _ _ Hac). pose proof (ac_valid _ _ _ _ Hac) as (_ & Hok & _).
  rewrite (accept_here K s i w Hin).
  rewrite (bind_step _ _ _ (WriterProxy.change_was_received w (sequenceNumber c)) s)
    by (by rewrite (bind_step _ _ _ _ _ (the_proxy_at s i w Hw))).
  pose proof (was_received_known w _ (proxy_at_inv time_of _ _ _ Hi Hw) Hok) as Hkn. fold (number c) in Hkn.
  destruct (WriterProxy.change_was_received w (sequenceNumber c)).
  { exists true, s, w. split_and!; [done|done|lia|]. intros _ Hle. destruct (Z.le_gt_cases (number c) (low w)) as [|Hlt]; [done|].
    destruct (low_mark_first_unknown w (proxy_at_inv time_of _ _ _ Hi Hw)) as [Hno _]. destruct Hno.
    replace (low w + 1) with (number c) by lia. by apply Hkn. }
  destruct (add_data_advances K s i w c now Hcu Hac) as (b & s1 & w1 & E1 & [Hin1 En1] & Hl1 & Hn1); [intros Hk; by apply Hkn in Hk|].
  rewrite (bind_step _ _ _ _ _ E1). unfold assert_writer_liveliness. destruct (_ && _).
  - eexists b, _, w1. split; [reflexivity|]. split; [|exact (conj Hl1 Hn1)]. split; [|done]. apply emit_informed; [done|by repeat constructor].
  - by exists b, s1, w1.
Qed.

(** ** Heartbeats *)

Lemma heartbeat_refused w count first last f l d lost :
  WriterProxy.hb_accepted (WriterProxy.process_heartbeat w count first last f l d lost) = false →
  WriterProxy.hb_proxy (WriterProxy.process_heartbeat w count first last f l d lost) = w.
Proof.
  unfold WriterProxy.process_heartbeat. destruct (negb _ && _); [|done].
  destruct (WriterProxy.lost_changes_update _ _). destruct (WriterProxy.heartbeat_answer _ _ _ _) as [[? ?] ?].
  by destruct (negb _).
Qed.

Lemma sample_lost_step s n :
  ∃ l', (if 0 <? n then modify (λ r, with_listener r ((λ l, on_sample_lost l n) <$> mp_listener r)) else mret tt) s =
      Done (tt, ReaderHistory.mkReaderHistory (ReaderHistory.hist s) (with_listener (rd s) l')) ∧
    from_option fst [] l' = calls (rd s) ∧ (is_Some (mp_listener (rd s)) → is_Some l').
Proof.
  destruct (0 <? n).
  - exists ((λ l, on_sample_lost l n) <$> mp_listener (rd s)). split; [done|]. unfold calls. by destruct (mp_listener (rd s)).
  - exists (mp_listener (rd s)). split; [|done]. by destruct s as [? []].
Qed.

Lemma processHeartbeatMsg_keeps_up K s i w count first last final live :
  caught_up K s i w → ok first → ok last → (∀ n, n < SN.val first → explained K n) →
  SN.val first - 1 <= top K → SN.val last <= top K →
  keeps_up K s i (processHeartbeatMsg cfg ndebug g count first last final live s).
Proof.
  intros Hcu Hf Hl Hexp Htf Htl. pose proof Hcu as [Hin En]. pose proof (in_inv _ _ _ _ Hin) as Hi. pose proof (in_at _ _ _ _ Hin) as Hw.
  pose proof (proxy_at_inv time_of s i w Hi Hw) as Hp.
  unfold processHeartbeatMsg. rewrite (bind_step reader _ _ (rd s) s) by done. rewrite (wo_alive _ (i_writers _ _ Hi)). cbn [negb].
  rewrite (accept_here K s i w Hin).
  rewrite (bind_step _ _ _ _ _ (the_proxy_at s i w Hw)). cbv zeta.
  destruct (heartbeat_learns w count first last final live (disable_positive_acks_ cfg) 0 Hp Hf Hl) as [Hp' Hlearn].
  destruct (process_heartbeat_ok w count first last final live (disable_positive_acks_ cfg) 0 Hp Hf Hl)
    as (_ & _ & _ & _ & _ & Hvec & Hknew & Hmax).
  pose proof (in_max _ _ _ _ Hin) as Htop.
  set (hb := WriterProxy.process_heartbeat w count first last final live (disable_positive_acks_ cfg) 0) in *.
  assert (informed K (with_proxy s i (WriterProxy.hb_proxy hb)) i (WriterProxy.hb_proxy hb)) as Hin1.
  { apply (explained_informed K s i w); [done|done|done|done| |lia]. intros n [|Hn]%Hknew; [by left|right; by apply Hexp]. }
  set (s1 := with_proxy s i _) in *. set (evs := ProxyEffect g <$> WriterProxy.hb_effects hb).
  assert (Forall no_ack evs) as Hno by (apply Forall_fmap, Forall_true; done).
  pose proof (emit_informed K s1 i _ evs Hin1 Hno) as Hin2.
  set (s2 := ReaderHistory.mkReaderHistory (ReaderHistory.hist s1) (emit (rd s1) evs)) in *.
  rewrite (bind_step (modify _) _ _ tt s2) by done. pose proof (in_inv _ _ _ _ Hin2) as Hi2.
  destruct (WriterProxy.hb_accepted hb) eqn:Eac; cycle 1.
  { exists true, s2, (WriterProxy.hb_proxy hb). split_and!; [done| |apply Nat.le_succ_diag_r]. split; [done|].
    unfold hb in *. by rewrite (heartbeat_refused _ _ _ _ _ _ _ _ Eac). }
  rewrite (bind_step _ _ _ tt s2).
  2: { unfold ReaderHistory.remove_fragmented_changes_until. rewrite (i_attached _ _ Hi2). cbn [negb].
       rewrite remove_fragmented_complete; [done|rewrite drop_0; by apply (held_complete time_of)|by rewrite drop_0]. }
  destruct (sample_lost_step s2 (WriterProxy.hb_sample_lost hb)) as (l' & El & Hcalls & Hls).
  rewrite (bind_step _ _ _ _ _ El). set (s3 := ReaderHistory.mkReaderHistory (ReaderHistory.hist s2) (with_listener (rd s2) l')).
  assert (informed K s3 i (WriterProxy.hb_proxy hb)) as Hin3.
  { apply (informed_frame K s2); try done; [by apply (inv_frame time_of s2)|]. exists []. by rewrite app_nil_r. }
  destruct (NotifyChanges_catches_up K s3 i _ Hin3) as (s4 & w4 & E4 & [Hin4 En4] & Hch4 & _).
  rewrite (bind_step _ _ _ _ _ E4). rewrite (bind_step _ _ _ _ _ (the_proxy_at s4 i w4 (in_at _ _ _ _ Hin4))).
  assert (length (changes s4) <= S (length (changes s)))%nat as Hlen by (rewrite Hch4; apply Nat.le_succ_diag_r).
  destruct (_ && _ && _ && _); [|by exists true, s4, w4].
  eexists true, _, w4. split; [reflexivity|]. split; [|exact Hlen]. split; [|done]. apply emit_informed; [done|by repeat constructor].
Qed.

(** ** Gaps *)

Lemma found_in_history s seq h it c k :
  History.get_change_nts (ReaderHistory.hist s) seq h it = (Some c, k) → c ∈ changes s.
Proof.
  unfold History.get_change_nts. rewrite search_change_stop. intros E.
  destruct (drop it _ !! _) as [d|] eqn:Ed; [|done]. simpl in E. destruct (SN.eqb _ _); [|done]. injection E as <- _.
  rewrite lookup_drop in Ed. by eapply list_elem_of_lookup_2.
Qed.

(** Steps that teach explained numbers to the proxy at [i]. *)
Definition teaches_explained K s (i : nat) {A} (o : outcome (A * Sys P (list Call * L))) : Prop :=
  ∃ a s' w', o = Done (a, s') ∧ informed K s' i w' ∧ changes s' = changes s.

Lemma teaches_explained_bind {A B} K s i (p : M A) (k : A → M B) :
  teaches_explained K s i (p s) →
  (∀ a s' w', informed K s' i w' → teaches_explained K s' i (k a s')) → teaches_explained K s i ((p ≫= k) s).
Proof.
  intros (a & s' & w' & E & Hin & Hc) Hk. rewrite (bind_step _ _ _ _ _ E).
  destruct (Hk a s' w' Hin) as (b & s'' & w'' & E' & Hin' & Hc'). exists b, s'', w''. split_and!; [done|done|congruence].
Qed.

Lemma gap_change_explains K s i w h seq search it :
  informed K s i w → ok seq → explained K (SN.val seq) → SN.val seq <= top K →
  teaches_explained K s i (gap_change i h seq search it s).
Proof.
  intros Hin Hs Hexp Htop. pose proof (in_inv _ _ _ _ Hin) as Hi. pose proof (in_at _ _ _ _ Hin) as Hw.
  pose proof (proxy_at_inv time_of s i w Hi Hw) as Hp.
  unfold gap_change. rewrite (bind_step _ _ _ _ _ (irrelevant_step s i w seq Hw)).
  destruct (received_learns w seq Hp Hs) as [Hp' Hl]. pose proof (received_vector w seq) as Hvec. pose proof (received_change_set_spec w seq Hp Hs) as Hspec.
  destruct (WriterProxy.received_change_set w seq) as [new w']. cbn [fst snd] in *.
  destruct Hspec as (_ & Hk & _ & _ & Hm & _). pose proof (in_max _ _ _ _ Hin) as Hmax.
  assert (informed K (with_proxy s i w') i w') as Hin'.
  { apply (explained_informed K s i w); [done|done|done|done| |lia]. intros n [| ->]%Hk; [by left|by right]. }
  set (s1 := with_proxy s i w') in *.
  assert (∀ it' : nat, teaches_explained K s i (Done (it', s1))) as Hend by (intros it'; by exists it', s1, w').
  destruct new; [|apply Hend]. rewrite (bind_step history _ _ (ReaderHistory.hist s) s1) by done.
  unfold findCacheInFragmentedProcess.
  destruct (History.get_change_nts _ _ _ _) as [found it1] eqn:E. destruct found as [c|]; [|apply Hend].
  assert (is_fully_assembled c = true) as ->; [|apply Hend].
  pose proof (held_complete time_of s Hi) as Hf. rewrite Forall_forall in Hf. apply Hf. by eapply found_in_history.
Qed.

Lemma gap_range_explains K n s i w h seq it :
  informed K s i w → ok seq → SN.val seq + Z.of_nat n < 2 ^ 63 - 1024 →
  (∀ k, SN.val seq <= k < SN.val seq + Z.of_nat n → explained K k ∧ k <= top K) →
  teaches_explained K s i (gap_range n i h seq it s).
Proof.
  revert s w seq it. induction n as [|n IH]; intros s w seq it Hin Hs Hlt Hexp; cbn [gap_range]; [by exists (seq, it), s, w|].
  destruct (Hexp (SN.val seq)) as [He Ht]; [lia|].
  apply teaches_explained_bind; [by eapply gap_change_explains|]. intros it' s' w' Hin'.
  destruct (ok_incr seq Hs) as [Hs' Ev]; [lia|]. eapply IH; [done|done|lia|]. intros k Hk. apply Hexp. lia.
Qed.

Lemma gap_list_explains K l s i w h aux it :
  informed K s i w → Forall (λ x, ok x ∧ explained K (SN.val x) ∧ SN.val x <= top K) l →
  teaches_explained K s i (gap_list l i h aux it s).
Proof.
  revert s w it. induction l as [|x l IH]; intros s w it Hin Hl; cbn [gap_list]; [by exists tt, s, w|].
  apply Forall_cons in Hl as [(Hx & He & Ht) Hl]. apply teaches_explained_bind; [by eapply gap_change_explains|].
  intros it' s' w' Hin'. by eapply IH.
Qed.

Lemma processGapMsg_keeps_up K s i w start (gl : SequenceNumberSet_t) :
  caught_up K s i w → valid_gap start gl → BitmapFacts.inv gl →
  (∀ n, SN.val start <= n < SN.val (BitmapRange.base gl) ∨ BitmapFacts.mem gl n → explained K n ∧ n <= top K) →
  keeps_up K s i (processGapMsg cfg ndebug g start gl s).
Proof.
  intros Hcu (Hst & Hb & Hl) Hset Hexp. pose proof Hcu as [Hin En]. pose proof (in_inv _ _ _ _ Hin) as Hi. pose proof (in_at _ _ _ _ Hin) as Hw.
  unfold processGapMsg. rewrite (bind_step reader _ _ (rd s) s) by done. rewrite (wo_alive _ (i_writers _ _ Hi)). cbn [negb orb].
  rewrite SN.ltb_val, SN.leb_val by (done || apply Hb || (split; range_unfold; simpl; lia)).
  destruct (Z.ltb_spec (SN.val start) (SN.val (SN.mkSN 0 1))) as [|H1]; [by eapply keeps_up_here|].
  destruct (Z.leb_spec (SN.val (BitmapRange.base gl)) (SN.val start)) as [|H2]; [by eapply keeps_up_here|]. cbn [orb].
  change (SN.val (SN.mkSN 0 1)) with 1 in H1.
  rewrite (accept_here K s i w Hin).
  rewrite (bind_step _ _ _ _ _ (the_proxy_at s i w Hw)). cbv zeta.
  destruct (gap_range_explains K (Z.to_nat (SN.val (BitmapRange.base gl) - SN.val start)) s i w (guid w) start 0 Hin)
    as ([aux it] & s1 & w1 & E1 & Hin1 & Hc1).
  { split; [done|]. destruct Hb. lia. }
  { destruct Hb. lia. }
  { intros k Hk. apply Hexp. left. lia. }
  rewrite (bind_step _ _ _ _ _ E1).
  destruct (gap_list_explains K (BitmapRange.for_each gl) s1 i w1 (guid w) aux it Hin1) as ([] & s2 & w2 & E2 & Hin2 & Hc2).
  { rewrite Forall_forall in Hl. apply Forall_forall. intros x Hx. split; [by apply Hl|]. apply Hexp. right.
    assert (SN.val x ∈ SN.val <$> BitmapRange.for_each gl) as Hv by (by apply list_elem_of_fmap_2).
    change (SN.val x ∈ item_val <$> BitmapRange.for_each gl) in Hv.
    rewrite (BitmapFacts.for_each_spec gl Hset) in Hv. by apply list_elem_of_filter in Hv as [? _]. }
  rewrite (bind_step _ _ _ _ _ E2).
  destruct (NotifyChanges_catches_up K s2 i w2 Hin2) as (s3 & w3 & E3 & Hcu3 & Hch & _).
  rewrite (bind_step _ _ _ _ _ E3). exists true, s3, w3. split_and!; [done|done|]. rewrite Hch, Hc2, Hc1. lia.
Qed.

(** ** The application *)

(** A sample that is taken was told of before. *)
Lemma take_keeps_up K s i w h seq :
  caught_up K s i w → (h = g → SN.val seq <= low w) → Guid.wf h → keeps_up K s i (remove_change h seq s).
Proof.
  intros Hcu Hseq Hwf. pose proof Hcu as [Hin En]. pose proof (in_inv _ _ _ _ Hin) as Hi. unfold remove_change.
  destruct (history_remove_change s (History.reference_change h seq) (i_attached _ _ Hi)) as (s1 & b & -> & Hs1).
  destruct Hs1 as [->|(k & c & Hk & Hm & Eh & Er)]; [by eapply keeps_up_here|].
  destruct (removal_inv time_of s k c Hi Hk) as (Hi1 & (_ & _ & u & p & l & E) & Hl).
  set (s' := ReaderHistory.mkReaderHistory _ _) in Hi1, E, Hl.
  assert (s1 = s') as -> by (unfold s'; rewrite <-Eh, <-Er; by destruct s1).
  assert (calls (rd s') = calls (rd s)) as Ec by (unfold calls; by rewrite Hl).
  assert (changes s' = delete k (changes s)) as Ech by done. destruct Hin as [_ Hw Hg Hv Hls Htold Hkn Hsa Hor Hbe Hmax Hlow Ha].
  exists b, s', w. split; [done|]. split; [|rewrite Ech; pose proof (sublist_length _ _ (sublist_delete k (changes s))); lia].
  split; [|done]. split; [done|by rewrite E|done|done|by rewrite Hl| | | |by rewrite Ec|by rewrite Ec|done|done|by rewrite E].
  - intros d Hd. rewrite Ec. apply Htold. rewrite Ech in Hd. eapply elem_of_sublist; [exact Hd|apply sublist_delete].
  - intros n [|(d & [Hd|Hd] & Eg & Edn)]%Hkn; [by left|right..]; [|exists d; split; [right; by rewrite Ec|done]].
    apply list_elem_of_lookup in Hd as [j Hj]. destruct (decide (j = k)) as [->|Hne].
    + assert (d = c) as -> by congruence. exists (with_read c false). split_and!; [right; rewrite Ec|done..].
      apply Htold; [by eapply list_elem_of_lookup_2|done|]. rewrite En.
      unfold ReaderHistory.reader_matches in Hm. apply andb_true_iff in Hm as [Hsn%SN.eqb_eq Hgu].
      pose proof (i_timed _ _ Hi) as Ht. rewrite Forall_forall in Ht.
      destruct (Ht c (list_elem_of_lookup_2 _ _ _ Hk)) as ((_ & Hcw) & _). apply Guid.guid_eqb_eq in Hgu; [|done|done].
      unfold number. rewrite Hsn. apply Hseq. simpl in Hgu. congruence.
    + exists d. split; [left|done]. rewrite Ech. apply (list_elem_of_delete_other k j); done.
  - intros d [Hd|Hd] Ed; apply Hsa; try done; [left|right; by rewrite <-Ec].
    rewrite Ech in Hd. eapply elem_of_sublist; [exact Hd|apply sublist_delete].
Qed.

Lemma read_keeps_up K s i w : caught_up K s i w → keeps_up K s i (get_unread_count ndebug true s).
Proof.
  intros Hcu. pose proof Hcu as [[Hi Hw Hg Hv Hls Htold Hkn Hsa Hor Hbe Hmax Hlow Ha] En]. rewrite (get_unread_count_spec time_of) by done.
  pose proof (marked_inv time_of s Hi) as Hi'. set (s' := at_count s (rd s) (mark (rd s) <$> changes s) 0) in *.
  assert (changes s' = mark (rd s) <$> changes s) as Ech by done.
  assert (∀ c, with_read (mark (rd s) c) false = with_read c false) as Hsame by (intros c; unfold mark; by case_bool_decide).
  assert (∀ c, writerGUID (mark (rd s) c) = writerGUID c ∧ number (mark (rd s) c) = number c) as Hid
    by (intros c; unfold mark; by case_bool_decide).
  eexists _, s', w. split; [reflexivity|]. split; [|rewrite Ech, length_fmap; lia].
  split; [|done]. split; try done.
  - intros c (d & -> & Hd)%list_elem_of_fmap. destruct (Hid d) as [-> ->]. rewrite Hsame. by apply Htold.
  - intros n [|(c & [Hc|Hc] & Hrest)]%Hkn; [by left|right..]; [|exists c; split; [by right|done]].
    exists (mark (rd s) c). split; [left; rewrite Ech; by apply list_elem_of_fmap_2|]. by destruct (Hid c) as [-> ->].
  - intros c [(d & -> & Hd)%list_elem_of_fmap|Hc] Ec; [|apply Hsa; [by right|done]]. rewrite Hsame.
    apply Hsa; [by left|]. by destruct (Hid d) as [<- _].
Qed.

(** ** Acknowledgements *)

Lemma set_proxy_caught_up K s i w w' :
  caught_up K s i w → proxy_inv w' → learns w w' → WriterProxy.guid_as_vector_ w' = WriterProxy.guid_as_vector_ w →
  (∀ n, known w' n → known w n) → low w' = low w → maxv w' = maxv w →
  modify (λ r, set_proxy r i w') s = Done (tt, with_proxy s i w') ∧ caught_up K (with_proxy s i w') i w'.
Proof.
  intros [Hin En] Hp Hl Hv Hk Elow Emax. split; [done|]. pose proof (in_max _ _ _ _ Hin) as Hm. split.
  - apply (explained_informed K s i w); [done|done|done|done| |lia]. intros n Hn. left. by apply Hk.
  - destruct Hl as (_ & _ & -> & _). lia.
Qed.

(** No change of the history misses fragments, so all numbers are asked for. *)
Lemma ask_missing_spec l s (sns : SequenceNumberSet_t) it :
  inv s → BitmapFacts.exact sns → Forall SN.wf l →
  ∃ sns', ask_missing l g sns it s = Done (sns', s) ∧ BitmapFacts.exact sns' ∧ BitmapRange.base sns' = BitmapRange.base sns ∧
    ∀ y, BitmapFacts.mem sns' y ↔ BitmapFacts.mem sns y ∨
      y ∈ SN.val <$> l ∧ SN.val (BitmapRange.base sns) <= y <= SN.val (BitmapRange.range_max_ sns).
Proof.
  intros Hi. revert sns it. induction l as [|x l IH]; intros sns it Hs Hl; cbn [ask_missing].
  { exists sns. split_and!; try done. intros y. split; [by left|]. intros [|[[]%elem_of_nil _]]; done. }
  apply Forall_cons in Hl as [Hx Hl]. rewrite (bind_step history _ _ (ReaderHistory.hist s) s) by done.
  unfold findCacheInFragmentedProcess. destruct (History.get_change_nts _ _ _ _) as [found k] eqn:E.
  assert (match found with Some c => if is_fully_assembled c then None else Some c | None => None end = None) as ->.
  { destruct found as [c|]; [|done]. pose proof (held_complete time_of s Hi) as Hf. rewrite Forall_forall in Hf.
    rewrite Hf; [done|]. by eapply found_in_history. }
  destruct (BitmapFacts.add_spec sns x (proj1 Hs) Hx) as (_ & _ & Hb & Hmax & Hs' & Hmem).
  destruct (IH (BitmapRange.add sns x).2 (if (k <? length (History.m_changes (ReaderHistory.hist s)))%nat then k else it) (Hs' Hs) Hl)
    as (sns' & E' & Hi' & Hb' & Hm').
  exists sns'. unfold BitmapRange.base in *. split_and!; [exact E'|done|congruence|].
  intros y. rewrite Hm', Hmem, Hb, Hmax, fmap_cons, elem_of_cons, andb_true_iff, !Z.leb_le. simpl item_val. naive_solver.
Qed.

Lemma covered_base w (sns : SequenceNumberSet_t) :
  proxy_inv w → BitmapFacts.inv sns → BitmapRange.base sns = SN.add_u32 (WriterProxy.changes_from_writer_low_mark_ w) 1 →
  (∀ n, BitmapFacts.mem sns n → n <= maxv w) → covered w sns.
Proof.
  intros Hp Hs Eb Hm. destruct (ok_succ _ (pi_low _ Hp)) as [Hw Hv]. pose proof (pi_low _ Hp) as [_ Hr].
  split; [done|rewrite Eb, Hv; split; [done|lia]|intros n; rewrite Eb, Hv; lia|done].
Qed.

Lemma acknowledge_step K s i w sns final :
  caught_up K s i w → covered w sns →
  ∃ s', modify (λ r, let count := u32 (acknack_count_ r + 1) in
      emit (with_counts r count (nackfrag_count_ r)) [AckNack g sns count final]) s = Done (tt, s') ∧
    caught_up K s' i w ∧ changes s' = changes s ∧ log (rd s') = log (rd s) ++ [AckNack g sns (u32 (acknack_count_ (rd s) + 1)) final].
Proof.
  intros [[Hi Hw Hg Hv Hls Htold Hkn Hsa Hor Hbe Hmax Hlow Ha] En] Hcov. eexists. split; [reflexivity|].
  split; [|done].
  split; [|done]. split; try done; [by apply (inv_frame time_of s)|].
  intros sns' count' final' [Hin|Hin]%elem_of_app; [by eapply Ha|]. apply list_elem_of_singleton in Hin. congruence.
Qed.

Lemma acknowledge_keeps_up K s i w sns final :
  caught_up K s i w → covered w sns →
  keeps_up K s i (modify (λ r, let count := u32 (acknack_count_ r + 1) in
    emit (with_counts r count (nackfrag_count_ r)) [AckNack g sns count final]) s).
Proof.
  intros Hcu Hcov. destruct (acknowledge_step K s i w sns final Hcu Hcov) as (s' & -> & Hcu' & Hch & _).
  exists tt, s', w. split_and!; [done|done|rewrite Hch; lia].
Qed.

(** The set of an acknowledgement starts at the first unknown number, and names it if it
    is missing. *)
Lemma acknack_set s i w :
  inv s → writers (rd s) !! i = Some w →
  ∃ sns, ask_missing (BitmapRange.for_each (WriterProxy.missing_changes w)) g
      (BitmapRange.make (SN.add_u32 (WriterProxy.available_changes_max w) 1)) 0 s = Done (sns, s) ∧
    BitmapFacts.exact sns ∧ covered w sns ∧ SN.val (BitmapRange.base sns) = low w + 1 ∧
    (low w < maxv w → BitmapFacts.mem sns (low w + 1)).
Proof.
  intros Hi Hw. pose proof (proxy_at_inv time_of s i w Hi Hw) as Hp.
  destruct (missing_changes_spec w Hp) as ([Hmi _] & _ & _ & Hmem). destruct (ok_succ _ (pi_low _ Hp)) as [Hbw Hbv].
  destruct (BitmapFacts.make_spec (SN.add_u32 (WriterProxy.changes_from_writer_low_mark_ w) 1)) as (Hset & Hbase & Hfull & Hnone).
  { split; [done|]. simpl. rewrite Hbv. pose proof (pi_low _ Hp) as [_ Hr]. unfold BitmapRange.NBITS. lia. }
  destruct (ask_missing_spec (BitmapRange.for_each (WriterProxy.missing_changes w)) s
    (BitmapRange.make (SN.add_u32 (WriterProxy.available_changes_max w) 1)) 0 Hi Hset (BitmapFacts.for_each_wf _ Hmi))
    as (sns & E & Hsns & Hb & Hm).
  change (WriterProxy.available_changes_max w) with (WriterProxy.changes_from_writer_low_mark_ w) in Hb, Hm.
  unfold BitmapRange.base in *. rewrite Hbase in Hb, Hm.
  assert (SN.val (BitmapRange.range_max_ (BitmapRange.make (SN.add_u32 (WriterProxy.changes_from_writer_low_mark_ w) 1))) =
    low w + 1 + BitmapRange.NBITS - 1) as Hmax by (rewrite <-Hbv; unfold BitmapFacts.full in Hfull; rewrite Hbase in Hfull; exact Hfull).
  rewrite Hmax in Hm.
  assert (∀ n, n ∈ SN.val <$> BitmapRange.for_each (WriterProxy.missing_changes w) ↔ BitmapFacts.mem (WriterProxy.missing_changes w) n) as Hall.
  { intros n. change (n ∈ item_val <$> BitmapRange.for_each (WriterProxy.missing_changes w) ↔ BitmapFacts.mem (WriterProxy.missing_changes w) n).
    rewrite (BitmapFacts.for_each_spec _ Hmi), list_elem_of_filter, elem_of_seqZ.
    split; [by intros [? _]|]. intros Hn. split; [done|]. apply BitmapFacts.mem_iff in Hn. lia. }
  exists sns. split; [exact E|]. split; [done|]. split; [|split; [by rewrite Hb|]].
  - apply covered_base; [done|apply Hsns|exact Hb|]. intros n [[]%Hnone|[Hn _]]%Hm. apply Hall, Hmem in Hn. lia.
  - intros Hlt. apply Hm. right. rewrite Hall, Hmem, Hbv. unfold BitmapRange.NBITS.
    destruct (low_mark_first_unknown w Hp) as [Hno _]. split; [|lia]. split; [lia|]. split; [lia|done].
Qed.

Lemma send_acknack_keeps_up K s i w final : caught_up K s i w → keeps_up K s i (send_acknack w final s).
Proof.
  intros Hcu. pose proof Hcu as [Hin En]. pose proof (in_inv _ _ _ _ Hin) as Hi. pose proof (in_at _ _ _ _ Hin) as Hw.
  unfold send_acknack. destruct (WriterProxy.is_alive_ w); cbn [negb]; [|by eapply keeps_up_here].
  destruct (WriterProxy.is_datasharing_writer_ w); [by eapply keeps_up_here|]. cbv zeta.
  destruct (_ || _); [|by eapply keeps_up_here]. pose proof (in_vector _ _ _ _ Hin) as Hv.
  destruct (RLV.collection_ (WriterProxy.guid_as_vector_ w)) as [|h gs]; [done|]. simpl in Hv. injection Hv as ->.
  destruct (acknack_set s i w Hi Hw) as (sns & E & _ & Hcov & _). rewrite (bind_step _ _ _ _ _ E).
  by apply (acknowledge_keeps_up K s i w).
Qed.

(** Something is done after the proxy changed its state or its timers. *)
Lemma after_proxy K s i w w' {A} (k : M A) :
  caught_up K s i w → (∃ hb ia st, w' = WriterProxy.with_state (WriterProxy.with_timers w hb ia) st) →
  (∀ s', caught_up K s' i w' → keeps_up K s' i (k s')) →
  keeps_up K s i ((modify (λ r, set_proxy r i w');; k) s).
Proof.
  intros Hcu (hb & ia & st & Ew) Hk. pose proof Hcu as [Hin _].
  pose proof (proxy_at_inv time_of s i w (in_inv _ _ _ _ Hin) (in_at _ _ _ _ Hin)) as Hp.
  destruct (set_proxy_caught_up K s i w w' Hcu) as [E Hcu'].
  { rewrite Ew. by apply with_state_inv, with_timers_inv. }
  1-5: by rewrite Ew.
  rewrite (bind_step _ _ _ _ _ E). destruct (Hk _ Hcu') as (a & s' & w2 & E2 & Hcu2 & Hl). by exists a, s', w2.
Qed.

Lemma send_for_keeps_up K s i w e :
  caught_up K s i w → (∀ sns, e = WriterProxy.SendAckNack sns → covered w sns) → keeps_up K s i (send_for i e s).
Proof.
  intros Hcu Hcov. pose proof Hcu as [Hin _]. pose proof (in_at _ _ _ _ Hin) as Hw.
  destruct e as [| |sns|final|]; cbn [send_for]; try (by eapply keeps_up_here);
    rewrite (bind_step _ _ _ _ _ (the_proxy_at s i w Hw)); [|by apply send_acknack_keeps_up].
  unfold send_acknack_set. destruct (WriterProxy.is_alive_ w); cbn [negb]; [|by eapply keeps_up_here].
  destruct (WriterProxy.is_on_same_process_ w); [by eapply keeps_up_here|]. rewrite (in_guid _ _ _ _ Hin).
  apply (acknowledge_keeps_up K s i w); [done|by apply Hcov].
Qed.

(** A callback sends at most one message. *)
Lemma send_all_keeps_up K s i w effects :
  caught_up K s i w → (length effects <= 1)%nat → (∀ sns, WriterProxy.SendAckNack sns ∈ effects → covered w sns) →
  keeps_up K s i (foldr (λ e k, send_for i e;; k) (mret tt) effects s).
Proof.
  intros Hcu Hlen Hcov. destruct effects as [|e [|]]; simpl in Hlen; [by eapply keeps_up_here| |lia]. cbn [foldr].
  destruct (send_for_keeps_up K s i w e Hcu) as ([] & s' & w' & E & Hcu' & Hl).
  { intros sns ->. apply Hcov. by left. }
  rewrite (bind_step _ _ _ _ _ E). by exists tt, s', w'.
Qed.

Lemma heartbeat_response_keeps_up K s i w : caught_up K s i w → keeps_up K s i (heartbeat_response i s).
Proof.
  intros Hcu. unfold heartbeat_response. rewrite (bind_step _ _ _ _ _ (the_proxy_at s i w (in_at _ _ _ _ (proj1 Hcu)))).
  assert (∃ effects hb ia st, WriterProxy.perform_heartbeat_response w =
      (effects, WriterProxy.with_state (WriterProxy.with_timers w hb ia) st) ∧ (length effects <= 1)%nat ∧
      ∀ sns, WriterProxy.SendAckNack sns ∉ effects) as (effects & hb & ia & st & -> & Hlen & Hno).
  { unfold WriterProxy.perform_heartbeat_response, WriterProxy.enter_busy. case_decide as Est.
    - eexists _, (WriterProxy.heartbeat_response_ w), (WriterProxy.initial_acknack_ w), WriterProxy.IDLE. destruct w.
      split; [reflexivity|]. split; [done|]. by intros sns ?%list_elem_of_singleton.
    - eexists _, (WriterProxy.heartbeat_response_ w), (WriterProxy.initial_acknack_ w), (WriterProxy.state_ w). destruct w.
      split; [reflexivity|]. split; [simpl; lia|]. intros sns ?%elem_of_nil. done. }
  eapply after_proxy; [exact Hcu|by exists hb, ia, st|]. intros s' Hcu'. eapply send_all_keeps_up; [exact Hcu'|done|].
  intros sns Hin. by destruct (Hno sns).
Qed.

(** A reader that misses its next number asks for it. *)
Lemma heartbeat_response_asks K s i w :
  caught_up K s i w → WriterProxy.state_ w = WriterProxy.IDLE → WriterProxy.is_datasharing_writer_ w = false → low w < maxv w →
  ∃ s' w' sns, heartbeat_response i s = Done (tt, s') ∧ caught_up K s' i w' ∧ low w' = low w ∧
    log (rd s') = log (rd s) ++ [AckNack g sns (u32 (acknack_count_ (rd s) + 1)) (BitmapRange.empty sns)] ∧ BitmapFacts.exact sns ∧
    SN.val (BitmapRange.base sns) = low w + 1 ∧ BitmapFacts.mem sns (low w + 1).
Proof.
  intros Hcu Hst Hds Hlt. pose proof Hcu as [Hin En]. pose proof (in_at _ _ _ _ Hin) as Hw. pose proof (in_inv _ _ _ _ Hin) as Hi.
  set (w' := WriterProxy.leave_busy (WriterProxy.with_state w WriterProxy.BUSY)).
  assert (heartbeat_response i s = (modify (λ r, set_proxy r i w');;
    (w ← the_proxy i; send_acknack w (WriterProxy.heartbeat_final_flag_ w'));; mret tt) s) as ->.
  { unfold heartbeat_response. rewrite (bind_step _ _ _ _ _ (the_proxy_at s i w Hw)).
    unfold WriterProxy.perform_heartbeat_response, WriterProxy.enter_busy. by rewrite decide_True. }
  assert (proxy_inv w') as Hp' by (unfold w'; apply with_state_inv, with_state_inv; by apply (proxy_at_inv time_of s i)).
  destruct (set_proxy_caught_up K s i w w' Hcu Hp') as [E Hcu']; [done..|]. rewrite (bind_step _ _ _ _ _ E).
  pose proof Hcu' as [Hin' _]. set (s1 := with_proxy s i w') in *. pose proof (in_at _ _ _ _ Hin') as Hw1.
  destruct (acknack_set s1 i w' (in_inv _ _ _ _ Hin') Hw1) as (sns & Ea & Hex & Hcov & Hb & Hmem).
  destruct (acknowledge_step K s1 i w' sns (BitmapRange.empty sns) Hcu' Hcov) as (s2 & E2 & Hcu2 & _ & Hlog).
  assert ((w ← the_proxy i; send_acknack w (WriterProxy.heartbeat_final_flag_ w')) s1 = Done (tt, s2)) as Es.
  { rewrite (bind_step _ _ _ _ _ (the_proxy_at s1 i w' Hw1)). unfold send_acknack.
    pose proof (i_writers _ _ Hi) as [_ Hp _ _ _]. rewrite Forall_forall in Hp.
    destruct (Hp w (list_elem_of_lookup_2 _ _ _ Hw)) as (Hpw & Ha & _).
    assert (WriterProxy.is_alive_ w' = true) as -> by exact Ha. cbn [negb].
    assert (WriterProxy.is_datasharing_writer_ w' = false) as -> by exact Hds. cbv zeta.
    destruct (missing_changes_spec w' Hp') as (Hexm & _ & _ & Hmm).
    assert (BitmapRange.empty (WriterProxy.missing_changes w') = false) as ->.
    { apply not_true_iff_false. intros Hem. apply (proj1 (BitmapFacts.empty_spec _ Hexm) Hem (low w + 1)). apply Hmm. change (low w') with (low w). change (maxv w') with (maxv w).
      unfold BitmapRange.NBITS. split; [lia|]. split; [lia|]. exact (proj1 (low_mark_first_unknown w' Hp')). }
    cbn [negb orb]. pose proof (in_vector _ _ _ _ Hin') as Hv.
    destruct (RLV.collection_ (WriterProxy.guid_as_vector_ w')) as [|h gs]; [done|]. simpl in Hv. injection Hv as ->.
    rewrite (bind_step _ _ _ _ _ Ea). exact E2. }
  rewrite (bind_step _ _ _ _ _ Es). exists s2, w', sns. split_and!; try done. by apply Hmem.
Qed.

(** The first message acknowledges nothing. *)
Lemma initial_covered w : proxy_inv w → covered w (BitmapRange.make (SN.mkSN 0 0)).
Proof.
  intros Hp. destruct (BitmapFacts.make_spec (SN.mkSN 0 0)) as ([Hset _] & Hb & _ & Hnone).
  { split; [split; range_unfold; simpl; lia|vm_compute; done]. }
  pose proof (pi_low _ Hp) as [_ Hr]. change (BitmapRange.base_ (BitmapRange.make (SN.mkSN 0 0))) with
    (BitmapRange.base (BitmapRange.make (SN.mkSN 0 0))) in Hb.
  split; [done|rewrite Hb; split; [split; range_unfold; simpl; lia|vm_compute; done]| |by intros n []%Hnone].
  intros n. rewrite Hb. change (SN.val (SN.mkSN 0 0)) with 0. lia.
Qed.

Lemma initial_acknack_keeps_up K s i w : caught_up K s i w → keeps_up K s i (initial_acknack i s).
Proof.
  intros Hcu. unfold initial_acknack. rewrite (bind_step _ _ _ _ _ (the_proxy_at s i w (in_at _ _ _ _ (proj1 Hcu)))).
  assert (∃ b effects hb ia st, WriterProxy.perform_initial_ack_nack false w =
      (b, effects, WriterProxy.with_state (WriterProxy.with_timers w hb ia) st) ∧ (length effects <= 1)%nat ∧
      ∀ sns, WriterProxy.SendAckNack sns ∈ effects → sns = BitmapRange.make (SN.mkSN 0 0))
    as (b & effects & hb & ia & st & -> & Hlen & Hsns).
  { unfold WriterProxy.perform_initial_ack_nack, WriterProxy.enter_busy, WriterProxy.initial_ack_nack_body. case_decide as Est.
    2: { eexists _, _, (WriterProxy.heartbeat_response_ w), (WriterProxy.initial_acknack_ w), (WriterProxy.state_ w). destruct w.
         split; [reflexivity|]. split; [simpl; lia|]. by intros sns ?%elem_of_nil. }
    destruct w; simpl. repeat case_match; simplify_eq; eexists _, _, _, _, _; (split; [reflexivity|]); (split; [simpl; lia|]);
      intros sns; try (by intros ?%elem_of_nil); intros ?%list_elem_of_singleton; congruence. }
  eapply after_proxy; [exact Hcu|by exists hb, ia, st|]. intros s' Hcu'. eapply send_all_keeps_up; [exact Hcu'|done|].
  intros sns ->%Hsns. apply initial_covered. apply (proxy_at_inv time_of s' i); apply Hcu'.
Qed.

End knowledge.
End ReaderKnowledge.
