(* ===== verification/Exchange.v ===== *)
(** * A writer and a reader over a lossy network

    A stateful writer and a stateful reader of it, and between them a network that may
    lose, repeat and reorder what is sent: any submessage that was ever sent to the reader
    may arrive at any time, and so may any acknowledgement of the reader.  What the writer
    counts as acknowledged the reader's application was told of, octet for octet. *)

From S2P Require Import Prelude.
From S2P Require Import SeqNum.
From S2P Require Import Bitmap.
From S2P Require Import BitmapFacts.
From S2P Require Import Containers.
From S2P Require Import Guid.
From S2P Require Import CacheChange.
From S2P Require Import Pools.
From S2P Require Import GapBuilder.
From S2P Require Import History.
From S2P Require Import HistoryFacts.
From S2P Require Import ReaderProxy.
From S2P Require Import ReaderProxyFacts.
From S2P Require Import StatefulWriter.
From S2P Require Import StatefulWriterFacts.
From S2P Require Import StatefulWriterOps.
From S2P Require Import StatefulWriterMatching.
From S2P Require Import StatefulWriterRuns.
From S2P Require Import WriterProxy.
From S2P Require Import WriterProxyFacts.
From S2P Require Import RTPSReader.
From S2P Require Import StatefulReader.
From S2P Require Import StatefulReaderFacts.
From S2P Require Import ReaderKnowledge.

Module Exchange.
Import CacheChange HistorySearch.
Import StatefulWriter(WriterEnv, Submessage, DATA, DATA_FRAG, GAP, HEARTBEAT).
Import WriterFacts(WriterEnvLaws).
#[local] Existing Instance StatefulFacts.traced.
#[local] Existing Instance WriterFacts.same_reader_preorder.

Section exchange.
Context {E : Type} `{!WriterEnv E} `{!WriterEnvLaws E}.
Context {P L : Type} `{!ReaderPools P} `{!ReaderPoolsLaws P} `{!ReaderListener L}.
Context (ndebug : bool) (rcfg : StatefulReader.Config).
Context (wanted : Guid.GUID_t → CacheChange_t → Prop) (time_of : Guid.GUID_t → Z → Z).
Hypothesis time_mono : ∀ g n m, n < m → time_of g n < time_of g m.
Hypothesis listens : StatefulFacts.patient (L := L).
Context (wg rg : Guid.GUID_t).
Hypothesis rg_wf : Guid.wf rg.
Hypothesis wg_known : Guid.eqb wg Guid.c_Guid_Unknown = false.

Abbreviation WSys := (StatefulWriter.Sys E).
Abbreviation RSys := (StatefulReader.Sys P (list StatefulFacts.Call * L)).
Abbreviation rd := StatefulFacts.rd.
Abbreviation wr := WriterFacts.wr.
Abbreviation messages := WriterFacts.messages.

Record System := mkSystem { writer_end : WSys; reader_end : RSys }.
Implicit Types x : System.

(** ** Steps *)

(** A sample as it left the writer and as it is at the reader. *)
Record same_sample (c c' : CacheChange_t) : Prop := {
  ss_number : sequenceNumber c' = sequenceNumber c;
  ss_kind : kind c' = kind c;
  ss_source : sourceTimestamp c' = sourceTimestamp c;
  ss_length : Payload.length (serializedPayload c') = Payload.length (serializedPayload c);
  ss_octets : take (Z.to_nat (Payload.length (serializedPayload c))) (octets_of c') =
              take (Z.to_nat (Payload.length (serializedPayload c))) (octets_of c)
}.

(** [received] is what the message receiver makes of a data submessage with [c]. *)
Definition received_as (c received : CacheChange_t) : Prop :=
  same_sample c received ∧ writerGUID received = wg ∧ isRead received = false ∧ fragment_size_ received = 0.

Inductive Step :=
  | AtWriter (op : WriterRuns.Op)
  | DataArrives (d : list Guid.GUID_t) (c : CacheChange_t) (q : bool) (received : CacheChange_t) (now : Time_t)
  | HeartbeatArrives (d : list Guid.GUID_t) (first last : SN.SequenceNumber_t) (count : Z) (final liveliness : bool)
  | GapArrives (d : list Guid.GUID_t) (gap : Gap)
  | AckNackArrives (sns : SequenceNumberSet_t) (count : Z) (final : bool)
  | InitialAckNack (i : nat)
  | HeartbeatResponse (i : nat)
  | Take (g : Guid.GUID_t) (seq : SN.SequenceNumber_t)
  | ReadAll.

Definition at_writer {A} (p : stateful WSys A) : stateful System unit := λ x,
  '(_, w) ← p (writer_end x); Done (tt, mkSystem w (reader_end x)).

Definition at_reader {A} (p : stateful RSys A) : stateful System unit := λ x,
  '(_, r) ← p (reader_end x); Done (tt, mkSystem (writer_end x) r).

Definition run (st : Step) : stateful System unit :=
  match st with
  | AtWriter op => at_writer (WriterRuns.perform ndebug op)
  | DataArrives _ _ _ received now => at_reader (StatefulReader.processDataMsg rcfg ndebug received now)
  | HeartbeatArrives _ first last count final liveliness =>
      at_reader (StatefulReader.processHeartbeatMsg rcfg ndebug wg count first last final liveliness)
  | GapArrives _ gap => at_reader (StatefulReader.processGapMsg rcfg ndebug wg (gap_start gap) (gap_list gap))
  | AckNackArrives sns count final => at_writer (WriterRuns.perform ndebug (WriterRuns.AckNack wg rg count sns final))
  | InitialAckNack i => at_reader (StatefulReader.initial_acknack i)
  | HeartbeatResponse i => at_reader (StatefulReader.heartbeat_response i)
  | Take g seq => at_reader (StatefulReader.remove_change g seq)
  | ReadAll => at_reader (StatefulReader.get_unread_count ndebug true)
  end.

Definition proxy_of (r : RSys) (w : WriterProxy.WriterProxy) : Prop :=
  w ∈ StatefulReader.writers (rd r) ∧ StatefulReader.guid w = wg.

(** What may happen: the writer's own steps; submessages that were sent to the reader and
    acknowledgements it has sent arrive; its timers run; its application takes what it was
    told of.  The writer's steps are those of [WriterRuns.admissible]: samples are not split
    into fragments, and a reader joins when it wants nothing of the history.  The reader has
    room for what it gets and no filter drops it, and the writer's samples have rising times.
    Its first acknowledgement, with base zero, arrives only while nothing of the history
    counts as acknowledged by it, unless it is volatile. *)
Definition admissible x (st : Step) : Prop :=
  let w := writer_end x in
  let r := reader_end x in
  match st with
  | AtWriter op => WriterRuns.admissible wanted w op ∧
      match op with WriterRuns.AckNack _ g _ _ _ => Guid.eqb rg g = false | _ => True end
  | DataArrives d c q received now =>
      (d, DATA c q) ∈ messages w ∧ rg ∈ d ∧ received_as c received ∧ StatefulFacts.timed time_of received ∧
      ¬ StatefulFacts.too_large r (Payload.length (serializedPayload received)) ∧
      RTPSReader.RTPSReader.change_is_relevant_for_filter received (StatefulReader.m_guid (rd r)) (StatefulReader.data_filter_ rcfg) = true ∧
      Z.of_nat (length (StatefulFacts.changes r)) + 1 < 2 ^ 63
  | HeartbeatArrives d first last count final liveliness => (d, HEARTBEAT first last count final liveliness) ∈ messages w ∧ rg ∈ d
  | GapArrives d gap => (d, GAP gap) ∈ messages w ∧ rg ∈ d
  | AckNackArrives sns count final =>
      StatefulReader.AckNack wg sns count final ∈ StatefulReader.log (rd r) ∧
      (BitmapRange.base sns ≠ SN.default ∨
       ∀ p, p ∈ StatefulWriter.readers (wr w) → ReaderProxy.guid p = rg →
         ReaderProxy.durability_kind_ p = ReaderLocator.VOLATILE ∨ WriterOps.untouched (WriterFacts.stored w) p)
  | InitialAckNack i | HeartbeatResponse i => StatefulReader.guid <$> StatefulReader.writers (rd r) !! i = Some wg
  | Take g seq => Guid.wf g ∧ (g = wg → ∀ p, proxy_of r p → SN.val seq <= low p)
  | ReadAll => True
  end.

(** ** The invariant *)

(** What the writer has told the reader. *)
Definition story (w : WSys) (floor : Z) : ReaderKnowledge.Story := {|
  ReaderKnowledge.explained n := n <= 0 ∨
    (∃ d gap, (d, GAP gap) ∈ messages w ∧ rg ∈ d ∧ GapBuilder.announces gap n) ∨
    (∃ d first last count final live, (d, HEARTBEAT first last count final live) ∈ messages w ∧ n < SN.val first);
  ReaderKnowledge.sample c' := ∃ d c q, (d, DATA c q) ∈ messages w ∧ same_sample c c';
  ReaderKnowledge.top := WriterFacts.last_num w;
  ReaderKnowledge.floor := floor
|}.

Lemma story_goes_on (w w' : WSys) floor :
  messages w `prefix_of` messages w' → WriterFacts.last_num w <= WriterFacts.last_num w' →
  ReaderKnowledge.goes_on (story w floor) (story w' floor).
Proof.
  intros Hpre Hlast. split; simpl; [| |done|lia].
  - intros n [|[(d & gap & Hm & Hrest)|(d & first & last & count & final & live & Hm & Hrest)]]; [by left|right; left|right; right].
    + exists d, gap. split; [by eapply elem_of_prefix|done].
    + exists d, first, last, count, final, live. split; [by eapply elem_of_prefix|done].
  - intros c' (d & c & q & Hm & Hs). exists d, c, q. split; [by eapply elem_of_prefix|done].
Qed.

Abbreviation caught_up := (ReaderKnowledge.caught_up time_of wg).

(** The writer counts as acknowledged only what the reader knows. *)
Definition agreed (w : WSys) (known_to : Z) : Prop :=
  ∀ p c, p ∈ StatefulWriter.readers (wr w) → ReaderProxy.guid p = rg → ReaderProxy.is_reliable_ p = true →
    c ∈ WriterFacts.stored w → wanted rg c → number c <= SN.val (ReaderProxy.changes_low_mark_ p) → number c <= known_to.

(** The reader's proxy of the writer is [wp], at [i]. *)
Definition linked_by x (i : nat) (wp : WriterProxy.WriterProxy) : Prop :=
  WriterRuns.ready wanted (writer_end x) ∧ caught_up (story (writer_end x) (low wp)) (reader_end x) i wp ∧
  agreed (writer_end x) (low wp).

Definition linked x : Prop := ∃ i wp, linked_by x i wp.

(** ** Steps of the reader *)

Lemma moved_on x i wp wp' r' :
  WriterRuns.ready wanted (writer_end x) → agreed (writer_end x) (low wp) →
  caught_up (story (writer_end x) (low wp)) r' i wp' → linked_by (mkSystem (writer_end x) r') i wp'.
Proof.
  intros Hr Hag Hcu. pose proof (ReaderKnowledge.in_floor _ _ _ _ _ _ (proj1 Hcu)) as Hfloor. simpl in Hfloor. split; [done|]. split.
  - destruct Hcu as [[] En]. split; [|done]. by split.
  - intros q c Hq Hg Hrel Hc Hw Hlow. specialize (Hag q c Hq Hg Hrel Hc Hw Hlow). lia.
Qed.

Lemma at_reader_linked {A} x i wp (p : stateful RSys A) :
  linked_by x i wp →
  ReaderKnowledge.keeps_up time_of wg (story (writer_end x) (low wp)) (reader_end x) i (p (reader_end x)) →
  ends (at_reader p x) (λ _ x', linked x').
Proof.
  intros (Hr & _ & Hag) (a & r' & wp' & Ep & Hcu & _). exists tt, (mkSystem (writer_end x) r'). unfold at_reader. rewrite Ep.
  split; [done|]. exists i, wp'. by eapply moved_on.
Qed.

Lemma at_here x i j wp :
  caught_up (story (writer_end x) (low wp)) (reader_end x) i wp →
  StatefulReader.guid <$> StatefulReader.writers (rd (reader_end x)) !! j = Some wg → j = i.
Proof.
  intros [Hin _] Hj. pose proof (StatefulFacts.wo_distinct _ (StatefulFacts.i_writers _ _ (ReaderKnowledge.in_inv _ _ _ _ _ _ Hin))) as Hnd.
  apply (NoDup_lookup _ j i wg Hnd); rewrite list_lookup_fmap; [done|].
  rewrite (ReaderKnowledge.in_at _ _ _ _ _ _ Hin). simpl. by rewrite (ReaderKnowledge.in_guid _ _ _ _ _ _ Hin).
Qed.

Lemma sent_ok (w : WSys) d m :
  WriterRuns.ready wanted w → (d, m) ∈ messages w →
  WriterFacts.message_ok wanted (WriterFacts.stored w) (WriterFacts.last_num w) (d, m) ∧ WriterFacts.last_num w < 2 ^ 62.
Proof.
  intros [Hi _] Hm. pose proof (WriterFacts.v_sent _ _ Hi) as Hs. rewrite Forall_forall in Hs.
  split; [by apply Hs|apply Hi].
Qed.

Lemma data_acceptable x i wp d c q received now :
  linked_by x i wp → admissible x (DataArrives d c q received now) →
  ReaderKnowledge.acceptable time_of rcfg wg (story (writer_end x) (low wp)) (reader_end x) received now ∧ number received = number c.
Proof.
  intros (Hr & Hcu & Hag) (Hm & Hd & (Hs & Hg & Hread & Hfs) & Ht & Hfit & Hfil & Hroom).
  destruct (sent_ok _ _ _ Hr Hm) as [(Hwf & Hn & _) Htop].
  assert (number received = number c) as En by (unfold number; by rewrite (ss_number _ _ Hs)).
  split; [|done]. split; [|done| |done|done|done|].
  - split_and!; [done|split|done|done]; [rewrite (ss_number _ _ Hs); done|].
    unfold number in *. rewrite (ss_number _ _ Hs). lia.
  - simpl. lia.
  - intros payload Hlen Hoct. exists d, c, q. split; [done|]. destruct Hs as [Hsn Hk Hts Hl Ho]. split; try done.
    + simpl. congruence.
    + simpl. unfold octets_of in *. simpl. rewrite <-Hl, <-Hoct in Ho. rewrite <-Hl. done.
Qed.

Lemma data_arrives x d c q received now :
  linked x → admissible x (DataArrives d c q received now) → ends (run (DataArrives d c q received now) x) (λ _ x', linked x').
Proof.
  intros (i & wp & Hx) Hadm. destruct (data_acceptable x i wp d c q received now Hx Hadm) as [Hacc _].
  eapply at_reader_linked; [exact Hx|]. eapply ReaderKnowledge.advances_keeps_up.
  by eapply (ReaderKnowledge.processDataMsg_advances time_of time_mono rcfg ndebug listens wg wg_known); [apply Hx|].
Qed.

Lemma heartbeat_arrives x d first last count final live :
  linked x → admissible x (HeartbeatArrives d first last count final live) →
  ends (run (HeartbeatArrives d first last count final live) x) (λ _ x', linked x').
Proof.
  intros (i & wp & Hx) (Hm & Hd). pose proof Hx as (Hr & Hcu & Hag). destruct (sent_ok _ _ _ Hr Hm) as [((Hfw & Hf) & (Hlw & Hl) & _) Htop].
  eapply at_reader_linked; [exact Hx|].
  eapply (ReaderKnowledge.processHeartbeatMsg_keeps_up time_of time_mono rcfg ndebug listens wg); [exact Hcu|..].
  - split; [done|lia].
  - split; [done|lia].
  - intros n Hn. right. right. by exists d, first, last, count, final, live.
  - simpl. lia.
  - simpl. lia.
Qed.

Lemma gap_arrives x d gap :
  linked x → admissible x (GapArrives d gap) → ends (run (GapArrives d gap) x) (λ _ x', linked x').
Proof.
  intros (i & wp & Hx) (Hm & Hd). pose proof Hx as (Hr & Hcu & Hag). destruct (sent_ok _ _ _ Hr Hm) as [[(Hsw & Hst) Hb Hset Ha] Htop].
  pose proof (BitmapFacts.inv_room _ Hset) as [Hbw _].
  assert (∀ n, GapBuilder.announces gap n → 0 < n <= WriterFacts.last_num (writer_end x)) as Hrange by (intros n Hn; apply (Ha n Hn)).
  eapply at_reader_linked; [exact Hx|].
  eapply (ReaderKnowledge.processGapMsg_keeps_up time_of time_mono rcfg ndebug listens wg); [exact Hcu| |done|].
  - split_and!; [done|split; [done|simpl in Hb |- *; unfold BitmapRange.base; lia]|].
    pose proof (BitmapFacts.for_each_wf _ Hset) as Hfw. rewrite Forall_forall in Hfw. apply Forall_forall. intros n Hn.
    split; [by apply Hfw|]. assert (BitmapFacts.mem (gap_list gap) (SN.val n)) as Hmem.
    { assert (item_val n ∈ item_val <$> BitmapRange.for_each (gap_list gap)) as Hv by by apply list_elem_of_fmap_2.
      rewrite (BitmapFacts.for_each_spec _ Hset) in Hv. by apply list_elem_of_filter in Hv as [? _]. }
    destruct (Hrange (SN.val n)); [by right|lia].
  - intros n Hn. split; [right; left; by exists d, gap|]. apply Hrange, Hn.
Qed.

(** ** Steps of the writer *)

Lemma at_writer_linked x op i wp :
  linked_by x i wp → WriterRuns.admissible wanted (writer_end x) op → (∀ n, WriterRuns.acks op rg n → n <= low wp) →
  ends (at_writer (WriterRuns.perform ndebug op) x) (λ _ x', linked_by x' i wp ∧ reader_end x' = reader_end x ∧
    StatefulWriter.cfg (wr (writer_end x')) = StatefulWriter.cfg (wr (writer_end x))).
Proof.
  intros (Hr & [Hin En] & Hag) Hadm Hacks. destruct (WriterRuns.perform_spec ndebug wanted op (writer_end x) Hr Hadm) as (a & w' & Ep & Hr' & Hst).
  exists tt, (mkSystem w' (reader_end x)). unfold at_writer. rewrite Ep. split; [done|].
  split; [|split; [done|apply Hst]]. split; [done|]. split.
  - split; [|done]. eapply ReaderKnowledge.informed_on; [|exact Hin]. apply story_goes_on; apply Hst.
  - intros p' c Hp' Hg Hrel Hc Hw Hlow. rewrite <-Hg in Hw.
    destruct (WriterOps.sd_low _ _ _ _ Hst p' c Hp' Hrel Hc Hw Hlow) as [(p & Hp & Hsame & Hle)|Hack].
    2: { rewrite Hg in Hack. by apply Hacks. }
    pose proof (WriterOps.low_bound _ _ _ (proj1 Hr) Hp) as Hbound. pose proof (WriterFacts.same_guid _ _ Hsame) as Eg.
    destruct Hsame as (_ & _ & Erel & _).
    destruct (WriterOps.sd_stored _ _ _ _ Hst c Hc) as [Hc'|]; [|lia].
    apply (Hag p c); [done|congruence|congruence|done|by rewrite <-Hg|done].
Qed.

(** What the reader acknowledges makes sense to the writer. *)
Lemma acknack_valid x i wp sns count final :
  linked_by x i wp → admissible x (AckNackArrives sns count final) →
  WriterRuns.admissible wanted (writer_end x) (WriterRuns.AckNack wg rg count sns final) ∧
  ∀ n, n < SN.val (BitmapRange.base sns) → n <= low wp.
Proof.
  intros (Hr & Hcu & Hag) (Hlog & Hfirst). pose proof Hcu as [Hin _].
  destruct (ReaderKnowledge.in_acks _ _ _ _ _ _ Hin _ _ _ Hlog) as [Hset (Hbw & Hb) Hk Hm].
  pose proof (ReaderKnowledge.in_max _ _ _ _ _ _ Hin) as Hmax. simpl in Hmax.
  assert (proxy_inv wp) as Hp by (eapply (StatefulFacts.proxy_at_inv time_of); apply Hin).
  pose proof (pi_le _ Hp) as Hle. split; [|done].
  - intros p Hpr Eg. split; [done| | |].
    + split; [done|]. split; [done|]. specialize (Hk (SN.val (BitmapRange.base sns) - 1)). lia.
    + intros n Hn. specialize (Hm n Hn). lia.
    + destruct Hfirst as [|Hfirst]; [by left|right]. apply Hfirst; [done|].
      pose proof (WriterFacts.v_readers _ _ (proj1 Hr)) as Hgood. rewrite Forall_forall in Hgood.
      pose proof (WriterFacts.t_guid _ _ _ _ (WriterFacts.g_tracks _ _ _ _ _ _ (Hgood p Hpr))) as Hw.
      by apply Guid.guid_eqb_eq in Eg.
Qed.

Lemma acknack_arrives x i wp sns count final :
  linked_by x i wp → admissible x (AckNackArrives sns count final) →
  ends (run (AckNackArrives sns count final) x) (λ _ x', linked_by x' i wp ∧ reader_end x' = reader_end x ∧
    StatefulWriter.cfg (wr (writer_end x')) = StatefulWriter.cfg (wr (writer_end x))).
Proof.
  intros Hx Hadm. destruct (acknack_valid x i wp sns count final Hx Hadm) as [Hop Hk].
  by apply at_writer_linked; [|done|intros n [_ Hn]; apply Hk].
Qed.

Lemma step_linked x st : linked x → admissible x st → ends (run st x) (λ _ x', linked x').
Proof.
  intros Hlink Hadm. pose proof Hlink as (i & wp & Hx). pose proof Hx as (_ & Hcu & _). destruct st.
  - destruct Hadm as [Hop Hno]. eapply ends_impl; [apply (at_writer_linked x op i wp); [done|done|]|by intros [] x' [? _]; exists i, wp].
    intros n Hn. destruct op; try done. destruct Hn as [Hn _]. by rewrite Hno in Hn.
  - by apply data_arrives.
  - by apply heartbeat_arrives.
  - by apply gap_arrives.
  - eapply ends_impl; [by apply (acknack_arrives x i wp)|]. intros [] x' [? _]. by exists i, wp.
  - apply (at_here x i _ wp Hcu) in Hadm as ->. eapply at_reader_linked; [exact Hx|].
    by eapply (ReaderKnowledge.initial_acknack_keeps_up time_of).
  - apply (at_here x i _ wp Hcu) in Hadm as ->. eapply at_reader_linked; [exact Hx|].
    by eapply (ReaderKnowledge.heartbeat_response_keeps_up time_of).
  - destruct Hadm as [Hwf Htold]. eapply at_reader_linked; [exact Hx|].
    eapply (ReaderKnowledge.take_keeps_up time_of); [exact Hcu| |done]. intros ->. apply Htold; [done|].
    split; [|apply Hcu]. eapply list_elem_of_lookup_2, Hcu.
  - eapply at_reader_linked; [exact Hx|]. by eapply (ReaderKnowledge.read_keeps_up time_of).
Qed.

(** ** Runs *)

Fixpoint run_all (l : list Step) : stateful System unit :=
  match l with [] => mret tt | st :: l => run st;; run_all l end.

Fixpoint admissible_all x (l : list Step) : Prop :=
  match l with
  | [] => True
  | st :: l => admissible x st ∧ ∀ x', run st x = Done (tt, x') → admissible_all x' l
  end.

Lemma run_linked l x : linked x → admissible_all x l → ends (run_all l x) (λ _ x', linked x').
Proof.
  revert x. induction l as [|st l IH]; intros x Hx Hadm; cbn [run_all]; [by apply ends_ret|].
  destruct Hadm as [Hadm Hrest]. destruct (step_linked x st Hx Hadm) as ([] & x1 & E1 & Hx1).
  rewrite (bind_step _ _ _ _ _ E1). apply IH; [done|by apply Hrest].
Qed.

(** The start: a writer as it is constructed, and a reader that is matched with it and has
    heard nothing of it. *)
Record starts x : Prop := {
  so_writer : WriterRuns.constructed wanted (writer_end x);
  so_reader : StatefulFacts.inv time_of (reader_end x);
  so_listener : is_Some (StatefulReader.mp_listener (rd (reader_end x)));
  so_proxy : ∃ i w, StatefulReader.writers (rd (reader_end x)) !! i = Some w ∧ StatefulReader.guid w = wg ∧
    head (RLV.collection_ (WriterProxy.guid_as_vector_ w)) = Some wg ∧ maxv w = 0 ∧ low w = 0 ∧
    SN.val (WriterProxy.last_notified_ w) = 0;
  so_history c : ReaderKnowledge.has (reader_end x) c → writerGUID c ≠ wg;
  so_log sns count final : StatefulReader.AckNack wg sns count final ∉ StatefulReader.log (rd (reader_end x))
}.

Lemma starts_linked x : starts x → linked x.
Proof.
  intros [Hw Hr Hl (i & wp & Hat & Hg & Hv & Hm & Hlow & Hn) Hh Hlog]. exists i, wp. split; [by apply WriterRuns.constructed_ready|]. split.
  - split; [|congruence]. split; try done.
    + intros c Hc Eg. by destruct (Hh c (or_introl Hc)).
    + intros n Hk. left. left. assert (proxy_inv wp) as Hp by by eapply (StatefulFacts.proxy_at_inv time_of).
      destruct Hk as [Hk|Hk]; [lia|]. pose proof (pi_range _ Hp n Hk). lia.
    + intros c Hc Eg. by destruct (Hh c Hc).
    + unfold ordered. rewrite filter_none; [constructor|]. intros c Hc. apply Hh. by right.
    + intros c Hc Eg. by destruct (Hh c (or_intror Hc)).
    + simpl. destruct Hw as (c & a & us & att & e & -> & _). simpl. rewrite Hm. done.
    + intros sns count final Hin. by destruct (Hlog sns count final).
  - intros p c Hp. destruct Hw as (c0 & a & us & att & e & Ew & _). rewrite Ew in Hp. by apply not_elem_of_nil in Hp.
Qed.

(** What the writer counts as acknowledged by the reader was told to the application. *)
Lemma linked_told x p c :
  linked x → p ∈ StatefulWriter.readers (wr (writer_end x)) → ReaderProxy.guid p = rg → ReaderProxy.is_reliable_ p = true →
  c ∈ WriterFacts.stored (writer_end x) → wanted rg c → number c ∉ ProxyFacts.num <$> ReaderProxy.changes p →
  ∃ c', c' ∈ StatefulFacts.news (StatefulFacts.calls (rd (reader_end x))) ∧ writerGUID c' = wg ∧ same_sample c c'.
Proof.
  intros (i & wp & Hr & Hcu & Hag) Hp Hg Hrel Hc Hw Hno. pose proof Hr as [Hi _].
  assert (number c <= SN.val (ReaderProxy.changes_low_mark_ p)) as Hlow.
  { destruct (Z.le_gt_cases (number c) (SN.val (ReaderProxy.changes_low_mark_ p))) as [|Hlt]; [done|]. destruct Hno.
    pose proof (WriterFacts.v_readers _ _ Hi) as Hgood. rewrite Forall_forall in Hgood.
    apply (WriterFacts.g_covers _ _ _ _ _ _ (Hgood p Hp)); [done|by rewrite Hg|lia]. }
  specialize (Hag p c Hp Hg Hrel Hc Hw Hlow).
  pose proof (WriterOps.number_range wanted (writer_end x) c Hi Hc) as [Hcw Hcr].
  destruct (ReaderKnowledge.caught_up_told time_of wg _ _ _ _ (number c) Hcu Hag) as [Hexp|(c' & Hnew & Eg & En & Hs)].
  - exfalso. destruct Hexp as [|[(d & gap & Hm & Hd & Ha)|(d & first & last & count & final & live & Hm & Hlt)]]; [lia|..].
    + destruct (sent_ok _ _ _ Hr Hm) as [[_ _ _ Hsound] _]. destruct (Hsound _ Ha) as [_ Hun]. by apply (Hun rg c).
    + destruct (sent_ok _ _ _ Hr Hm) as [(_ & _ & Hfirst) _]. specialize (Hfirst c Hc). lia.
  - exists c'. split; [done|]. split; [done|]. destruct Hs as (d & c0 & q & Hm & Hsame).
    destruct (sent_ok _ _ _ Hr Hm) as [(_ & _ & Heq) _]. assert (number c = number c0) as En0.
    { rewrite <-En. unfold number. by rewrite <-(ss_number _ _ Hsame). }
    rewrite (Heq c Hc En0). by destruct Hsame.
Qed.

(** ** Recovery

    The writer's statuses of the number [n] are followed through a round of the protocol. *)

Import ChangeForReader.

Definition owes (w : WSys) (j : nat) (n : Z) (ok : ChangeForReaderStatus_t → Prop) : Prop :=
  ∃ p, StatefulWriter.readers (wr w) !! j = Some p ∧ ReaderProxy.guid p = rg ∧ ReaderProxy.is_reliable_ p = true ∧
    ∀ d, d ∈ ReaderProxy.changes p → ProxyFacts.num d = n → ok (status_ d).

Lemma at_writer_ends {A} x (p : stateful WSys A) (Q : WSys → Prop) :
  ends (p (writer_end x)) (λ _ w', Q w') → ends (at_writer p x) (λ _ x', Q (writer_end x')).
Proof.
  intros (a & w' & Ep & HQ). exists tt, (mkSystem w' (reader_end x)). unfold at_writer. by rewrite Ep.
Qed.

(** A step of the writer that acknowledges nothing. *)
Lemma own_step x i wp op (Q : WSys → Prop) :
  linked_by x i wp → WriterRuns.admissible wanted (writer_end x) op → (∀ n, ¬ WriterRuns.acks op rg n) →
  ends (WriterRuns.perform ndebug op (writer_end x)) (λ _ w', Q w') →
  ends (run (AtWriter op) x) (λ _ x', linked_by x' i wp ∧ reader_end x' = reader_end x ∧
    StatefulWriter.cfg (wr (writer_end x')) = StatefulWriter.cfg (wr (writer_end x)) ∧ Q (writer_end x')).
Proof.
  intros Hx Hadm Hno HQ. eapply ends_impl.
  { apply ends_and; [apply (at_writer_linked x op i wp Hx Hadm)|by apply at_writer_ends]. intros n Hn. by destruct (Hno n). }
  intros [] x' [(H1 & H2 & H3) H4]. done.
Qed.

Lemma rg_eqb : Guid.eqb rg rg = true.
Proof. by apply Guid.guid_eqb_eq. Qed.

Lemma suppression_step x i wp j p :
  linked_by x i wp → StatefulWriter.readers (wr (writer_end x)) !! j = Some p → ReaderProxy.guid p = rg →
  ends (run (AtWriter (WriterRuns.NackSupression rg)) x) (λ _ x', linked_by x' i wp ∧ reader_end x' = reader_end x ∧
    StatefulWriter.cfg (wr (writer_end x')) = StatefulWriter.cfg (wr (writer_end x)) ∧
    StatefulWriter.readers (wr (writer_end x')) !! j = Some (WriterOps.suppressed p)).
Proof.
  intros Hx Hp Hg. apply (own_step x i wp _ (λ w', StatefulWriter.readers (wr w') !! j = Some (WriterOps.suppressed p)) Hx); [done|intros n []|].
  eapply ends_impl; [apply (WriterOps.nack_supression_spec wanted), Hx|]. intros [] w' (_ & _ & Hs).
  apply (Hs rg_wf j p Hp). rewrite Hg. apply rg_eqb.
Qed.

Lemma request_step x i wp j p sns count final n :
  linked_by x i wp → StatefulWriter.readers (wr (writer_end x)) !! j = Some p → ReaderProxy.guid p = rg →
  ReaderProxy.is_reliable_ p = true → StatefulWriter.c_guid (StatefulWriter.cfg (wr (writer_end x))) = wg →
  (∀ d, d ∈ ReaderProxy.changes p → ProxyFacts.num d = n → status_ d ≠ UNDERWAY) →
  admissible x (AckNackArrives sns count final) → BitmapFacts.exact sns → ReaderProxy.next_expected_acknack_count_ p <= count →
  0 < SN.val (BitmapRange.base sns) → BitmapFacts.mem sns n →
  ends (run (AckNackArrives sns count final) x) (λ _ x', linked_by x' i wp ∧ reader_end x' = reader_end x ∧
    StatefulWriter.cfg (wr (writer_end x')) = StatefulWriter.cfg (wr (writer_end x)) ∧
    owes (writer_end x') j n (λ st, st ≠ UNDERWAY ∧ st ≠ UNACKNOWLEDGED)).
Proof.
  intros Hx Hp Hg Hrel Hcg Hst Hadm Hex Hcount Hb Hmem. pose proof Hx as ([Hi _] & _). eapply ends_impl.
  { apply ends_and; [by apply (acknack_arrives x i wp)|].
    apply (at_writer_ends x _ (λ w', owes w' j n (λ st, st ≠ UNDERWAY ∧ st ≠ UNACKNOWLEDGED))). simpl. rewrite <-Hcg, <-Hg.
    eapply ends_bind; [apply (WriterRuns.acknack_taken ndebug wanted _ j p); [done|done|done| |done]|].
    { apply (acknack_valid x i wp sns count final Hx Hadm); [by eapply list_elem_of_lookup_2|]. rewrite Hg. apply rg_eqb. }
    intros b w2 (_ & w1 & p1 & Ha & [Hsame _ _ Hch] & Hsh). apply ends_ret. pose proof (WriterFacts.acts_readers _ _ _ _ Ha) as Er.
    assert (StatefulWriter.readers (wr w1) !! j = Some p1) as Hp1 by (rewrite Er; apply list_lookup_insert_eq; by eapply lookup_lt_Some).
    rewrite <-(WriterFacts.fo_readers _ _ (WriterFacts.se_forgets _ _ Hsh)) in Hp1.
    exists p1. split_and!; [done|by rewrite (WriterFacts.same_guid _ _ Hsame)| |].
    - destruct Hsame as (_ & _ & -> & _). done.
    - intros d Hd En. rewrite Hch, decide_True in Hd by done.
      apply list_elem_of_fmap in Hd as (e & -> & He%list_elem_of_filter). destruct He as [_ He].
      unfold ProxyFacts.requested_by, markAllFragmentsAsUnsent in *. case_bool_decide as Hreq.
      + by destruct (negb _).
      + specialize (Hst e He En). split; [done|]. intros Hun. apply Hreq. by rewrite En. }
  intros [] x' [(H1 & H2 & H3) H4]. done.
Qed.

Lemma response_step x i wp j n :
  linked_by x i wp → owes (writer_end x) j n (λ st, st ≠ UNDERWAY ∧ st ≠ UNACKNOWLEDGED) →
  ends (run (AtWriter WriterRuns.NackResponse) x) (λ _ x', linked_by x' i wp ∧ reader_end x' = reader_end x ∧
    StatefulWriter.cfg (wr (writer_end x')) = StatefulWriter.cfg (wr (writer_end x)) ∧
    owes (writer_end x') j n (λ st, st ≠ ACKNOWLEDGED → st = UNSENT)).
Proof.
  intros Hx (p & Hp & Hg & Hrel & Hst).
  apply (own_step x i wp _ (λ w', owes w' j n (λ st, st ≠ ACKNOWLEDGED → st = UNSENT)) Hx); [done|intros m []|].
  eapply ends_impl; [apply (WriterOps.nack_response_spec wanted), Hx|]. intros [] w' (_ & _ & Hall).
  destruct (Forall2_lookup_l _ _ _ _ _ Hall Hp) as (p' & Hp' & Hre & Hch). pose proof (WriterFacts.rs_same _ _ Hre) as Hsame.
  exists p'. split_and!; [done|by rewrite (WriterFacts.same_guid _ _ Hsame)|by destruct Hsame as (_ & _ & -> & _)|].
  rewrite Hch. intros d (e & -> & He)%list_elem_of_fmap En Hack. unfold WriterOps.converted in *.
  case_bool_decide as Hreq; [done|]. destruct (Hst e He En) as [H1 H2]. by destruct (status_ e).
Qed.

(** What the reader misses and the writer owes it is unsent. *)
Lemma due_unsent x i wp j c :
  linked_by x i wp → owes (writer_end x) j (number c) (λ st, st ≠ ACKNOWLEDGED → st = UNSENT) →
  c ∈ WriterFacts.stored (writer_end x) → wanted rg c → low wp < number c →
  ∃ p, p ∈ StatefulWriter.readers (wr (writer_end x)) ∧ ReaderProxy.guid p = rg ∧ WriterOps.is_unsent c p = true.
Proof.
  intros ([Hi _] & _ & Hag) (p & Hp%list_elem_of_lookup_2 & Hg & Hrel & Hst) Hc Hw Hlt. exists p. split; [done|]. split; [done|].
  pose proof (WriterFacts.v_readers _ _ Hi) as Hgood. rewrite Forall_forall in Hgood. specialize (Hgood p Hp).
  pose proof (WriterFacts.g_tracks _ _ _ _ _ _ Hgood) as Htr.
  assert (number c ∈ ProxyFacts.num <$> ReaderProxy.changes p) as (d & En & Hd)%list_elem_of_fmap.
  { apply (WriterFacts.g_covers _ _ _ _ _ _ Hgood); [done|by rewrite Hg|].
    destruct (Z.lt_ge_cases (SN.val (ReaderProxy.changes_low_mark_ p)) (number c)) as [|Hge]; [done|].
    specialize (Hag p c Hp Hg Hrel Hc Hw Hge). lia. }
  pose proof (WriterFacts.t_refers _ _ _ _ Htr) as Href. rewrite Forall_forall in Href. destruct (Href d Hd) as (_ & _ & Hack & _).
  apply list_elem_of_lookup in Hd as Hk. destruct Hk as [k Hk]. unfold WriterOps.is_unsent.
  rewrite (proj2 (ProxyFacts.at_num_Some _ _ k d (ProxyFacts.p_sorted _ (WriterFacts.t_ok _ _ _ _ Htr))) (conj Hk (eq_sym En))).
  apply bool_decide_true. by apply (Hst d Hd).
Qed.

Lemma resend_step x i wp j c general fuel :
  linked_by x i wp → owes (writer_end x) j (number c) (λ st, st ≠ ACKNOWLEDGED → st = UNSENT) →
  c ∈ WriterFacts.stored (writer_end x) → wanted rg c → low wp < number c → WriterFacts.whole c →
  WriterFacts.willing (E := E) → WriterOps.reaches (E := E) →
  ends (run (AtWriter (WriterRuns.Deliver general (S fuel) c)) x) (λ _ x', linked_by x' i wp ∧ reader_end x' = reader_end x ∧
    ∃ d q, rg ∈ d ∧ WriterOps.newly (writer_end x) (writer_end x') (d, DATA c q)).
Proof.
  intros Hx Hown Hc Hw Hlt Hwh Hwill Hreach. destruct (due_unsent x i wp j c Hx Hown Hc Hw Hlt) as (p & Hp & Hg & Hun).
  eapply ends_impl; [apply (own_step x i wp _ (λ w', ∃ d q, rg ∈ d ∧ WriterOps.newly (writer_end x) w' (d, DATA c q)) Hx)|by intros [] x' (H1 & H2 & _ & H3)].
  - split; [lia|done].
  - intros n [].
  - pose proof Hx as ([Hi _] & _). eapply ends_bind; [by apply (WriterOps.deliver_sample_spec wanted)|].
    intros code w' (_ & w1 & _ & (rs & _ & _ & Hcode & Hdel) & Hsh). apply ends_ret.
    destruct (Hdel (Hcode Hwill) (or_intror Hreach)) as [_ Hd]. destruct (Hd p Hp Hun) as (d & q & Hpd & Hm).
    exists d, q. rewrite <-Hg. split; [done|]. destruct Hm as (ms & Em & Hm).
    destruct (WriterFacts.sh_sent _ _ (WriterFacts.settles_shrinks _ _ Hsh)) as [ms' Em'].
    exists (ms ++ ms'). rewrite Em', Em, app_assoc. split; [done|]. apply elem_of_app. by left.
Qed.

Lemma arrival_step x i wp d c q received now :
  linked_by x i wp → admissible x (DataArrives d c q received now) → ReaderKnowledge.generous (P := P) → number c <= low wp + 1 →
  ends (run (DataArrives d c q received now) x) (λ _ x', ∃ wp', linked_by x' i wp' ∧ number c <= low wp').
Proof.
  intros Hx Hadm Hgen Hn. destruct (data_acceptable x i wp d c q received now Hx Hadm) as [Hacc En]. pose proof Hx as (Hr & Hcu & Hag).
  destruct (ReaderKnowledge.processDataMsg_advances time_of time_mono rcfg ndebug listens wg wg_known _ _ i wp received now Hcu Hacc)
    as (b & r' & wp' & Ep & Hcu' & _ & Hadv).
  exists tt, (mkSystem (writer_end x) r'). cbn [run]. unfold at_reader. rewrite Ep. split; [done|]. exists wp'.
  split; [by eapply moved_on|]. rewrite En in Hadv. by apply Hadv.
Qed.

(** The reader is due to answer a heartbeat, and the writer takes the answer and gets ready
    to send again. *)
Definition asking (i : nat) : list Step := [AtWriter (WriterRuns.NackSupression rg); HeartbeatResponse i].

Definition answering (sns : SequenceNumberSet_t) (count : Z) : list Step :=
  [AckNackArrives sns count (BitmapRange.empty sns); AtWriter WriterRuns.NackResponse].

(** The reader's next acknowledgement. *)
Definition next_count x : Z := u32 (StatefulReader.acknack_count_ (rd (reader_end x)) + 1).

Lemma asked x i wp j p :
  linked_by x i wp → StatefulWriter.readers (wr (writer_end x)) !! j = Some p → ReaderProxy.guid p = rg →
  WriterProxy.state_ wp = WriterProxy.IDLE → WriterProxy.is_datasharing_writer_ wp = false → low wp < maxv wp →
  ends (run_all (asking i) x) (λ _ x', ∃ wp' sns, linked_by x' i wp' ∧ low wp' = low wp ∧
    StatefulReader.log (rd (reader_end x')) =
      StatefulReader.log (rd (reader_end x)) ++ [StatefulReader.AckNack wg sns (next_count x) (BitmapRange.empty sns)] ∧
    BitmapFacts.exact sns ∧ SN.val (BitmapRange.base sns) = low wp + 1 ∧ BitmapFacts.mem sns (low wp + 1) ∧
    StatefulWriter.cfg (wr (writer_end x')) = StatefulWriter.cfg (wr (writer_end x)) ∧
    StatefulWriter.readers (wr (writer_end x')) !! j = Some (WriterOps.suppressed p)).
Proof.
  intros Hx Hp Hg Hst Hds Hmiss. destruct (suppression_step x i wp j p Hx Hp Hg) as ([] & x1 & E1 & Hx1 & Er1 & Ec1 & Hp1).
  pose proof Hx1 as (Hr1 & Hcu1 & Hag1).
  destruct (ReaderKnowledge.heartbeat_response_asks time_of wg _ _ i wp Hcu1 Hst Hds Hmiss)
    as (r2 & wp2 & sns & E2 & Hcu2 & Elow & Hlog & Hex & Hb & Hmem).
  rewrite Er1 in Hlog. exists tt, (mkSystem (writer_end x1) r2). unfold asking. cbn [run_all]. rewrite (bind_step _ _ _ _ _ E1).
  rewrite (bind_step _ _ x1 tt (mkSystem (writer_end x1) r2)).
  2: { cbn [run]. unfold at_reader. by rewrite E2. }
  split; [done|]. exists wp2, sns. split; [by eapply moved_on|done].
Qed.

Lemma answered x i wp j p sns count :
  linked_by x i wp → StatefulWriter.readers (wr (writer_end x)) !! j = Some (WriterOps.suppressed p) → ReaderProxy.guid p = rg →
  ReaderProxy.is_reliable_ p = true → StatefulWriter.c_guid (StatefulWriter.cfg (wr (writer_end x))) = wg →
  StatefulReader.AckNack wg sns count (BitmapRange.empty sns) ∈ StatefulReader.log (rd (reader_end x)) →
  BitmapFacts.exact sns → SN.val (BitmapRange.base sns) = low wp + 1 → BitmapFacts.mem sns (low wp + 1) →
  ReaderProxy.next_expected_acknack_count_ p <= count →
  ends (run_all (answering sns count) x) (λ _ x', linked_by x' i wp ∧
    owes (writer_end x') j (low wp + 1) (λ st, st ≠ ACKNOWLEDGED → st = UNSENT)).
Proof.
  intros Hx Hp Hg Hrel Hcg Hlog Hex Hb Hmem Hcount. pose proof Hx as (_ & Hcu & _). assert (0 <= low wp) as Hpos.
  { pose proof (StatefulFacts.proxy_at_inv time_of _ _ _ (ReaderKnowledge.in_inv _ _ _ _ _ _ (proj1 Hcu))
      (ReaderKnowledge.in_at _ _ _ _ _ _ (proj1 Hcu))) as Hpi. apply (pi_low _ Hpi). }
  unfold answering. cbn [run_all].
  eapply ends_bind; [apply (request_step x i wp j (WriterOps.suppressed p) sns count (BitmapRange.empty sns) (low wp + 1)); try done|].
  - intros d (e & -> & _)%list_elem_of_fmap _. unfold WriterOps.converted. by case_bool_decide.
  - split; [done|]. left. intros Hdef. rewrite Hdef in Hb. change (SN.val SN.default) with 0 in Hb. lia.
  - lia.
  - intros [] x3 (Hx3 & _ & _ & Hown). eapply ends_bind; [by apply (response_step x3 i wp j (low wp + 1))|].
    intros [] x4 (Hx4 & _ & _ & Hown4). by apply ends_ret.
Qed.

(** What the application of the reader was told of the writer's samples. *)
Definition told x : list CacheChange_t :=
  filter (λ c, writerGUID c = wg) (StatefulFacts.news (StatefulFacts.calls (rd (reader_end x)))).

(** C3: a constructed writer and a reader that has heard nothing of it, whose samples are not
    split into fragments and have rising times, go through any sequence of admissible steps:
    the network loses, repeats and reorders data, heartbeats, gaps and acknowledgements; the
    first acknowledgement, with base zero, of a reader that is not volatile arrives only
    while nothing of the history counts as acknowledged by it; readers join that want
    nothing of the history; the reader has room for what arrives and no filter drops it; its
    listener removes nothing while it is called, and its application takes only samples it
    was told of.  Then no step meets undefined behaviour or a failing
    assertion of the writer or the reader, and the application is told only of samples that
    the writer sent, each at most once and in the order of their numbers. *)
Theorem exchange_safe x0 l (Hstart : starts x0) (Hadm : admissible_all x0 l) :
  ends (run_all l x0) (λ _ x,
    StronglySorted Z.lt (number <$> told x) ∧
    ∀ c', c' ∈ told x → ∃ d c q, (d, DATA c q) ∈ messages (writer_end x) ∧ same_sample c c').
Proof.
  eapply ends_impl; [apply run_linked; [by apply starts_linked|done]|]. intros [] x (i & wp & _ & [Hin _] & _).
  split; [apply (ReaderKnowledge.in_order _ _ _ _ _ _ Hin)|]. intros c' [Eg Hc]%list_elem_of_filter.
  destruct (ReaderKnowledge.in_sample _ _ _ _ _ _ Hin c' (or_intror Hc) Eg) as (d & c & q & Hm & Hs).
  exists d, c, q. split; [done|]. by destruct Hs.
Qed.

(** C1: in the runs of [exchange_safe], with samples that are not split and have rising
    times, readers that join wanting nothing of the history, a first acknowledgement with
    base zero only while nothing counts as acknowledged by a reader that is not volatile, a
    reader with room for what arrives, a listener that removes nothing while it is called
    and an application that takes only what it was told of, a change in the history that the writer counts as acknowledged by all its readers was told
    to the application of the reader, if that is reliable and wants it, with its number, its
    kind, its time and its octets, although data, heartbeats, gaps and acknowledgements are
    lost, repeated and reordered on the way. *)
Theorem acknowledged_was_delivered x0 l (Hstart : starts x0) (Hadm : admissible_all x0 l) :
  ends (run_all l x0) (λ _ x, ∀ p c,
    p ∈ StatefulWriter.readers (wr (writer_end x)) → ReaderProxy.guid p = rg → ReaderProxy.is_reliable_ p = true →
    c ∈ WriterFacts.stored (writer_end x) → wanted rg c →
    StatefulWriter.is_acked_by_all ndebug (sequenceNumber c) (writer_end x) = Done (true, writer_end x) →
    ∃ c', c' ∈ told x ∧ same_sample c c').
Proof.
  eapply ends_impl; [apply run_linked; [by apply starts_linked|done]|]. intros [] x Hx p c Hp Hg Hrel Hc Hw Hacked.
  pose proof Hx as (i & wp & Hready & _).
  destruct (WriterRuns.acked_by_all_spec ndebug wanted (writer_end x) c (proj1 Hready) Hc) as (b & Eb & Hb).
  rewrite Hacked in Eb. injection Eb as <-.
  destruct (linked_told x p c Hx Hp Hg Hrel Hc Hw) as (c' & Hnew & Eg & Hs); [by apply Hb|].
  exists c'. split; [|done]. by apply list_elem_of_filter.
Qed.

Definition reachable x : Prop := ∃ x0 l, starts x0 ∧ admissible_all x0 l ∧ run_all l x0 = Done (tt, x).

Lemma reachable_linked x i wp :
  reachable x → StatefulReader.writers (rd (reader_end x)) !! i = Some wp → StatefulReader.guid wp = wg → linked_by x i wp.
Proof.
  intros (x0 & l & Hs & Hadm & Er) Hat Hg. destruct (run_linked l x0 (starts_linked x0 Hs) Hadm) as ([] & x' & Er' & j & wp' & Hx).
  rewrite Er in Er'. injection Er' as <-. pose proof Hx as (_ & Hcu & _).
  assert (i = j) as -> by (apply (at_here x j i wp' Hcu); by rewrite Hat; simpl; rewrite Hg).
  rewrite (ReaderKnowledge.in_at _ _ _ _ _ _ (proj1 Hcu)) in Hat. by injection Hat as <-.
Qed.

(** C2: a sample that was lost on the way is recovered.  In a state reached as in [exchange_safe],
    with samples that are not split and readers that join wanting nothing of the history, the
    reader has heard of the next number it misses, and a change with this number that it
    wants is not split.  Then, once the writer's suppression timer for the reader has run,
    the reader's answer to a heartbeat is an acknowledgement with exactly this number as base
    that asks for it.  When the answer arrives, with a count the writer
    has not seen, and the writer has run its response, the next delivery of the change, if
    that is still in the history, sends the change to the reader anew, with a message group
    that takes everything and locators that reach it; and when this data arrives at a reader
    with memory for it, everything up to its number counts as received. *)
Theorem lost_sample_recovered x i wp j p c general fuel
    (Hx : reachable x) (Hat : StatefulReader.writers (rd (reader_end x)) !! i = Some wp) (Hwg : StatefulReader.guid wp = wg)
    (Hp : StatefulWriter.readers (wr (writer_end x)) !! j = Some p) (Hrg : ReaderProxy.guid p = rg)
    (Hrel : ReaderProxy.is_reliable_ p = true) (Hcg : StatefulWriter.c_guid (StatefulWriter.cfg (wr (writer_end x))) = wg)
    (Hidle : WriterProxy.state_ wp = WriterProxy.IDLE) (Hds : WriterProxy.is_datasharing_writer_ wp = false)
    (Hc : number c = low wp + 1) (Hheard : number c <= maxv wp) (Hw : wanted rg c) (Hwhole : WriterFacts.whole c)
    (Hcount : ReaderProxy.next_expected_acknack_count_ p <= next_count x)
    (Hgroup : WriterFacts.willing (E := E)) (Hreach : WriterOps.reaches (E := E)) (Hpools : ReaderKnowledge.generous (P := P)) :
  ends (run_all (asking i) x) (λ _ x1, ∃ sns,
    StatefulReader.log (rd (reader_end x1)) =
      StatefulReader.log (rd (reader_end x)) ++ [StatefulReader.AckNack wg sns (next_count x) (BitmapRange.empty sns)] ∧
    SN.val (BitmapRange.base sns) = number c ∧ BitmapFacts.mem sns (number c) ∧
    ends (run_all (answering sns (next_count x)) x1) (λ _ x2, c ∈ WriterFacts.stored (writer_end x2) →
      ends (run (AtWriter (WriterRuns.Deliver general (S fuel) c)) x2) (λ _ x3, ∃ d q ms,
        messages (writer_end x3) = messages (writer_end x2) ++ ms ∧ (d, DATA c q) ∈ ms ∧ rg ∈ d ∧
        ∀ received now, admissible x3 (DataArrives d c q received now) →
          ends (run (DataArrives d c q received now) x3) (λ _ x4, ∃ wp4, proxy_of (reader_end x4) wp4 ∧ number c <= low wp4)))).
Proof.
  pose proof (reachable_linked x i wp Hx Hat Hwg) as Hl.
  eapply ends_impl; [apply (asked x i wp j p); [done..|lia]|].
  intros [] x1 (wp1 & sns & Hl1 & Elow & Hlog & Hex & Hb & Hmem & Ecfg & Hp1). exists sns. rewrite Hc. split_and!; [done..|].
  rewrite <-Elow in Hb, Hmem. eapply ends_impl; [apply (answered x1 i wp1 j p); try done|].
  { by rewrite Ecfg. }
  { rewrite Hlog. apply elem_of_app. right. by left. }
  intros [] x2 (Hl2 & Hown) Hst.
  eapply ends_impl; [apply (resend_step x2 i wp1 j c); [done|by rewrite Hc, <-Elow|done|done|lia|done..]|].
  intros [] x3 (Hl3 & _ & d & q & Hd & ms & Em & Hm). exists d, q, ms. split_and!; [done..|]. intros received now Hadm.
  rewrite <-Hc. eapply ends_impl; [apply (arrival_step x3 i wp1); [done|done|done|lia]|]. intros [] x4 (wp4 & (_ & Hcu & _) & Hle).
  exists wp4. split; [|done]. split; [eapply list_elem_of_lookup_2, Hcu|apply Hcu].
Qed.

End exchange.
(** ** An exchange

    A sample is published and sent, its data arrives twice, and the reader answers a
    heartbeat. *)

#[local] Existing Instance WriterRuns.net_env.
#[local] Existing Instance WriterRuns.net_laws.
#[local] Existing Instance StatefulFacts.plenty_pools.
#[local] Existing Instance StatefulFacts.plenty_laws.
#[local] Existing Instance StatefulFacts.watching.

Abbreviation sample_writer := StatefulFacts.sample_writer.
Abbreviation sample_config := StatefulFacts.sample_config.

Definition sample_reader : Guid.GUID_t := WriterRuns.net_guid 0x204.

Definition writer_config : StatefulWriter.Config :=
  StatefulWriter.mkConfig sample_writer 1000 false ReaderLocator.TRANSIENT_LOCAL true
    false false 65536 false false None [] false 4 1.

Abbreviation SampleSystem := (System (E := WriterRuns.Net) (P := StatefulFacts.Plenty) (L := unit)).

Definition sample_system : SampleSystem :=
  mkSystem (WriterMatching.fresh writer_config (RLV.mkConfig 0 16 1) 0 WriterRuns.net_attributes [])
    (StatefulFacts.matched tt).

Abbreviation sample_run := (run false sample_config sample_writer sample_reader).
Abbreviation sample_run_all := (run_all false sample_config sample_writer sample_reader).
Abbreviation sample_admissible := (admissible sample_config WriterRuns.everything StatefulFacts.second sample_writer sample_reader).
Abbreviation sample_admissible_all :=
  (admissible_all false sample_config WriterRuns.everything StatefulFacts.second sample_writer sample_reader).

Definition next (x : SampleSystem) (st : Step) : SampleSystem :=
  match sample_run st x with Done (_, x') => x' | _ => x end.

Definition completes (x : SampleSystem) (st : Step) : bool :=
  match sample_run st x with Done _ => true | _ => false end.

Definition after (l : list Step) : SampleSystem := foldl next sample_system l.

Lemma admissible_next l st l' :
  sample_admissible (after l) st → completes (after l) st = true → sample_admissible_all (after (l ++ [st])) l' →
  sample_admissible_all (after l) (st :: l').
Proof.
  intros Had Hdone Hl. split; [done|]. intros x' Er. unfold after in Hl. rewrite foldl_app in Hl. simpl in Hl. unfold next in Hl at 1.
  fold (after l) in Hl. by rewrite Er in Hl.
Qed.

Lemma run_after l x : sample_run_all l sample_system = Done (tt, x) → x = after l.
Proof.
  unfold after. generalize sample_system as x0. induction l as [|st l IH]; intros x0 Er; cbn [run_all] in Er; [by injection Er as ->|].
  simpl. unfold next at 2. unfold mbind, stateful_bind in Er. simpl in Er. destruct (sample_run st x0) as [[[] x1]| | | |]; try done.
  by apply IH.
Qed.

Definition published : CacheChange_t :=
  with_payload (History.reference_change sample_writer SN.default) (Payload.mkPayload 0 4 (Some [1; 2; 3; 4]) 4 0).

Definition beginning : list Step :=
  [AtWriter (WriterRuns.Match (WriterRuns.net_reader 0x204 false) 0);
   AtWriter (WriterRuns.Publish published WriterHistory.default_params (mkTime 1 0))].

Definition sent_sample : CacheChange_t := default published (head (WriterFacts.stored (writer_end (after beginning)))).

Definition received_sample : CacheChange_t :=
  mkChange (kind sent_sample) sample_writer None (sequenceNumber sent_sample) (serializedPayload sent_sample)
    Payload.default_payload false (sourceTimestamp sent_sample) (mkTime 0 0) [0; 0] WriterHistory.default_params false 0 0 0.

Definition data_step : Step := DataArrives [sample_reader] sent_sample false received_sample (mkTime 9 0).

Definition steps : list Step :=
  beginning ++ [AtWriter (WriterRuns.Deliver true 1 sent_sample); data_step; data_step;
    AtWriter (WriterRuns.PeriodicHeartbeat false false);
    HeartbeatArrives [sample_reader] (SN.mkSN 0 1) (SN.mkSN 0 1) 2 false false; HeartbeatResponse 0;
    AckNackArrives (BitmapRange.make (SN.mkSN 0 2)) 1 true].

Lemma sample_starts : starts WriterRuns.everything StatefulFacts.second sample_writer sample_system.
Proof.
  split.
  - exists writer_config, (RLV.mkConfig 0 16 1), 0, WriterRuns.net_attributes, []. split; [done|].
    split; [apply StatefulFacts.sample_writer_wf|].
    split; [unfold RLV.config_wf; simpl; lia|]. split; [unfold WriterMatching.attributes_ok; simpl; lia|]. done.
  - apply StatefulFacts.matched_inv.
  - vm_compute. by eexists.
  - exists 0%nat, started. by vm_compute.
  - intros c [Hc|Hc]; vm_compute in Hc; by apply not_elem_of_nil in Hc.
  - intros sns count final Hin. vm_compute in Hin. repeat (apply elem_of_cons in Hin as [Hin|Hin]; [done|]). by apply not_elem_of_nil in Hin.
Qed.

Lemma received_timed : StatefulFacts.timed StatefulFacts.second received_sample.
Proof.
  split_and!; [split; [|exact StatefulFacts.sample_writer_wf]|split; range_unfold; vm_compute; split; congruence|by vm_compute].
  split; range_unfold; vm_compute; split; congruence.
Qed.

Lemma data_step_admissible (x : SampleSystem) :
  WriterFacts.messages (writer_end x) !! 1%nat = Some ([sample_reader], DATA sent_sample false) →
  History.memoryPolicy (History.m_att (ReaderHistory.hist (reader_end x))) = Pools.PREALLOCATED_WITH_REALLOC_MEMORY_MODE →
  Z.of_nat (length (StatefulFacts.changes (reader_end x))) <= 2 → sample_admissible x data_step.
Proof.
  intros Hm Hp Hl. split_and!; [by eapply list_elem_of_lookup_2|by left|by split; [split|]|exact received_timed| |done|lia].
  intros [Hpre _]. congruence.
Qed.

Lemma beginning_admissible l : sample_admissible_all (after beginning) l → sample_admissible_all sample_system (beginning ++ l).
Proof.
  intros Hl. apply (admissible_next []); [|by vm_compute|].
  { split; [|done]. split; [split_and!; [apply WriterRuns.net_guid_wf|done|apply not_elem_of_nil]|]. split; [done|].
    split; [unfold WriterMatching.attributes_ok; simpl; lia|]. split; [by left|]. by intros c Hc%not_elem_of_nil. }
  apply (admissible_next (take 1 beginning)); [|by vm_compute|exact Hl].
  split; [|done]. split; [apply StatefulFacts.sample_writer_wf|by vm_compute].
Qed.

Lemma deliver_admissible : sample_admissible (after beginning) (AtWriter (WriterRuns.Deliver true 1 sent_sample)).
Proof. split; [|done]. split; [lia|]. split; [by apply (list_elem_of_lookup_2 _ 0); vm_compute|by vm_compute]. Qed.

Lemma steps_admissible : sample_admissible_all sample_system steps.
Proof.
  apply beginning_admissible. apply (admissible_next beginning); [exact deliver_admissible|by vm_compute|].
  apply (admissible_next (take 3 steps)); [|by vm_compute|].
  { apply data_step_admissible; [by vm_compute..|]. vm_compute. congruence. }
  apply (admissible_next (take 4 steps)); [|by vm_compute|].
  { apply data_step_admissible; [by vm_compute..|]. vm_compute. congruence. }
  apply (admissible_next (take 5 steps)); [done|by vm_compute|].
  apply (admissible_next (take 6 steps)); [|by vm_compute|].
  { split; [by apply (list_elem_of_lookup_2 _ 2); vm_compute|by left]. }
  apply (admissible_next (take 7 steps)); [by vm_compute|by vm_compute|].
  apply (admissible_next (take 8 steps)); [|by vm_compute|done].
  split; [by apply (list_elem_of_lookup_2 _ 3); vm_compute|left; by vm_compute].
Qed.

Lemma exchange_safe_witness :
  ∃ x, sample_run_all steps sample_system = Done (tt, x) ∧ length (told sample_writer x) = 1%nat ∧
    ∀ c', c' ∈ told sample_writer x → ∃ d c q, (d, DATA c q) ∈ WriterFacts.messages (writer_end x) ∧ same_sample c c'.
Proof.
  destruct (exchange_safe false sample_config WriterRuns.everything StatefulFacts.second StatefulFacts.second_mono
    StatefulFacts.watching_patient sample_writer sample_reader (WriterRuns.net_guid_wf _) eq_refl sample_system steps
    sample_starts steps_admissible) as ([] & x & Er & _ & Hgenuine).
  exists x. split; [done|]. split; [|done]. apply run_after in Er as ->. by vm_compute.
Defined.

Lemma first_reader (l : list ReaderProxy.ReaderProxy) g :
  ReaderProxy.guid <$> l !! 0%nat = Some g → ReaderProxy.is_reliable_ <$> l !! 0%nat = Some true →
  ∃ p, p ∈ l ∧ ReaderProxy.guid p = g ∧ ReaderProxy.is_reliable_ p = true.
Proof. destruct l as [|p l]; [done|]. intros [= <-] [= Hr]. exists p. by split; [left|]. Qed.

(** No proxy waits for a change: it is acknowledged by all. *)
Lemma all_acknowledged (x : SampleSystem) c :
  linked WriterRuns.everything StatefulFacts.second sample_writer sample_reader x → c ∈ WriterFacts.stored (writer_end x) →
  Forall (λ p, ReaderProxy.changes p = []) (StatefulWriter.readers (WriterFacts.wr (writer_end x))) →
  StatefulWriter.is_acked_by_all false (sequenceNumber c) (writer_end x) = Done (true, writer_end x).
Proof.
  intros (i & wp & [Hi _] & _) Hc Hall. destruct (WriterRuns.acked_by_all_spec false WriterRuns.everything _ c Hi Hc) as (b & Eb & Hb).
  rewrite Eb. do 2 f_equal. apply Hb. intros p Hp. rewrite Forall_forall in Hall. rewrite (Hall p Hp). apply not_elem_of_nil.
Qed.

Lemma all_settled (l : list ReaderProxy.ReaderProxy) :
  ReaderProxy.changes <$> l = [[]] → Forall (λ p, ReaderProxy.changes p = []) l.
Proof. destruct l as [|p [|]]; [done| |done]. intros [= Hp]. by constructor. Qed.

Lemma steps_linked : linked WriterRuns.everything StatefulFacts.second sample_writer sample_reader (after steps).
Proof.
  destruct (run_linked false sample_config WriterRuns.everything StatefulFacts.second StatefulFacts.second_mono
    StatefulFacts.watching_patient sample_writer sample_reader (WriterRuns.net_guid_wf _) eq_refl steps sample_system
    (starts_linked _ _ _ _ _ sample_starts) steps_admissible) as ([] & x & Er & Hx).
  by rewrite <-(run_after steps x Er).
Qed.

Lemma sample_acknowledged :
  StatefulWriter.is_acked_by_all false (sequenceNumber sent_sample) (writer_end (after steps)) = Done (true, writer_end (after steps)).
Proof.
  apply all_acknowledged; [exact steps_linked|apply (list_elem_of_lookup_2 _ 0); vm_compute; reflexivity|].
  apply all_settled. vm_compute. reflexivity.
Qed.

Lemma acknowledged_was_delivered_witness :
  ∃ x c', sample_run_all steps sample_system = Done (tt, x) ∧ c' ∈ told sample_writer x ∧ same_sample sent_sample c'.
Proof.
  destruct (acknowledged_was_delivered false sample_config WriterRuns.everything StatefulFacts.second StatefulFacts.second_mono
    StatefulFacts.watching_patient sample_writer sample_reader (WriterRuns.net_guid_wf _) eq_refl sample_system steps
    sample_starts steps_admissible) as ([] & x & Er & Hacked).
  pose proof (run_after steps x Er) as Ex. rewrite Ex in Hacked.
  destruct (first_reader (StatefulWriter.readers (WriterFacts.wr (writer_end (after steps)))) sample_reader) as (p & Hp & Hg & Hr).
  { vm_compute. reflexivity. }
  { vm_compute. reflexivity. }
  destruct (Hacked p sent_sample Hp Hg Hr) as (c' & Hc' & Hs).
  { apply (list_elem_of_lookup_2 _ 0). vm_compute. reflexivity. }
  { exact I. }
  { exact sample_acknowledged. }
  exists x, c'. rewrite Ex at 2. exact (conj Er (conj Hc' Hs)).
Defined.

(** The data is lost, the heartbeat arrives. *)
Definition lossy_steps : list Step :=
  beginning ++ [AtWriter (WriterRuns.Deliver true 1 sent_sample); AtWriter (WriterRuns.PeriodicHeartbeat false false);
    HeartbeatArrives [sample_reader] (SN.mkSN 0 1) (SN.mkSN 0 1) 2 false false].

Lemma lossy_admissible : sample_admissible_all sample_system lossy_steps.
Proof.
  apply beginning_admissible. apply (admissible_next beginning); [exact deliver_admissible|by vm_compute|].
  apply (admissible_next (take 3 lossy_steps)); [done|by vm_compute|].
  apply (admissible_next (take 4 lossy_steps)); [|by vm_compute|done].
  split; [by apply (list_elem_of_lookup_2 _ 2); vm_compute|by left].
Qed.

Lemma lossy_reachable :
  reachable false sample_config WriterRuns.everything StatefulFacts.second sample_writer sample_reader (after lossy_steps).
Proof.
  destruct (run_linked false sample_config WriterRuns.everything StatefulFacts.second StatefulFacts.second_mono
    StatefulFacts.watching_patient sample_writer sample_reader (WriterRuns.net_guid_wf _) eq_refl lossy_steps sample_system
    (starts_linked _ _ _ _ _ sample_starts) lossy_admissible) as ([] & x & Er & _).
  exists sample_system, lossy_steps. split; [exact sample_starts|]. split; [exact lossy_admissible|].
  by rewrite <-(run_after lossy_steps x Er).
Qed.

Definition missing_proxy : WriterProxy.WriterProxy :=
  default started (StatefulReader.writers (StatefulFacts.rd (reader_end (after lossy_steps))) !! 0%nat).

Definition waiting_reader : ReaderProxy.ReaderProxy :=
  default WriterRuns.net_proxy (StatefulWriter.readers (WriterFacts.wr (writer_end (after lossy_steps))) !! 0%nat).

Lemma first_default {A} (l : list A) d : length l = 1%nat → l !! 0%nat = Some (default d (l !! 0%nat)).
Proof. by destruct l. Qed.

Lemma missing_proxy_facts :
  StatefulReader.writers (StatefulFacts.rd (reader_end (after lossy_steps))) !! 0%nat = Some missing_proxy ∧
  StatefulReader.guid missing_proxy = sample_writer ∧ WriterProxy.state_ missing_proxy = WriterProxy.IDLE ∧
  WriterProxy.is_datasharing_writer_ missing_proxy = false ∧ number sent_sample = low missing_proxy + 1 ∧
  number sent_sample <= maxv missing_proxy.
Proof. split; [apply first_default; vm_compute; reflexivity|]. split_and!; vm_compute; (reflexivity || discriminate). Qed.

Lemma waiting_reader_facts :
  StatefulWriter.readers (WriterFacts.wr (writer_end (after lossy_steps))) !! 0%nat = Some waiting_reader ∧
  ReaderProxy.guid waiting_reader = sample_reader ∧ ReaderProxy.is_reliable_ waiting_reader = true ∧
  ReaderProxy.next_expected_acknack_count_ waiting_reader <= next_count (after lossy_steps).
Proof. split; [apply first_default; vm_compute; reflexivity|]. split_and!; vm_compute; (reflexivity || discriminate). Qed.

Lemma net_generous : ReaderKnowledge.generous (P := StatefulFacts.Plenty).
Proof. split; [done|]. intros p data. by exists data. Qed.

Lemma net_willing : WriterFacts.willing (E := WriterRuns.Net).
Proof. done. Qed.

Lemma net_reaches : WriterOps.reaches (E := WriterRuns.Net).
Proof. intros e l Hl. simpl. split; [|done]. destruct l; [done|simpl; lia]. Qed.

Lemma sent_whole : WriterFacts.whole sent_sample.
Proof. by vm_compute. Qed.

Lemma lost_sample_recovered_witness :
  ∃ x1 sns, sample_run_all (asking sample_reader 0) (after lossy_steps) = Done (tt, x1) ∧
    SN.val (BitmapRange.base sns) = 1 ∧ BitmapFacts.mem sns 1 ∧
    ∃ x2, sample_run_all (answering sns 1) x1 = Done (tt, x2) ∧ (sent_sample ∈ WriterFacts.stored (writer_end x2) →
      ends (sample_run (AtWriter (WriterRuns.Deliver true 1 sent_sample)) x2) (λ _ x3, ∃ d q ms,
        WriterFacts.messages (writer_end x3) = WriterFacts.messages (writer_end x2) ++ ms ∧ (d, DATA sent_sample q) ∈ ms)).
Proof.
  destruct missing_proxy_facts as (Hat & Hg & Hidle & Hds & Hn & Hmax). destruct waiting_reader_facts as (Hp & Hrg & Hrel & Hcount).
  destruct (lost_sample_recovered false sample_config WriterRuns.everything StatefulFacts.second StatefulFacts.second_mono
    StatefulFacts.watching_patient sample_writer sample_reader (WriterRuns.net_guid_wf _) eq_refl (after lossy_steps) 0 missing_proxy 0
    waiting_reader sent_sample true 0 lossy_reachable Hat Hg
    Hp Hrg Hrel ltac:(vm_compute; reflexivity) Hidle Hds Hn Hmax I sent_whole Hcount
    net_willing net_reaches net_generous) as ([] & x1 & E1 & sns & _ & Hb & Hmem & [] & x2 & E2 & Hgo).
  assert (number sent_sample = 1) as En by (vm_compute; reflexivity).
  assert (next_count (after lossy_steps) = 1) as Ec by (vm_compute; reflexivity).
  rewrite En in Hb, Hmem. rewrite Ec in E2. exists x1, sns. split; [exact E1|]. split; [exact Hb|]. split; [exact Hmem|].
  exists x2. split; [exact E2|]. intros Hst.
  eapply ends_impl; [exact (Hgo Hst)|]. intros [] x3 (d & q & ms & Em & Hm & _). exists d, q, ms. exact (conj Em Hm).
Defined.

End Exchange.
